(* ===== verification/_CoqProject ===== *)
-Q . S2P
Prelude.v
SshBuffer.v
CxxMonad.v
SshMatch.v
SshAddr.v
SshCipher.v
SshPacket.v
SshTransport.v
SshKex.v
SshCompat.v
SshDh.v
SshKey.v
SshQueue.v
SshChannel.v
SshChannelProps.v
SshDispatch.v
SshAuth.v
SshAuthProps.v
SshLogin.v
SshSocket.v
SshSegments.v
SshIdent.v
SshKexServer.v
SshKexProps.v
SshKexRun.v
SshSession.v
SshSessionProps.v
SshConnection.v
CppStateMap.v
CppThread.v
ZlibAdler.v
ZlibCrcTables.v
ZlibCrc.v
AprBase64.v
DigestStream.v
AprMd.v
AprSha1.v
AprSha2.v
AprHash.v
AprHashProps.v
SftpPath.v
SftpAttrib.v
SftpServer.v
SftpServerProps.v
SftpReplies.v
SftpDirectory.v
SshUmac.v
SshAes.v
SshUmacProps.v
SshCtr.v
SshAlgorithms.v
SshBase64.v
SshKeyText.v
PasswordHash.v
SshRandom.v
SshText.v
