(* ===== verification/Prelude.v ===== *)
(** * A verification development of the ShieSH server

    ShieSH is an SSH-2 server for Windows: the protocol code of OpenSSH (directory
    shiesh/), rewritten in C++ around objects and threads, with an SFTP subsystem of
    its own, on top of the portable libraries it carries (zlib/, apr/, apr-util/).
    This library models its protocol core, its SFTP subsystem, and the checksum,
    digest, encoding and container routines of the libraries, and proves what makes
    them correct.

    ** The program's parts and where they are modelled

    - Bytes and messages.  [SshBuffer]: the growing byte queue and the wire
      encodings (buffer.cpp, bufaux.cpp, the get/put helpers of misc.cpp).
    - Names and addresses.  [SshMatch]: glob patterns, pattern lists and algorithm
      negotiation (match.cpp); [SshAddr]: addresses and CIDR lists (addrmatch.cpp).
    - Transport.  [SshCipher]: the cipher and MAC tables (cipher.cpp, mac.cpp);
      [SshPacket]: sending and receiving one packet (packet.cpp and the packet part
      of CoreConnection.cpp); [SshTransport]: streams of packets and re-keying;
      [SshKex]: proposals, negotiation, key derivation, bignums (kex.cpp, bufbn.cpp);
      [SshCompat]: peers with known bugs (compat.cpp).
    - The algorithms the server carries itself.  [SshUmac]: the universal hash MAC
      (umac.cpp) on any block cipher of class [Aes]; [SshAes]: AES-128 of FIPS 197 as an
      instance of it; [SshUmacProps]: UMAC against RFC 4418; [SshCtr]: the counter mode
      (cipher-ctr.cpp); [SshAlgorithms]: the two put behind the interface [Crypto] of the
      packet layer as cipher.cpp and mac.cpp do, with its laws proved.
    - Key exchange.  [SshDh]: the Diffie-Hellman groups, public values and key
      generation (dh.cpp); [SshKey]: keys, their blobs, RSA and DSA signatures and the
      host keys (key.cpp, ssh-rsa.cpp, ssh-dss.cpp, SensitiveData.cpp); [SshKexServer]:
      the dispatcher and the handlers of the server (do_ssh2_kex, kexdh_server,
      kexgex_server and kex_finish of CoreConnection.cpp), on any connection;
      [SshKexProps] and [SshKexRun]: its theorems.
    - Keys as text.  [SshBase64]: base64 (base64.cpp, uuencode.cpp); [SshKeyText]: the
      lines of key files and the fingerprints (key_read, key_write and key_fingerprint of
      key.cpp).
    - Utilities.  [SshRandom]: the generator of random numbers (Arc4Random.cpp), behind the
      interface [Random] of the packet layer; [SshText]: strings and numbers in text
      (misc.cpp, strtoll.cpp, strtonum.cpp) and a line of moduli (parse_prime of dh.cpp);
      [PasswordHash]: crypted passwords (md5crypt.cpp, xcrypt.cpp, and apr_md5_encode,
      apr_password_validate and apr_sha1_base64 of apr-util).
    - Connections.  [SshQueue]: the two queues between the connection thread and a
      subsystem thread (BusyThreadWriteBuffer.h, BusyThreadReadBuffer.h) as step
      relations over their interleavings; [SshChannel] and [SshChannelProps]: the
      channel state machines, windows, and the repository of channels (Channel.cpp,
      SessionChannel.cpp, SFTPChannel.cpp, Repository.h).
    - Authentication.  [CxxMonad]: state with C++ exceptions and its weakest
      preconditions; [SshDispatch]: the table of message handlers and its loop, on an
      abstract connection (Dispatcher.cpp); [SshAuth]: service and user
      authentication requests, the methods and the user database (auth2.cpp,
      auth2-none.cpp, auth2-passwd.cpp, auth-passwd.cpp, User.cpp,
      AuthDispatcher.cpp); [SshAuthProps] and [SshLogin]: its theorems.
    - Sockets.  [SshSocket]: the loops that write and read packets on a socket and the
      input and output steps of the server loop (packet_read_seqnr, packet_write_wait,
      packet_write_poll of CoreConnection.cpp, serverloop.cpp, RInOutSocket.cpp), for
      any results of send and recv; [SshSegments]: packets and the cuts of the stream;
      [SshIdent]: the exchange of identification strings (sshd.cpp, atomicio.cpp).
    - Sessions.  [SshSession]: channels are opened and their requests served
      (serverloop.cpp, ChannelPars.cpp, SessionChannel.cpp, SubsystemParsFactory.cpp,
      SubsystemPars.cpp, PTYPars.cpp, ttymodes.cpp, TCPClientChannel.cpp), the dispatcher
      of a session (ServerMainDispatcher.cpp) and [server_loop]; [SshSessionProps]: the
      invariant of the channels and the threads behind them; [SshConnection]:
      [CoreConnection::run], from the first byte to the end of a connection.
    - Threads.  [CppStateMap]: tables of states and transitions (StateMap.cpp), with the
      two tables of a channel; [CppThread]: the life of a thread and the calls on it
      (SThread.cpp, ThreadRepository.h) as a step relation over their interleavings.
    - SFTP.  [SftpPath]: paths and the factory that confines a client to its home
      directory; [SftpAttrib]: file attributes; [SftpServer]: handle table, replies,
      every request handler, dispatch and the loop of the thread (sftp-server.cpp,
      sftp.h, sftp-common.cpp, strmode.cpp); [SftpServerProps], [SftpReplies] and
      [SftpDirectory]: its theorems.
    - Libraries.  [ZlibAdler], [ZlibCrcTables], [ZlibCrc]: checksums (adler32.c,
      crc32.c, crc32.h); [AprBase64]: base64 (apr_base64.c); [DigestStream]: what
      the incremental digests share; [AprMd]: MD5 and MD4 (apr_md5.c, apr_md4.c);
      [AprSha1] (apr_sha1.c); [AprSha2] (apr/random/unix/sha2.c); [AprHash] and
      [AprHashProps]: hash tables (apr/tables/apr_hash.c).

    The components use each other as the code does: packets, key exchange, channels
    and SFTP work on [SshBuffer.Buffer] through its operations, the handlers of SFTP
    call the path factory and the attribute codec, negotiation calls the matcher.
    [SshConnection.connection_run] composes identification, key exchange, authentication
    and the session on one connection, an instance of [Connection], [KexConnection],
    [ServerConnection] and [Identifies]: the packet layer on a socket, or a script of
    messages.

    ** Conventions

    A C integer is a [Z] with its wrap-around written out ([u8] .. [u64], [s32]); a
    byte string is a [list Z].  [fatal] never returns: in the transport and channel
    code it is the outcome [Fatal] of the monad [res]; in authentication and in the
    SFTP subsystem, where what was done before it matters, it is the exception
    [ShuttingDown] of [CxxMonad.SE].  A loop that is not
    structural gets a bound from the length of its input, and running out of it is an
    outcome of its own ([OutOfFuel], [Diverges]) that the theorems exclude.  Code
    that is not in the repository is a parameter: the ciphers, MACs, digests,
    bignums ([SshKex.BnLib], [SshDh.DhLib]), their decimal form ([SshKeyText.DecLib]),
    the AES block function ([SshUmac.Aes]), RC4 ([SshRandom.Rc4]) and signatures ([SshKey.KeyLib]) of
    OpenSSL, the functions of Windows (the events [SftpServer.winE] and
    the classes [Platform] of [SftpServer] and of [SshSession]), the value of an int that [sscanf] cannot
    hold ([SshIdent.Scanf]), the conversions between UTF-8 and wide strings, the contents
    of the table of users at each statement ([SshAuth.UserDb]), and the value of a
    function that has no return statement ([SshAuth.NoReturn]).  What is
    assumed of a parameter is a named law ([DhLaws], [KeyLaws], [AesLaws], [DecLaws], [Rc4Laws], [Md5Laws], [ErrorLaws], [SearchLaws] and the sections
    of the transport files), with an instance that satisfies it.

    [server_loop] waits for events; the model is given what each wait ends with and what
    the threads did meanwhile, as a list of turns, so that its theorems hold for every
    order of events.  A step of a channel collects the messages it sends, and they are sent
    behind it, which is the order of the code since a step does not read what it sends.

    ** What the theorems show

    - Whole connection: on any network, with any client and any order of events, each
      channel and each thread belongs to the user whom the connection authenticated with a
      password of the database, and an open channel and its thread fit together.
    - Identification: it ends within its arrays whatever arrives; a client of protocol 2.0
      is understood, and no byte behind its line is lost.
    - Sessions: a request gets the one answer it asks for, and success means that what was
      asked for is there; a channel is opened under an unused id and confirmed.
    - Buffer and codecs: the buffer is a byte queue; messages, proposals, numbers,
      attribute blocks, handles, canonical paths and base64 round trip.
    - Transport: what one end sends arrives at the other in order and unchanged;
      nothing unauthenticated is delivered; only transport messages are sent during a
      key exchange; both ends agree on the negotiated algorithms and derive the keys
      of RFC 4253, long enough for them; the reading loop ends.
    - Key exchange: whatever a client sends, the exchange ends, and keys are derived at
      most once, from a client value that passed the test of public values and from
      the hash that a host key signed; a client that follows the protocol is served and
      ends with the same secret and hash; what a key signs its public half accepts, and
      an accepted RSA block holds the digest and nothing else.
    - Algorithms: UMAC, in any cut of the message and any order of nonces, is the tag of RFC
      4418; the counter mode is the key stream of RFC 4344 over a whole connection; both
      satisfy the laws that the theorems of the packet layer ask of a cipher and a MAC.
    - Keys as text: base64 accepts exactly the encodings of RFC 4648 and decodes them; a
      written key line reads back as the same key; a fingerprint shows the whole digest.
    - Utilities: a bounded random number is unbiased, and the generator takes a new key for
      each 2^22 numbers; [strtonum] reads exactly the decimal numbers, of any size, and
      reports those out of its bounds; a line of moduli is read as its group; a crypted
      password accepts the passwords of the same digest and no others.
    - Sockets: whatever each send takes, the bytes reach the wire in order and once;
      however recv cuts the stream, the same packets are read.
    - Connections: no message or credit is lost between the threads; windows and
      packet sizes are respected; channels close once and move through legal states.
    - Authentication: it ends whatever the client sends; it succeeds only for a user
      and a password of the database, after at most five passwords; the user cannot
      change; every message is answered; the right password is accepted.
    - Threads: a state map allows the listed moves; whatever callers do, a thread object is
      not destroyed while its thread runs, and a single owner never hangs.
    - SFTP: no request can make the server touch a name outside of the home
      directory; every processed request is answered once, with its id; the requests
      whose handlers catch everything are always answered; the handle table keeps its
      free list; a session ends only by the listed exceptions; a directory is listed
      in order and completely from the second entry of its search on.
    - Libraries: the optimised routines compute the functions of their standards (RFC
      1320, 1321, 1950, FIPS 180, the CRC shift register) however the input is cut;
      a hash table is a finite map.

    ** Not modelled

    The wait for events (wait_until_can_do_something), the bodies of the shell and of the
    forwarding thread (Shell.cpp, TCPClient::run), processes,
    the service and the database (Server/, SNTLib/, utio/, soci/, DbAdapter.cpp), logging (apache-log4cxx/,
    log.cpp), public keys of users (auth2-pubkey.cpp, which does not compile and is
    not in the table of methods) and what is left of OpenSSH beside them (auth.cpp,
    authfile.cpp), the generation of keys and their memory (the rest of key.cpp),
    the search of a moduli file (compiled out of choose_dh), terminals (PTY.cpp; of ttymodes.cpp only the parser of modes is used), the
    sockets and locks of Concurrenc++, compression
    (the deflate and inflate of zlib), and the rest of apr and apr-util (file and
    network input and output, pools, DBM, LDAP, XML). *)

From Stdlib Require Export ZArith Lia Bool.
From stdpp Require Export base tactics list numbers strings.

#[global] Open Scope Z_scope.

(** ** C integers: the unsigned widths as residues of [Z], the signed ones as
    the representative in the balanced interval. *)
Definition u8 (z : Z) : Z := z mod 256.
Definition u16 (z : Z) : Z := z mod 65536.
Definition u32 (z : Z) : Z := z mod 4294967296.
Definition u64 (z : Z) : Z := z mod 18446744073709551616.
Definition s8 (z : Z) : Z := (z + 128) mod 256 - 128.
Definition s32 (z : Z) : Z := (z + 2147483648) mod 4294967296 - 2147483648.

(** A byte string all of whose elements are unsigned chars. *)
Definition is_u8 (z : Z) : Prop := 0 <= z < 256.
Abbreviation bytes_ok := (Forall is_u8).

(** C truth values. *)
Definition c_bool (b : bool) : Z := if b then 1 else 0.

(** ** Failure: [fatal] and friends never return to their caller. *)
Inductive res (A : Type) : Type :=
| Ok (a : A)
| Fatal (msg : string)
| OutOfFuel.  (** the bound put on a C loop was too small *)
Arguments Ok {A} _.
Arguments Fatal {A} _.
Arguments OutOfFuel {A}.

#[global] Instance res_ret : MRet res := fun A a => Ok a.
#[global] Instance res_bind : MBind res := fun A B f m =>
  match m with Ok a => f a | Fatal s => Fatal s | OutOfFuel => OutOfFuel end.

Definition is_Ok {A} (r : res A) : Prop := exists a, r = Ok a.

(** ** Strings: a C string literal as its bytes *)
Fixpoint str (s : string) : list Z :=
  match s with
  | EmptyString => []
  | String c s => Z.of_N (Ascii.N_of_ascii c) :: str s
  end.

(** The decimal digits of a number, for the conversions [%d], [%llu] and [operator<<]. *)
Fixpoint digits (fuel : nat) (n : Z) (acc : list Z) : list Z :=
  match fuel with
  | O => acc
  | S fuel => if n <? 10 then (48 + n) :: acc else digits fuel (n / 10) ((48 + n mod 10) :: acc)
  end.
Definition dec (n : Z) : list Z := digits 20 n [].

(** ** Lists used as C arrays *)

Definition zlen {A} (l : list A) : Z := Z.of_nat (length l).

(** [&l[off]], [n] elements. *)
Definition slice {A} (off n : Z) (l : list A) : list A :=
  take (Z.to_nat n) (drop (Z.to_nat off) l).

(** [memcpy (l + off, data, length data)] *)
Definition splice {A} (off : Z) (data l : list A) : list A :=
  take (Z.to_nat off) l ++ data ++ drop (Z.to_nat off + length data) l.

(** [l[i]] with a default for reads the caller has already excluded. *)
Definition znth {A} (d : A) (l : list A) (i : Z) : A := nth (Z.to_nat i) l d.

Create HintDb clib.
Create Rewrite HintDb cwrap.

(** ** Tactics *)

Ltac invc H := inversion H; subst; clear H.

(** A first step of [res] that must have succeeded. *)
Ltac ok_bind E :=
  match type of E with
  | (mbind _ ?m = Ok _) =>
      let E1 := fresh "E1" in
      destruct m as [?| |] eqn:E1; cbn [mbind res_bind] in E; [|discriminate E|discriminate E]
  end.

(** Split on the boolean tests of [if]s, turning them into propositions. *)
Ltac zbool :=
  repeat match goal with
  | H : (_ <? _) = true |- _ => apply Z.ltb_lt in H
  | H : (_ <? _) = false |- _ => apply Z.ltb_ge in H
  | H : (_ <=? _) = true |- _ => apply Z.leb_le in H
  | H : (_ <=? _) = false |- _ => apply Z.leb_gt in H
  | H : (_ =? _) = true |- _ => apply Z.eqb_eq in H
  | H : (_ =? _) = false |- _ => apply Z.eqb_neq in H
  | H : (_ >? _) = true |- _ => rewrite Z.gtb_ltb in H; apply Z.ltb_lt in H
  | H : (_ >? _) = false |- _ => rewrite Z.gtb_ltb in H; apply Z.ltb_ge in H
  | H : (_ >=? _) = true |- _ => rewrite Z.geb_leb in H; apply Z.leb_le in H
  | H : (_ >=? _) = false |- _ => rewrite Z.geb_leb in H; apply Z.leb_gt in H
  | H : negb _ = true |- _ => apply negb_true_iff in H
  | H : negb _ = false |- _ => apply negb_false_iff in H
  | H : _ && _ = true |- _ => apply andb_true_iff in H; destruct H
  | H : _ || _ = false |- _ => apply orb_false_iff in H; destruct H
  end.

Ltac zcase :=
  match goal with
  | |- context [if ?b then _ else _] =>
      let E := fresh "E" in destruct b eqn:E; zbool
  end.

Ltac zcase_in H :=
  match type of H with
  | context [if ?b then _ else _] =>
      let E := fresh "E" in destruct b eqn:E; zbool
  end.

(** Remove the wrap-around of every value known to be in range. *)
Ltac unwrap :=
  unfold u8, u16, u32, u64 in *;
  repeat match goal with
  | |- context [?a mod ?m] => rewrite (Z.mod_small a m) by lia
  | H : context [?a mod ?m] |- _ => rewrite (Z.mod_small a m) in H by lia
  end.

(** ** Integer lemmas *)

Lemma u8_range z : 0 <= u8 z < 256.
Proof. unfold u8. apply Z.mod_pos_bound. lia. Qed.
Lemma u16_range z : 0 <= u16 z < 65536.
Proof. unfold u16. apply Z.mod_pos_bound. lia. Qed.
Lemma u32_range z : 0 <= u32 z < 4294967296.
Proof. unfold u32. apply Z.mod_pos_bound. lia. Qed.
Lemma u64_range z : 0 <= u64 z < 18446744073709551616.
Proof. unfold u64. apply Z.mod_pos_bound. lia. Qed.

Lemma u8_small z : 0 <= z < 256 -> u8 z = z.
Proof. apply Z.mod_small. Qed.
Lemma u16_small z : 0 <= z < 65536 -> u16 z = z.
Proof. apply Z.mod_small. Qed.
Lemma u32_small z : 0 <= z < 4294967296 -> u32 z = z.
Proof. apply Z.mod_small. Qed.
Lemma u64_small z : 0 <= z < 18446744073709551616 -> u64 z = z.
Proof. apply Z.mod_small. Qed.

#[export] Hint Resolve u8_range u16_range u32_range u64_range : clib.
#[export] Hint Rewrite u8_small u16_small u32_small u64_small using lia : cwrap.

(** A value below [2^n] shares no bit with a multiple of [2^n]. *)
Lemma land_disjoint (a b n : Z) :
  0 <= n -> 0 <= b < 2 ^ n -> Z.land (a * 2 ^ n) b = 0.
Proof.
  intros Hn Hb. apply Z.bits_inj'. intros i Hi. rewrite Z.land_spec, Z.bits_0.
  destruct (Z.lt_ge_cases i n).
  - rewrite Z.mul_pow2_bits_low by lia. done.
  - rewrite <- (Z.mod_small b (2 ^ n)), Z.mod_pow2_bits_high, andb_false_r by lia. done.
Qed.

Lemma lor_disjoint_add (a b n : Z) :
  0 <= n -> 0 <= b < 2 ^ n -> Z.lor (a * 2 ^ n) b = a * 2 ^ n + b.
Proof.
  intros Hn Hb. rewrite <- Z.lxor_lor, <- Z.add_nocarry_lxor; [done|..];
    by apply land_disjoint.
Qed.

(** [roundup (x, y)] of defines.h gives the next multiple of [y]. *)
Lemma roundup_bounds x y :
  0 <= x -> 0 < y -> x <= (x + (y - 1)) / y * y < x + y.
Proof. intros. Z.div_mod_to_equations. nia. Qed.

(** ** List lemmas *)

Lemma zlen_nonneg {A} (l : list A) : 0 <= zlen l.
Proof. unfold zlen. lia. Qed.
Lemma zlen_app {A} (l k : list A) : zlen (l ++ k) = zlen l + zlen k.
Proof. unfold zlen. rewrite length_app. lia. Qed.
#[export] Hint Resolve zlen_nonneg : clib.

Lemma splice_length {A} off (data l : list A) :
  0 <= off -> off + zlen data <= zlen l -> length (splice off data l) = length l.
Proof.
  unfold splice, zlen. intros. rewrite !length_app, length_take, length_drop. lia.
Qed.

Lemma slice_length {A} off n (l : list A) :
  0 <= off -> 0 <= n -> off + n <= zlen l -> length (slice off n l) = Z.to_nat n.
Proof.
  unfold slice, zlen. intros. rewrite length_take, length_drop. lia.
Qed.

Lemma slice_app_next {A} off n m (l : list A) :
  0 <= off -> 0 <= n -> 0 <= m ->
  slice off (n + m) l = slice off n l ++ slice (off + n) m l.
Proof.
  unfold slice. intros. rewrite !Z2Nat.inj_add by lia.
  rewrite <- drop_drop. rewrite (Nat.add_comm (Z.to_nat n)).
  remember (drop (Z.to_nat off) l) as k.
  rewrite <- (take_drop (Z.to_nat n) (take (Z.to_nat m + Z.to_nat n) k)).
  rewrite take_take, Nat.min_l by lia. f_equal.
  rewrite skipn_firstn_comm. f_equal. lia.
Qed.

Lemma slice_splice_before {A} off n p (data l : list A) :
  0 <= off -> 0 <= n -> off + n <= p -> p <= zlen l ->
  slice off n (splice p data l) = slice off n l.
Proof.
  unfold slice, splice, zlen. intros.
  rewrite <- (take_drop (Z.to_nat p) l) at 3.
  rewrite !drop_app_le by (rewrite length_take; lia).
  rewrite !take_app_le by (rewrite length_drop, length_take; lia). done.
Qed.

Lemma slice_splice_at {A} p (data l : list A) :
  0 <= p -> p <= zlen l -> slice p (zlen data) (splice p data l) = data.
Proof.
  unfold slice, splice, zlen. intros.
  rewrite drop_app_ge by (rewrite length_take; lia).
  rewrite length_take. replace (_ - _)%nat with 0%nat by lia.
  rewrite drop_0, Nat2Z.id. apply take_app_length.
Qed.

Lemma slice_full {A} (l : list A) : slice 0 (zlen l) l = l.
Proof. unfold slice, zlen. rewrite Nat2Z.id, drop_0. apply take_ge. lia. Qed.

Lemma slice_0 {A} off (l : list A) : slice off 0 l = [].
Proof. done. Qed.
