(* ===== verification/SshBuffer.v ===== *)
(** * SshBuffer: the growable byte queue of shiesh/buffer.cpp and the wire
    encodings of shiesh/bufaux.cpp and shiesh/misc.cpp

    A [Buffer] owns [alloc] bytes [buf]; the unread data are the bytes from
    [offset] to [end_].  Memory fresh from [xmalloc]/[xrealloc] is modelled
    as zero bytes; the refinement lemmas below show that no operation hands
    out a byte that was not appended before.  All counters are [u_int] and
    every sum is taken modulo 2^32, as in the code. *)

From S2P Require Import Prelude.

(** ** Big-endian codecs (misc.cpp) *)

Definition get_u64 (p : list Z) : Z :=
  let v := Z.shiftl (znth 0 p 0) 56 in
  let v := Z.lor v (Z.shiftl (znth 0 p 1) 48) in
  let v := Z.lor v (Z.shiftl (znth 0 p 2) 40) in
  let v := Z.lor v (Z.shiftl (znth 0 p 3) 32) in
  let v := Z.lor v (Z.shiftl (znth 0 p 4) 24) in
  let v := Z.lor v (Z.shiftl (znth 0 p 5) 16) in
  let v := Z.lor v (Z.shiftl (znth 0 p 6) 8) in
  Z.lor v (znth 0 p 7).

Definition get_u32 (p : list Z) : Z :=
  let v := Z.shiftl (znth 0 p 0) 24 in
  let v := Z.lor v (Z.shiftl (znth 0 p 1) 16) in
  let v := Z.lor v (Z.shiftl (znth 0 p 2) 8) in
  Z.lor v (znth 0 p 3).

Definition get_u16 (p : list Z) : Z :=
  Z.lor (Z.shiftl (znth 0 p 0) 8) (znth 0 p 1).

Definition put_u64 (v : Z) : list Z :=
  [Z.land (u8 (Z.shiftr v 56)) 255; Z.land (u8 (Z.shiftr v 48)) 255;
   Z.land (u8 (Z.shiftr v 40)) 255; Z.land (u8 (Z.shiftr v 32)) 255;
   Z.land (u8 (Z.shiftr v 24)) 255; Z.land (u8 (Z.shiftr v 16)) 255;
   Z.land (u8 (Z.shiftr v 8)) 255; Z.land (u8 v) 255].

Definition put_u32 (v : Z) : list Z :=
  [Z.land (u8 (Z.shiftr v 24)) 255; Z.land (u8 (Z.shiftr v 16)) 255;
   Z.land (u8 (Z.shiftr v 8)) 255; Z.land (u8 v) 255].

Definition put_u16 (v : Z) : list Z :=
  [Z.land (u8 (Z.shiftr v 8)) 255; Z.land (u8 v) 255].

(** ** The queue (buffer.cpp) *)

Definition BUFFER_MAX_CHUNK : Z := 0x100000.
Definition BUFFER_MAX_LEN : Z := 0xa00000.
Definition BUFFER_ALLOCSZ : Z := 0x008000.

(** [roundup] of defines.h at type [u_int] *)
Definition roundup (x y : Z) : Z := u32 (u32 (x + (y - 1)) / y * y).

Record Buffer := mkBuffer {
  buf : list Z;
  alloc : Z;
  offset : Z;
  end_ : Z
}.

Definition buffer_init : Buffer :=
  let len := 4096 in
  mkBuffer (replicate (Z.to_nat len) 0) len 0 0.

Definition buffer_free (b : Buffer) : Buffer :=
  if alloc b >? 0 then mkBuffer [] 0 (offset b) (end_ b) else b.

Definition buffer_clear (b : Buffer) : Buffer :=
  mkBuffer (buf b) (alloc b) 0 0.

(** The result is the C return value: was the data moved? *)
Definition buffer_compact (b : Buffer) : bool * Buffer :=
  if offset b >? Z.min (alloc b) BUFFER_MAX_CHUNK then
    let moved := slice (offset b) (u32 (end_ b - offset b)) (buf b) in
    (true, mkBuffer (splice 0 moved (buf b)) (alloc b) 0 (u32 (end_ b - offset b)))
  else (false, b).

(** [xrealloc] keeps the old bytes. *)
Definition xrealloc_bytes (l : list Z) (newlen : Z) : list Z :=
  take (Z.to_nat newlen) l ++ replicate (Z.to_nat newlen - length l) 0.

(** The loop at label [restart]; the value is the index of the space handed
    out, [buffer->buf + end] in the code. *)
Fixpoint append_space_restart (fuel : nat) (b : Buffer) (len : Z) : res (Z * Buffer) :=
  match fuel with
  | O => OutOfFuel
  | S fuel =>
    if u32 (end_ b + len) <? alloc b then
      Ok (end_ b, mkBuffer (buf b) (alloc b) (offset b) (u32 (end_ b + len)))
    else
      let '(moved, b) := buffer_compact b in
      if moved then append_space_restart fuel b len
      else
        let newlen := roundup (u32 (alloc b + len)) BUFFER_ALLOCSZ in
        if newlen >? BUFFER_MAX_LEN then
          Fatal "buffer_append_space: alloc not supported"
        else
          append_space_restart fuel
            (mkBuffer (xrealloc_bytes (buf b) newlen) newlen (offset b) (end_ b)) len
  end.

Definition buffer_rewind (b : Buffer) : Buffer :=
  if offset b =? end_ b then mkBuffer (buf b) (alloc b) 0 0 else b.

Definition buffer_append_space (b : Buffer) (len : Z) : res (Z * Buffer) :=
  if len >? BUFFER_MAX_CHUNK then
    Fatal "buffer_append_space: len not supported"
  else append_space_restart 4 (buffer_rewind b) len.

(** [(data, len)] is the list of the [len] bytes at [data]. *)
Definition buffer_append (b : Buffer) (data : list Z) : res Buffer :=
  '(p, b) ← buffer_append_space b (zlen data);
  Ok (mkBuffer (splice p data (buf b)) (alloc b) (offset b) (end_ b)).

Fixpoint check_alloc_restart (fuel : nat) (b : Buffer) (len : Z) : res (bool * Buffer) :=
  match fuel with
  | O => OutOfFuel
  | S fuel =>
    if u32 (end_ b + len) <? alloc b then Ok (true, b)
    else
      let '(moved, b) := buffer_compact b in
      if moved then check_alloc_restart fuel b len
      else Ok (roundup (u32 (alloc b + len)) BUFFER_ALLOCSZ <=? BUFFER_MAX_LEN, b)
  end.

Definition buffer_check_alloc (b : Buffer) (len : Z) : res (bool * Buffer) :=
  check_alloc_restart 4 (buffer_rewind b) len.

Definition buffer_len (b : Buffer) : Z := u32 (end_ b - offset b).

(** [None] is the return value -1, which leaves the buffer as it is. *)
Definition buffer_get_ret (b : Buffer) (len : Z) : option (list Z * Buffer) :=
  if len >? u32 (end_ b - offset b) then None
  else Some (slice (offset b) len (buf b),
             mkBuffer (buf b) (alloc b) (u32 (offset b + len)) (end_ b)).

Definition or_fatal {A} (msg : string) (o : option A) : res A :=
  match o with Some a => Ok a | None => Fatal msg end.

(** Unfold the binds of both monads on a known result. *)
Ltac rsimp := cbn [mbind res_bind option_bind or_fatal].

Definition buffer_get (b : Buffer) (len : Z) : res (list Z * Buffer) :=
  or_fatal "buffer_get: buffer error" (buffer_get_ret b len).

Definition buffer_consume_ret (b : Buffer) (bytes : Z) : option Buffer :=
  if bytes >? u32 (end_ b - offset b) then None
  else Some (mkBuffer (buf b) (alloc b) (u32 (offset b + bytes)) (end_ b)).

Definition buffer_consume (b : Buffer) (bytes : Z) : res Buffer :=
  or_fatal "buffer_consume: buffer error" (buffer_consume_ret b bytes).

Definition buffer_consume_end_ret (b : Buffer) (bytes : Z) : option Buffer :=
  if bytes >? u32 (end_ b - offset b) then None
  else Some (mkBuffer (buf b) (alloc b) (offset b) (u32 (end_ b - bytes))).

Definition buffer_consume_end (b : Buffer) (bytes : Z) : res Buffer :=
  or_fatal "buffer_consume_end: trying to get more bytes than in buffer"
    (buffer_consume_end_ret b bytes).

(** The bytes at [buffer_ptr], up to the end of the data. *)
Definition buffer_ptr (b : Buffer) : list Z :=
  slice (offset b) (buffer_len b) (buf b).

(** ** Wire encodings (bufaux.cpp) *)

Definition buffer_get_short_ret (b : Buffer) : option (Z * Buffer) :=
  '(p, b) ← buffer_get_ret b 2; Some (get_u16 p, b).

Definition buffer_get_short (b : Buffer) : res (Z * Buffer) :=
  or_fatal "buffer_get_short: buffer error" (buffer_get_short_ret b).

Definition buffer_get_int_ret (b : Buffer) : option (Z * Buffer) :=
  '(p, b) ← buffer_get_ret b 4; Some (get_u32 p, b).

Definition buffer_get_int (b : Buffer) : res (Z * Buffer) :=
  or_fatal "buffer_get_int: buffer error" (buffer_get_int_ret b).

Definition buffer_get_int64_ret (b : Buffer) : option (Z * Buffer) :=
  '(p, b) ← buffer_get_ret b 8; Some (get_u64 p, b).

Definition buffer_get_int64 (b : Buffer) : res (Z * Buffer) :=
  or_fatal "buffer_get_int: buffer error" (buffer_get_int64_ret b).

Definition buffer_put_short (b : Buffer) (value : Z) : res Buffer :=
  buffer_append b (put_u16 value).

Definition buffer_put_int (b : Buffer) (value : Z) : res Buffer :=
  buffer_append b (put_u32 value).

Definition buffer_put_int64 (b : Buffer) (value : Z) : res Buffer :=
  buffer_append b (put_u64 value).

(** The string without the NUL the code adds behind it; [None] is NULL.  The
    length word stays consumed when NULL is returned. *)
Definition buffer_get_string_ret (b : Buffer) : res (option (list Z) * Buffer) :=
  '(len, b) ← buffer_get_int b;
  if len >? 256 * 1024 then Ok (None, b)
  else match buffer_get_ret b len with
       | None => Ok (None, b)
       | Some (value, b) => Ok (Some value, b)
       end.

Definition buffer_get_string (b : Buffer) : res (list Z * Buffer) :=
  '(ret, b) ← buffer_get_string_ret b;
  match ret with
  | None => Fatal "buffer_get_string: buffer error"
  | Some v => Ok (v, b)
  end.

(** The string is read in place, where [buffer_ptr] pointed before
    [buffer_consume]. *)
Definition buffer_get_string_ptr (b : Buffer) : res (list Z * Buffer) :=
  '(len, b) ← buffer_get_int b;
  if len >? 256 * 1024 then Fatal "buffer_get_string_ptr: bad string length"
  else
    let ptr := slice (offset b) len (buf b) in
    b ← buffer_consume b len;
    Ok (ptr, b).

Definition buffer_put_string (b : Buffer) (s : list Z) : res Buffer :=
  b ← buffer_put_int b (zlen s);
  buffer_append b s.

(** A [char *]: the bytes before the first NUL. *)
Fixpoint c_str (s : list Z) : list Z :=
  match s with
  | [] => []
  | c :: s => if c =? 0 then [] else c :: c_str s
  end.

Definition buffer_put_cstring (b : Buffer) (s : option (list Z)) : res Buffer :=
  match s with
  | None => Fatal "buffer_put_cstring: s == NULL"
  | Some s => buffer_put_string b (c_str s)
  end.

Definition buffer_get_char_ret (b : Buffer) : option (Z * Buffer) :=
  '(p, b) ← buffer_get_ret b 1; Some (znth 0 p 0, b).

Definition buffer_get_char (b : Buffer) : res (Z * Buffer) :=
  or_fatal "buffer_get_char: buffer error" (buffer_get_char_ret b).

Definition buffer_put_char (b : Buffer) (value : Z) : res Buffer :=
  buffer_append b [u8 value].

(** The macro [buffer_skip_string] of buffer.h *)
Definition buffer_skip_string (b : Buffer) : res Buffer :=
  '(l, b) ← buffer_get_int b;
  buffer_consume b l.

(** ** The queue invariant *)

(** [end_] stays strictly below [alloc] because [buffer_append_space] only
    hands out space when [end + len < alloc]. *)
Record buffer_ok (b : Buffer) : Prop := {
  ok_len : zlen (buf b) = alloc b;
  ok_offset : 0 <= offset b <= end_ b;
  ok_end : end_ b < alloc b;
  ok_alloc : alloc b <= BUFFER_MAX_LEN
}.

(** The queue the buffer stands for. *)
Definition contents (b : Buffer) : list Z :=
  slice (offset b) (end_ b - offset b) (buf b).

(** At most [n] bytes were appended since the buffer was last empty, and its
    allocation is what that many bytes can have caused. *)
Definition capped (n : Z) (b : Buffer) : Prop :=
  buffer_ok b /\ end_ b <= n /\ alloc b <= 2 * n + BUFFER_ALLOCSZ.

Ltac bufcrush :=
  unfold BUFFER_MAX_CHUNK, BUFFER_MAX_LEN, BUFFER_ALLOCSZ in *; simpl in *; unwrap.

Lemma buffer_init_ok : buffer_ok buffer_init.
Proof. split; [vm_compute; reflexivity|cbn; lia..|cbn; unfold BUFFER_MAX_LEN; lia]. Qed.

Lemma buffer_init_contents : contents buffer_init = [].
Proof. done. Qed.

Lemma buffer_init_capped : capped 0 buffer_init.
Proof. split; [apply buffer_init_ok|]. cbn. unfold BUFFER_ALLOCSZ. lia. Qed.

Lemma buffer_clear_ok b : buffer_ok b -> buffer_ok (buffer_clear b).
Proof. intros []. split; simpl; lia. Qed.

Lemma buffer_clear_contents b : contents (buffer_clear b) = [].
Proof. done. Qed.

Lemma capped_mono n m b : n <= m -> capped n b -> capped m b.
Proof. unfold capped, BUFFER_ALLOCSZ. intros ? (?&?&?). split; [done|lia]. Qed.

Lemma buffer_len_ok b : buffer_ok b -> buffer_len b = end_ b - offset b.
Proof. intros []. unfold buffer_len. bufcrush. done. Qed.

Lemma buffer_len_contents b : buffer_ok b -> buffer_len b = zlen (contents b).
Proof.
  intros H. rewrite buffer_len_ok by done. destruct H. unfold contents, zlen.
  rewrite slice_length by lia. lia.
Qed.

Lemma buffer_ptr_contents b : buffer_ok b -> buffer_ptr b = contents b.
Proof. intros H. unfold buffer_ptr, contents. by rewrite buffer_len_ok. Qed.

Lemma buffer_rewind_spec b :
  buffer_ok b ->
  buffer_ok (buffer_rewind b) /\ contents (buffer_rewind b) = contents b /\
  end_ (buffer_rewind b) <= end_ b /\ alloc (buffer_rewind b) = alloc b.
Proof.
  intros H. unfold buffer_rewind. zcase; [|done].
  destruct H. repeat split; simpl; try lia.
  unfold contents. simpl. by rewrite E, !Z.sub_diag.
Qed.

Lemma buffer_compact_spec b m b' :
  buffer_ok b -> buffer_compact b = (m, b') ->
  buffer_ok b' /\ contents b' = contents b /\
  (m = false -> b' = b) /\ (m = true -> offset b' = 0) /\
  end_ b' <= end_ b /\ alloc b' = alloc b.
Proof.
  intros H Hc. unfold buffer_compact in Hc. zcase_in Hc; injection Hc as <- <-; [|done].
  destruct H. bufcrush.
  assert (Hl : length (slice (offset b) (end_ b - offset b) (buf b))
               = Z.to_nat (end_ b - offset b)) by (apply slice_length; lia).
  assert (Hz : zlen (slice (offset b) (end_ b - offset b) (buf b)) = end_ b - offset b)
    by (unfold zlen; lia).
  repeat split; simpl; try (lia || done).
  - unfold zlen. rewrite splice_length; [unfold zlen in *|lia|]; lia.
  - unfold contents; simpl. rewrite Z.sub_0_r, <- Hz at 1.
    apply slice_splice_at; [lia|]. apply zlen_nonneg.
Qed.

Lemma buffer_compact_at_0 b : buffer_ok b -> offset b = 0 -> buffer_compact b = (false, b).
Proof.
  intros [] H0. unfold buffer_compact, BUFFER_MAX_CHUNK, BUFFER_MAX_LEN in *.
  zcase; [lia|done].
Qed.

(** What [buffer_append_space] promises: [len] bytes at [p], right behind the
    data the buffer held. *)
Record space_post (b : Buffer) (len p : Z) (b' : Buffer) : Prop := {
  sp_ok : buffer_ok b';
  sp_end : p + len = end_ b';
  sp_off : offset b' <= p;
  sp_old : slice (offset b') (p - offset b') (buf b') = contents b;
  sp_cap_end : end_ b' <= end_ b + len;
  sp_cap_alloc : alloc b' <= Z.max (alloc b) (end_ b + 2 * len + BUFFER_ALLOCSZ)
}.

Lemma roundup_alloc x :
  0 <= x <= BUFFER_MAX_LEN + BUFFER_MAX_CHUNK ->
  x <= roundup x BUFFER_ALLOCSZ < x + BUFFER_ALLOCSZ.
Proof.
  unfold roundup, BUFFER_MAX_LEN, BUFFER_MAX_CHUNK, BUFFER_ALLOCSZ. intros.
  pose proof (roundup_bounds x 0x8000). unwrap. lia.
Qed.

Lemma restart_fits f b len :
  buffer_ok b -> 0 <= len <= BUFFER_MAX_CHUNK -> end_ b + len < alloc b ->
  exists p b', append_space_restart (S f) b len = Ok (p, b') /\ space_post b len p b'.
Proof.
  intros [] Hl Hf. simpl. bufcrush.
  replace (end_ b + len <? alloc b) with true by (symmetry; apply Z.ltb_lt; lia).
  eexists _, _. split; [done|].
  constructor; simpl; try (lia || done || (bufcrush; lia)).
  constructor; simpl; bufcrush; lia.
Qed.

Lemma xrealloc_bytes_length l n :
  zlen l <= n -> zlen (xrealloc_bytes l n) = n.
Proof.
  unfold xrealloc_bytes, zlen. intros.
  rewrite length_app, length_take, length_replicate. lia.
Qed.

Lemma xrealloc_bytes_slice l n off k :
  zlen l <= n -> 0 <= off -> 0 <= k -> off + k <= zlen l ->
  slice off k (xrealloc_bytes l n) = slice off k l.
Proof.
  unfold xrealloc_bytes, slice, zlen. intros.
  rewrite (take_ge l) by lia.
  rewrite drop_app_le by lia. rewrite take_app_le; [done|]. rewrite length_drop. lia.
Qed.

Lemma grow_ok b newlen :
  buffer_ok b -> alloc b <= newlen <= BUFFER_MAX_LEN ->
  let b1 := mkBuffer (xrealloc_bytes (buf b) newlen) newlen (offset b) (end_ b) in
  buffer_ok b1 /\ contents b1 = contents b.
Proof.
  intros [] Hn. split.
  - constructor; simpl; try lia. apply xrealloc_bytes_length. lia.
  - unfold contents; simpl. apply xrealloc_bytes_slice; lia.
Qed.

(** With nothing to compact, one reallocation is enough. *)
Lemma restart_no_move f b len :
  buffer_ok b -> 0 <= len <= BUFFER_MAX_CHUNK -> buffer_compact b = (false, b) ->
  (exists p b', append_space_restart (S (S f)) b len = Ok (p, b') /\ space_post b len p b') \/
  (exists m, append_space_restart (S (S f)) b len = Fatal m /\
             BUFFER_MAX_LEN < end_ b + 2 * len + BUFFER_ALLOCSZ).
Proof.
  intros Hok Hl Hc. destruct (Z.lt_ge_cases (end_ b + len) (alloc b)) as [Hf|Hf].
  { left. by apply restart_fits. }
  pose proof Hok as [].
  pose proof (roundup_alloc (alloc b + len)) as Hr.
  cbn [append_space_restart]. rewrite Hc.
  replace (u32 (end_ b + len) <? alloc b) with false
    by (symmetry; apply Z.ltb_ge; bufcrush; lia).
  replace (u32 (alloc b + len)) with (alloc b + len) by (bufcrush; done).
  destruct (roundup (alloc b + len) BUFFER_ALLOCSZ >? BUFFER_MAX_LEN) eqn:E; zbool.
  { right. eexists. split; [done|]. bufcrush; lia. }
  left. destruct (grow_ok b (roundup (alloc b + len) BUFFER_ALLOCSZ)) as [Hok1 Hc1];
    [done|bufcrush; lia|].
  edestruct (restart_fits f _ len Hok1) as (p & b' & He & Hp); [done|simpl; bufcrush; lia|].
  exists p, b'. split; [exact He|]. destruct Hp; simpl in *.
  constructor; try done; [congruence|]. bufcrush; lia.
Qed.

Lemma append_space_restart_total b len :
  buffer_ok b -> 0 <= len <= BUFFER_MAX_CHUNK ->
  (exists p b', append_space_restart 4 b len = Ok (p, b') /\ space_post b len p b') \/
  (exists m, append_space_restart 4 b len = Fatal m /\
             BUFFER_MAX_LEN < end_ b + 2 * len + BUFFER_ALLOCSZ).
Proof.
  intros Hok Hl. destruct (Z.lt_ge_cases (end_ b + len) (alloc b)) as [Hf|Hf].
  { left. by apply restart_fits. }
  destruct (buffer_compact b) as [m b1] eqn:Hc.
  destruct (buffer_compact_spec _ _ _ Hok Hc) as (Hok1 & Hc1 & Hm0 & Hm1 & He1 & Ha1).
  destruct m; [|rewrite (Hm0 eq_refl) in *; by apply (restart_no_move 2)].
  destruct (restart_no_move 1 b1 len Hok1 Hl (buffer_compact_at_0 _ Hok1 (Hm1 eq_refl)))
    as [(p & b' & E & Hp)|(ms & E & Hb)].
  - left. exists p, b'. split.
    + cbn [append_space_restart] in E |- *. destruct Hok. rewrite Hc.
      replace (u32 (end_ b + len) <? alloc b) with false
        by (symmetry; apply Z.ltb_ge; bufcrush; lia). exact E.
    + destruct Hp. constructor; try done; [congruence|lia|lia].
  - right. exists ms. split; [|lia].
    cbn [append_space_restart] in E |- *. destruct Hok. rewrite Hc.
    replace (u32 (end_ b + len) <? alloc b) with false
      by (symmetry; apply Z.ltb_ge; bufcrush; lia). exact E.
Qed.

(** An allocation is refused only when the data itself is large: the gap before it is
    closed first, unless it is shorter than [BUFFER_MAX_CHUNK]. *)
Lemma restart_refused b len m :
  buffer_ok b -> 0 <= len <= BUFFER_MAX_CHUNK -> append_space_restart 4 b len = Fatal m ->
  BUFFER_MAX_LEN < zlen (contents b) + 2 * len + BUFFER_MAX_CHUNK + BUFFER_ALLOCSZ.
Proof.
  intros Hok Hl Hf. rewrite <- buffer_len_contents, buffer_len_ok by done.
  destruct (Z.lt_ge_cases (end_ b + len) (alloc b)) as [Hr|Hr].
  { destruct (restart_fits 3 b len Hok Hl Hr) as (p & b' & E & _). by rewrite E in Hf. }
  destruct (buffer_compact b) as [moved b1] eqn:Hc.
  destruct (buffer_compact_spec _ _ _ Hok Hc) as (Hok1 & Hc1 & Hm0 & Hm1 & He1 & Ha1).
  pose proof Hok as []. destruct moved.
  - assert (append_space_restart 3 b1 len = Fatal m) as Hf1.
    { cbn [append_space_restart] in Hf |- *. rewrite Hc in Hf.
      replace (u32 (end_ b + len) <? alloc b) with false in Hf by (symmetry; apply Z.ltb_ge; bufcrush; lia). exact Hf. }
    apply (f_equal (fun l => zlen l)) in Hc1. rewrite <- !buffer_len_contents, !buffer_len_ok in Hc1 by done.
    destruct (restart_no_move 1 b1 len Hok1 Hl (buffer_compact_at_0 _ Hok1 (Hm1 eq_refl))) as [(p & b' & E & _)|(ms & E & Hb)];
      [by rewrite E in Hf1|]. rewrite (Hm1 eq_refl) in Hc1. bufcrush; lia.
  - rewrite (Hm0 eq_refl) in *. destruct (restart_no_move 2 b len Hok Hl Hc) as [(p & b' & E & _)|(ms & E & Hb)]; [by rewrite E in Hf|].
    unfold buffer_compact in Hc. zcase_in Hc; [done|]. bufcrush; lia.
Qed.

(** ** Refinement of the byte queue *)

(** Overwriting the space handed out appends to the queue. *)
Lemma space_post_append b d p b' :
  space_post b (zlen d) p b' ->
  let b2 := mkBuffer (splice p d (buf b')) (alloc b') (offset b') (end_ b') in
  buffer_ok b2 /\ contents b2 = contents b ++ d.
Proof.
  intros [[] ? ? Hold ? ?]. pose proof (zlen_nonneg d). split.
  - constructor; simpl; try lia. unfold zlen in *. rewrite splice_length; unfold zlen; lia.
  - unfold contents at 1. simpl.
    replace (end_ b' - offset b') with ((p - offset b') + zlen d) by lia.
    rewrite slice_app_next by lia. rewrite slice_splice_before by lia.
    rewrite Hold. f_equal. replace (offset b' + (p - offset b')) with p by lia.
    apply slice_splice_at; lia.
Qed.

Lemma buffer_append_cases b d :
  buffer_ok b ->
  (exists b', buffer_append b d = Ok b' /\ buffer_ok b' /\ contents b' = contents b ++ d /\
     end_ b' <= end_ b + zlen d /\
     alloc b' <= Z.max (alloc b) (end_ b + 2 * zlen d + BUFFER_ALLOCSZ)) \/
  (exists m, buffer_append b d = Fatal m /\
     (BUFFER_MAX_CHUNK < zlen d \/ BUFFER_MAX_LEN < end_ b + 2 * zlen d + BUFFER_ALLOCSZ)).
Proof.
  intros Hok. pose proof (zlen_nonneg d). unfold buffer_append, buffer_append_space.
  destruct (zlen d >? BUFFER_MAX_CHUNK) eqn:E; zbool.
  { right. eexists. split; [done|lia]. }
  destruct (buffer_rewind_spec b Hok) as (Hok0 & Hc0 & He0 & Ha0).
  destruct (append_space_restart_total (buffer_rewind b) (zlen d) Hok0)
    as [(p & b' & Er & Hp)|(m & Er & Hb)]; [lia|..].
  - left. rewrite Er. eexists. split; [done|].
    destruct (space_post_append _ _ _ _ Hp) as [Hok2 Hc2]. rewrite Hc0 in Hc2.
    split; [done|]. split; [done|]. destruct Hp. simpl. lia.
  - right. rewrite Er. eexists. split; [done|lia].
Qed.

Lemma buffer_append_capped n b d :
  capped n b -> zlen d <= BUFFER_MAX_CHUNK -> 2 * (n + zlen d) + BUFFER_ALLOCSZ <= BUFFER_MAX_LEN ->
  exists b', buffer_append b d = Ok b' /\ capped (n + zlen d) b' /\
             contents b' = contents b ++ d.
Proof.
  intros (Hok & He & Ha) Hl Hn. pose proof (zlen_nonneg d). pose proof Hok as [].
  destruct (buffer_append_cases b d Hok) as [(b' & E & Hok' & Hc & ? & ?)|(m & _ & ?)]; [|lia].
  exists b'. split; [done|]. split; [|done]. split; [done|]. lia.
Qed.

(** A buffer that never holds more than [n] bytes keeps its allocation bound. *)
Lemma append_space_within n b len :
  capped n b -> 0 <= len <= BUFFER_MAX_CHUNK -> end_ b + len <= n ->
  2 * n + BUFFER_ALLOCSZ <= BUFFER_MAX_LEN ->
  exists p b1, buffer_append_space b len = Ok (p, b1) /\
    forall d, zlen d = len ->
      let b2 := mkBuffer (splice p d (buf b1)) (alloc b1) (offset b1) (end_ b1) in
      capped n b2 /\ contents b2 = contents b ++ d /\ end_ b2 <= end_ b + len.
Proof.
  intros (Hok & He & Ha) Hl Hn Hm. pose proof Hok as []. unfold buffer_append_space.
  destruct (len >? BUFFER_MAX_CHUNK) eqn:E; zbool; [lia|].
  destruct (buffer_rewind_spec b Hok) as (Hok0 & Hc0 & He0 & Ha0).
  destruct (append_space_restart_total (buffer_rewind b) len Hok0 ltac:(lia))
    as [(p & b' & Er & Hp)|(m & Er & Hb)]; [|lia].
  exists p, b'. split; [done|]. intros d Hd. subst len.
  destruct (space_post_append _ _ _ _ Hp) as [Hok2 Hc2]. rewrite Hc0 in Hc2.
  destruct Hp. split; [|split; [done|simpl; lia]]. split; [done|]. simpl. lia.
Qed.

Lemma buffer_append_within n b d :
  capped n b -> zlen d <= BUFFER_MAX_CHUNK -> end_ b + zlen d <= n ->
  2 * n + BUFFER_ALLOCSZ <= BUFFER_MAX_LEN ->
  exists b', buffer_append b d = Ok b' /\ capped n b' /\ contents b' = contents b ++ d /\
    end_ b' <= end_ b + zlen d.
Proof.
  intros Hc Hl Hn Hm. pose proof (zlen_nonneg d).
  destruct (append_space_within n b (zlen d) Hc) as (p & b1 & E & Hd); [lia..|].
  destruct (Hd d eq_refl) as (H1 & H2 & H3).
  unfold buffer_append. rewrite E. eexists. split; [done|]. done.
Qed.

Lemma buffer_get_ret_spec b len :
  buffer_ok b -> 0 <= len ->
  match buffer_get_ret b len with
  | Some (d, b') => len <= zlen (contents b) /\ d = take (Z.to_nat len) (contents b) /\
      contents b' = drop (Z.to_nat len) (contents b) /\ buffer_ok b' /\
      end_ b' = end_ b /\ alloc b' = alloc b
  | None => zlen (contents b) < len
  end.
Proof.
  intros Hok Hl. pose proof (buffer_len_contents _ Hok) as Hlen.
  rewrite (buffer_len_ok _ Hok) in Hlen. destruct Hok. unfold buffer_get_ret.
  replace (u32 (end_ b - offset b)) with (end_ b - offset b) by (bufcrush; done).
  zcase; [lia|]. replace (u32 (offset b + len)) with (offset b + len) by (bufcrush; done).
  split; [lia|].
  assert (Hs : contents b = slice (offset b) len (buf b) ++
                 slice (offset b + len) (end_ b - offset b - len) (buf b)).
  { unfold contents. rewrite <- slice_app_next by lia. f_equal. lia. }
  assert (Hn : length (slice (offset b) len (buf b)) = Z.to_nat len)
    by (apply slice_length; lia).
  rewrite Hs. split; [|split; [|split; [|done]]].
  - by rewrite <- Hn, take_app_length.
  - rewrite <- Hn, drop_app_length. unfold contents. simpl. f_equal. lia.
  - constructor; simpl; lia.
Qed.

Lemma buffer_consume_ret_get b len :
  buffer_consume_ret b len = snd <$> buffer_get_ret b len.
Proof. unfold buffer_consume_ret, buffer_get_ret. by zcase. Qed.

Lemma buffer_consume_end_ret_spec b len :
  buffer_ok b -> 0 <= len ->
  match buffer_consume_end_ret b len with
  | Some b' => len <= zlen (contents b) /\ buffer_ok b' /\ end_ b' <= end_ b /\
      contents b' = take (Z.to_nat (zlen (contents b) - len)) (contents b)
  | None => zlen (contents b) < len
  end.
Proof.
  intros Hok Hl. pose proof (buffer_len_contents _ Hok) as Hlen.
  rewrite (buffer_len_ok _ Hok) in Hlen. destruct Hok. unfold buffer_consume_end_ret.
  replace (u32 (end_ b - offset b)) with (end_ b - offset b) by (bufcrush; done).
  zcase; [lia|]. replace (u32 (end_ b - len)) with (end_ b - len) by (bufcrush; done).
  split; [lia|]. split; [constructor; simpl; lia|]. split; [simpl; lia|].
  rewrite <- Hlen. unfold contents, slice. simpl. rewrite take_take. f_equal. lia.
Qed.

Lemma buffer_get_capped n b len d b' :
  capped n b -> 0 <= len -> buffer_get_ret b len = Some (d, b') -> capped n b'.
Proof.
  intros (Hok & He & Ha) Hl E. pose proof (buffer_get_ret_spec b len Hok Hl) as Hg.
  rewrite E in Hg. destruct Hg as (_ & _ & _ & ? & Ee & Ea). split; [done|]. lia.
Qed.

(** Reading [length d] bytes off a queue that starts with [d]. *)
Lemma buffer_get_ret_app n b d rest :
  capped n b -> contents b = d ++ rest ->
  exists b', buffer_get_ret b (zlen d) = Some (d, b') /\ capped n b' /\ contents b' = rest.
Proof.
  intros Hcap Hc. pose proof (buffer_get_ret_spec b (zlen d)) as H.
  pose proof (zlen_nonneg d). destruct Hcap as [Hok Hcap].
  specialize (H Hok ltac:(lia)). rewrite Hc in H.
  destruct (buffer_get_ret b (zlen d)) as [[d' b']|] eqn:E.
  - destruct H as (_ & -> & Hr & ? & He & Ha). unfold zlen in Hr |- *. rewrite Nat2Z.id in *.
    rewrite take_app_length. rewrite drop_app_length in Hr.
    exists b'. split; [done|]. split; [|done]. split; [done|lia].
  - rewrite zlen_app in H. pose proof (zlen_nonneg rest). lia.
Qed.

(** ** Codec lemmas *)

Lemma land_255_u8 z : Z.land (u8 z) 255 = u8 z.
Proof.
  change 255 with (Z.ones 8). rewrite Z.land_ones by lia.
  apply Z.mod_small, u8_range.
Qed.

Lemma u8_shiftr v k : 0 <= k -> u8 (Z.shiftr v k) = v / 2 ^ k mod 256.
Proof. intros. unfold u8. by rewrite Z.shiftr_div_pow2. Qed.

Lemma get_u16_bytes a b : is_u8 a -> is_u8 b -> get_u16 [a; b] = a * 256 + b.
Proof.
  unfold is_u8. intros. change (get_u16 [a; b]) with (Z.lor (Z.shiftl a 8) b).
  rewrite Z.shiftl_mul_pow2 by lia. apply (lor_disjoint_add a b 8); lia.
Qed.

Lemma get_u32_bytes a b c d :
  is_u8 a -> is_u8 b -> is_u8 c -> is_u8 d ->
  get_u32 [a; b; c; d] = ((a * 256 + b) * 256 + c) * 256 + d.
Proof.
  unfold is_u8. intros.
  change (get_u32 [a; b; c; d]) with
    (Z.lor (Z.lor (Z.lor (Z.shiftl a 24) (Z.shiftl b 16)) (Z.shiftl c 8)) d).
  rewrite !Z.shiftl_mul_pow2 by lia.
  rewrite (lor_disjoint_add a (b * 2 ^ 16) 24) by lia.
  replace (a * 2 ^ 24 + b * 2 ^ 16) with ((a * 256 + b) * 2 ^ 16) by lia.
  rewrite (lor_disjoint_add _ (c * 2 ^ 8) 16) by lia.
  replace ((a * 256 + b) * 2 ^ 16 + c * 2 ^ 8) with (((a * 256 + b) * 256 + c) * 2 ^ 8) by lia.
  rewrite (lor_disjoint_add _ d 8) by lia. lia.
Qed.

Lemma get_u64_split p :
  bytes_ok p -> length p = 8%nat ->
  get_u64 p = get_u32 (take 4 p) * 2 ^ 32 + get_u32 (drop 4 p).
Proof.
  intros Hp Hl.
  destruct p as [|a [|b [|c [|d [|e [|f [|g [|h [|? ?]]]]]]]]]; try discriminate.
  repeat match goal with H : Forall _ (_ :: _) |- _ => inversion H; subst; clear H end.
  cbn [take drop]. rewrite !get_u32_bytes by done. unfold is_u8 in *.
  change (get_u64 [a; b; c; d; e; f; g; h]) with
    (Z.lor (Z.lor (Z.lor (Z.lor (Z.lor (Z.lor (Z.lor
      (Z.shiftl a 56) (Z.shiftl b 48)) (Z.shiftl c 40)) (Z.shiftl d 32))
      (Z.shiftl e 24)) (Z.shiftl f 16)) (Z.shiftl g 8)) h).
  rewrite !Z.shiftl_mul_pow2 by lia.
  rewrite (lor_disjoint_add a (b * 2 ^ 48) 56) by lia.
  replace (a * 2 ^ 56 + b * 2 ^ 48) with ((a * 256 + b) * 2 ^ 48) by lia.
  rewrite (lor_disjoint_add _ (c * 2 ^ 40) 48) by lia.
  replace (_ * 2 ^ 48 + c * 2 ^ 40) with (((a * 256 + b) * 256 + c) * 2 ^ 40) by lia.
  rewrite (lor_disjoint_add _ (d * 2 ^ 32) 40) by lia.
  replace (_ * 2 ^ 40 + d * 2 ^ 32)
    with ((((a * 256 + b) * 256 + c) * 256 + d) * 2 ^ 32) by lia.
  set (hi := ((a * 256 + b) * 256 + c) * 256 + d).
  rewrite (lor_disjoint_add hi (e * 2 ^ 24) 32) by lia.
  replace (_ + e * 2 ^ 24) with ((hi * 256 + e) * 2 ^ 24) by lia.
  rewrite (lor_disjoint_add _ (f * 2 ^ 16) 24) by lia.
  replace (_ + f * 2 ^ 16) with (((hi * 256 + e) * 256 + f) * 2 ^ 16) by lia.
  rewrite (lor_disjoint_add _ (g * 2 ^ 8) 16) by lia.
  replace (_ + g * 2 ^ 8) with ((((hi * 256 + e) * 256 + f) * 256 + g) * 2 ^ 8) by lia.
  rewrite (lor_disjoint_add _ h 8) by lia. lia.
Qed.

Lemma put_u16_bytes v : put_u16 v = [v / 256 mod 256; v mod 256].
Proof. unfold put_u16. rewrite !land_255_u8, u8_shiftr by lia. done. Qed.

Lemma put_u32_bytes v :
  put_u32 v = [v / 2 ^ 24 mod 256; v / 2 ^ 16 mod 256; v / 2 ^ 8 mod 256; v mod 256].
Proof. unfold put_u32. rewrite !land_255_u8, !u8_shiftr by lia. done. Qed.

Lemma get_put_u16 v : 0 <= v < 2 ^ 16 -> get_u16 (put_u16 v) = v.
Proof.
  intros. rewrite put_u16_bytes, get_u16_bytes by (apply Z.mod_pos_bound; lia).
  Z.div_mod_to_equations. lia.
Qed.

Lemma get_put_u32 v : 0 <= v < 2 ^ 32 -> get_u32 (put_u32 v) = v.
Proof.
  intros. rewrite put_u32_bytes, get_u32_bytes by (apply Z.mod_pos_bound; lia).
  Z.div_mod_to_equations. lia.
Qed.

Lemma zlen_put_u32 v : zlen (put_u32 v) = 4.
Proof. done. Qed.

Lemma put_u32_ok v : bytes_ok (put_u32 v).
Proof. rewrite put_u32_bytes. repeat constructor; apply Z.mod_pos_bound; lia. Qed.

Lemma put_u64_split v :
  put_u64 v = put_u32 (v / 2 ^ 32) ++ put_u32 (v mod 2 ^ 32).
Proof.
  rewrite !put_u32_bytes. unfold put_u64. rewrite !land_255_u8, !u8_shiftr by lia.
  cbn [app]. unfold u8. rewrite !Zdiv.Zdiv_Zdiv by lia.
  repeat (f_equal; try (Z.div_mod_to_equations; lia)).
Qed.

Lemma get_put_u64 v : 0 <= v < 2 ^ 64 -> get_u64 (put_u64 v) = v.
Proof.
  intros Hv. rewrite put_u64_split, get_u64_split; [|apply Forall_app_2; apply put_u32_ok|done].
  change 4%nat with (length (put_u32 (v / 2 ^ 32))).
  rewrite take_app_length, drop_app_length.
  rewrite !get_put_u32; Z.div_mod_to_equations; lia.
Qed.

Lemma buffer_append_refused b d m :
  buffer_ok b -> buffer_append b d = Fatal m ->
  BUFFER_MAX_CHUNK < zlen d \/ BUFFER_MAX_LEN < zlen (contents b) + 2 * zlen d + BUFFER_MAX_CHUNK + BUFFER_ALLOCSZ.
Proof.
  intros Hok. pose proof (zlen_nonneg d). unfold buffer_append, buffer_append_space.
  destruct (zlen d >? BUFFER_MAX_CHUNK) eqn:E; zbool; [by left|]. intros Hf. right.
  destruct (buffer_rewind_spec b Hok) as (Hok1 & Hc & _).
  destruct (append_space_restart 4 (buffer_rewind b) (zlen d)) as [[]| |] eqn:Er; try done.
  rewrite <- Hc. eapply restart_refused; [done| |exact Er]. lia.
Qed.

(** ** Sequences of queue operations *)

Inductive buffer_op :=
| OpAppend (d : list Z)
| OpGet (n : Z)
| OpConsume (n : Z)
| OpConsumeEnd (n : Z)
| OpClear.

Definition op_ok (o : buffer_op) : Prop :=
  match o with
  | OpGet n | OpConsume n | OpConsumeEnd n => 0 <= n
  | _ => True
  end.

Definition buffer_step (b : Buffer) (o : buffer_op) : res (list Z * Buffer) :=
  match o with
  | OpAppend d => b ← buffer_append b d; Ok ([], b)
  | OpGet n => buffer_get b n
  | OpConsume n => b ← buffer_consume b n; Ok ([], b)
  | OpConsumeEnd n => b ← buffer_consume_end b n; Ok ([], b)
  | OpClear => Ok ([], buffer_clear b)
  end.

Fixpoint run_buffer (b : Buffer) (os : list buffer_op) : res (list (list Z) * Buffer) :=
  match os with
  | [] => Ok ([], b)
  | o :: os =>
      '(out, b) ← buffer_step b o;
      '(outs, b) ← run_buffer b os;
      Ok (out :: outs, b)
  end.

(** The specification: a list of bytes. *)
Definition queue_step (q : list Z) (o : buffer_op) : option (list Z * list Z) :=
  match o with
  | OpAppend d => Some ([], q ++ d)
  | OpGet n => if n <=? zlen q then Some (take (Z.to_nat n) q, drop (Z.to_nat n) q) else None
  | OpConsume n => if n <=? zlen q then Some ([], drop (Z.to_nat n) q) else None
  | OpConsumeEnd n => if n <=? zlen q then Some ([], take (Z.to_nat (zlen q - n)) q) else None
  | OpClear => Some ([], [])
  end.

Fixpoint run_queue (q : list Z) (os : list buffer_op) : option (list (list Z) * list Z) :=
  match os with
  | [] => Some ([], q)
  | o :: os =>
      '(out, q) ← queue_step q o;
      '(outs, q) ← run_queue q os;
      Some (out :: outs, q)
  end.

(** When an append may be refused, for what the queue holds at that time. *)
Definition refused (q : list Z) (o : buffer_op) : Prop :=
  match o with
  | OpAppend d => BUFFER_MAX_CHUNK < zlen d \/ BUFFER_MAX_LEN < zlen q + 2 * zlen d + BUFFER_MAX_CHUNK + BUFFER_ALLOCSZ
  | _ => False
  end.

Lemma buffer_clear_capped n b : capped n b -> capped n (buffer_clear b).
Proof.
  intros (Hok & ? & ?). split; [by apply buffer_clear_ok|]. simpl. destruct Hok. lia.
Qed.

Lemma queue_step_fits {A} n (q : list Z) (x : A) :
  n <= zlen q -> (if n <=? zlen q then Some x else None) = Some x.
Proof. intros. by replace (n <=? zlen q) with true by lia. Qed.

Lemma queue_step_short {A} n (q : list Z) (x : A) :
  zlen q < n -> (if n <=? zlen q then Some x else None) = None.
Proof. intros. by replace (n <=? zlen q) with false by lia. Qed.

Lemma buffer_step_refines b o :
  buffer_ok b -> op_ok o ->
  match buffer_step b o with
  | Ok (out, b') => buffer_ok b' /\ queue_step (contents b) o = Some (out, contents b')
  | Fatal _ => queue_step (contents b) o = None \/ refused (contents b) o
  | OutOfFuel => False
  end.
Proof.
  intros Hok Ho. destruct o as [d|k|k|k|]; simpl in *.
  - destruct (buffer_append_cases b d Hok) as [(b' & -> & Hok' & Hc & _)|(m & E & _)]; simpl; [by rewrite Hc|].
    rewrite E. right. by eapply buffer_append_refused.
  - unfold buffer_get. pose proof (buffer_get_ret_spec b k Hok Ho) as H.
    destruct (buffer_get_ret b k) as [[d b']|] eqn:E; simpl.
    + destruct H as (? & -> & Hc & Hb' & _). rewrite queue_step_fits, <- Hc by done. done.
    + left. by apply queue_step_short.
  - unfold buffer_consume. rewrite buffer_consume_ret_get.
    pose proof (buffer_get_ret_spec b k Hok Ho) as H.
    destruct (buffer_get_ret b k) as [[d b']|] eqn:E; simpl.
    + destruct H as (? & -> & Hc & Hb' & _). rewrite queue_step_fits, <- Hc by done. done.
    + left. by apply queue_step_short.
  - unfold buffer_consume_end. pose proof (buffer_consume_end_ret_spec b k Hok Ho) as H.
    destruct (buffer_consume_end_ret b k) as [b'|] eqn:E; simpl.
    + destruct H as (? & Hb' & ? & Hc). rewrite queue_step_fits, <- Hc by done. done.
    + left. by apply queue_step_short.
  - split; [by apply buffer_clear_ok|done].
Qed.

(** C4: the growing, compacting [Buffer] refines a plain byte queue.  Run any
    sequence of appends, reads and truncations, however long: it terminates, and every
    byte read is the byte the queue has there.  It stops with [fatal] only at an operation
    that takes more than the queue holds, at an append of a chunk above BUFFER_MAX_CHUNK,
    or at an append when the bytes that are in the queue at that time, with twice the
    chunk, one BUFFER_MAX_CHUNK and one BUFFER_ALLOCSZ, exceed BUFFER_MAX_LEN: what went
    through the queue before does not count. *)
Theorem buffer_refines_queue (os : list buffer_op) :
  forall b, buffer_ok b -> Forall op_ok os ->
  match run_buffer b os with
  | Ok (outs, b') => buffer_ok b' /\ run_queue (contents b) os = Some (outs, contents b')
  | Fatal _ => exists before o after outs q, os = before ++ o :: after /\
      run_queue (contents b) before = Some (outs, q) /\ (queue_step q o = None \/ refused q o)
  | OutOfFuel => False
  end.
Proof.
  induction os as [|o os IH]; intros b Hok Hos; simpl; [done|].
  apply Forall_cons in Hos as [Ho Hos].
  pose proof (buffer_step_refines b o Hok Ho) as Hs.
  destruct (buffer_step b o) as [[out b1]|m|]; simpl; [|exists [], o, os, [], (contents b); split; [done|]; split; [done|exact Hs]|done].
  destruct Hs as [Hok1 Hq]. rewrite Hq. simpl. specialize (IH _ Hok1 Hos).
  destruct (run_buffer b1 os) as [[outs b2]|m|]; simpl; [..|done].
  - by destruct IH as [Hok2 ->].
  - destruct IH as (before & o' & after & outs & q & -> & Hr & Hw).
    exists (o :: before), o', after, (out :: outs), q. split; [done|]. split; [|done].
    cbn [run_queue]. rewrite Hq. cbn [mbind option_bind]. by rewrite Hr.
Qed.

Lemma buffer_refines_queue_witness :
  buffer_ok buffer_init /\
  match run_buffer buffer_init [OpAppend [1; 2; 3]; OpGet 2; OpAppend [4]; OpConsumeEnd 1] with
  | Ok (outs, b') => buffer_ok b' /\
      run_queue [] [OpAppend [1; 2; 3]; OpGet 2; OpAppend [4]; OpConsumeEnd 1]
      = Some (outs, contents b')
  | _ => False
  end.
Proof.
  split; [apply buffer_init_ok|].
  pose proof (buffer_refines_queue
    [OpAppend [1; 2; 3]; OpGet 2; OpAppend [4]; OpConsumeEnd 1] buffer_init
    buffer_init_ok ltac:(repeat constructor; simpl; lia)) as H.
  revert H. vm_compute (run_buffer _ _).
  change (contents buffer_init) with (@nil Z). intros H. exact H.
Defined.

(** ** Messages as sequences of fields *)

Inductive field :=
| FChar (v : Z)
| FShort (v : Z)
| FInt (v : Z)
| FInt64 (v : Z)
| FString (s : list Z).

Definition field_ok (f : field) : Prop :=
  match f with
  | FChar v => 0 <= v < 2 ^ 8
  | FShort v => 0 <= v < 2 ^ 16
  | FInt v => 0 <= v < 2 ^ 32
  | FInt64 v => 0 <= v < 2 ^ 64
  | FString s => zlen s <= 256 * 1024
  end.

Definition put_field (b : Buffer) (f : field) : res Buffer :=
  match f with
  | FChar v => buffer_put_char b v
  | FShort v => buffer_put_short b v
  | FInt v => buffer_put_int b v
  | FInt64 v => buffer_put_int64 b v
  | FString s => buffer_put_string b s
  end.

(** Read a field of the same kind as [f]. *)
Definition get_field (b : Buffer) (f : field) : res (field * Buffer) :=
  match f with
  | FChar _ => '(v, b) ← buffer_get_char b; Ok (FChar v, b)
  | FShort _ => '(v, b) ← buffer_get_short b; Ok (FShort v, b)
  | FInt _ => '(v, b) ← buffer_get_int b; Ok (FInt v, b)
  | FInt64 _ => '(v, b) ← buffer_get_int64 b; Ok (FInt64 v, b)
  | FString _ => '(s, b) ← buffer_get_string b; Ok (FString s, b)
  end.

Fixpoint put_fields (b : Buffer) (fs : list field) : res Buffer :=
  match fs with
  | [] => Ok b
  | f :: fs => b ← put_field b f; put_fields b fs
  end.

Fixpoint get_fields (b : Buffer) (fs : list field) : res (list field * Buffer) :=
  match fs with
  | [] => Ok ([], b)
  | f :: fs =>
      '(v, b) ← get_field b f; '(vs, b) ← get_fields b fs; Ok (v :: vs, b)
  end.

Definition field_bytes (f : field) : list Z :=
  match f with
  | FChar v => [u8 v]
  | FShort v => put_u16 v
  | FInt v => put_u32 v
  | FInt64 v => put_u64 v
  | FString s => put_u32 (zlen s) ++ s
  end.

Definition fields_bytes (fs : list field) : list Z := concat (field_bytes <$> fs).

(** Bytes that fit into a buffer in chunks, from [n] on. *)
Definition fits (n : Z) (l : list Z) : Prop :=
  2 * (n + zlen l) + BUFFER_ALLOCSZ <= BUFFER_MAX_LEN.

Lemma fits_app n l k : fits n (l ++ k) <-> fits (n + zlen l) k.
Proof. unfold fits. rewrite zlen_app. lia. Qed.

Lemma fits_app_l n l k : fits n (l ++ k) -> fits n l.
Proof. unfold fits. rewrite zlen_app. pose proof (zlen_nonneg k). lia. Qed.

Lemma buffer_append_fits n b d :
  capped n b -> fits n d -> zlen d <= BUFFER_MAX_CHUNK ->
  exists b', buffer_append b d = Ok b' /\ capped (n + zlen d) b' /\
             contents b' = contents b ++ d.
Proof. intros. by apply buffer_append_capped. Qed.

Lemma buffer_put_string_fits n b s :
  capped n b -> fits n (put_u32 (zlen s) ++ s) -> zlen s <= BUFFER_MAX_CHUNK ->
  exists b', buffer_put_string b s = Ok b' /\
     capped (n + zlen (put_u32 (zlen s) ++ s)) b' /\
     contents b' = contents b ++ put_u32 (zlen s) ++ s.
Proof.
  intros Hcap Hfit Hs. unfold buffer_put_string, buffer_put_int.
  destruct (buffer_append_fits n b (put_u32 (zlen s)) Hcap) as (b1 & -> & Hc1 & H1);
    [by eapply fits_app_l|vm_compute; congruence|].
  destruct (buffer_append_fits _ b1 s Hc1) as (b2 & E2 & Hc2 & H2);
    [by apply fits_app|done|].
  exists b2. split; [done|]. split; [by rewrite zlen_app, Z.add_assoc|].
  by rewrite H2, H1, (assoc_L _ (contents b)).
Qed.

Lemma put_field_fits n b f :
  capped n b -> field_ok f -> fits n (field_bytes f) ->
  exists b', put_field b f = Ok b' /\ capped (n + zlen (field_bytes f)) b' /\
             contents b' = contents b ++ field_bytes f.
Proof.
  intros Hcap Hf Hfit.
  destruct f; try (by apply buffer_append_fits; [..|vm_compute; congruence]).
  apply buffer_put_string_fits; [done..|]. simpl in Hf. unfold BUFFER_MAX_CHUNK. lia.
Qed.

Lemma put_fields_fits fs : forall n b,
  capped n b -> Forall field_ok fs -> fits n (fields_bytes fs) ->
  exists b', put_fields b fs = Ok b' /\ capped (n + zlen (fields_bytes fs)) b' /\
             contents b' = contents b ++ fields_bytes fs.
Proof.
  induction fs as [|f fs IH]; intros n b Hcap Hok Hfit.
  { exists b. rewrite app_nil_r. change (zlen (fields_bytes [])) with 0. by rewrite Z.add_0_r. }
  apply Forall_cons in Hok as [Hf Hok].
  change (fields_bytes (f :: fs)) with (field_bytes f ++ fields_bytes fs) in *.
  destruct (put_field_fits n b f Hcap Hf) as (b1 & E1 & Hc1 & H1); [by eapply fits_app_l|].
  destruct (IH _ b1 Hc1 Hok) as (b2 & E2 & Hc2 & H2); [by apply fits_app|].
  exists b2. cbn [put_fields]. rewrite E1. split; [done|].
  rewrite zlen_app, Z.add_assoc. split; [done|]. by rewrite H2, H1, (assoc_L _ (contents b)).
Qed.

Lemma buffer_get_string_app n b s rest :
  capped n b -> zlen s <= 256 * 1024 -> contents b = put_u32 (zlen s) ++ s ++ rest ->
  exists b', buffer_get_string b = Ok (s, b') /\ capped n b' /\ contents b' = rest.
Proof.
  intros Hcap Hs Hc. unfold buffer_get_string, buffer_get_string_ret, buffer_get_int,
    buffer_get_int_ret.
  destruct (buffer_get_ret_app n b _ _ Hcap Hc) as (b1 & E1 & Hc1 & H1).
  change (zlen (put_u32 (zlen s))) with 4 in E1. rewrite E1. rsimp.
  pose proof (zlen_nonneg s). rewrite get_put_u32 by lia.
  destruct (zlen s >? _) eqn:E; zbool; [lia|].
  destruct (buffer_get_ret_app n b1 s rest Hc1 H1) as (b2 & -> & Hc2 & H2).
  by exists b2.
Qed.

Lemma get_field_app n b f rest :
  capped n b -> field_ok f -> contents b = field_bytes f ++ rest ->
  exists b', get_field b f = Ok (f, b') /\ capped n b' /\ contents b' = rest.
Proof.
  intros Hcap Hf Hc. destruct f as [v|v|v|v|s]; cbn [field_ok field_bytes get_field] in *.
  5: { rewrite <- (assoc_L (++)) in Hc.
       destruct (buffer_get_string_app n b s rest) as (b' & -> & ?); [done..|]. by exists b'. }
  all: destruct (buffer_get_ret_app n b _ rest Hcap Hc) as (b' & E & Hc' & Hr); exists b'.
  - unfold buffer_get_char, buffer_get_char_ret.
    change (buffer_get_ret b 1 = Some ([u8 v], b')) in E. rewrite E. rsimp.
    by rewrite u8_small.
  - unfold buffer_get_short, buffer_get_short_ret.
    change (buffer_get_ret b 2 = Some (put_u16 v, b')) in E. rewrite E. rsimp.
    by rewrite get_put_u16.
  - unfold buffer_get_int, buffer_get_int_ret.
    change (buffer_get_ret b 4 = Some (put_u32 v, b')) in E. rewrite E. rsimp.
    by rewrite get_put_u32.
  - unfold buffer_get_int64, buffer_get_int64_ret.
    change (buffer_get_ret b 8 = Some (put_u64 v, b')) in E. rewrite E. rsimp.
    by rewrite get_put_u64.
Qed.

Lemma get_fields_app fs : forall n b rest,
  capped n b -> Forall field_ok fs -> contents b = fields_bytes fs ++ rest ->
  exists b', get_fields b fs = Ok (fs, b') /\ capped n b' /\ contents b' = rest.
Proof.
  induction fs as [|f fs IH]; intros n b rest Hcap Hok Hc; [by exists b|].
  apply Forall_cons in Hok as [Hf Hok].
  change (fields_bytes (f :: fs)) with (field_bytes f ++ fields_bytes fs) in Hc.
  rewrite <- (assoc_L (++)) in Hc.
  destruct (get_field_app n b f _ Hcap Hf Hc) as (b1 & E1 & Hc1 & H1).
  destruct (IH n b1 rest Hc1 Hok H1) as (b2 & E2 & Hc2 & H2).
  exists b2. cbn [get_fields]. rewrite E1. rsimp. rewrite E2. done.
Qed.

(** Wire round trip.  Any sequence of chars, shorts, ints, 64-bit ints and
    strings (each string at most the 256 KiB the reader accepts) written behind
    the data of a buffer is read back unchanged, in order, by the getters once
    the older data have been consumed. *)
Theorem fields_roundtrip (fs : list field) n b old :
  capped n b -> contents b = old -> Forall field_ok fs -> fits n (fields_bytes fs) ->
  exists b1 b2 b3,
    put_fields b fs = Ok b1 /\ buffer_get_ret b1 (zlen old) = Some (old, b2) /\
    get_fields b2 fs = Ok (fs, b3) /\ contents b3 = [].
Proof.
  intros Hcap Hold Hok Hfit.
  destruct (put_fields_fits fs n b Hcap Hok Hfit) as (b1 & E1 & Hc1 & H1).
  rewrite Hold in H1.
  destruct (buffer_get_ret_app _ b1 old _ Hc1 H1) as (b2 & E2 & Hc2 & H2).
  rewrite <- (app_nil_r (fields_bytes fs)) in H2.
  destruct (get_fields_app fs _ b2 [] Hc2 Hok H2) as (b3 & E3 & _ & H3).
  by exists b1, b2, b3.
Qed.

Lemma fields_roundtrip_witness :
  exists b1 b2 b3,
    put_fields buffer_init [FInt 4000000000; FString [104; 105]; FChar 7; FInt64 (2 ^ 63)] = Ok b1 /\
    buffer_get_ret b1 0 = Some ([], b2) /\
    get_fields b2 [FInt 4000000000; FString [104; 105]; FChar 7; FInt64 (2 ^ 63)]
      = Ok ([FInt 4000000000; FString [104; 105]; FChar 7; FInt64 (2 ^ 63)], b3) /\
    contents b3 = [].
Proof.
  apply (fields_roundtrip [FInt 4000000000; FString [104; 105]; FChar 7; FInt64 (2 ^ 63)]
           0 buffer_init []).
  - apply buffer_init_capped.
  - reflexivity.
  - repeat constructor; simpl; try lia. vm_compute; congruence.
  - vm_compute. congruence.
Defined.

(** ** Writers *)

(** [w] appends [l] to any buffer that has room for it. *)
Definition writes (w : Buffer -> res Buffer) (l : list Z) : Prop := forall n b,
  capped n b -> fits n l ->
  exists b', w b = Ok b' /\ capped (n + zlen l) b' /\ contents b' = contents b ++ l.

Lemma writes_append d : zlen d <= BUFFER_MAX_CHUNK -> writes (fun b => buffer_append b d) d.
Proof. intros Hd n b Hc Hf. by apply buffer_append_fits. Qed.

Lemma writes_int v : writes (fun b => buffer_put_int b v) (put_u32 v).
Proof. by apply writes_append. Qed.

Lemma writes_char v : writes (fun b => buffer_put_char b v) [u8 v].
Proof. by apply writes_append. Qed.

Lemma writes_string s : zlen s <= BUFFER_MAX_CHUNK ->
  writes (fun b => buffer_put_string b s) (put_u32 (zlen s) ++ s).
Proof. intros Hs n b Hc Hf. by apply buffer_put_string_fits. Qed.

Lemma writes_cstring s : zlen (c_str s) <= BUFFER_MAX_CHUNK ->
  writes (fun b => buffer_put_cstring b (Some s)) (put_u32 (zlen (c_str s)) ++ c_str s).
Proof. apply writes_string. Qed.

(** A buffer with room for the pieces [ls], with which it will hold [total]. *)
Definition filling (ls : list (list Z)) (total : list Z) (b : Buffer) : Prop :=
  exists n, capped n b /\ fits n (concat ls) /\ contents b ++ concat ls = total.

Lemma filling_init ls : fits 0 (concat ls) -> filling ls (concat ls) buffer_init.
Proof. intros Hf. exists 0. split; [apply buffer_init_capped|done]. Qed.

(** One writer of a sequence of them. *)
Lemma filling_step {A} (P : res A -> Prop) w l ls total b (k : Buffer -> res A) :
  writes w l -> filling (l :: ls) total b -> (forall b', filling ls total b' -> P (k b')) ->
  P (b ← w b; k b).
Proof.
  intros Hw (n & Hc & Hf & Ht) Hk. cbn [concat] in *.
  destruct (Hw n b Hc) as (b1 & -> & Hc1 & H1); [by eapply fits_app_l|]. rsimp. apply Hk.
  exists (n + zlen l). split; [done|]. split; [by apply fits_app|]. by rewrite H1, <- app_assoc.
Qed.

Lemma filling_end total b : filling [] total b -> buffer_ok b /\ contents b = total /\ buffer_ptr b = total.
Proof.
  intros (n & [Hb _] & _ & Ht). cbn in Ht. rewrite app_nil_r in Ht.
  by rewrite buffer_ptr_contents.
Qed.

(** The next writer of a sequence that ends in a known value, by the fact [W] about it. *)
Ltac fill W :=
  let Hf := fresh "Hf" in
  eapply (filling_step (fun r => r = _) _ _ _ _ _ _ W); [eassumption|]; intros ? Hf; rsimp.

Ltac filled :=
  match goal with H : filling [] _ _ |- _ => apply filling_end in H as (_ & _ & ->) end.
