(* ===== verification/CxxMonad.v ===== *)
(** * CxxMonad: state and C++ exceptions

    The connection and the SFTP subsystem change the state of their objects and throw
    exceptions, and an exception leaves the changes made before it.  [SE S A] is that
    effect; [wp] is its weakest precondition with one postcondition for a normal end
    and one for a thrown exception.  The file ends with the readers of a [Buffer] in
    this monad: a field that is missing makes [fatal] throw with the fields before it
    consumed. *)

From S2P Require Import Prelude SshBuffer.

Create HintDb sftp.

Inductive exn :=
| InvalidPath
| out_of_range
| NoSuchHandle (handle : Z)
| soci_error         (** the database *)
| SocketError        (** what [sSocketCheck] throws *)
| SException         (** another exception of that class *)
| ShuttingDown       (** what [fatal] and [cleanup_exit] throw *)
| AssertFailed       (** [abort], which no handler sees *)
| BadFree            (** [free] of an uninitialised pointer *)
| BadRead            (** a read through a NULL or dangling pointer *)
| Diverges.          (** the bound put on a loop was too small *)

(** What [catch (...)] catches. *)
Definition catchable (e : exn) : bool :=
  match e with
  | InvalidPath | out_of_range | NoSuchHandle _ | soci_error | SocketError | SException | ShuttingDown => true
  | AssertFailed | BadFree | BadRead | Diverges => false
  end.

Inductive exc (A : Type) : Type :=
| Ret (a : A)
| Throw (e : exn).
Arguments Ret {A} _.
Arguments Throw {A} _.

#[global] Instance exc_ret : MRet exc := fun A a => Ret a.
#[global] Instance exc_bind : MBind exc := fun A B f m =>
  match m with Ret a => f a | Throw e => Throw e end.

Definition SE (S A : Type) : Type := S -> exc A * S.

#[global] Instance SE_ret {S} : MRet (SE S) := fun A a s => (Ret a, s).
#[global] Instance SE_bind {S} : MBind (SE S) := fun A B f m s =>
  match m s with
  | (Ret a, s) => f a s
  | (Throw e, s) => (Throw e, s)
  end.

Definition throw {S A} (e : exn) : SE S A := fun s => (Throw e, s).
Definition gets {S A} (f : S -> A) : SE S A := fun s => (Ret (f s), s).
Definition modify {S} (f : S -> S) : SE S unit := fun s => (Ret tt, f s).
Definition lift {S A} (m : exc A) : SE S A := fun s => (m, s).

(** Code that ends in [fatal] without a change of the state before it. *)
Definition lift_res {S A} (r : res A) : SE S A :=
  match r with
  | Ok a => mret a
  | Fatal _ => throw ShuttingDown
  | OutOfFuel => throw Diverges
  end.

(** [try m catch h] for the exceptions [c]: the handler runs in the state the
    exception left. *)
Definition try_catch {S A} (c : exn -> bool) (m h : SE S A) : SE S A := fun s =>
  match m s with
  | (Throw e, s) => if c e then h s else (Throw e, s)
  | r => r
  end.

(** A computation on a component of the state. *)
Definition zoom {S T A} (get : S -> T) (set : T -> S -> S) (m : SE T A) : SE S A := fun s =>
  let '(r, t) := m (get s) in (r, set t s).

(** ** Weakest preconditions *)

Definition wp {S A} (m : SE S A) (Q : A -> S -> Prop) (E : exn -> S -> Prop) (s : S) : Prop :=
  match m s with
  | (Ret a, s) => Q a s
  | (Throw e, s) => E e s
  end.

Section WP.
Context {S : Type}.
Implicit Types (s : S) (E : exn -> S -> Prop).

Lemma wp_ret {A} (a : A) (Q : A -> S -> Prop) E s : Q a s -> wp (mret a) Q E s.
Proof. done. Qed.

Lemma wp_throw {A} e (Q : A -> S -> Prop) E s : E e s -> wp (throw e) Q E s.
Proof. done. Qed.

Lemma wp_bind {A B} (m : SE S A) (f : A -> SE S B) Q E s :
  wp m (fun a => wp (f a) Q E) E s -> wp (m ≫= f) Q E s.
Proof. unfold wp, mbind, SE_bind. destruct (m s) as [[a|e] s']; done. Qed.

Lemma wp_mono {A} (m : SE S A) (Q Q' : A -> S -> Prop) E E' s :
  wp m Q E s -> (forall a s, Q a s -> Q' a s) -> (forall e s, E e s -> E' e s) -> wp m Q' E' s.
Proof. unfold wp. destruct (m s) as [[a|e] s']; auto. Qed.

Lemma wp_and {A} (m : SE S A) (Q Q' : A -> S -> Prop) E E' s :
  wp m Q E s -> wp m Q' E' s -> wp m (fun a s => Q a s /\ Q' a s) (fun e s => E e s /\ E' e s) s.
Proof. unfold wp. destruct (m s) as [[a|e] s']; done. Qed.

Lemma wp_try {A} (c : exn -> bool) (m h : SE S A) Q E s :
  wp m Q (fun e s => if c e then wp h Q E s else E e s) s -> wp (try_catch c m h) Q E s.
Proof.
  unfold wp, try_catch. destruct (m s) as [[a|e] s']; [done|]. by destruct (c e).
Qed.

Lemma wp_gets {A} (f : S -> A) Q E s : Q (f s) s -> wp (gets f) Q E s.
Proof. done. Qed.

Lemma wp_modify (f : S -> S) Q E s : Q tt (f s) -> wp (modify f) Q E s.
Proof. done. Qed.

Lemma wp_lift {A} (m : exc A) Q E s :
  match m with Ret a => Q a s | Throw e => E e s end -> wp (lift m) Q E s.
Proof. unfold wp, lift. by destruct m. Qed.

Lemma wp_lift_res {A} (r : res A) Q E s :
  match r with Ok a => Q a s | Fatal _ => E ShuttingDown s | OutOfFuel => E Diverges s end ->
  wp (lift_res r) Q E s.
Proof. by destruct r. Qed.

Lemma wp_zoom {T A} (get : S -> T) set (m : SE T A) Q E s :
  wp m (fun a t => Q a (set t s)) (fun e t => E e (set t s)) (get s) -> wp (zoom get set m) Q E s.
Proof. unfold wp, zoom. by destruct (m (get s)) as [[a|e] t]. Qed.

End WP.

(** One rule of the logic, chosen by the head of the computation. *)
Ltac wp_step :=
  match goal with
  | |- wp (mret _) _ _ _ => apply wp_ret
  | |- wp (throw _) _ _ _ => apply wp_throw
  | |- wp (_ ≫= _) _ _ _ => apply wp_bind
  | |- wp (try_catch _ _ _) _ _ _ => apply wp_try
  | |- wp (gets _) _ _ _ => apply wp_gets
  | |- wp (modify _) _ _ _ => apply wp_modify
  | |- wp (zoom _ _ _) _ _ _ => apply wp_zoom
  end.

(** ** Reading the input queue *)

(** A [buffer_get_*] whose failure is [fatal] and leaves the buffer alone. *)
Definition get_or_fatal {A} (get : Buffer -> option (A * Buffer)) : SE Buffer A := fun b =>
  match get b with
  | Some (a, b) => (Ret a, b)
  | None => (Throw ShuttingDown, b)
  end.

Definition get_char : SE Buffer Z := get_or_fatal buffer_get_char_ret.
Definition get_int : SE Buffer Z := get_or_fatal buffer_get_int_ret.
Definition get_int64 : SE Buffer Z := get_or_fatal buffer_get_int64_ret.

(** [buffer_get_string]: the length word stays consumed when the rest fails. *)
Definition get_string : SE Buffer (list Z) := fun b =>
  match buffer_get_string_ret b with
  | Ok (Some s, b) => (Ret s, b)
  | Ok (None, b) => (Throw ShuttingDown, b)
  | Fatal _ => (Throw ShuttingDown, b)
  | OutOfFuel => (Throw Diverges, b)
  end.

(** *** What a getter does to the queue, whatever it holds *)

Definition queue_ok (b : Buffer) : Prop := buffer_ok b /\ bytes_ok (contents b).

(** The queue after a getter: shorter by [k] bytes or more, nothing appended. *)
Record drained (k : Z) (b b' : Buffer) : Prop := {
  dr_ok : queue_ok b';
  dr_len : zlen (contents b') + k <= zlen (contents b);
  dr_end : end_ b' = end_ b;
  dr_alloc : alloc b' = alloc b
}.

Definition getter {A} (k : Z) (m : SE Buffer A) : Prop := forall b, queue_ok b ->
  wp m (fun _ b' => drained k b b') (fun e b' => e = ShuttingDown /\ drained 0 b b') b.

Lemma drained_refl b : queue_ok b -> drained 0 b b.
Proof. intros H. split; [done|lia|done|done]. Qed.

Lemma drained_trans k l b b1 b2 : drained k b b1 -> drained l b1 b2 -> drained (k + l) b b2.
Proof. intros [] []. split; [done|lia|congruence|congruence]. Qed.

Lemma drained_le k l b b' : l <= k -> drained k b b' -> drained l b b'.
Proof. intros ? []. split; [done|lia|done|done]. Qed.

Lemma get_ret_drained b len : queue_ok b -> 0 <= len ->
  match buffer_get_ret b len with
  | Some (d, b') => drained len b b' /\ bytes_ok d /\ zlen d = len
  | None => True
  end.
Proof.
  intros [Hok Hb] Hl. pose proof (buffer_get_ret_spec b len Hok Hl) as H.
  destruct (buffer_get_ret b len) as [[d b']|]; [|done].
  destruct H as (Hle & -> & Hc & Hok' & He & Ha). split; [split; [split; [done|]| |done|done]|split].
  - rewrite Hc. by apply Forall_drop.
  - rewrite Hc. unfold zlen in *. rewrite length_drop. lia.
  - by apply Forall_take.
  - unfold zlen in *. rewrite length_take. lia.
Qed.

Lemma getter_fatal {A} k (get : Buffer -> option (A * Buffer)) (f : list Z -> A) :
  0 <= k -> (forall b, get b = '(p, b') ← buffer_get_ret b k; Some (f p, b')) -> getter k (get_or_fatal get).
Proof.
  intros Hk Hg b Hb. unfold wp, get_or_fatal. rewrite Hg.
  pose proof (get_ret_drained b k Hb Hk) as H. destruct (buffer_get_ret b k) as [[d b']|]; cbn.
  - by destruct H.
  - split; [done|]. by apply drained_refl.
Qed.

Lemma getter_char : getter 1 get_char.
Proof. by apply (getter_fatal 1 _ (fun p => znth 0 p 0)). Qed.
Lemma getter_int : getter 4 get_int.
Proof. by apply (getter_fatal 4 _ get_u32). Qed.
Lemma getter_int64 : getter 8 get_int64.
Proof. by apply (getter_fatal 8 _ get_u64). Qed.

Lemma get_u32_range p : bytes_ok p -> zlen p = 4 -> 0 <= get_u32 p < 2 ^ 32.
Proof.
  intros Hp Hl. destruct p as [|a [|b [|c [|d [|? ?]]]]]; unfold zlen in Hl; cbn in Hl; try lia.
  rewrite !Forall_cons in Hp. destruct Hp as (? & ? & ? & ? & _).
  rewrite get_u32_bytes by done. unfold is_u8 in *. lia.
Qed.

Lemma getter_string : getter 4 get_string.
Proof.
  intros b Hb. unfold wp, get_string, buffer_get_string_ret, buffer_get_int, buffer_get_int_ret.
  pose proof (get_ret_drained b 4 Hb ltac:(lia)) as H. destruct (buffer_get_ret b 4) as [[d b1]|]; cbn.
  - destruct H as (Hd & Hbd & Hl). pose proof (get_u32_range d Hbd Hl) as Hr. destruct (_ >? _).
    + split; [done|]. by eapply drained_le, Hd.
    + pose proof (get_ret_drained b1 (get_u32 d) (dr_ok _ _ _ Hd) ltac:(lia)) as H2.
      destruct (buffer_get_ret b1 _) as [[s b2]|].
      * destruct H2 as (Hd2 & _ & _). eapply drained_le, drained_trans; [|done|done]. lia.
      * split; [done|]. by eapply drained_le, Hd.
  - split; [done|]. by apply drained_refl.
Qed.

Lemma getter_le {A} k l (m : SE Buffer A) : l <= k -> getter k m -> getter l m.
Proof.
  intros Hl Hm b Hb. eapply wp_mono; [by apply Hm|..|done]. cbn. intros _ b' H. by eapply drained_le.
Qed.

Lemma getter_ret {A} (a : A) : getter 0 (mret a).
Proof. intros b Hb. apply wp_ret. by apply drained_refl. Qed.

Lemma getter_bind {A B} k l (m : SE Buffer A) (f : A -> SE Buffer B) : 0 <= k ->
  getter k m -> (forall a, getter l (f a)) -> getter (k + l) (m ≫= f).
Proof.
  intros Hk Hm Hf b Hb. apply wp_bind. eapply wp_mono; [by apply Hm|..]; cbn.
  - intros a b1 H1. eapply wp_mono; [apply Hf; by destruct H1|..]; cbn.
    + intros _ b2 H2. by eapply drained_trans.
    + intros e b2 [-> H2]. split; [done|]. eapply drained_le, drained_trans; [|done|done]. lia.
  - intros e b1 [-> H1]. done.
Qed.

(** A sequence of getters, when only the fact that it drains matters. *)
Lemma getter_seq {A B} k (m : SE Buffer A) (f : A -> SE Buffer B) : 0 <= k ->
  getter k m -> (forall a, getter 0 (f a)) -> getter 0 (m ≫= f).
Proof. intros Hk Hm Hf. eapply (getter_le (k + 0)); [lia|]. by apply getter_bind. Qed.

#[export] Hint Resolve getter_char getter_int getter_int64 getter_string getter_ret : sftp.
