(* ===== verification/SshMatch.v ===== *)
(** * SshMatch: wildcard patterns and name-list negotiation (shiesh/match.cpp)

    C strings are the byte lists before their NUL.  The specification of
    [match_pattern] is the relation [glob]; that of [match_list] is the first
    client name the server also offers, the rule of the SSH key exchange. *)

From S2P Require Import Prelude.

Definition STAR : Z := 42.
Definition QMARK : Z := 63.
Definition COMMA : Z := 44.
Definition BANG : Z := 33.

Module Match.

(** The two [for] loops of the function are the local [scan]s. *)
Fixpoint match_pattern (s pattern : list Z) {struct pattern} : bool :=
  match pattern with
  | [] => match s with [] => true | _ => false end
  | c :: pattern1 =>
    if c =? STAR then
      match pattern1 with
      | [] => true
      | c1 :: pattern2 =>
        if negb (c1 =? QMARK) && negb (c1 =? STAR) then
          (fix scan (s : list Z) : bool :=
             match s with
             | [] => false
             | x :: s1 => if (x =? c1) && match_pattern s1 pattern2 then true else scan s1
             end) s
        else
          (fix scan (s : list Z) : bool :=
             match s with
             | [] => false
             | x :: s1 => if match_pattern s pattern1 then true else scan s1
             end) s
      end
    else
      match s with
      | [] => false
      | x :: s1 => if negb (c =? QMARK) && negb (c =? x) then false
                   else match_pattern s1 pattern1
      end
  end.

Definition isupper (c : Z) : bool := (65 <=? c) && (c <=? 90).
Definition tolower (c : Z) : Z := if isupper c then c + 32 else c.

(** The inner loop: the subpattern copied into [sub] (at most 1023 bytes) and
    the rest of the pattern; [room] is what is left of [sub]. *)
Fixpoint take_sub (room : nat) (dolower : bool) (p : list Z) : list Z * list Z :=
  match room, p with
  | S room, c :: p1 =>
      if c =? COMMA then ([], p)
      else let '(sub, rest) := take_sub room dolower p1 in
           ((if dolower && isupper c then tolower c else c) :: sub, rest)
  | _, _ => ([], p)
  end.

Definition SUB_MAX : nat := 1023.

Fixpoint match_pattern_list_loop (fuel : nat) (string p : list Z) (dolower : bool)
    (got_positive : Z) : res Z :=
  match fuel with
  | O => OutOfFuel
  | S fuel =>
    match p with
    | [] => Ok got_positive
    | c :: p1 =>
      let '(negated, p) := if c =? BANG then (true, p1) else (false, p) in
      let '(sub, p) := take_sub SUB_MAX dolower p in
      if (SUB_MAX <=? length sub)%nat then Ok 0
      else
        let p := match p with c :: p1 => if c =? COMMA then p1 else p | [] => p end in
        if match_pattern string sub then
          if negated then Ok (-1)
          else match_pattern_list_loop fuel string p dolower 1
        else match_pattern_list_loop fuel string p dolower got_positive
    end
  end.

(** [pattern] is the list of its first [len] bytes. *)
Definition match_pattern_list (string pattern : list Z) (dolower : bool) : res Z :=
  match_pattern_list_loop (S (S (length pattern))) string pattern dolower 0.

Definition match_hostname (host pattern : list Z) : res Z :=
  match_pattern_list host pattern true.

(** ** Name lists *)

(** [strsep (&s, ",")] on a non-NULL [s]: the token and what [s] becomes. *)
Fixpoint strsep_comma (s : list Z) : list Z * option (list Z) :=
  match s with
  | [] => ([], None)
  | c :: s1 => if c =? COMMA then ([], Some s1)
               else let '(tok, rest) := strsep_comma s1 in (c :: tok, rest)
  end.

Definition MAX_PROP : nat := 40.

(** The first loop: the server's names up to an empty one, [MAX_PROP] at most. *)
Fixpoint server_proposals (room : nat) (fuel : nat) (sp : option (list Z)) : list (list Z) :=
  match fuel, room, sp with
  | S fuel, S room, Some s =>
      let '(p, sp) := strsep_comma s in
      match p with
      | [] => []
      | _ => p :: server_proposals room fuel sp
      end
  | _, _, _ => []
  end.

(** The second loop; the second component is the value stored in [*next].
    [first] is [strlen (c)] once the first token has been cut off, [pos] the
    offset of [cp] in [c]. *)
Fixpoint client_scan (fuel : nat) (cp : option (list Z)) (pos first : Z)
    (sproposals : list (list Z)) : option (list Z) * Z :=
  match fuel, cp with
  | S fuel, Some s =>
      let '(p, cp) := strsep_comma s in
      let pos := pos + zlen p + 1 in
      match p with
      | [] => (None, first)
      | _ =>
          if existsb (fun q => bool_decide (p = q)) sproposals then
            (Some p, match cp with None => first | Some _ => pos end)
          else client_scan fuel cp pos first sproposals
      end
  | _, _ => (None, first)
  end.

Definition match_list (client server : list Z) : option (list Z) * Z :=
  let sproposals := server_proposals MAX_PROP (S (length server)) (Some server) in
  client_scan (S (length client)) (Some client) 0 (zlen (fst (strsep_comma client))) sproposals.


(** ** Wildcard specification *)

(** [?] stands for one byte, [*] for any run of bytes, possibly empty. *)
Inductive glob : list Z -> list Z -> Prop :=
| glob_nil : glob [] []
| glob_star p s1 s2 : glob p s2 -> glob (STAR :: p) (s1 ++ s2)
| glob_qmark p x s : glob p s -> glob (QMARK :: p) (x :: s)
| glob_char c p s : c <> STAR -> c <> QMARK -> glob p s -> glob (c :: p) (c :: s).

Fixpoint double_star (p : list Z) : bool :=
  match p with
  | [] => false
  | c :: p1 =>
      (c =? STAR) && match p1 with c1 :: _ => c1 =? STAR | [] => false end || double_star p1
  end.

(** The loops of [match_pattern], named. *)
Fixpoint scan_lit (c1 : Z) (pattern2 s : list Z) : bool :=
  match s with
  | [] => false
  | x :: s1 => if (x =? c1) && match_pattern s1 pattern2 then true else scan_lit c1 pattern2 s1
  end.

Fixpoint scan_any (pattern1 s : list Z) : bool :=
  match s with
  | [] => false
  | x :: s1 => if match_pattern s pattern1 then true else scan_any pattern1 s1
  end.

Lemma match_pattern_star s pattern1 :
  match_pattern s (STAR :: pattern1) =
  match pattern1 with
  | [] => true
  | c1 :: pattern2 =>
      if negb (c1 =? QMARK) && negb (c1 =? STAR) then scan_lit c1 pattern2 s
      else scan_any pattern1 s
  end.
Proof.
  destruct pattern1 as [|c1 pattern2]; [done|].
  cbn [match_pattern]. rewrite Z.eqb_refl.
  destruct (negb (c1 =? QMARK) && negb (c1 =? STAR)).
  - induction s as [|x s IH]; [done|]. cbn [scan_lit]. by rewrite <- IH.
  - induction s as [|x s IH]; [done|]. cbn [scan_any]. rewrite <- IH. done.
Qed.

Lemma match_pattern_nonstar s c pattern1 :
  c <> STAR ->
  match_pattern s (c :: pattern1) =
  match s with
  | [] => false
  | x :: s1 => if negb (c =? QMARK) && negb (c =? x) then false else match_pattern s1 pattern1
  end.
Proof. intros Hc. cbn [match_pattern]. by rewrite (proj2 (Z.eqb_neq c STAR)). Qed.

Lemma scan_lit_true c1 p s :
  scan_lit c1 p s = true <-> exists s1 s2, s = s1 ++ c1 :: s2 /\ match_pattern s2 p = true.
Proof.
  induction s as [|x s IH]; cbn [scan_lit].
  - split; [done|]. intros (s1 & s2 & E & _). by destruct s1.
  - destruct ((x =? c1) && match_pattern s p) eqn:E.
    + apply andb_true_iff in E as [E1 E2]. zbool. subst. split; [|done].
      intros _. by exists [], s.
    + rewrite IH. split.
      * intros (s1 & s2 & -> & H). by exists (x :: s1), s2.
      * intros ([|y s1] & s2 & Es & H); simplify_eq/=; [|by exists s1, s2].
        by rewrite Z.eqb_refl, H in E.
Qed.

Lemma scan_any_true p s :
  scan_any p s = true <-> exists s1 s2, s = s1 ++ s2 /\ s2 <> [] /\ match_pattern s2 p = true.
Proof.
  induction s as [|x s IH]; cbn [scan_any].
  - split; [done|]. intros (s1 & s2 & E & Hn & _).
    symmetry in E. by apply app_eq_nil in E as [_ ->].
  - destruct (match_pattern (x :: s) p) eqn:E.
    + split; [|done]. intros _. by exists [], (x :: s).
    + rewrite IH. split.
      * intros (s1 & s2 & -> & H). by exists (x :: s1), s2.
      * intros ([|y s1] & s2 & Es & Hn & H); simplify_eq/=; [congruence|by exists s1, s2].
Qed.

Lemma glob_sound p : forall s, match_pattern s p = true -> glob p s.
Proof.
  induction (well_founded_ltof _ (@length Z) p) as [p _ IH]. unfold ltof in IH.
  intros s H. destruct p as [|c p1]; [destruct s; [constructor|done]|].
  destruct (Z.eq_dec c STAR) as [->|Hc].
  - rewrite match_pattern_star in H. destruct p1 as [|c1 p2].
    { rewrite <- (app_nil_r s). constructor. constructor. }
    destruct (negb (c1 =? QMARK) && negb (c1 =? STAR)) eqn:E; zbool.
    + apply scan_lit_true in H as (s1 & s2 & -> & H).
      constructor. constructor; [done..|]. apply IH; [simpl; lia|done].
    + apply scan_any_true in H as (s1 & s2 & -> & _ & H). constructor.
      apply IH; [simpl; lia|done].
  - rewrite match_pattern_nonstar in H by done. destruct s as [|x s]; [done|].
    destruct (negb (c =? QMARK) && negb (c =? x)) eqn:E; [done|].
    apply andb_false_iff in E.
    destruct (Z.eq_dec c QMARK) as [->|Hq]; [constructor|].
    + apply IH; [simpl; lia|done].
    + destruct E as [E|E]; zbool; [done|subst].
      constructor; [done..|]. apply IH; [simpl; lia|done].
Qed.

Lemma glob_inv_char c p s : c <> STAR -> c <> QMARK -> glob (c :: p) s ->
  exists s1, s = c :: s1 /\ glob p s1.
Proof. intros ? ? H. inversion H; subst; try done. eauto. Qed.

Lemma glob_complete p : forall s, double_star p = false -> glob p s -> match_pattern s p = true.
Proof.
  induction (well_founded_ltof _ (@length Z) p) as [p _ IH]. unfold ltof in IH.
  intros s Hd H. destruct p as [|c p1]; [by inversion H|].
  cbn [double_star] in Hd. apply orb_false_iff in Hd as [Hd0 Hd].
  destruct (Z.eq_dec c STAR) as [->|Hc].
  - rewrite match_pattern_star. rewrite Z.eqb_refl in Hd0. cbn [andb] in Hd0.
    destruct p1 as [|c1 p2]; [done|]. rewrite Hd0.
    inversion H as [|p0 s1 s2 Hg| |]; subst; [|done]. zbool.
    destruct (c1 =? QMARK) eqn:Eq; zbool; cbn [negb andb].
    + subst. inversion Hg as [| |p0 x s0 Hg'|]; subst; [|done]. apply scan_any_true.
      exists s1, (x :: s0). split; [done|]. split; [done|]. apply IH; [simpl; lia|done|].
      by constructor.
    + apply glob_inv_char in Hg as (s0 & -> & Hg); [|done..]. apply scan_lit_true.
      exists s1, s0. split; [done|]. apply IH; [simpl; lia| |done].
      cbn [double_star] in Hd. by apply orb_false_iff in Hd as [_ Hd].
  - rewrite match_pattern_nonstar by done.
    destruct (Z.eq_dec c QMARK) as [->|Hq].
    + inversion H as [| |p0 x s0 Hg'|]; subst; [|done]. apply IH; [simpl; lia|done..].
    + apply glob_inv_char in H as (s0 & -> & Hg); [|done..].
      rewrite Z.eqb_refl, andb_false_r. apply IH; [simpl; lia|done..].
Qed.

(** C30: [match_pattern] against the wildcard specification.  Whatever it
    accepts is a match of [glob]; and for every pattern without two adjacent
    stars it accepts all matches.  (A run of stars at the end of a pattern does
    not match the empty string.) *)
Theorem match_pattern_glob (s p : list Z) :
  (match_pattern s p = true -> glob p s) /\
  (double_star p = false -> glob p s -> match_pattern s p = true) /\
  (match_pattern [] [STAR; STAR] = false /\ glob [STAR; STAR] []).
Proof.
  split; [apply glob_sound|]. split; [apply glob_complete|]. split; [done|].
  apply (glob_star _ [] []), (glob_star _ [] []). constructor.
Qed.

(** ** Comma-separated lists *)

Fixpoint join (ts : list (list Z)) : list Z :=
  match ts with
  | [] => []
  | [t] => t
  | t :: ts => t ++ COMMA :: join ts
  end.

Definition no_comma (t : list Z) : Prop := Forall (fun c => c <> COMMA) t.
Definition name_ok (t : list Z) : Prop := t <> [] /\ no_comma t.

Lemma join_cons t t1 ts : join (t :: t1 :: ts) = t ++ COMMA :: join (t1 :: ts).
Proof. done. Qed.

Lemma strsep_comma_last t : no_comma t -> strsep_comma t = (t, None).
Proof.
  induction 1 as [|c t Hc Ht IH]; [done|]. cbn [strsep_comma].
  rewrite (proj2 (Z.eqb_neq c COMMA)) by done. by rewrite IH.
Qed.

Lemma strsep_comma_more t rest : no_comma t -> strsep_comma (t ++ COMMA :: rest) = (t, Some rest).
Proof.
  induction 1 as [|c t Hc Ht IH]; [done|]. cbn [app strsep_comma].
  rewrite (proj2 (Z.eqb_neq c COMMA)) by done. by rewrite IH.
Qed.

(** [strsep] peels off the first name of a joined list. *)
Lemma strsep_comma_join t ts :
  Forall no_comma (t :: ts) ->
  strsep_comma (join (t :: ts)) = (t, match ts with [] => None | _ => Some (join ts) end).
Proof.
  intros H. apply Forall_cons in H as [Ht Hts]. destruct ts as [|t1 ts].
  - by apply strsep_comma_last.
  - rewrite join_cons. by apply strsep_comma_more.
Qed.

Lemma name_ok_no_comma ts : Forall name_ok ts -> Forall no_comma ts.
Proof. intros H. eapply Forall_impl; [exact H|]. by intros ? []. Qed.

Lemma join_length ts : (length ts <= S (length (join ts)))%nat.
Proof.
  induction ts as [|t [|t1 ts] IH]; [simpl; lia..|].
  rewrite join_cons, length_app. cbn [length] in *. lia.
Qed.

Lemma server_proposals_join room fuel ts :
  Forall name_ok ts -> ts <> [] -> (length ts <= fuel)%nat ->
  server_proposals room fuel (Some (join ts)) = take room ts.
Proof.
  revert room fuel. induction ts as [|t ts IH]; intros room fuel Hok Hn Hf; [done|].
  destruct fuel as [|fuel]; [simpl in Hf; lia|]. destruct room as [|room]; [done|].
  cbn [server_proposals]. rewrite strsep_comma_join by (by apply name_ok_no_comma).
  apply Forall_cons in Hok as [[Ht _] Hok]. destruct t as [|c t]; [done|].
  change (take (S room) ((c :: t) :: ts)) with ((c :: t) :: take room ts). f_equal.
  destruct ts as [|t1 ts]; [by destruct room, fuel|].
  apply IH; [done..|simpl in *; lia].
Qed.

Lemma client_scan_join fuel ts pos first sp :
  Forall name_ok ts -> ts <> [] -> (length ts <= fuel)%nat ->
  fst (client_scan fuel (Some (join ts)) pos first sp) =
  List.find (fun t => existsb (fun q => bool_decide (t = q)) sp) ts.
Proof.
  revert fuel pos. induction ts as [|t ts IH]; intros fuel pos Hok Hn Hf; [done|].
  destruct fuel as [|fuel]; [simpl in Hf; lia|].
  cbn [client_scan List.find]. rewrite strsep_comma_join by (by apply name_ok_no_comma).
  apply Forall_cons in Hok as [[Ht _] Hok]. destruct t as [|c t]; [done|].
  destruct (existsb _ sp); [done|].
  destruct ts as [|t1 ts]; [by destruct fuel|]. apply IH; [done..|simpl in *; lia].
Qed.

Lemma existsb_elem (t : list Z) sp : existsb (fun q => bool_decide (t = q)) sp = true <-> t ∈ sp.
Proof.
  rewrite existsb_exists. split.
  - intros (q & Hq & Hb). apply bool_decide_eq_true in Hb. subst. by apply list_elem_of_In.
  - intros H. exists t. split; [by apply list_elem_of_In|]. by apply bool_decide_eq_true.
Qed.

Lemma find_first (f : list Z -> bool) ts :
  match List.find f ts with
  | Some r => exists pre post, ts = pre ++ r :: post /\ f r = true /\ Forall (fun t => f t = false) pre
  | None => Forall (fun t => f t = false) ts
  end.
Proof.
  induction ts as [|t ts IH]; cbn [List.find]; [constructor|].
  destruct (f t) eqn:E; [by exists [], ts|].
  destruct (List.find f ts) as [r|]; [|by constructor].
  destruct IH as (pre & post & -> & ? & ?). exists (t :: pre), post. by repeat constructor.
Qed.

Lemma match_list_find cs ss :
  Forall name_ok cs -> cs <> [] -> Forall name_ok ss -> ss <> [] ->
  fst (match_list (join cs) (join ss)) =
  List.find (fun t => existsb (fun q => bool_decide (t = q)) (take MAX_PROP ss)) cs.
Proof.
  intros Hc Hcn Hs Hsn. unfold match_list.
  rewrite server_proposals_join by (done || apply join_length).
  apply client_scan_join; [done..|apply join_length].
Qed.

(** Algorithm negotiation.  On comma-separated lists of non-empty names,
    [match_list] returns the first name of the client's list that occurs among
    the server's first MAX_PROP names, and NULL exactly when there is none. *)
Theorem match_list_first (cs ss : list (list Z)) :
  Forall name_ok cs -> cs <> [] -> Forall name_ok ss -> ss <> [] ->
  match fst (match_list (join cs) (join ss)) with
  | Some r => exists pre post, cs = pre ++ r :: post /\ r ∈ take MAX_PROP ss /\
                Forall (fun c => c ∉ take MAX_PROP ss) pre
  | None => Forall (fun c => c ∉ take MAX_PROP ss) cs
  end.
Proof.
  intros Hc Hcn Hs Hsn. rewrite match_list_find by done.
  pose proof (find_first (fun t => existsb (fun q => bool_decide (t = q)) (take MAX_PROP ss)) cs) as H.
  assert (Himp : forall t, existsb (fun q => bool_decide (t = q)) (take MAX_PROP ss) = false ->
                   t ∉ take MAX_PROP ss) by (intros t E Ht%existsb_elem; congruence).
  destruct (List.find _ cs) as [r|].
  - destruct H as (pre & post & -> & Hr & Hp). exists pre, post. split; [done|].
    split; [by apply existsb_elem|]. eapply Forall_impl; [exact Hp|]. apply Himp.
  - eapply Forall_impl; [exact H|]. apply Himp.
Qed.

Lemma match_list_first_witness :
  exists pre post, [[1]; [2; 3]; [4]] = pre ++ [2; 3] :: post /\ [2; 3] ∈ take MAX_PROP [[9]; [4]; [2; 3]] /\
    Forall (fun c => c ∉ take MAX_PROP [[9]; [4]; [2; 3]]) pre.
Proof.
  assert (H1 : Forall name_ok [[1]; [2; 3]; [4]])
    by (repeat constructor; unfold COMMA; congruence).
  assert (H2 : Forall name_ok [[9]; [4]; [2; 3]])
    by (repeat constructor; unfold COMMA; congruence).
  exact (match_list_first [[1]; [2; 3]; [4]] [[9]; [4]; [2; 3]]
           H1 ltac:(congruence) H2 ltac:(congruence)).
Defined.

(** ** Pattern lists *)

(** An entry of a pattern list: is it negated, and its subpattern. *)
Definition entry : Type := bool * list Z.

Definition render (e : entry) : list Z := if fst e then BANG :: snd e else snd e.

Definition entry_ok (e : entry) : Prop :=
  no_comma (snd e) /\ (length (snd e) < SUB_MAX)%nat /\
  (fst e = false -> hd_error (snd e) <> Some BANG).

Definition lower (dolower : bool) (sub : list Z) : list Z :=
  map (fun c => if dolower && isupper c then tolower c else c) sub.

Definition hits (string : list Z) (dolower : bool) (e : entry) : bool :=
  match_pattern string (lower dolower (snd e)).

(** -1 when a negated entry matches, else 1 when some other entry does. *)
Definition verdict (string : list Z) (dolower : bool) (got : Z) (es : list entry) : Z :=
  if existsb (fun e => fst e && hits string dolower e) es then -1
  else if existsb (fun e => negb (fst e) && hits string dolower e) es then 1 else got.

Definition join_entries (es : list entry) : list Z := join (map render es).

Lemma take_sub_spec dolower sub : forall room rest,
  no_comma sub -> (length sub < room)%nat ->
  (rest = [] \/ exists rest', rest = COMMA :: rest') ->
  take_sub room dolower (sub ++ rest) = (lower dolower sub, rest).
Proof.
  induction sub as [|c sub IH]; intros room rest Hn Hl Hr; destruct room as [|room];
    try (simpl in Hl; lia).
  - by destruct Hr as [->|[rest' ->]].
  - apply Forall_cons in Hn as [Hc Hn]. cbn [app take_sub].
    rewrite (proj2 (Z.eqb_neq c COMMA)) by done.
    rewrite IH by (done || simpl in Hl; lia). done.
Qed.

(** What is left behind the first entry once its comma is skipped. *)
Definition skip_comma (p : list Z) : list Z :=
  match p with c :: p1 => if c =? COMMA then p1 else p | [] => p end.

Lemma loop_step fuel string e tail dolower got :
  entry_ok e -> (tail = [] \/ exists t, tail = COMMA :: t) -> render e ++ tail <> [] ->
  match_pattern_list_loop (S fuel) string (render e ++ tail) dolower got =
  if hits string dolower e then
    if fst e then Ok (-1) else match_pattern_list_loop fuel string (skip_comma tail) dolower 1
  else match_pattern_list_loop fuel string (skip_comma tail) dolower got.
Proof.
  intros (Hn & Hl & Hb) Ht Hne. destruct e as [neg sub]; cbn [fst snd] in *.
  unfold render, hits in *. cbn [fst snd] in *.
  assert (Hsub : take_sub SUB_MAX dolower (sub ++ tail) = (lower dolower sub, tail))
    by (by apply take_sub_spec).
  assert (Hlen : (SUB_MAX <=? length (lower dolower sub))%nat = false)
    by (apply Nat.leb_gt; unfold lower; rewrite length_map; lia).
  destruct neg.
  - cbn [app match_pattern_list_loop]. rewrite Z.eqb_refl, Hsub, Hlen. done.
  - destruct (sub ++ tail) as [|c p1] eqn:E; [done|]. cbn [match_pattern_list_loop].
    assert (Hc : (c =? BANG) = false).
    { apply Z.eqb_neq. intros ->. destruct sub as [|c' sub]; simplify_eq/=.
      - destruct Ht as [Ht|[t Ht]]; simplify_eq.
      - by apply Hb. }
    rewrite Hc, Hsub, Hlen. done.
Qed.

Lemma match_pattern_list_loop_spec string dolower es : forall fuel got,
  Forall entry_ok es -> last es <> Some (false, []) -> (length es < fuel)%nat ->
  match_pattern_list_loop fuel string (join_entries es) dolower got =
  Ok (verdict string dolower got es).
Proof.
  induction es as [|e es IH]; intros fuel got Hok Hlast Hf; destruct fuel as [|fuel];
    try (simpl in Hf; lia); [done|].
  apply Forall_cons in Hok as [He Hok]. unfold join_entries. cbn [map].
  assert (Htail : exists tail, join (render e :: map render es) = render e ++ tail /\
            (tail = [] \/ exists t, tail = COMMA :: t) /\ render e ++ tail <> [] /\
            skip_comma tail = join_entries es).
  { destruct es as [|e1 es].
    - exists []. rewrite app_nil_r. split; [done|]. split; [by left|]. split; [|done].
      destruct e as [[] [|c sub]]; try done.
    - exists (COMMA :: join (map render (e1 :: es))). split; [done|].
      split; [by right; eexists|]. split; [by destruct (render e)|]. done. }
  destruct Htail as (tail & -> & Ht & Hne & Hskip).
  rewrite loop_step by done. rewrite Hskip.
  assert (Hlast' : last es <> Some (false, [])) by (destruct es; [done|exact Hlast]).
  rewrite !IH by (done || simpl in Hf; lia).
  unfold verdict. cbn [existsb]. destruct (hits string dolower e), (fst e); cbn [andb orb negb];
    try done; repeat case_match; done.
Qed.

Lemma join_entries_length es : (length es <= S (length (join_entries es)))%nat.
Proof. unfold join_entries. rewrite <- (length_map render es). apply join_length. Qed.

(** The loop over any list ends: every turn takes a byte. *)
Lemma take_sub_rest dolower : forall room p, (length (take_sub room dolower p).2 <= length p)%nat.
Proof.
  induction room as [|room IH]; intros [|c p]; cbn; try lia. destruct (c =? COMMA); cbn; [lia|].
  specialize (IH p). destruct (take_sub room dolower p). cbn in *. lia.
Qed.

Lemma take_sub_skip dolower room c p : (0 < room)%nat ->
  (length (skip_comma (take_sub room dolower (c :: p)).2) <= length p)%nat.
Proof.
  destruct room as [|room]; [lia|]. intros _. cbn. destruct (c =? COMMA) eqn:E; cbn.
  - rewrite E. lia.
  - pose proof (take_sub_rest dolower room p) as H. destruct (take_sub room dolower p) as [sub rest]. cbn in *.
    destruct rest as [|c1 rest]; cbn in *; [lia|]. destruct (c1 =? COMMA); cbn; lia.
Qed.

Lemma skip_comma_le p : (length (skip_comma p) <= length p)%nat.
Proof. destruct p as [|c p]; cbn; [lia|]. destruct (c =? COMMA); cbn; lia. Qed.

Lemma match_pattern_list_total string pattern dolower :
  is_Ok (match_pattern_list string pattern dolower).
Proof.
  unfold match_pattern_list. generalize 0 as got.
  assert (forall fuel p got, (length p < fuel)%nat ->
    is_Ok (match_pattern_list_loop fuel string p dolower got)) as H; [|intros; apply H; lia].
  induction fuel as [|fuel IH]; intros p got Hf; [lia|]. destruct p as [|c p1]; [by eexists|].
  cbn [match_pattern_list_loop]. cbn [length] in Hf.
  assert (forall q, (length q <= length p1)%nat \/ (exists c1, q = c1 :: p1) ->
    (length (skip_comma (take_sub SUB_MAX dolower q).2) <= length p1)%nat) as Hq.
  { intros q [Hl|[c1 ->]]; [|apply take_sub_skip; unfold SUB_MAX; lia].
    pose proof (take_sub_rest dolower SUB_MAX q). pose proof (skip_comma_le (take_sub SUB_MAX dolower q).2). lia. }
  destruct (c =? BANG);
    [specialize (Hq p1 (or_introl (le_n _)))|specialize (Hq (c :: p1) (or_intror (ex_intro _ c eq_refl)))];
    destruct (take_sub SUB_MAX dolower _) as [sub rest]; cbn [snd] in Hq;
    (destruct (_ <=? _)%nat; [by eexists|]);
    (destruct (match_pattern string sub); [try by eexists|]); apply IH; unfold skip_comma in Hq; lia.
Qed.

(** Host lists.  On a list of comma-separated entries, each at most 1022
    bytes long and possibly negated with [!], [match_pattern_list] answers -1
    when some negated entry matches, otherwise 1 when some other entry matches,
    otherwise 0; the loop over the list always terminates. *)
Theorem match_pattern_list_verdict (string : list Z) (es : list entry) (dolower : bool) :
  Forall entry_ok es -> last es <> Some (false, []) ->
  match_pattern_list string (join_entries es) dolower = Ok (verdict string dolower 0 es).
Proof.
  intros Hok Hlast. unfold match_pattern_list.
  apply match_pattern_list_loop_spec; [done..|].
  pose proof (join_entries_length es). lia.
Qed.

Lemma match_pattern_list_verdict_witness :
  match_pattern_list [104; 111; 115; 116]
    (join_entries [(true, [102; 111; 111]); (false, [72; STAR])]) true = Ok 1.
Proof.
  exact (match_pattern_list_verdict [104; 111; 115; 116]
           [(true, [102; 111; 111]); (false, [72; STAR])] true
           ltac:(repeat constructor; cbv; congruence || lia) ltac:(cbn; congruence)).
Defined.

End Match.
