(* ===== verification/SshAddr.v ===== *)
(** * SshAddr: address lists with CIDR networks (shiesh/addrmatch.cpp) and the
    host and user matching of shiesh/match.cpp built on them

    An address is its bytes in network order, the way the union [xa] lays them
    out: [s_addr] is bytes 0..3, [addr32[i]] bytes 4i..4i+3.  [getaddrinfo] of
    the socket library is a parameter; so is the value of a 32-bit shift by 32
    or more, which C leaves undefined. *)

From S2P Require Import Prelude SshBuffer SshMatch.
Import Match.

Module Addr.

Definition AF_INET : Z := 2.
Definition AF_INET6 : Z := 23.

Record xaddr := mkXaddr { af : Z; addr8 : list Z; scope_id : Z }.

(** What [getaddrinfo] returns in [ai_addr], [ai_addrlen]. *)
Record sockaddr := mkSockaddr {
  sa_family : Z; sa_len : Z; sa_addr : list Z; sin6_scope_id : Z }.

Section Model.
Context (shl_undefined : Z -> Z -> Z).

(** [x << n] on [unsigned int] *)
Definition shl32 (x n : Z) : Z :=
  if (0 <=? n) && (n <? 32) then u32 (Z.shiftl x n) else shl_undefined x n.

Definition addr_unicast_masklen (af : Z) : Z :=
  if af =? AF_INET then 32 else if af =? AF_INET6 then 128 else -1.

(** The C functions return 0 for true and -1 for false. *)
Definition masklen_valid (af masklen : Z) : bool :=
  if af =? AF_INET then masklen <=? 32
  else if af =? AF_INET6 then masklen <=? 128 else false.

Definition zeros (n : nat) : list Z := replicate n 0.

Definition addr_sa_to_xaddr (sa : sockaddr) : option xaddr :=
  if sa_family sa =? AF_INET then
    if sa_len sa <? 16 then None
    else Some (mkXaddr AF_INET (take 4 (sa_addr sa) ++ zeros 12) 0)
  else if sa_family sa =? AF_INET6 then
    if sa_len sa <? 28 then None
    else Some (mkXaddr AF_INET6 (take 16 (sa_addr sa)) (sin6_scope_id sa))
  else None.

(** The bits of a partly masked 32-bit word. *)
Definition mask32 (l : Z) : Z := Z.land (shl32 0xffffffff (u32 (32 - l))) 0xffffffff.

(** The loop over [addr32] and the test behind it; [n] words are left. *)
Fixpoint mask_words (n : nat) (l : Z) : list Z :=
  match n with
  | O => []
  | S n => if 32 <=? l then put_u32 0xffffffff ++ mask_words n (l - 32)
           else if negb (l =? 0) then put_u32 (mask32 l) ++ zeros (4 * n)
           else zeros (4 * S n)
  end.

Definition addr_netmask (af l : Z) : option xaddr :=
  if negb (masklen_valid af l) then None
  else if af =? AF_INET then Some (mkXaddr AF_INET (put_u32 (mask32 l) ++ zeros 12) 0)
  else if af =? AF_INET6 then Some (mkXaddr AF_INET6 (mask_words 4 l) 0)
  else None.

(** [&] on every byte of the first list that has a partner. *)
Definition land_bytes (x y : list Z) : list Z := zip_with Z.land x y.

Definition addr_and (a b : xaddr) : option xaddr :=
  if negb (af a =? af b) then None
  else if af a =? AF_INET then
    Some (mkXaddr (af a) (land_bytes (take 4 (addr8 a)) (take 4 (addr8 b)) ++ drop 4 (addr8 a))
            (scope_id a))
  else if af a =? AF_INET6 then
    Some (mkXaddr (af a) (land_bytes (addr8 a) (addr8 b)) (scope_id a))
  else None.

Fixpoint cmp_bytes (a b : list Z) : Z :=
  match a, b with
  | x :: a, y :: b => if negb (x - y =? 0) then (if x >? y then 1 else -1) else cmp_bytes a b
  | _, _ => 0
  end.

Definition addr_cmp (a b : xaddr) : Z :=
  if negb (af a =? af b) then (if af a =? AF_INET6 then 1 else -1)
  else if af a =? AF_INET then
    if bool_decide (take 4 (addr8 a) = take 4 (addr8 b)) then 0
    else if get_u32 (addr8 a) >? get_u32 (addr8 b) then 1 else -1
  else if af a =? AF_INET6 then
    let c := cmp_bytes (addr8 a) (addr8 b) in
    if negb (c =? 0) then c
    else if scope_id a =? scope_id b then 0
    else if scope_id a >? scope_id b then 1 else -1
  else -1.

Section Resolver.
Context (getaddrinfo : list Z -> option sockaddr).

Definition addr_pton (p : list Z) : option xaddr :=
  sa ← getaddrinfo p; addr_sa_to_xaddr sa.

Definition invert_bytes (l : list Z) : list Z := map (fun x => Z.lxor x 255) l.

Definition addr_invert (n : xaddr) : option xaddr :=
  if af n =? AF_INET then
    Some (mkXaddr (af n) (invert_bytes (take 4 (addr8 n)) ++ drop 4 (addr8 n)) (scope_id n))
  else if af n =? AF_INET6 then Some (mkXaddr (af n) (invert_bytes (addr8 n)) (scope_id n))
  else None.

Definition addr_hostmask (af l : Z) : option xaddr := n ← addr_netmask af l; addr_invert n.

(** true is the return value 0 *)
Definition addr_is_all0s (a : xaddr) : bool :=
  if af a =? AF_INET then forallb (fun x => x =? 0) (take 4 (addr8 a))
  else if af a =? AF_INET6 then forallb (fun x => x =? 0) (addr8 a)
  else false.

Definition addr_host_is_all0s (a : xaddr) (masklen : Z) : bool :=
  match addr_hostmask (af a) masklen with
  | None => false
  | Some tmp_mask =>
      match addr_and a tmp_mask with
      | None => false
      | Some tmp_result => addr_is_all0s tmp_result
      end
  end.

(** [strtoul (s, &cp, 10)] of the C library with a 32-bit [unsigned long]: the
    value and the suffix at [cp]. *)
Definition isspace (c : Z) : bool := (c =? 32) || ((9 <=? c) && (c <=? 13)).
Definition isdigit (c : Z) : bool := (48 <=? c) && (c <=? 57).

Fixpoint skip_space (s : list Z) : list Z :=
  match s with c :: s1 => if isspace c then skip_space s1 else s | [] => [] end.

Fixpoint digits (acc : Z) (any : bool) (s : list Z) : option (Z * list Z) :=
  match s with
  | c :: s1 => if isdigit c then digits (acc * 10 + (c - 48)) true s1
               else if any then Some (acc, s) else None
  | [] => if any then Some (acc, []) else None
  end.

Definition strtoul10 (s : list Z) : Z * list Z :=
  let s1 := skip_space s in
  let '(neg, s2) := match s1 with
                    | c :: t => if c =? 45 then (true, t) else if c =? 43 then (false, t) else (false, s1)
                    | [] => (false, s1)
                    end in
  match digits 0 false s2 with
  | None => (0, s)
  | Some (v, rest) =>
      (if v >? 4294967295 then 4294967295 else if (neg : bool) then u32 (- v) else v, rest)
  end.

Inductive cidr_result :=
| CidrBad                               (** -1 *)
| CidrInconsistent                      (** -2 *)
| CidrOk (n : xaddr) (l : Z).           (** 0 *)

Fixpoint cut_slash (s : list Z) : list Z * option (list Z) :=
  match s with
  | [] => ([], None)
  | c :: s1 => if c =? 47 then ([], Some s1)
               else let '(a, r) := cut_slash s1 in (c :: a, r)
  end.

Definition addr_pton_cidr (p : list Z) : cidr_result :=
  if zlen p >? 64 then CidrBad
  else
    let '(addrbuf, mp) := cut_slash (take 63 p) in
    let parsed :=   (* None: return -1 *)
      match mp with
      | None => Some 999
      | Some mp =>
          let '(masklen, cp) := strtoul10 mp in
          if bool_decide (mp = []) || negb (bool_decide (cp = [])) || (masklen >? 128) then None
          else Some masklen
      end in
    match parsed with
    | None => CidrBad
    | Some masklen =>
      match addr_pton addrbuf with
      | None => CidrBad
      | Some tmp =>
          let masklen := match mp with
                         | None => u32 (addr_unicast_masklen (af tmp))
                         | Some _ => masklen end in
          if negb (masklen_valid (af tmp) masklen) then CidrInconsistent
          else if negb (addr_host_is_all0s tmp masklen) then CidrInconsistent
          else CidrOk tmp masklen
      end
    end.

Definition addr_netmatch (host net : xaddr) (masklen : Z) : Z :=
  if negb (af host =? af net) then -1
  else match addr_netmask (af host) masklen with
       | None => -1
       | Some tmp_mask =>
           match addr_and host tmp_mask with
           | None => -1
           | Some tmp_result => addr_cmp tmp_result net
           end
       end.

(** The loop over the list; [addr] is the text and the parsed address, or NULL. *)
Fixpoint match_list_loop (fuel : nat) (addr : option (list Z * xaddr)) (list_ : option (list Z))
    (ret : Z) : res Z :=
  match list_ with
  | None => Ok ret
  | Some l =>
    match fuel with
    | O => OutOfFuel
    | S fuel =>
      let '(cp, list_) := strsep_comma l in
      let '(neg, cp) := match cp with
                        | c :: cp1 => if c =? BANG then (true, cp1) else (false, cp)
                        | [] => (false, cp)
                        end in
      let foundit := if neg then Ok (-1) else match_list_loop fuel addr list_ 1 in
      match cp with
      | [] => Ok (-2)
      | _ =>
        match addr_pton_cidr cp with
        | CidrInconsistent => Ok (-2)
        | CidrOk match_addr masklen =>
            match addr with
            | Some (_, try_addr) =>
                if addr_netmatch try_addr match_addr masklen =? 0 then foundit
                else match_list_loop fuel addr list_ ret
            | None => match_list_loop fuel addr list_ ret
            end
        | CidrBad =>
            match addr with
            | Some (text, _) =>
                if match_pattern text cp then foundit
                else match_list_loop fuel addr list_ ret
            | None => match_list_loop fuel addr list_ ret
            end
        end
      end
    end
  end.

Definition addr_match_list (addr : option (list Z)) (_list : list Z) : res Z :=
  match addr with
  | None => match_list_loop (S (length _list)) None (Some _list) 0
  | Some text =>
      match addr_pton text with
      | None => Ok 0
      | Some try_addr =>
          match_list_loop (S (length _list)) (Some (text, try_addr)) (Some _list) 0
      end
  end.

(** ** Hosts and users (match.cpp) *)

Definition match_host_and_ip (host ipaddr patterns : list Z) : res Z :=
  mip ← addr_match_list (Some ipaddr) patterns;
  if mip =? -2 then Ok (-1)
  else if mip =? -1 then Ok 0
  else
    mhost ← match_hostname host patterns;
    if mhost =? -1 then Ok 0
    else if (mhost =? 0) && (mip =? 0) then Ok 0
    else Ok 1.

(** [strchr (pattern, '@')]: the parts before and behind the first [@]. *)
Fixpoint split_at (p : list Z) : option (list Z * list Z) :=
  match p with
  | [] => None
  | c :: p => if c =? 64 then Some ([], p)
              else '(a, b) ← split_at p; Some (c :: a, b)
  end.

Definition match_user (user host ipaddr pattern : list Z) : res Z :=
  match split_at pattern with
  | None => Ok (c_bool (match_pattern user pattern))
  | Some (pat, p) =>
      if match_pattern user pat then match_host_and_ip host ipaddr p
      else Ok 0
  end.

End Resolver.

(** ** Bits of an address *)

(** Bit [i], counted from the most significant one. *)
Definition abit (l : list Z) (i : nat) : bool :=
  Z.testbit (nth (i / 8) l 0) (Z.of_nat (7 - i mod 8)).

Lemma land_bytes_nth a b k :
  length a = length b -> nth k (land_bytes a b) 0 = Z.land (nth k a 0) (nth k b 0).
Proof.
  revert b k. induction a as [|x a IH]; intros [|y b] k Hl; try discriminate.
  - by destruct k.
  - destruct k; [done|]. simpl. apply IH. simpl in Hl. lia.
Qed.

Lemma land_bytes_abit a b i :
  length a = length b -> abit (land_bytes a b) i = abit a i && abit b i.
Proof. intros. unfold abit. by rewrite land_bytes_nth, Z.land_spec. Qed.

Lemma byte_eq_bits x y :
  is_u8 x -> is_u8 y -> (forall k, (k < 8)%nat -> Z.testbit x (Z.of_nat k) = Z.testbit y (Z.of_nat k)) ->
  x = y.
Proof.
  unfold is_u8. intros Hx Hy H. apply Z.bits_inj'. intros n Hn.
  destruct (Z.lt_ge_cases n 8).
  - specialize (H (Z.to_nat n) ltac:(lia)). by rewrite Z2Nat.id in H by lia.
  - rewrite <- (Z.mod_small x (2 ^ 8)), <- (Z.mod_small y (2 ^ 8)) by lia.
    by rewrite !Z.mod_pow2_bits_high by lia.
Qed.

Lemma nth_u8 l k : bytes_ok l -> is_u8 (nth k l 0).
Proof.
  intros H. destruct (Nat.lt_ge_cases k (length l)) as [Hk|Hk].
  - eapply Forall_forall; [exact H|]. apply list_elem_of_In, nth_In. lia.
  - rewrite nth_overflow by lia. unfold is_u8. lia.
Qed.

Lemma bytes_eq_abits a b :
  bytes_ok a -> bytes_ok b -> length a = length b ->
  a = b <-> forall i, (i < 8 * length a)%nat -> abit a i = abit b i.
Proof.
  intros Ha Hb Hl. split; [by intros ->|]. intros H.
  apply (nth_ext a b 0 0 Hl). intros n Hn.
  apply byte_eq_bits; [by apply nth_u8..|]. intros k Hk.
  specialize (H (8 * n + (7 - k))%nat ltac:(lia)). unfold abit in H.
  replace ((8 * n + (7 - k)) / 8)%nat with n in H
    by (rewrite Nat.mul_comm, Nat.div_add_l, Nat.div_small by lia; lia).
  replace ((8 * n + (7 - k)) mod 8)%nat with (7 - k)%nat in H
    by (rewrite Nat.add_comm, Nat.mul_comm, Nat.Div0.mod_add, Nat.mod_small; lia).
  by replace (7 - (7 - k))%nat with k in H by lia.
Qed.

(** The masks the code builds, checked bit by bit for every length. *)
Lemma mask32_bits l i :
  1 <= l <= 32 -> (i < 32)%nat -> abit (put_u32 (mask32 l)) i = (Z.of_nat i <? l).
Proof.
  intros Hl Hi.
  assert (H : forallb (fun l => forallb (fun i =>
     Bool.eqb (abit (put_u32 (mask32 (Z.of_nat l))) i) (Z.of_nat i <? Z.of_nat l))
     (seq 0 32)) (seq 1 32) = true) by (vm_compute; reflexivity).
  rewrite forallb_forall in H. specialize (H (Z.to_nat l) ltac:(apply in_seq; lia)).
  rewrite forallb_forall in H. specialize (H i ltac:(apply in_seq; lia)).
  rewrite Z2Nat.id in H by lia. by apply eqb_prop in H.
Qed.

Lemma mask_words_bits l i :
  0 <= l <= 128 -> (i < 128)%nat -> abit (mask_words 4 l) i = (Z.of_nat i <? l).
Proof.
  intros Hl Hi.
  assert (H : forallb (fun l => forallb (fun i =>
     Bool.eqb (abit (mask_words 4 (Z.of_nat l)) i) (Z.of_nat i <? Z.of_nat l))
     (seq 0 128)) (seq 0 129) = true) by (vm_compute; reflexivity).
  rewrite forallb_forall in H. specialize (H (Z.to_nat l) ltac:(apply in_seq; lia)).
  rewrite forallb_forall in H. specialize (H i ltac:(apply in_seq; lia)).
  rewrite Z2Nat.id in H by lia. by apply eqb_prop in H.
Qed.

Lemma zeros_ok n : bytes_ok (zeros n).
Proof. apply Forall_replicate. unfold is_u8. lia. Qed.

Lemma mask_words_ok n l : bytes_ok (mask_words n l) /\ length (mask_words n l) = (4 * n)%nat.
Proof.
  revert l. induction n as [|n IH]; intros l; [by repeat constructor|]. cbn [mask_words].
  destruct (IH (l - 32)) as [IH1 IH2]. repeat zcase.
  - split; [apply Forall_app_2; [apply put_u32_ok|done]|]. rewrite length_app, IH2. simpl. lia.
  - split; [apply Forall_app_2; [apply put_u32_ok|apply zeros_ok]|].
    rewrite length_app. unfold zeros. rewrite length_replicate. simpl. lia.
  - split; [apply zeros_ok|]. unfold zeros. by rewrite length_replicate.
Qed.

Record addr_ok (x : xaddr) : Prop := {
  ao_af : af x = AF_INET \/ af x = AF_INET6;
  ao_len : length (addr8 x) = 16%nat;
  ao_bytes : bytes_ok (addr8 x)
}.

Lemma cmp_bytes_0 a b : length a = length b -> cmp_bytes a b = 0 <-> a = b.
Proof.
  revert b. induction a as [|x a IH]; intros [|y b] Hl; try discriminate; [done|].
  cbn [cmp_bytes]. zcase; zbool.
  - split; [|intros; simplify_eq; lia]. zcase; lia.
  - rewrite IH by (simpl in Hl; lia). split; [|by intros; simplify_eq].
    intros ->. f_equal. lia.
Qed.

Lemma land_bytes_ok a b : bytes_ok a -> bytes_ok b -> bytes_ok (land_bytes a b).
Proof.
  intros Ha. revert b. induction Ha as [|x a Hx Ha IH]; intros b Hb; [constructor|].
  destruct Hb as [|y b Hy Hb]; [constructor|]. constructor; [|by apply IH].
  unfold is_u8 in *. split; [apply Z.land_nonneg; lia|].
  destruct (Z.eq_dec (Z.land x y) 0) as [->|Hn]; [lia|].
  assert (0 <= Z.land x y) by (apply Z.land_nonneg; lia).
  apply (Z.log2_lt_cancel _ 256). change (Z.log2 256) with 8.
  pose proof (Z.log2_land x y ltac:(lia) ltac:(lia)).
  pose proof (Z.log2_le_mono x 255 ltac:(lia)). change (Z.log2 255) with 7 in *. lia.
Qed.

Lemma land_bytes_length a b : length a = length b -> length (land_bytes a b) = length a.
Proof. intros. unfold land_bytes. rewrite length_zip_with. lia. Qed.

Lemma abit_take n l i : (i < 8 * n)%nat -> abit (take n l) i = abit l i.
Proof.
  intros H. unfold abit. f_equal. rewrite <- (take_drop n l) at 2.
  destruct (Nat.lt_ge_cases (i / 8) (length (take n l))) as [Hl|Hl].
  - by rewrite app_nth1.
  - rewrite (nth_overflow (take n l)) by lia. rewrite app_nth2 by lia.
    rewrite length_take in *. assert (i / 8 < n)%nat by (apply Nat.Div0.div_lt_upper_bound; lia).
    rewrite nth_overflow; [done|]. rewrite length_drop. lia.
Qed.

(** CIDR matching.  For addresses of one family and a mask length the
    family allows (at least 1 for IPv4), [addr_netmatch] reports a match exactly
    when the network is the host address with every bit beyond the first
    [masklen] cleared; for IPv6 the scope must agree too. *)
Theorem netmatch_prefix host net l :
  addr_ok host -> addr_ok net -> af host = af net ->
  1 <= l <= addr_unicast_masklen (af host) ->
  addr_netmatch host net l = 0 <->
  (af host = AF_INET6 -> scope_id host = scope_id net) /\
  forall i, (i < Z.to_nat (addr_unicast_masklen (af host)))%nat ->
    abit (addr8 net) i = abit (addr8 host) i && (Z.of_nat i <? l).
Proof.
  intros [Haf Hhl Hhb] [_ Hnl Hnb] Hf Hl. unfold addr_netmatch, addr_netmask, masklen_valid.
  rewrite <- Hf, Z.eqb_refl. cbn [negb].
  destruct Haf as [Haf|Haf]; rewrite Haf in *.
  - change (addr_unicast_masklen AF_INET) with 32 in *. rewrite Z.eqb_refl.
    replace (l <=? 32) with true by lia. cbn [negb].
    unfold addr_and. rewrite Haf. cbn [af negb]. rewrite Z.eqb_refl. cbn [negb].
    unfold addr_cmp. cbn [af addr8]. rewrite <- Hf, Z.eqb_refl. cbn [negb].
    change (take 4 (put_u32 (mask32 l) ++ zeros 12)) with (put_u32 (mask32 l)).
    set (r := land_bytes _ _).
    assert (Hrl : length r = 4%nat)
      by (unfold r; rewrite land_bytes_length; rewrite length_take, Hhl; done).
    rewrite take_app_le, take_ge by lia.
    assert (Hr : r = take 4 (addr8 net) <->
      forall i, (i < 32)%nat -> abit (addr8 net) i = abit (addr8 host) i && (Z.of_nat i <? l)).
    { rewrite bytes_eq_abits; [|apply land_bytes_ok; [by apply Forall_take|apply put_u32_ok]
        |by apply Forall_take|rewrite Hrl, length_take; lia].
      rewrite Hrl. split; intros H i Hi; specialize (H i Hi).
      - rewrite abit_take in H by lia. rewrite <- H. unfold r.
        rewrite land_bytes_abit by (rewrite length_take, Hhl; done).
        rewrite abit_take, mask32_bits by lia. done.
      - rewrite abit_take, H by lia. unfold r.
        rewrite land_bytes_abit by (rewrite length_take, Hhl; done).
        rewrite abit_take, mask32_bits by lia. done. }
    change (Z.to_nat 32) with 32%nat. rewrite <- Hr.
    case_bool_decide; [by split|]. zcase; split; (lia || tauto).
  - change (addr_unicast_masklen AF_INET6) with 128 in *.
    change (AF_INET6 =? AF_INET) with false. rewrite Z.eqb_refl.
    replace (l <=? 128) with true by lia. cbn [negb].
    unfold addr_and. rewrite Haf. cbn [af negb]. rewrite Z.eqb_refl. cbn [negb].
    unfold addr_cmp. cbn [af addr8 scope_id]. change (AF_INET6 =? AF_INET) with false.
    rewrite <- Hf, Z.eqb_refl. cbn [negb].
    destruct (mask_words_ok 4 l) as [Hmb Hml].
    set (r := land_bytes _ _).
    assert (Hrl : length r = 16%nat) by (unfold r; rewrite land_bytes_length; lia).
    assert (Hr : r = addr8 net <->
      forall i, (i < 128)%nat -> abit (addr8 net) i = abit (addr8 host) i && (Z.of_nat i <? l)).
    { rewrite bytes_eq_abits; [|by apply land_bytes_ok|done|lia].
      rewrite Hrl. split; intros H i Hi; specialize (H i Hi); unfold r in *;
        rewrite land_bytes_abit, mask_words_bits in * by lia; congruence. }
    pose proof (cmp_bytes_0 r (addr8 net) ltac:(lia)) as Hc.
    change (Z.to_nat 128) with 128%nat. rewrite <- Hr, <- Hc.
    cbn [af addr8 scope_id]. change (AF_INET6 =? AF_INET) with false. cbv iota.
    destruct (cmp_bytes r (addr8 net) =? 0) eqn:Ec; zbool; cbn [negb]; [|tauto].
    destruct (scope_id host =? scope_id net) eqn:Es; zbool; [tauto|].
    zcase; (split; [lia|]); intros [Hs _]; exfalso; apply Es, Hs; done.
Qed.

End Model.

Lemma netmatch_prefix_witness :
  addr_netmatch (fun _ _ => 0) (mkXaddr AF_INET ([192; 168; 7; 9] ++ zeros 12) 0)
    (mkXaddr AF_INET ([192; 168; 0; 0] ++ zeros 12) 0) 16 = 0.
Proof.
  apply (netmatch_prefix (fun _ _ => 0) (mkXaddr AF_INET ([192; 168; 7; 9] ++ zeros 12) 0)
    (mkXaddr AF_INET ([192; 168; 0; 0] ++ zeros 12) 0) 16).
  - constructor; [by left|done|]. repeat constructor; unfold is_u8; lia.
  - constructor; [by left|done|]. repeat constructor; unfold is_u8; lia.
  - reflexivity.
  - cbn. lia.
  - split; [discriminate|]. intros i Hi.
    do 32 (destruct i as [|i]; [reflexivity|]). cbn in Hi. lia.
Defined.

End Addr.
