(* ===== verification/SshCipher.v ===== *)
(** * SshCipher: the cipher table of shiesh/cipher.cpp and the MAC table of
    shiesh/mac.cpp

    The algorithms themselves belong to OpenSSL, or to other files of the program
    (umac.cpp, cipher-ctr.cpp): the class [Crypto] names what the code calls, and
    [CryptoLaws] states the documented behaviour the packet layer relies on.
    [SshAlgorithms] puts the program's own algorithms in their place. *)

From S2P Require Import Prelude SshBuffer SshMatch.

Inductive evp_type :=
| EVP_enc_null | EVP_des_ede3_cbc | EVP_bf_cbc | EVP_cast5_cbc | EVP_rc4
| EVP_aes_128_cbc | EVP_aes_192_cbc | EVP_aes_256_cbc | evp_aes_128_ctr.

Inductive evp_md := EVP_sha1 | EVP_md5 | EVP_ripemd160 | evp_ssh_sha256.

#[global] Instance evp_type_eq_dec : EqDecision evp_type.
Proof. solve_decision. Defined.

Class Crypto := {
  (** [EVP_CIPHER_CTX] *)
  evp_ctx : Type;
  (** [EVP_CIPHER_CTX_init] and the calls of [EVP_CipherInit] with the type, the
      IV, the key length and the key; [None] when one of them returns 0. *)
  EVP_CipherInit : evp_type -> list Z -> option (list Z) -> bool -> option evp_ctx;
  (** [None] when it returns 0. *)
  EVP_Cipher : evp_ctx -> list Z -> option (list Z * evp_ctx);
  EVP_MD_size : evp_md -> Z;
  (** [HMAC_Init (md, key)], [HMAC_Update (data)], [HMAC_Final] *)
  HMAC : evp_md -> list Z -> list Z -> list Z;
  umac_ctx : Type;
  umac_new : list Z -> umac_ctx;
  (** [umac_update (data)], [umac_final (nonce)] *)
  umac : umac_ctx -> list Z -> list Z -> list Z * umac_ctx
}.

(** What the packet layer relies on.  [in_sync e d]: an encryption and a
    decryption context at the same position of the same key stream;
    [evp_block] is [EVP_CIPHER_CTX_block_size] (1 for a stream cipher).  On
    whole blocks [EVP_Cipher] succeeds, decryption undoes encryption, and a
    context remembers where it stopped, so that data may be processed in several
    calls; it writes as many bytes as it reads; digests have their size. *)
Class CryptoLaws `{Crypto} := {
  in_sync : evp_ctx -> evp_ctx -> Prop;
  evp_block : evp_ctx -> Z;
  sync_block : forall e d, in_sync e d -> evp_block e = evp_block d;
  cipher_block : forall x p c x', EVP_Cipher x p = Some (c, x') -> evp_block x' = evp_block x;
  cipher_length : forall x p c x', EVP_Cipher x p = Some (c, x') -> length c = length p;
  cipher_total : forall e d p,
    in_sync e d -> (evp_block e | zlen p) -> exists c e', EVP_Cipher e p = Some (c, e');
  decrypt_encrypt : forall e d p c e',
    in_sync e d -> (evp_block e | zlen p) -> EVP_Cipher e p = Some (c, e') ->
    exists d', EVP_Cipher d c = Some (p, d') /\ in_sync e' d';
  cipher_chunks : forall x p q out x',
    (evp_block x | zlen p) -> (evp_block x | zlen q) -> EVP_Cipher x (p ++ q) = Some (out, x') ->
    exists o1 x1 o2, EVP_Cipher x p = Some (o1, x1) /\ EVP_Cipher x1 q = Some (o2, x') /\
      out = o1 ++ o2;
  hmac_length : forall md key data, zlen (HMAC md key data) = EVP_MD_size md;
  umac_length : forall ctx data nonce, zlen (fst (umac ctx data nonce)) = 8
}.

(** ** Ciphers *)

Definition SSH_CIPHER_SSH2 : Z := -3.
Definition SSH_CIPHER_INVALID : Z := -2.
Definition SSH_CIPHER_NONE : Z := 0.
Definition SSH_CIPHER_DES : Z := 2.
Definition SSH_CIPHER_3DES : Z := 3.

Record Cipher := mkCipher {
  c_name : list Z;
  c_number : Z;
  c_block_size : Z;
  c_key_len : Z;
  c_discard_len : Z;
  c_evptype : evp_type
}.

Definition ciphers : list Cipher :=
  [ mkCipher (str "none") SSH_CIPHER_NONE 8 0 0 EVP_enc_null;
    mkCipher (str "3des-cbc") SSH_CIPHER_SSH2 8 24 0 EVP_des_ede3_cbc;
    mkCipher (str "blowfish-cbc") SSH_CIPHER_SSH2 8 16 0 EVP_bf_cbc;
    mkCipher (str "cast128-cbc") SSH_CIPHER_SSH2 8 16 0 EVP_cast5_cbc;
    mkCipher (str "arcfour") SSH_CIPHER_SSH2 8 16 0 EVP_rc4;
    mkCipher (str "arcfour128") SSH_CIPHER_SSH2 8 16 1536 EVP_rc4;
    mkCipher (str "arcfour256") SSH_CIPHER_SSH2 8 32 1536 EVP_rc4;
    mkCipher (str "aes128-cbc") SSH_CIPHER_SSH2 16 16 0 EVP_aes_128_cbc;
    mkCipher (str "aes192-cbc") SSH_CIPHER_SSH2 16 24 0 EVP_aes_192_cbc;
    mkCipher (str "aes256-cbc") SSH_CIPHER_SSH2 16 32 0 EVP_aes_256_cbc;
    mkCipher (str "rijndael-cbc@lysator.liu.se") SSH_CIPHER_SSH2 16 32 0 EVP_aes_256_cbc;
    mkCipher (str "aes128-ctr") SSH_CIPHER_SSH2 16 16 0 evp_aes_128_ctr;
    mkCipher (str "aes192-ctr") SSH_CIPHER_SSH2 16 24 0 evp_aes_128_ctr;
    mkCipher (str "aes256-ctr") SSH_CIPHER_SSH2 16 32 0 evp_aes_128_ctr ].

Definition cipher_blocksize (c : Cipher) : Z := c_block_size c.
Definition cipher_keylen (c : Cipher) : Z := c_key_len c.
Definition cipher_get_number (c : Cipher) : Z := u32 (c_number c).

Definition cipher_by_name (name : list Z) : option Cipher :=
  List.find (fun c => bool_decide (c_name c = name)) ciphers.

Definition cipher_by_number (id : Z) : option Cipher :=
  List.find (fun c => c_number c =? id) ciphers.

(** The [strsep] loop of [ciphers_valid] and [mac_valid]: it stops at the end
    or at an empty name; [ok] is the test of one name. *)
Fixpoint names_valid (ok : list Z -> bool) (fuel : nat) (cp : option (list Z)) : res bool :=
  match cp with
  | None => Ok true
  | Some s =>
    match fuel with
    | O => OutOfFuel
    | S fuel =>
      let '(p, cp) := Match.strsep_comma s in
      match p with
      | [] => Ok true
      | _ => if ok p then names_valid ok fuel cp else Ok false
      end
    end
  end.

Definition ciphers_valid (names : option (list Z)) : res bool :=
  match names with
  | None | Some [] => Ok false
  | Some names =>
      names_valid (fun p => match cipher_by_name p with
                            | None => false
                            | Some c => c_number c =? SSH_CIPHER_SSH2
                            end) (S (length names)) (Some names)
  end.

(** [strcasecmp] equality *)
Definition eq_nocase (a b : list Z) : bool :=
  bool_decide (map Match.tolower a = map Match.tolower b).

Definition cipher_number (name : option (list Z)) : Z :=
  match name with
  | None => -1
  | Some name =>
      match List.find (fun c => eq_nocase (c_name c) name) ciphers with
      | Some c => c_number c
      | None => -1
      end
  end.

Definition cipher_name (id : Z) : list Z :=
  match cipher_by_number id with None => str "<unknown>" | Some c => c_name c end.

Section WithCrypto.
Context `{Crypto}.

Record CipherContext := mkCC {
  plaintext : bool;
  evp : evp_ctx;
  cc_cipher : Cipher
}.

(** [(key, keylen)] is a byte list; [iv] is NULL or the list of [ivlen] bytes.
    The bytes fed through the cipher to discard key stream are uninitialised
    memory, zero bytes here. *)
Definition cipher_init (cipher : Cipher) (key : list Z) (iv : option (list Z))
    (do_encrypt : bool) : res CipherContext :=
  let keylen := if c_number cipher =? SSH_CIPHER_DES
                then Z.min (zlen key) 8 else zlen key in
  if keylen <? c_key_len cipher then Fatal "cipher_init: key length is insufficient"
  else if match iv with Some iv => zlen iv <? c_block_size cipher | None => false end
  then Fatal "cipher_init: iv length is insufficient"
  else
    ctx ← or_fatal "cipher_init: EVP_CipherInit failed"
            (EVP_CipherInit (c_evptype cipher) (take (Z.to_nat keylen) key) iv do_encrypt);
    let cc := mkCC (c_number cipher =? SSH_CIPHER_NONE) ctx cipher in
    if c_discard_len cipher >? 0 then
      '(_, ctx) ← or_fatal "evp_crypt: EVP_Cipher failed during discard"
                    (EVP_Cipher ctx (replicate (Z.to_nat (c_discard_len cipher)) 0));
      Ok (mkCC (plaintext cc) ctx cipher)
    else Ok cc.

Definition cipher_crypt (cc : CipherContext) (src : list Z) : res (list Z * CipherContext) :=
  if negb (zlen src mod c_block_size (cc_cipher cc) =? 0) then
    Fatal "cipher_encrypt: bad plaintext length"
  else
    '(dest, ctx) ← or_fatal "evp_crypt: EVP_Cipher failed" (EVP_Cipher (evp cc) src);
    Ok (dest, mkCC (plaintext cc) ctx (cc_cipher cc)).

(** ** Message authentication *)

Definition SSH_EVP : Z := 1.
Definition SSH_UMAC : Z := 2.

Record mac_entry := mkMacEntry {
  me_name : list Z;
  me_type : Z;
  me_mdfunc : option evp_md;
  me_truncatebits : Z;
  me_key_len : Z;
  me_len : Z
}.

Definition macs : list mac_entry :=
  [ mkMacEntry (str "hmac-sha1") SSH_EVP (Some EVP_sha1) 0 (-1) (-1);
    mkMacEntry (str "hmac-sha1-96") SSH_EVP (Some EVP_sha1) 96 (-1) (-1);
    mkMacEntry (str "hmac-md5") SSH_EVP (Some EVP_md5) 0 (-1) (-1);
    mkMacEntry (str "hmac-md5-96") SSH_EVP (Some EVP_md5) 96 (-1) (-1);
    mkMacEntry (str "hmac-ripemd160") SSH_EVP (Some EVP_ripemd160) 0 (-1) (-1);
    mkMacEntry (str "hmac-ripemd160@openssh.com") SSH_EVP (Some EVP_ripemd160) 0 (-1) (-1);
    mkMacEntry (str "umac-64@openssh.com") SSH_UMAC None 0 128 64 ].

Record Mac := mkMac {
  mac_name : list Z;
  mac_enabled : bool;
  mac_len : Z;
  mac_key : option (list Z);
  mac_key_len : Z;
  mac_type : Z;
  mac_evp_md : option evp_md;
  (** [HMAC_CTX]: the digest and key it was initialised with *)
  mac_evp_ctx : option (evp_md * list Z);
  mac_umac_ctx : option umac_ctx
}.

Definition mac_setup_by_id (mac : Mac) (e : mac_entry) : res Mac :=
  m ← (if me_type e =? SSH_EVP then
         match me_mdfunc e with
         | None => Fatal "mac: no digest"
         | Some md =>
             if EVP_MD_size md <=? 0 then Fatal "mac len"
             else Ok (mkMac (mac_name mac) (mac_enabled mac) (EVP_MD_size md) (mac_key mac)
                        (EVP_MD_size md) (me_type e) (Some md) (mac_evp_ctx mac)
                        (mac_umac_ctx mac))
         end
       else Ok (mkMac (mac_name mac) (mac_enabled mac) (me_len e / 8) (mac_key mac)
                  (me_key_len e / 8) (me_type e) (mac_evp_md mac) (mac_evp_ctx mac) None));
  if negb (me_truncatebits e =? 0) then
    Ok (mkMac (mac_name m) (mac_enabled m) (me_truncatebits e / 8) (mac_key m) (mac_key_len m)
          (mac_type m) (mac_evp_md m) (mac_evp_ctx m) (mac_umac_ctx m))
  else Ok m.

(** [None] is the return value -1. *)
Definition mac_setup (mac : Mac) (name : list Z) : res (option Mac) :=
  match List.find (fun e => bool_decide (name = me_name e)) macs with
  | Some e => m ← mac_setup_by_id mac e; Ok (Some m)
  | None => Ok None
  end.

(** The boolean says whether the code returned 0. *)
Definition mac_init (mac : Mac) : res (bool * Mac) :=
  match mac_key mac with
  | None => Fatal "mac_init: no key"
  | Some key =>
    if mac_type mac =? SSH_EVP then
      match mac_evp_md mac with
      | None => Ok (false, mac)
      | Some md =>
          Ok (true, mkMac (mac_name mac) (mac_enabled mac) (mac_len mac) (mac_key mac)
                      (mac_key_len mac) (mac_type mac) (mac_evp_md mac)
                      (Some (md, take (Z.to_nat (mac_key_len mac)) key)) (mac_umac_ctx mac))
      end
    else if mac_type mac =? SSH_UMAC then
      Ok (true, mkMac (mac_name mac) (mac_enabled mac) (mac_len mac) (mac_key mac)
                  (mac_key_len mac) (mac_type mac) (mac_evp_md mac) (mac_evp_ctx mac)
                  (Some (umac_new key)))
    else Ok (false, mac)
  end.

Definition EVP_MAX_MD_SIZE : Z := 64.

(** The bytes left at [m], and the MAC with its context advanced. *)
Definition mac_compute (mac : Mac) (seqno : Z) (data : list Z) (m_size : Z) :
    res (list Z * Mac) :=
  if mac_len mac >? m_size then Fatal "mac_compute: mac too long"
  else if mac_type mac =? SSH_EVP then
    match mac_evp_ctx mac with
    | None => Fatal "HMAC context not initialised"
    | Some (md, key) => Ok (HMAC md key (put_u32 seqno ++ data), mac)
    end
  else if mac_type mac =? SSH_UMAC then
    match mac_umac_ctx mac with
    | None => Fatal "UMAC context not initialised"
    | Some ctx =>
        let '(m, ctx) := umac ctx data (put_u64 seqno) in
        Ok (m, mkMac (mac_name mac) (mac_enabled mac) (mac_len mac) (mac_key mac)
                 (mac_key_len mac) (mac_type mac) (mac_evp_md mac) (mac_evp_ctx mac) (Some ctx))
    end
  else Fatal "mac_compute: unknown MAC type".

Definition mac_clear (mac : Mac) : Mac :=
  mkMac (mac_name mac) (mac_enabled mac) (mac_len mac) (mac_key mac) (mac_key_len mac)
    (mac_type mac) None
    (if mac_type mac =? SSH_UMAC then mac_evp_ctx mac
     else match mac_evp_md mac with Some _ => None | None => mac_evp_ctx mac end)
    None.

Definition mac_valid (names : option (list Z)) : res bool :=
  match names with
  | None | Some [] => Ok false
  | Some names =>
      names_valid (fun p => existsb (fun e => bool_decide (p = me_name e)) macs)
        (S (length names)) (Some names)
  end.

End WithCrypto.
