(* ===== verification/SshPacket.v ===== *)
(** * SshPacket: the binary packet protocol (shiesh/CoreConnection.cpp)

    The state of a connection's packet layer is [conn]; what the code keeps
    once per direction ([newkeys[mode]], [send_context]/[receive_context],
    [p_send]/[p_read], [max_blocks_out]/[max_blocks_in]) is a [dirst].
    [packet_disconnect] does not return: it is [Fatal], and what it still
    writes to the socket is not part of the model.  zlib's [deflate] and
    [inflate] and the random generator are parameters. *)

From S2P Require Import Prelude SshBuffer SshMatch SshCipher.

(** ** Constants (ssh2.h, compat.h, kex.h) *)

Definition SSH_MSG_NONE : Z := 0.
Definition SSH2_MSG_TRANSPORT_MIN : Z := 1.
Definition SSH2_MSG_TRANSPORT_MAX : Z := 49.
Definition SSH2_MSG_LOCAL_MIN : Z := 192.
Definition SSH2_MSG_MIN : Z := 1.
Definition SSH2_MSG_DISCONNECT : Z := 1.
Definition SSH2_MSG_IGNORE : Z := 2.
Definition SSH2_MSG_UNIMPLEMENTED : Z := 3.
Definition SSH2_MSG_DEBUG : Z := 4.
Definition SSH2_MSG_KEXINIT : Z := 20.
Definition SSH2_MSG_NEWKEYS : Z := 21.
Definition SSH2_MSG_USERAUTH_SUCCESS : Z := 52.
Definition SSH_BUG_NOREKEY : Z := 0x8000.

Definition COMP_NONE : Z := 0.
Definition COMP_ZLIB : Z := 1.
Definition COMP_DELAYED : Z := 2.

Inductive kex_mode := MODE_IN | MODE_OUT.

(** zlib and the random generator *)
Class Zlib := {
  zstate : Type;
  deflateInit : Z -> zstate;
  inflateInit : zstate;
  (** [deflate (zs, Z_PARTIAL_FLUSH)] with the given input and space for
      [avail_out] bytes: status, output, unread input, new state *)
  deflate : zstate -> list Z -> Z -> Z * list Z * list Z * zstate;
  inflate : zstate -> list Z -> Z -> Z * list Z * list Z * zstate
}.

Class Random := { arc4random : nat -> Z }.

Definition Z_OK : Z := 0.
Definition Z_BUF_ERROR : Z := -5.

Section Packet.
Context `{Crypto} `{Zlib} `{Random}.

(** ** State (kex.h, CoreConnection.h) *)

Record Enc := mkEnc {
  enc_name : list Z;
  enc_cipher : Cipher;
  enc_enabled : bool;
  enc_key_len : Z;
  enc_block_size : Z;
  enc_key : list Z;
  enc_iv : list Z
}.

Record Comp := mkComp { comp_type : Z; comp_enabled : bool; comp_name : list Z }.

Record Newkeys := mkNewkeys { nk_enc : Enc; nk_mac : Mac; nk_comp : Comp }.

Record packet_state := mkPS { seqnr : Z; packets : Z; blocks : Z; bytes : Z }.

Record dirst := mkDir {
  newkeys : option Newkeys;
  current_keys : option Newkeys;
  context : CipherContext;
  pst : packet_state;
  max_blocks : Z
}.

Record conn := mkConn {
  din : dirst;
  dout : dirst;
  input : Buffer;
  output : Buffer;
  outgoing_packet : Buffer;
  incoming_packet : Buffer;
  outgoing : list (Z * Buffer);
  compression_buffer : Buffer;
  compression_buffer_ready : bool;
  outgoing_stream : option zstate;
  incoming_stream : option zstate;
  rekey_limit : Z;
  extra_pad : Z;
  after_authentication : bool;
  datafellows : Z;
  keep_alive_timeouts : Z;
  poll2_packet_length : Z;
  send2_rekeying : bool;
  rand_used : nat
}.

(** [static const int server_side = 0] of CoreConnection.h *)
Definition server_side : bool := false.

(** *** Field updates *)

Definition set_dir (c : conn) (mode : kex_mode) (d : dirst) : conn :=
  mkConn (match mode with MODE_IN => d | MODE_OUT => din c end)
    (match mode with MODE_IN => dout c | MODE_OUT => d end)
    (input c) (output c) (outgoing_packet c) (incoming_packet c) (outgoing c)
    (compression_buffer c) (compression_buffer_ready c) (outgoing_stream c) (incoming_stream c)
    (rekey_limit c) (extra_pad c) (after_authentication c) (datafellows c)
    (keep_alive_timeouts c) (poll2_packet_length c) (send2_rekeying c) (rand_used c).

Definition get_dir (c : conn) (mode : kex_mode) : dirst :=
  match mode with MODE_IN => din c | MODE_OUT => dout c end.

Definition set_bufs (c : conn) (i o og ic : Buffer) : conn :=
  mkConn (din c) (dout c) i o og ic (outgoing c)
    (compression_buffer c) (compression_buffer_ready c) (outgoing_stream c) (incoming_stream c)
    (rekey_limit c) (extra_pad c) (after_authentication c) (datafellows c)
    (keep_alive_timeouts c) (poll2_packet_length c) (send2_rekeying c) (rand_used c).

Definition set_input c b := set_bufs c b (output c) (outgoing_packet c) (incoming_packet c).
Definition set_output c b := set_bufs c (input c) b (outgoing_packet c) (incoming_packet c).
Definition set_outgoing_packet c b := set_bufs c (input c) (output c) b (incoming_packet c).
Definition set_incoming_packet c b := set_bufs c (input c) (output c) (outgoing_packet c) b.

Definition set_comp (c : conn) (cb : Buffer) (ready : bool) (zo zi : option zstate) : conn :=
  mkConn (din c) (dout c) (input c) (output c) (outgoing_packet c) (incoming_packet c)
    (outgoing c) cb ready zo zi
    (rekey_limit c) (extra_pad c) (after_authentication c) (datafellows c)
    (keep_alive_timeouts c) (poll2_packet_length c) (send2_rekeying c) (rand_used c).

Definition set_misc (c : conn) (q : list (Z * Buffer)) (ep : Z) (aa : bool) (ka pl : Z)
    (rk : bool) (ru : nat) : conn :=
  mkConn (din c) (dout c) (input c) (output c) (outgoing_packet c) (incoming_packet c) q
    (compression_buffer c) (compression_buffer_ready c) (outgoing_stream c) (incoming_stream c)
    (rekey_limit c) ep aa (datafellows c) ka pl rk ru.

Definition set_outgoing c q := set_misc c q (extra_pad c) (after_authentication c)
  (keep_alive_timeouts c) (poll2_packet_length c) (send2_rekeying c) (rand_used c).
Definition set_extra_pad c ep := set_misc c (outgoing c) ep (after_authentication c)
  (keep_alive_timeouts c) (poll2_packet_length c) (send2_rekeying c) (rand_used c).
Definition set_after_auth c aa := set_misc c (outgoing c) (extra_pad c) aa
  (keep_alive_timeouts c) (poll2_packet_length c) (send2_rekeying c) (rand_used c).
Definition set_keep_alive c ka := set_misc c (outgoing c) (extra_pad c) (after_authentication c)
  ka (poll2_packet_length c) (send2_rekeying c) (rand_used c).
Definition set_poll2_len c pl := set_misc c (outgoing c) (extra_pad c) (after_authentication c)
  (keep_alive_timeouts c) pl (send2_rekeying c) (rand_used c).
Definition set_rekeying c rk := set_misc c (outgoing c) (extra_pad c) (after_authentication c)
  (keep_alive_timeouts c) (poll2_packet_length c) rk (rand_used c).
Definition set_rand_used c ru := set_misc c (outgoing c) (extra_pad c) (after_authentication c)
  (keep_alive_timeouts c) (poll2_packet_length c) (send2_rekeying c) ru.

Definition set_pst (d : dirst) (p : packet_state) : dirst :=
  mkDir (newkeys d) (current_keys d) (context d) p (max_blocks d).
Definition set_context (d : dirst) (cc : CipherContext) : dirst :=
  mkDir (newkeys d) (current_keys d) cc (pst d) (max_blocks d).
Definition set_keys (d : dirst) (nk ck : option Newkeys) : dirst :=
  mkDir nk ck (context d) (pst d) (max_blocks d).

(** [newkeys[mode]->mac = mac] when the keys exist *)
Definition set_mac (d : dirst) (mac : Mac) : dirst :=
  set_keys d ((fun nk => mkNewkeys (nk_enc nk) mac (nk_comp nk)) <$> newkeys d) (current_keys d).

Definition packet_disconnect {A} (msg : string) : res A := Fatal msg.

(** ** Building packets *)

Definition packet_start (c : conn) (type : Z) : res conn :=
  b ← buffer_append (buffer_clear (outgoing_packet c)) ([0; 0; 0; 0; 0] ++ [u8 type]);
  Ok (set_outgoing_packet c b).

Definition packet_put_char (c : conn) (value : Z) : res conn :=
  b ← buffer_append (outgoing_packet c) [u8 value]; Ok (set_outgoing_packet c b).

Definition packet_put_int (c : conn) (value : Z) : res conn :=
  b ← buffer_put_int (outgoing_packet c) value; Ok (set_outgoing_packet c b).

Definition packet_put_string (c : conn) (s : list Z) : res conn :=
  b ← buffer_put_string (outgoing_packet c) s; Ok (set_outgoing_packet c b).

Definition packet_put_cstring (c : conn) (s : option (list Z)) : res conn :=
  b ← buffer_put_cstring (outgoing_packet c) s; Ok (set_outgoing_packet c b).

Definition packet_put_raw (c : conn) (s : list Z) : res conn :=
  b ← buffer_append (outgoing_packet c) s; Ok (set_outgoing_packet c b).

(** ** Reading packets *)

Definition packet_remaining (c : conn) : Z := buffer_len (incoming_packet c).

Definition packet_get_char (c : conn) : res (Z * conn) :=
  '(p, b) ← buffer_get (incoming_packet c) 1; Ok (znth 0 p 0, set_incoming_packet c b).

Definition packet_get_int (c : conn) : res (Z * conn) :=
  '(v, b) ← buffer_get_int (incoming_packet c); Ok (v, set_incoming_packet c b).

Definition packet_get_raw (c : conn) : list Z := buffer_ptr (incoming_packet c).

Definition packet_get_string (c : conn) : res (list Z * conn) :=
  '(v, b) ← buffer_get_string (incoming_packet c); Ok (v, set_incoming_packet c b).

Definition packet_get_string_ptr (c : conn) : res (list Z * conn) :=
  '(v, b) ← buffer_get_string_ptr (incoming_packet c); Ok (v, set_incoming_packet c b).

Definition packet_process_incoming (c : conn) (data : list Z) : res conn :=
  b ← buffer_append (input c) data; Ok (set_input c b).

(** ** Compression *)

(** Every turn of the loop of [buffer_compress] but the last appends 4096 bytes,
    so that [buffer_append] refuses after 2560 turns at the latest. *)
Definition COMPRESS_FUEL : nat := 4096.

Fixpoint compress_loop (fuel : nat) (zs : zstate) (inp : list Z) (out : Buffer) :
    res (zstate * Buffer) :=
  match fuel with
  | O => OutOfFuel
  | S fuel =>
    let '(status, o, inp, zs) := deflate zs inp 4096 in
    if status =? Z_OK then
      out ← buffer_append out o;
      if 4096 - zlen o =? 0 then compress_loop fuel zs inp out else Ok (zs, out)
    else Fatal "buffer_compress: deflate returned"
  end.

Definition buffer_compress (zs : zstate) (input_buffer output_buffer : Buffer) :
    res (zstate * Buffer) :=
  if buffer_len input_buffer =? 0 then Ok (zs, output_buffer)
  else compress_loop COMPRESS_FUEL zs (buffer_ptr input_buffer) output_buffer.

Fixpoint uncompress_loop (fuel : nat) (zs : zstate) (inp : list Z) (out : Buffer) :
    res (zstate * Buffer) :=
  match fuel with
  | O => OutOfFuel
  | S fuel =>
    let '(status, o, inp, zs) := inflate zs inp 4096 in
    if status =? Z_OK then
      out ← buffer_append out o; uncompress_loop fuel zs inp out
    else if status =? Z_BUF_ERROR then Ok (zs, out)
    else Fatal "buffer_uncompress: inflate returned"
  end.

Definition buffer_uncompress (zs : zstate) (input_buffer output_buffer : Buffer) :
    res (zstate * Buffer) :=
  uncompress_loop COMPRESS_FUEL zs (buffer_ptr input_buffer) output_buffer.

Definition packet_init_compression (c : conn) : conn :=
  if compression_buffer_ready c then c
  else set_comp c buffer_init true (outgoing_stream c) (incoming_stream c).

Definition buffer_compress_init_send (c : conn) (level : Z) : res conn :=
  if (level <? 1) || (level >? 9) then Fatal "Bad compression level"
  else Ok (set_comp c (compression_buffer c) (compression_buffer_ready c)
             (Some (deflateInit level)) (incoming_stream c)).

Definition buffer_compress_init_recv (c : conn) : conn :=
  set_comp c (compression_buffer c) (compression_buffer_ready c)
    (outgoing_stream c) (Some inflateInit).

(** Switch compression on for one direction (the code shared by [set_newkeys]
    and [packet_enable_delayed_compress]). *)
Definition enable_compression (c : conn) (mode : kex_mode) (nk : Newkeys) : res conn :=
  let c := packet_init_compression c in
  c ← match mode with
      | MODE_OUT => buffer_compress_init_send c 6
      | MODE_IN => Ok (buffer_compress_init_recv c)
      end;
  let comp := nk_comp nk in
  let nk := mkNewkeys (nk_enc nk) (nk_mac nk) (mkComp (comp_type comp) true (comp_name comp)) in
  let d := get_dir c mode in
  Ok (set_dir c mode (set_keys d (Some nk) (current_keys d))).

(** ** New keys *)

Definition kex_get_newkeys (d : dirst) : option Newkeys * dirst :=
  (current_keys d, set_keys d (newkeys d) None).

Definition set_newkeys (c : conn) (mode : kex_mode) : res conn :=
  let d := get_dir c mode in
  let d := set_pst d (mkPS (seqnr (pst d)) 0 0 (bytes (pst d))) in
  let '(nk, d) := kex_get_newkeys d in
  match nk with
  | None => Fatal "newkeys: no keys for mode"
  | Some nk =>
      let enc := nk_enc nk in
      '(ok, mac) ← mac_init (nk_mac nk);
      let mac := if ok : bool
                 then mkMac (mac_name mac) true (mac_len mac) (mac_key mac) (mac_key_len mac)
                        (mac_type mac) (mac_evp_md mac) (mac_evp_ctx mac) (mac_umac_ctx mac)
                 else mac in
      cc ← cipher_init (enc_cipher enc) (take (Z.to_nat (enc_key_len enc)) (enc_key enc))
             (Some (take (Z.to_nat (enc_block_size enc)) (enc_iv enc)))
             (match mode with MODE_OUT => true | MODE_IN => false end);
      let nk := mkNewkeys enc mac (nk_comp nk) in
      let mb := if enc_block_size enc >=? 16
                then u64 (Z.shiftl 1 (enc_block_size enc * 2))
                else 2 ^ 30 / enc_block_size enc in
      let mb := if negb (rekey_limit c =? 0)
                then Z.min mb (rekey_limit c / enc_block_size enc) else mb in
      let d := mkDir (Some nk) (current_keys d) cc (pst d) mb in
      let c := set_dir c mode d in
      let comp := nk_comp nk in
      if ((comp_type comp =? COMP_ZLIB) ||
          ((comp_type comp =? COMP_DELAYED) && after_authentication c)) &&
         negb (comp_enabled comp)
      then enable_compression c mode nk
      else Ok c
  end.

Definition enable_delayed (c : conn) (mode : kex_mode) : res conn :=
  match newkeys (get_dir c mode) with
  | None => Ok c
  | Some nk =>
      if negb (comp_enabled (nk_comp nk)) && (comp_type (nk_comp nk) =? COMP_DELAYED)
      then enable_compression c mode nk else Ok c
  end.

Definition packet_enable_delayed_compress (c : conn) : res conn :=
  let c := set_after_auth c true in
  c ← enable_delayed c MODE_IN; enable_delayed c MODE_OUT.

Definition MAX_PACKETS : Z := 2 ^ 31.

Definition packet_need_rekeying (c : conn) : bool :=
  if negb (Z.land (datafellows c) SSH_BUG_NOREKEY =? 0) then false
  else (packets (pst (dout c)) >? MAX_PACKETS) || (packets (pst (din c)) >? MAX_PACKETS) ||
       (negb (max_blocks (dout c) =? 0) && (blocks (pst (dout c)) >? max_blocks (dout c))) ||
       (negb (max_blocks (din c) =? 0) && (blocks (pst (din c)) >? max_blocks (din c))).

(** ** Sending *)

(** [dest = buffer_append_space (b, len); cipher_crypt (cc, dest, src, len)] *)
Definition append_crypt (b : Buffer) (cc : CipherContext) (src : list Z) :
    res (Buffer * CipherContext) :=
  '(p, b) ← buffer_append_space b (zlen src);
  '(dest, cc) ← cipher_crypt cc src;
  Ok (mkBuffer (splice p dest (buf b)) (alloc b) (offset b) (end_ b), cc).

(** The padding bytes: one [arc4random] word feeds four bytes. *)
Fixpoint random_padding (n i : nat) (rnd : Z) (used : nat) : list Z * nat :=
  match n with
  | O => ([], used)
  | S n =>
      let '(rnd, used) := if (i mod 4 =? 0)%nat then (arc4random used, S used) else (rnd, used) in
      let '(l, used) := random_padding n (S i) (Z.shiftr rnd 8) used in
      (Z.land rnd 0xff :: l, used)
  end.

(** The padding length as the [u_char] arithmetic of the code gives it, and the
    new [extra_pad].  [None]: [extra_pad] rounded up is 256, stored as 0, and
    the code divides by it. *)
Definition compute_padlen (len block_size extra_pad : Z) : option (Z * Z) :=
  let padlen := u8 (block_size - len mod block_size) in
  let padlen := if padlen <? 4 then u8 (padlen + block_size) else padlen in
  if negb (extra_pad =? 0) then
    let extra_pad := u8 ((extra_pad + (block_size - 1)) / block_size * block_size) in
    if extra_pad =? 0 then None
    else let pad := u8 (extra_pad - (len + padlen) mod extra_pad) in
         Some (u8 (padlen + pad), 0)
  else Some (padlen, extra_pad).

(** Replace the payload by its compressed form. *)
Definition compress_outgoing (c : conn) : res conn :=
  match outgoing_stream c with
  | None => Fatal "deflate: stream not initialised"
  | Some zs =>
      og ← buffer_consume (outgoing_packet c) 5;
      '(zs, cb) ← buffer_compress zs og (buffer_clear (compression_buffer c));
      og ← buffer_append (buffer_clear og) [0; 0; 0; 0; 0];
      og ← buffer_append og (buffer_ptr cb);
      Ok (set_outgoing_packet
            (set_comp c cb (compression_buffer_ready c) (Some zs) (incoming_stream c)) og)
  end.

Definition count_packet (df : Z) (p : packet_state) (packet_length block_size : Z) :
    res packet_state :=
  let packets := u32 (packets p + 1) in
  if (packets =? 0) && (Z.land df SSH_BUG_NOREKEY =? 0) then
    Fatal "XXX too many packets with same key"
  else Ok (mkPS (u32 (seqnr p + 1)) packets
             (u64 (blocks p + u32 (packet_length + 4) / block_size))
             (u64 (bytes p + u32 (packet_length + 4)))).

(** [put_u32 (cp, packet_length); cp[4] = padlen] at [cp = buffer_ptr (b)] *)
Definition write_header (b : Buffer) (packet_length padlen : Z) : Buffer :=
  mkBuffer (splice (offset b) (put_u32 packet_length ++ [padlen]) (buf b))
    (alloc b) (offset b) (end_ b).

(** The call of [mac_compute] shared by both directions: the [mac_len] bytes
    that count, when the MAC is enabled. *)
Definition packet_mac (d : dirst) (data : list Z) : res (option (list Z) * dirst) :=
  match newkeys d with
  | Some nk =>
      if mac_enabled (nk_mac nk) then
        '(m, mac) ← mac_compute (nk_mac nk) (seqnr (pst d)) data EVP_MAX_MD_SIZE;
        Ok (Some (take (Z.to_nat (mac_len mac)) m), set_mac d mac)
      else Ok (None, d)
  | None => Ok (None, d)
  end.

Definition packet_send2_wrapped (c : conn) : res conn :=
  let enc := nk_enc <$> newkeys (dout c) in
  let comp := nk_comp <$> newkeys (dout c) in
  let block_size := match enc with Some e => enc_block_size e | None => 8 end in
  let type := znth 0 (buffer_ptr (outgoing_packet c)) 5 in
  c ← match comp with
      | Some comp => if comp_enabled comp then compress_outgoing c else Ok c
      | None => Ok c
      end;
  let len := buffer_len (outgoing_packet c) in
  match compute_padlen len block_size (extra_pad c) with
  | None => Fatal "integer division by zero"
  | Some (padlen, ep) =>
    let c := set_extra_pad c ep in
    '(p, og) ← buffer_append_space (outgoing_packet c) padlen;
    let '(pad, used) :=
      match enc with
      | Some _ => if negb (plaintext (context (dout c)))
                  then random_padding (Z.to_nat padlen) 0 0 (rand_used c)
                  else (replicate (Z.to_nat padlen) 0, rand_used c)
      | None => (replicate (Z.to_nat padlen) 0, rand_used c)
      end in
    let og := mkBuffer (splice p pad (buf og)) (alloc og) (offset og) (end_ og) in
    let packet_length := u32 (buffer_len og - 4) in
    let og := write_header og packet_length padlen in
    let c := set_rand_used c used in
    (* MAC over the sequence number and the plain packet *)
    '(macbuf, d) ← packet_mac (dout c) (buffer_ptr og);
    '(out, cc) ← append_crypt (output c) (context d) (buffer_ptr og);
    out ← match macbuf with Some m => buffer_append out m | None => Ok out end;
    ps ← count_packet (datafellows c) (pst d) packet_length block_size;
    let c := set_dir c MODE_OUT (set_pst (set_context d cc) ps) in
    let c := set_bufs c (input c) out (buffer_clear og) (incoming_packet c) in
    if type =? SSH2_MSG_NEWKEYS then set_newkeys c MODE_OUT
    else if (type =? SSH2_MSG_USERAUTH_SUCCESS) && server_side
         then packet_enable_delayed_compress c
         else Ok c
  end.

(** Sending the packets held back during a key exchange. *)
Fixpoint flush_outgoing (q : list (Z * Buffer)) (c : conn) : res conn :=
  match q with
  | [] => Ok (set_outgoing c [])
  | (_, payload) :: q =>
      c ← packet_send2_wrapped (set_outgoing (set_outgoing_packet c payload) q);
      flush_outgoing q c
  end.

Definition packet_send2 (c : conn) : res conn :=
  let type := znth 0 (buffer_ptr (outgoing_packet c)) 5 in
  if send2_rekeying c &&
     negb ((SSH2_MSG_TRANSPORT_MIN <=? type) && (type <=? SSH2_MSG_TRANSPORT_MAX))
  then Ok (set_outgoing_packet (set_outgoing c (outgoing c ++ [(type, outgoing_packet c)]))
             buffer_init)
  else
    let c := if type =? SSH2_MSG_KEXINIT then set_rekeying c true else c in
    c ← packet_send2_wrapped c;
    if type =? SSH2_MSG_NEWKEYS then flush_outgoing (outgoing c) (set_rekeying c false)
    else Ok c.

(** [compat20] is the constant 1. *)
Definition packet_send (c : conn) : res conn := packet_send2 c.

(** ** Receiving *)

(** The packet length, once the first block is there; [None]: not enough input. *)
Definition read_first_block (c : conn) (block_size : Z) : res (option conn) :=
  if negb (poll2_packet_length c =? 0) then Ok (Some c)
  else if buffer_len (input c) <? block_size then Ok None
  else
    '(ic, cc) ← append_crypt (buffer_clear (incoming_packet c)) (context (din c))
                  (take (Z.to_nat block_size) (buffer_ptr (input c)));
    let plen := get_u32 (buffer_ptr ic) in
    if (plen <? 1 + 4) || (plen >? 256 * 1024) then packet_disconnect "Bad packet length"
    else
      inp ← buffer_consume (input c) block_size;
      let c := set_dir c MODE_IN (set_context (din c) cc) in
      Ok (Some (set_poll2_len (set_bufs c inp (output c) (outgoing_packet c) ic) plen)).

(** The MAC of the packet, checked against the input. *)
Definition check_mac (c : conn) (maclen : Z) : res conn :=
  '(macbuf, d) ← packet_mac (din c) (buffer_ptr (incoming_packet c));
  match macbuf with
  | Some m =>
      if bool_decide (m = take (Z.to_nat maclen) (buffer_ptr (input c))) then
        inp ← buffer_consume (input c) maclen;
        Ok (set_input (set_dir c MODE_IN d) inp)
      else packet_disconnect "Corrupted MAC on input."
  | None => Ok c
  end.

Definition uncompress_incoming (c : conn) : res conn :=
  match incoming_stream c with
  | None => Fatal "inflate: stream not initialised"
  | Some zs =>
      '(zs, cb) ← buffer_uncompress zs (incoming_packet c) (buffer_clear (compression_buffer c));
      ic ← buffer_append (buffer_clear (incoming_packet c)) (buffer_ptr cb);
      Ok (set_incoming_packet
            (set_comp c cb (compression_buffer_ready c) (outgoing_stream c) (Some zs)) ic)
  end.

(** The rest of the packet; the value is the type and the sequence number. *)
Definition read_rest (c : conn) (block_size maclen : Z) : res (Z * Z * conn) :=
  let plen := poll2_packet_length c in
  let comp := nk_comp <$> newkeys (din c) in
  let need := u32 (4 + plen - block_size) in
  if negb (need mod block_size =? 0) then packet_disconnect "Bad packet length"
  else if buffer_len (input c) <? u32 (need + maclen) then Ok (SSH_MSG_NONE, 0, c)
  else
    '(ic, cc) ← append_crypt (incoming_packet c) (context (din c))
                  (take (Z.to_nat need) (buffer_ptr (input c)));
    inp ← buffer_consume (input c) need;
    let c := set_dir c MODE_IN (set_context (din c) cc) in
    let c := set_bufs c inp (output c) (outgoing_packet c) ic in
    c ← check_mac c maclen;
    let seq := seqnr (pst (din c)) in
    ps ← count_packet (datafellows c) (pst (din c)) plen block_size;
    let c := set_dir c MODE_IN (set_pst (din c) ps) in
    let padlen := znth 0 (buffer_ptr (incoming_packet c)) 4 in
    if padlen <? 4 then packet_disconnect "Corrupted padlen on input."
    else
      ic ← buffer_consume (incoming_packet c) (4 + 1);
      ic ← buffer_consume_end ic padlen;
      let c := set_incoming_packet c ic in
      c ← match comp with
          | Some comp => if comp_enabled comp then uncompress_incoming c else Ok c
          | None => Ok c
          end;
      '(type, ic) ← buffer_get_char (incoming_packet c);
      let c := set_incoming_packet c ic in
      if (type <? SSH2_MSG_MIN) || (type >=? SSH2_MSG_LOCAL_MIN) then
        packet_disconnect "Invalid ssh2 packet type"
      else
        c ← (if type =? SSH2_MSG_NEWKEYS then set_newkeys c MODE_IN
             else if (type =? SSH2_MSG_USERAUTH_SUCCESS) && negb server_side
                  then packet_enable_delayed_compress c
                  else Ok c);
        Ok (type, seq, set_poll2_len c 0).

Definition packet_read_poll2 (c : conn) : res (Z * Z * conn) :=
  let nk := newkeys (din c) in
  let maclen := match nk with
                | Some nk => if mac_enabled (nk_mac nk) then mac_len (nk_mac nk) else 0
                | None => 0
                end in
  let block_size := match nk with Some nk => enc_block_size (nk_enc nk) | None => 8 end in
  o ← read_first_block c block_size;
  match o with
  | None => Ok (SSH_MSG_NONE, 0, c)
  | Some c => read_rest c block_size maclen
  end.

(** The loop that swallows IGNORE, DEBUG and UNIMPLEMENTED messages; every turn
    consumes input or finishes a packet whose first block was read before, which
    bounds the fuel. *)
Fixpoint read_poll_loop (fuel : nat) (c : conn) : res (Z * Z * conn) :=
  match fuel with
  | O => OutOfFuel
  | S fuel =>
    '(type, seq, c) ← packet_read_poll2 c;
    let c := if negb (type =? 0) then set_keep_alive c 0 else c in
    if type =? SSH2_MSG_IGNORE then read_poll_loop fuel c
    else if type =? SSH2_MSG_DEBUG then
      '(_, c) ← packet_get_char c;
      '(_, c) ← packet_get_string c;
      '(_, c) ← packet_get_string c;
      read_poll_loop fuel c
    else if type =? SSH2_MSG_DISCONNECT then
      '(_, c) ← packet_get_int c;
      '(_, c) ← packet_get_string c;
      Fatal "Received disconnect"
    else if type =? SSH2_MSG_UNIMPLEMENTED then
      '(_, c) ← packet_get_int c;
      read_poll_loop fuel c
    else Ok (type, seq, c)
  end.

Definition packet_read_poll_seqnr (c : conn) : res (Z * Z * conn) :=
  read_poll_loop (S (S (Z.to_nat (buffer_len (input c))))) c.

Definition packet_set_timeout (timeout count : Z) : Z :=
  let INT_MAX := 2147483647 in
  if (timeout =? 0) || (count =? 0) then -1
  else if Z.quot (INT_MAX / 1000) count <? timeout then INT_MAX
  else s32 (timeout * count * 1000).

End Packet.
