(* ===== verification/SshTransport.v ===== *)
(** * SshTransport: what the packet layer guarantees

    The sender and the receiver of one direction are [linked] when their keys,
    cipher contexts and sequence numbers correspond.  The main theorem is that
    a packet sent through one end is delivered unchanged at the other, leaving
    the ends linked; the others are about padding, lengths and integrity. *)

From S2P Require Import Prelude SshBuffer SshMatch SshCipher SshPacket.

Section Transport.
Context {CR : Crypto} {CL : CryptoLaws} {ZL : Zlib} {RN : Random}.

(** ** Helper lemmas on buffers *)

Lemma capped_of_ok b : buffer_ok b -> capped (alloc b) b.
Proof. intros Hok. pose proof Hok as []. split; [done|]. unfold BUFFER_ALLOCSZ. lia. Qed.

Lemma buffer_consume_app b d rest :
  buffer_ok b -> contents b = d ++ rest ->
  exists b', buffer_consume b (zlen d) = Ok b' /\ buffer_ok b' /\ contents b' = rest /\
    end_ b' = end_ b /\ alloc b' = alloc b.
Proof.
  intros Hok Hc. unfold buffer_consume. rewrite buffer_consume_ret_get.
  destruct (buffer_get_ret_app (alloc b) b d rest (capped_of_ok b Hok) Hc) as (b' & E & _ & Hr).
  pose proof (buffer_get_ret_spec b (zlen d) Hok (zlen_nonneg d)) as Hs.
  rewrite E in *. destruct Hs as (_ & _ & _ & ? & ? & ?). exists b'. done.
Qed.

Lemma buffer_consume_end_app b d tail :
  buffer_ok b -> contents b = d ++ tail ->
  exists b', buffer_consume_end b (zlen tail) = Ok b' /\ buffer_ok b' /\ contents b' = d /\
    end_ b' <= end_ b /\ alloc b' = alloc b.
Proof.
  intros Hok Hc. unfold buffer_consume_end.
  pose proof (buffer_consume_end_ret_spec b (zlen tail) Hok (zlen_nonneg tail)) as Hs.
  destruct (buffer_consume_end_ret b (zlen tail)) as [b'|] eqn:E.
  - destruct Hs as (? & ? & ? & Hd). exists b'. split; [done|]. split; [done|]. split.
    + rewrite Hd, Hc, zlen_app. replace (zlen d + zlen tail - zlen tail) with (zlen d) by lia.
      unfold zlen. rewrite Nat2Z.id. apply take_app_length.
    + split; [done|]. unfold buffer_consume_end_ret in E. zcase_in E; [done|].
      by injection E as <-.
  - rewrite Hc, zlen_app in Hs. pose proof (zlen_nonneg d). lia.
Qed.

Lemma write_header_contents n b pl pd h rest :
  capped n b -> contents b = h ++ rest -> length h = 5%nat ->
  capped n (write_header b pl pd) /\
  contents (write_header b pl pd) = (put_u32 pl ++ [pd]) ++ rest.
Proof.
  intros (Hok & He & Ha) Hc Hh. pose proof Hok as [].
  pose proof (buffer_len_contents b Hok) as Hl. rewrite buffer_len_ok, Hc, zlen_app in Hl by done.
  pose proof (zlen_nonneg rest). unfold zlen in Hl at 1. rewrite Hh in Hl.
  set (hd := put_u32 pl ++ [pd]). assert (Hz : zlen hd = 5) by done.
  split.
  - split; [|done]. constructor; cbn [write_header alloc offset end_ buf]; try lia.
    unfold zlen. rewrite splice_length; [unfold zlen in *; lia|lia|]. fold hd. lia.
  - unfold contents, write_header; cbn [alloc offset end_ buf]. fold hd.
    replace (end_ b - offset b) with (zlen hd + (end_ b - offset b - 5)) by lia.
    rewrite slice_app_next by lia. rewrite slice_splice_at by lia. f_equal.
    unfold contents in Hc. replace (end_ b - offset b) with (5 + (end_ b - offset b - 5)) in Hc by lia.
    rewrite slice_app_next in Hc by lia.
    apply app_inj_1 in Hc as [_ <-]; [|rewrite slice_length; lia].
    rewrite Hz. unfold slice, splice.
    rewrite !drop_app_ge by (rewrite ?length_app, ?length_take; change (length hd) with 5%nat;
      unfold zlen in *; lia).
    rewrite length_take. change (length hd) with 5%nat.
    rewrite drop_drop. do 2 f_equal. unfold zlen in *. lia.
Qed.

Lemma get_u32_put_app v rest : 0 <= v < 2 ^ 32 -> get_u32 (put_u32 v ++ rest) = v.
Proof. intros Hv. by rewrite <- (get_put_u32 v Hv) at 2. Qed.

(** ** Padding *)

(** Padding: for the block sizes of the cipher table the padding is
    between 4 and 255 bytes and rounds the packet up to a whole number of
    blocks, as the protocol demands. *)
Lemma padlen_spec len block_size padlen ep :
  0 <= len -> block_size = 8 \/ block_size = 16 ->
  compute_padlen len block_size 0 = Some (padlen, ep) ->
  4 <= padlen <= 255 /\ padlen < block_size + 4 /\ (len + padlen) mod block_size = 0 /\ ep = 0.
Proof.
  unfold compute_padlen. intros Hl Hb E. cbn in E.
  assert (0 <= len mod block_size < block_size) by (apply Z.mod_pos_bound; lia).
  rewrite (u8_small (block_size - _)) in E by lia.
  assert (Hm : forall k, (len + (block_size - len mod block_size + k * block_size)) mod block_size = 0).
  { intros k. rewrite (Z.div_mod len block_size) at 1 by lia.
    replace (block_size * (len / block_size) + len mod block_size +
             (block_size - len mod block_size + k * block_size))
      with ((len / block_size + 1 + k) * block_size) by lia. apply Z.mod_mul. lia. }
  zcase_in E; injection E as <- <-.
  - rewrite u8_small by lia. specialize (Hm 1). rewrite Z.mul_1_l in Hm.
    split; [lia|]. split; [lia|]. done.
  - specialize (Hm 0). rewrite Z.mul_0_l, Z.add_0_r in Hm. split; [lia|]. split; [lia|]. done.
Qed.

Lemma padlen_exists len block_size :
  exists padlen, compute_padlen len block_size 0 = Some (padlen, 0).
Proof. eexists. unfold compute_padlen. reflexivity. Qed.

Lemma random_padding_length n i rnd used : length (fst (random_padding n i rnd used)) = n.
Proof.
  revert i rnd used. induction n as [|n IH]; intros i rnd used; [done|]. cbn [random_padding].
  destruct (i mod 4 =? 0)%nat.
  - specialize (IH (S i) (Z.shiftr (arc4random used) 8) (S used)).
    destruct (random_padding _ _ _ _); simpl in *. lia.
  - specialize (IH (S i) (Z.shiftr rnd 8) used).
    destruct (random_padding _ _ _ _); simpl in *. lia.
Qed.

(** ** Linked ends *)

Definition bsize (nk : option Newkeys) : Z :=
  match nk with Some nk => enc_block_size (nk_enc nk) | None => 8 end.

Definition maclen_of (nk : option Newkeys) : Z :=
  match nk with Some nk => if mac_enabled (nk_mac nk) then mac_len (nk_mac nk) else 0 | None => 0 end.

(** A MAC that [mac_init] has set up, no longer than its digest. *)
Definition mac_ready (m : Mac) : Prop :=
  0 <= mac_len m <= EVP_MAX_MD_SIZE /\
  ((mac_type m = SSH_EVP /\ exists md key, mac_evp_ctx m = Some (md, key) /\ mac_len m <= EVP_MD_size md) \/
   (mac_type m = SSH_UMAC /\ (exists ctx, mac_umac_ctx m = Some ctx) /\ mac_len m <= 8)).

Definition keys_match (ka kb : option Newkeys) : Prop :=
  match ka, kb with
  | None, None => True
  | Some ka, Some kb =>
      enc_block_size (nk_enc ka) = enc_block_size (nk_enc kb) /\ nk_mac ka = nk_mac kb /\
      mac_ready (nk_mac ka) /\
      comp_enabled (nk_comp ka) = false /\ comp_enabled (nk_comp kb) = false
  | _, _ => False
  end.

(** [a]'s outgoing and [b]'s incoming direction belong together. *)
Record dirs_linked (da db : dirst) : Prop := {
  lk_bs : bsize (newkeys da) = 8 \/ bsize (newkeys da) = 16;
  lk_keys : keys_match (newkeys da) (newkeys db);
  lk_ctx_a : c_block_size (cc_cipher (context da)) = bsize (newkeys da);
  lk_ctx_b : c_block_size (cc_cipher (context db)) = bsize (newkeys da);
  lk_block : (evp_block (evp (context da)) | bsize (newkeys da));
  lk_sync : in_sync (evp (context da)) (evp (context db));
  lk_seq : seqnr (pst da) = seqnr (pst db)
}.

Lemma keys_match_bsize ka kb : keys_match ka kb -> bsize ka = bsize kb /\ maclen_of ka = maclen_of kb.
Proof.
  destruct ka as [ka|], kb as [kb|]; simpl; try done. intros (-> & -> & _). done.
Qed.

Lemma mac_compute_ready m seq data :
  mac_ready m ->
  exists t m', mac_compute m seq data EVP_MAX_MD_SIZE = Ok (t, m') /\ mac_len m <= zlen t /\
    mac_ready m' /\ mac_enabled m' = mac_enabled m /\ mac_len m' = mac_len m.
Proof.
  intros [Hl Hm]. unfold mac_compute.
  destruct (mac_len m >? EVP_MAX_MD_SIZE) eqn:E; zbool; [lia|].
  destruct Hm as [(Ht & md & key & Hc & Hle)|(Ht & [ctx Hc] & Hle)]; rewrite Ht, Hc; cbn.
  - eexists _, m. split; [done|]. rewrite hmac_length. split; [done|].
    split; [|done]. split; [done|]. left. eauto.
  - destruct (umac ctx data (put_u64 seq)) as [t ctx'] eqn:Eu.
    pose proof (umac_length ctx data (put_u64 seq)) as Hul. rewrite Eu in Hul. cbn in Hul.
    eexists t, _. split; [done|]. split; [lia|]. split; [|done].
    split; [done|]. right. cbn. split; [done|]. eauto.
Qed.

(** Both ends compute the same MAC and stay in step. *)
Lemma packet_mac_linked da db data :
  dirs_linked da db ->
  exists t da' db', packet_mac da data = Ok (t, da') /\ packet_mac db data = Ok (t, db') /\
    dirs_linked da' db' /\ bsize (newkeys da') = bsize (newkeys da) /\
    maclen_of (newkeys da') = maclen_of (newkeys da) /\
    context da' = context da /\ context db' = context db /\
    pst da' = pst da /\ pst db' = pst db /\
    match t with Some t => zlen t = maclen_of (newkeys da) | None => maclen_of (newkeys da) = 0 end.
Proof.
  intros [Hbs Hk Hca Hcb Hbl Hsy Hsq]. unfold packet_mac. rewrite <- Hsq.
  destruct (newkeys da) as [ka|] eqn:Ea, (newkeys db) as [kb|] eqn:Eb; try done.
  2: { exists None, da, db. rewrite Ea. repeat split; rewrite ?Ea, ?Eb; done. }
  destruct Hk as (Hb & Hm & Hr & Hc1 & Hc2). rewrite <- Hm.
  destruct (mac_enabled (nk_mac ka)) eqn:En.
  2: { exists None, da, db. rewrite Ea. cbn. rewrite En.
       repeat split; rewrite ?Ea, ?Eb; try done. }
  destruct (mac_compute_ready (nk_mac ka) (seqnr (pst da)) data Hr)
    as (t & m' & -> & Ht & Hr' & En' & Hlen').
  eexists _, _, _. split; [reflexivity|]. split; [reflexivity|].
  unfold set_mac, set_keys. rewrite Ea, Eb.
  cbn [newkeys context pst fmap option_fmap option_map bsize maclen_of nk_mac nk_enc].
  rewrite En', En, Hlen'. destruct Hr as [[] _].
  split; [constructor; cbn; try done|repeat split; try done].
  unfold zlen in *. rewrite length_take. lia.
Qed.

(** ** One packet through the cipher *)

Lemma append_crypt_within n b cc src dest ctx' :
  capped n b -> zlen src <= BUFFER_MAX_CHUNK -> end_ b + zlen src <= n ->
  2 * n + BUFFER_ALLOCSZ <= BUFFER_MAX_LEN ->
  zlen src mod c_block_size (cc_cipher cc) = 0 ->
  EVP_Cipher (evp cc) src = Some (dest, ctx') ->
  exists b', append_crypt b cc src = Ok (b', mkCC (plaintext cc) ctx' (cc_cipher cc)) /\
    capped n b' /\ contents b' = contents b ++ dest /\ end_ b' <= end_ b + zlen src.
Proof.
  intros Hc Hl Hn Hm Hmod He. pose proof (zlen_nonneg src).
  destruct (append_space_within n b (zlen src) Hc) as (p & b1 & E & Hd); [lia..|].
  unfold append_crypt, cipher_crypt. rewrite E, Hmod, He. rsimp. cbn [negb Z.eqb].
  pose proof (cipher_length _ _ _ _ He) as Hlen.
  destruct (Hd dest) as (H1 & H2 & H3); [unfold zlen; lia|].
  eexists. split; [done|]. done.
Qed.

(** The clear text of a packet. *)
Definition plain_packet (type : Z) (payload pad : list Z) : list Z :=
  (put_u32 (zlen payload + zlen pad + 2) ++ [zlen pad]) ++ type :: payload ++ pad.

Lemma plain_packet_len type payload pad :
  zlen (plain_packet type payload pad) = zlen payload + zlen pad + 6.
Proof.
  unfold plain_packet. rewrite !zlen_app. change (zlen (put_u32 _)) with 4.
  change (zlen [zlen pad]) with 1. unfold zlen. cbn [length]. rewrite length_app. lia.
Qed.

Definition NB : Z := 300000.
Definition NO : Z := 4000000.

(** The packet being built, with room for padding, and room in [output]. *)
Record tx_ready (c : conn) (type : Z) (payload : list Z) : Prop := {
  tx_cap : capped NB (outgoing_packet c);
  tx_contents : contents (outgoing_packet c) = [0; 0; 0; 0; 0] ++ type :: payload;
  tx_size : zlen payload <= 200000;
  tx_end : end_ (outgoing_packet c) <= 250000;
  tx_out : capped NO (output c);
  tx_out_end : end_ (output c) <= 3600000;
  tx_type : SSH2_MSG_MIN <= type < SSH2_MSG_LOCAL_MIN;
  tx_plain : type <> SSH2_MSG_NEWKEYS /\ type <> SSH2_MSG_USERAUTH_SUCCESS;
  tx_pad : extra_pad c = 0;
  tx_count : 0 <= packets (pst (dout c)) < 2 ^ 32 - 1
}.

Lemma count_packet_ok df p plen bs :
  0 <= packets p < 2 ^ 32 - 1 ->
  exists p', count_packet df p plen bs = Ok p' /\ seqnr p' = u32 (seqnr p + 1) /\
    packets p' = packets p + 1.
Proof.
  intros Hp. unfold count_packet. rewrite (u32_small (packets p + 1)) by lia.
  replace (packets p + 1 =? 0) with false by lia. eexists. split; [done|]. done.
Qed.

(** Nothing is being built and nothing asks for extra padding. *)
Record tx_idle (c : conn) : Prop := {
  ti_cap : capped NB (outgoing_packet c);
  ti_out : capped NO (output c);
  ti_pad : extra_pad c = 0
}.

(** ** Sending *)

Lemma linked_no_comp da db (c : conn) (f : res conn) :
  dirs_linked da db ->
  match nk_comp <$> newkeys da with
  | Some comp => if comp_enabled comp then f else Ok c
  | None => Ok c
  end = Ok c.
Proof.
  intros [_ Hk _ _ _ _ _]. destruct (newkeys da) as [ka|], (newkeys db) as [kb|]; try done.
  cbn. by destruct Hk as (_ & _ & _ & -> & _).
Qed.

Lemma enc_bsize (nk : option Newkeys) :
  match nk_enc <$> nk with Some e => enc_block_size e | None => 8 end = bsize nk.
Proof. by destruct nk. Qed.

(** The padding bytes have the computed length, random or zero. *)
Lemma padding_length c n :
  zlen (fst (match nk_enc <$> newkeys (dout c) with
             | Some _ => if negb (plaintext (context (dout c)))
                         then random_padding n 0 0 (rand_used c)
                         else (replicate n 0, rand_used c)
             | None => (replicate n 0, rand_used c)
             end)) = Z.of_nat n.
Proof.
  unfold zlen. destruct (newkeys (dout c)); cbn; [|by rewrite length_replicate].
  destruct (negb _); cbn; [by rewrite random_padding_length|by rewrite length_replicate].
Qed.

Lemma send_spec a db type payload :
  dirs_linked (dout a) db -> tx_ready a type payload ->
  exists a' pad C x' t da' db' ps,
    packet_send2_wrapped a = Ok a' /\
    4 <= zlen pad <= 20 /\
    zlen (plain_packet type payload pad) mod bsize (newkeys (dout a)) = 0 /\
    EVP_Cipher (evp (context (dout a))) (plain_packet type payload pad) = Some (C, x') /\
    packet_mac (dout a) (plain_packet type payload pad) = Ok (t, da') /\
    packet_mac db (plain_packet type payload pad) = Ok (t, db') /\
    contents (output a') = contents (output a) ++ C ++ default [] t /\
    dout a' = set_pst (set_context da'
      (mkCC (plaintext (context da')) x' (cc_cipher (context da')))) ps /\
    seqnr ps = u32 (seqnr (pst (dout a)) + 1) /\ packets ps = packets (pst (dout a)) + 1 /\
    tx_idle a' /\ end_ (output a') <= end_ (output a) + zlen payload + 100.
Proof.
  intros Hlk Htx. pose proof Hlk as [Hbs Hk Hca Hcb Hbl Hsy Hsq].
  destruct Htx as [Hcap Hcon Hsz Hend Hout Hoe Hty [Hnk Hua] Hep Hct].
  pose proof (zlen_nonneg payload) as Hp0.
  destruct Hcap as [Hok Hcap]. assert (Hlen : buffer_len (outgoing_packet a) = 6 + zlen payload).
  { rewrite buffer_len_contents, Hcon by done. unfold zlen. cbn [length app]. lia. }
  destruct (padlen_exists (6 + zlen payload) (bsize (newkeys (dout a)))) as [padlen Hpad].
  destruct (padlen_spec (6 + zlen payload) _ _ _ ltac:(lia) Hbs Hpad) as (Hp1 & Hp2 & Hp3 & _).
  unfold packet_send2_wrapped. rewrite (linked_no_comp _ _ _ _ Hlk). rsimp.
  rewrite enc_bsize, Hlen, Hep, Hpad. rewrite buffer_ptr_contents, Hcon by done.
  change (znth 0 ([0; 0; 0; 0; 0] ++ type :: payload) 5) with type.
  cbn [set_extra_pad set_misc outgoing_packet dout rand_used newkeys].
  destruct (append_space_within NB (outgoing_packet a) padlen) as (p & og1 & Eog & Hog);
    [by split|unfold BUFFER_MAX_CHUNK; lia|unfold NB; lia|done|].
  rewrite Eog. rsimp.
  pose proof (padding_length a (Z.to_nat padlen)) as Hpl.
  destruct (match nk_enc <$> newkeys (dout a) with Some _ => _ | None => _ end) as [pad used].
  cbn [fst] in Hpl. rewrite Z2Nat.id in Hpl by lia.
  destruct (Hog pad Hpl) as (Hc1 & Hcon1 & He1). rewrite Hcon in Hcon1.
  set (og2 := mkBuffer _ _ _ _) in *. clearbody og2.
  assert (Hlen2 : buffer_len og2 = zlen payload + zlen pad + 6).
  { rewrite buffer_len_contents, Hcon1 by apply Hc1. rewrite !zlen_app. unfold zlen.
    cbn [length]. lia. }
  rewrite <- (assoc_L (++)) in Hcon1.
  destruct (write_header_contents NB og2 (zlen payload + zlen pad + 2) padlen
              [0; 0; 0; 0; 0] ((type :: payload) ++ pad) Hc1 Hcon1 eq_refl) as [Hc3 Hcon3].
  rewrite Hlen2. replace (u32 (zlen payload + zlen pad + 6 - 4)) with (zlen payload + zlen pad + 2)
    by (rewrite u32_small; lia).
  set (og3 := write_header _ _ _) in *.
  assert (Hplain : buffer_ptr og3 = plain_packet type payload pad).
  { rewrite buffer_ptr_contents, Hcon3 by apply Hc3. unfold plain_packet. by rewrite Hpl. }
  rewrite Hplain. change (dout (set_rand_used (set_extra_pad a 0) used)) with (dout a).
  change (output (set_rand_used (set_extra_pad a 0) used)) with (output a).
  change (datafellows (set_rand_used (set_extra_pad a 0) used)) with (datafellows a).
  pose proof (plain_packet_len type payload pad) as HPl.
  destruct (packet_mac_linked (dout a) db (plain_packet type payload pad) Hlk)
    as (t & da' & db' & Ema & Emb & Hlk' & Hb' & Hml & Hctx & Hctxb & Hps & Hpsb & Ht).
  rewrite Ema. rsimp.
  assert (Hmod : zlen (plain_packet type payload pad) mod bsize (newkeys (dout a)) = 0).
  { rewrite HPl, Hpl. rewrite <- Hp3. f_equal. lia. }
  assert (Hdiv : (evp_block (evp (context (dout a))) | zlen (plain_packet type payload pad))).
  { etransitivity; [exact Hbl|]. apply Z.mod_divide; [lia|done]. }
  destruct (cipher_total _ _ (plain_packet type payload pad) Hsy Hdiv) as (C & x' & EC).
  destruct (append_crypt_within NO (output a) (context da') (plain_packet type payload pad) C x')
    as (out1 & Eout & Ho1 & Hoc1 & Hoe1);
    [done|unfold BUFFER_MAX_CHUNK; lia|unfold NO in *; lia|done|by rewrite Hctx, Hca|by rewrite Hctx|].
  rewrite Eout. rsimp.
  assert (Hout2 : exists out2, match t with Some m => buffer_append out1 m | None => Ok out1 end
                    = Ok out2 /\ contents out2 = contents out1 ++ default [] t /\
                    capped NO out2 /\ end_ out2 <= end_ out1 + 64).
  { destruct t as [m|]; [|exists out1; rewrite app_nil_r; do 3 (split; [done|]); lia].
    assert (zlen m <= 64).
    { destruct (newkeys (dout a)) as [ka|], (newkeys db) as [kb|]; try done; cbn in Ht; [|lia].
      destruct Hk as (_ & _ & [Hm _] & _). unfold EVP_MAX_MD_SIZE in Hm.
      destruct (mac_enabled (nk_mac ka)); lia. }
    destruct (buffer_append_within NO out1 m) as (out2 & E2 & Hcp2 & Hc2 & He2);
      [done|unfold BUFFER_MAX_CHUNK; lia|unfold NO; lia|done|]. exists out2.
    split; [done|]. split; [done|]. split; [done|lia]. }
  destruct Hout2 as (out2 & -> & Hoc2 & Hocp2 & Hoe2). rsimp.
  destruct (count_packet_ok (datafellows a) (pst da') (zlen payload + zlen pad + 2)
              (bsize (newkeys (dout a)))) as (ps & -> & Hseq & Hcnt); [by rewrite Hps|]. rsimp.
  apply Z.eqb_neq in Hnk, Hua. rewrite Hnk, Hua. cbn [andb].
  eexists _, pad, C, x', t, da', db', ps. split; [reflexivity|].
  split; [lia|]. split; [done|]. split; [done|]. split; [done|]. split; [done|].
  split; [cbn; by rewrite Hoc2, Hoc1, (assoc_L (++))|]. split; [done|].
  rewrite Hseq, Hcnt, Hps. split; [done|]. split; [done|].
  split; [|cbn; lia]. constructor; [|done|done]. by apply buffer_clear_capped.
Qed.

(** ** Receiving *)

Definition with_input (b : conn) (cc : CipherContext) (inp ic : Buffer) : conn :=
  set_bufs (set_dir b MODE_IN (set_context (din b) cc)) inp (output b) (outgoing_packet b) ic.

Lemma take_app_zlen {A} (l k : list A) n : n = zlen l -> take (Z.to_nat n) (l ++ k) = l.
Proof. intros ->. unfold zlen. rewrite Nat2Z.id. apply take_app_length. Qed.

Lemma buffer_clear_within n b : capped n b -> capped n (buffer_clear b).
Proof. apply buffer_clear_capped. Qed.

Lemma read_first_block_ok b bs C1 R o1 x1 :
  bs = 8 \/ bs = 16 -> poll2_packet_length b = 0 ->
  buffer_ok (input b) -> contents (input b) = C1 ++ R -> zlen C1 = bs ->
  c_block_size (cc_cipher (context (din b))) = bs ->
  EVP_Cipher (evp (context (din b))) C1 = Some (o1, x1) ->
  capped NB (incoming_packet b) -> 1 + 4 <= get_u32 o1 <= 256 * 1024 ->
  exists inp ic,
    read_first_block b bs = Ok (Some (set_poll2_len
      (with_input b (mkCC (plaintext (context (din b))) x1 (cc_cipher (context (din b)))) inp ic)
      (get_u32 o1))) /\
    buffer_ok inp /\ contents inp = R /\ capped NB ic /\ contents ic = o1 /\ end_ ic <= bs.
Proof.
  intros Hbs Hpl Hok Hin HC1 Hcb EC Hcap Hlen. unfold read_first_block. rewrite Hpl.
  cbn [Z.eqb negb]. pose proof (zlen_nonneg R).
  rewrite buffer_len_contents, Hin, zlen_app by done.
  destruct (zlen C1 + zlen R <? bs) eqn:E; zbool; [lia|].
  rewrite buffer_ptr_contents, Hin, take_app_zlen by done.
  destruct (append_crypt_within NB (buffer_clear (incoming_packet b)) (context (din b)) C1 o1 x1)
    as (ic & -> & Hc & Hcon & He);
    [by apply buffer_clear_within|unfold BUFFER_MAX_CHUNK; lia|cbn; unfold NB; lia|done
    |rewrite HC1, Hcb; by apply Z.mod_same; lia|done|]. rsimp.
  rewrite buffer_clear_contents in Hcon. cbn [app] in Hcon.
  rewrite buffer_ptr_contents, Hcon by apply Hc.
  destruct ((get_u32 o1 <? 1 + 4) || (get_u32 o1 >? 256 * 1024)) eqn:E2.
  { apply orb_true_iff in E2 as [E2|E2]; zbool; lia. }
  destruct (buffer_consume_app (input b) C1 R Hok Hin) as (inp & Einp & Hok' & Hc' & _).
  rewrite HC1 in Einp. rewrite Einp. rsimp. exists inp, ic. split; [done|].
  cbn in He. by rewrite HC1 in He.
Qed.

Lemma packet_mac_context d cc data :
  packet_mac (set_context d cc) data =
  '(t, d') ← packet_mac d data; Ok (t, set_context d' cc).
Proof.
  unfold packet_mac. cbn [set_context newkeys pst]. destruct (newkeys d) as [nk|]; [|done].
  destruct (mac_enabled (nk_mac nk)); [|done].
  destruct (mac_compute _ _ _ _) as [[m mac]| |]; done.
Qed.

Lemma need_exact plen bs n :
  bs = 8 \/ bs = 16 -> 0 <= n < 2 ^ 31 -> plen + 4 = bs + n -> u32 (4 + plen - bs) = n.
Proof. intros Hbs Hn Hp. rewrite u32_small; lia. Qed.

Lemma plain_packet_app type payload pad :
  plain_packet type payload pad =
  (put_u32 (zlen payload + zlen pad + 2) ++ [zlen pad]) ++ ((type :: payload) ++ pad).
Proof. done. Qed.

(** Taking the header and the padding off a plain packet. *)
Lemma strip_packet ic type payload pad :
  capped NB ic -> contents ic = plain_packet type payload pad ->
  exists ic1 ic2 ic3,
    buffer_consume ic (4 + 1) = Ok ic1 /\ buffer_consume_end ic1 (zlen pad) = Ok ic2 /\
    buffer_get_char ic2 = Ok (type, ic3) /\ contents ic3 = payload /\ capped NB ic3.
Proof.
  intros (Hok & He & Ha) Hc. rewrite plain_packet_app in Hc.
  destruct (buffer_consume_app ic _ _ Hok Hc) as (ic1 & E1 & Hok1 & Hc1 & He1 & Ha1).
  destruct (buffer_consume_end_app ic1 _ _ Hok1 Hc1) as (ic2 & E2 & Hok2 & Hc2 & He2 & Ha2).
  assert (Hcap2 : capped NB ic2) by (split; [done|lia]).
  destruct (buffer_get_ret_app NB ic2 [type] payload Hcap2 Hc2) as (ic3 & E3 & Hc3 & Hcon3).
  exists ic1, ic2, ic3. split; [exact E1|]. split; [done|]. split; [|done].
  unfold buffer_get_char, buffer_get_char_ret. change (zlen [type]) with 1 in E3. by rewrite E3.
Qed.

Lemma read_rest_ok c bs maclen C2 rest o1 o2 x2 type payload pad t d' (M : list Z) :
  bs = 8 \/ bs = 16 ->
  contents (incoming_packet c) = o1 -> o1 ++ o2 = plain_packet type payload pad ->
  poll2_packet_length c + 4 = zlen (plain_packet type payload pad) -> zlen o1 = bs ->
  zlen C2 mod bs = 0 -> zlen payload <= 200000 -> 4 <= zlen pad <= 20 ->
  c_block_size (cc_cipher (context (din c))) = bs ->
  EVP_Cipher (evp (context (din c))) C2 = Some (o2, x2) ->
  packet_mac (din c) (plain_packet type payload pad) = Ok (t, d') ->
  M = default [] t -> match t with Some t => zlen t = maclen | None => maclen = 0 end ->
  buffer_ok (input c) -> contents (input c) = C2 ++ M ++ rest ->
  capped NB (incoming_packet c) -> end_ (incoming_packet c) <= bs ->
  0 <= packets (pst (din c)) < 2 ^ 32 - 1 -> pst d' = pst (din c) -> 0 <= maclen <= 64 ->
  (forall (b : conn) f, match nk_comp <$> newkeys (din c) with
     | Some comp => if comp_enabled comp then f else Ok b | None => Ok b end = Ok b) ->
  SSH2_MSG_MIN <= type < SSH2_MSG_LOCAL_MIN ->
  type <> SSH2_MSG_NEWKEYS -> type <> SSH2_MSG_USERAUTH_SUCCESS ->
  (t = None -> d' = din c) ->
  exists c' ps,
    read_rest c bs maclen = Ok (type, seqnr (pst (din c)), c') /\
    contents (incoming_packet c') = payload /\ capped NB (incoming_packet c') /\
    contents (input c') = rest /\ buffer_ok (input c') /\ poll2_packet_length c' = 0 /\
    din c' = set_pst (set_context d' (mkCC (plaintext (context (din c))) x2
                                       (cc_cipher (context (din c))))) ps /\
    seqnr ps = u32 (seqnr (pst (din c)) + 1) /\ packets ps = packets (pst (din c)) + 1.
Proof.
  intros Hbs Hic Ho Hpl Ho1 HC2 Hsz Hpad Hcb EC Hmac HM Ht Hok Hin Hcap Hend Hct Hps Hml
    Hcomp Hty Hnk Hua HtN.
  pose proof (zlen_nonneg payload). pose proof (plain_packet_len type payload pad) as HPl.
  pose proof (cipher_length _ _ _ _ EC) as HlC.
  assert (HzC : zlen C2 = zlen (plain_packet type payload pad) - bs).
  { rewrite <- Ho, zlen_app, Ho1. unfold zlen. lia. }
  unfold read_rest. pose proof (zlen_nonneg C2). pose proof (zlen_nonneg rest).
  rewrite (need_exact _ _ (zlen C2)) by lia. rewrite HC2. cbn [negb Z.eqb].
  assert (HMl : zlen M = maclen) by (subst M; destruct t; cbn; [done|by rewrite Ht]).
  rewrite buffer_len_contents, Hin, !zlen_app by done.
  destruct (_ <? u32 (zlen C2 + maclen)) eqn:E; zbool.
  { rewrite u32_small in E by lia. lia. }
  rewrite buffer_ptr_contents, Hin, take_app_zlen by done.
  destruct (append_crypt_within NB (incoming_packet c) (context (din c)) C2 o2 x2)
    as (ic & -> & Hc & Hcon & He);
    [done|unfold BUFFER_MAX_CHUNK; lia|unfold NB in *; lia|done|by rewrite Hcb|done|]. rsimp.
  rewrite Hic, Ho in Hcon.
  destruct (buffer_consume_app (input c) C2 (M ++ rest) Hok Hin) as (inp & -> & Hok' & Hc' & _).
  rsimp. set (cc2 := mkCC _ _ _). set (c1 := set_bufs _ _ _ _ _).
  assert (Hchk : exists c2, check_mac c1 maclen = Ok c2 /\ buffer_ok (input c2) /\
            contents (input c2) = rest /\ incoming_packet c2 = ic /\
            din c2 = set_context d' cc2 /\ datafellows c2 = datafellows c).
  { unfold check_mac. change (din c1) with (set_context (din c) cc2).
    change (incoming_packet c1) with ic. change (input c1) with inp.
    rewrite (buffer_ptr_contents ic), Hcon, packet_mac_context, Hmac by apply Hc. rsimp.
    destruct t as [m|]; cbn in HM; subst M.
    - rewrite buffer_ptr_contents, Hc', take_app_zlen by done.
      rewrite bool_decide_eq_true_2 by done.
      destruct (buffer_consume_app inp m rest Hok' Hc') as (inp2 & E2 & Hok2 & Hc2 & _).
      rewrite HMl in E2. rewrite E2. rsimp. eexists. split; [done|]. done.
    - eexists. split; [done|]. rewrite HtN by done. done. }
  destruct Hchk as (c2 & -> & Hok2 & Hin2 & Hic2 & Hd2 & Hdf). rsimp.
  rewrite Hd2, Hdf. cbn [set_context pst]. rewrite Hps.
  destruct (count_packet_ok (datafellows c) (pst (din c)) (poll2_packet_length c) bs Hct)
    as (ps & -> & Hseq & Hcnt). rsimp.
  change (incoming_packet (set_dir c2 MODE_IN _)) with (incoming_packet c2). rewrite Hic2.
  rewrite (buffer_ptr_contents ic), Hcon by apply Hc.
  change (znth 0 (plain_packet type payload pad) 4) with (zlen pad).
  destruct (zlen pad <? 4) eqn:E4; zbool; [lia|].
  destruct (strip_packet ic type payload pad Hc Hcon) as (ic1 & ic2 & ic3 & -> & E2 & E3 & Hp & Hcp).
  rsimp. rewrite E2. rsimp. rewrite Hcomp. rsimp.
  change (incoming_packet (set_incoming_packet _ ic2)) with ic2. rewrite E3. rsimp.
  destruct ((type <? SSH2_MSG_MIN) || (type >=? SSH2_MSG_LOCAL_MIN)) eqn:E5.
  { apply orb_true_iff in E5 as [E5|E5]; zbool; lia. }
  apply Z.eqb_neq in Hnk, Hua. rewrite Hnk, Hua. cbn [andb]. rsimp.
  eexists _, ps. split; [reflexivity|]. done.
Qed.

(** The receiver between two packets. *)
Record rx_ready (b : conn) : Prop := {
  rx_in : buffer_ok (input b);
  rx_cap : capped NB (incoming_packet b);
  rx_idle : poll2_packet_length b = 0;
  rx_count : 0 <= packets (pst (din b)) < 2 ^ 32 - 1
}.

Lemma prefix_header o1 o2 L r :
  o1 ++ o2 = put_u32 L ++ r -> 4 <= zlen o1 -> 0 <= L < 2 ^ 32 -> get_u32 o1 = L.
Proof.
  intros E Hl HL. assert (Hp : o1 = put_u32 L ++ drop 4 o1).
  { rewrite <- (take_drop 4 o1) at 1. f_equal.
    assert (Ht : take 4 (o1 ++ o2) = take 4 (put_u32 L ++ r)) by by rewrite E.
    rewrite take_app_le in Ht by (unfold zlen in Hl; lia). exact Ht. }
  rewrite Hp. by apply get_u32_put_app.
Qed.

(** The receiver's cipher sees the packet in two pieces, the first block and
    the rest. *)
Lemma split_decrypt d C P d' bs :
  EVP_Cipher d C = Some (P, d') -> (evp_block d | bs) -> 0 < bs -> zlen P mod bs = 0 -> bs <= zlen P ->
  exists C1 C2 o1 o2 d1, C = C1 ++ C2 /\ zlen C1 = bs /\ zlen C2 mod bs = 0 /\
    P = o1 ++ o2 /\ zlen o1 = bs /\
    EVP_Cipher d C1 = Some (o1, d1) /\ EVP_Cipher d1 C2 = Some (o2, d').
Proof.
  intros EC Hb Hpos Hm Hle. pose proof (cipher_length _ _ _ _ EC) as HlC.
  rewrite <- (take_drop (Z.to_nat bs) C) in EC.
  assert (H1 : zlen (take (Z.to_nat bs) C) = bs) by (unfold zlen in *; rewrite length_take; lia).
  assert (H2 : zlen (drop (Z.to_nat bs) C) = zlen P - bs)
    by (unfold zlen in *; rewrite length_drop; lia).
  assert (H3 : zlen (drop (Z.to_nat bs) C) mod bs = 0).
  { rewrite H2, <- (Z_mod_plus_full _ 1 bs). by rewrite Z.mul_1_l, Z.sub_add. }
  destruct (cipher_chunks _ _ _ _ _ ltac:(by rewrite H1)
              ltac:(etransitivity; [exact Hb|apply Z.mod_divide; [lia|exact H3]]) EC)
    as (o1 & d1 & o2 & E1 & E2 & ->).
  exists (take (Z.to_nat bs) C), (drop (Z.to_nat bs) C), o1, o2, d1. rewrite take_drop.
  repeat split; try done. pose proof (cipher_length _ _ _ _ E1). unfold zlen in *. lia.
Qed.

(** What [dirs_linked] says about the receiving end alone. *)
Record dirs_linked_in (d : dirst) : Prop := {
  li_bs : bsize (newkeys d) = 8 \/ bsize (newkeys d) = 16;
  li_ctx : c_block_size (cc_cipher (context d)) = bsize (newkeys d);
  li_block : (evp_block (evp (context d)) | bsize (newkeys d));
  li_comp : match newkeys d with Some nk => comp_enabled (nk_comp nk) = false | None => True end;
  li_mac : 0 <= maclen_of (newkeys d) <= 64
}.

Lemma dirs_linked_right da db : dirs_linked da db -> dirs_linked_in db.
Proof.
  intros [Hbs Hk Hca Hcb Hbl Hsy Hsq]. destruct (keys_match_bsize _ _ Hk) as [Hb Hm].
  rewrite Hb in *. rewrite (sync_block _ _ Hsy) in Hbl.
  assert (Hml : 0 <= maclen_of (newkeys db) <= 64).
  { rewrite <- Hm. destruct (newkeys da) as [ka|], (newkeys db) as [kb|]; try done.
    destruct Hk as (_ & _ & [Hr _] & _). cbn. unfold EVP_MAX_MD_SIZE in Hr.
    destruct (mac_enabled _); lia. }
  constructor; try done. destruct (newkeys da), (newkeys db); try done. by destruct Hk as (_&_&_&_&?).
Qed.

(** Receiving exactly what was sent: the wire bytes are the encrypted packet
    followed by its MAC. *)
Lemma receive_spec b type payload pad C d' t db' rest :
  dirs_linked_in (din b) -> rx_ready b ->
  SSH2_MSG_MIN <= type < SSH2_MSG_LOCAL_MIN ->
  type <> SSH2_MSG_NEWKEYS /\ type <> SSH2_MSG_USERAUTH_SUCCESS ->
  zlen payload <= 200000 -> 4 <= zlen pad <= 20 ->
  zlen (plain_packet type payload pad) mod bsize (newkeys (din b)) = 0 ->
  EVP_Cipher (evp (context (din b))) C = Some (plain_packet type payload pad, d') ->
  packet_mac (din b) (plain_packet type payload pad) = Ok (t, db') -> pst db' = pst (din b) ->
  match t with Some t => zlen t = maclen_of (newkeys (din b)) | None => maclen_of (newkeys (din b)) = 0 end ->
  contents (input b) = C ++ default [] t ++ rest ->
  exists b' ps, packet_read_poll2 b = Ok (type, seqnr (pst (din b)), b') /\
    contents (incoming_packet b') = payload /\ contents (input b') = rest  /\
    poll2_packet_length b' = 0 /\ buffer_ok (input b') /\ capped NB (incoming_packet b') /\
    din b' = set_pst (set_context db' (mkCC (plaintext (context (din b))) d'
                                       (cc_cipher (context (din b))))) ps /\
    seqnr ps = u32 (seqnr (pst (din b)) + 1) /\ packets ps = packets (pst (din b)) + 1.
Proof.
  intros [Hbs Hcb Hbl Hnc Hml] [Hok Hcap Hid Hct] Hty [Hnk Hua] Hsz Hpad Hmod EC Hmac Hps Ht Hin.
  set (P := plain_packet type payload pad) in *. pose proof (zlen_nonneg payload).
  assert (HPl : zlen P = zlen payload + zlen pad + 6) by apply plain_packet_len.
  destruct (split_decrypt _ _ _ _ _ EC Hbl ltac:(lia) Hmod) as
    (C1 & C2 & o1 & o2 & d1 & -> & HC1 & HC2 & Ho & Ho1 & E1 & E2).
  { assert (0 < zlen P) by lia. apply Z.divide_pos_le; [done|]. apply Z.mod_divide; [lia|done]. }
  assert (Hlen : get_u32 o1 = zlen payload + zlen pad + 2).
  { eapply prefix_header; [|lia|lia]. rewrite <- Ho. unfold P, plain_packet.
    by rewrite <- (assoc_L (++)). }
  rewrite <- !(assoc_L (++)) in Hin.
  destruct (read_first_block_ok b _ C1 (C2 ++ default [] t ++ rest) o1 d1 Hbs Hid Hok Hin HC1 Hcb E1 Hcap)
    as (inp & ic & E & Hok1 & Hin1 & Hcap1 & Hic1 & He1); [lia|].
  unfold packet_read_poll2. fold (bsize (newkeys (din b))) (maclen_of (newkeys (din b))).
  rewrite E. rsimp. set (c := set_poll2_len _ _).
  destruct (read_rest_ok c (bsize (newkeys (din b))) (maclen_of (newkeys (din b))) C2 rest o1 o2 d'
    type payload pad t (set_context db' (context (din c))) (default [] t))
    as (b' & ps & Er & H1 & H2 & H3 & H4 & H5 & H6 & H7); try done.
  - cbn [c set_poll2_len set_misc poll2_packet_length]. fold P. lia.
  - change (din c) with (set_context (din b) (context (din c))).
    rewrite packet_mac_context. fold P. by rewrite Hmac.
  - intros ? ?. cbn [c set_poll2_len set_misc with_input set_bufs set_dir din set_context newkeys].
    destruct (newkeys (din b)); [|done]. cbn. by rewrite Hnc.
  - intros ->. unfold packet_mac in Hmac. change (din c) with (set_context (din b) (context (din c))).
    f_equal. destruct (newkeys (din b)) as [nk|]; [|by invc Hmac].
    destruct (mac_enabled (nk_mac nk)); [|by invc Hmac].
    by destruct (mac_compute _ _ _ _) as [[]| |].
  - exists b', ps. split; [exact Er|]. done.
Qed.

(** One packet, sent and received, with what the next one needs. *)
Lemma packet_transfer a db type payload :
  dirs_linked (dout a) db -> tx_ready a type payload ->
  exists a' w, packet_send2_wrapped a = Ok a' /\ contents (output a') = contents (output a) ++ w /\
    tx_idle a' /\ end_ (output a') <= end_ (output a) + zlen payload + 100 /\
    packets (pst (dout a')) = packets (pst (dout a)) + 1 /\
    exists db', dirs_linked (dout a') db' /\ seqnr (pst db') = u32 (seqnr (pst db) + 1) /\
    forall b rest, din b = db -> rx_ready b -> contents (input b) = w ++ rest ->
    exists b' ps, packet_read_poll2 b = Ok (type, seqnr (pst db), b') /\
      contents (incoming_packet b') = payload /\ contents (input b') = rest /\
      din b' = set_pst db' ps /\ seqnr ps = seqnr (pst db') /\
      packets ps = packets (pst (din b)) + 1 /\
      poll2_packet_length b' = 0 /\ buffer_ok (input b') /\ capped NB (incoming_packet b').
Proof.
  intros Hlk Htx. pose proof Htx as [_ _ Hsz _ _ _ Hty Hpl _ _].
  destruct (send_spec a db type payload Hlk Htx)
    as (a' & pad & C & x' & t & da' & db' & ps & Es & Hpad & Hmod & EC & Ema & Emb & Hout & Hd & Hs & Hn & Hti & He).
  destruct (packet_mac_linked _ _ (plain_packet type payload pad) Hlk)
    as (t0 & da0 & db0 & Ema0 & Emb0 & Hlk' & Hb' & Hml & Hctx & Hctxb & Hps & Hpsb & Ht).
  rewrite Ema in Ema0. rewrite Emb in Emb0. invc Ema0. invc Emb0.
  pose proof Hlk as [Hbs Hk Hca Hcb Hbl Hsy Hsq].
  assert (Hdiv : (evp_block (evp (context (dout a))) | zlen (plain_packet type payload pad)))
    by (etransitivity; [exact Hbl|apply Z.mod_divide; [lia|done]]).
  destruct (decrypt_encrypt _ _ _ _ _ Hsy Hdiv EC) as (d' & ED & Hsy').
  destruct (keys_match_bsize _ _ Hk) as [Hbb Hmm].
  exists a', (C ++ default [] t0). do 4 (split; [done|]). split; [by rewrite Hd|].
  exists (set_pst (set_context db0 (mkCC (plaintext (context db)) d' (cc_cipher (context db))))
            (mkPS (u32 (seqnr (pst db) + 1)) 0 0 0)). split.
  - rewrite Hd. destruct Hlk' as [Hbs1 Hk1 Hca1 Hcb1 Hbl1 Hsy1 Hsq1].
    constructor; cbn [set_pst set_context newkeys context pst evp cc_cipher seqnr]; try done.
    + congruence.
    + rewrite (cipher_block _ _ _ _ EC), <- Hctx. done.
    + by rewrite Hs, Hsq.
  - split; [done|]. intros b rest <- Hrx Hin. rewrite <- (assoc_L (++)) in Hin.
    destruct (receive_spec b type payload pad C d' t0 db0 rest
      (dirs_linked_right _ _ Hlk) Hrx Hty Hpl Hsz Hpad) as (b' & ps' & Er & H1 & H2 & H3 & H4 & H5 & H6 & H7 & H8);
      try done; [by rewrite <- Hbb|by rewrite <- Hmm|].
    exists b', ps'. do 3 (split; [done|]). by rewrite H6.
Qed.

(** *** A stream of packets *)

(** The calls a sender makes for every packet. *)
Definition send_packet (c : conn) (p : Z * list Z) : res conn :=
  c ← (c ← packet_start c (fst p); packet_put_raw c (snd p)); packet_send2_wrapped c.

Fixpoint send_packets (c : conn) (ps : list (Z * list Z)) : res conn :=
  match ps with
  | [] => Ok c
  | p :: ps => c ← send_packet c p; send_packets c ps
  end.

(** [n] packets as the reader gets them: type, sequence number, payload. *)
Fixpoint read_packets (n : nat) (c : conn) : res (list (Z * Z * list Z) * conn) :=
  match n with
  | O => Ok ([], c)
  | S n =>
      '(type, seq, c) ← packet_read_poll2 c;
      '(l, c') ← read_packets n c;
      Ok ((type, seq, packet_get_raw c) :: l, c')
  end.

Definition ordinary (p : Z * list Z) : Prop :=
  SSH2_MSG_MIN <= fst p < SSH2_MSG_LOCAL_MIN /\ fst p <> SSH2_MSG_NEWKEYS /\
  fst p <> SSH2_MSG_USERAUTH_SUCCESS /\ zlen (snd p) <= 200000.

Definition wire_bound (ps : list (Z * list Z)) : Z :=
  foldr (fun p n => zlen (snd p) + 100 + n) 0 ps.

(** The packets with the sequence numbers they get. *)
Fixpoint numbered (seq : Z) (ps : list (Z * list Z)) : list (Z * Z * list Z) :=
  match ps with
  | [] => []
  | (type, payload) :: ps => (type, seq, payload) :: numbered (u32 (seq + 1)) ps
  end.

Lemma build_packet a type payload :
  tx_idle a -> ordinary (type, payload) -> end_ (output a) <= 3600000 ->
  0 <= packets (pst (dout a)) < 2 ^ 32 - 1 ->
  exists a1, (c ← packet_start a type; packet_put_raw c payload) = Ok a1 /\
    tx_ready a1 type payload /\ output a1 = output a /\ dout a1 = dout a.
Proof.
  intros [Hcap Hout Hpad] (Hty & Hnk & Hua & Hsz) He Hct. cbn in *.
  unfold packet_start, packet_put_raw. rewrite (u8_small type) by (unfold SSH2_MSG_MIN, SSH2_MSG_LOCAL_MIN in *; lia).
  destruct (buffer_append_within NB (buffer_clear (outgoing_packet a)) ([0; 0; 0; 0; 0] ++ [type]))
    as (b1 & -> & Hc1 & Hcon1 & He1);
    [by apply buffer_clear_capped|done|done|done|]. rsimp. cbn in He1.
  change (zlen [0; 0; 0; 0; 0; type]) with 6 in He1.
  cbn [set_outgoing_packet set_bufs outgoing_packet].
  destruct (buffer_append_within NB b1 payload) as (b2 & -> & Hc2 & Hcon2 & He2);
    [done|unfold BUFFER_MAX_CHUNK; lia|unfold NB; lia|done|]. rsimp.
  eexists. split; [done|]. split; [|done]. constructor; try done.
  - cbn. by rewrite Hcon2, Hcon1, buffer_clear_contents.
  - cbn. lia.
Qed.

Lemma dirs_linked_pst da db ps :
  dirs_linked da db -> seqnr ps = seqnr (pst db) -> dirs_linked da (set_pst db ps).
Proof. intros [] Hs. constructor; try done. cbn. by rewrite Hs. Qed.

Lemma wire_bound_nonneg ps : 0 <= wire_bound ps.
Proof. induction ps as [|p ps IH]; cbn; [done|]. pose proof (zlen_nonneg (snd p)). fold (wire_bound ps). lia. Qed.

(** The receiver's side of the induction, as a predicate on the wire bytes. *)
Definition delivers (db : dirst) (w : list Z) (ps : list (Z * list Z)) (da' : dirst) : Prop :=
  forall b rest, din b = db -> rx_ready b -> packets (pst db) + zlen ps < 2 ^ 32 - 1 ->
    contents (input b) = w ++ rest ->
    exists b', read_packets (length ps) b = Ok (numbered (seqnr (pst db)) ps, b') /\
      contents (input b') = rest /\ dirs_linked da' (din b') /\ rx_ready b'.

Lemma stream_transfer ps : forall a db,
  dirs_linked (dout a) db -> tx_idle a -> Forall ordinary ps ->
  end_ (output a) + wire_bound ps <= 3600000 ->
  0 <= packets (pst (dout a)) -> packets (pst (dout a)) + zlen ps < 2 ^ 32 - 1 ->
  exists a' w, send_packets a ps = Ok a' /\ contents (output a') = contents (output a) ++ w /\
    delivers db w ps (dout a').
Proof.
  induction ps as [|[type payload] ps IH]; intros a db Hlk Hti Ho He Hp0 Hp.
  { exists a, []. rewrite app_nil_r. split; [done|]. split; [done|].
    intros b rest <- Hrx Hpk Hin. exists b. done. }
  apply Forall_cons in Ho as [Ho Hos]. cbn [wire_bound foldr snd] in He. fold (wire_bound ps) in He.
  pose proof (wire_bound_nonneg ps) as Hw. pose proof (zlen_nonneg payload).
  assert (Hz : zlen ((type, payload) :: ps) = 1 + zlen ps) by (unfold zlen; cbn [length]; lia).
  pose proof (zlen_nonneg ps). rewrite Hz in Hp.
  destruct (build_packet a type payload Hti Ho ltac:(lia) ltac:(lia)) as (a1 & Eb & Hr1 & Ho1 & Hd1).
  rewrite <- Hd1 in Hlk.
  destruct (packet_transfer a1 db type payload Hlk Hr1)
    as (a2 & w1 & E2 & Hc2 & Hti2 & He2 & Hp2 & db' & Hlk2 & Hsq2 & Hrecv).
  rewrite Ho1 in Hc2, He2. rewrite Hd1 in Hp2.
  destruct (IH a2 db' Hlk2 Hti2 Hos ltac:(lia) ltac:(lia) ltac:(lia)) as (a3 & w2 & E3 & Hc3 & _).
  exists a3, (w1 ++ w2). split.
  { cbn [send_packets]. unfold send_packet. cbn [fst snd].
    rewrite Eb. rsimp. rewrite E2. rsimp. done. }
  split; [by rewrite Hc3, Hc2, (assoc_L (++))|].
  intros b rest Hdb Hrx Hpk Hin. rewrite Hz in Hpk. rewrite <- (assoc_L (++)) in Hin.
  destruct (Hrecv b (w2 ++ rest) Hdb Hrx Hin)
    as (b1 & ps1 & Er & Hpay & Hin1 & Hdb1 & Hsq1 & Hpk1 & Hid1 & Hok1 & Hcap1).
  destruct (IH a2 (din b1)) as (a3' & w2' & E3' & Hc3' & Hdel); try done; try lia.
  { rewrite Hdb1. by apply dirs_linked_pst. }
  rewrite E3 in E3'. injection E3' as <-. rewrite Hc3 in Hc3'. apply app_inv_head in Hc3' as <-.
  rewrite Hdb in Hpk1. destruct Hrx as [_ _ _ Hcnt]. rewrite Hdb in Hcnt.
  destruct (Hdel b1 rest eq_refl) as (b' & Er' & Hin' & Hlk' & Hrx'); try done.
  { constructor; try done. rewrite Hdb1. cbn. lia. }
  { rewrite Hdb1. cbn. lia. }
  exists b'. split; [|done]. cbn [length read_packets]. rewrite Er. rsimp. rewrite Er'. rsimp.
  cbn [numbered]. unfold packet_get_raw. rewrite buffer_ptr_contents, Hpay by apply Hcap1.
  rewrite Hdb1. cbn [set_pst pst]. by rewrite Hsq1, Hsq2.
Qed.

(** C2: the transport is a faithful FIFO.  When the sender's outgoing and the
    receiver's incoming direction are linked, every sequence of ordinary packets
    is accepted by the sending side, and any receiver whose input starts with the
    bytes this put on the wire reads exactly those packets, in order, with
    consecutive sequence numbers; it consumes exactly those bytes and the two
    ends are linked again. *)
Theorem packet_stream_delivered a b ps :
  dirs_linked (dout a) (din b) -> tx_idle a -> Forall ordinary ps ->
  end_ (output a) + wire_bound ps <= 3600000 ->
  0 <= packets (pst (dout a)) -> packets (pst (dout a)) + zlen ps < 2 ^ 32 - 1 ->
  exists a' w, send_packets a ps = Ok a' /\ contents (output a') = contents (output a) ++ w /\
    forall inp rest, buffer_ok inp -> contents inp = w ++ rest ->
    rx_ready (set_input b inp) -> packets (pst (din b)) + zlen ps < 2 ^ 32 - 1 ->
    exists b', read_packets (length ps) (set_input b inp)
                 = Ok (numbered (seqnr (pst (din b))) ps, b') /\
      contents (input b') = rest /\ dirs_linked (dout a') (din b').
Proof.
  intros Hlk Hti Ho He Hp0 Hp.
  destruct (stream_transfer ps a (din b) Hlk Hti Ho He Hp0 Hp) as (a' & w & E & Hc & Hd).
  exists a', w. split; [done|]. split; [done|]. intros inp rest Hok Hin Hrx Hpk.
  destruct (Hd (set_input b inp) rest eq_refl Hrx Hpk Hin) as (b' & ? & ? & ? & _). by exists b'.
Qed.

(** ** Integrity *)

Lemma append_crypt_contents b cc src b' cc' :
  buffer_ok b -> append_crypt b cc src = Ok (b', cc') ->
  exists dest, EVP_Cipher (evp cc) src = Some (dest, evp cc') /\ buffer_ok b' /\
    contents b' = contents b ++ dest.
Proof.
  intros Hok E. unfold append_crypt, buffer_append_space in E. pose proof (zlen_nonneg src).
  destruct (zlen src >? BUFFER_MAX_CHUNK) eqn:El; zbool; [done|].
  destruct (buffer_rewind_spec b Hok) as (Hok0 & Hc0 & He0 & Ha0).
  destruct (append_space_restart_total (buffer_rewind b) (zlen src) Hok0 ltac:(lia))
    as [(p & b1 & Er & Hp)|(m & Er & Hb)]; rewrite Er in E; [|done].
  cbn [mbind res_bind] in E. ok_bind E. destruct a as [dest cc1]. injection E as <- <-.
  unfold cipher_crypt in E1. destruct (negb _); [done|].
  destruct (EVP_Cipher (evp cc) src) as [[d x]|] eqn:Ec; [|done]. injection E1 as <- <-.
  exists d. split; [done|]. rewrite <- Hc0.
  pose proof (cipher_length _ _ _ _ Ec). apply space_post_append.
  replace (zlen d) with (zlen src) by (unfold zlen; lia). done.
Qed.

Lemma buffer_consume_contents b n b' :
  buffer_ok b -> 0 <= n -> buffer_consume b n = Ok b' ->
  buffer_ok b' /\ contents b' = drop (Z.to_nat n) (contents b).
Proof.
  intros Hok Hn E. unfold buffer_consume in E. rewrite buffer_consume_ret_get in E.
  pose proof (buffer_get_ret_spec b n Hok Hn) as Hs.
  destruct (buffer_get_ret b n) as [[d b1]|]; [|done]. injection E as <-. by destruct Hs as (_&_&?&?&_).
Qed.

Lemma mac_compute_len mac seq data n t mac' :
  mac_compute mac seq data n = Ok (t, mac') -> mac_len mac' = mac_len mac.
Proof.
  unfold mac_compute. destruct (_ >? _); [done|]. destruct (_ =? SSH_EVP).
  { destruct (mac_evp_ctx mac) as [[]|]; [|done]. by intros [= <- <-]. }
  destruct (_ =? SSH_UMAC); [|done]. destruct (mac_umac_ctx mac) as [ctx|]; [|done].
  destruct (umac _ _ _). by intros [= <- <-].
Qed.

(** [check_mac] succeeds only when the next [maclen] bytes of the input are the MAC. *)
Lemma check_mac_sound c nk maclen c' :
  newkeys (din c) = Some nk -> mac_enabled (nk_mac nk) = true -> mac_len (nk_mac nk) = maclen ->
  buffer_ok (input c) -> check_mac c maclen = Ok c' ->
  exists m mac, mac_compute (nk_mac nk) (seqnr (pst (din c))) (buffer_ptr (incoming_packet c))
                  EVP_MAX_MD_SIZE = Ok (m, mac) /\
    take (Z.to_nat maclen) m = take (Z.to_nat maclen) (contents (input c)) /\
    pst (din c') = pst (din c).
Proof.
  intros Hnk Hen Hlen Hok E. unfold check_mac, packet_mac in E. rewrite Hnk, Hen in E.
  ok_bind E. destruct a as [t d]. ok_bind E1. destruct a as [m mac]. injection E1 as <- <-.
  rewrite (mac_compute_len _ _ _ _ _ _ E0), Hlen in E.
  destruct (bool_decide _) eqn:Eb in E; [|done]. apply bool_decide_eq_true in Eb.
  ok_bind E. injection E as <-. exists m, mac. rewrite buffer_ptr_contents in Eb by done.
  split; [done|]. done.
Qed.

(** C5: integrity.  With a MAC in force, [packet_read_poll2]'s second half
    delivers a packet only if the [mac_len] bytes that follow it on the wire are
    the MAC of this connection's key over the running sequence number and the
    decrypted packet; any other bytes end the connection. *)
Theorem delivered_packets_authentic c bs maclen nk type seq c' :
  newkeys (din c) = Some nk -> mac_enabled (nk_mac nk) = true -> mac_len (nk_mac nk) = maclen ->
  buffer_ok (input c) -> buffer_ok (incoming_packet c) ->
  read_rest c bs maclen = Ok (type, seq, c') -> type <> SSH_MSG_NONE ->
  let need := Z.to_nat (u32 (4 + poll2_packet_length c - bs)) in
  exists tail x m mac,
    EVP_Cipher (evp (context (din c))) (take need (contents (input c))) = Some (tail, x) /\
    mac_compute (nk_mac nk) seq (contents (incoming_packet c) ++ tail) EVP_MAX_MD_SIZE = Ok (m, mac) /\
    take (Z.to_nat maclen) m = take (Z.to_nat maclen) (drop need (contents (input c))) /\
    seq = seqnr (pst (din c)).
Proof.
  intros Hnk Hen Hlen Hok Hic E Hty need. unfold read_rest in E. fold need in E.
  destruct (negb (_ =? 0)) in E; [done|]. destruct (_ <? _) in E; [by injection E as <- <- <-|].
  ok_bind E. destruct a as [ic cc]. ok_bind E. rename a into inp. ok_bind E. rename a into c2.
  ok_bind E.
  destruct (append_crypt_contents _ _ _ _ _ Hic E1) as (tail & Ec & Hic' & Hcon).
  rewrite buffer_ptr_contents in Ec by done.
  destruct (buffer_consume_contents _ _ _ Hok (proj1 (u32_range _)) E0) as [Hok' Hin].
  edestruct check_mac_sound as (m & mac & Em & Ht & Hp); [..|exact E2|]; try done.
  cbn [set_bufs set_dir set_context din pst incoming_packet input] in *.
  rewrite buffer_ptr_contents, Hcon in Em by done. fold need in Hin. rewrite Hin in Ht.
  exists tail, (evp cc), m, mac. split; [done|].
  assert (Hseq : seq = seqnr (pst (din c2))).
  { destruct (_ <? 4) in E; [done|]. do 4 (ok_bind E). destruct a3 as [ty ic3].
    destruct (_ || _) in E; [done|]. ok_bind E. by injection E as _ <- _. }
  rewrite Hseq, Hp. done.
Qed.

(** ** Lengths and termination *)

(** No length underflow.  For the block sizes of the cipher table and a
    packet length that passed the first check, the 32-bit subtraction that
    computes how much of the packet is still missing either does not wrap, or the
    connection is ended before the result is used. *)
Theorem need_never_wraps c bs maclen :
  bs = 8 \/ bs = 16 -> 1 + 4 <= poll2_packet_length c <= 256 * 1024 ->
  read_rest c bs maclen = Fatal "Bad packet length" \/
  (u32 (4 + poll2_packet_length c - bs) = 4 + poll2_packet_length c - bs /\
   (4 + poll2_packet_length c) mod bs = 0).
Proof.
  intros Hbs Hpl. unfold read_rest.
  destruct (negb (u32 _ mod bs =? 0)) eqn:E; [by left|right]. zbool. unfold u32 in *.
  destruct Hbs as [-> | ->]; Z.div_mod_to_equations; lia.
Qed.

(** What switching keys and compression leaves alone. *)
Definition same_io (c c' : conn) : Prop :=
  input c' = input c /\ output c' = output c /\ outgoing c' = outgoing c /\
  send2_rekeying c' = send2_rekeying c /\ incoming_packet c' = incoming_packet c /\
  outgoing_packet c' = outgoing_packet c /\ poll2_packet_length c' = poll2_packet_length c.

Lemma enable_compression_io c mode nk c' : enable_compression c mode nk = Ok c' -> same_io c c'.
Proof.
  unfold enable_compression, packet_init_compression. intros E.
  ok_bind E. injection E as <-. destruct mode, (compression_buffer_ready c); by injection E1 as <-.
Qed.

Lemma set_newkeys_io c mode c' : set_newkeys c mode = Ok c' -> same_io c c'.
Proof.
  unfold set_newkeys, kex_get_newkeys. intros E.
  destruct (current_keys _) as [nk|]; [|done]. ok_bind E. destruct a as [ok mac]. ok_bind E.
  destruct (_ && _) in E.
  - apply enable_compression_io in E. destruct mode; exact E.
  - injection E as <-. by destruct mode.
Qed.

Lemma same_io_trans a b c : same_io a b -> same_io b c -> same_io a c.
Proof. unfold same_io. intuition congruence. Qed.

Lemma enable_delayed_io c mode c' : enable_delayed c mode = Ok c' -> same_io c c'.
Proof.
  unfold enable_delayed. destruct (newkeys _) as [nk|]; [|by intros [= <-]].
  destruct (_ && _); [apply enable_compression_io|by intros [= <-]].
Qed.

Lemma packet_enable_delayed_compress_io c c' : packet_enable_delayed_compress c = Ok c' -> same_io c c'.
Proof.
  unfold packet_enable_delayed_compress. intros E. ok_bind E.
  eapply same_io_trans; [|eapply enable_delayed_io; exact E].
  apply (same_io_trans _ (set_after_auth c true)); [done|]. by eapply enable_delayed_io.
Qed.

(** The measure that bounds the polling loop. *)
Definition pending (c : conn) : nat :=
  Z.to_nat (buffer_len (input c)) + if poll2_packet_length c =? 0 then 0 else 1.

(** Consuming leaves the end of the data and the allocation alone. *)
Definition same_end (b b' : Buffer) : Prop := end_ b' = end_ b /\ alloc b' = alloc b.

Lemma buffer_consume_end_same b n b' : buffer_consume b n = Ok b' -> same_end b b'.
Proof.
  unfold buffer_consume, buffer_consume_ret. destruct (_ >? _); [done|]. by intros [= <-].
Qed.

Lemma check_mac_io c maclen c' :
  buffer_ok (input c) -> 0 <= maclen -> check_mac c maclen = Ok c' ->
  buffer_ok (input c') /\ zlen (contents (input c')) <= zlen (contents (input c)) /\
  same_end (input c) (input c').
Proof.
  intros Hok Hm E. unfold check_mac in E. ok_bind E. destruct a as [[m|] d].
  - destruct (bool_decide _); [|done]. ok_bind E. injection E as <-.
    destruct (buffer_consume_contents _ _ _ Hok Hm E0) as [? Hc]. split; [done|].
    cbn. rewrite Hc. split; [unfold zlen; rewrite length_drop; lia|]. by eapply buffer_consume_end_same.
  - by injection E as <-.
Qed.

(** A property of the sizes (block and MAC) of the key sets in force and waiting for
    NEWKEYS. *)
Definition key_dims (nk : Newkeys) : Z * Z := (enc_block_size (nk_enc nk), mac_len (nk_mac nk)).
Definition dir_all (P : Z * Z -> Prop) (d : dirst) : Prop :=
  (forall nk, newkeys d = Some nk -> P (key_dims nk)) /\
  (forall nk, current_keys d = Some nk -> P (key_dims nk)).

(** Sizes that make sense. *)
Definition sane (p : Z * Z) : Prop := 0 < p.1 /\ 0 <= p.2.
Abbreviation dir_sane := (dir_all sane).

Lemma dir_sane_sizes d : dir_sane d -> 0 < bsize (newkeys d) /\ 0 <= maclen_of (newkeys d).
Proof.
  intros [Hn _]. destruct (newkeys d) as [nk|]; [|done]. destruct (Hn nk eq_refl). cbn.
  by destruct (mac_enabled _).
Qed.

Lemma mac_init_len mac ok mac' : mac_init mac = Ok (ok, mac') -> mac_len mac' = mac_len mac.
Proof.
  unfold mac_init. destruct (mac_key mac); [|done]. destruct (_ =? SSH_EVP).
  { destruct (mac_evp_md mac); by intros [= <- <-]. }
  destruct (_ =? SSH_UMAC); by intros [= <- <-].
Qed.

Lemma enable_compression_sane P c mode nk c' :
  enable_compression c mode nk = Ok c' -> newkeys (get_dir c mode) = Some nk ->
  dir_all P (din c) -> dir_all P (din c').
Proof.
  unfold enable_compression, packet_init_compression. intros E Hnk Hs. ok_bind E. injection E as <-.
  assert (Hd : get_dir a mode = get_dir c mode /\ din a = din c)
    by (destruct mode, (compression_buffer_ready c); by injection E1 as <-).
  destruct Hd as [Hd Hi]. destruct mode; cbn in *; [|by rewrite Hi]. rewrite Hi in *.
  destruct Hs as [Hs1 Hs2]. split; [|exact Hs2]. cbn. intros ? [= <-]. exact (Hs1 nk Hnk).
Qed.

Lemma set_newkeys_sane P c c' : set_newkeys c MODE_IN = Ok c' -> dir_all P (din c) -> dir_all P (din c').
Proof.
  unfold set_newkeys, kex_get_newkeys. cbn [get_dir]. intros E [Hs1 Hs2].
  cbn [current_keys set_pst] in E.
  destruct (current_keys (din c)) as [nk|] eqn:Ek; [|done]. ok_bind E. destruct a as [ok mac].
  ok_bind E. specialize (Hs2 nk eq_refl). set (nk' := mkNewkeys _ _ _) in E.
  assert (Hsane : P (key_dims nk')).
  { unfold key_dims, nk' in *. cbn. apply mac_init_len in E1. destruct ok; cbn; by rewrite E1. }
  destruct (_ && _) in E.
  - apply (enable_compression_sane P) in E; [done|done|]. split; cbn; [by intros ? [= <-]|done].
  - injection E as <-. split; cbn; [by intros ? [= <-]|done].
Qed.

Lemma enable_delayed_sane P c mode c' :
  enable_delayed c mode = Ok c' -> dir_all P (din c) -> dir_all P (din c').
Proof.
  unfold enable_delayed. destruct (newkeys (get_dir c mode)) as [nk|] eqn:En; [|by intros [= <-]].
  destruct (_ && _); [|by intros [= <-]]. intros E. by eapply enable_compression_sane.
Qed.

Lemma packet_enable_delayed_compress_sane P c c' :
  packet_enable_delayed_compress c = Ok c' -> dir_all P (din c) -> dir_all P (din c').
Proof.
  unfold packet_enable_delayed_compress. intros E Hs. ok_bind E.
  eapply enable_delayed_sane; [exact E|]. by eapply enable_delayed_sane.
Qed.

Lemma packet_mac_sane P d data t d' : packet_mac d data = Ok (t, d') -> dir_all P d -> dir_all P d'.
Proof.
  unfold packet_mac. destruct (newkeys d) as [nk|] eqn:En; [|by intros [= <- <-]].
  destruct (mac_enabled _); [|by intros [= <- <-]]. intros E [Hs1 Hs2]. ok_bind E.
  destruct a as [m mac]. injection E as <- <-. split; [|exact Hs2].
  cbn. rewrite En. intros ? [= <-]. unfold key_dims. cbn.
  rewrite (mac_compute_len _ _ _ _ _ _ E1). exact (Hs1 nk En).
Qed.

Lemma check_mac_sane P c maclen c' :
  check_mac c maclen = Ok c' -> dir_all P (din c) -> dir_all P (din c').
Proof.
  intros E Hs. unfold check_mac in E. ok_bind E. destruct a as [[m|] d].
  - destruct (bool_decide _); [|done]. ok_bind E. injection E as <-. cbn. by eapply packet_mac_sane.
  - by injection E as <-.
Qed.

(** The state between two turns of the polling loop. *)
Definition poll_all (P : Z * Z -> Prop) (c : conn) : Prop := buffer_ok (input c) /\ dir_all P (din c).
Abbreviation poll_ok := (poll_all sane).

Lemma post_packet_ok P c ty c' :
  (if ty =? SSH2_MSG_NEWKEYS then set_newkeys c MODE_IN
   else if (ty =? SSH2_MSG_USERAUTH_SUCCESS) && negb server_side
        then packet_enable_delayed_compress c else Ok c) = Ok c' ->
  dir_all P (din c) -> input c' = input c /\ dir_all P (din c').
Proof.
  intros E Hs. destruct (_ =? _).
  - split; [by apply set_newkeys_io in E as [? _]|by eapply set_newkeys_sane].
  - destruct (_ && _); [|by injection E as <-].
    split; [by apply packet_enable_delayed_compress_io in E as [? _]|].
    by eapply packet_enable_delayed_compress_sane.
Qed.

Lemma uncompress_incoming_frame c c' :
  uncompress_incoming c = Ok c' -> input c' = input c /\ din c' = din c.
Proof.
  unfold uncompress_incoming. destruct (incoming_stream c); [|done]. intros E.
  ok_bind E. destruct a as [zs cb]. ok_bind E. by injection E as <-.
Qed.

Lemma read_rest_progress P c bs maclen type seq c' :
  poll_all P c -> 0 <= maclen -> read_rest c bs maclen = Ok (type, seq, c') -> type <> SSH_MSG_NONE ->
  poll_all P c' /\ poll2_packet_length c' = 0 /\ zlen (contents (input c')) <= zlen (contents (input c)) /\
  same_end (input c) (input c').
Proof.
  intros [Hok Hs] Hm E Hty. unfold read_rest in E.
  destruct (negb (_ =? 0)) in E; [done|]. destruct (_ <? _) in E; [by injection E as <- <- <-|].
  ok_bind E. destruct a as [ic cc]. ok_bind E. rename a into inp. ok_bind E. rename a into c2.
  ok_bind E. destruct (_ <? 4) in E; [done|]. ok_bind E. ok_bind E. ok_bind E. rename a2 into c3.
  ok_bind E. destruct a2 as [ty ic3]. destruct (_ || _) in E; [done|]. ok_bind E.
  injection E as <- <- <-.
  destruct (buffer_consume_contents _ _ _ Hok (proj1 (u32_range _)) E0) as [Hok1 Hin1].
  pose proof (check_mac_sane _ _ _ _ E2 Hs) as Hs2.
  edestruct check_mac_io as (Hok2 & Hin2 & Hend2); [|exact Hm|exact E2|]; [exact Hok1|].
  cbn [set_bufs input] in Hin2. rewrite Hin1 in Hin2. unfold zlen in Hin2 at 2. rewrite length_drop in Hin2.
  assert (H3 : input c3 = input c2 /\ dir_all P (din c3)).
  { destruct (nk_comp <$> _) as [comp|] in E6; [|by injection E6 as <-].
    destruct (comp_enabled comp); [|by injection E6 as <-].
    apply uncompress_incoming_frame in E6 as [-> ->]. done. }
  destruct H3 as [H3 H3']. destruct (post_packet_ok _ _ _ _ E8 H3') as [H4 H4'].
  cbn [set_incoming_packet set_bufs input] in H4.
  unfold poll_all. cbn [set_poll2_len set_misc input din poll2_packet_length].
  rewrite H4, H3. split; [done|]. split; [done|]. split; [unfold zlen at 2; lia|].
  destruct (buffer_consume_end_same _ _ _ E0) as [? ?], Hend2 as [? ?]. cbn in *. split; congruence.
Qed.

Lemma read_poll2_progress c type seq c' :
  poll_ok c -> packet_read_poll2 c = Ok (type, seq, c') -> type <> SSH_MSG_NONE ->
  poll_ok c' /\ (pending c' < pending c)%nat.
Proof.
  intros Hp E Hty. unfold packet_read_poll2 in E. pose proof Hp as [Hok Hs].
  fold (bsize (newkeys (din c))) (maclen_of (newkeys (din c))) in E.
  destruct (dir_sane_sizes _ Hs) as [Hb Hm]. set (bs := bsize _) in *. set (ml := maclen_of _) in *.
  ok_bind E. destruct a as [c1|]; [|by injection E as <- <- <-].
  assert (H1 : poll_ok c1 /\ (poll2_packet_length c <> 0 \/ poll2_packet_length c = 0 /\
             zlen (contents (input c1)) < zlen (contents (input c))) /\
             zlen (contents (input c1)) <= zlen (contents (input c))).
  { unfold read_first_block in E1. destruct (negb _) eqn:E0 in E1; zbool.
    { injection E1 as <-. split; [done|]. split; [by left|done]. }
    destruct (buffer_len (input c) <? bs) eqn:El in E1; [done|]. zbool.
    ok_bind E1. destruct a as [ic cc]. destruct (_ || _) in E1; [done|]. ok_bind E1.
    injection E1 as <-. destruct (buffer_consume_contents (input c) bs a Hok ltac:(lia) E3) as [Hok1 Hin1].
    rewrite buffer_len_contents in El by done.
    cbn [set_poll2_len set_misc set_bufs set_dir input din].
    rewrite Hin1. unfold zlen in *. rewrite length_drop. split; [done|]. lia. }
  destruct H1 as (Hp1 & Hd & Hle).
  destruct (read_rest_progress _ c1 bs ml type seq c' Hp1 Hm E Hty) as ([Hok' Hs'] & Hz & Hle' & _).
  split; [done|]. unfold pending. rewrite !buffer_len_contents, Hz by done. cbn [Z.eqb].
  pose proof (zlen_nonneg (contents (input c'))).
  destruct (poll2_packet_length c =? 0) eqn:E0; zbool; lia.
Qed.

Lemma pending_set_keep_alive c k : pending (set_keep_alive c k) = pending c.
Proof. done. Qed.

(** Reading fields of the current packet does not touch the input. *)
Lemma packet_get_char_io c v c' : packet_get_char c = Ok (v, c') -> poll_ok c -> poll_ok c' /\ pending c' = pending c.
Proof. unfold packet_get_char. intros E Hp. ok_bind E. destruct a. by injection E as <- <-. Qed.
Lemma packet_get_int_io c v c' : packet_get_int c = Ok (v, c') -> poll_ok c -> poll_ok c' /\ pending c' = pending c.
Proof. unfold packet_get_int. intros E Hp. ok_bind E. destruct a. by injection E as <- <-. Qed.
Lemma packet_get_string_io c v c' :
  packet_get_string c = Ok (v, c') -> poll_ok c -> poll_ok c' /\ pending c' = pending c.
Proof. unfold packet_get_string. intros E Hp. ok_bind E. destruct a. by injection E as <- <-. Qed.

Ltac same_bind :=
  match goal with
  | |- mbind _ ?m = mbind _ ?m => let E := fresh "E" in destruct m as [[]| |] eqn:E; rsimp; [|done|done]
  end.

Lemma read_poll_loop_fuel f1 : forall f2 c,
  poll_ok c -> (pending c < f1)%nat -> (pending c < f2)%nat ->
  read_poll_loop f1 c = read_poll_loop f2 c.
Proof.
  induction f1 as [|f1 IH]; intros f2 c Hp H1 H2; [lia|]. destruct f2 as [|f2]; [lia|].
  cbn [read_poll_loop]. destruct (packet_read_poll2 c) as [[[type seq] c1]| |] eqn:E; rsimp; [|done|done].
  assert (Hnext : type <> SSH_MSG_NONE -> forall c2, poll_ok c2 /\ pending c2 = pending c1 ->
                  read_poll_loop f1 c2 = read_poll_loop f2 c2).
  { intros Ht c2 [Hp2 He2]. destruct (read_poll2_progress _ _ _ _ Hp E Ht). apply IH; [done|lia|lia]. }
  assert (Hc1 : type <> SSH_MSG_NONE -> poll_ok c1) by (intros Ht; by eapply read_poll2_progress).
  unfold SSH_MSG_NONE in *. set (c2 := if negb (type =? 0) then _ else _).
  assert (H2' : pending c2 = pending c1 /\ (poll_ok c1 -> poll_ok c2)) by (unfold c2; by destruct (negb _)).
  destruct H2' as [Hpe Hpo].
  destruct (type =? SSH2_MSG_IGNORE) eqn:T1; zbool; [apply Hnext; [by subst|split; [|done]]; apply Hpo, Hc1; by subst|].
  destruct (type =? SSH2_MSG_DEBUG) eqn:T2; zbool.
  { assert (Hc2 : poll_ok c2) by (apply Hpo, Hc1; by subst).
    same_bind. apply packet_get_char_io in E0 as [? ?]; [|done].
    same_bind. apply packet_get_string_io in E0 as [? ?]; [|done].
    same_bind. apply packet_get_string_io in E0 as [? ?]; [|done].
    apply Hnext; [by subst|]. split; [done|congruence]. }
  destruct (type =? SSH2_MSG_DISCONNECT); [done|].
  destruct (type =? SSH2_MSG_UNIMPLEMENTED) eqn:T3; zbool; [|done].
  assert (Hc2 : poll_ok c2) by (apply Hpo, Hc1; by subst).
  same_bind. apply packet_get_int_io in E0 as [? ?]; [|done].
  apply Hnext; [by subst|]. split; [done|congruence].
Qed.

(** The polling loop of [packet_read_poll_seqnr] terminates.  Every turn
    that does not return consumes input or completes a packet, so that running it
    with any larger bound than the one chosen gives the same result: the bound is
    never what ends the loop. *)
Theorem read_poll_terminates c fuel :
  buffer_ok (input c) -> dir_sane (din c) -> (S (S (Z.to_nat (buffer_len (input c)))) <= fuel)%nat ->
  packet_read_poll_seqnr c = read_poll_loop fuel c.
Proof.
  intros Hok Hs Hf. unfold packet_read_poll_seqnr. apply read_poll_loop_fuel; [done|..];
    unfold pending; destruct (_ =? 0); lia.
Qed.

(** ** Rekeying *)

(** Sending one packet leaves the queue of held packets alone. *)
Definition same_queue (c c' : conn) : Prop :=
  outgoing c' = outgoing c /\ send2_rekeying c' = send2_rekeying c.

Lemma compress_outgoing_queue c c' : compress_outgoing c = Ok c' -> same_queue c c'.
Proof.
  unfold compress_outgoing. destruct (outgoing_stream c); [|done]. intros E.
  ok_bind E. ok_bind E. destruct a0 as [zs cb]. do 2 ok_bind E. by injection E as <-.
Qed.

Lemma send2_wrapped_queue c c' : packet_send2_wrapped c = Ok c' -> same_queue c c'.
Proof.
  unfold packet_send2_wrapped. intros E. ok_bind E. rename a into c1.
  assert (H1 : same_queue c c1).
  { destruct (nk_comp <$> _) as [comp|]; [|by injection E1 as <-].
    destruct (comp_enabled comp); [by apply compress_outgoing_queue|by injection E1 as <-]. }
  destruct (compute_padlen _ _ _) as [[padlen ep]|] in E; [|done].
  ok_bind E. destruct a as [p og]. destruct (match nk_enc <$> _ with Some _ => _ | None => _ end) as [pad used] in E.
  ok_bind E. destruct a as [mb d]. ok_bind E. destruct a as [out cc]. do 2 ok_bind E.
  set (c2 := set_bufs _ _ _ _ _) in E. assert (H2 : same_queue c c2) by exact H1. clearbody c2.
  destruct H2 as [H2 H2']. destruct (_ =? SSH2_MSG_NEWKEYS) in E.
  { apply set_newkeys_io in E as (_ & _ & Ho & Hr & _). split; congruence. }
  rewrite andb_false_r in E. by injection E as <-.
Qed.

Lemma flush_outgoing_queue q c c' :
  flush_outgoing q c = Ok c' -> outgoing c' = [] /\ send2_rekeying c' = send2_rekeying c.
Proof.
  revert c. induction q as [|[t b] q IH]; intros c E; cbn [flush_outgoing] in E.
  { by injection E as <-. }
  ok_bind E. apply send2_wrapped_queue in E1 as [_ Hr]. apply IH in E as [? E]. split; [done|].
  by rewrite E, Hr.
Qed.

Definition is_transport (type : Z) : Prop := SSH2_MSG_TRANSPORT_MIN <= type <= SSH2_MSG_TRANSPORT_MAX.

(** *** What a packet is on the wire *)

(** A packet that was begun: room for the header, then the type and the payload. *)
Definition begun (p : Buffer) : Prop := buffer_ok p /\ 5 <= zlen (contents p).

(** The payload, compressed if the keys say so. *)
Definition sent_body (c : conn) (body : list Z) : Prop :=
  if default false (comp_enabled ∘ nk_comp <$> newkeys (dout c))
  then exists c0, compress_outgoing c = Ok c0 /\ body = drop 5 (contents (outgoing_packet c0))
  else body = drop 5 (contents (outgoing_packet c)).

(** The bytes that stand for the packet of [c]: length, padding length, payload and
    padding in the cipher of the sending side, and their MAC under its sequence number. *)
Definition wire_image (c : conn) (w : list Z) : Prop := exists body pad cipher x tag d,
  let plain := (put_u32 (zlen body + zlen pad + 1) ++ [zlen pad]) ++ body ++ pad in
  sent_body c body /\ zlen pad < 256 /\
  EVP_Cipher (evp (context (dout c))) plain = Some (cipher, x) /\
  packet_mac (dout c) plain = Ok (tag, d) /\ w = cipher ++ default [] tag.

Lemma padlen_u8 len bs ep padlen ep' : compute_padlen len bs ep = Some (padlen, ep') -> 0 <= padlen < 256.
Proof.
  unfold compute_padlen. intros E. repeat case_match; simplify_eq; try apply u8_range; done.
Qed.

Lemma append_space_splice b len p b' d : buffer_ok b -> 0 <= len -> buffer_append_space b len = Ok (p, b') -> zlen d = len ->
  let b2 := mkBuffer (splice p d (buf b')) (alloc b') (offset b') (end_ b') in
  buffer_ok b2 /\ contents b2 = contents b ++ d.
Proof.
  intros Hok Hl E Hd. unfold buffer_append_space in E. destruct (len >? BUFFER_MAX_CHUNK) eqn:El; zbool; [done|].
  destruct (buffer_rewind_spec b Hok) as (Hok0 & Hc0 & _).
  destruct (append_space_restart_total (buffer_rewind b) len Hok0 ltac:(lia)) as [(q & b1 & Er & Hp)|(m & Er & _)]; rewrite Er in E; [|done].
  injection E as <- <-. rewrite <- Hc0. apply space_post_append. by rewrite Hd.
Qed.

Lemma buffer_append_ok b d b' : buffer_ok b -> buffer_append b d = Ok b' -> buffer_ok b' /\ contents b' = contents b ++ d.
Proof. intros Hok E. destruct (buffer_append_cases b d Hok) as [(b1 & E1 & H1 & H2 & _)|(m & E1 & _)]; rewrite E in E1; [by injection E1 as ->|done]. Qed.

Lemma compress_outgoing_begun c c0 : begun (outgoing_packet c) -> compress_outgoing c = Ok c0 ->
  begun (outgoing_packet c0) /\ output c0 = output c /\ dout c0 = dout c.
Proof.
  intros [Hok _]. unfold compress_outgoing. destruct (outgoing_stream c) as [zs|]; [|done]. intros E.
  ok_bind E. apply buffer_consume_contents in E1 as [Hok1 _]; [|done|lia]. ok_bind E. destruct a0 as [zs' cb]. ok_bind E. ok_bind E. injection E as <-. split; [|done].
  apply buffer_append_ok in E0 as [Hok2 Hc2]; [|by apply buffer_clear_ok]. apply buffer_append_ok in E2 as [Hok3 Hc3]; [|done].
  split; [done|]. cbn [outgoing_packet set_outgoing_packet set_bufs]. rewrite Hc3, Hc2, !zlen_app, buffer_clear_contents. change (zlen [0; 0; 0; 0; 0]) with 5. pose proof (zlen_nonneg (buffer_ptr cb)). change (zlen []) with 0. lia.
Qed.

Lemma packet_mac_keeps d data t d' : packet_mac d data = Ok (t, d') -> context d' = context d.
Proof.
  unfold packet_mac. destruct (newkeys d) as [nk|]; [|by intros [= <- <-]]. destruct (mac_enabled _); [|by intros [= <- <-]].
  intros E. ok_bind E. destruct a as [m mac]. injection E as <- <-. unfold set_mac. by destruct (newkeys d).
Qed.

Lemma wrapped_wire c c' : begun (outgoing_packet c) -> buffer_ok (output c) -> packet_send2_wrapped c = Ok c' ->
  exists w, wire_image c w /\ contents (output c') = contents (output c) ++ w /\ buffer_ok (output c').
Proof.
  intros Hb Ho E. unfold packet_send2_wrapped in E. ok_bind E. rename a into c0.
  assert (H0 : begun (outgoing_packet c0) /\ output c0 = output c /\ dout c0 = dout c /\ sent_body c (drop 5 (contents (outgoing_packet c0)))).
  { unfold sent_body. destruct (newkeys (dout c)) as [nk|]; cbn in E1 |- *; [|by injection E1 as <-].
    destruct (comp_enabled (nk_comp nk)); [|by injection E1 as <-]. destruct (compress_outgoing_begun c c0 Hb E1) as (? & ? & ?).
    split; [done|]. split; [done|]. split; [done|]. exists c0. by split. }
  clear E1. destruct H0 as ([Hok H5] & Eo & Ed & Hbody). set (body := drop 5 (contents (outgoing_packet c0))) in *.
  destruct (compute_padlen _ _ _) as [[padlen ep]|] eqn:Ep in E; [|done]. apply padlen_u8 in Ep. ok_bind E. destruct a as [p og].
  pose proof (padding_length (set_extra_pad c0 ep) (Z.to_nat padlen)) as Hpl. cbn [dout set_extra_pad set_misc] in Hpl. rewrite Ed in Hpl.
  cbn [dout set_extra_pad set_misc] in E. rewrite Ed in E.
  destruct (match nk_enc <$> newkeys (dout c) with Some _ => _ | None => _ end) as [pad used] in E, Hpl. cbn [fst] in Hpl. rewrite Z2Nat.id in Hpl by lia.
  destruct (append_space_splice (outgoing_packet c0) padlen p og pad Hok ltac:(lia) E1 Hpl) as [Hok1 Hc1]. cbv zeta in Hok1, Hc1. set (og1 := mkBuffer (splice p pad (buf og)) _ _ _) in *.
  cbn [outgoing_packet set_extra_pad set_misc] in Hc1.
  assert (Hl5 : length (take 5 (contents (outgoing_packet c0))) = 5%nat) by (rewrite length_take; unfold zlen in H5; lia).
  assert (Hpl1 : u32 (buffer_len og1 - 4) = zlen body + padlen + 1).
  { rewrite buffer_len_contents, Hc1, zlen_app, Hpl by done. unfold body. unfold zlen in *. rewrite length_drop.
    pose proof (buffer_len_contents og1 Hok1) as Hll. rewrite buffer_len_ok, Hc1 in Hll by done. destruct Hok1. unfold zlen in Hll. rewrite length_app in Hll. bufcrush; lia. }
  rewrite Hpl1 in E. destruct (write_header_contents _ og1 (zlen body + padlen + 1) padlen (take 5 (contents (outgoing_packet c0))) (body ++ pad) (capped_of_ok og1 Hok1)) as [[Hok2 _] Hc2];
    [unfold body; by rewrite Hc1, app_assoc, take_drop|done|].
  set (og2 := write_header og1 _ _) in *. rewrite (buffer_ptr_contents og2 Hok2), Hc2 in E. rewrite <- Hpl in E.
  set (plain := (put_u32 _ ++ [_]) ++ _) in E. cbn [dout set_rand_used set_misc set_extra_pad output] in E. rewrite Ed, Eo in E.
  ok_bind E. rename E0 into Emac. destruct a as [tag d]. ok_bind E. rename E0 into Ecr. destruct a as [out cc]. pose proof (packet_mac_keeps _ _ _ _ Emac) as Hctx. rewrite Hctx in Ecr.
  apply append_crypt_contents in Ecr as (cipher & Ec & Hok3 & Hc3); [|done].
  ok_bind E. rename E0 into Eout, a into out'. assert (Hout : buffer_ok out' /\ contents out' = contents (output c) ++ cipher ++ default [] tag).
  { destruct tag as [t|]; cbn in Eout |- *; [|injection Eout as <-; by rewrite app_nil_r]. apply buffer_append_ok in Eout as [? ->]; [|done]. by rewrite Hc3, app_assoc. }
  ok_bind E. set (c2 := set_bufs _ _ _ _ _) in E. assert (Hc' : output c' = out').
  { destruct (_ =? SSH2_MSG_NEWKEYS) in E; [by apply set_newkeys_io in E as (_ & -> & _)|]. destruct (_ && _) in E; [by apply packet_enable_delayed_compress_io in E as (_ & -> & _)|by injection E as <-]. }
  exists (cipher ++ default [] tag). rewrite Hc'. split; [|by destruct Hout]. exists body, pad, cipher, (evp cc), tag, d. cbv zeta. split; [done|]. split; [lia|]. done.
Qed.

(** Packets on the wire one after the other, each in the state the one before left; the
    queue is not looked at. *)
Inductive on_wire : conn -> list Buffer -> list Z -> conn -> Prop :=
| wire_nil c q : on_wire c [] [] (set_outgoing c q)
| wire_cons c p q ps w ws c1 c' :
    let cp := set_outgoing (set_outgoing_packet c p) q in
    packet_send2_wrapped cp = Ok c1 -> wire_image cp w -> on_wire c1 ps ws c' -> on_wire c (p :: ps) (w ++ ws) c'.

Lemma flush_on_wire q : forall c c', Forall (fun p => begun (snd p)) q -> buffer_ok (output c) -> flush_outgoing q c = Ok c' ->
  exists ws, on_wire c (map snd q) ws c' /\ contents (output c') = contents (output c) ++ ws /\ buffer_ok (output c').
Proof.
  induction q as [|[t p] q IH]; intros c c' Hq Ho E; cbn [flush_outgoing] in E.
  { injection E as <-. exists []. split; [constructor|]. by rewrite app_nil_r. }
  apply Forall_cons in Hq as [Hp Hq]. ok_bind E.
  destruct (wrapped_wire (set_outgoing (set_outgoing_packet c p) q) a Hp Ho E1) as (w & Hw & Hc & Hok).
  destruct (IH _ _ Hq Hok E) as (ws & Hws & Hcs & Hoks). exists (w ++ ws). split; [by econstructor|]. split; [|done]. by rewrite Hcs, Hc, <- app_assoc.
Qed.

(** Packets are held back only during a key exchange, and never those of the
    transport protocol. *)
Definition held_ok (c : conn) : Prop :=
  (send2_rekeying c = false -> outgoing c = []) /\
  Forall (fun p => ~ is_transport (fst p) /\ begun (snd p)) (outgoing c) /\ buffer_ok (output c).

(** C31: rekeying discipline.  [packet_send2] preserves the invariant of the
    held-back queue.  From KEXINIT to NEWKEYS a packet that is not of the transport
    protocol goes to the end of the queue and the output is untouched.  Any other
    packet is put on the wire at once: its header, payload and padding are appended to the
    output in the cipher of that time, with their MAC.  Behind NEWKEYS, which itself goes
    out under the old keys, the packets that were held back are put on the wire, all of
    them and in their order, and the hold ends. *)
Theorem send2_rekey_discipline c c' :
  let type := znth 0 (buffer_ptr (outgoing_packet c)) 5 in
  let c0 := if type =? SSH2_MSG_KEXINIT then set_rekeying c true else c in
  held_ok c -> begun (outgoing_packet c) -> packet_send2 c = Ok c' ->
  held_ok c' /\
  (send2_rekeying c = true -> ~ is_transport type ->
     output c' = output c /\ outgoing c' = outgoing c ++ [(type, outgoing_packet c)] /\
     send2_rekeying c' = true) /\
  (send2_rekeying c = false \/ is_transport type -> type <> SSH2_MSG_NEWKEYS ->
     outgoing c' = outgoing c /\
     send2_rekeying c' = (type =? SSH2_MSG_KEXINIT) || send2_rekeying c /\
     exists w, wire_image c0 w /\ contents (output c') = contents (output c) ++ w) /\
  (type = SSH2_MSG_NEWKEYS -> outgoing c' = [] /\ send2_rekeying c' = false /\
     exists c1 w ws, packet_send2_wrapped c = Ok c1 /\ wire_image c w /\
       on_wire (set_rekeying c1 false) (map snd (outgoing c)) ws c' /\
       contents (output c') = contents (output c) ++ w ++ ws).
Proof.
  intros type c0 (Hq & Hf & Ho) Hb E. unfold packet_send2 in E. fold type in E.
  destruct (send2_rekeying c && _) eqn:E0.
  - apply andb_true_iff in E0 as [Hr Ht]. injection E as <-. cbn. rewrite Hr.
    assert (Hnt : ~ is_transport type) by (unfold is_transport; zbool; rewrite andb_false_iff in Ht;
      destruct Ht; zbool; lia).
    split; [split; [cbn; congruence|split; [|done]]|].
    { cbn. apply Forall_app. split; [done|]. apply Forall_cons_2; [by split|apply Forall_nil_2]. }
    split; [done|]. split; [intros [?|?]; congruence|]. intros Ht'. exfalso. apply Hnt. rewrite Ht'.
    unfold is_transport. by vm_compute.
  - fold c0 in E.
    assert (H0 : outgoing c0 = outgoing c /\ output c0 = output c /\ outgoing_packet c0 = outgoing_packet c /\
                 send2_rekeying c0 = (type =? SSH2_MSG_KEXINIT) || send2_rekeying c)
      by (unfold c0; by destruct (_ =? _)).
    destruct H0 as (H0 & Ho0 & Hp0 & H0'). ok_bind E. rename a into c1.
    destruct (wrapped_wire c0 c1) as (w & Hw & Hcw & Hok1); [by rewrite Hp0|by rewrite Ho0|done|]. rewrite Ho0 in Hcw.
    pose proof (send2_wrapped_queue _ _ E1) as [H1 H1'].
    assert (Hn : send2_rekeying c = true -> is_transport type).
    { intros Hr. rewrite Hr in E0. unfold is_transport. zbool. lia. }
    destruct (type =? SSH2_MSG_NEWKEYS) eqn:En; zbool.
    + assert (Hc0 : c0 = c) by (unfold c0; rewrite En; done). rewrite Hc0 in *.
      pose proof E as Efl. apply flush_outgoing_queue in Efl as [Hoe Hr].
      destruct (flush_on_wire (outgoing c1) (set_rekeying c1 false) c') as (ws & Hws & Hcs & Hoks); [|done|done|].
      { rewrite H1. eapply Forall_impl; [exact Hf|]. by intros p [_ ?]. }
      split; [split; [done|by rewrite Hoe]|]. split; [naive_solver|]. split; [done|]. intros _. split; [done|]. split; [done|].
      exists c1, w, ws. rewrite H1 in Hws. split; [done|]. split; [done|]. split; [done|]. cbn [output set_rekeying set_misc] in Hcs. by rewrite Hcs, Hcw, app_assoc.
    + injection E as <-. rewrite H0 in H1. rewrite H0' in H1'.
      split; [|split; [naive_solver|split; [intros _ _; split; [done|]; split; [done|]; by exists w|done]]].
      split; [|by rewrite H1]. rewrite H1, H1'. intros Hr. apply orb_false_iff in Hr as [_ Hr]. by apply Hq.
Qed.

(** ** Timeouts *)

(** The keep-alive timeout saturates.  For positive arguments in the range
    of [int] the result is the product in milliseconds, capped at [INT_MAX]; no
    intermediate overflows. *)
Theorem packet_set_timeout_saturates timeout count :
  0 < timeout < 2 ^ 31 -> 0 < count < 2 ^ 31 ->
  packet_set_timeout timeout count = Z.min (timeout * count * 1000) (2 ^ 31 - 1).
Proof.
  intros Ht Hc. unfold packet_set_timeout.
  replace (timeout =? 0) with false by lia. replace (count =? 0) with false by lia. cbn [orb].
  change (2147483647 / 1000) with 2147483. rewrite Z.quot_div_nonneg by lia.
  pose proof (Z.div_mod 2147483 count ltac:(lia)) as Hd.
  pose proof (Z.mod_pos_bound 2147483 count ltac:(lia)) as Hm.
  set (q := 2147483 / count) in *. set (r := 2147483 mod count) in *.
  destruct (q <? timeout) eqn:E; zbool.
  - assert (count * (q + 1) <= count * timeout) by (apply Z.mul_le_mono_nonneg_l; lia). lia.
  - assert (count * timeout <= count * q) by (apply Z.mul_le_mono_nonneg_l; lia).
    assert (0 < timeout * count) by nia.
    unfold s32. rewrite Z.mod_small by lia. lia.
Qed.

End Transport.

(** ** A concrete instance: witnesses *)

Module Toy.

(** A stream cipher whose key stream is a counter, and digests that sum the
    data: they satisfy the laws, and nothing more is asked of them here. *)
Fixpoint xor_stream (k : Z) (p : list Z) : list Z :=
  match p with [] => [] | x :: p => Z.lxor x (u8 k) :: xor_stream (k + 1) p end.

Definition sum_digest (n : nat) (data : list Z) : list Z :=
  u8 (foldr Z.add 0 data) :: replicate n 0.

#[export] Instance toy_crypto : Crypto := {
  evp_ctx := Z;
  EVP_CipherInit := fun _ key _ _ => Some (znth 0 key 0);
  EVP_Cipher := fun k p => Some (xor_stream k p, k + zlen p);
  EVP_MD_size := fun _ => 20;
  HMAC := fun _ key data => sum_digest 19 (key ++ data);
  umac_ctx := unit;
  umac_new := fun _ => tt;
  umac := fun ctx data nonce => (sum_digest 7 (data ++ nonce), ctx)
}.

Lemma xor_stream_length k p : length (xor_stream k p) = length p.
Proof. revert k. induction p as [|x p IH]; intros k; cbn; [done|by rewrite IH]. Qed.

Lemma xor_stream_inv k p : xor_stream k (xor_stream k p) = p.
Proof.
  revert k. induction p as [|x p IH]; intros k; cbn; [done|].
  by rewrite Z.lxor_assoc, Z.lxor_nilpotent, Z.lxor_0_r, IH.
Qed.

Lemma xor_stream_app k p q : xor_stream k (p ++ q) = xor_stream k p ++ xor_stream (k + zlen p) q.
Proof.
  revert k. induction p as [|x p IH]; intros k; cbn [app xor_stream].
  { change (zlen []) with 0. by rewrite Z.add_0_r. }
  rewrite IH. cbn [app]. do 3 f_equal. unfold zlen. cbn [length]. lia.
Qed.

#[export] Instance toy_laws : CryptoLaws.
Proof.
  refine {| in_sync := fun e d => e = d; evp_block := fun _ => 1 |}; cbn; try done.
  - intros x p c x' [= <- <-]. apply xor_stream_length.
  - intros e d p _ _. by eexists _, _.
  - intros e d p c e' -> _ [= <- <-]. eexists. rewrite xor_stream_inv. split; [done|].
    unfold zlen. by rewrite xor_stream_length.
  - intros x p q out x' _ _ [= <- <-]. eexists _, _, _. split; [done|]. split; [|apply xor_stream_app].
    f_equal. f_equal. unfold zlen. rewrite length_app. lia.
Defined.

#[export] Instance toy_zlib : Zlib := {
  zstate := unit; deflateInit := fun _ => tt; inflateInit := tt;
  deflate := fun zs i _ => (Z_OK, i, [], zs);
  inflate := fun zs i _ => (match i with [] => Z_BUF_ERROR | _ => Z_OK end, i, [], zs)
}.
#[export] Instance toy_random : Random := { arc4random := fun n => Z.of_nat n * 77 }.

Definition aes : Cipher := mkCipher (str "aes128-cbc") SSH_CIPHER_SSH2 16 16 0 EVP_aes_128_cbc.
Definition hmac : Mac :=
  mkMac (str "hmac-sha1") true 20 (Some [1; 2]) 20 SSH_EVP (Some EVP_sha1)
    (Some (EVP_sha1, [1; 2])) None.
Definition keys : Newkeys :=
  mkNewkeys (mkEnc (str "aes128-cbc") aes true 16 16 [] []) hmac (mkComp COMP_NONE false []).
Definition dir : dirst := mkDir (Some keys) None (mkCC false 5 aes) (mkPS 3 3 0 0) 0.
Definition start : conn :=
  mkConn dir dir buffer_init buffer_init buffer_init buffer_init [] buffer_init false None None
    0 0 false 0 0 0 false 0.

Definition pkts : list (Z * list Z) := [(SSH2_MSG_IGNORE, [0; 0; 0; 0]); (94, [1; 2; 3; 4; 5; 6; 7; 8; 9])].

Lemma linked : dirs_linked dir dir.
Proof.
  constructor; try done; [by right| |by exists 16].
  repeat split; try done. left. split; [done|]. by exists EVP_sha1, [1; 2].
Qed.

End Toy.

Section Witnesses.
Import Toy.

(** Two packets through the toy transport. *)
Lemma packet_stream_delivered_witness :
  exists a' w, send_packets Toy.start Toy.pkts = Ok a' /\
    contents (output a') = w /\ zlen w = 88 /\
    (forall inp, buffer_ok inp -> contents inp = w ++ [9] ->
     exists b', read_packets 2 (set_input Toy.start inp) = Ok (numbered 3 Toy.pkts, b') /\
       contents (input b') = [9]).
Proof.
  assert (Hti : tx_idle Toy.start).
  { constructor; [..|done]; split; try apply buffer_init_ok; cbn; unfold BUFFER_ALLOCSZ, NB, NO; lia. }
  destruct (packet_stream_delivered Toy.start Toy.start Toy.pkts Toy.linked Hti)
    as (a' & w & Es & Hc & Hr); [|vm_compute; discriminate|vm_compute; discriminate|vm_compute; reflexivity|].
  { repeat constructor; vm_compute; discriminate. }
  assert (Hw : zlen (contents (output a')) = 88).
  { clear Hr Hc. assert (E : match send_packets Toy.start Toy.pkts with
      | Ok a => zlen (contents (output a)) | _ => 0 end = 88) by (vm_compute; reflexivity).
    by rewrite Es in E. }
  exists a', w. rewrite Hc in *. split; [done|]. split; [done|]. split; [done|].
  intros inp Hok Hin. destruct (Hr inp [9] Hok Hin) as (b' & E1 & E2 & _).
  - constructor; [done| |done|vm_compute; split; [discriminate|reflexivity]].
    split; [apply buffer_init_ok|]. cbn. unfold BUFFER_ALLOCSZ, NB. lia.
  - vm_compute. reflexivity.
  - exists b'. split; [exact E1|exact E2].
Defined.

(** A packet half read: its first block is decrypted. *)
Definition half_read : conn :=
  match (c ← send_packet start (94, [1; 2; 3; 4; 5; 6; 7; 8; 9]);
         c ← packet_process_incoming start (buffer_ptr (output c));
         read_first_block c 16) with
  | Ok (Some c) => c
  | _ => start
  end.

Lemma half_read_type :
  match read_rest half_read 16 20 with Ok (type, _, _) => type | _ => 0 end = 94.
Proof. vm_compute. reflexivity. Qed.

Lemma half_read_buffers : buffer_ok (input half_read) /\ buffer_ok (incoming_packet half_read).
Proof.
  split; constructor; try (vm_compute; reflexivity);
    try (split; vm_compute; discriminate); vm_compute; discriminate.
Qed.

(** A received packet whose MAC checks out. *)
Lemma delivered_packets_authentic_witness :
  exists type seq c' tail x m mac,
    read_rest half_read 16 20 = Ok (type, seq, c') /\ type = 94 /\
    EVP_Cipher (evp (context (din half_read)))
      (take (Z.to_nat (u32 (4 + poll2_packet_length half_read - 16))) (contents (input half_read)))
      = Some (tail, x) /\
    mac_compute hmac seq (contents (incoming_packet half_read) ++ tail) EVP_MAX_MD_SIZE = Ok (m, mac).
Proof.
  pose proof half_read_type as Ht. destruct half_read_buffers as [Hi Hp].
  assert (Hn : newkeys (din half_read) = Some keys) by (vm_compute; reflexivity).
  destruct (read_rest half_read 16 20) as [[[type seq] c']| |] eqn:Er; [|discriminate Ht|discriminate Ht].
  destruct (delivered_packets_authentic half_read 16 20 keys type seq c' Hn eq_refl eq_refl Hi Hp Er)
    as (tail & x & m & mac & H1 & H2 & _); [rewrite Ht; discriminate|].
  exists type, seq, c', tail, x, m, mac.
  split; [reflexivity|]. split; [exact Ht|]. split; [exact H1|exact H2].
Defined.

Lemma need_never_wraps_witness :
  read_rest (set_poll2_len start 12) 16 0 = Fatal "Bad packet length" \/
  (u32 (4 + 12 - 16) = 4 + 12 - 16 /\ (4 + 12) mod 16 = 0).
Proof. apply (need_never_wraps (set_poll2_len start 12) 16 0); [by right|by vm_compute]. Defined.

Lemma read_poll_terminates_witness :
  packet_read_poll_seqnr start = read_poll_loop 5 start /\
  packet_read_poll_seqnr start = Ok (0, 0, start).
Proof.
  split; [|vm_compute; reflexivity]. apply (read_poll_terminates start 5).
  - apply buffer_init_ok.
  - split; cbn; [|done]. intros nk [= <-]. split; cbn; lia.
  - vm_compute. lia.
Defined.

(** A packet that is begun, with one byte of type *)
Definition typed (type : Z) : Buffer := mkBuffer ([0; 0; 0; 0; 0; type] ++ replicate 10 0) 16 0 6.

Lemma typed_begun t : begun (typed t).
Proof. split; [constructor; cbn; unfold BUFFER_MAX_LEN; try reflexivity; lia|vm_compute; discriminate]. Qed.

Lemma typed_held t : held_ok (set_rekeying (set_outgoing_packet start (typed t)) true).
Proof.
  unfold held_ok. cbn [send2_rekeying outgoing output set_rekeying set_outgoing_packet start].
  split; [intros H; discriminate H|]. split; [apply Forall_nil_2|apply buffer_init_ok].
Qed.

Lemma ignore_is_sent : exists c', packet_send2 (set_rekeying (set_outgoing_packet start (typed SSH2_MSG_IGNORE)) true) = Ok c'.
Proof.
  assert (match packet_send2 (set_rekeying (set_outgoing_packet start (typed SSH2_MSG_IGNORE)) true) with
          | Ok _ => true | _ => false end = true) as H by (vm_compute; reflexivity).
  revert H. destruct (packet_send2 _) as [c'| |]; [by exists c'|intros H; discriminate H..].
Qed.

(** During a key exchange an IGNORE is put on the wire. *)
Lemma send2_rekey_discipline_witness :
  exists c' w, packet_send2 (set_rekeying (set_outgoing_packet start (typed SSH2_MSG_IGNORE)) true) = Ok c' /\
     wire_image (set_rekeying (set_outgoing_packet start (typed SSH2_MSG_IGNORE)) true) w /\ contents (output c') = contents (output start) ++ w.
Proof.
  destruct ignore_is_sent as [c' E].
  destruct (send2_rekey_discipline _ c' (typed_held SSH2_MSG_IGNORE) (typed_begun SSH2_MSG_IGNORE) E) as (_ & _ & H & _).
  destruct H as (_ & _ & w & Hw & Hc); [right; split; vm_compute; discriminate|vm_compute; discriminate|].
  exists c', w. split; [exact E|]. split; [exact Hw|exact Hc].
Defined.

Lemma packet_set_timeout_saturates_witness : packet_set_timeout 30 3 = 90000.
Proof. rewrite (packet_set_timeout_saturates 30 3) by lia. reflexivity. Defined.

End Witnesses.
