(* ===== verification/SshKex.v ===== *)
(** * SshKex: algorithm negotiation and key derivation

    The key-exchange functions of shiesh/CoreConnection.cpp
    ([kex_prop2buf] to [kex_send_kexinit], [kex_input_kexinit]), the exchange
    hashes of kexdh.cpp and kexgex.cpp, the integers of bufbn.cpp and the
    compatibility table of compat.cpp.  Digests and big-number conversion are
    OpenSSL's: classes with their laws.  The handlers that exchange
    the messages and sign the hash are in [SshKexServer]. *)

From S2P Require Import Prelude SshBuffer SshMatch SshCipher SshPacket SshTransport.

Class Digest `{Crypto} := {
  (** [EVP_DigestInit], [EVP_DigestUpdate] on the data, [EVP_DigestFinal] *)
  EVP_Digest : evp_md -> list Z -> list Z;
  digest_length : forall md data, zlen (EVP_Digest md data) = EVP_MD_size md;
  digest_size_pos : forall md, 0 < EVP_MD_size md <= 64
}.

(** A [BIGNUM] is its value. *)
Class BnLib := {
  BN_num_bits : Z -> Z;
  BN_bn2bin : Z -> list Z;
  BN_bin2bn : list Z -> Z
}.

Class BnLaws `{BnLib} := {
  bn_bits : forall v, 0 < v -> 0 < BN_num_bits v;
  bn2bin_len : forall v, 0 < v -> zlen (BN_bn2bin v) = (BN_num_bits v + 7) / 8;
  bn2bin_bytes : forall v, bytes_ok (BN_bn2bin v);
  bin2bn_bn2bin : forall v, 0 < v -> BN_bin2bn (BN_bn2bin v) = v;
  bin2bn_pad : forall l, BN_bin2bn (0 :: l) = BN_bin2bn l;
  bin2bn_nil : BN_bin2bn [] = 0
}.

(** ** Big numbers in buffers (bufbn.cpp) *)

Section Bignum.
Context `{BnLib}.

(** [BN_num_bytes] is a macro of OpenSSL's bn.h. *)
Definition BN_num_bytes (v : Z) : Z := (BN_num_bits v + 7) / 8.

Definition buffer_put_bignum_ret (buffer : Buffer) (value : Z) : res (option Buffer) :=
  let bits := BN_num_bits value in
  let bin_size := (bits + 7) / 8 in
  let buf := BN_bn2bin value in
  if negb (zlen buf =? bin_size) then Ok None
  else
    buffer ← buffer_append buffer (put_u16 bits);
    buffer ← buffer_append buffer buf;
    Ok (Some buffer).

Definition buffer_put_bignum (buffer : Buffer) (value : Z) : res Buffer :=
  o ← buffer_put_bignum_ret buffer value; or_fatal "buffer_put_bignum: buffer error" o.

(** On failure the bytes read so far are gone: the new buffer is always returned. *)
Definition buffer_get_bignum_ret (buffer : Buffer) : option Z * Buffer :=
  match buffer_get_ret buffer 2 with
  | None => (None, buffer)
  | Some (buf, buffer) =>
      let bits := get_u16 buf in
      let bytes := (bits + 7) / 8 in
      if bytes >? 8 * 1024 then (None, buffer)
      else if buffer_len buffer <? bytes then (None, buffer)
      else
        let value := BN_bin2bn (take (Z.to_nat bytes) (buffer_ptr buffer)) in
        match buffer_consume_ret buffer bytes with
        | None => (None, buffer)
        | Some buffer => (Some value, buffer)
        end
  end.

Definition buffer_get_bignum (buffer : Buffer) : res (Z * Buffer) :=
  let '(o, buffer) := buffer_get_bignum_ret buffer in
  v ← or_fatal "buffer_get_bignum: buffer error" o; Ok (v, buffer).

Definition buffer_put_bignum2_ret (buffer : Buffer) (value : Z) : res (option Buffer) :=
  if value =? 0 then buffer ← buffer_put_int buffer 0; Ok (Some buffer)
  else if value <? 0 then Ok None
  else
    let bytes := u32 (BN_num_bytes value + 1) in
    if bytes <? 2 then Ok None
    else
      let buf := 0 :: BN_bn2bin value in
      if negb (zlen (BN_bn2bin value) =? bytes - 1) then Ok None
      else
        let hasnohigh := if negb (Z.land (znth 0 buf 1) 0x80 =? 0) then 0%nat else 1%nat in
        buffer ← buffer_put_string buffer (drop hasnohigh buf);
        Ok (Some buffer).

Definition buffer_put_bignum2 (buffer : Buffer) (value : Z) : res Buffer :=
  o ← buffer_put_bignum2_ret buffer value; or_fatal "buffer_put_bignum2: buffer error" o.

Definition buffer_get_bignum2_ret (buffer : Buffer) : res (option Z * Buffer) :=
  '(o, buffer) ← buffer_get_string_ret buffer;
  match o with
  | None => Ok (None, buffer)
  | Some bin =>
      let len := zlen bin in
      if (len >? 0) && negb (Z.land (znth 0 bin 0) 0x80 =? 0) then Ok (None, buffer)
      else if len >? 8 * 1024 then Ok (None, buffer)
      else Ok (Some (BN_bin2bn bin), buffer)
  end.

Definition buffer_get_bignum2 (buffer : Buffer) : res (Z * Buffer) :=
  '(o, buffer) ← buffer_get_bignum2_ret buffer;
  v ← or_fatal "buffer_get_bignum2: buffer error" o; Ok (v, buffer).

End Bignum.

(** ** Constants (kex.h, key.h, compat.h) *)

Definition KEX_DH1 : list Z := str "diffie-hellman-group1-sha1".
Definition KEX_DH14 : list Z := str "diffie-hellman-group14-sha1".
Definition KEX_DHGEX_SHA1 : list Z := str "diffie-hellman-group-exchange-sha1".
Definition KEX_DHGEX_SHA256 : list Z := str "diffie-hellman-group-exchange-sha256".

Definition PROPOSAL_KEX_ALGS : nat := 0.
Definition PROPOSAL_SERVER_HOST_KEY_ALGS : nat := 1.
Definition PROPOSAL_ENC_ALGS_CTOS : nat := 2.
Definition PROPOSAL_ENC_ALGS_STOC : nat := 3.
Definition PROPOSAL_MAC_ALGS_CTOS : nat := 4.
Definition PROPOSAL_MAC_ALGS_STOC : nat := 5.
Definition PROPOSAL_COMP_ALGS_CTOS : nat := 6.
Definition PROPOSAL_COMP_ALGS_STOC : nat := 7.
Definition PROPOSAL_LANG_CTOS : nat := 8.
Definition PROPOSAL_LANG_STOC : nat := 9.
Definition PROPOSAL_MAX : nat := 10.

Definition KEX_DH_GRP1_SHA1 : Z := 0.
Definition KEX_DH_GRP14_SHA1 : Z := 1.
Definition KEX_DH_GEX_SHA1 : Z := 2.
Definition KEX_DH_GEX_SHA256 : Z := 3.
Definition KEX_MAX : Z := 7.

Definition KEX_INIT_SENT : Z := 1.
Definition KEX_COOKIE_LEN : nat := 16.

Definition KEY_RSA1 : Z := 0.
Definition KEY_RSA : Z := 1.
Definition KEY_DSA : Z := 2.
Definition KEY_NULL : Z := 3.
Definition KEY_UNSPEC : Z := 4.

Definition SSH_BUG_HMAC : Z := 0x4.
Definition SSH_BUG_BIGENDIANAES : Z := 0x1000.
Definition SSH_BUG_DERIVEKEY : Z := 0x40000.
Definition SSH_BUG_FIRSTKEX : Z := 0x800000.

(** The proposals a connection starts with ([def_proposal]). *)
Definition KEX_DEFAULT_KEX : list Z := str "diffie-hellman-group14-sha1,diffie-hellman-group1-sha1".
Definition KEX_DEFAULT_PK_ALG : list Z := str "ssh-rsa,ssh-dss".
Definition KEX_DEFAULT_ENCRYPT : list Z :=
  str "aes256-ctr,aes256-cbc,aes192-ctr,aes192-cbc,aes128-ctr,aes128-cbc,3des-cbc,blowfish-cbc,cast128-cbc,arcfour256,arcfour128,arcfour,rijndael-cbc@lysator.liu.se".
Definition KEX_DEFAULT_MAC : list Z :=
  str "hmac-md5,hmac-sha1,umac-64@openssh.com,hmac-ripemd160,hmac-ripemd160@openssh.com,hmac-sha1-96,hmac-md5-96".
Definition KEX_DEFAULT_COMP : list Z := str "none,zlib@openssh.com,zlib".
Definition KEX_DEFAULT_LANG : list Z := [].

Definition def_proposal : list (list Z) :=
  [KEX_DEFAULT_KEX; KEX_DEFAULT_PK_ALG; KEX_DEFAULT_ENCRYPT; KEX_DEFAULT_ENCRYPT;
   KEX_DEFAULT_MAC; KEX_DEFAULT_MAC; KEX_DEFAULT_COMP; KEX_DEFAULT_COMP;
   KEX_DEFAULT_LANG; KEX_DEFAULT_LANG].

Definition key_type_from_name (name : list Z) : Z :=
  if bool_decide (name = str "rsa1") then KEY_RSA1
  else if bool_decide (name = str "rsa") then KEY_RSA
  else if bool_decide (name = str "dsa") then KEY_DSA
  else if bool_decide (name = str "ssh-rsa") then KEY_RSA
  else if bool_decide (name = str "ssh-dss") then KEY_DSA
  else if bool_decide (name = str "null") then KEY_NULL
  else KEY_UNSPEC.

Definition key_names_valid2 (names : option (list Z)) : res bool :=
  match names with
  | None | Some [] => Ok false
  | Some names =>
      names_valid (fun p => let t := key_type_from_name p in
                            negb ((t =? KEY_RSA1) || (t =? KEY_UNSPEC)))
        (S (length names)) (Some names)
  end.

(** ** Key exchange *)

Section Kex.
Context `{Crypto} `{!Digest} `{Zlib} `{Random} `{BnLib}.

Record Kex := mkKex {
  session_id : option (list Z);
  kex_newkeys : kex_mode -> option Newkeys;
  we_need : Z;
  server : bool;
  kex_name : option (list Z);
  hostkey_type : Z;
  kex_type : Z;
  my : Buffer;
  peer : Buffer;
  done_ : bool;
  flags : Z;
  kex_md : evp_md
}.

(** *** Proposals *)

Fixpoint put_zeros (n : nat) (b : Buffer) : res Buffer :=
  match n with O => Ok b | S n => b ← buffer_put_char b 0; put_zeros n b end.

Fixpoint put_cstrings (l : list (list Z)) (b : Buffer) : res Buffer :=
  match l with [] => Ok b | s :: l => b ← buffer_put_cstring b (Some s); put_cstrings l b end.

Definition kex_prop2buf (b : Buffer) (proposal : list (list Z)) : res Buffer :=
  b ← put_zeros KEX_COOKIE_LEN (buffer_clear b);
  b ← put_cstrings proposal b;
  b ← buffer_put_char b 0;
  buffer_put_int b 0.

Fixpoint get_chars (n : nat) (b : Buffer) : res Buffer :=
  match n with O => Ok b | S n => '(_, b) ← buffer_get_char b; get_chars n b end.

Fixpoint get_cstrings (n : nat) (b : Buffer) : res (list (list Z) * Buffer) :=
  match n with
  | O => Ok ([], b)
  | S n =>
      '(s, b) ← buffer_get_string b;
      '(l, b) ← get_cstrings n b;
      Ok (c_str s :: l, b)
  end.

(** The proposal and [first_kex_follows]. *)
Definition kex_buf2prop (raw : Buffer) : res (list (list Z) * Z) :=
  b ← buffer_append buffer_init (buffer_ptr raw);
  b ← get_chars KEX_COOKIE_LEN b;
  '(proposal, b) ← get_cstrings PROPOSAL_MAX b;
  '(i, b) ← buffer_get_char b;
  '(_, b) ← buffer_get_int b;
  Ok (proposal, i).

(** *** Choosing the algorithms *)

Definition choose_enc (client server : list Z) : res Enc :=
  name ← or_fatal "no matching cipher found" (fst (Match.match_list client server));
  cipher ← or_fatal "matching cipher is not supported" (cipher_by_name name);
  Ok (mkEnc name cipher false (cipher_keylen cipher) (cipher_blocksize cipher) [] []).

(** [xcalloc]ed: all zero. *)
Definition zero_mac : Mac := mkMac [] false 0 None 0 0 None None None.

Definition choose_mac (df : Z) (client server : list Z) : res Mac :=
  name ← or_fatal "no matching mac found" (fst (Match.match_list client server));
  o ← mac_setup zero_mac name;
  mac ← or_fatal "unsupported mac" o;
  let key_len := if negb (Z.land df SSH_BUG_HMAC =? 0) then 16 else mac_key_len mac in
  Ok (mkMac name false (mac_len mac) None key_len (mac_type mac) (mac_evp_md mac)
        (mac_evp_ctx mac) (mac_umac_ctx mac)).

Definition choose_comp (client server : list Z) : res Comp :=
  name ← or_fatal "no matching comp found" (fst (Match.match_list client server));
  type ← (if bool_decide (name = str "zlib@openssh.com") then Ok COMP_DELAYED
          else if bool_decide (name = str "zlib") then Ok COMP_ZLIB
          else if bool_decide (name = str "none") then Ok COMP_NONE
          else Fatal "unsupported comp");
  Ok (mkComp type false name).

(** The name, [kex_type] and [evp_md]. *)
Definition choose_kex (client server : list Z) : res (list Z * Z * evp_md) :=
  name ← or_fatal "Unable to negotiate a key exchange method" (fst (Match.match_list client server));
  if bool_decide (name = KEX_DH1) then Ok (name, KEX_DH_GRP1_SHA1, EVP_sha1)
  else if bool_decide (name = KEX_DH14) then Ok (name, KEX_DH_GRP14_SHA1, EVP_sha1)
  else if bool_decide (name = KEX_DHGEX_SHA1) then Ok (name, KEX_DH_GEX_SHA1, EVP_sha1)
  else if bool_decide (name = KEX_DHGEX_SHA256) then Ok (name, KEX_DH_GEX_SHA256, evp_ssh_sha256)
  else Fatal "bad kex alg".

Definition choose_hostkeyalg (client server : list Z) : res Z :=
  alg ← or_fatal "no hostkey alg" (fst (Match.match_list client server));
  let t := key_type_from_name alg in
  if t =? KEY_UNSPEC then Fatal "bad hostkey alg" else Ok t.

Definition prop_nth (p : list (list Z)) (i : nat) : list Z := nth i p [].

(** The first names of the key-exchange and host-key lists agree. *)
Definition proposals_match (my peer : list (list Z)) : bool :=
  forallb (fun i => bool_decide (fst (Match.strsep_comma (prop_nth my i)) =
                                 fst (Match.strsep_comma (prop_nth peer i))))
    [PROPOSAL_KEX_ALGS; PROPOSAL_SERVER_HOST_KEY_ALGS].

Definition is_ctos (server : bool) (mode : kex_mode) : bool :=
  (negb server && match mode with MODE_OUT => true | MODE_IN => false end) ||
  (server && match mode with MODE_IN => true | MODE_OUT => false end).

Definition choose_newkeys (df : Z) (server : bool) (cprop sprop : list (list Z)) (mode : kex_mode) :
    res Newkeys :=
  let ctos := is_ctos server mode in
  let nenc := if ctos then PROPOSAL_ENC_ALGS_CTOS else PROPOSAL_ENC_ALGS_STOC in
  let nmac := if ctos then PROPOSAL_MAC_ALGS_CTOS else PROPOSAL_MAC_ALGS_STOC in
  let ncomp := if ctos then PROPOSAL_COMP_ALGS_CTOS else PROPOSAL_COMP_ALGS_STOC in
  enc ← choose_enc (prop_nth cprop nenc) (prop_nth sprop nenc);
  mac ← choose_mac df (prop_nth cprop nmac) (prop_nth sprop nmac);
  comp ← choose_comp (prop_nth cprop ncomp) (prop_nth sprop ncomp);
  Ok (mkNewkeys enc mac comp).

Definition need_for (need : Z) (nk : Newkeys) : Z :=
  let need := if need <? enc_key_len (nk_enc nk) then enc_key_len (nk_enc nk) else need in
  let need := if need <? enc_block_size (nk_enc nk) then enc_block_size (nk_enc nk) else need in
  if need <? mac_key_len (nk_mac nk) then mac_key_len (nk_mac nk) else need.

(** The boolean: the next packet (a wrong guess) is read and ignored. *)
Definition kex_choose_conf (df : Z) (kex : Kex) : res (Kex * bool) :=
  '(myp, _) ← kex_buf2prop (my kex);
  '(peerp, first_kex_follows) ← kex_buf2prop (peer kex);
  let '(cprop, sprop) := if server kex then (peerp, myp) else (myp, peerp) in
  nk_in ← choose_newkeys df (server kex) cprop sprop MODE_IN;
  nk_out ← choose_newkeys df (server kex) cprop sprop MODE_OUT;
  '(name, type, md) ← choose_kex (prop_nth cprop PROPOSAL_KEX_ALGS) (prop_nth sprop PROPOSAL_KEX_ALGS);
  hk ← choose_hostkeyalg (prop_nth cprop PROPOSAL_SERVER_HOST_KEY_ALGS)
         (prop_nth sprop PROPOSAL_SERVER_HOST_KEY_ALGS);
  let need := need_for (need_for 0 nk_in) nk_out in
  let skip := negb (first_kex_follows =? 0) && negb (proposals_match myp peerp) &&
              (Z.land df SSH_BUG_FIRSTKEX =? 0) in
  Ok (mkKex (session_id kex)
        (fun mode => match mode with MODE_IN => Some nk_in | MODE_OUT => Some nk_out end)
        need (server kex) (Some name) hk type (my kex) (peer kex) (done_ kex) (flags kex) md, skip).

(** *** Sending and receiving KEXINIT *)

Definition set_my (k : Kex) (b : Buffer) (fl : Z) (dn : bool) : Kex :=
  mkKex (session_id k) (kex_newkeys k) (we_need k) (server k) (kex_name k) (hostkey_type k)
    (kex_type k) b (peer k) dn fl (kex_md k).
Definition set_peer (k : Kex) (b : Buffer) : Kex :=
  mkKex (session_id k) (kex_newkeys k) (we_need k) (server k) (kex_name k) (hostkey_type k)
    (kex_type k) (my k) b (done_ k) (flags k) (kex_md k).

Definition kex_send_kexinit (c : conn) (kex : Kex) : res (conn * Kex) :=
  if negb (Z.land (flags kex) KEX_INIT_SENT =? 0) then Ok (c, kex)
  else if buffer_len (my kex) <? Z.of_nat KEX_COOKIE_LEN then
    Fatal "kex_send_kexinit: kex proposal too short"
  else
    let '(cookie, used) := random_padding KEX_COOKIE_LEN 0 0 (rand_used c) in
    let b := my kex in
    let b := mkBuffer (splice (offset b) cookie (buf b)) (alloc b) (offset b) (end_ b) in
    c ← packet_start (set_rand_used c used) SSH2_MSG_KEXINIT;
    c ← packet_put_raw c (buffer_ptr b);
    c ← packet_send c;
    Ok (c, set_my kex b (Z.lor (flags kex) KEX_INIT_SENT) false).

Definition packet_check_eom (c : conn) : res unit :=
  if packet_remaining c >? 0 then packet_disconnect "Packet integrity error." else Ok tt.

Fixpoint discard_chars (n : nat) (c : conn) : res conn :=
  match n with O => Ok c | S n => '(_, c) ← packet_get_char c; discard_chars n c end.
Fixpoint discard_strings (n : nat) (c : conn) : res conn :=
  match n with O => Ok c | S n => '(_, c) ← packet_get_string c; discard_strings n c end.

(** Up to the call of the key-exchange method [kex->kex[kex_type]] (all four are
    set by [do_ssh2_kex]); the boolean is that of [kex_choose_conf]. *)
Definition kex_kexinit_finish (c : conn) (kex : Kex) : res (conn * Kex * bool) :=
  '(c, kex) ← (if Z.land (flags kex) KEX_INIT_SENT =? 0 then kex_send_kexinit c kex else Ok (c, kex));
  '(kex, skip) ← kex_choose_conf (datafellows c) kex;
  if (0 <=? kex_type kex) && (kex_type kex <? KEX_MAX) && (kex_type kex <=? KEX_DH_GEX_SHA256)
  then Ok (c, kex, skip) else Fatal "Unsupported key exchange".

Definition kex_input_kexinit (c : conn) (ctxt : option Kex) : res (conn * Kex * bool) :=
  match ctxt with
  | None => Fatal "kex_input_kexinit: no kex, cannot rekey"
  | Some kex =>
      pb ← buffer_append (peer kex) (packet_get_raw c);
      let kex := set_peer kex pb in
      c ← discard_chars KEX_COOKIE_LEN c;
      c ← discard_strings PROPOSAL_MAX c;
      '(_, c) ← packet_get_char c;
      '(_, c) ← packet_get_int c;
      _ ← packet_check_eom c;
      kex_kexinit_finish c kex
  end.

Definition kex_setup (c : conn) (proposal : list (list Z)) : res (conn * Kex) :=
  m ← kex_prop2buf buffer_init proposal;
  kex_send_kexinit c (mkKex None (fun _ => None) 0 false None 0 0 m buffer_init false 0 EVP_sha1).

(** *** Key derivation *)

(** The expansion loop; [digest] is the key material so far. *)
Fixpoint expand_key (fuel : nat) (md : evp_md) (prefix digest : list Z) (have need mdsz : Z) :
    res (list Z) :=
  if need >? have then
    match fuel with
    | O => OutOfFuel
    | S fuel =>
        expand_key fuel md prefix
          (digest ++ EVP_Digest md (prefix ++ take (Z.to_nat have) digest))
          (u32 (have + mdsz)) need mdsz
    end
  else Ok digest.

Definition derive_key (df : Z) (kex : Kex) (id need : Z) (hash : list Z) (shared_secret : Z) :
    res (list Z) :=
  let mdsz := EVP_MD_size (kex_md kex) in
  if mdsz <=? 0 then Fatal "bad kex md size"
  else
    b ← buffer_put_bignum2 buffer_init shared_secret;
    let k := if Z.land df SSH_BUG_DERIVEKEY =? 0 then buffer_ptr b else [] in
    let digest := EVP_Digest (kex_md kex) (k ++ hash ++ [u8 id] ++ default [] (session_id kex)) in
    expand_key (Z.to_nat need) (kex_md kex) (k ++ hash) digest mdsz need mdsz.

Fixpoint derive_keys (df : Z) (kex : Kex) (ids : list Z) (hash : list Z) (shared_secret : Z) :
    res (list (list Z)) :=
  match ids with
  | [] => Ok []
  | id :: ids =>
      k ← derive_key df kex id (we_need kex) hash shared_secret;
      ks ← derive_keys df kex ids hash shared_secret;
      Ok (k :: ks)
  end.

Definition with_keys (nk : Newkeys) (iv key mkey : list Z) : Newkeys :=
  let e := nk_enc nk in
  let m := nk_mac nk in
  mkNewkeys (mkEnc (enc_name e) (enc_cipher e) (enc_enabled e) (enc_key_len e) (enc_block_size e) key iv)
    (mkMac (mac_name m) (mac_enabled m) (mac_len m) (Some mkey) (mac_key_len m) (mac_type m)
       (mac_evp_md m) (mac_evp_ctx m) (mac_umac_ctx m)) (nk_comp nk).

Definition install_keys (c : conn) (kex : Kex) (keys : list (list Z)) (mode : kex_mode) : res conn :=
  match kex_newkeys kex mode with
  | None => Fatal "NULL newkeys"
  | Some nk =>
      let ctos := is_ctos (server kex) mode in
      let key i := nth i keys [] in
      let nk := with_keys nk (key (if ctos then 0 else 1)%nat) (key (if ctos then 2 else 3)%nat)
                  (key (if ctos then 4 else 5)%nat) in
      let d := get_dir c mode in
      Ok (set_dir c mode (set_keys d (newkeys d) (Some nk)))
  end.

Definition kex_derive_keys (c : conn) (kex : Kex) (hash : list Z) (shared_secret : Z) :
    res (conn * Kex) :=
  keys ← derive_keys (datafellows c) kex [65; 66; 67; 68; 69; 70] hash shared_secret;
  c ← install_keys c kex keys MODE_IN;
  c ← install_keys c kex keys MODE_OUT;
  Ok (c, mkKex (session_id kex) (fun _ => None) (we_need kex) (server kex) (kex_name kex)
           (hostkey_type kex) (kex_type kex) (my kex) (peer kex) (done_ kex) (flags kex) (kex_md kex)).

(** *** Exchange hashes (kexdh.cpp, kexgex.cpp) *)

Definition put_kexinit (b : Buffer) (kexinit : list Z) : res Buffer :=
  b ← buffer_put_int b (zlen kexinit + 1);
  b ← buffer_put_char b SSH2_MSG_KEXINIT;
  buffer_append b kexinit.

Definition kex_dh_hash (client_version_string server_version_string ckexinit skexinit
    serverhostkeyblob : list Z) (client_dh_pub server_dh_pub shared_secret : Z) : res (list Z) :=
  b ← buffer_put_cstring buffer_init (Some client_version_string);
  b ← buffer_put_cstring b (Some server_version_string);
  b ← put_kexinit b ckexinit;
  b ← put_kexinit b skexinit;
  b ← buffer_put_string b serverhostkeyblob;
  b ← buffer_put_bignum2 b client_dh_pub;
  b ← buffer_put_bignum2 b server_dh_pub;
  b ← buffer_put_bignum2 b shared_secret;
  Ok (EVP_Digest EVP_sha1 (buffer_ptr b)).

Definition kexgex_hash (md : evp_md) (client_version_string server_version_string ckexinit skexinit
    serverhostkeyblob : list Z) (min wantbits max prime gen client_dh_pub server_dh_pub
    shared_secret : Z) : res (list Z) :=
  b ← buffer_put_cstring buffer_init (Some client_version_string);
  b ← buffer_put_cstring b (Some server_version_string);
  b ← put_kexinit b ckexinit;
  b ← put_kexinit b skexinit;
  b ← buffer_put_string b serverhostkeyblob;
  b ← (if (min =? -1) || (max =? -1) then buffer_put_int b wantbits
       else b ← buffer_put_int b min; b ← buffer_put_int b wantbits; buffer_put_int b max);
  b ← buffer_put_bignum2 b prime;
  b ← buffer_put_bignum2 b gen;
  b ← buffer_put_bignum2 b client_dh_pub;
  b ← buffer_put_bignum2 b server_dh_pub;
  b ← buffer_put_bignum2 b shared_secret;
  Ok (EVP_Digest md (buffer_ptr b)).

End Kex.

(** ** Theorems: big numbers *)

Section BignumTheorems.
Context `{BN : BnLib} `{!BnLaws}.

(** The SSH2 encoding of a non-negative number. *)
Definition mpint (v : Z) : list Z :=
  if v =? 0 then []
  else if negb (Z.land (znth 0 (BN_bn2bin v) 0) 0x80 =? 0) then 0 :: BN_bn2bin v
  else BN_bn2bin v.

Lemma bn2bin_pos v : 0 < v -> 0 < BN_num_bytes v /\ zlen (BN_bn2bin v) = BN_num_bytes v.
Proof.
  intros Hv. rewrite (bn2bin_len v Hv). unfold BN_num_bytes. pose proof (bn_bits v Hv).
  split; [|done]. apply Z.div_str_pos. lia.
Qed.

Lemma mpint_len v : 0 < v -> BN_num_bytes v <= zlen (mpint v) <= BN_num_bytes v + 1.
Proof.
  intros Hv. destruct (bn2bin_pos v Hv) as [Hp Hl]. unfold mpint.
  replace (v =? 0) with false by lia.
  destruct (negb _); unfold zlen in *; cbn [length]; lia.
Qed.

Lemma buffer_put_bignum2_fits n b v :
  capped n b -> 0 <= v -> BN_num_bytes v <= 8 * 1024 -> fits n (put_u32 (zlen (mpint v)) ++ mpint v) ->
  exists b', buffer_put_bignum2 b v = Ok b' /\
    capped (n + zlen (put_u32 (zlen (mpint v)) ++ mpint v)) b' /\
    contents b' = contents b ++ put_u32 (zlen (mpint v)) ++ mpint v.
Proof.
  intros Hc Hv Hsz Hfit. unfold buffer_put_bignum2, buffer_put_bignum2_ret.
  destruct (v =? 0) eqn:E0; zbool.
  { subst v. unfold buffer_put_int.
    destruct (buffer_append_fits n b (put_u32 0) Hc Hfit ltac:(done)) as (b' & E & Hc' & Hcon).
    rewrite E. rsimp. by exists b'. }
  destruct (bn2bin_pos v ltac:(lia)) as [Hp Hl]. pose proof (mpint_len v ltac:(lia)) as Hm.
  replace (v <? 0) with false by lia. rewrite u32_small by lia.
  replace (BN_num_bytes v + 1 <? 2) with false by lia. rewrite Hl.
  replace (BN_num_bytes v =? BN_num_bytes v + 1 - 1) with true by lia. cbn [negb].
  set (k := if negb _ then 0%nat else 1%nat).
  assert (Hk : drop k (0 :: BN_bn2bin v) = mpint v).
  { unfold k, mpint. replace (v =? 0) with false by lia.
    change (znth 0 (0 :: BN_bn2bin v) 1) with (znth 0 (BN_bn2bin v) 0). by destruct (negb _). }
  rewrite Hk. destruct (buffer_put_string_fits n b (mpint v) Hc Hfit) as (b' & E & Hc' & Hcon).
  { unfold BUFFER_MAX_CHUNK. lia. }
  rewrite E. rsimp. by exists b'.
Qed.

Lemma writes_bignum2 v : 0 <= v -> BN_num_bytes v <= 8 * 1024 ->
  writes (fun b => buffer_put_bignum2 b v) (put_u32 (zlen (mpint v)) ++ mpint v).
Proof. intros Hv Hs n b Hc Hf. by apply buffer_put_bignum2_fits. Qed.

(** The top bit of an encoding is clear: it is never read as a negative number. *)
Lemma mpint_high v : 0 <= v -> (zlen (mpint v) >? 0) && negb (Z.land (znth 0 (mpint v) 0) 0x80 =? 0) = false.
Proof.
  intros Hv. unfold mpint. destruct (v =? 0); [done|].
  destruct (negb (Z.land (znth 0 (BN_bn2bin v) 0) 128 =? 0)) eqn:E; [by rewrite andb_false_r|].
  by rewrite E, andb_false_r.
Qed.

Lemma mpint_value v : 0 <= v -> BN_bin2bn (mpint v) = v.
Proof.
  intros Hv. unfold mpint. destruct (v =? 0) eqn:E; zbool; [subst; apply bin2bn_nil|].
  destruct (negb _); rewrite ?bin2bn_pad; apply bin2bn_bn2bin; lia.
Qed.

(** Mpint round trip.  A non-negative number of at most 8 KiB less one byte
    written with [buffer_put_bignum2] behind the data of a buffer is read back by
    [buffer_get_bignum2]; the sign bit the encoder guards against never makes the
    decoder refuse it. *)
Theorem bignum2_roundtrip n b v :
  capped n b -> contents b = [] -> 0 <= v -> BN_num_bytes v <= 8 * 1024 - 1 -> n <= 1000000 ->
  exists b1 b2, buffer_put_bignum2 b v = Ok b1 /\ buffer_get_bignum2 b1 = Ok (v, b2) /\
    contents b2 = [].
Proof.
  intros Hc Hcon Hv Hsz Hn.
  assert (Hm : zlen (mpint v) <= 8 * 1024).
  { destruct (Z.eq_dec v 0) as [->|]; [done|]. pose proof (mpint_len v ltac:(lia)). lia. }
  destruct (buffer_put_bignum2_fits n b v Hc Hv) as (b1 & E1 & Hc1 & H1); [lia|..].
  { unfold fits. rewrite zlen_app. change (zlen (put_u32 (zlen (mpint v)))) with 4.
    unfold BUFFER_ALLOCSZ, BUFFER_MAX_LEN. lia. }
  rewrite Hcon in H1. cbn [app] in H1. rewrite <- (app_nil_r (mpint v)) in H1 at 2.
  exists b1. unfold buffer_get_bignum2, buffer_get_bignum2_ret.
  destruct (buffer_get_string_app _ b1 (mpint v) [] Hc1 ltac:(lia) H1) as (b2 & E2 & _ & H2).
  unfold buffer_get_string in E2.
  destruct (buffer_get_string_ret b1) as [[[s|] b3]| |] eqn:E3; try discriminate E2.
  cbn in E2. injection E2 as -> ->. exists b2. rsimp. rewrite mpint_high by done.
  destruct (zlen (mpint v) >? 8 * 1024) eqn:E4; zbool; [lia|]. rsimp. by rewrite mpint_value.
Qed.

End BignumTheorems.

(** ** Theorems: KEXINIT *)

Section KexTheorems.
Context `{CR : Crypto} `{!Digest} `{ZL : Zlib} `{RN : Random} `{BN : BnLib} `{!BnLaws}.

Definition no_nul (s : list Z) : Prop := Forall (fun c => c <> 0) s.

Lemma c_str_no_nul s : no_nul s -> c_str s = s.
Proof.
  induction 1 as [|c s Hc Hs IH]; [done|]. cbn [c_str]. replace (c =? 0) with false by lia.
  by rewrite IH.
Qed.

Definition prop_fields (p : list (list Z)) (follows : Z) : list field :=
  (FString <$> p) ++ [FChar follows; FInt 0].

Lemma put_fields_app b fs gs : put_fields b (fs ++ gs) = b ← put_fields b fs; put_fields b gs.
Proof.
  revert b. induction fs as [|f fs IH]; intros b; [done|]. cbn [app put_fields].
  destruct (put_field b f); rsimp; [apply IH|done|done].
Qed.

Lemma put_zeros_fields n b : put_zeros n b = put_fields b (replicate n (FChar 0)).
Proof. revert b. induction n as [|n IH]; intros b; [done|]. cbn. by destruct (buffer_put_char b 0); rsimp. Qed.

Lemma put_cstrings_fields p b :
  Forall no_nul p -> put_cstrings p b = put_fields b (FString <$> p).
Proof.
  intros Hp. revert b. induction Hp as [|s p Hs Hp IH]; intros b; [done|].
  cbn [put_cstrings fmap list_fmap put_fields put_field]. unfold buffer_put_cstring.
  rewrite c_str_no_nul by done. by destruct (buffer_put_string b s); rsimp.
Qed.

Lemma prop2buf_fields b p :
  Forall no_nul p ->
  kex_prop2buf b p =
  put_fields (buffer_clear b) (replicate KEX_COOKIE_LEN (FChar 0) ++ prop_fields p 0).
Proof.
  intros Hp. unfold kex_prop2buf, prop_fields. rewrite put_fields_app, put_zeros_fields.
  destruct (put_fields _ _) as [b1| |]; rsimp; [|done..].
  rewrite put_fields_app, put_cstrings_fields by done.
  destruct (put_fields b1 _) as [b2| |]; rsimp; [|done..]. cbn.
  destruct (buffer_put_char b2 0) as [b3| |]; rsimp; [|done..]. by destruct (buffer_put_int b3 0).
Qed.

Lemma get_chars_app n : forall b k cookie rest,
  capped k b -> length cookie = n -> contents b = cookie ++ rest ->
  exists b', get_chars n b = Ok b' /\ capped k b' /\ contents b' = rest.
Proof.
  induction n as [|n IH]; intros b k cookie rest Hc Hl Hcon.
  { destruct cookie; [|done]. by exists b. }
  destruct cookie as [|x cookie]; [done|]. injection Hl as Hl.
  destruct (buffer_get_ret_app k b [x] (cookie ++ rest) Hc Hcon) as (b1 & E1 & Hc1 & H1).
  destruct (IH b1 k cookie rest Hc1 Hl H1) as (b2 & E2 & ?). exists b2.
  cbn [get_chars]. unfold buffer_get_char, buffer_get_char_ret.
  change (zlen [x]) with 1 in E1. rewrite E1. rsimp. done.
Qed.

Lemma get_cstrings_app p : forall b k rest,
  capped k b -> Forall (fun s => zlen s <= 256 * 1024) p -> Forall no_nul p ->
  contents b = fields_bytes (FString <$> p) ++ rest ->
  exists b', get_cstrings (length p) b = Ok (p, b') /\ capped k b' /\ contents b' = rest.
Proof.
  induction p as [|s p IH]; intros b k rest Hc Hl Hn Hcon; [by exists b|].
  apply Forall_cons in Hl as [Hs Hl]. apply Forall_cons in Hn as [Hns Hn].
  change (fields_bytes (FString <$> s :: p)) with
    ((put_u32 (zlen s) ++ s) ++ fields_bytes (FString <$> p)) in Hcon.
  rewrite <- !(assoc_L (++)) in Hcon.
  destruct (buffer_get_string_app k b s _ Hc Hs Hcon) as (b1 & E1 & Hc1 & H1).
  destruct (IH b1 k rest Hc1 Hl Hn H1) as (b2 & E2 & ?). exists b2.
  cbn [length get_cstrings]. rewrite E1. rsimp. rewrite E2. rsimp. by rewrite c_str_no_nul.
Qed.

Lemma fields_bytes_app fs gs : fields_bytes (fs ++ gs) = fields_bytes fs ++ fields_bytes gs.
Proof. unfold fields_bytes. by rewrite fmap_app, concat_app. Qed.

(** Parsing a KEXINIT payload with any cookie. *)
Lemma buf2prop_parse raw cookie p follows :
  buffer_ok raw -> length cookie = KEX_COOKIE_LEN -> length p = PROPOSAL_MAX ->
  Forall (fun s => zlen s <= 256 * 1024) p -> Forall no_nul p -> 0 <= follows < 256 ->
  contents raw = cookie ++ fields_bytes (prop_fields p follows) ->
  zlen (contents raw) <= BUFFER_MAX_CHUNK ->
  kex_buf2prop raw = Ok (p, follows).
Proof.
  intros Hok Hck Hlen Hl Hn Hf Hcon Hsz. unfold kex_buf2prop.
  rewrite buffer_ptr_contents by done.
  destruct (buffer_append_fits 0 buffer_init (contents raw) buffer_init_capped) as (b & -> & Hc & Hb);
    [|done|].
  { unfold fits, BUFFER_MAX_CHUNK, BUFFER_ALLOCSZ, BUFFER_MAX_LEN in *. lia. }
  rsimp. rewrite buffer_init_contents, Hcon in Hb. cbn [app] in Hb.
  destruct (get_chars_app _ b _ cookie _ Hc Hck Hb) as (b1 & -> & Hc1 & H1). rsimp.
  unfold prop_fields in H1. rewrite fields_bytes_app in H1.
  destruct (get_cstrings_app p b1 _ _ Hc1 Hl Hn H1) as (b2 & E2 & Hc2 & H2).
  rewrite Hlen in E2. rewrite E2. rsimp. rewrite <- (app_nil_r (fields_bytes _)) in H2.
  destruct (get_fields_app [FChar follows; FInt 0] _ b2 [] Hc2) as (b3 & E3 & _ & _);
    [repeat constructor; cbn; lia|done|].
  cbn [get_fields get_field] in E3.
  destruct (buffer_get_char b2) as [[v b4]| |]; cbn [mbind res_bind] in E3 |- *; try discriminate E3.
  cbn [mbind res_bind] in E3 |- *.
  destruct (buffer_get_int b4) as [[v' b5]| |]; cbn [mbind res_bind] in E3 |- *; try discriminate E3.
  by injection E3 as -> _ _.
Qed.

(** What [kex_prop2buf] leaves in the buffer. *)
Lemma prop2buf_ok b p :
  capped 1000 b -> Forall (fun s => zlen s <= 256 * 1024) p -> Forall no_nul p ->
  zlen (fields_bytes (prop_fields p 0)) <= 500000 ->
  exists m, kex_prop2buf b p = Ok m /\ buffer_ok m /\
    contents m = replicate KEX_COOKIE_LEN 0 ++ fields_bytes (prop_fields p 0).
Proof.
  intros Hc Hl Hn Hsz. rewrite prop2buf_fields by done.
  set (fs := replicate KEX_COOKIE_LEN (FChar 0) ++ prop_fields p 0).
  assert (Hb : fields_bytes fs = replicate KEX_COOKIE_LEN 0 ++ fields_bytes (prop_fields p 0))
    by (unfold fs; by rewrite fields_bytes_app).
  destruct (put_fields_fits fs 1000 (buffer_clear b)) as (m & -> & [Hcm _] & Hm).
  - by apply buffer_clear_capped.
  - unfold fs, prop_fields. apply Forall_app. split; [by apply Forall_replicate|].
    apply Forall_app. split; [|repeat constructor; cbn; lia]. by apply Forall_fmap.
  - unfold fits. rewrite Hb, zlen_app. change (zlen (replicate KEX_COOKIE_LEN 0)) with 16.
    unfold BUFFER_ALLOCSZ, BUFFER_MAX_LEN. lia.
  - exists m. split; [done|]. split; [done|]. rewrite buffer_clear_contents in Hm. by rewrite Hm, Hb.
Qed.

(** Whatever cookie is put over the zero bytes. *)
Lemma buf2prop_cookie m cookie p :
  length p = PROPOSAL_MAX -> Forall (fun s => zlen s <= 256 * 1024) p -> Forall no_nul p ->
  zlen (fields_bytes (prop_fields p 0)) <= 500000 -> buffer_ok m -> length cookie = KEX_COOKIE_LEN ->
  contents m = cookie ++ fields_bytes (prop_fields p 0) -> kex_buf2prop m = Ok (p, 0).
Proof.
  intros Hlen Hl Hn Hsz Hok Hck Hcon. eapply buf2prop_parse; try done.
  rewrite Hcon, zlen_app. unfold zlen at 1. rewrite Hck. unfold BUFFER_MAX_CHUNK, KEX_COOKIE_LEN. lia.
Qed.

(** KEXINIT round trip.  The proposal written by [kex_prop2buf] is what
    [kex_buf2prop] parses, whatever cookie [kex_send_kexinit] later puts over the
    sixteen zero bytes. *)
Theorem kexinit_roundtrip b p :
  capped 1000 b -> length p = PROPOSAL_MAX ->
  Forall (fun s => zlen s <= 256 * 1024) p -> Forall no_nul p ->
  zlen (fields_bytes (prop_fields p 0)) <= 500000 ->
  exists m, kex_prop2buf b p = Ok m /\
    forall m' cookie, buffer_ok m' -> length cookie = KEX_COOKIE_LEN ->
      contents m' = cookie ++ drop KEX_COOKIE_LEN (contents m) -> kex_buf2prop m' = Ok (p, 0).
Proof.
  intros Hc Hlen Hl Hn Hsz. destruct (prop2buf_ok b p Hc Hl Hn Hsz) as (m & E & _ & Hm).
  exists m. split; [done|]. intros m' cookie Hok Hck Hcon. apply (buf2prop_cookie m' cookie); try done.
  rewrite Hcon, Hm. done.
Qed.

(** ** Theorems: negotiation *)

Lemma need_for_max n nk :
  need_for n nk = Z.max n (Z.max (enc_key_len (nk_enc nk))
                    (Z.max (enc_block_size (nk_enc nk)) (mac_key_len (nk_mac nk)))).
Proof.
  assert (Hm : forall a b, (if a <? b then b else a) = Z.max a b) by (intros; zcase; lia).
  unfold need_for. rewrite !Hm. lia.
Qed.

Lemma need_for_comm a b : need_for (need_for 0 a) b = need_for (need_for 0 b) a.
Proof. rewrite !need_for_max. lia. Qed.

Lemma buf2prop_contents a b :
  buffer_ok a -> buffer_ok b -> contents a = contents b -> kex_buf2prop a = kex_buf2prop b.
Proof. intros Ha Hb E. unfold kex_buf2prop. by rewrite !buffer_ptr_contents, E by done. Qed.

(** What the two ends must agree on. *)
Definition agree (kc ks : Kex) : Prop :=
  kex_newkeys kc MODE_OUT = kex_newkeys ks MODE_IN /\
  kex_newkeys kc MODE_IN = kex_newkeys ks MODE_OUT /\
  we_need kc = we_need ks /\ kex_name kc = kex_name ks /\ hostkey_type kc = hostkey_type ks /\
  kex_type kc = kex_type ks /\ kex_md kc = kex_md ks.

(** The outcome of [kex_choose_conf] as a function of the two proposals. *)
Lemma choose_conf_inv df k k' skip :
  kex_choose_conf df k = Ok (k', skip) ->
  exists mp mf pp pf ctos stoc name type md hk,
    kex_buf2prop (my k) = Ok (mp, mf) /\ kex_buf2prop (peer k) = Ok (pp, pf) /\
    let cp := if server k then pp else mp in
    let sp := if server k then mp else pp in
    choose_newkeys df true cp sp MODE_IN = Ok ctos /\ choose_newkeys df true cp sp MODE_OUT = Ok stoc /\
    choose_kex (prop_nth cp PROPOSAL_KEX_ALGS) (prop_nth sp PROPOSAL_KEX_ALGS) = Ok (name, type, md) /\
    choose_hostkeyalg (prop_nth cp PROPOSAL_SERVER_HOST_KEY_ALGS)
      (prop_nth sp PROPOSAL_SERVER_HOST_KEY_ALGS) = Ok hk /\
    kex_newkeys k' (if server k then MODE_IN else MODE_OUT) = Some ctos /\
    kex_newkeys k' (if server k then MODE_OUT else MODE_IN) = Some stoc /\
    we_need k' = need_for (need_for 0 ctos) stoc /\ kex_name k' = Some name /\
    hostkey_type k' = hk /\ kex_type k' = type /\ kex_md k' = md.
Proof.
  unfold kex_choose_conf. intros E.
  destruct (kex_buf2prop (my k)) as [[mp mf]| |]; cbn [mbind res_bind] in E; try discriminate E.
  destruct (kex_buf2prop (peer k)) as [[pp pf]| |]; cbn [mbind res_bind] in E; try discriminate E.
  exists mp, mf, pp, pf.
  destruct (server k); cbn [mbind res_bind] in E.
  - destruct (choose_newkeys df true pp mp MODE_IN) as [ni| |]; cbn [mbind res_bind] in E; try discriminate E.
    destruct (choose_newkeys df true pp mp MODE_OUT) as [no| |]; cbn [mbind res_bind] in E; try discriminate E.
    destruct (choose_kex _ _) as [[[name type] md]| |]; cbn [mbind res_bind] in E; try discriminate E.
    destruct (choose_hostkeyalg _ _) as [hk| |]; cbn [mbind res_bind] in E; try discriminate E.
    injection E as <- _. by exists ni, no, name, type, md, hk.
  - change (choose_newkeys df false mp pp MODE_IN) with (choose_newkeys df true mp pp MODE_OUT) in E.
    change (choose_newkeys df false mp pp MODE_OUT) with (choose_newkeys df true mp pp MODE_IN) in E.
    destruct (choose_newkeys df true mp pp MODE_OUT) as [ni| |]; cbn [mbind res_bind] in E; try discriminate E.
    destruct (choose_newkeys df true mp pp MODE_IN) as [no| |]; cbn [mbind res_bind] in E; try discriminate E.
    destruct (choose_kex _ _) as [[[name type] md]| |]; cbn [mbind res_bind] in E; try discriminate E.
    destruct (choose_hostkeyalg _ _) as [hk| |]; cbn [mbind res_bind] in E; try discriminate E.
    injection E as <- _. exists no, ni, name, type, md, hk. cbn. by rewrite need_for_comm.
Qed.

Lemma choose_conf_intro df k mp mf pp pf ctos stoc name type md hk :
  kex_buf2prop (my k) = Ok (mp, mf) -> kex_buf2prop (peer k) = Ok (pp, pf) ->
  let cp := if server k then pp else mp in
  let sp := if server k then mp else pp in
  choose_newkeys df true cp sp MODE_IN = Ok ctos -> choose_newkeys df true cp sp MODE_OUT = Ok stoc ->
  choose_kex (prop_nth cp PROPOSAL_KEX_ALGS) (prop_nth sp PROPOSAL_KEX_ALGS) = Ok (name, type, md) ->
  choose_hostkeyalg (prop_nth cp PROPOSAL_SERVER_HOST_KEY_ALGS)
    (prop_nth sp PROPOSAL_SERVER_HOST_KEY_ALGS) = Ok hk ->
  exists k' skip, kex_choose_conf df k = Ok (k', skip).
Proof.
  intros Em Ep cp sp Ec Es Ek Eh. unfold kex_choose_conf, cp, sp in *. rewrite Em, Ep. rsimp.
  destruct (server k).
  - rewrite Ec. rsimp. rewrite Es. rsimp. rewrite Ek. rsimp. rewrite Eh. rsimp. by eexists _, _.
  - change (choose_newkeys df false mp pp MODE_IN) with (choose_newkeys df true mp pp MODE_OUT).
    rewrite Es. rsimp.
    change (choose_newkeys df false mp pp MODE_OUT) with (choose_newkeys df true mp pp MODE_IN).
    rewrite Ec. rsimp. rewrite Ek. rsimp. rewrite Eh. rsimp. by eexists _, _.
Qed.

(** One direction of the agreement, for either role. *)
Lemma choose_conf_agree df ka kb ka' sa :
  server ka = negb (server kb) ->
  kex_buf2prop (my ka) = kex_buf2prop (peer kb) -> kex_buf2prop (peer ka) = kex_buf2prop (my kb) ->
  kex_choose_conf df ka = Ok (ka', sa) ->
  exists kb' sb, kex_choose_conf df kb = Ok (kb', sb) /\ agree ka' kb'.
Proof.
  intros Hs Hm Hp E.
  destruct (choose_conf_inv _ _ _ _ E) as (mp & mf & pp & pf & ctos & stoc & name & type & md & hk &
    Em & Ep & Ec & Es & Ek & Eh & Kc & Ks & Hn & H1 & H2 & H3 & H4).
  assert (Hb : exists kb' sb, kex_choose_conf df kb = Ok (kb', sb)).
  { eapply (choose_conf_intro df kb pp pf mp mf); [congruence|congruence|..];
      rewrite Hs in *; destruct (server kb); cbn [negb] in *; eassumption. }
  destruct Hb as (kb' & sb & Eb). exists kb', sb. split; [done|].
  destruct (choose_conf_inv _ _ _ _ Eb) as (mp2 & mf2 & pp2 & pf2 & ctos2 & stoc2 & name2 & type2 & md2 & hk2 &
    Em2 & Ep2 & Ec2 & Es2 & Ek2 & Eh2 & Kc2 & Ks2 & Hn2 & I1 & I2 & I3 & I4).
  rewrite <- Hp, Ep in Em2. rewrite <- Hm, Em in Ep2. injection Em2 as <- <-. injection Ep2 as <- <-.
  unfold agree. rewrite Hs in *. destruct (server kb); cbn [negb] in *;
    rewrite Ec in Ec2; rewrite Es in Es2; rewrite Ek in Ek2; rewrite Eh in Eh2;
    injection Ec2 as <-; injection Es2 as <-; injection Ek2 as <- <- <-; injection Eh2 as <-;
    rewrite Kc, Ks, Kc2, Ks2; repeat split; congruence.
Qed.

(** C3: both ends choose the same algorithms.  When a client and a server hold
    each other's KEXINIT payloads, [kex_choose_conf] succeeds at one end exactly
    when it succeeds at the other, and then what the client uses to send is what
    the server uses to receive and the other way round; they agree on the
    key-exchange method, the host-key type, the hash and the amount of key
    material. *)
Theorem kex_agreement df kc ks :
  server kc = false -> server ks = true ->
  buffer_ok (my kc) -> buffer_ok (peer kc) -> buffer_ok (my ks) -> buffer_ok (peer ks) ->
  contents (my kc) = contents (peer ks) -> contents (peer kc) = contents (my ks) ->
  (forall kc' s, kex_choose_conf df kc = Ok (kc', s) ->
     exists ks' s', kex_choose_conf df ks = Ok (ks', s') /\ agree kc' ks') /\
  (forall ks' s, kex_choose_conf df ks = Ok (ks', s) ->
     exists kc' s', kex_choose_conf df kc = Ok (kc', s') /\ agree kc' ks').
Proof.
  intros Hc Hs H1 H2 H3 H4 E1 E2.
  pose proof (buf2prop_contents _ _ H1 H4 E1) as B1. pose proof (buf2prop_contents _ _ H2 H3 E2) as B2.
  split.
  - intros kc' s E. eapply choose_conf_agree; try eassumption. by rewrite Hc, Hs.
  - intros ks' s E. destruct (choose_conf_agree df ks kc ks' s) as (kc' & s' & E' & Ha); try done.
    { by rewrite Hc, Hs. }
    exists kc', s'. split; [done|]. destruct Ha as (? & ? & ? & ? & ? & ? & ?). unfold agree. repeat split; congruence.
Qed.

(** ** Theorems: key derivation *)

(** The expansion of RFC 4253, section 7.2: the first [n] blocks. *)
Fixpoint rfc_key (md : evp_md) (k_h first : list Z) (n : nat) : list Z :=
  match n with
  | O => []
  | S O => EVP_Digest md first
  | S n => let prev := rfc_key md k_h first n in prev ++ EVP_Digest md (k_h ++ prev)
  end.

Lemma rfc_key_len md k_h first n : zlen (rfc_key md k_h first n) = Z.of_nat n * EVP_MD_size md.
Proof.
  induction n as [|n IH]; [done|]. destruct n as [|n].
  - cbn [rfc_key]. rewrite digest_length. lia.
  - cbn [rfc_key] in *. rewrite zlen_app, IH, digest_length. lia.
Qed.

Lemma expand_key_rfc md k_h first need : forall fuel n,
  (0 < n)%nat -> need < 2 ^ 31 ->
  need - Z.of_nat n * EVP_MD_size md <= Z.of_nat fuel ->
  (Z.of_nat n - 1) * EVP_MD_size md < need ->
  expand_key fuel md k_h (rfc_key md k_h first n) (Z.of_nat n * EVP_MD_size md) need (EVP_MD_size md)
  = Ok (rfc_key md k_h first (Z.to_nat ((need + (EVP_MD_size md - 1)) / EVP_MD_size md))).
Proof.
  pose proof (digest_size_pos md) as Hsz. set (sz := EVP_MD_size md) in *.
  induction fuel as [|fuel IH]; intros n Hn Hneed Hf Hlow.
  - cbn [expand_key]. destruct (need >? _) eqn:E; zbool; [lia|]. do 2 f_equal.
    enough ((need + (sz - 1)) / sz = Z.of_nat n) by lia. symmetry. apply (Z.div_unique _ _ _ (need + (sz-1) - sz * Z.of_nat n)); lia.
  - cbn [expand_key]. destruct (need >? _) eqn:E; zbool.
    + rewrite u32_small by lia.
      replace (Z.of_nat n * sz + sz) with (Z.of_nat (S n) * sz) by lia.
      rewrite take_ge.
      2: { pose proof (rfc_key_len md k_h first n) as Hl. fold sz in Hl. unfold zlen in Hl. lia. }
      replace (rfc_key md k_h first n ++ EVP_Digest md (k_h ++ rfc_key md k_h first n))
        with (rfc_key md k_h first (S n)) by (destruct n; [lia|done]).
      apply IH; lia.
    + do 2 f_equal.
      enough ((need + (sz - 1)) / sz = Z.of_nat n) by lia. symmetry. apply (Z.div_unique _ _ _ (need + (sz-1) - sz * Z.of_nat n)); lia.
Qed.

Lemma derive_key_blocks df kex id need hash secret b :
  0 < need < 2 ^ 31 -> buffer_put_bignum2 buffer_init secret = Ok b ->
  let md := kex_md kex in
  let K := if Z.land df SSH_BUG_DERIVEKEY =? 0 then buffer_ptr b else [] in
  let n := (need + (EVP_MD_size md - 1)) / EVP_MD_size md in
  let key := rfc_key md (K ++ hash) (K ++ hash ++ [u8 id] ++ default [] (session_id kex)) (Z.to_nat n) in
  derive_key df kex id need hash secret = Ok key /\ need <= zlen key /\ zlen key = n * EVP_MD_size md.
Proof.
  intros Hneed Hb md K n key. pose proof (digest_size_pos md) as Hsz.
  pose proof (roundup_bounds need (EVP_MD_size md) (Z.lt_le_incl _ _ (proj1 Hneed)) (proj1 Hsz)) as Hr.
  fold n in Hr. assert (Hq : 0 <= n) by (apply Z.div_pos; lia).
  assert (Hl : zlen key = n * EVP_MD_size md).
  { unfold key. rewrite rfc_key_len. by rewrite Z2Nat.id. }
  split; [|lia]. unfold derive_key. fold md.
  destruct (EVP_MD_size md <=? 0) eqn:E; zbool; [lia|]. rewrite Hb. rsimp. fold K.
  pose proof (expand_key_rfc md (K ++ hash) (K ++ hash ++ [u8 id] ++ default [] (session_id kex)) need
    (Z.to_nat need) 1 ltac:(lia) ltac:(lia) ltac:(lia) ltac:(lia)) as Hx.
  change (Z.of_nat 1 * EVP_MD_size md) with (1 * EVP_MD_size md) in Hx. rewrite Z.mul_1_l in Hx. exact Hx.
Qed.

(** C6: key derivation.  [derive_key] terminates and computes the key stream of
    RFC 4253: the concatenation K1 || K2 || ... of [roundup (need, mdsz) / mdsz]
    digests, where K1 hashes the secret, the exchange hash, the letter and the
    session id, and every later block hashes the secret, the exchange hash and all
    blocks before it.  Its length is exactly the memory the code allocates for it. *)
Theorem derive_key_rfc4253 df kex id need hash secret b :
  0 < need < 2 ^ 31 -> buffer_put_bignum2 buffer_init secret = Ok b ->
  Z.land df SSH_BUG_DERIVEKEY = 0 ->
  let md := kex_md kex in
  let K := buffer_ptr b in
  let blocks := Z.to_nat ((need + (EVP_MD_size md - 1)) / EVP_MD_size md) in
  let key := rfc_key md (K ++ hash) (K ++ hash ++ [u8 id] ++ default [] (session_id kex)) blocks in
  derive_key df kex id need hash secret = Ok key /\
  need <= zlen key /\ zlen key = (need + (EVP_MD_size md - 1)) / EVP_MD_size md * EVP_MD_size md.
Proof.
  intros Hneed Hb Hdf md K blocks key.
  destruct (derive_key_blocks df kex id need hash secret b Hneed Hb) as (E & Hn & Hl).
  rewrite Hdf in E, Hn, Hl. split; [exact E|]. split; [exact Hn|exact Hl].
Qed.

(** *** Sizes of what is negotiated *)

Definition enc_sized (e : Enc) : Prop :=
  enc_key_len e = c_key_len (enc_cipher e) /\ enc_block_size e = c_block_size (enc_cipher e) /\
  0 <= enc_key_len e <= 32 /\ (enc_block_size e = 8 \/ enc_block_size e = 16).

Lemma ciphers_sized c :
  In c ciphers -> 0 <= c_key_len c <= 32 /\ (c_block_size c = 8 \/ c_block_size c = 16).
Proof. cbn. intros Hc. repeat destruct Hc as [<-|Hc]; cbn; try lia. Qed.

Lemma choose_enc_sized cl sv e : choose_enc cl sv = Ok e -> enc_sized e.
Proof.
  unfold choose_enc. intros E. destruct (fst _) as [name|]; [|discriminate E]. cbn [mbind res_bind or_fatal] in E.
  destruct (cipher_by_name name) as [c|] eqn:Ec; [|discriminate E]. injection E as <-.
  apply find_some in Ec as [Hin _]. destruct (ciphers_sized c Hin). unfold enc_sized. cbn. done.
Qed.

Lemma mac_setup_by_id_len m e m' :
  In e macs -> mac_setup_by_id m e = Ok m' -> 0 <= mac_key_len m' <= 64.
Proof.
  intros Hin E. pose proof (digest_size_pos EVP_sha1). pose proof (digest_size_pos EVP_md5).
  pose proof (digest_size_pos EVP_ripemd160).
  repeat destruct Hin as [<-|Hin]; try done; unfold mac_setup_by_id in E; cbn in E;
    repeat (destruct (_ <=? 0) in E; [done|]); cbn in E; injection E as <-; cbn; try lia. by vm_compute.
Qed.

Lemma choose_mac_sized df cl sv m : choose_mac df cl sv = Ok m -> 0 <= mac_key_len m <= 64.
Proof.
  unfold choose_mac, mac_setup. intros E. destruct (fst _) as [name|]; [|discriminate E]. cbn [mbind res_bind or_fatal] in E.
  destruct (List.find _ macs) as [e|] eqn:Ef; [|discriminate E]. cbn [mbind res_bind] in E.
  destruct (mac_setup_by_id zero_mac e) as [m1| |] eqn:Em; try discriminate E.
  cbn [mbind res_bind or_fatal] in E. injection E as <-. cbn.
  apply find_some in Ef as [Hin _]. destruct (negb _); [lia|]. by eapply mac_setup_by_id_len.
Qed.

Lemma choose_newkeys_sized df srv cp sp mode nk :
  choose_newkeys df srv cp sp mode = Ok nk ->
  enc_sized (nk_enc nk) /\ 0 <= mac_key_len (nk_mac nk) <= 64.
Proof.
  unfold choose_newkeys. intros E.
  destruct (choose_enc _ _) as [e| |] eqn:E1; cbn [mbind res_bind] in E; try done.
  destruct (choose_mac _ _ _) as [m| |] eqn:E2; cbn [mbind res_bind] in E; try done.
  destruct (choose_comp _ _) as [cm| |]; cbn [mbind res_bind] in E; try done.
  injection E as <-. split; [by eapply choose_enc_sized|by eapply choose_mac_sized].
Qed.

Lemma derive_keys_total df kex ids hash secret b :
  0 < we_need kex < 2 ^ 31 -> buffer_put_bignum2 buffer_init secret = Ok b ->
  exists ks, derive_keys df kex ids hash secret = Ok ks /\ length ks = length ids /\
    Forall (fun k => we_need kex <= zlen k) ks.
Proof.
  intros Hn Hb. induction ids as [|id ids (ks & E & Hl & Hf)]; [by exists []|].
  destruct (derive_key_blocks df kex id _ hash secret b Hn Hb) as (Ek & Hk & _).
  eexists. cbn [derive_keys]. rewrite Ek. rsimp. rewrite E. rsimp. split; [done|].
  split; [cbn; by rewrite Hl|]. by constructor.
Qed.

(** Key material long enough for its algorithms. *)
Definition keyed (nk : Newkeys) : Prop :=
  let e := nk_enc nk in
  length (take (Z.to_nat (enc_key_len e)) (enc_key e)) = Z.to_nat (c_key_len (enc_cipher e)) /\
  length (take (Z.to_nat (enc_block_size e)) (enc_iv e)) = Z.to_nat (c_block_size (enc_cipher e)) /\
  exists mkey, mac_key (nk_mac nk) = Some mkey /\ mac_key_len (nk_mac nk) <= zlen mkey.

Lemma with_keys_keyed nk need iv key mkey :
  enc_sized (nk_enc nk) -> need = Z.max need (need_for 0 nk) ->
  need <= zlen iv -> need <= zlen key -> need <= zlen mkey -> keyed (with_keys nk iv key mkey).
Proof.
  intros (H1 & H2 & H3 & H4) Hn Hi Hk Hm. rewrite need_for_max in Hn. unfold zlen in *.
  unfold keyed. cbn. rewrite !length_take, <- H1, <- H2. split; [lia|]. split; [lia|].
  exists mkey. split; [done|]. unfold zlen. lia.
Qed.

(** C15: negotiation yields usable keys.  After a successful [kex_choose_conf],
    [kex_derive_keys] succeeds and installs, for both directions, keys, IVs and
    MAC keys at least as long as the negotiated algorithms need, so that the
    length checks of [cipher_init] cannot fail when the keys are taken into use. *)
Theorem negotiated_keys_usable df k k' skip c hash secret b :
  kex_choose_conf df k = Ok (k', skip) -> buffer_put_bignum2 buffer_init secret = Ok b ->
  exists c' k'', kex_derive_keys c k' hash secret = Ok (c', k'') /\
    forall mode, exists nk, current_keys (get_dir c' mode) = Some nk /\ keyed nk.
Proof.
  intros E Hb.
  destruct (choose_conf_inv _ _ _ _ E) as (mp & mf & pp & pf & ctos & stoc & name & type & md & hk &
    _ & _ & Ec & Es & _ & _ & Kc & Ks & Hn & _).
  destruct (choose_newkeys_sized _ _ _ _ _ _ Ec) as [Hec Hmc].
  destruct (choose_newkeys_sized _ _ _ _ _ _ Es) as [Hes Hms].
  assert (Hneed : 0 < we_need k' < 2 ^ 31 /\ we_need k' = Z.max (we_need k') (need_for 0 ctos) /\
                  we_need k' = Z.max (we_need k') (need_for 0 stoc)).
  { rewrite Hn, !need_for_max. destruct Hec as (?&?&?&?), Hes as (?&?&?&?). lia. }
  destruct Hneed as (Hneed & Hmaxc & Hmaxs).
  destruct (derive_keys_total (datafellows c) k' [65; 66; 67; 68; 69; 70] hash secret b Hneed Hb)
    as (ks & Ek & Hl & Hf).
  destruct ks as [|k0 [|k1 [|k2 [|k3 [|k4 [|k5 [|]]]]]]]; try discriminate Hl.
  rewrite !Forall_cons in Hf. destruct Hf as (F0 & F1 & F2 & F3 & F4 & F5 & _).
  assert (Hall : forall mode, exists nk need', kex_newkeys k' mode = Some nk /\ enc_sized (nk_enc nk) /\
                   need' = we_need k' /\ need' = Z.max need' (need_for 0 nk)).
  { intros mode. destruct (server k), mode; cbn in Kc, Ks; eauto 10. }
  destruct (Hall MODE_IN) as (ni & n1 & Ni & Ei & -> & Mi).
  destruct (Hall MODE_OUT) as (no & n2 & No & Eo & -> & Mo).
  unfold kex_derive_keys, install_keys. rewrite Ek. rsimp. rewrite Ni. rsimp. rewrite No. rsimp.
  eexists _, _. split; [reflexivity|]. intros [|]; eexists; (split; [reflexivity|]).
  - destruct (is_ctos _ MODE_IN); cbn; by eapply with_keys_keyed.
  - destruct (is_ctos _ MODE_OUT); cbn; by eapply with_keys_keyed.
Qed.

(** *** The default proposals *)

Lemma client_scan_in fuel : forall cp pos first props name,
  fst (Match.client_scan fuel cp pos first props) = Some name -> In name props.
Proof.
  induction fuel as [|fuel IH]; intros [s|] pos first props name; cbn [Match.client_scan]; try done.
  destruct (Match.strsep_comma s) as [p cp]. destruct p as [|c p]; [done|].
  destruct (existsb _ props) eqn:E; [|apply IH]. intros [= <-].
  apply existsb_exists in E as (q & Hq & E). apply bool_decide_eq_true in E. by subst.
Qed.

(** A name both ends know passes any test that all the server's names pass. *)
Lemma match_list_all (ok : list Z -> bool) client server name :
  forallb ok (Match.server_proposals Match.MAX_PROP (S (length server)) (Some server)) = true ->
  fst (Match.match_list client server) = Some name -> ok name = true.
Proof.
  intros Hall E. apply client_scan_in in E. by apply (proj1 (forallb_forall _ _) Hall).
Qed.

Lemma mac_setup_default df client :
  choose_mac df client KEX_DEFAULT_MAC <> Fatal "unsupported mac".
Proof.
  unfold choose_mac. destruct (fst (Match.match_list _ _)) as [name|] eqn:E; [|done]. cbn [or_fatal].
  apply (match_list_all (fun n => match List.find (fun e => bool_decide (n = me_name e)) macs with
    | Some _ => true | None => false end)) in E; [|vm_compute; reflexivity].
  unfold mac_setup. rsimp. destruct (List.find _ macs) as [e|]; [|discriminate E].
  unfold mac_setup_by_id. destruct (_ =? SSH_EVP).
  - destruct (me_mdfunc e) as [md|]; [|done]. destruct (_ <=? 0); [done|]. rsimp.
    by destruct (negb (me_truncatebits e =? 0)); rsimp.
  - rsimp. by destruct (negb (me_truncatebits e =? 0)); rsimp.
Qed.

(** The server never proposes what it cannot do.  Whatever the client
    offers, negotiating against the default proposal never fails because a name
    both ends know is unsupported; it fails only when no name is common. *)
Theorem default_proposal_supported df client :
  choose_enc client KEX_DEFAULT_ENCRYPT <> Fatal "matching cipher is not supported" /\
  choose_mac df client KEX_DEFAULT_MAC <> Fatal "unsupported mac" /\
  choose_comp client KEX_DEFAULT_COMP <> Fatal "unsupported comp" /\
  choose_kex client KEX_DEFAULT_KEX <> Fatal "bad kex alg" /\
  choose_hostkeyalg client KEX_DEFAULT_PK_ALG <> Fatal "bad hostkey alg".
Proof.
  split; [|split; [apply mac_setup_default|split; [|split]]].
  - unfold choose_enc. destruct (fst (Match.match_list _ _)) as [name|] eqn:E; [|done].
    apply (match_list_all (fun n => match cipher_by_name n with Some _ => true | None => false end)) in E;
      [|vm_compute; reflexivity]. cbn [or_fatal]. rsimp. by destruct (cipher_by_name name).
  - unfold choose_comp. destruct (fst (Match.match_list _ _)) as [name|] eqn:E; [|done].
    apply (match_list_all (fun n => bool_decide (n = str "zlib@openssh.com") ||
      (bool_decide (n = str "zlib") || bool_decide (n = str "none")))) in E; [|vm_compute; reflexivity].
    cbn [or_fatal]. rsimp.
    destruct (bool_decide (name = str "zlib@openssh.com")), (bool_decide (name = str "zlib")),
      (bool_decide (name = str "none")); first [discriminate E|done].
  - unfold choose_kex. destruct (fst (Match.match_list _ _)) as [name|] eqn:E; [|done].
    apply (match_list_all (fun n => bool_decide (n = KEX_DH1) || bool_decide (n = KEX_DH14))) in E;
      [|vm_compute; reflexivity]. cbn [or_fatal]. rsimp.
    destruct (bool_decide (name = KEX_DH1)), (bool_decide (name = KEX_DH14)); first [discriminate E|done].
  - unfold choose_hostkeyalg. destruct (fst (Match.match_list _ _)) as [name|] eqn:E; [|done].
    apply (match_list_all (fun n => negb (key_type_from_name n =? KEY_UNSPEC))) in E;
      [|vm_compute; reflexivity]. cbn [or_fatal]. rsimp. apply negb_true_iff in E. by rewrite E.
Qed.

End KexTheorems.

(** ** A concrete instance: witnesses *)

Module ToyKex.

Fixpoint to_bytes (n : nat) (v : Z) : list Z :=
  match n with O => [] | S n => to_bytes n (v / 256) ++ [v mod 256] end.

Definition of_bytes (l : list Z) : Z := fold_left (fun acc x => acc * 256 + x) l 0.

#[export] Instance toy_bn : BnLib := {
  BN_num_bits := fun v => if v <=? 0 then 0 else Z.log2 v + 1;
  BN_bn2bin := fun v => if v <=? 0 then [] else to_bytes (Z.to_nat ((Z.log2 v + 8) / 8)) v;
  BN_bin2bn := of_bytes
}.

Lemma to_bytes_len n v : length (to_bytes n v) = n.
Proof. revert v. induction n as [|n IH]; intros v; cbn; [done|]. rewrite length_app, IH. cbn. lia. Qed.

Lemma to_bytes_bytes n v : bytes_ok (to_bytes n v).
Proof.
  revert v. induction n as [|n IH]; intros v; cbn; [done|]. apply Forall_app. split; [done|].
  repeat constructor; apply Z.mod_pos_bound; lia.
Qed.

Lemma of_to_bytes n v : 0 <= v < 256 ^ Z.of_nat n -> of_bytes (to_bytes n v) = v.
Proof.
  revert v. induction n as [|n IH]; intros v Hv; [cbn in *; lia|].
  cbn [to_bytes]. unfold of_bytes in *. rewrite fold_left_app. cbn.
  rewrite IH. { Z.div_mod_to_equations. lia. }
  replace (Z.of_nat (S n)) with (1 + Z.of_nat n) in Hv by lia.
  rewrite Z.pow_add_r in Hv by lia. split; [apply Z.div_pos; lia|]. apply Z.div_lt_upper_bound; lia.
Qed.

#[export] Instance toy_bn_laws : BnLaws.
Proof.
  constructor; cbn; try done.
  - intros v Hv. replace (v <=? 0) with false by lia. pose proof (Z.log2_nonneg v). lia.
  - intros v Hv. replace (v <=? 0) with false by lia. unfold zlen. rewrite to_bytes_len.
    pose proof (Z.log2_nonneg v). rewrite Z2Nat.id by (apply Z.div_pos; lia). f_equal. lia.
  - intros v. destruct (v <=? 0); [constructor|apply to_bytes_bytes].
  - intros v Hv. replace (v <=? 0) with false by lia. apply of_to_bytes. split; [lia|].
    pose proof (Z.log2_nonneg v). rewrite Z2Nat.id by (apply Z.div_pos; lia).
    change 256 with (2 ^ 8). rewrite <- Z.pow_mul_r by (try apply Z.div_pos; lia).
    apply Z.log2_lt_pow2; [done|]. Z.div_mod_to_equations. lia.
Defined.

Import Toy.

#[export] Instance toy_digest : Digest.
Proof.
  refine {| EVP_Digest := fun _ data => sum_digest 19 data |}; cbn; [done|lia].
Defined.

Definition client_prop : list (list Z) :=
  [str "diffie-hellman-group1-sha1"; str "ssh-dss"; str "aes128-cbc,3des-cbc"; str "3des-cbc";
   str "hmac-sha1"; str "hmac-md5"; str "none"; str "none"; []; []].

Definition buf_of (l : list Z) : Buffer := mkBuffer (l ++ replicate 64 0) (zlen l + 64) 0 (zlen l).

Definition payload (p : list (list Z)) : list Z :=
  replicate KEX_COOKIE_LEN 7 ++ fields_bytes (prop_fields p 0).

Definition kex0 (srv : bool) (m p : list (list Z)) : Kex :=
  mkKex (Some [1]) (fun _ => None) 0 srv None 0 0 (buf_of (payload m)) (buf_of (payload p)) false 0 EVP_sha1.

End ToyKex.

Section KexWitnesses.
Import Toy ToyKex.

Lemma bignum2_roundtrip_witness :
  exists b1 b2, buffer_put_bignum2 buffer_init 200 = Ok b1 /\ buffer_get_bignum2 b1 = Ok (200, b2) /\
    contents b2 = [].
Proof.
  apply (bignum2_roundtrip 0 buffer_init 200).
  - apply buffer_init_capped.
  - reflexivity.
  - lia.
  - vm_compute. discriminate.
  - lia.
Defined.

Lemma kexinit_roundtrip_witness :
  exists m, kex_prop2buf buffer_init client_prop = Ok m /\
    forall m' cookie, buffer_ok m' -> length cookie = KEX_COOKIE_LEN ->
      contents m' = cookie ++ drop KEX_COOKIE_LEN (contents m) -> kex_buf2prop m' = Ok (client_prop, 0).
Proof.
  apply (kexinit_roundtrip buffer_init client_prop).
  - split; [apply buffer_init_ok|]. cbn. unfold BUFFER_ALLOCSZ. lia.
  - reflexivity.
  - repeat constructor; vm_compute; discriminate.
  - repeat constructor; discriminate.
  - vm_compute. discriminate.
Defined.

Lemma buf_of_ok l : zlen l < 1000000 -> buffer_ok (buf_of l).
Proof.
  intros Hl. pose proof (zlen_nonneg l). constructor; cbn [buf_of alloc offset end_ buf].
  - rewrite zlen_app. done.
  - lia.
  - lia.
  - unfold BUFFER_MAX_LEN. lia.
Qed.

Definition succeeds {A} (r : res A) : bool := match r with Ok _ => true | _ => false end.

Lemma toy_client_ok : succeeds (kex_choose_conf 0 (kex0 false client_prop def_proposal)) = true.
Proof. vm_compute. reflexivity. Qed.
Lemma toy_server_ok : succeeds (kex_choose_conf 0 (kex0 true def_proposal client_prop)) = true.
Proof. vm_compute. reflexivity. Qed.

Lemma kex_agreement_witness :
  exists kc' s ks' s', kex_choose_conf 0 (kex0 false client_prop def_proposal) = Ok (kc', s) /\
    kex_choose_conf 0 (kex0 true def_proposal client_prop) = Ok (ks', s') /\ agree kc' ks'.
Proof.
  destruct (kex_agreement 0 (kex0 false client_prop def_proposal) (kex0 true def_proposal client_prop))
    as [Hc _]; try reflexivity; try (apply buf_of_ok; vm_compute; reflexivity).
  pose proof toy_client_ok as Hok.
  destruct (kex_choose_conf 0 (kex0 false client_prop def_proposal)) as [[kc' s]| |];
    [|discriminate Hok|discriminate Hok].
  destruct (Hc kc' s eq_refl) as (ks' & s' & E' & Ha). exists kc', s, ks', s'.
  split; [reflexivity|]. split; [exact E'|exact Ha].
Defined.

Lemma derive_key_rfc4253_witness :
  exists key, derive_key 0 (kex0 true def_proposal client_prop) 65 24 [9; 9] 12345 = Ok key /\
    24 <= zlen key /\ zlen key = 40.
Proof.
  destruct (buffer_put_bignum2 buffer_init 12345) as [b| |] eqn:E;
    [|vm_compute in E; discriminate E|vm_compute in E; discriminate E].
  destruct (derive_key_rfc4253 0 (kex0 true def_proposal client_prop) 65 24 [9; 9] 12345 b)
    as (Ek & H1 & H2); [lia|exact E|reflexivity|].
  eexists. split; [exact Ek|]. split; [exact H1|exact H2].
Defined.

Lemma negotiated_keys_usable_witness :
  exists k' skip c' k'', kex_choose_conf 0 (kex0 true def_proposal client_prop) = Ok (k', skip) /\
    kex_derive_keys Toy.start k' [9; 9] 12345 = Ok (c', k'') /\
    exists nk, current_keys (get_dir c' MODE_OUT) = Some nk /\ keyed nk.
Proof.
  destruct (buffer_put_bignum2 buffer_init 12345) as [b| |] eqn:E;
    [|vm_compute in E; discriminate E|vm_compute in E; discriminate E].
  pose proof toy_server_ok as Hok.
  destruct (kex_choose_conf 0 (kex0 true def_proposal client_prop)) as [[k' s]| |] eqn:Ek;
    [|discriminate Hok|discriminate Hok].
  destruct (negotiated_keys_usable 0 _ k' s Toy.start [9; 9] 12345 b Ek E) as (c' & k'' & Ed & Hm).
  exists k', s, c', k''. split; [reflexivity|]. split; [exact Ed|]. exact (Hm MODE_OUT).
Defined.

End KexWitnesses.
