(* ===== verification/SshCompat.v ===== *)
(** * SshCompat: the peer-version table of shiesh/compat.cpp

    [compat_datafellows], [proto_spec] and [compat_cipher_proposal].  The flags
    word they work on is [datafellows] of the connection. *)

From S2P Require Import Prelude SshBuffer SshMatch.

Module Compat.

(** ** Flags (compat.h) *)

Definition SSH_PROTO_UNKNOWN : Z := 0.
Definition SSH_PROTO_1 : Z := 1.
Definition SSH_PROTO_1_PREFERRED : Z := 2.
Definition SSH_PROTO_2 : Z := 4.

Definition SSH_BUG_SIGBLOB : Z := 0x00000001.
Definition SSH_BUG_PKSERVICE : Z := 0x00000002.
Definition SSH_BUG_HMAC : Z := 0x00000004.
Definition SSH_BUG_X11FWD : Z := 0x00000008.
Definition SSH_OLD_SESSIONID : Z := 0x00000010.
Definition SSH_BUG_PKAUTH : Z := 0x00000020.
Definition SSH_BUG_DEBUG : Z := 0x00000040.
Definition SSH_BUG_BANNER : Z := 0x00000080.
Definition SSH_BUG_IGNOREMSG : Z := 0x00000100.
Definition SSH_BUG_PKOK : Z := 0x00000200.
Definition SSH_BUG_PASSWORDPAD : Z := 0x00000400.
Definition SSH_BUG_SCANNER : Z := 0x00000800.
Definition SSH_BUG_BIGENDIANAES : Z := 0x00001000.
Definition SSH_BUG_RSASIGMD5 : Z := 0x00002000.
Definition SSH_OLD_DHGEX : Z := 0x00004000.
Definition SSH_BUG_NOREKEY : Z := 0x00008000.
Definition SSH_BUG_HBSERVICE : Z := 0x00010000.
Definition SSH_BUG_OPENFAILURE : Z := 0x00020000.
Definition SSH_BUG_DERIVEKEY : Z := 0x00040000.
Definition SSH_BUG_DUMMYCHAN : Z := 0x00100000.
Definition SSH_BUG_EXTEOF : Z := 0x00200000.
Definition SSH_BUG_PROBE : Z := 0x00400000.
Definition SSH_BUG_FIRSTKEX : Z := 0x00800000.
Definition SSH_OLD_FORWARD_ADDR : Z := 0x01000000.
Definition SSH_BUG_RFWD_ADDR : Z := 0x02000000.
Definition SSH_NEW_OPENSSH : Z := 0x04000000.

Definition bugs (l : list Z) : Z := foldr Z.lor 0 l.

(** The table: pattern lists and the bugs of the versions they match. *)
Definition check : list (list Z * Z) :=
  [
    (str "OpenSSH-2.0*,OpenSSH-2.1*,OpenSSH_2.1*,OpenSSH_2.2*", bugs [SSH_OLD_SESSIONID; SSH_BUG_BANNER; SSH_OLD_DHGEX; SSH_BUG_NOREKEY; SSH_BUG_EXTEOF; SSH_OLD_FORWARD_ADDR]);
    (str "OpenSSH_2.3.0*", bugs [SSH_BUG_BANNER; SSH_BUG_BIGENDIANAES; SSH_OLD_DHGEX; SSH_BUG_NOREKEY; SSH_BUG_EXTEOF; SSH_OLD_FORWARD_ADDR]);
    (str "OpenSSH_2.3.*", bugs [SSH_BUG_BIGENDIANAES; SSH_OLD_DHGEX; SSH_BUG_NOREKEY; SSH_BUG_EXTEOF; SSH_OLD_FORWARD_ADDR]);
    (str "OpenSSH_2.5.0p1*,OpenSSH_2.5.1p1*", bugs [SSH_BUG_BIGENDIANAES; SSH_OLD_DHGEX; SSH_BUG_NOREKEY; SSH_BUG_EXTEOF; SSH_OLD_FORWARD_ADDR]);
    (str "OpenSSH_2.5.0*,OpenSSH_2.5.1*,OpenSSH_2.5.2*", bugs [SSH_OLD_DHGEX; SSH_BUG_NOREKEY; SSH_BUG_EXTEOF; SSH_OLD_FORWARD_ADDR]);
    (str "OpenSSH_2.5.3*", bugs [SSH_BUG_NOREKEY; SSH_BUG_EXTEOF; SSH_OLD_FORWARD_ADDR]);
    (str "OpenSSH_2.*,OpenSSH_3.0*,OpenSSH_3.1*", bugs [SSH_BUG_EXTEOF; SSH_OLD_FORWARD_ADDR]);
    (str "OpenSSH_3.*", bugs [SSH_OLD_FORWARD_ADDR]);
    (str "Sun_SSH_1.0*", bugs [SSH_BUG_NOREKEY; SSH_BUG_EXTEOF]);
    (str "OpenSSH_4*", bugs []);
    (str "OpenSSH*", bugs [SSH_NEW_OPENSSH]);
    (str "*MindTerm*", bugs []);
    (str "2.1.0*", bugs [SSH_BUG_SIGBLOB; SSH_BUG_HMAC; SSH_OLD_SESSIONID; SSH_BUG_DEBUG; SSH_BUG_RSASIGMD5; SSH_BUG_HBSERVICE; SSH_BUG_FIRSTKEX]);
    (str "2.1 *", bugs [SSH_BUG_SIGBLOB; SSH_BUG_HMAC; SSH_OLD_SESSIONID; SSH_BUG_DEBUG; SSH_BUG_RSASIGMD5; SSH_BUG_HBSERVICE; SSH_BUG_FIRSTKEX]);
    (str "2.0.13*,2.0.14*,2.0.15*,2.0.16*,2.0.17*,2.0.18*,2.0.19*", bugs [SSH_BUG_SIGBLOB; SSH_BUG_HMAC; SSH_OLD_SESSIONID; SSH_BUG_DEBUG; SSH_BUG_PKSERVICE; SSH_BUG_X11FWD; SSH_BUG_PKOK; SSH_BUG_RSASIGMD5; SSH_BUG_HBSERVICE; SSH_BUG_OPENFAILURE; SSH_BUG_DUMMYCHAN; SSH_BUG_FIRSTKEX]);
    (str "2.0.11*,2.0.12*", bugs [SSH_BUG_SIGBLOB; SSH_BUG_HMAC; SSH_OLD_SESSIONID; SSH_BUG_DEBUG; SSH_BUG_PKSERVICE; SSH_BUG_X11FWD; SSH_BUG_PKAUTH; SSH_BUG_PKOK; SSH_BUG_RSASIGMD5; SSH_BUG_OPENFAILURE; SSH_BUG_DUMMYCHAN; SSH_BUG_FIRSTKEX]);
    (str "2.0.*", bugs [SSH_BUG_SIGBLOB; SSH_BUG_HMAC; SSH_OLD_SESSIONID; SSH_BUG_DEBUG; SSH_BUG_PKSERVICE; SSH_BUG_X11FWD; SSH_BUG_PKAUTH; SSH_BUG_PKOK; SSH_BUG_RSASIGMD5; SSH_BUG_OPENFAILURE; SSH_BUG_DERIVEKEY; SSH_BUG_DUMMYCHAN; SSH_BUG_FIRSTKEX]);
    (str "2.2.0*,2.3.0*", bugs [SSH_BUG_HMAC; SSH_BUG_DEBUG; SSH_BUG_RSASIGMD5; SSH_BUG_FIRSTKEX]);
    (str "2.3.*", bugs [SSH_BUG_DEBUG; SSH_BUG_RSASIGMD5; SSH_BUG_FIRSTKEX]);
    (str "2.4", bugs [SSH_OLD_SESSIONID]);
    (str "2.*", bugs [SSH_BUG_DEBUG; SSH_BUG_FIRSTKEX; SSH_BUG_RFWD_ADDR]);
    (str "3.0.*", bugs [SSH_BUG_DEBUG]);
    (str "3.0 SecureCRT*", bugs [SSH_OLD_SESSIONID]);
    (str "1.7 SecureFX*", bugs [SSH_OLD_SESSIONID]);
    (str "1.2.18*,1.2.19*,1.2.20*,1.2.21*,1.2.22*", bugs [SSH_BUG_IGNOREMSG]);
    (str "1.3.2*", bugs [SSH_BUG_IGNOREMSG]);
    (str "*SSH Compatible Server*", bugs [SSH_BUG_PASSWORDPAD]);
    (str "*OSU_0*,OSU_1.0*,OSU_1.1*,OSU_1.2*,OSU_1.3*,OSU_1.4*,OSU_1.5alpha1*,OSU_1.5alpha2*,OSU_1.5alpha3*", bugs [SSH_BUG_PASSWORDPAD]);
    (str "*SSH_Version_Mapper*", bugs [SSH_BUG_SCANNER]);
    (str "Probe-*", bugs [SSH_BUG_PROBE])
  ].

(** [Some] is the new value of [datafellows]; [None]: no entry matches and it is
    left alone. *)
Fixpoint compat_scan (version : list Z) (tbl : list (list Z * Z)) : res (option Z) :=
  match tbl with
  | [] => Ok None
  | (pat, bugs) :: tbl =>
      r ← Match.match_pattern_list version pat false;
      if r =? 1 then Ok (Some bugs) else compat_scan version tbl
  end.

Definition compat_datafellows (version : list Z) : res (option Z) := compat_scan version check.

(** [atoi]: white space, a sign, digits; the value as an [int]. *)
Definition isspace (c : Z) : bool := (c =? 32) || ((9 <=? c) && (c <=? 13)).
Definition isdigit (c : Z) : bool := (48 <=? c) && (c <=? 57).

Fixpoint skip_space (s : list Z) : list Z :=
  match s with c :: s1 => if isspace c then skip_space s1 else s | [] => [] end.

Fixpoint digits_value (acc : Z) (s : list Z) : Z :=
  match s with
  | c :: s1 => if isdigit c then digits_value (acc * 10 + (c - 48)) s1 else acc
  | [] => acc
  end.

Definition atoi (s : list Z) : Z :=
  match skip_space s with
  | c :: t => if c =? 45 then s32 (- digits_value 0 t)
              else if c =? 43 then s32 (digits_value 0 t)
              else s32 (digits_value 0 (c :: t))
  | [] => 0
  end.

Fixpoint proto_loop (fuel : nat) (q : option (list Z)) (ret : Z) : Z :=
  match fuel, q with
  | S fuel, Some s =>
      let '(p, q) := Match.strsep_comma s in
      match p with
      | [] => ret
      | _ =>
          let v := atoi p in
          proto_loop fuel q
            (if v =? 1 then
               Z.lor (if ret =? SSH_PROTO_UNKNOWN then Z.lor ret SSH_PROTO_1_PREFERRED else ret) SSH_PROTO_1
             else if v =? 2 then Z.lor ret SSH_PROTO_2
             else ret)
      end
  | _, _ => ret
  end.

Definition proto_spec (spec : option (list Z)) : Z :=
  match spec with
  | None => SSH_PROTO_UNKNOWN
  | Some s => proto_loop (S (length s)) (Some s) SSH_PROTO_UNKNOWN
  end.

Definition is_aes (cp : list Z) : bool := bool_decide (take 3 cp = str "aes").

(** The loop that copies every name but the AES ones into the buffer. *)
Fixpoint cipher_loop (fuel : nat) (tmp : option (list Z)) (b : Buffer) : res Buffer :=
  match tmp with
  | None => Ok b
  | Some s =>
      match fuel with
      | O => OutOfFuel
      | S fuel =>
          let '(cp, tmp) := Match.strsep_comma s in
          b ← (if negb (is_aes cp) then
                 b ← (if buffer_len b >? 0 then buffer_append b [COMMA] else Ok b);
                 buffer_append b cp
               else Ok b);
          cipher_loop fuel tmp b
      end
  end.

Definition compat_cipher_proposal (df : Z) (cipher_prop : list Z) : res (list Z) :=
  if Z.land df SSH_BUG_BIGENDIANAES =? 0 then Ok cipher_prop
  else
    b ← cipher_loop (S (length cipher_prop)) (Some cipher_prop) buffer_init;
    b ← buffer_append b [0];
    let fix_ciphers := c_str (buffer_ptr b) in
    match fix_ciphers with
    | [] => Fatal "No available ciphers found."
    | _ => Ok fix_ciphers
    end.

(** ** Theorems *)

(** Recent OpenSSH peers.  Every version string that starts with
    OpenSSH_5, whatever follows, gets exactly the flag for new OpenSSH versions
    and none of the bug flags of the older entries, and OpenSSH_4 gets none. *)
Theorem openssh_flags rest :
  compat_datafellows (str "OpenSSH_5" ++ rest) = Ok (Some SSH_NEW_OPENSSH) /\
  compat_datafellows (str "OpenSSH_4" ++ rest) = Ok (Some 0).
Proof. split; reflexivity. Qed.

Definition keep (ts : list (list Z)) : list (list Z) := filter (fun t => is_aes t = false) ts.

(** What the buffer holds after copying the names [done] and then [t]. *)
Lemma join_snoc ds t :
  Forall Match.name_ok ds ->
  Match.join (ds ++ [t]) = Match.join ds ++ (match ds with [] => [] | _ => [COMMA] end) ++ t.
Proof.
  induction ds as [|d ds IH]; intros Hd; [done|]. apply Forall_cons in Hd as [_ Hd].
  destruct ds as [|d1 ds]; [done|]. cbn [app] in *. rewrite Match.join_cons, IH by done.
  rewrite Match.join_cons. by rewrite <- !(assoc_L (++)).
Qed.

Lemma join_nonempty d ds : Match.name_ok d -> 0 < zlen (Match.join (d :: ds)).
Proof.
  intros [Hn _]. destruct d as [|c d]; [done|]. destruct ds; unfold zlen; cbn; lia.
Qed.

Lemma keep_cons t ts : keep (t :: ts) = if is_aes t then keep ts else t :: keep ts.
Proof. unfold keep. rewrite filter_cons. by destruct (is_aes t); case_decide. Qed.

Lemma join_len_cons t ts : zlen (Match.join (t :: ts)) <= zlen t + 1 + zlen (Match.join ts).
Proof.
  destruct ts as [|t1 ts]; [cbn; unfold zlen; cbn; lia|]. rewrite Match.join_cons, zlen_app.
  unfold zlen. cbn [length]. lia.
Qed.

(** The separator. *)
Lemma copy_comma n b ds :
  Forall Match.name_ok ds -> capped n b -> contents b = Match.join ds -> 0 <= n <= 1000000 ->
  exists b' n', (if buffer_len b >? 0 then buffer_append b [COMMA] else Ok b) = Ok b' /\
    capped n' b' /\ 0 <= n' <= n + 1 /\
    contents b' = Match.join ds ++ match ds with [] => [] | _ => [COMMA] end.
Proof.
  intros Hds Hcap Hcon Hn. rewrite buffer_len_contents, Hcon by apply Hcap. destruct ds as [|d ds].
  - exists b, n. split; [done|]. split; [done|]. split; [lia|]. by rewrite Hcon.
  - apply Forall_cons in Hds as [Hd _]. pose proof (join_nonempty d ds Hd) as Hpos.
    destruct (zlen (Match.join (d :: ds)) >? 0) eqn:E; zbool; [|lia].
    destruct (buffer_append_capped n b [COMMA] Hcap) as (b0 & E0 & Hc0 & Hb0).
    { done. } { change (zlen [COMMA]) with 1. unfold BUFFER_ALLOCSZ, BUFFER_MAX_LEN. lia. }
    exists b0, (n + 1). split; [done|]. split; [done|]. split; [lia|]. by rewrite Hb0, Hcon.
Qed.

(** One turn of the loop. *)
Lemma copy_name n b ds t :
  Forall Match.name_ok ds -> capped n b -> contents b = Match.join ds -> 0 <= n ->
  n + zlen t <= 1000000 ->
  exists b' n', (if negb (is_aes t) then
      b ← (if buffer_len b >? 0 then buffer_append b [COMMA] else Ok b); buffer_append b t
      else Ok b) = Ok b' /\ capped n' b' /\ 0 <= n' <= n + zlen t + 1 /\
      contents b' = Match.join (ds ++ (if is_aes t then [] else [t])).
Proof.
  intros Hds Hcap Hcon Hn Hsz. pose proof (zlen_nonneg t). destruct (is_aes t); cbn [negb].
  { exists b, n. rewrite app_nil_r. split; [done|]. split; [done|]. split; [lia|done]. }
  destruct (copy_comma n b ds Hds Hcap Hcon ltac:(lia)) as (b0 & n0 & -> & Hc0 & Hn0 & Hb0). rsimp.
  destruct (buffer_append_capped n0 b0 t Hc0) as (b1 & E1 & Hc1 & Hb1);
    [unfold BUFFER_MAX_CHUNK; lia|unfold BUFFER_ALLOCSZ, BUFFER_MAX_LEN; lia|].
  exists b1, (n0 + zlen t). split; [done|]. split; [done|]. split; [lia|].
  by rewrite Hb1, Hb0, join_snoc, <- (assoc_L (++)).
Qed.

Lemma cipher_loop_join ts : forall fuel ds n b,
  Forall Match.name_ok ts -> Forall Match.name_ok ds -> (length ts <= fuel)%nat ->
  capped n b -> contents b = Match.join ds -> ts <> [] -> 0 <= n ->
  n + zlen (Match.join ts) + zlen ts <= 1000000 ->
  exists b' n', cipher_loop fuel (Some (Match.join ts)) b = Ok b' /\ capped n' b' /\
    0 <= n' <= 1000000 /\ contents b' = Match.join (ds ++ keep ts).
Proof.
  induction ts as [|t ts IH]; intros fuel ds n b Hts Hds Hf Hcap Hcon Hne Hn Hsz; [done|].
  destruct fuel as [|fuel]; [cbn in Hf; lia|]. cbn [cipher_loop].
  rewrite Match.strsep_comma_join by (by apply Match.name_ok_no_comma).
  apply Forall_cons in Hts as [Ht Hts]. rewrite keep_cons.
  assert (Hzt : zlen (t :: ts) = 1 + zlen ts) by (unfold zlen; cbn [length]; lia).
  pose proof (zlen_nonneg ts). pose proof (zlen_nonneg (Match.join ts)).
  assert (Hjn : zlen t + zlen (Match.join ts) <= zlen (Match.join (t :: ts))).
  { destruct ts; [cbn; unfold zlen; cbn; lia|]. rewrite Match.join_cons, zlen_app.
    unfold zlen. cbn [length]. lia. }
  destruct (copy_name n b ds t Hds Hcap Hcon Hn ltac:(lia)) as (b1 & n1 & -> & Hc1 & Hn1 & Hb1). rsimp.
  destruct ts as [|t1 ts].
  { exists b1, n1. assert (Hk : keep [] = []) by done. pose proof (zlen_nonneg t).
    split; [by destruct fuel|]. split; [done|]. split; [lia|]. rewrite Hb1, Hk. done. }
  destruct (IH fuel (ds ++ (if is_aes t then [] else [t])) n1 b1) as (b' & n' & E' & Hc' & Hn' & Hb'); try done.
  - apply Forall_app. split; [done|]. destruct (is_aes t); [constructor|by constructor].
  - cbn in Hf |- *. lia.
  - lia.
  - lia.
  - exists b', n'. split; [done|]. split; [done|]. split; [done|]. rewrite Hb'.
    rewrite <- (assoc_L (++)). by destruct (is_aes t).
Qed.

Lemma keep_Forall (P : list Z -> Prop) ts : Forall P ts -> Forall P (keep ts).
Proof.
  induction 1 as [|t ts Ht Hts IH]; [constructor|]. rewrite keep_cons.
  destruct (is_aes t); [done|by constructor].
Qed.

Definition no_nul (t : list Z) : Prop := Forall (fun c => c <> 0) t.

Lemma join_no_nul ts : Forall no_nul ts -> no_nul (Match.join ts).
Proof.
  induction 1 as [|t ts Ht Hts IH]; [constructor|]. destruct ts as [|t1 ts]; [done|].
  rewrite Match.join_cons. apply Forall_app. split; [done|]. by constructor.
Qed.

Lemma c_str_end t : no_nul t -> c_str (t ++ [0]) = t.
Proof.
  induction 1 as [|c t Hc Ht IH]; [done|]. cbn [app c_str]. replace (c =? 0) with false by lia.
  by rewrite IH.
Qed.

(** Broken AES peers.  When the peer is marked with the big-endian AES bug,
    the cipher proposal becomes exactly the proposed names that do not start with
    aes, in their order; it is an error only when none is left.  Otherwise the
    proposal is unchanged. *)
Theorem compat_cipher_filter df ts :
  Forall Match.name_ok ts -> Forall no_nul ts -> ts <> [] ->
  zlen (Match.join ts) + zlen ts <= 1000000 ->
  compat_cipher_proposal df (Match.join ts) =
  if Z.land df SSH_BUG_BIGENDIANAES =? 0 then Ok (Match.join ts)
  else match keep ts with
       | [] => Fatal "No available ciphers found."
       | ks => Ok (Match.join ks)
       end.
Proof.
  intros Hts Hnul Hne Hsz. unfold compat_cipher_proposal. destruct (_ =? 0); [done|].
  destruct (cipher_loop_join ts (S (length (Match.join ts))) [] 0 buffer_init)
    as (b & n & -> & Hc & Hn & Hb); try done.
  { apply Match.join_length. }
  rsimp. cbn [app] in Hb.
  destruct (buffer_append_capped n b [0] Hc) as (b1 & -> & Hc1 & Hb1);
    [done|change (zlen [0]) with 1; unfold BUFFER_ALLOCSZ, BUFFER_MAX_LEN; lia|].
  rsimp. rewrite buffer_ptr_contents, Hb1, Hb by apply Hc1.
  assert (Hkn : Forall no_nul (keep ts)) by (by apply keep_Forall).
  assert (Hko : Forall Match.name_ok (keep ts)) by (by apply keep_Forall).
  rewrite c_str_end by (by apply join_no_nul).
  destruct (keep ts) as [|k ks] eqn:Ek; [done|]. apply Forall_cons in Hko as [Hk _].
  pose proof (join_nonempty k ks Hk). by destruct (Match.join (k :: ks)).
Qed.

Lemma compat_cipher_filter_witness :
  compat_cipher_proposal SSH_BUG_BIGENDIANAES (str "aes128-cbc,3des-cbc,aes256-ctr,arcfour")
  = Ok (str "3des-cbc,arcfour").
Proof.
  change (str "aes128-cbc,3des-cbc,aes256-ctr,arcfour")
    with (Match.join [str "aes128-cbc"; str "3des-cbc"; str "aes256-ctr"; str "arcfour"]).
  rewrite (compat_cipher_filter SSH_BUG_BIGENDIANAES
             [str "aes128-cbc"; str "3des-cbc"; str "aes256-ctr"; str "arcfour"]).
  - reflexivity.
  - repeat constructor; discriminate.
  - repeat constructor; discriminate.
  - discriminate.
  - vm_compute. discriminate.
Defined.

End Compat.
