(* ===== verification/SshDh.v ===== *)
(** * SshDh: Diffie-Hellman groups and keys

    dh.cpp: the two fixed groups, the private key of the server and the test of a
    public value.  The numbers and the exponentiation are OpenSSL's: [DhLib] with the
    laws [DhLaws].  [parse_prime] is in SshText: its only caller, the search of a file of
    moduli, is compiled out of [choose_dh]. *)

From Stdlib Require Import Zpow_facts.
From S2P Require Import Prelude SshBuffer SshCipher SshPacket SshKex.

(** ** The library *)

(** A [DH]: [None] for the keys that are still NULL. *)
Record DH := mkDH { dh_p : Z; dh_g : Z; priv_key : option Z; pub_key : option Z }.

(** The value of a string of hexadecimal digits. *)
Definition hex_digit (c : Z) : option Z :=
  if (48 <=? c) && (c <=? 57) then Some (c - 48)
  else if (65 <=? c) && (c <=? 70) then Some (c - 55)
  else if (97 <=? c) && (c <=? 102) then Some (c - 87)
  else None.

Fixpoint hex_value (acc : Z) (s : list Z) : option Z :=
  match s with
  | [] => Some acc
  | c :: s => d ← hex_digit c; hex_value (16 * acc + d) s
  end.

Class DhLib `{BnLib} := {
  BN_cmp : Z -> Z -> Z;
  (** [None] where the function returns 0 *)
  BN_sub : Z -> Z -> option Z;
  BN_is_bit_set : Z -> Z -> bool;
  BN_hex2bn : list Z -> option Z;
  (** the number that the [n]-th call makes, of at most [bits] bits *)
  BN_rand : Z -> nat -> option Z;
  (** the public value for the private key that is set *)
  DH_generate_key : DH -> option Z;
  (** the shared secret with a public value; [None] for -1 *)
  DH_compute_key : Z -> DH -> option (list Z)
}.

Class DhLaws `{DhLib} := {
  bn_cmp : forall a b, BN_cmp a b = match Z.compare a b with Lt => -1 | Eq => 0 | Gt => 1 end;
  bn_sub : forall a b c, BN_sub a b = Some c -> c = a - b;
  bn_bit : forall v i, 0 <= v -> 0 <= i -> BN_is_bit_set v i = Z.testbit v i;
  bn_num_bits : forall v, 0 < v -> BN_num_bits v = Z.log2 v + 1;
  bn_num_bits_0 : BN_num_bits 0 = 0;
  bn_hex : forall s v, hex_value 0 s = Some v -> s <> [] -> BN_hex2bn s = Some v;
  bn_rand : forall bits n v, 0 <= bits -> BN_rand bits n = Some v -> 0 <= v < 2 ^ bits;
  dh_generate : forall dh x f, priv_key dh = Some x -> DH_generate_key dh = Some f ->
    f = dh_g dh ^ x mod dh_p dh;
  dh_compute : forall dh x e k, 0 < dh_p dh -> priv_key dh = Some x -> DH_compute_key e dh = Some k ->
    BN_bin2bn k = e ^ x mod dh_p dh
}.

Section Dh.
Context `{DL : DhLib}.

(** ** Groups *)

Definition dh_new_group_asc (gen modulus : list Z) : res DH :=
  p ← or_fatal "BN_hex2bn p" (BN_hex2bn modulus);
  g ← or_fatal "BN_hex2bn g" (BN_hex2bn gen);
  Ok (mkDH p g None None).

Definition dh_new_group (gen modulus : Z) : DH := mkDH modulus gen None None.

Definition group1 : list Z :=
  str "FFFFFFFFFFFFFFFFC90FDAA22168C234C4C6628B80DC1CD129024E088A67CC74020BBEA6" ++
  str "3B139B22514A08798E3404DDEF9519B3CD3A431B302B0A6DF25F14374FE1356D6D51C245" ++
  str "E485B576625E7EC6F44C42E9A637ED6B0BFF5CB6F406B7EDEE386BFB5A899FA5AE9F2411" ++
  str "7C4B1FE649286651ECE65381FFFFFFFFFFFFFFFF".

Definition dh_new_group1 : res DH := dh_new_group_asc (str "2") group1.

Definition group14 : list Z :=
  str "FFFFFFFFFFFFFFFFC90FDAA22168C234C4C6628B80DC1CD129024E088A67CC74020BBEA6" ++
  str "3B139B22514A08798E3404DDEF9519B3CD3A431B302B0A6DF25F14374FE1356D6D51C245" ++
  str "E485B576625E7EC6F44C42E9A637ED6B0BFF5CB6F406B7EDEE386BFB5A899FA5AE9F2411" ++
  str "7C4B1FE649286651ECE45B3DC2007CB8A163BF0598DA48361C55D39A69163FA8FD24CF5F" ++
  str "83655D23DCA3AD961C62F356208552BB9ED529077096966D670C354E4ABC9804F1746C08" ++
  str "CA18217C32905E462E36CE3BE39E772C180E86039B2783A2EC07A28FB5C55DF06F4C52C9" ++
  str "DE2BCBF6955817183995497CEA956AE515D2261898FA051015728E5A8AACAA68FFFFFFFF" ++
  str "FFFFFFFF".

Definition dh_new_group14 : res DH := dh_new_group_asc (str "2") group14.

Definition DH_GRP_MIN : Z := 1024.
Definition DH_GRP_MAX : Z := 8192.

Definition choose_dh (min wantbits max : Z) : res DH := dh_new_group14.

Definition dh_estimate (bits : Z) : Z :=
  if bits <=? 128 then 1024 else if bits <=? 192 then 2048 else 4096.

(** ** Keys *)

(** The loop over the bits 0 to [n]. *)
Definition count_bits (v n : Z) : Z := zlen (filter (fun i => BN_is_bit_set v i = true) (seqZ 0 (n + 1))).

Definition dh_pub_is_valid (dh : DH) (dh_pub : Z) : bool :=
  if dh_pub <? 0 then false
  else if negb (BN_cmp dh_pub 1 =? 1) then false
  else
    match BN_sub (dh_p dh) 1 with
    | None => false
    | Some tmp =>
        if negb (BN_cmp dh_pub tmp =? -1) then false
        else count_bits dh_pub (BN_num_bits dh_pub) >? 1
    end.

Definition INT_MAX : Z := 2147483647.

(** The turns of the loop; the number of calls of [BN_rand] so far is threaded. *)
Fixpoint gen_loop (fuel : nat) (tries : Z) (dh : DH) (need : Z) (used : nat) : res (DH * nat) :=
  match fuel with
  | O => OutOfFuel
  | S fuel =>
      x ← or_fatal "dh_gen_key: BN_rand failed" (BN_rand (2 * need) used);
      let dh := mkDH (dh_p dh) (dh_g dh) (Some x) (pub_key dh) in
      f ← or_fatal "DH_generate_key" (DH_generate_key dh);
      let dh := mkDH (dh_p dh) (dh_g dh) (Some x) (Some f) in
      if tries >? 10 then Fatal "dh_gen_key: too many bad keys: giving up"
      else if dh_pub_is_valid dh f then Ok (dh, S used)
      else gen_loop fuel (tries + 1) dh need (S used)
  end.

(** At most twelve turns. *)
Definition dh_gen_key (dh : DH) (need : Z) (used : nat) : res (DH * nat) :=
  if (need >? INT_MAX / 2) || (2 * need >=? BN_num_bits (dh_p dh)) then Fatal "dh_gen_key: group too small"
  else gen_loop 12 0 dh need used.

End Dh.

(** ** Theorems *)

Section DhTheorems.
Context `{DL : DhLib} `{!DhLaws}.

(** Numbers with more than one bit: those that are not a power of two. *)
Definition pow2 (v : Z) : Prop := exists k, 0 <= k /\ v = 2 ^ k.

Lemma count_bits_pow2 k n : 0 <= k -> count_bits (2 ^ k) n <= 1.
Proof.
  intros Hk. unfold count_bits, zlen.
  cut (length (filter (fun i => BN_is_bit_set (2 ^ k) i = true) (seqZ 0 (n + 1))) <= length [k])%nat; [cbn; lia|].
  apply submseteq_length, NoDup_submseteq; [apply NoDup_filter, NoDup_seqZ|].
  intros i [Hi Hs]%list_elem_of_filter. apply elem_of_seqZ in Hs.
  rewrite bn_bit, Z.pow2_bits_eqb in Hi by lia. apply list_elem_of_singleton. lia.
Qed.

Lemma count_bits_two v n i j : 0 <= v -> 0 <= i < j -> j <= n ->
  Z.testbit v i = true -> Z.testbit v j = true -> 1 < count_bits v n.
Proof.
  intros Hv Hij Hn Hi Hj. unfold count_bits, zlen.
  cut (length [i; j] <= length (filter (fun i => BN_is_bit_set v i = true) (seqZ 0 (n + 1))))%nat; [cbn; lia|].
  apply submseteq_length, NoDup_submseteq.
  - apply NoDup_cons. split; [rewrite list_elem_of_singleton; lia|apply NoDup_singleton].
  - intros l Hl. apply list_elem_of_filter.
    rewrite elem_of_cons, list_elem_of_singleton in Hl. rewrite elem_of_seqZ.
    destruct Hl as [->| ->]; (split; [by rewrite bn_bit by lia|lia]).
Qed.

Lemma count_bits_spec v : 0 < v -> (1 < count_bits v (BN_num_bits v) <-> ~ pow2 v).
Proof.
  intros Hv. split.
  - intros Hc (k & Hk & ->). pose proof (count_bits_pow2 k (BN_num_bits (2 ^ k)) Hk). lia.
  - intros Hp. pose proof (Z.log2_spec v Hv) as [Hlo Hhi]. pose proof (Z.log2_nonneg v) as Hl.
    set (r := v - 2 ^ Z.log2 v).
    assert (Hr : 0 < r < 2 ^ Z.log2 v).
    { rewrite <- Z.add_1_r, Z.pow_add_r in Hhi by lia. split; [|unfold r; lia].
      destruct (Z.eq_dec v (2 ^ Z.log2 v)) as [E|]; [|unfold r; lia]. destruct Hp. by exists (Z.log2 v). }
    assert (Hlt : Z.log2 r < Z.log2 v) by (apply Z.log2_lt_pow2; lia).
    assert (Hbit : forall i, 0 <= i < Z.log2 v -> Z.testbit v i = Z.testbit r i).
    { intros i Hi. replace r with (v mod 2 ^ Z.log2 v).
      - by rewrite Z.mod_pow2_bits_low by lia.
      - symmetry. apply Z.mod_unique with 1; [by left; unfold r; lia|unfold r; lia]. }
    apply (count_bits_two v _ (Z.log2 r) (Z.log2 v)); [lia| | |..].
    + split; [apply Z.log2_nonneg|done].
    + rewrite bn_num_bits by done. lia.
    + rewrite Hbit by (split; [apply Z.log2_nonneg|done]). apply Z.bit_log2. lia.
    + by apply Z.bit_log2.
Qed.

(** The public values that are accepted: those between 1 and p - 1 that are not a power
    of two (of which the logarithm to the base 2 of the groups is known). *)
Lemma dh_pub_is_valid_spec dh v : dh_pub_is_valid dh v = true ->
  1 < v < dh_p dh - 1 /\ ~ pow2 v.
Proof.
  unfold dh_pub_is_valid. destruct (v <? 0) eqn:E0; [done|]. zbool. rewrite bn_cmp.
  destruct (Z.compare_spec v 1) as [| |H1]; cbn; try done.
  destruct (BN_sub (dh_p dh) 1) as [t|] eqn:Et; [|done]. apply bn_sub in Et as ->. rewrite bn_cmp.
  destruct (Z.compare_spec v (dh_p dh - 1)) as [|H2|]; cbn; try done. intros Hc. zbool.
  split; [lia|]. by apply count_bits_spec; [lia|].
Qed.

Lemma dh_pub_is_valid_true dh v : is_Some (BN_sub (dh_p dh) 1) ->
  1 < v < dh_p dh - 1 -> ~ pow2 v -> dh_pub_is_valid dh v = true.
Proof.
  intros [t Ht] Hv Hp. unfold dh_pub_is_valid. rewrite Ht, !bn_cmp. apply bn_sub in Ht as ->.
  rewrite (proj2 (Z.ltb_ge v 0)), (proj2 (Z.compare_gt_iff v 1)), (proj2 (Z.compare_lt_iff v _)) by lia.
  cbn. apply Z.gtb_lt, count_bits_spec; [lia|done].
Qed.

(** A key that was generated. *)
Record dh_ready (dh0 dh : DH) (need x f : Z) : Prop := {
  rd_p : dh_p dh = dh_p dh0;
  rd_g : dh_g dh = dh_g dh0;
  rd_priv : priv_key dh = Some x;
  rd_pub : pub_key dh = Some f;
  rd_range : 0 <= x < 2 ^ (2 * need);
  rd_power : f = dh_g dh0 ^ x mod dh_p dh0;
  rd_valid : dh_pub_is_valid dh f = true
}.

(** It depends on the group only. *)
Lemma dh_pub_is_valid_group dh dh' v : dh_p dh = dh_p dh' -> dh_pub_is_valid dh v = dh_pub_is_valid dh' v.
Proof. intros E. unfold dh_pub_is_valid. by rewrite E. Qed.

Lemma gen_loop_spec fuel : forall tries dh need used, 0 <= need -> (12 - tries <= Z.of_nat fuel) -> 0 <= tries <= 11 ->
  match gen_loop fuel tries dh need used with
  | Ok (dh', used') => exists x f, dh_ready dh dh' need x f /\ (used < used' <= used + fuel)%nat
  | Fatal _ => True
  | OutOfFuel => False
  end.
Proof.
  induction fuel as [|fuel IH]; intros tries dh need used Hn Hf Ht; [lia|]. cbn [gen_loop].
  destruct (BN_rand (2 * need) used) as [x|] eqn:Ex; [|done]. rsimp.
  destruct (DH_generate_key _) as [f|] eqn:Ef; [|done]. rsimp.
  destruct (tries >? 10) eqn:Et; [done|]. zbool.
  destruct (dh_pub_is_valid _ f) eqn:Ev.
  - exists x, f. split; [|lia]. split; try done; [apply bn_rand in Ex; [done|lia]|].
    by apply (dh_generate _ x) in Ef.
  - specialize (IH (tries + 1) (mkDH (dh_p dh) (dh_g dh) (Some x) (Some f)) need (S used)
      Hn ltac:(lia) ltac:(lia)).
    destruct (gen_loop _ _ _ _ _) as [[dh' used']|m|]; [|done|done].
    destruct IH as (x' & f' & [] & Hu). exists x', f'. split; [|lia]. by split.
Qed.

(** Generating a key ends after at most twelve draws with a key whose public value is
    valid, and only if the group is large enough for the bits that are needed. *)
Lemma dh_gen_key_spec dh need used : 0 <= need ->
  match dh_gen_key dh need used with
  | Ok (dh', used') => exists x f, dh_ready dh dh' need x f /\ 2 * need < BN_num_bits (dh_p dh) /\
      (used < used' <= used + 12)%nat
  | Fatal _ => True
  | OutOfFuel => False
  end.
Proof.
  intros Hn. unfold dh_gen_key. destruct (_ || _) eqn:E; [done|]. apply orb_false_iff in E as [_ E].
  rewrite Z.geb_leb in E. apply Z.leb_gt in E.
  pose proof (gen_loop_spec 12 0 dh need used Hn ltac:(lia) ltac:(lia)) as Hgl.
  destruct (gen_loop _ _ _ _ _) as [[dh' used']|m|]; [|done|done].
  destruct Hgl as (x & f & Hr & Hu). by exists x, f.
Qed.

(** The moduli of the groups. *)
Definition p1 : Z := default 0 (hex_value 0 group1).
Definition p14 : Z := default 0 (hex_value 0 group14).

Lemma new_group_asc gen modulus g p : hex_value 0 gen = Some g -> hex_value 0 modulus = Some p ->
  gen <> [] -> modulus <> [] -> dh_new_group_asc gen modulus = Ok (mkDH p g None None).
Proof. intros Hg Hp ??. unfold dh_new_group_asc. by rewrite (bn_hex modulus p), (bn_hex gen g). Qed.

Lemma new_group1 : dh_new_group1 = Ok (mkDH p1 2 None None).
Proof. apply new_group_asc; [done|by vm_compute|done|done]. Qed.

Lemma new_group14 : dh_new_group14 = Ok (mkDH p14 2 None None).
Proof. apply new_group_asc; [done|by vm_compute|done|done]. Qed.

Lemma groups_bits : BN_num_bits p1 = 1024 /\ BN_num_bits p14 = 2048.
Proof. by rewrite !bn_num_bits by (by vm_compute). Qed.

(** Both sides get the same secret. *)
Lemma dh_exchange g p x y : 0 <= x -> 0 <= y ->
  (g ^ x mod p) ^ y mod p = (g ^ y mod p) ^ x mod p.
Proof.
  intros Hx Hy. rewrite !Z.mod_pow_l, <- !Z.pow_mul_r by done. by rewrite Z.mul_comm.
Qed.

End DhTheorems.

(** ** The arithmetic of [Z] as the library *)

Module ToyDh.
Export ToyKex.

#[export] Instance toy_dh : DhLib := {
  BN_cmp a b := match Z.compare a b with Lt => -1 | Eq => 0 | Gt => 1 end;
  BN_sub a b := Some (a - b);
  BN_is_bit_set := Z.testbit;
  BN_hex2bn := hex_value 0;
  BN_rand bits n := Some ((1026 + Z.of_nat n) mod 2 ^ bits);
  DH_generate_key dh := x ← priv_key dh; Some (dh_g dh ^ x mod dh_p dh);
  DH_compute_key e dh := x ← priv_key dh; Some (BN_bn2bin (Zpow_mod e x (dh_p dh)))
}.

Lemma toy_bin v : 0 <= v -> BN_bin2bn (BN_bn2bin v) = v.
Proof. intros Hv. destruct (Z.eq_dec v 0) as [->|]; [done|]. apply bin2bn_bn2bin. lia. Qed.

#[export] Instance toy_dh_laws : DhLaws.
Proof.
  constructor; cbn; try done.
  - by intros a b c [= <-].
  - intros v Hv. by rewrite (proj2 (Z.leb_gt v 0)) by lia.
  - intros bits n v Hb [= <-]. apply Z.mod_pos_bound. lia.
  - intros dh x f -> [= <-]. done.
  - intros dh x e k Hp -> [= <-]. rewrite Zpow_mod_correct by lia. apply toy_bin.
    by apply Z.mod_pos_bound.
Qed.

End ToyDh.
