(* ===== verification/SshKey.v ===== *)
(** * SshKey: host keys, their blobs and their signatures

    key.cpp (keys, their encoding as blobs, the choice of the algorithm), ssh-rsa.cpp
    and ssh-dss.cpp (signatures as they go over the wire).  A [BIGNUM] is its value; the
    RSA and DSA operations are OpenSSL's: [KeyLib], with the laws [KeyLaws].

    The theorems: a blob is read back as the public half of the key; a signature is
    accepted by the other side, with the public half; and a signature is accepted only
    if it decrypts to exactly the encoding of the digest of the data. *)

From S2P Require Import Prelude SshBuffer SshMatch SshCipher SshPacket SshTransport SshKex SshCompat SshDh.

(** ** Keys *)

Record RSA_private := mkRSAPrivate {
  rsa_d : Z; rsa_iqmp : Z; rsa_q : Z; rsa_p : Z; rsa_dmq1 : Z; rsa_dmp1 : Z
}.

(** [None]: the members of the private half are NULL. *)
Record RSA := mkRSA { rsa_n : Z; rsa_e : Z; rsa_private : option RSA_private }.
Record DSA := mkDSA { dsa_p : Z; dsa_q : Z; dsa_g : Z; dsa_pub : Z; dsa_private : option Z }.

Record Key := mkKey {
  ktype : Z;
  kflags : Z;
  krsa : option RSA;
  kdsa : option DSA
}.

(** New numbers are zero. *)
Definition key_new (type : Z) : res Key :=
  if (type =? KEY_RSA1) || (type =? KEY_RSA) then Ok (mkKey type 0 (Some (mkRSA 0 0 None)) None)
  else if type =? KEY_DSA then Ok (mkKey type 0 None (Some (mkDSA 0 0 0 0 None)))
  else if type =? KEY_UNSPEC then Ok (mkKey type 0 None None)
  else Fatal "key_new: bad key type".

(** A NULL pointer that is dereferenced. *)
Definition deref {A} (o : option A) : res A := or_fatal "NULL" o.

Definition key_new_private (type : Z) : res Key :=
  k ← key_new type;
  if (type =? KEY_RSA1) || (type =? KEY_RSA) then
    r ← deref (krsa k);
    Ok (mkKey type (kflags k) (Some (mkRSA (rsa_n r) (rsa_e r) (Some (mkRSAPrivate 0 0 0 0 0 0)))) (kdsa k))
  else if type =? KEY_DSA then
    d ← deref (kdsa k);
    Ok (mkKey type (kflags k) (krsa k)
          (Some (mkDSA (dsa_p d) (dsa_q d) (dsa_g d) (dsa_pub d) (Some 0))))
  else Ok k.

Definition rsa_public (r : RSA) : RSA := mkRSA (rsa_n r) (rsa_e r) None.
Definition dsa_public (d : DSA) : DSA := mkDSA (dsa_p d) (dsa_q d) (dsa_g d) (dsa_pub d) None.

(** The copy of the public half into a new key. *)
Definition key_from_private (k : Key) : res Key :=
  if ktype k =? KEY_DSA then
    n ← key_new (ktype k);
    d ← deref (kdsa k);
    Ok (mkKey (ktype n) (kflags n) (krsa n) (Some (dsa_public d)))
  else if (ktype k =? KEY_RSA) || (ktype k =? KEY_RSA1) then
    n ← key_new (ktype k);
    r ← deref (krsa k);
    Ok (mkKey (ktype n) (kflags n) (Some (rsa_public r)) (kdsa n))
  else Fatal "key_from_private: unknown type".

Definition key_demote (k : Key) : res Key :=
  if (ktype k =? KEY_RSA1) || (ktype k =? KEY_RSA) then
    r ← deref (krsa k); Ok (mkKey (ktype k) (kflags k) (Some (rsa_public r)) None)
  else if ktype k =? KEY_DSA then
    d ← deref (kdsa k); Ok (mkKey (ktype k) (kflags k) None (Some (dsa_public d)))
  else Fatal "key_free: bad key type".

Definition key_type (k : Key) : list Z :=
  if ktype k =? KEY_RSA1 then str "RSA1"
  else if ktype k =? KEY_RSA then str "RSA"
  else if ktype k =? KEY_DSA then str "DSA"
  else str "unknown".

Definition key_ssh_name (k : Key) : list Z :=
  if ktype k =? KEY_RSA then str "ssh-rsa"
  else if ktype k =? KEY_DSA then str "ssh-dss"
  else str "ssh-unknown".

(** ** Signatures in the library *)

Inductive nid := NID_md5 | NID_sha1.

Class KeyLib := {
  EVP_get_digestbynid : nid -> option evp_md;
  (** [None] where the function does not return 1 *)
  RSA_sign : nid -> list Z -> RSA -> option (list Z);
  RSA_size : RSA -> Z;
  (** with [RSA_PKCS1_PADDING]; [None] for -1 *)
  RSA_public_decrypt : list Z -> RSA -> option (list Z);
  (** the numbers r and s *)
  DSA_do_sign : list Z -> DSA -> option (Z * Z);
  DSA_do_verify : list Z -> Z * Z -> DSA -> Z
}.

Definition id_sha1 : list Z :=
  [0x30; 0x21; 0x30; 0x09; 0x06; 0x05; 0x2b; 0x0e; 0x03; 0x02; 0x1a; 0x05; 0x00; 0x04; 0x14].
Definition id_md5 : list Z :=
  [0x30; 0x20; 0x30; 0x0c; 0x06; 0x08; 0x2a; 0x86; 0x48; 0x86; 0xF7; 0x0D; 0x02; 0x05; 0x05; 0x00;
   0x04; 0x10].

(** The identifier of the digest and the length of its value. *)
Definition oid_of (type : nid) : list Z := match type with NID_sha1 => id_sha1 | NID_md5 => id_md5 end.
Definition hlen_of (type : nid) : Z := match type with NID_sha1 => 20 | NID_md5 => 16 end.

Definition SSH_RSA_MINIMUM_MODULUS_SIZE : Z := 768.
Definition INTBLOB_LEN : Z := 20.
Definition SIGBLOB_LEN : Z := 40.

Section Keys.
Context `{CR : Crypto} `{!Digest} `{DL : DhLib} `{KL : KeyLib}.

Definition key_size (k : Key) : res Z :=
  if (ktype k =? KEY_RSA1) || (ktype k =? KEY_RSA) then r ← deref (krsa k); Ok (BN_num_bits (rsa_n r))
  else if ktype k =? KEY_DSA then d ← deref (kdsa k); Ok (BN_num_bits (dsa_p d))
  else Ok 0.

Definition bn_eq (a b : Z) : bool := BN_cmp a b =? 0.

Definition key_equal (a b : option Key) : res bool :=
  match a, b with
  | Some a, Some b =>
      if negb (ktype a =? ktype b) then Ok false
      else if (ktype a =? KEY_RSA1) || (ktype a =? KEY_RSA) then
        Ok match krsa a, krsa b with
           | Some r, Some s => bn_eq (rsa_e r) (rsa_e s) && bn_eq (rsa_n r) (rsa_n s)
           | _, _ => false
           end
      else if ktype a =? KEY_DSA then
        Ok match kdsa a, kdsa b with
           | Some d, Some e => bn_eq (dsa_p d) (dsa_p e) && bn_eq (dsa_q d) (dsa_q e) &&
               bn_eq (dsa_g d) (dsa_g e) && bn_eq (dsa_pub d) (dsa_pub e)
           | _, _ => false
           end
      else Fatal "key_equal: bad key type"
  | _, _ => Ok false
  end.

(** ** Blobs *)

(** [None]: the type has no blob, and 0 is returned. *)
Definition key_to_blob (key : Key) : res (option (list Z)) :=
  if ktype key =? KEY_DSA then
    b ← buffer_put_cstring buffer_init (Some (key_ssh_name key));
    d ← deref (kdsa key);
    b ← buffer_put_bignum2 b (dsa_p d);
    b ← buffer_put_bignum2 b (dsa_q d);
    b ← buffer_put_bignum2 b (dsa_g d);
    b ← buffer_put_bignum2 b (dsa_pub d);
    Ok (Some (buffer_ptr b))
  else if ktype key =? KEY_RSA then
    b ← buffer_put_cstring buffer_init (Some (key_ssh_name key));
    r ← deref (krsa key);
    b ← buffer_put_bignum2 b (rsa_e r);
    b ← buffer_put_bignum2 b (rsa_n r);
    Ok (Some (buffer_ptr b))
  else Ok None.

(** Reading stops at the first number that is not there. *)
Fixpoint get_bignums (n : nat) (b : Buffer) : res (option (list Z) * Buffer) :=
  match n with
  | O => Ok (Some [], b)
  | S n =>
      '(o, b) ← buffer_get_bignum2_ret b;
      match o with
      | None => Ok (None, b)
      | Some v => '(l, b) ← get_bignums n b; Ok (option_map (cons v) l, b)
      end
  end.

(** Bytes behind the last number are only logged. *)
Definition key_from_blob (blob : list Z) : res (option Key) :=
  b ← buffer_append buffer_init blob;
  '(o, b) ← buffer_get_string_ret b;
  match o with
  | None => Ok None
  | Some ktype =>
      let type := key_type_from_name (c_str ktype) in
      if type =? KEY_RSA then
        key ← key_new type;
        '(o, b) ← get_bignums 2 b;
        match o with
        | Some [e; n] => Ok (Some (mkKey type (kflags key) (Some (mkRSA n e None)) (kdsa key)))
        | _ => Ok None
        end
      else if type =? KEY_DSA then
        key ← key_new type;
        '(o, b) ← get_bignums 4 b;
        match o with
        | Some [p; q; g; pub] => Ok (Some (mkKey type (kflags key) (krsa key) (Some (mkDSA p q g pub None))))
        | _ => Ok None
        end
      else if type =? KEY_UNSPEC then key ← key_new type; Ok (Some key)
      else Ok None
  end.

(** ** RSA *)

Definition rsa_nid (datafellows : Z) : nid :=
  if negb (Z.land datafellows Compat.SSH_BUG_RSASIGMD5 =? 0) then NID_md5 else NID_sha1.

(** The RSA key of a key of that type. *)
Definition rsa_of (key : Key) : option RSA := if ktype key =? KEY_RSA then krsa key else None.
Definition dsa_of (key : Key) : option DSA := if ktype key =? KEY_DSA then kdsa key else None.

(** [None]: -1. *)
Definition ssh_rsa_sign (datafellows : Z) (key : Key) (data : list Z) : res (option (list Z)) :=
  match rsa_of key with
  | None => Ok None
  | Some rsa =>
      let nid := rsa_nid datafellows in
      match EVP_get_digestbynid nid with
      | None => Ok None
      | Some md =>
          let digest := EVP_Digest md data in
          let slen := RSA_size rsa in
          match RSA_sign nid digest rsa with
          | None => Ok None
          | Some sig =>
              let len := zlen sig in
              if len >? slen then Ok None
              else
                let sig := if len <? slen then replicate (Z.to_nat (slen - len)) 0 ++ sig else sig in
                b ← buffer_put_cstring buffer_init (Some (str "ssh-rsa"));
                b ← buffer_put_string b sig;
                Ok (Some (buffer_ptr b))
          end
      end
  end.

Definition openssh_RSA_verify (type : nid) (hash sigbuf : list Z) (rsa : RSA) : Z :=
  let oid := oid_of type in
  let hlen := hlen_of type in
  if negb (zlen hash =? hlen) then 0
  else if (zlen sigbuf =? 0) || (zlen sigbuf >? RSA_size rsa) then 0
  else
    match RSA_public_decrypt sigbuf rsa with
    | None => 0
    | Some decrypted =>
        if negb (zlen decrypted =? hlen + zlen oid) then 0
        else if negb (bool_decide (take (length oid) decrypted = oid)) then 0
        else if negb (bool_decide (drop (length oid) decrypted = hash)) then 0
        else 1
    end.

Definition ssh_rsa_verify (datafellows : Z) (key : Key) (signature data : list Z) : res Z :=
  match rsa_of key with
  | None => Ok (-1)
  | Some rsa =>
      if BN_num_bits (rsa_n rsa) <? SSH_RSA_MINIMUM_MODULUS_SIZE then Ok (-1)
      else
        b ← buffer_append buffer_init signature;
        '(ktype, b) ← buffer_get_string b;
        if negb (bool_decide (c_str ktype = str "ssh-rsa")) then Ok (-1)
        else
          '(sigblob, b) ← buffer_get_string b;
          let len := zlen sigblob in
          if negb (buffer_len b =? 0) then Ok (-1)
          else
            let modlen := RSA_size rsa in
            if len >? modlen then Ok (-1)
            else
              let sigblob := if len <? modlen then replicate (Z.to_nat (modlen - len)) 0 ++ sigblob
                             else sigblob in
              let nid := rsa_nid datafellows in
              match EVP_get_digestbynid nid with
              | None => Ok (-1)
              | Some md => Ok (openssh_RSA_verify nid (EVP_Digest md data) sigblob rsa)
              end
  end.

(** ** DSA *)

Definition ssh_dss_sign (datafellows : Z) (key : Key) (data : list Z) : res (option (list Z)) :=
  match dsa_of key with
  | None => Ok None
  | Some dsa =>
      match DSA_do_sign (EVP_Digest EVP_sha1 data) dsa with
      | None => Ok None
      | Some (r, s) =>
          let rlen := BN_num_bytes r in
          let slen := BN_num_bytes s in
          if (rlen >? INTBLOB_LEN) || (slen >? INTBLOB_LEN) then Ok None
          else
            let sigblob := replicate (Z.to_nat SIGBLOB_LEN) 0 in
            let sigblob := splice (SIGBLOB_LEN - INTBLOB_LEN - rlen) (BN_bn2bin r) sigblob in
            let sigblob := splice (SIGBLOB_LEN - slen) (BN_bn2bin s) sigblob in
            if negb (Z.land datafellows Compat.SSH_BUG_SIGBLOB =? 0) then Ok (Some sigblob)
            else
              b ← buffer_put_cstring buffer_init (Some (str "ssh-dss"));
              b ← buffer_put_string b sigblob;
              Ok (Some (buffer_ptr b))
      end
  end.

(** The blob in a signature; [None]: -1. *)
Definition dss_sigblob (datafellows : Z) (signature : list Z) : res (option (list Z)) :=
  if negb (Z.land datafellows Compat.SSH_BUG_SIGBLOB =? 0) then Ok (Some signature)
  else
    b ← buffer_append buffer_init signature;
    '(ktype, b) ← buffer_get_string b;
    if negb (bool_decide (c_str ktype = str "ssh-dss")) then Ok None
    else
      '(sigblob, b) ← buffer_get_string b;
      if negb (buffer_len b =? 0) then Ok None else Ok (Some sigblob).

Definition ssh_dss_verify (datafellows : Z) (key : Key) (signature data : list Z) : res Z :=
  match dsa_of key with
  | None => Ok (-1)
  | Some dsa =>
      o ← dss_sigblob datafellows signature;
      match o with
      | None => Ok (-1)
      | Some sigblob =>
          if negb (zlen sigblob =? SIGBLOB_LEN) then Fatal "bad sigbloblen"
          else
            let r := BN_bin2bn (take (Z.to_nat INTBLOB_LEN) sigblob) in
            let s := BN_bin2bn (take (Z.to_nat INTBLOB_LEN) (drop (Z.to_nat INTBLOB_LEN) sigblob)) in
            Ok (DSA_do_verify (EVP_Digest EVP_sha1 data) (r, s) dsa)
      end
  end.

(** ** The algorithm of a key *)

Definition key_sign (datafellows : Z) (key : Key) (data : list Z) : res (option (list Z)) :=
  if ktype key =? KEY_DSA then ssh_dss_sign datafellows key data
  else if ktype key =? KEY_RSA then ssh_rsa_sign datafellows key data
  else Ok None.

Definition key_verify (datafellows : Z) (key : Key) (signature data : list Z) : res Z :=
  if zlen signature =? 0 then Ok (-1)
  else if ktype key =? KEY_DSA then ssh_dss_verify datafellows key signature data
  else if ktype key =? KEY_RSA then ssh_rsa_verify datafellows key signature data
  else Ok (-1).

(** ** The host keys of the server (SensitiveData.cpp) *)

(** The loop of [list_hostkey_types]; then a zero byte ends the string. *)
Fixpoint hostkey_types (keys : list (option Key)) (b : Buffer) : res Buffer :=
  match keys with
  | [] => Ok b
  | None :: keys => hostkey_types keys b
  | Some key :: keys =>
      b ← (if (ktype key =? KEY_RSA) || (ktype key =? KEY_DSA) then
             b ← (if buffer_len b >? 0 then buffer_append b (str ",") else Ok b);
             buffer_append b (key_ssh_name key)
           else Ok b);
      hostkey_types keys b
  end.

Definition list_hostkey_types (host_keys : list (option Key)) : res (list Z) :=
  b ← hostkey_types host_keys buffer_init;
  b ← buffer_append b [0];
  Ok (c_str (buffer_ptr b)).

Fixpoint get_hostkey_by_type (host_keys : list (option Key)) (type : Z) : option Key :=
  match host_keys with
  | [] => None
  | Some key :: keys => if ktype key =? type then Some key else get_hostkey_by_type keys type
  | None :: keys => get_hostkey_by_type keys type
  end.

Definition get_hostkey_by_index (host_keys : list (option Key)) (ind : Z) : option Key :=
  if (ind <? 0) || (ind >=? zlen host_keys) then None else znth None host_keys ind.

(** [load]: what [key_load_private] gives for each file. *)
Definition load_host_keys (files : list (option Key)) : res (list (option Key)) :=
  if existsb (fun o => match o with Some k => ktype k =? KEY_RSA1 | None => false end) files
  then Fatal "SSH1 is not supported (found RSA1 hostkey)"
  else if existsb (fun o => match o with Some k => (ktype k =? KEY_RSA) || (ktype k =? KEY_DSA) | None => false end) files
  then Ok files
  else Fatal "sshd: no hostkeys available -- exiting.".

End Keys.

(** ** Theorems *)

(** A signature decrypts, with the public half and brought to the size of the modulus,
    to the identifier and the digest; digests have their lengths. *)
Class KeyLaws `{CR : Crypto} `{BnLib} `{KL : KeyLib} := {
  nid_size : forall n md, EVP_get_digestbynid n = Some md -> EVP_MD_size md = hlen_of n;
  rsa_size : forall r, RSA_size r = BN_num_bytes (rsa_n r);
  rsa_sign : forall n dg r sig, RSA_sign n dg r = Some sig -> zlen sig <= RSA_size r ->
    RSA_public_decrypt (replicate (Z.to_nat (RSA_size r - zlen sig)) 0 ++ sig) (rsa_public r) =
    Some (oid_of n ++ dg);
  dsa_sign : forall dg d r s, DSA_do_sign dg d = Some (r, s) ->
    0 < r /\ 0 < s /\ DSA_do_verify dg (r, s) (dsa_public d) = 1
}.

Section KeyTheorems.
Context {CR : Crypto} {DG : Digest} {BN : BnLib} {DL : DhLib} {KL : KeyLib} {BL : BnLaws} {KW : KeyLaws}.

(** Numbers that the encoding takes and the decoder accepts. *)
Definition bn_ok (v : Z) : Prop := 0 <= v /\ BN_num_bytes v <= 8 * 1024 - 1.

Lemma mpint_short v : bn_ok v -> zlen (mpint v) <= 8 * 1024.
Proof.
  intros [Hv Hs]. destruct (Z.eq_dec v 0) as [->|]; [done|]. pose proof (mpint_len v ltac:(lia)). lia.
Qed.

Definition mpint_field (v : Z) : field := FString (mpint v).

Lemma writes_mpint v : bn_ok v -> writes (fun b => buffer_put_bignum2 b v) (field_bytes (mpint_field v)).
Proof. intros [Hv Hs]. apply writes_bignum2; lia. Qed.

(** A key of a type that has a blob. *)
Definition key_ok (k : Key) : Prop :=
  (ktype k = KEY_RSA /\ kdsa k = None /\ exists r, krsa k = Some r /\ bn_ok (rsa_n r) /\ bn_ok (rsa_e r)) \/
  (ktype k = KEY_DSA /\ krsa k = None /\ exists d, kdsa k = Some d /\
     bn_ok (dsa_p d) /\ bn_ok (dsa_q d) /\ bn_ok (dsa_g d) /\ bn_ok (dsa_pub d)).

(** Its public half, as a blob carries it. *)
Definition key_public (k : Key) : Key := mkKey (ktype k) 0 (rsa_public <$> krsa k) (dsa_public <$> kdsa k).

(** The numbers of a key in the order of its blob. *)
Definition key_numbers (k : Key) : list Z :=
  if ktype k =? KEY_RSA then
    match krsa k with Some r => [rsa_e r; rsa_n r] | None => [] end
  else match kdsa k with Some d => [dsa_p d; dsa_q d; dsa_g d; dsa_pub d] | None => [] end.

Definition blob_fields (k : Key) : list field := FString (key_ssh_name k) :: (mpint_field <$> key_numbers k).

Lemma get_bignums_app vs : forall b k rest, capped k b -> Forall bn_ok vs ->
  contents b = fields_bytes (mpint_field <$> vs) ++ rest ->
  exists b', get_bignums (length vs) b = Ok (Some vs, b') /\ capped k b' /\ contents b' = rest.
Proof.
  induction vs as [|v vs IH]; intros b k rest Hc Hok Hcon; [by exists b|].
  apply Forall_cons in Hok as [Hv Hok]. change (fields_bytes (mpint_field <$> v :: vs)) with
    ((put_u32 (zlen (mpint v)) ++ mpint v) ++ fields_bytes (mpint_field <$> vs)) in Hcon.
  rewrite <- !(assoc_L (++)) in Hcon. pose proof (mpint_short v Hv) as Hs.
  assert (Hs' : zlen (mpint v) <= 256 * 1024) by lia.
  destruct (buffer_get_string_app _ b (mpint v) _ Hc Hs' Hcon) as (b1 & E1 & Hc1 & H1).
  destruct (IH b1 k rest Hc1 Hok H1) as (b2 & E2 & Hc2 & H2). exists b2. split; [|done].
  cbn [get_bignums length]. unfold buffer_get_string in E1. unfold buffer_get_bignum2_ret.
  destruct (buffer_get_string_ret b) as [[[s|] b3]| |]; try discriminate E1.
  cbn in E1. injection E1 as -> ->. rsimp. destruct Hv as [Hv _]. rewrite mpint_high by done.
  destruct (zlen (mpint v) >? 8 * 1024) eqn:E4; zbool; [lia|]. rewrite mpint_value by done. rsimp.
  rewrite E2. done.
Qed.

Lemma key_numbers_ok k : key_ok k -> Forall bn_ok (key_numbers k) /\ (length (key_numbers k) <= 4)%nat.
Proof.
  unfold key_numbers. intros [(-> & _ & r & -> & ? & ?)|(-> & _ & d & -> & ? & ? & ? & ?)]; cbn;
    (split; [repeat (constructor; [done|]); constructor|lia]).
Qed.

Lemma numbers_len vs : Forall bn_ok vs ->
  zlen (fields_bytes (mpint_field <$> vs)) <= (8 * 1024 + 4) * Z.of_nat (length vs).
Proof.
  induction 1 as [|v vs Hv _ IH]; [done|]. change (fields_bytes (mpint_field <$> v :: vs)) with
    (field_bytes (mpint_field v) ++ fields_bytes (mpint_field <$> vs)).
  rewrite zlen_app. pose proof (mpint_short v Hv). cbn [field_bytes mpint_field length].
  rewrite zlen_app. change (zlen (put_u32 _)) with 4. lia.
Qed.

Lemma blob_small k : key_ok k -> zlen (fields_bytes (blob_fields k)) <= 33000.
Proof.
  intros Hk. destruct (key_numbers_ok k Hk) as [Hn Hl]. pose proof (numbers_len _ Hn).
  change (fields_bytes (blob_fields k)) with
    (field_bytes (FString (key_ssh_name k)) ++ fields_bytes (mpint_field <$> key_numbers k)).
  rewrite zlen_app.
  assert (zlen (field_bytes (FString (key_ssh_name k))) = 11).
  { unfold key_ssh_name. by destruct Hk as [(-> & _)|(-> & _)]. }
  lia.
Qed.

Lemma small_fits l : zlen l <= 1000000 -> fits 0 l.
Proof. unfold fits, BUFFER_ALLOCSZ, BUFFER_MAX_LEN. lia. Qed.

Lemma key_to_blob_fields k : key_ok k -> key_to_blob k = Ok (Some (fields_bytes (blob_fields k))).
Proof.
  intros Hk. pose proof (blob_small k Hk). assert (Hf : fits 0 (fields_bytes (blob_fields k))) by (apply small_fits; lia).
  apply filling_init in Hf. fold (fields_bytes (blob_fields k)) in Hf.
  set (total := fields_bytes (blob_fields k)) in *. clearbody total. revert Hf.
  unfold key_to_blob, blob_fields, key_numbers, key_ssh_name.
  destruct Hk as [(-> & _ & r & -> & Hn & He)|(-> & _ & d & -> & Hp & Hq & Hg & Hy)];
    cbn [Z.eqb KEY_RSA KEY_DSA Pos.eqb fmap list_fmap]; intros Hf.
  - fill (writes_cstring (str "ssh-rsa") ltac:(done)). cbn [deref or_fatal]. rsimp.
    fill (writes_mpint _ He). fill (writes_mpint _ Hn). by filled.
  - fill (writes_cstring (str "ssh-dss") ltac:(done)). cbn [deref or_fatal]. rsimp.
    fill (writes_mpint _ Hp). fill (writes_mpint _ Hq). fill (writes_mpint _ Hg). fill (writes_mpint _ Hy).
    by filled.
Qed.

Lemma key_from_blob_fields k : key_ok k -> key_from_blob (fields_bytes (blob_fields k)) = Ok (Some (key_public k)).
Proof.
  intros Hk. pose proof (blob_small k Hk) as Hs. unfold key_from_blob.
  destruct (buffer_append_fits 0 buffer_init (fields_bytes (blob_fields k)) buffer_init_capped)
    as (b & -> & Hc & Hcon); [apply small_fits; lia|unfold BUFFER_MAX_CHUNK; lia|]. rsimp.
  change (contents buffer_init ++ fields_bytes (blob_fields k)) with
    ((put_u32 (zlen (key_ssh_name k)) ++ key_ssh_name k) ++ fields_bytes (mpint_field <$> key_numbers k)) in Hcon.
  rewrite <- app_assoc in Hcon.
  assert (Hn : zlen (key_ssh_name k) <= 256 * 1024).
  { unfold key_ssh_name. by destruct Hk as [(-> & _)|(-> & _)]. }
  destruct (buffer_get_string_app _ b _ _ Hc Hn Hcon) as (b1 & E1 & Hc1 & H1).
  unfold buffer_get_string in E1. destruct (buffer_get_string_ret b) as [[[s|] b2]| |]; try discriminate E1.
  cbn in E1. injection E1 as -> ->. rsimp. rewrite <- (app_nil_r (fields_bytes _)) in H1.
  destruct (key_numbers_ok k Hk) as [Hok _].
  destruct (get_bignums_app _ b1 _ [] Hc1 Hok H1) as (b3 & E3 & _). revert E3.
  unfold key_ssh_name, key_numbers, key_public.
  destruct Hk as [(-> & -> & r & -> & _)|(-> & -> & d & -> & _)]; cbn [Z.eqb KEY_RSA KEY_DSA Pos.eqb length];
    intros E3; cbn -[get_bignums]; rewrite E3; done.
Qed.

(** *** Signatures *)

(** The form of a signature on the wire. *)
Definition signature_bytes (name blob : list Z) : list Z := fields_bytes [FString name; FString blob].

Lemma put_signature name blob : c_str name = name -> zlen name <= 100 -> zlen blob <= 10000 ->
  (b ← buffer_put_cstring buffer_init (Some name); b ← buffer_put_string b blob; Ok (Some (buffer_ptr b))) =
  Ok (Some (signature_bytes name blob)).
Proof.
  intros Hn Hl Hb.
  assert (Hf : fits 0 (signature_bytes name blob)).
  { apply small_fits. unfold signature_bytes, fields_bytes. cbn [fmap list_fmap concat field_bytes].
    rewrite !zlen_app. change (zlen (put_u32 _)) with 4. change (zlen []) with 0. lia. }
  apply filling_init in Hf. fold (fields_bytes [FString name; FString blob]) in Hf.
  fold (signature_bytes name blob) in Hf. set (total := signature_bytes name blob) in *. clearbody total.
  cbn [fmap list_fmap field_bytes] in Hf. rewrite <- Hn in Hf at 1 2.
  fill (writes_cstring name ltac:(rewrite Hn; unfold BUFFER_MAX_CHUNK; lia)).
  fill (writes_string blob ltac:(unfold BUFFER_MAX_CHUNK; lia)). by filled.
Qed.

Lemma get_signature name blob : zlen name <= 100 -> zlen blob <= 10000 ->
  exists b b1 b2, buffer_append buffer_init (signature_bytes name blob) = Ok b /\
    buffer_get_string b = Ok (name, b1) /\ buffer_get_string b1 = Ok (blob, b2) /\ buffer_len b2 = 0.
Proof.
  intros Hn Hb.
  assert (Hl : zlen (signature_bytes name blob) <= 20000).
  { unfold signature_bytes, fields_bytes. cbn [fmap list_fmap concat field_bytes].
    rewrite !zlen_app. change (zlen (put_u32 _)) with 4. change (zlen []) with 0. lia. }
  destruct (buffer_append_fits 0 buffer_init (signature_bytes name blob) buffer_init_capped)
    as (b & E & Hc & Hcon); [apply small_fits; lia|unfold BUFFER_MAX_CHUNK; lia|].
  cbn [app] in Hcon. unfold signature_bytes, fields_bytes in Hcon.
  change (contents buffer_init) with (@nil Z) in Hcon.
  cbn [fmap list_fmap concat field_bytes app] in Hcon. rewrite <- !app_assoc in Hcon.
  destruct (buffer_get_string_app _ b name _ Hc ltac:(lia) Hcon) as (b1 & E1 & Hc1 & H1).
  destruct (buffer_get_string_app _ b1 blob _ Hc1 ltac:(lia) H1) as (b2 & E2 & [Hb2 _] & H2).
  exists b, b1, b2. rewrite buffer_len_contents, H2 by done. done.
Qed.

Lemma rsa_size_ok k r : key_ok k -> rsa_of k = Some r -> RSA_size r <= 8191.
Proof.
  unfold rsa_of. rewrite rsa_size. intros [(Et & _ & r' & E & [_ Hn] & _)|(Et & _)] Er; rewrite Et in Er; [|done].
  cbn in Er. rewrite E in Er. injection Er as ->. lia.
Qed.

(** Signing with RSA, up to the encoding. *)
Lemma rsa_sign_eq df k data : key_ok k ->
  ssh_rsa_sign df k data = Ok
    (r ← rsa_of k; md ← EVP_get_digestbynid (rsa_nid df);
     s ← RSA_sign (rsa_nid df) (EVP_Digest md data) r;
     if zlen s >? RSA_size r then None
     else Some (signature_bytes (str "ssh-rsa") (replicate (Z.to_nat (RSA_size r - zlen s)) 0 ++ s))).
Proof.
  intros Hk. unfold ssh_rsa_sign. destruct (rsa_of k) as [r|] eqn:Er; [|done]. cbn [mbind option_bind].
  destruct (EVP_get_digestbynid _) as [md|]; [|done]. cbn [mbind option_bind].
  destruct (RSA_sign _ _ r) as [s|]; [|done]. cbn [mbind option_bind].
  destruct (zlen s >? RSA_size r) eqn:El; [done|]. zbool.
  replace (if zlen s <? RSA_size r then _ else _) with (replicate (Z.to_nat (RSA_size r - zlen s)) 0 ++ s).
  2:{ destruct (zlen s <? RSA_size r) eqn:Ez; zbool; [done|]. by replace (RSA_size r - zlen s) with 0 by lia. }
  apply put_signature; [done|done|]. rewrite zlen_app. unfold zlen at 1. rewrite length_replicate.
  pose proof (rsa_size_ok k r Hk Er). pose proof (zlen_nonneg s). lia.
Qed.

Lemma rsa_sign_inv df k data sig : key_ok k -> ssh_rsa_sign df k data = Ok (Some sig) ->
  exists r md s, rsa_of k = Some r /\ EVP_get_digestbynid (rsa_nid df) = Some md /\
    RSA_sign (rsa_nid df) (EVP_Digest md data) r = Some s /\ zlen s <= RSA_size r /\
    sig = signature_bytes (str "ssh-rsa") (replicate (Z.to_nat (RSA_size r - zlen s)) 0 ++ s).
Proof.
  intros Hk. rewrite rsa_sign_eq by done. destruct (rsa_of k) as [r|]; [|done]. cbn [mbind option_bind].
  destruct (EVP_get_digestbynid _) as [md|]; [|done]. cbn [mbind option_bind].
  destruct (RSA_sign _ _ r) as [s|] eqn:Es; [|done]. cbn [mbind option_bind].
  destruct (zlen s >? RSA_size r) eqn:El; [done|]. zbool. intros E. exists r, md, s. split_and!; try done. congruence.
Qed.

(** An RSA signature is accepted exactly if the bytes it decrypts to are the identifier
    of the digest followed by the digest. *)
Lemma openssh_RSA_verify_spec type hash sigbuf r : zlen hash = hlen_of type ->
  0 < zlen sigbuf <= RSA_size r ->
  openssh_RSA_verify type hash sigbuf r =
  if bool_decide (RSA_public_decrypt sigbuf r = Some (oid_of type ++ hash)) then 1 else 0.
Proof.
  intros Hh Hs. unfold openssh_RSA_verify. rewrite Hh, Z.eqb_refl. cbn [negb].
  replace ((zlen sigbuf =? 0) || (zlen sigbuf >? RSA_size r)) with false by (symmetry; apply orb_false_iff; lia).
  destruct (RSA_public_decrypt sigbuf r) as [d|]; [|by rewrite bool_decide_false].
  destruct (decide (d = oid_of type ++ hash)) as [->|Hd].
  - rewrite zlen_app, Hh. replace (_ =? _) with true by lia.
    by rewrite take_app_length, drop_app_length, !bool_decide_true.
  - rewrite (bool_decide_false (Some d = _)) by congruence. destruct (negb (zlen d =? _)); [done|].
    destruct (decide (take (length (oid_of type)) d = oid_of type)) as [E1|];
      [rewrite (bool_decide_true _ E1)|by rewrite bool_decide_false].
    destruct (decide (drop (length (oid_of type)) d = hash)) as [E2|];
      [|by rewrite (bool_decide_false (drop _ _ = _))].
    destruct Hd. rewrite <- E2, <- E1 at 1. by rewrite take_drop.
Qed.

Lemma rsa_of_public k r : rsa_of k = Some r -> rsa_of (key_public k) = Some (rsa_public r).
Proof. unfold rsa_of. cbn. by destruct (_ =? _); [intros ->|]. Qed.

Lemma dsa_of_public k d : dsa_of k = Some d -> dsa_of (key_public k) = Some (dsa_public d).
Proof. unfold dsa_of. cbn. by destruct (_ =? _); [intros ->|]. Qed.

Lemma rsa_sign_verify df k data sig r : key_ok k -> rsa_of k = Some r ->
  SSH_RSA_MINIMUM_MODULUS_SIZE <= BN_num_bits (rsa_n r) ->
  ssh_rsa_sign df k data = Ok (Some sig) ->
  sig <> [] /\ ssh_rsa_verify df (key_public k) sig data = Ok 1.
Proof.
  intros Hk Er Hbits Hs. destruct (rsa_sign_inv df k data sig Hk Hs) as (r' & md & s & Er' & Em & Es & Hl & ->).
  rewrite Er in Er'. injection Er' as <-. split; [done|]. unfold ssh_rsa_verify. rewrite (rsa_of_public k r Er).
  change (rsa_n (rsa_public r)) with (rsa_n r). replace (_ <? _) with false by lia.
  set (blob := replicate _ 0 ++ s).
  assert (Hsize : RSA_size (rsa_public r) = RSA_size r) by (by rewrite !rsa_size).
  assert (Hblob : zlen blob = RSA_size r).
  { unfold blob. rewrite zlen_app. unfold zlen at 1. rewrite length_replicate. lia. }
  pose proof (rsa_size_ok k r Hk Er). assert (Hpos : 0 < RSA_size r).
  { rewrite rsa_size. unfold SSH_RSA_MINIMUM_MODULUS_SIZE in Hbits. unfold BN_num_bytes. apply Z.div_str_pos. lia. }
  destruct (get_signature (str "ssh-rsa") blob ltac:(done) ltac:(lia)) as (b & b1 & b2 & -> & E1 & E2 & E3). rsimp.
  rewrite E1. rsimp. rewrite bool_decide_true by done. cbn [negb]. rewrite E2. rsimp. rewrite E3. cbn [Z.eqb negb].
  rewrite Hsize, Hblob. replace (RSA_size r >? RSA_size r) with false by lia.
  replace (RSA_size r <? RSA_size r) with false by lia. rewrite Em.
  rewrite openssh_RSA_verify_spec, bool_decide_true; [done|..].
  - by apply rsa_sign.
  - rewrite digest_length. by apply nid_size.
  - rewrite Hsize. lia.
Qed.

(** *** DSA *)

Lemma bin2bn_zeros n l : BN_bin2bn (replicate n 0 ++ l) = BN_bin2bn l.
Proof. induction n as [|n IH]; [done|]. cbn [replicate app]. by rewrite bin2bn_pad. Qed.

Definition int20 (v : Z) : list Z := replicate (Z.to_nat (20 - BN_num_bytes v)) 0 ++ BN_bn2bin v.

Lemma int20_len v : 0 < v -> BN_num_bytes v <= 20 -> length (int20 v) = 20%nat.
Proof.
  intros Hv Hl. destruct (bn2bin_pos v Hv) as [Hp Hb]. unfold int20, zlen in *.
  rewrite length_app, length_replicate. lia.
Qed.

Lemma dss_blob r s : 0 < r -> 0 < s -> BN_num_bytes r <= 20 -> BN_num_bytes s <= 20 ->
  splice (40 - BN_num_bytes s) (BN_bn2bin s)
    (splice (40 - 20 - BN_num_bytes r) (BN_bn2bin r) (replicate 40 0)) = int20 r ++ int20 s.
Proof.
  intros Hr Hs Hlr Hls. destruct (bn2bin_pos r Hr) as [Hpr Hbr]. destruct (bn2bin_pos s Hs) as [Hps Hbs].
  unfold zlen in *.
  assert (E : splice (40 - 20 - BN_num_bytes r) (BN_bn2bin r) (replicate 40 0) = int20 r ++ replicate 20 0).
  { unfold splice, int20. rewrite take_replicate, drop_replicate, <- app_assoc.
    f_equal; [f_equal; lia|]. f_equal. f_equal. lia. }
  rewrite E. unfold splice. rewrite take_app, (take_ge (int20 r)), drop_app, (drop_ge (int20 r)),
    take_replicate, drop_replicate by (rewrite int20_len by done; lia).
  rewrite int20_len by done. unfold int20 at 3. rewrite <- app_assoc. f_equal. f_equal; [f_equal; lia|].
  replace (20 - _)%nat with 0%nat by lia. by rewrite app_nil_r.
Qed.

Lemma dss_sign_eq df k data :
  ssh_dss_sign df k data = Ok
    (d ← dsa_of k; '(r, s) ← DSA_do_sign (EVP_Digest EVP_sha1 data) d;
     if (BN_num_bytes r >? 20) || (BN_num_bytes s >? 20) then None
     else if negb (Z.land df Compat.SSH_BUG_SIGBLOB =? 0) then Some (int20 r ++ int20 s)
     else Some (signature_bytes (str "ssh-dss") (int20 r ++ int20 s))).
Proof.
  unfold ssh_dss_sign. destruct (dsa_of k) as [d|]; [|done]. cbn [mbind option_bind].
  destruct (DSA_do_sign _ d) as [[r s]|] eqn:Es; [|done]. cbn [mbind option_bind].
  destruct (dsa_sign _ _ _ _ Es) as (Hr & Hs & _). unfold INTBLOB_LEN, SIGBLOB_LEN.
  destruct (_ || _) eqn:El; [done|]. apply orb_false_iff in El as [Hlr Hls]. zbool.
  cbn [Z.to_nat Pos.to_nat Pos.iter_op Nat.add]. rewrite dss_blob by lia.
  destruct (negb _); [done|]. apply put_signature; [done|done|].
  unfold zlen. rewrite length_app, !int20_len by lia. done.
Qed.

Lemma dss_sign_verify df k data sig d : dsa_of k = Some d ->
  ssh_dss_sign df k data = Ok (Some sig) ->
  sig <> [] /\ ssh_dss_verify df (key_public k) sig data = Ok 1.
Proof.
  intros Ed. rewrite dss_sign_eq. unfold ssh_dss_verify. rewrite Ed, (dsa_of_public k d Ed). cbn [mbind option_bind].
  destruct (DSA_do_sign _ d) as [[r s]|] eqn:Es; [|done]. destruct (dsa_sign _ _ _ _ Es) as (Hr & Hs & Hv).
  cbn [mbind option_bind]. destruct (_ || _) eqn:El; [done|].
  apply orb_false_iff in El as [Hlr Hls]. zbool. set (blob := int20 r ++ int20 s).
  assert (Hl : zlen blob = 40) by (unfold blob, zlen; rewrite length_app, !int20_len by lia; done).
  intros E. cut (sig <> [] /\ dss_sigblob df sig = Ok (Some blob)).
  { intros [? ->]. split; [done|]. rsimp. rewrite Hl. cbn [Z.eqb Pos.eqb negb SIGBLOB_LEN]. unfold blob.
    change (Z.to_nat INTBLOB_LEN) with 20%nat.
    rewrite take_app_length', drop_app_length' by (by rewrite int20_len by lia).
    rewrite (take_ge (int20 s)) by (rewrite int20_len by lia; done).
    unfold int20. rewrite !bin2bn_zeros, !bin2bn_bn2bin by done. by rewrite Hv. }
  unfold dss_sigblob. destruct (negb (Z.land df _ =? 0)).
  - assert (sig = blob) as -> by congruence. split; [by intros ->|done].
  - assert (sig = signature_bytes (str "ssh-dss") blob) as -> by congruence. split; [done|].
    destruct (get_signature (str "ssh-dss") blob ltac:(done) ltac:(lia)) as (b & b1 & b2 & -> & E1 & E2 & E3).
    rsimp. rewrite E1. rsimp. rewrite bool_decide_true by done. cbn [negb]. rewrite E2. rsimp. by rewrite E3.
Qed.

(** A DSA key signs if its signatures are of the size of the format. *)
Lemma dss_signs df k d data : ktype k = KEY_DSA -> kdsa k = Some d ->
  (exists r s, DSA_do_sign (EVP_Digest EVP_sha1 data) d = Some (r, s) /\ BN_num_bytes r <= 20 /\ BN_num_bytes s <= 20) ->
  exists sig, key_sign df k data = Ok (Some sig).
Proof.
  intros Ht Hd (r & s & E & Hr & Hs). unfold key_sign. rewrite Ht, Z.eqb_refl, dss_sign_eq. unfold dsa_of.
  rewrite Ht, Z.eqb_refl, Hd. cbn [mbind option_bind]. rewrite E. cbn [mbind option_bind].
  replace (_ || _) with false by lia. destruct (negb _); by eexists.
Qed.

(** Signing never fails by [fatal]. *)
Lemma key_sign_ok df k data : key_ok k -> exists o, key_sign df k data = Ok o.
Proof.
  intros Hk. unfold key_sign. rewrite rsa_sign_eq, dss_sign_eq by done.
  destruct (_ =? _); [by eexists|]. destruct (_ =? _); by eexists.
Qed.

(** C12: A signature made with a host key is accepted with its public half, read from the
    blob of the key: for an RSA key of at least the minimal size and for a DSA key,
    for any peer (with its deviations from the protocol) and any data. *)
Theorem sign_verify df k data sig :
  key_ok k ->
  match rsa_of k with Some r => SSH_RSA_MINIMUM_MODULUS_SIZE <= BN_num_bits (rsa_n r) | None => True end ->
  key_sign df k data = Ok (Some sig) ->
  exists blob pk, key_to_blob k = Ok (Some blob) /\ key_from_blob blob = Ok (Some pk) /\
    key_verify df pk sig data = Ok 1.
Proof.
  intros Hk Hm Hs. exists (fields_bytes (blob_fields k)), (key_public k).
  split; [by apply key_to_blob_fields|]. split; [by apply key_from_blob_fields|].
  unfold key_sign in Hs. unfold key_verify. change (ktype (key_public k)) with (ktype k).
  cut (sig <> [] /\ (if ktype k =? KEY_DSA then ssh_dss_verify df (key_public k) sig data
    else if ktype k =? KEY_RSA then ssh_rsa_verify df (key_public k) sig data else Ok (-1)) = Ok 1).
  { intros [Hne E]. by destruct sig. }
  assert (Hk' := Hk). destruct Hk as [(Et & _ & r & Er & _)|(Et & _ & d & Ed & _)];
    rewrite Et in Hs |- *; cbn [Z.eqb KEY_RSA KEY_DSA Pos.eqb] in Hs |- *.
  - assert (Hr : rsa_of k = Some r) by (unfold rsa_of; by rewrite Et, Er).
    rewrite Hr in Hm. by apply (rsa_sign_verify df k data sig r).
  - apply (dss_sign_verify df k data sig d); [|done]. unfold dsa_of. by rewrite Et, Ed.
Qed.

(** An accepted RSA signature decrypts to exactly the identifier of the digest and the
    digest of the data: nothing may follow it, and no other digest is accepted. *)
Theorem rsa_accept_exact df k sig data : ssh_rsa_verify df k sig data = Ok 1 ->
  exists r md blob, rsa_of k = Some r /\ EVP_get_digestbynid (rsa_nid df) = Some md /\
    SSH_RSA_MINIMUM_MODULUS_SIZE <= BN_num_bits (rsa_n r) /\ zlen blob <= RSA_size r /\
    RSA_public_decrypt (replicate (Z.to_nat (RSA_size r - zlen blob)) 0 ++ blob) r =
    Some (oid_of (rsa_nid df) ++ EVP_Digest md data).
Proof.
  unfold ssh_rsa_verify. destruct (rsa_of k) as [r|]; [|done]. destruct (_ <? _) eqn:Eb; [done|].
  destruct (buffer_append _ sig) as [b| |]; [|done|done]. rsimp.
  destruct (buffer_get_string b) as [[kt b1]| |]; [|done|done]. rsimp. destruct (negb _); [done|].
  destruct (buffer_get_string b1) as [[blob b2]| |]; [|done|done]. rsimp. destruct (negb _); [done|].
  destruct (zlen blob >? RSA_size r) eqn:El; [done|].
  destruct (EVP_get_digestbynid (rsa_nid df)) as [md|] eqn:Em; [|done]. zbool.
  replace (if zlen blob <? RSA_size r then _ else _) with (replicate (Z.to_nat (RSA_size r - zlen blob)) 0 ++ blob).
  2:{ destruct (zlen blob <? RSA_size r) eqn:Ez; zbool; [done|]. by replace (RSA_size r - zlen blob) with 0 by lia. }
  set (padded := replicate _ 0 ++ blob). intros [= Ev].
  assert (Hp : zlen padded = RSA_size r).
  { unfold padded. rewrite zlen_app. unfold zlen at 1. rewrite length_replicate. lia. }
  assert (Hpos : 0 < RSA_size r).
  { rewrite rsa_size. unfold SSH_RSA_MINIMUM_MODULUS_SIZE in Eb. unfold BN_num_bytes. apply Z.div_str_pos. lia. }
  rewrite openssh_RSA_verify_spec in Ev.
  - case_bool_decide as Hd; [|done]. by exists r, md, blob.
  - rewrite digest_length. by apply nid_size.
  - lia.
Qed.

(** *** Host keys *)

(** The names of the keys that count. *)
Definition key_names (keys : list (option Key)) : list (list Z) :=
  key_ssh_name <$> filter (fun k => ktype k = KEY_RSA \/ ktype k = KEY_DSA) (omap id keys).

Lemma key_names_cons o keys : key_names (o :: keys) =
  match o with
  | Some k => if (ktype k =? KEY_RSA) || (ktype k =? KEY_DSA) then key_ssh_name k :: key_names keys
              else key_names keys
  | None => key_names keys
  end.
Proof.
  unfold key_names. destruct o as [k|]; [|done]. cbn [omap list_omap id]. rewrite filter_cons.
  destruct (_ || _) eqn:E; case_decide as Hd; try done.
  - destruct Hd. apply orb_true_iff in E as [E|E]; zbool; auto.
  - apply orb_false_iff in E as [? ?]. zbool. by destruct Hd.
Qed.

Lemma ssh_name_ok k : Match.name_ok (key_ssh_name k) /\ Compat.no_nul (key_ssh_name k) /\ zlen (key_ssh_name k) <= 11.
Proof.
  unfold key_ssh_name. destruct (_ =? _); [|destruct (_ =? _)];
    (split; [split; [done|repeat (constructor; [done|]); constructor]|]);
    (split; [repeat (constructor; [done|]); constructor|done]).
Qed.

Lemma key_names_ok keys : Forall Match.name_ok (key_names keys) /\ Forall Compat.no_nul (key_names keys).
Proof. unfold key_names. split; apply Forall_fmap, Forall_true; intros k; apply ssh_name_ok. Qed.

Lemma hostkey_types_join keys : forall ds n b,
  Forall Match.name_ok ds -> capped n b -> contents b = Match.join ds -> 0 <= n ->
  n + 12 * zlen keys <= 900000 ->
  exists b' n', hostkey_types keys b = Ok b' /\ capped n' b' /\ 0 <= n' <= n + 12 * zlen keys /\
    contents b' = Match.join (ds ++ key_names keys).
Proof.
  induction keys as [|o keys IH]; intros ds n b Hds Hc Hcon Hn Hsz.
  { exists b, n. split; [done|]. split; [done|]. split; [unfold zlen; cbn; lia|]. by rewrite app_nil_r. }
  assert (Hz : zlen (o :: keys) = 1 + zlen keys) by (unfold zlen; cbn [length]; lia).
  pose proof (zlen_nonneg keys). rewrite key_names_cons. cbn [hostkey_types]. destruct o as [k|].
  2:{ destruct (IH ds n b Hds Hc Hcon Hn ltac:(lia)) as (b' & n' & E & Hc' & Hn' & Hb'). exists b', n'.
      split; [done|]. split; [done|]. split; [lia|done]. }
  destruct (_ || _).
  2:{ rsimp. destruct (IH ds n b Hds Hc Hcon Hn ltac:(lia)) as (b' & n' & E & Hc' & Hn' & Hb'). exists b', n'.
      split; [done|]. split; [done|]. split; [lia|done]. }
  destruct (ssh_name_ok k) as (Hk & _ & Hl). pose proof (zlen_nonneg (key_ssh_name k)).
  destruct (Compat.copy_comma n b ds Hds Hc Hcon ltac:(lia)) as (b0 & n0 & E0 & Hc0 & Hn0 & Hb0).
  change (str ",") with [COMMA]. rewrite E0. rsimp.
  destruct (buffer_append_capped n0 b0 (key_ssh_name k) Hc0) as (b1 & E1 & Hc1 & Hb1);
    [unfold BUFFER_MAX_CHUNK; lia|unfold BUFFER_ALLOCSZ, BUFFER_MAX_LEN; lia|]. rewrite E1. rsimp.
  destruct (IH (ds ++ [key_ssh_name k]) (n0 + zlen (key_ssh_name k)) b1) as (b' & n' & E & Hc' & Hn' & Hb').
  - apply Forall_app. split; [done|]. by constructor.
  - done.
  - by rewrite Hb1, Hb0, Compat.join_snoc, <- app_assoc.
  - lia.
  - lia.
  - exists b', n'. split; [done|]. split; [done|]. split; [lia|]. by rewrite Hb', <- app_assoc.
Qed.

Lemma list_hostkey_types_join keys : zlen keys <= 1000 ->
  list_hostkey_types keys = Ok (Match.join (key_names keys)).
Proof.
  intros Hl. unfold list_hostkey_types.
  destruct (hostkey_types_join keys [] 0 buffer_init) as (b & n & -> & Hc & Hn & Hb);
    [done|apply buffer_init_capped|done|lia|lia|]. rsimp.
  destruct (buffer_append_capped n b [0] Hc) as (b1 & -> & [Hc1 _] & Hb1);
    [done|change (zlen [0]) with 1; unfold BUFFER_ALLOCSZ, BUFFER_MAX_LEN; lia|]. rsimp.
  rewrite buffer_ptr_contents, Hb1, Hb by done.
  by rewrite Compat.c_str_end by (apply Compat.join_no_nul, key_names_ok).
Qed.

Lemma get_hostkey_found keys k : In (Some k) keys -> exists k', get_hostkey_by_type keys (ktype k) = Some k'.
Proof.
  induction keys as [|o keys IH]; [done|]. intros [->|Hin]; cbn [get_hostkey_by_type].
  - rewrite Z.eqb_refl. by exists k.
  - destruct o as [k'|]; [|by apply IH]. destruct (_ =? _); [by exists k'|by apply IH].
Qed.

Lemma get_hostkey_type keys t k : get_hostkey_by_type keys t = Some k -> ktype k = t /\ In (Some k) keys.
Proof.
  induction keys as [|[k'|] keys IH]; [done| |]; cbn [get_hostkey_by_type].
  - destruct (_ =? _) eqn:E; zbool; [intros [= <-]; by split; [|left]|].
    intros Hk. destruct (IH Hk). by split; [|right].
  - intros Hk. destruct (IH Hk). by split; [|right].
Qed.

(** The server has a key of every type it negotiates: whatever the client proposes,
    the type of host key that is chosen against the list of the server's own types
    belongs to a key that is loaded, so that the exchange never fails for the lack of
    a key. *)
Theorem hostkey_negotiable keys names client t : zlen keys <= 1000 ->
  list_hostkey_types keys = Ok names -> choose_hostkeyalg client names = Ok t ->
  exists k, get_hostkey_by_type keys t = Some k /\ ktype k = t /\ (t = KEY_RSA \/ t = KEY_DSA).
Proof.
  intros Hl Hn. rewrite list_hostkey_types_join in Hn by done. injection Hn as <-.
  unfold choose_hostkeyalg. destruct (fst (Match.match_list client _)) as [name|] eqn:E; [|done].
  cbn [or_fatal]. rsimp. unfold Match.match_list in E. apply client_scan_in in E.
  destruct (key_names_ok keys) as [Hok _].
  destruct (decide (key_names keys = [])) as [E0|Hne]; [rewrite E0 in E; by cbn in E|].
  rewrite Match.server_proposals_join in E by (done || apply Match.join_length).
  apply list_elem_of_In, elem_of_take in E as (i & E & _). apply list_elem_of_lookup_2 in E.
  unfold key_names in E. apply list_elem_of_fmap in E as (k & -> & Hk).
  apply list_elem_of_filter in Hk as [Ht Hk]. apply list_elem_of_omap in Hk as (o & Ho & Eo). cbn in Eo. subst o.
  assert (Hty : key_type_from_name (key_ssh_name k) = ktype k).
  { unfold key_ssh_name. destruct Ht as [-> | ->]; done. }
  rewrite Hty. destruct (_ =? _) eqn:Eu; [done|]. intros [= <-].
  destruct (get_hostkey_found keys k) as [k' Hk']; [by apply list_elem_of_In|].
  exists k'. destruct (get_hostkey_type _ _ _ Hk'). done.
Qed.

End KeyTheorems.

(** ** A toy library and witnesses *)

Module ToyKey.
Export ToyDh.
Import Toy.

Fixpoint strip (l : list Z) : list Z :=
  match l with 0 :: l => strip l | _ => l end.

(** A signature is the encoded digest behind a one; DSA signs the low bits of it. *)
#[export] Instance toy_key : KeyLib := {
  EVP_get_digestbynid n := match n with NID_sha1 => Some EVP_sha1 | NID_md5 => None end;
  RSA_sign n dg _ := Some (1 :: oid_of n ++ dg);
  RSA_size r := BN_num_bytes (rsa_n r);
  RSA_public_decrypt s _ := Some (drop 1 (strip s));
  DSA_do_sign dg _ := Some (1 + of_bytes dg mod 2 ^ 100, 7);
  DSA_do_verify dg rs _ := if rs.1 =? 1 + of_bytes dg mod 2 ^ 100 then 1 else 0
}.

#[export] Instance toy_key_laws : KeyLaws.
Proof.
  constructor; cbn -[Z.pow of_bytes].
  - by intros [|] md [= <-].
  - done.
  - intros n dg r sig [= <-] _. set (k := Z.to_nat _). clearbody k. by induction k.
  - intros dg d r s [= <- <-]. pose proof (Z.mod_pos_bound (of_bytes dg) (2 ^ 100) ltac:(lia)).
    split; [lia|]. split; [done|]. by rewrite Z.eqb_refl.
Qed.

Definition rsa_key : Key := mkKey KEY_RSA 0 (Some (mkRSA (2 ^ 800 + 1) 65537 (Some (mkRSAPrivate 1 1 1 1 1 1)))) None.
Definition dsa_key : Key := mkKey KEY_DSA 0 None (Some (mkDSA 23 11 4 9 (Some 5))).

Lemma rsa_key_ok : key_ok rsa_key.
Proof. left. split; [done|]. split; [done|]. eexists. split; [done|]. split; split; by vm_compute. Qed.

Lemma dsa_key_ok : key_ok dsa_key.
Proof. right. split; [done|]. split; [done|]. eexists. split; [done|]. split_and!; split; by vm_compute. Qed.

Lemma sign_verify_witness :
  match key_sign 0 rsa_key [1; 2; 3], key_sign 0 dsa_key [1; 2; 3] with
  | Ok (Some sig), Ok (Some sig') =>
      (exists blob pk, key_to_blob rsa_key = Ok (Some blob) /\ key_from_blob blob = Ok (Some pk) /\
        key_verify 0 pk sig [1; 2; 3] = Ok 1) /\
      (exists blob pk, key_to_blob dsa_key = Ok (Some blob) /\ key_from_blob blob = Ok (Some pk) /\
        key_verify 0 pk sig' [1; 2; 3] = Ok 1)
  | _, _ => False
  end.
Proof.
  destruct (key_sign 0 rsa_key [1; 2; 3]) as [[sig|]| |] eqn:E1; try (vm_compute in E1; discriminate E1).
  destruct (key_sign 0 dsa_key [1; 2; 3]) as [[sig'|]| |] eqn:E2; try (vm_compute in E2; discriminate E2).
  split.
  - apply (sign_verify 0 rsa_key [1; 2; 3] sig rsa_key_ok); [vm_compute; discriminate|exact E1].
  - apply (sign_verify 0 dsa_key [1; 2; 3] sig' dsa_key_ok); [exact I|exact E2].
Defined.

Lemma rsa_accept_exact_witness :
  exists r md blob, rsa_of rsa_key = Some r /\ EVP_get_digestbynid NID_sha1 = Some md /\
    SSH_RSA_MINIMUM_MODULUS_SIZE <= BN_num_bits (rsa_n r) /\ zlen blob <= RSA_size r /\
    RSA_public_decrypt (replicate (Z.to_nat (RSA_size r - zlen blob)) 0 ++ blob) r =
    Some (id_sha1 ++ EVP_Digest md [1; 2; 3]).
Proof.
  destruct (key_sign 0 rsa_key [1; 2; 3]) as [[sig|]| |] eqn:E1; try (vm_compute in E1; discriminate E1).
  apply (rsa_accept_exact 0 rsa_key sig [1; 2; 3]).
  vm_compute in E1. injection E1 as <-. vm_compute. reflexivity.
Defined.

Lemma hostkey_negotiable_witness :
  exists k, get_hostkey_by_type [Some dsa_key; None; Some rsa_key] KEY_RSA = Some k /\ ktype k = KEY_RSA /\
    (KEY_RSA = KEY_RSA \/ KEY_RSA = KEY_DSA).
Proof.
  apply (hostkey_negotiable [Some dsa_key; None; Some rsa_key] (str "ssh-dss,ssh-rsa") (str "x,ssh-rsa,ssh-dss")).
  - vm_compute. discriminate.
  - vm_compute. reflexivity.
  - vm_compute. reflexivity.
Defined.

End ToyKey.
