(* ===== verification/SshQueue.v ===== *)
(** * SshQueue: the message queues between the connection thread and a
    subsystem thread

    [BusyThreadWriteBuffer] (connection thread to subsystem, with flow-control
    credits) and [BusyThreadReadBuffer] (subsystem to connection thread) of
    Concurrenc++.  Each keeps two buffers of [SshBuffer] that are swapped under a lock;
    messages go in with [buffer_put_string] and come out with [buffer_get_string], with
    the size limits of both.  The [fatal] of a put ends the run that is followed here.
    The [fatal] of [buffer_get_string] ends the thread that called it, behind the count
    of the messages: [take_msg] returns [None] for the message and the state then.

    The two threads are step functions; one step is one access to the shared state, and
    every interleaving is a sequence of steps. *)

From S2P Require Import Prelude SshBuffer.

Abbreviation msg := (list Z).

(** The longest message that [buffer_get_string] returns. *)
Definition MSG_MAX : Z := 256 * 1024.

(** ** Buffers that hold messages *)

(** What [buffer_put_string] stores. *)
Definition encode (ms : list msg) : list Z := foldr (fun m l => put_u32 (zlen m) ++ m ++ l) [] ms.

Lemma encode_app l k : encode (l ++ k) = encode l ++ encode k.
Proof. induction l as [|m l IH]; [done|]. cbn [encode foldr app]. fold (encode l) (encode (l ++ k)). by rewrite IH, <- !(assoc_L (++)). Qed.

Lemma buffer_append_inv b d b' :
  buffer_ok b -> buffer_append b d = Ok b' -> buffer_ok b' /\ contents b' = contents b ++ d.
Proof.
  intros Hok E. destruct (buffer_append_cases b d Hok) as [(b1 & E1 & Hok1 & Hc & _)|(m & E1 & _)];
    rewrite E in E1; [|done]. injection E1 as <-. done.
Qed.

Lemma buffer_append_chunk b d b' : buffer_append b d = Ok b' -> zlen d <= BUFFER_MAX_CHUNK.
Proof. unfold buffer_append, buffer_append_space. destruct (zlen d >? BUFFER_MAX_CHUNK) eqn:E; zbool; done. Qed.

Lemma buffer_put_string_inv b d b' : buffer_ok b -> buffer_put_string b d = Ok b' ->
  buffer_ok b' /\ contents b' = contents b ++ encode [d] /\ zlen d <= BUFFER_MAX_CHUNK.
Proof.
  unfold buffer_put_string, buffer_put_int. intros Hok E. destruct (buffer_append b _) as [b1| |] eqn:E1; [|done|done].
  apply buffer_append_inv in E1 as [Hok1 H1]; [|done]. change (buffer_append b1 d = Ok b') in E.
  split_and!; [by eapply buffer_append_inv| |by eapply buffer_append_chunk].
  apply buffer_append_inv in E as [_ ->]; [|done]. rewrite H1. cbn [encode foldr]. by rewrite app_nil_r, <- (assoc_L (++)).
Qed.

(** A string is refused only when it is large itself, or the buffer is nearly full. *)
Definition string_refused (q : list Z) (d : msg) : Prop :=
  BUFFER_MAX_CHUNK < zlen d \/ BUFFER_MAX_LEN < zlen q + 2 * zlen d + 8 + BUFFER_MAX_CHUNK + BUFFER_ALLOCSZ.

Lemma buffer_put_string_cases b d : buffer_ok b ->
  (exists b', buffer_put_string b d = Ok b') \/ (exists e, buffer_put_string b d = Fatal e /\ string_refused (contents b) d).
Proof.
  intros Hok. unfold buffer_put_string, buffer_put_int, string_refused. pose proof (zlen_nonneg d).
  destruct (buffer_append_cases b (put_u32 (zlen d)) Hok) as [(b1 & E1 & Hok1 & Hc & _)|(m & E1 & _)]; rewrite E1; rsimp.
  - destruct (buffer_append_cases b1 d Hok1) as [(b2 & E2 & _)|(m & E2 & _)]; [left; by exists b2|right]. exists m. split; [done|].
    apply (buffer_append_refused _ _ _ Hok1) in E2. rewrite Hc, zlen_app, zlen_put_u32 in E2. destruct E2; [by left|right; lia].
  - right. exists m. split; [done|]. apply (buffer_append_refused _ _ _ Hok) in E1. rewrite zlen_put_u32 in E1.
    unfold BUFFER_MAX_CHUNK in *. destruct E1; [lia|right; lia].
Qed.

Lemma buffer_append_or_not b d : buffer_ok b ->
  (exists b', buffer_append b d = Ok b') \/ (exists e, buffer_append b d = Fatal e /\ string_refused (contents b) d).
Proof.
  intros Hok. unfold string_refused. destruct (buffer_append_cases b d Hok) as [(b1 & E1 & _)|(m & E1 & _)]; [left; by exists b1|right].
  exists m. split; [done|]. apply (buffer_append_refused _ _ _ Hok) in E1. destruct E1; [by left|right; lia].
Qed.

Lemma buffer_consume_inv b n b' :
  buffer_ok b -> 0 <= n -> buffer_consume b n = Ok b' ->
  n <= zlen (contents b) /\ buffer_ok b' /\ contents b' = drop (Z.to_nat n) (contents b).
Proof.
  intros Hok Hn E. unfold buffer_consume in E. rewrite buffer_consume_ret_get in E.
  pose proof (buffer_get_ret_spec b n Hok Hn) as Hs.
  destruct (buffer_get_ret b n) as [[d b1]|]; [|done]. injection E as <-. by destruct Hs as (?&_&?&?&_).
Qed.

(** [b] holds [n] messages. *)
Record holds (b : Buffer) (n : Z) (ms : list msg) : Prop := {
  holds_ok : buffer_ok b;
  holds_contents : contents b = encode ms;
  holds_count : n = zlen ms;
  holds_sizes : Forall (fun m => zlen m <= BUFFER_MAX_CHUNK) ms
}.

Lemma holds_init : holds buffer_init 0 [].
Proof. by split; [apply buffer_init_ok|..]. Qed.

Lemma zlen_0 {A} (l : list A) : zlen l = 0 <-> l = [].
Proof. unfold zlen. destruct l; cbn; split; intros; [done|done|lia|done]. Qed.

Lemma zlen_snoc {A} (l : list A) x : zlen (l ++ [x]) = zlen l + 1.
Proof. rewrite zlen_app. done. Qed.

Lemma put_string_holds b n ms m b' : holds b n ms -> buffer_put_string b m = Ok b' -> holds b' (n + 1) (ms ++ [m]).
Proof.
  intros [Hok Hc Hn Hs] E. apply buffer_put_string_inv in E as (Hok' & Hc' & Hm); [|done].
  split; [done| | |].
  - by rewrite Hc', Hc, encode_app.
  - by rewrite zlen_snoc, Hn.
  - by apply Forall_app_2; [|constructor].
Qed.

Lemma get_string_holds b n m ms : holds b n (m :: ms) -> exists b',
  (zlen m <= MSG_MAX /\ buffer_get_string_ret b = Ok (Some m, b') /\ holds b' (n - 1) ms) \/
  (MSG_MAX < zlen m /\ buffer_get_string_ret b = Ok (None, b')).
Proof.
  intros [Hok Hc Hn Hs]. apply Forall_cons in Hs as [Hm Hs]. pose proof (zlen_nonneg m). unfold MSG_MAX, BUFFER_MAX_CHUNK in *.
  unfold buffer_get_string_ret, buffer_get_int, buffer_get_int_ret.
  cbn [encode foldr] in Hc. fold (encode ms) in Hc.
  pose proof (buffer_get_ret_spec b 4 Hok ltac:(lia)) as Hg. destruct (buffer_get_ret b 4) as [[p b1]|]; rsimp.
  2: { rewrite Hc, zlen_app, zlen_put_u32 in Hg. pose proof (zlen_nonneg (m ++ encode ms)). lia. }
  destruct Hg as (_ & -> & Hc1 & Hb1 & _). rewrite Hc in *.
  rewrite (take_app_length' _ _ (Z.to_nat 4)) by done. rewrite (drop_app_length' _ _ (Z.to_nat 4)) in Hc1 by done.
  rewrite get_put_u32 by lia. destruct (zlen m >? _) eqn:E; zbool; [exists b1; right; split; [lia|done]|].
  pose proof (buffer_get_ret_spec b1 (zlen m) Hb1 ltac:(lia)) as Hg. destruct (buffer_get_ret b1 (zlen m)) as [[p b2]|]; rsimp.
  2: { rewrite Hc1, zlen_app in Hg. pose proof (zlen_nonneg (encode ms)). lia. }
  destruct Hg as (_ & -> & Hc2 & Hb2 & _). unfold zlen in Hc2 |- *. rewrite Nat2Z.id in *. rewrite Hc1 in *.
  rewrite take_app_length. rewrite drop_app_length in Hc2. exists b2. left. split; [unfold zlen in *; lia|]. split; [done|].
  split; [done|done| |done]. unfold zlen in *. cbn [length] in Hn. lia.
Qed.

Lemma get_string_none b n : holds b n [] -> exists e, buffer_get_string_ret b = Fatal e.
Proof.
  intros [Hok Hc Hn _]. unfold buffer_get_string_ret, buffer_get_int, buffer_get_int_ret.
  pose proof (buffer_get_ret_spec b 4 Hok ltac:(lia)) as Hg. destruct (buffer_get_ret b 4) as [[p b1]|]; rsimp; [|by eexists].
  rewrite Hc in Hg. change (zlen (encode [])) with 0 in Hg. lia.
Qed.

(** ** BusyThreadWriteBuffer *)

Module WriteBuffer.

Record wbuf := mkW {
  readBuf : Buffer;
  writeBuf : Buffer;
  nReadBufMsgs : Z;
  nWriteBufMsgs : Z;
  nReadConsumed : Z;
  nWriteConsumed : Z;
  dataArrived : bool
}.

Definition init : wbuf := mkW buffer_init buffer_init 0 0 0 0 false.

Definition n_msgs_in_the_buffer (w : wbuf) : Z := nWriteBufMsgs w + nReadBufMsgs w.

(** The whole of [put] runs under the lock. *)
Definition put (w : wbuf) (data : msg) (consumed : Z) : res (wbuf * Z) :=
  let consumed := u32 (consumed - nWriteConsumed w) in
  if zlen data =? 0 then
    Ok (mkW (readBuf w) (writeBuf w) (nReadBufMsgs w) (nWriteBufMsgs w) (nReadConsumed w) 0
          (dataArrived w), consumed)
  else
    let wasEmpty := nWriteBufMsgs w =? 0 in
    b ← buffer_put_string (writeBuf w) data;
    Ok (mkW (readBuf w) b (nReadBufMsgs w) (nWriteBufMsgs w + 1)
          (nReadConsumed w) 0 (if wasEmpty then true else dataArrived w), consumed).

Definition put_eof (w : wbuf) : res wbuf :=
  b ← buffer_put_string (writeBuf w) [];
  Ok (mkW (readBuf w) b (nReadBufMsgs w) (nWriteBufMsgs w + 1)
        (nReadConsumed w) (nWriteConsumed w) true).

Definition swap (w : wbuf) : wbuf :=
  mkW (writeBuf w) (readBuf w) (nWriteBufMsgs w) (nReadBufMsgs w) (nWriteConsumed w)
    (nReadConsumed w) (dataArrived w).

(** [nReadBufMsgs--; buffer_get_string (readBuf); nReadConsumed -= *lenp]; no message:
    [buffer_get_string] ended in [fatal], and only the count was taken. *)
Definition take_msg (w : wbuf) : res (option msg * wbuf) :=
  '(ret, b) ← buffer_get_string_ret (readBuf w);
  let consumed := match ret with Some m => s32 (nReadConsumed w - zlen m) | None => nReadConsumed w end in
  Ok (ret, mkW b (writeBuf w) (nReadBufMsgs w - 1) (nWriteBufMsgs w) consumed (nWriteConsumed w) (dataArrived w)).

Definition set_arrived (w : wbuf) (b : bool) : wbuf :=
  mkW (readBuf w) (writeBuf w) (nReadBufMsgs w) (nWriteBufMsgs w) (nReadConsumed w)
    (nWriteConsumed w) b.

(** Where the worker is inside [get]. *)
Inductive wpc :=
| WIdle          (** not in [get] *)
| WCheck         (** about to test [nWriteBufMsgs] *)
| WSwapWait      (** found it 0: about to swap, then wait *)
| WWait          (** waiting for [dataArrived] *)
| WWoken         (** about to test [nWriteBufMsgs] again *)
| WSwapMiss      (** found it 0: an extra swap *)
| WSwap          (** about to swap *)
| WPop           (** about to take a message *)
| WDead.         (** [buffer_get_string] threw: the thread ended *)

#[export] Instance wpc_eq_dec : EqDecision wpc.
Proof. solve_decision. Defined.

Record state := mkS {
  q : wbuf;
  pc : wpc;
  consumed : Z;          (** [*consumed] of the channel *)
  sent : list msg;       (** what [put] and [put_eof] were given, in order *)
  got : list msg         (** what [get] returned, in order *)
}.

Definition start : state := mkS init WIdle 0 [] [].

(** One step of the worker in [get]; [None]: it cannot go on. *)
Definition pop (s : state) : option state :=
  match take_msg (q s) with
  | Ok (Some m, w) => Some (mkS w WIdle (consumed s) (sent s) (got s ++ [m]))
  | Ok (None, w) => Some (mkS w WDead (consumed s) (sent s) (got s))
  | _ => None
  end.

Definition goto (s : state) (w : wbuf) (p : wpc) : option state := Some (mkS w p (consumed s) (sent s) (got s)).

Definition get_step (s : state) : option state :=
  let w := q s in
  match pc s with
  | WIdle => if nReadBufMsgs w =? 0 then goto s (set_arrived w false) WCheck else pop s
  | WCheck => goto s w (if nWriteBufMsgs w =? 0 then WSwapWait else WSwap)
  | WSwapWait => goto s (swap w) WWait
  | WWait => if dataArrived w then goto s (set_arrived w false) WWoken else None
  | WWoken => goto s w (if nWriteBufMsgs w =? 0 then WSwapMiss else WSwap)
  | WSwapMiss => goto s (swap w) WSwap
  | WSwap => goto s (swap w) WPop
  | WPop => pop s
  | WDead => None
  end.

(** What can happen next: the connection thread puts data, or only asks for the credit,
    or puts the end of file; the worker goes on; one of its other events ends its wait, and
    [get] returns NULL. *)
Inductive act := APut (data : msg) | APutEof | AGet | AOther.

Definition do_act (a : act) (s : state) : option state :=
  match a with
  | APut data =>
      match put (q s) data (consumed s) with
      | Ok (w, c) => Some (mkS w (pc s) c (if zlen data =? 0 then sent s else sent s ++ [data]) (got s))
      | _ => None
      end
  | APutEof =>
      match put_eof (q s) with
      | Ok w => Some (mkS w (pc s) (consumed s) (sent s ++ [[]]) (got s))
      | _ => None
      end
  | AGet => get_step s
  | AOther => if bool_decide (pc s = WWait) then goto s (q s) WIdle else None
  end.

Inductive step : state -> state -> Prop :=
| step_do a s s' : do_act a s = Some s' -> step s s'.

(** Any interleaving. *)
Inductive reachable : state -> Prop :=
| reach_start : reachable start
| reach_step s s' : reachable s -> step s s' -> reachable s'.

Fixpoint do_acts (l : list act) (s : state) : option state :=
  match l with
  | [] => Some s
  | a :: l => s ← do_act a s; do_acts l s
  end.

Lemma do_acts_reachable l : forall s s', reachable s -> do_acts l s = Some s' -> reachable s'.
Proof.
  induction l as [|a l IH]; intros s s' Hs; cbn [do_acts]; [by intros [= <-]|].
  destruct (do_act a s) as [s1|] eqn:E; [|done]. apply IH. eapply reach_step; [done|]. by eapply step_do.
Qed.

(** *** What holds in every interleaving *)

Definition total (l : list msg) : Z := foldr (fun m n => zlen m + n) 0 l.

Lemma total_app l k : total (l ++ k) = total l + total k.
Proof. induction l as [|m l IH]; [done|]. cbn [app total foldr] in *. fold (total (l ++ k)) (total l). lia. Qed.

(** What the program counter says about the two buffers, with [r] and [w] in them, and
    the event. *)
Definition pc_ok (s : state) (r w : list msg) : Prop :=
  match pc s with
  | WIdle | WDead => True
  | WCheck => r = [] /\ (w = [] -> dataArrived (q s) = false)
  | WSwapWait => r = [] /\ (dataArrived (q s) = true <-> w <> [])
  | WWait => dataArrived (q s) = true <-> r ++ w <> []
  | WWoken => r ++ w <> []
  | WSwapMiss => r <> []
  | WSwap => w <> []
  | WPop => r <> []
  end.

(** Only a worker that [buffer_get_string] ended has lost a message, one that was too long. *)
Definition loss (dead : bool) (lost : list msg) : Prop :=
  if dead then exists m, lost = [m] /\ MSG_MAX < zlen m else lost = [].

(** First in, first out, when nothing is put between the worker's test and its first swap. *)
Definition order_ok (s : state) (lost r w : list msg) : Prop :=
  sent s = got s ++ lost ++ r ++ w /\
  match pc s with
  | WIdle | WPop | WDead => True
  | WSwapWait => r = [] /\ w = []
  | WSwapMiss => False
  | WWoken => r = [] /\ w <> []
  | _ => r = []
  end.

(** [fifo]: there was no such put. *)
Record inv (fifo : bool) (s : state) (lost r w : list msg) : Prop := {
  inv_nr : nReadBufMsgs (q s) = zlen r;
  inv_r : pc s <> WDead -> holds (readBuf (q s)) (nReadBufMsgs (q s)) r;
  inv_w : holds (writeBuf (q s)) (nWriteBufMsgs (q s)) w;
  inv_msgs : sent s ≡ₚ got s ++ lost ++ r ++ w;
  inv_credit : u32 (consumed s - nWriteConsumed (q s) - nReadConsumed (q s)) = u32 (total (got s));
  inv_pc : pc_ok s r w;
  inv_loss : loss (bool_decide (pc s = WDead)) lost;
  inv_order : fifo = true -> order_ok s lost r w
}.

(** Arithmetic modulo [2^32] does not see the wrap-arounds of the counters. *)
Lemma credit_put c nw nr : u32 (u32 (c - nw) - 0 - nr) = u32 (c - nw - nr).
Proof. unfold u32. rewrite Z.sub_0_r. by rewrite Zminus_mod_idemp_l. Qed.

Lemma credit_take c nw nr n : u32 (c - nw - s32 (nr - n)) = u32 (c - nw - nr + n).
Proof.
  unfold s32, u32.
  replace (c - nw - ((nr - n + 2147483648) mod 4294967296 - 2147483648))
    with (c - nw + 2147483648 - (nr - n + 2147483648) mod 4294967296) by lia.
  rewrite Zminus_mod_idemp_r. f_equal. lia.
Qed.

(** Taking from a buffer that holds a message. *)
Lemma take_msg_holds w m r : holds (readBuf w) (nReadBufMsgs w) (m :: r) ->
  exists w', writeBuf w' = writeBuf w /\ nReadBufMsgs w' = nReadBufMsgs w - 1 /\
    nWriteBufMsgs w' = nWriteBufMsgs w /\ nWriteConsumed w' = nWriteConsumed w /\
    ((zlen m <= MSG_MAX /\ take_msg w = Ok (Some m, w') /\ holds (readBuf w') (nReadBufMsgs w') r /\
        nReadConsumed w' = s32 (nReadConsumed w - zlen m)) \/
     (MSG_MAX < zlen m /\ take_msg w = Ok (None, w') /\ nReadConsumed w' = nReadConsumed w)).
Proof.
  intros H. unfold take_msg. destruct (get_string_holds _ _ _ _ H) as [b' [(Hm & -> & Hb)|(Hm & ->)]]; rsimp;
    eexists (mkW b' _ _ _ _ _ _); (split_and!; [reflexivity..|]); [left|right]; done.
Qed.

Lemma take_msg_some w r x : holds (readBuf w) (nReadBufMsgs w) r -> take_msg w = Ok x -> exists m r', r = m :: r'.
Proof.
  intros H E. destruct r as [|m r]; [|by eexists _, _]. destruct (get_string_none _ _ H) as [e E1].
  unfold take_msg in E. by rewrite E1 in E.
Qed.

Lemma inv_pop fifo s lost r w s' : inv fifo s lost r w -> pc s <> WDead -> pop s = Some s' -> exists lost' r' w', inv fifo s' lost' r' w'.
Proof.
  intros [Hn Hr Hw Hm Hc Hp Hl Ho] Hd. specialize (Hr Hd). rewrite bool_decide_eq_false_2 in Hl by done. cbn in Hl. subst lost.
  unfold pop. destruct (take_msg (q s)) as [x| |] eqn:Et; [|done|done]. destruct (take_msg_some _ _ _ Hr Et) as (m & r' & ->).
  destruct (take_msg_holds _ _ _ Hr) as (w' & E1 & E2 & E3 & E4 & [(Hs & E & Hh & E5)|(Hs & E & E5)]);
    rewrite E in Et; injection Et as <-; intros [= <-].
  - exists [], r', w. split; cbn [q pc consumed sent got]; try done.
    + by apply holds_count in Hh.
    + by rewrite E1, E3.
    + rewrite Hm. cbn [app]. by rewrite <- !(assoc_L (++)).
    + rewrite E4, E5, credit_take, total_app. cbn [total foldr]. rewrite Z.add_0_r.
      unfold u32 in *. rewrite Zplus_mod, Hc, <- Zplus_mod. done.
    + intros Hf. destruct (Ho Hf) as [Ho1 _]. split; [|done]. cbn [sent got]. rewrite Ho1. cbn [app]. by rewrite <- !(assoc_L (++)).
  - exists [m], r', w. split; cbn [q pc consumed sent got]; try done.
    + rewrite E2, Hn. unfold zlen. cbn [length]. lia.
    + by rewrite E1, E3.
    + by rewrite E4, E5.
    + by exists m.
    + intros Hf. destruct (Ho Hf) as [Ho1 _]. by split.
Qed.

(** The two buffers are exchanged. *)
Lemma inv_swap fifo s lost r w p : inv fifo s lost r w -> pc s <> WDead -> p <> WDead ->
  pc_ok (mkS (swap (q s)) p (consumed s) (sent s) (got s)) w r ->
  (fifo = true -> order_ok (mkS (swap (q s)) p (consumed s) (sent s) (got s)) lost w r) ->
  inv fifo (mkS (swap (q s)) p (consumed s) (sent s) (got s)) lost w r.
Proof.
  intros [Hn Hr Hw Hm Hc _ Hl _] Hd Hp Hok Hor. rewrite bool_decide_eq_false_2 in Hl by done. split; cbn [q pc consumed sent got swap readBuf
    writeBuf nReadBufMsgs nWriteBufMsgs nReadConsumed nWriteConsumed]; try done.
  - by apply holds_count in Hw.
  - by apply Hr.
  - rewrite Hm. by rewrite (Permutation_app_comm r).
  - rewrite <- Hc. f_equal. lia.
  - by rewrite bool_decide_eq_false_2.
Qed.

Lemma inv_goto fifo s lost r w v p : inv fifo s lost r w -> pc s <> WDead -> p <> WDead ->
  pc_ok (mkS (set_arrived (q s) v) p (consumed s) (sent s) (got s)) r w ->
  (fifo = true -> order_ok s lost r w -> order_ok (mkS (set_arrived (q s) v) p (consumed s) (sent s) (got s)) lost r w) ->
  inv fifo (mkS (set_arrived (q s) v) p (consumed s) (sent s) (got s)) lost r w.
Proof.
  intros [Hn Hr Hw Hm Hc _ Hl Ho] Hd Hp Hok Hor. rewrite bool_decide_eq_false_2 in Hl by done. split; try done; [| |by auto].
  - intros _. by apply Hr.
  - cbn [pc]. by rewrite bool_decide_eq_false_2.
Qed.

Lemma arrived_same w : set_arrived w (dataArrived w) = w.
Proof. by destruct w. Qed.

(** Appending to the write buffer keeps the facts of every program counter, when
    the event is set for a buffer that was empty. *)
Lemma pc_ok_append s r w m w' c st :
  pc_ok s r w -> (w = [] -> dataArrived w' = true) -> (dataArrived (q s) = true -> dataArrived w' = true) ->
  pc_ok (mkS w' (pc s) c st (got s)) r (w ++ [m]).
Proof.
  unfold pc_ok. intros Hp He Hd. cbn [q pc]. assert (Hne : w ++ [m] <> []) by (by destruct w).
  destruct (pc s); try done.
  - destruct Hp as [H1 H2]. split; [done|]. intros; done.
  - destruct Hp as [H1 H2]. split; [done|]. split; [done|]. intros _.
    destruct w eqn:E; [by apply He|]. apply Hd, H2. done.
  - split; [by destruct r, w|]. intros _. destruct w eqn:E; [by apply He|]. apply Hd, Hp. by destruct r.
  - by destruct r, w.
Qed.

Lemma inv_append fifo s lost r w m b nw c v : inv fifo s lost r w -> holds b (nWriteBufMsgs (q s) + 1) (w ++ [m]) ->
  u32 (c - nw - nReadConsumed (q s)) = u32 (consumed s - nWriteConsumed (q s) - nReadConsumed (q s)) ->
  (w = [] -> v = true) -> (dataArrived (q s) = true -> v = true) -> (fifo = true -> pc s <> WSwapWait) ->
  inv fifo (mkS (mkW (readBuf (q s)) b (nReadBufMsgs (q s)) (nWriteBufMsgs (q s) + 1) (nReadConsumed (q s)) nw v)
         (pc s) c (sent s ++ [m]) (got s)) lost r (w ++ [m]).
Proof.
  intros [Hn Hr Hw Hm Hc Hp Hl Ho] Hb Hu He Hd Hat. split; try done.
  - cbn [sent got]. rewrite Hm. by rewrite <- !(assoc_L (++)).
  - cbn [consumed q nWriteConsumed nReadConsumed got]. by rewrite Hu.
  - by apply pc_ok_append.
  - intros Hf. specialize (Hat Hf). destruct (Ho Hf) as [H1 H2]. split; cbn [sent got pc]; [by rewrite H1, <- !(assoc_L (++))|].
    destruct (pc s); try done. destruct H2. split; [done|]. by destruct w.
Qed.

Lemma snoc_not_same {A} (l : list A) x : l ++ [x] <> l.
Proof. intros H. rewrite <- (app_nil_r l) in H at 2. by apply app_inv_head in H. Qed.

Lemma inv_put fifo s lost r w data s' : inv fifo s lost r w -> (fifo = true -> pc s = WSwapWait -> sent s' = sent s) ->
  do_act (APut data) s = Some s' -> exists w', inv fifo s' lost r w'.
Proof.
  intros Hi Hat. pose proof Hi as [Hn Hr Hw Hm Hc Hp Hl Ho]. cbn [do_act]. unfold put. destruct (zlen data =? 0) eqn:Ez.
  - intros [= <-]. exists w. split; try done. cbn [consumed q nWriteConsumed nReadConsumed got]. by rewrite credit_put.
  - destruct (buffer_put_string _ _) as [b| |] eqn:Eb; [|done|done]. intros [= <-]. exists (w ++ [data]).
    apply inv_append; [done|by eapply put_string_holds|by rewrite credit_put| |intros Ha; rewrite Ha; by destruct (nWriteBufMsgs (q s) =? 0)|].
    2: { intros Hf E. by eapply snoc_not_same, Hat. }
    intros ->. by rewrite (holds_count _ _ _ Hw).
Qed.

Lemma inv_put_eof fifo s lost r w s' : inv fifo s lost r w -> (fifo = true -> pc s = WSwapWait -> sent s' = sent s) ->
  do_act APutEof s = Some s' -> exists w', inv fifo s' lost r w'.
Proof.
  intros Hi Hat. pose proof Hi as [Hn Hr Hw Hm Hc Hp Hl Ho]. cbn [do_act]. unfold put_eof.
  destruct (buffer_put_string _ _) as [b| |] eqn:Eb; [|done|done]. intros [= <-]. exists (w ++ [[]]).
  apply inv_append; [done|by eapply put_string_holds|done|done|done|]. intros Hf E. by eapply snoc_not_same, Hat.
Qed.

Lemma inv_get fifo s lost r w s' : inv fifo s lost r w -> get_step s = Some s' -> exists lost' r' w', inv fifo s' lost' r' w'.
Proof.
  intros Hi. pose proof Hi as [Hn Hr Hw Hm Hc Hp Hl Ho]. pose proof (holds_count _ _ _ Hw) as Hnw.
  unfold get_step, goto. unfold pc_ok in Hp. unfold order_ok in Ho. destruct (pc s) eqn:Hpc; try (intros H; discriminate H).
  - destruct (nReadBufMsgs (q s) =? 0) eqn:E; [|intros E'; eapply inv_pop; [done|by rewrite Hpc|done]]. zbool.
    rewrite Hn in E. apply zlen_0 in E. intros [= <-]. exists lost, r, w.
    apply inv_goto; [done|by rewrite Hpc|done|done|]. intros _ [Ho1 _]. by split.
  - intros [= <-]. exists lost, r, w. rewrite <- (arrived_same (q s)) at 1. rewrite Hnw. destruct Hp as [H1 H2].
    destruct (zlen w =? 0) eqn:E; zbool; (apply inv_goto; [done|by rewrite Hpc|done| |]); unfold pc_ok; cbn.
    + apply zlen_0 in E. split; [done|]. rewrite H2 by done. by rewrite E.
    + apply zlen_0 in E. intros _ [Ho1 _]. by split.
    + by intros ->.
    + intros _ [Ho1 _]. by split.
  - intros [= <-]. exists lost, w, r. apply inv_swap; [done|by rewrite Hpc|done| |]; unfold pc_ok; cbn.
    + destruct Hp as [-> H2]. by rewrite app_nil_r.
    + intros [Ho1 [-> ->]]%Ho. by split.
  - destruct (dataArrived (q s)) eqn:Ea; [|done]. intros [= <-]. exists lost, r, w.
    assert (r ++ w <> []) as Hne by (by apply Hp). apply inv_goto; [done|by rewrite Hpc|done|done|].
    unfold order_ok. rewrite Hpc. intros _ [Ho1 ->]. by split.
  - intros [= <-]. exists lost, r, w. rewrite <- (arrived_same (q s)) at 1. rewrite Hnw.
    destruct (zlen w =? 0) eqn:E; zbool; (apply inv_goto; [done|by rewrite Hpc|done| |]); unfold pc_ok, order_ok; rewrite ?Hpc; cbn.
    + apply zlen_0 in E. by rewrite E, app_nil_r in Hp.
    + apply zlen_0 in E. by intros _ (_ & _ & H).
    + by intros ->.
    + by intros _ (Ho1 & -> & _).
  - intros [= <-]. exists lost, w, r. apply inv_swap; [done|by rewrite Hpc|done|done|]. by intros [_ ?]%Ho.
  - intros [= <-]. exists lost, w, r. apply inv_swap; [done|by rewrite Hpc|done|done|]. intros [Ho1 ->]%Ho. split; [|done].
    cbn [sent got]. by rewrite Ho1, app_nil_r.
  - intros E'. eapply inv_pop; [done|by rewrite Hpc|done].
Qed.

Lemma inv_step fifo s s' lost r w : inv fifo s lost r w -> step s s' ->
  (fifo = true -> pc s = WSwapWait -> sent s' = sent s) -> exists lost' r' w', inv fifo s' lost' r' w'.
Proof.
  intros Hi Hst Hat. destruct Hst as [[data| | |] s s' E].
  - eapply inv_put in E as [w' ?]; [by eexists _, _, _|done|done].
  - eapply inv_put_eof in E as [w' ?]; [by eexists _, _, _|done|done].
  - by eapply inv_get.
  - cbn in E. case_bool_decide as Hpc; [|done]. injection E as <-. exists lost, r, w.
    rewrite <- (arrived_same (q s)) at 1. apply inv_goto; [done|by rewrite Hpc|done|done|]. intros _ [Ho1 _]. by split.
Qed.

Lemma inv_start fifo : inv fifo start [] [] [].
Proof. split; try done; intros; apply holds_init. Qed.

Lemma inv_reachable s : reachable s -> exists lost r w, inv false s lost r w.
Proof. induction 1 as [|s s' _ (lost & r & w & IH) Hst]; [eexists _, _, _; apply inv_start|by eapply inv_step]. Qed.

(** A put fails only at the limits of the buffers. *)
Lemma put_fails w x n data v : holds (writeBuf w) n x ->
  (exists r, put w data v = Ok r) \/ exists e, put w data v = Fatal e /\ string_refused (encode x) data.
Proof.
  intros [Hok Hc _ _]. unfold put. destruct (zlen data =? 0); [left; by eexists|].
  destruct (buffer_put_string_cases (writeBuf w) data Hok) as [[b ->]|(e & -> & H)]; rsimp; [left; by eexists|].
  right. exists e. by rewrite <- Hc.
Qed.


Definition two_puts : state := default start (do_acts [APut [1]; APutEof] start).

Lemma two_puts_reached : reachable two_puts.
Proof.
  assert (match do_acts [APut [1]; APutEof] start with Some _ => true | None => false end = true) as H by (vm_compute; reflexivity).
  unfold two_puts. destruct (do_acts [APut [1]; APutEof] start) as [s|] eqn:E; [|discriminate H].
  eapply do_acts_reachable; [constructor|exact E].
Qed.


(** *** The limit of 256 KB *)

Lemma do_get s s' : reachable s -> get_step s = Some s' -> reachable s'.
Proof. intros Hs E. eapply reach_step; [done|]. by apply (step_do AGet). Qed.

(** A message above 256 KB goes into the queue and does not come out: [buffer_get_string]
    ends the worker, behind the count of the messages. *)
Theorem long_message_lost m : MSG_MAX < zlen m <= BUFFER_MAX_CHUNK ->
  exists s, reachable s /\ sent s = [m] /\ got s = [] /\ pc s = WDead /\ n_msgs_in_the_buffer (q s) = 0.
Proof.
  intros Hm. assert ((zlen m =? 0) = false) as Hz by (unfold MSG_MAX in Hm; apply Z.eqb_neq; lia).
  destruct (put_fails init [] 0 m 0 holds_init) as [[[w c] E]|(e & _ & [Hr|Hr])]; [|lia|].
  2: { unfold BUFFER_MAX_LEN, BUFFER_MAX_CHUNK, BUFFER_ALLOCSZ in *. change (zlen (encode [])) with 0 in Hr. lia. }
  set (s1 := mkS w WIdle c [m] []).
  assert (reachable s1) as H1.
  { eapply reach_step; [constructor|]. apply (step_do (APut m)). cbn [do_act]. change (q start) with init. change (consumed start) with 0. by rewrite E, Hz. }
  unfold put in E. rewrite Hz in E. destruct (buffer_put_string _ _) as [b| |] eqn:Eb; [|done|done]. injection E as <- <-.
  apply (put_string_holds _ 0 []) in Eb; [|apply holds_init].
  eapply do_get in H1; [|reflexivity]. eapply do_get in H1; [|reflexivity]. eapply do_get in H1; [|reflexivity].
  match type of H1 with reachable ?s => destruct (take_msg_holds (q s) m [] Eb) as (w' & _ & E2 & E3 & _ & [[Hs _]|(_ & Et & _)]) end; [lia|].
  eapply do_get in H1; [|cbn [get_step pc]; unfold pop; rewrite Et; reflexivity].
  eexists. split; [exact H1|]. split; [done|]. split; [done|]. split; [done|].
  unfold n_msgs_in_the_buffer. cbn [q] in *. by rewrite E2, E3.
Qed.

(** *** Order *)

(** Messages can overtake each other.  There is an interleaving in which the
    connection thread puts message 1 and then message 2 and the worker receives
    message 2 and then message 1: when [put] runs between the worker's test of
    [nWriteBufMsgs] and its swap, message 1 lands on the reading side and is
    swapped back behind message 2. *)
Theorem write_buffer_can_reorder :
  exists s, reachable s /\ sent s = [[1]; [2]] /\ got s = [[2]; [1]].
Proof.
  assert (match do_acts [AGet; AGet; APut [1]; AGet; APut [2]; AGet; AGet; AGet; AGet; AGet; AGet; AGet; AGet] start with
    | Some s => (sent s, got s) | None => ([], []) end = ([[1]; [2]], [[2]; [1]])) as H by (vm_compute; reflexivity).
  destruct (do_acts _ start) as [s|] eqn:E; [|discriminate H]. exists s. injection H as H1 H2.
  split; [|split; assumption]. eapply do_acts_reachable; [constructor|exact E].
Qed.

(** The interleavings in which nothing is put between that test and that swap. *)
Inductive reachable_atomic : state -> Prop :=
| atomic_start : reachable_atomic start
| atomic_step s s' :
    reachable_atomic s -> step s s' -> (pc s = WSwapWait -> sent s' = sent s) -> reachable_atomic s'.

(** Without that race the queue is first in, first out.  In every
    interleaving in which nothing is put between the worker's test and its first
    swap, what was taken followed by what is queued is what was put, in order, as long as
    no message ended the worker. *)
Theorem write_buffer_fifo_if_atomic s : reachable_atomic s ->
  exists lost r w, sent s = got s ++ lost ++ r ++ w /\ nReadBufMsgs (q s) = zlen r /\
    contents (writeBuf (q s)) = encode w /\ (pc s <> WDead -> lost = [] /\ contents (readBuf (q s)) = encode r).
Proof.
  intros Hs. assert (exists lost r w, inv true s lost r w) as (lost & r & w & [Hn Hr Hw _ _ _ Hl Ho]).
  { induction Hs as [|s s' Hs (lost & r & w & IH) Hst Hat]; [eexists _, _, _; apply inv_start|]. by eapply inv_step. }
  exists lost, r, w. split; [by apply Ho|]. split; [done|]. split; [by apply holds_contents in Hw|]. intros Hd.
  rewrite bool_decide_eq_false_2 in Hl by done. split; [done|]. by apply (holds_contents _ _ _ (Hr Hd)).
Qed.

End WriteBuffer.

(** ** BusyThreadReadBuffer *)

Module ReadBuffer.

Record rbuf := mkR {
  readBuf : Buffer;
  writeBuf : Buffer;
  nReadBufMsgs : Z;
  nWriteBufMsgs : Z;
  dataReady : bool
}.

Definition init : rbuf := mkR buffer_init buffer_init 0 0 false.

Definition n_msgs_in_the_buffer (r : rbuf) : Z := nWriteBufMsgs r + nReadBufMsgs r.

(** The worker; the whole of [put] runs under the lock. *)
Definition put (r : rbuf) (data : msg) : res rbuf :=
  b ← buffer_put_string (writeBuf r) data;
  Ok (mkR (readBuf r) b (nReadBufMsgs r) (nWriteBufMsgs r + 1) true).

Definition swap (r : rbuf) : rbuf :=
  mkR (writeBuf r) (readBuf r) (nWriteBufMsgs r) (nReadBufMsgs r) (dataReady r).

(** [nReadBufMsgs--; buffer_get_string (readBuf)]; no message: it ended in [fatal]. *)
Definition take_msg (r : rbuf) : res (option msg * rbuf) :=
  '(ret, b) ← buffer_get_string_ret (readBuf r);
  Ok (ret, mkR b (writeBuf r) (nReadBufMsgs r - 1) (nWriteBufMsgs r) (dataReady r)).

Definition set_ready (r : rbuf) (b : bool) : rbuf :=
  mkR (readBuf r) (writeBuf r) (nReadBufMsgs r) (nWriteBufMsgs r) b.

(** Into the buffer of the channel, with the length or without it. *)
Definition deliver (asString : bool) (out : Buffer) (m : msg) : res Buffer :=
  if asString then buffer_put_string out m else buffer_append out m.

(** The connection thread alone: [get] when the worker does nothing meanwhile. *)
Definition get_msg (r : rbuf) (out : Buffer) (asString : bool) : res (bool * rbuf * Buffer) :=
  '(m, r) ← take_msg r;
  match m with
  | None => Fatal "buffer_get_string: buffer error"
  | Some m =>
      out ← deliver asString out m;
      Ok (true, if nReadBufMsgs r =? 0 then set_ready r false else r, out)
  end.

Definition get (r : rbuf) (out : Buffer) (asString : bool) : res (bool * rbuf * Buffer) :=
  if negb (nReadBufMsgs r =? 0) then get_msg r out asString
  else if negb (nWriteBufMsgs r =? 0) then get_msg (swap r) out asString
  else Ok (false, set_ready r false, out).

(** Where the connection thread is inside [get]. *)
Inductive rpc :=
| RIdle
| RSwap            (** saw messages on the writing side: about to swap *)
| RPop             (** about to take a message *)
| RDeliver (m : msg)  (** took one: about to append it to [out] *)
| RCheck           (** about to test [nReadBufMsgs] *)
| RReset           (** about to reset [dataReady] *)
| RDead.           (** [fatal] ended the connection *)

Record state := mkS {
  q : rbuf;
  pc : rpc;
  out : Buffer;
  drained : list Z;      (** what the channel consumed of [out], in order *)
  sent : list msg;       (** what [put] was given, in order *)
  got : list msg         (** what [get] appended to [out], in order *)
}.

Definition start : state := mkS init RIdle buffer_init [] [] [].

Section Threads.
Context (asString : bool).

Definition goto (s : state) (r : rbuf) (p : rpc) : option state := Some (mkS r p (out s) (drained s) (sent s) (got s)).

Definition get_step (s : state) : option state :=
  let r := q s in
  match pc s with
  | RIdle => goto s r (if negb (nReadBufMsgs r =? 0) then RPop else if negb (nWriteBufMsgs r =? 0) then RSwap else RReset)
  | RSwap => goto s (swap r) RPop
  | RPop =>
      match take_msg r with
      | Ok (Some m, r) => goto s r (RDeliver m)
      | Ok (None, r) => goto s r RDead
      | _ => None
      end
  | RDeliver m =>
      match deliver asString (out s) m with
      | Ok o => Some (mkS r RCheck o (drained s) (sent s) (got s ++ [m]))
      | _ => goto s r RDead
      end
  | RCheck => goto s r (if nReadBufMsgs r =? 0 then RReset else RIdle)
  | RReset => goto s (set_ready r false) RIdle
  | RDead => None
  end.

(** The worker puts a message; the connection thread goes on in [get], or consumes bytes
    of [out] between two calls. *)
Inductive act := APut (data : msg) | AGet | ADrain (n : Z).

Definition do_act (a : act) (s : state) : option state :=
  match a with
  | APut data =>
      match put (q s) data with
      | Ok r => Some (mkS r (pc s) (out s) (drained s) (sent s ++ [data]) (got s))
      | _ => None
      end
  | AGet => get_step s
  | ADrain n =>
      match pc s, buffer_consume (out s) n with
      | RIdle, Ok o => if 0 <=? n then
          Some (mkS (q s) RIdle o (drained s ++ take (Z.to_nat n) (contents (out s))) (sent s) (got s)) else None
      | _, _ => None
      end
  end.

Inductive step : state -> state -> Prop :=
| step_do a s s' : do_act a s = Some s' -> step s s'.

Inductive reachable : state -> Prop :=
| reach_start : reachable start
| reach_step s s' : reachable s -> step s s' -> reachable s'.

Fixpoint do_acts (l : list act) (s : state) : option state :=
  match l with
  | [] => Some s
  | a :: l => s ← do_act a s; do_acts l s
  end.

Lemma rdo_acts_reachable l : forall s s', reachable s -> do_acts l s = Some s' -> reachable s'.
Proof.
  induction l as [|a l IH]; intros s s' Hs; cbn [do_acts]; [by intros [= <-]|].
  destruct (do_act a s) as [s1|] eqn:E; [|done]. apply IH. eapply reach_step; [done|]. by eapply step_do.
Qed.

(** What the messages are on the way to the peer. *)
Definition render (ms : list msg) : list Z := if asString then encode ms else concat ms.

(** The message that the connection thread has in its hand. *)
Definition taken (s : state) : list msg := match pc s with RDeliver m => [m] | _ => [] end.

(** Only a [fatal] of the connection thread loses a message: it is too long, or the buffer
    of the channel is full. *)
Definition loss (s : state) (lost : list msg) : Prop :=
  match pc s with
  | RDead => exists m, lost = [m] /\ (MSG_MAX < zlen m \/ string_refused (contents (out s)) m)
  | _ => lost = []
  end.

Record inv (s : state) (lost r w : list msg) : Prop := {
  inv_nr : nReadBufMsgs (q s) = zlen r;
  inv_r : pc s <> RDead -> holds (readBuf (q s)) (nReadBufMsgs (q s)) r;
  inv_w : holds (writeBuf (q s)) (nWriteBufMsgs (q s)) w;
  inv_order : sent s = got s ++ taken s ++ lost ++ r ++ w;
  inv_out : buffer_ok (out s);
  inv_drained : drained s ++ contents (out s) = render (got s);
  inv_loss : loss s lost;
  inv_pc : match pc s with RSwap => r = [] /\ w <> [] | RPop => r <> [] | _ => True end
}.

Lemma render_snoc l m : render (l ++ [m]) = render l ++ if asString then put_u32 (zlen m) ++ m else m.
Proof. unfold render. destruct asString; [rewrite encode_app|rewrite concat_app]; cbn [encode foldr concat]; by rewrite ?app_nil_r. Qed.

Lemma deliver_cases o m : buffer_ok o ->
  (exists o', deliver asString o m = Ok o' /\ buffer_ok o' /\
     contents o' = contents o ++ if asString then put_u32 (zlen m) ++ m else m) \/
  (exists e, deliver asString o m = Fatal e /\ string_refused (contents o) m).
Proof.
  intros Hok. unfold deliver. destruct asString.
  - destruct (buffer_put_string_cases o m Hok) as [[b E]|H]; [left|by right]. exists b. split; [done|].
    apply buffer_put_string_inv in E as (? & Hc & _); [|done]. split; [done|]. rewrite Hc. cbn [encode foldr]. by rewrite app_nil_r.
  - destruct (buffer_append_or_not o m Hok) as [[b E]|H]; [left|by right]. exists b. split; [done|].
    by apply buffer_append_inv.
Qed.

Lemma inv_pop_read s lost r w s' : inv s lost r w -> pc s = RPop -> get_step s = Some s' -> exists lost' r' w', inv s' lost' r' w'.
Proof.
  intros [Hn Hr Hw Ho Hb Hd Hl Hp] Hpc. unfold loss, taken in *. rewrite Hpc in *. specialize (Hr ltac:(done)). subst lost.
  unfold get_step, goto. rewrite Hpc. unfold take_msg. destruct r as [|m r]; [done|].
  destruct (get_string_holds _ _ _ _ Hr) as [b [(Hm & -> & Hh)|(Hm & ->)]]; rsimp; intros [= <-].
  - exists [], r, w. split; try done. by apply holds_count in Hh.
  - exists [m], r, w. split; try done; [|by exists m; auto]. cbn [q nReadBufMsgs]. rewrite Hn. unfold zlen. cbn [length]. lia.
Qed.

Lemma inv_deliver s lost r w m s' : inv s lost r w -> pc s = RDeliver m -> get_step s = Some s' -> exists lost' r' w', inv s' lost' r' w'.
Proof.
  intros [Hn Hr Hw Ho Hb Hd Hl Hp] Hpc. unfold loss, taken in *. rewrite Hpc in *. specialize (Hr ltac:(done)). subst lost.
  unfold get_step, goto. rewrite Hpc. destruct (deliver_cases (out s) m Hb) as [(o & -> & Hok & Hc)|(e & -> & He)]; intros [= <-].
  - exists [], r, w. split; try done; cbn [sent got drained out taken pc].
    + by rewrite Ho, <- !(assoc_L (++)).
    + by rewrite Hc, render_snoc, <- Hd, <- !(assoc_L (++)).
  - exists [m], r, w. split; try done. exists m. auto.
Qed.

Lemma inv_get_read s lost r w s' : inv s lost r w -> get_step s = Some s' -> exists lost' r' w', inv s' lost' r' w'.
Proof.
  intros Hi. pose proof Hi as [Hn Hr Hw Ho Hb Hd Hl Hp]. pose proof (holds_count _ _ _ Hw) as Hnw.
  destruct (pc s) eqn:Hpc; [| |by apply (inv_pop_read s lost r w)|by apply (inv_deliver s lost r w m)| | |];
    unfold get_step, goto; unfold loss, taken in *; rewrite Hpc in *; [..|done]; specialize (Hr ltac:(done)); intros [= <-].
  - exists lost, r, w. rewrite Hn, Hnw.
    destruct (zlen r =? 0) eqn:E1; cbn [negb]; [destruct (zlen w =? 0) eqn:E2; cbn [negb]|]; split; try done; cbn [pc].
    + apply Z.eqb_eq in E1. apply Z.eqb_neq in E2. split; [by apply zlen_0|]. by intros ->.
    + apply Z.eqb_neq in E1. by intros ->.
  - destruct Hp as [-> Hw0]. exists lost, w, []. split; try done. cbn [sent got taken pc]. by rewrite Ho, app_nil_r.
  - exists lost, r, w. destruct (_ =? 0); by split.
  - exists lost, r, w. by split.
Qed.

Lemma rinv_step s s' lost r w : inv s lost r w -> step s s' -> exists lost' r' w', inv s' lost' r' w'.
Proof.
  intros Hi Hst. pose proof Hi as [Hn Hr Hw Ho Hb Hd Hl Hp]. destruct Hst as [[data| |n] s s' E]; [| by eapply inv_get_read|].
  - cbn [do_act] in E. unfold put in E. destruct (buffer_put_string _ _) as [b| |] eqn:Eb; [|done|done]. injection E as <-.
    exists lost, r, (w ++ [data]). apply (put_string_holds _ _ _ _ _ Hw) in Eb. split; try done; cbn [sent got pc].
    + rewrite Ho. unfold taken. cbn [pc]. by rewrite <- !(assoc_L (++)).
    + destruct (pc s); try done. destruct Hp. split; [done|]. by destruct w.
  - cbn [do_act] in E. destruct (pc s) eqn:Hpc; try done. destruct (buffer_consume _ _) as [o| |] eqn:Ec; [|done|done].
    destruct (0 <=? n) eqn:En; [|done]. apply Z.leb_le in En. injection E as <-.
    apply buffer_consume_inv in Ec as (_ & Hok & Hc); [|done|done].
    exists lost, r, w. unfold loss, taken in *. rewrite Hpc in *. split; try done.
    cbn [drained out got]. by rewrite Hc, <- (assoc_L (++)), take_drop.
Qed.

Lemma rinv_reachable s : reachable s -> exists lost r w, inv s lost r w.
Proof.
  induction 1 as [|s s' _ (lost & r & w & IH) Hst]; [|by eapply rinv_step]. exists [], [], [].
  split; try done; try (intros; apply holds_init); try apply buffer_init_ok. cbn. unfold render. by destruct asString.
Qed.


End Threads.

Definition delivered_one : state :=
  default start (do_acts true [APut [5; 6]; AGet; AGet; AGet; AGet; APut [7]] start).

Lemma delivered_one_reached : reachable true delivered_one.
Proof.
  assert (match do_acts true [APut [5; 6]; AGet; AGet; AGet; AGet; APut [7]] start with
    | Some _ => true | None => false end = true) as H by (vm_compute; reflexivity).
  unfold delivered_one. destruct (do_acts true _ start) as [s|] eqn:E; [|discriminate H].
  eapply rdo_acts_reachable; [constructor|exact E].
Qed.


(** The wake-up of the connection thread can be lost.  [get] resets
    [dataReady] when the reading side is empty although the writing side holds a
    message: the connection thread is then idle, a message is queued, and the
    event it would wait for is not set. *)
Theorem read_buffer_lost_wakeup :
  exists s, reachable false s /\ pc s = RIdle /\ n_msgs_in_the_buffer (q s) = 1 /\ dataReady (q s) = false.
Proof.
  assert (match do_acts false [APut [1]; AGet; AGet; APut [2]; AGet; AGet; AGet; AGet] start with
    | Some s => (match pc s with RIdle => true | _ => false end, n_msgs_in_the_buffer (q s), dataReady (q s))
    | None => (false, 0, true) end = (true, 1, false)) as H by (vm_compute; reflexivity).
  destruct (do_acts false _ start) as [s|] eqn:E; [|discriminate H]. exists s. injection H as H1 H2 H3.
  split; [eapply rdo_acts_reachable; [constructor|exact E]|]. split; [by destruct (pc s)|]. split; assumption.
Qed.

End ReadBuffer.
