(* ===== verification/SshChannel.v ===== *)
(** * SshChannel: channels of the connection protocol

    [Channel] (shiesh/Channel.cpp), its derivations [SessionChannel] and
    [SFTPChannel], what the channel messages of CoreConnection.cpp do to a channel, and
    the per-channel part of [ChannelRepository::fill_event_array].  The class [PacketOut] is what
    a channel uses of the connection: sending one message.  It has two instances:
    the packet layer itself, and a trace of the messages, on which the theorems
    about windows are stated. *)

From S2P Require Import Prelude SshBuffer SshPacket SshQueue.

(** ** The interface to the connection *)

Class PacketOut (con : Type) := {
  (** [packet_start (type)], a [packet_put_*] for each field, [packet_send] *)
  send_msg : con -> Z -> list field -> res con
}.

(** The packet layer. *)
Section PacketLayer.
Context `{SshCipher.Crypto} `{Zlib} `{Random}.

Definition packet_put_field (c : conn) (f : field) : res conn :=
  match f with
  | FChar v => packet_put_char c v
  | FShort v => b ← buffer_put_short (outgoing_packet c) v; Ok (set_outgoing_packet c b)
  | FInt v => packet_put_int c v
  | FInt64 v => b ← buffer_put_int64 (outgoing_packet c) v; Ok (set_outgoing_packet c b)
  | FString s => packet_put_string c s
  end.

Fixpoint packet_put_fields (c : conn) (fs : list field) : res conn :=
  match fs with [] => Ok c | f :: fs => c ← packet_put_field c f; packet_put_fields c fs end.

#[global] Instance conn_out : PacketOut conn := {
  send_msg := fun c type fs => c ← packet_start c type; c ← packet_put_fields c fs; packet_send c
}.

End PacketLayer.

(** A trace of messages. *)
Definition trace : Type := list (Z * list field).

#[global] Instance trace_out : PacketOut trace := {
  send_msg := fun t type fs => Ok (t ++ [(type, fs)])
}.

(** ** Constants (ssh2.h, SessionChannel.h) *)

Definition SSH2_MSG_CHANNEL_OPEN_CONFIRMATION : Z := 91.
Definition SSH2_MSG_CHANNEL_WINDOW_ADJUST : Z := 93.
Definition SSH2_MSG_CHANNEL_DATA : Z := 94.
Definition SSH2_MSG_CHANNEL_EOF : Z := 96.
Definition SSH2_MSG_CHANNEL_CLOSE : Z := 97.
Definition SSH2_MSG_CHANNEL_REQUEST : Z := 98.
Definition PacketDefaultSize : Z := 32 * 1024.
Definition WindowDefaultSize : Z := 64 * PacketDefaultSize.
Definition SFTP_MAX_MSG_LENGTH : Z := 256 * 1024.

(** ** State *)

(** The states of [allInputStates] and [allOutputStates]. *)
Inductive chan_state := StOpen | StWaitDrain | StClosed.

#[global] Instance chan_state_eq_dec : EqDecision chan_state.
Proof. solve_decision. Defined.

(** [allInputTrans] and [allOutputTrans] *)
Definition there_is_transition (from to : chan_state) : bool :=
  match from, to with
  | StOpen, StClosed | StOpen, StWaitDrain | StWaitDrain, StClosed => true
  | _, _ => false
  end.

Record windows := mkWin {
  remote_window : Z;
  remote_maxpacket : Z;
  local_window : Z;
  local_window_max : Z;
  local_consumed : Z;
  local_maxpacket : Z
}.

Record flags := mkFlags {
  isOpened : bool;
  eofRcvd : bool;
  eofSent : bool;
  closeRcvd : bool;
  closeSent : bool;
  do_close : bool
}.

(** The thread of the subsystem, as far as a channel sees it. *)
Inductive subsystem_state := NoSubsystem | Running | Terminated.

Record Channel := mkChan {
  is_sftp : bool;                 (** [SFTPChannel] *)
  remote_id : Z;
  win : windows;
  flg : flags;
  ascending : Buffer;
  descending : Buffer;
  currentInputState : chan_state;
  currentOutputState : chan_state;
  fromChannel : WriteBuffer.wbuf;
  toChannel : ReadBuffer.rbuf;
  subsystem : subsystem_state
}.

(** *** Field updates *)

Definition set_win (c : Channel) (w : windows) : Channel :=
  mkChan (is_sftp c) (remote_id c) w (flg c) (ascending c) (descending c) (currentInputState c)
    (currentOutputState c) (fromChannel c) (toChannel c) (subsystem c).
Definition set_flg (c : Channel) (f : flags) : Channel :=
  mkChan (is_sftp c) (remote_id c) (win c) f (ascending c) (descending c) (currentInputState c)
    (currentOutputState c) (fromChannel c) (toChannel c) (subsystem c).
Definition set_bufs (c : Channel) (a d : Buffer) : Channel :=
  mkChan (is_sftp c) (remote_id c) (win c) (flg c) a d (currentInputState c)
    (currentOutputState c) (fromChannel c) (toChannel c) (subsystem c).
Definition set_states (c : Channel) (i o : chan_state) : Channel :=
  mkChan (is_sftp c) (remote_id c) (win c) (flg c) (ascending c) (descending c) i o
    (fromChannel c) (toChannel c) (subsystem c).
Definition set_io (c : Channel) (f : WriteBuffer.wbuf) (t : ReadBuffer.rbuf) (s : subsystem_state) :
    Channel :=
  mkChan (is_sftp c) (remote_id c) (win c) (flg c) (ascending c) (descending c)
    (currentInputState c) (currentOutputState c) f t s.

Definition set_remote_window w v := mkWin v (remote_maxpacket w) (local_window w)
  (local_window_max w) (local_consumed w) (local_maxpacket w).
Definition set_local w lw lc := mkWin (remote_window w) (remote_maxpacket w) lw
  (local_window_max w) lc (local_maxpacket w).

Definition set_eofRcvd f := mkFlags (isOpened f) true (eofSent f) (closeRcvd f) (closeSent f) (do_close f).
Definition set_eofSent f := mkFlags (isOpened f) (eofRcvd f) true (closeRcvd f) (closeSent f) (do_close f).
Definition set_closeRcvd f := mkFlags (isOpened f) (eofRcvd f) (eofSent f) true (closeSent f) (do_close f).
Definition set_closeSent f := mkFlags (isOpened f) (eofRcvd f) (eofSent f) (closeRcvd f) true (do_close f).
Definition set_do_close f := mkFlags (isOpened f) (eofRcvd f) (eofSent f) (closeRcvd f) (closeSent f) true.
Definition set_opened f := mkFlags true (eofRcvd f) (eofSent f) (closeRcvd f) (closeSent f) (do_close f).

(** The constructor of [Channel] with the assignments of
    [ChannelPars::create_derivation]. *)
Definition new_channel (remote_id rwindow rmaxpack windowSize : Z) : Channel :=
  mkChan false remote_id (mkWin rwindow rmaxpack windowSize windowSize 0 PacketDefaultSize)
    (mkFlags false false false false false false) buffer_init buffer_init StOpen StOpen
    WriteBuffer.init ReadBuffer.init NoSubsystem.

Definition inputStateIs (c : Channel) (s : chan_state) : bool := bool_decide (currentInputState c = s).
Definition outputStateIs (c : Channel) (s : chan_state) : bool := bool_decide (currentOutputState c = s).

Section Operations.
Context {con : Type} `{!PacketOut con}.

Definition open (k : con) (c : Channel) (window_max : Z) : res (con * Channel) :=
  let w := win c in
  k ← send_msg k SSH2_MSG_CHANNEL_WINDOW_ADJUST [FInt (remote_id c); FInt window_max];
  Ok (k, set_flg (set_win c (mkWin (remote_window w) (remote_maxpacket w) window_max window_max
                               (local_consumed w) (local_maxpacket w))) (set_opened (flg c))).

Definition sendEOF (k : con) (c : Channel) : res (con * Channel) :=
  k ← send_msg k SSH2_MSG_CHANNEL_EOF [FInt (remote_id c)];
  Ok (k, set_flg c (set_eofSent (flg c))).

(** [SessionChannel::hasAscendingData] *)
Definition hasAscendingData (c : Channel) : bool :=
  negb (buffer_len (ascending c) =? 0) ||
  (ReadBuffer.n_msgs_in_the_buffer (toChannel c) >? 0) ||
  match subsystem c with Running => true | _ => false end.

(** The data part of [channel_output_poll]. *)
Definition send_data (k : con) (c : Channel) : res (con * Channel) :=
  let len := buffer_len (ascending c) in
  if (inputStateIs c StOpen || inputStateIs c StWaitDrain) && (len >? 0) then
    let len := if len >? remote_window (win c) then remote_window (win c) else len in
    let len := if len >? remote_maxpacket (win c) then remote_maxpacket (win c) else len in
    if len >? 0 then
      k ← send_msg k SSH2_MSG_CHANNEL_DATA
            [FInt (remote_id c); FString (take (Z.to_nat len) (buffer_ptr (ascending c)))];
      a ← buffer_consume (ascending c) len;
      Ok (k, set_win (set_bufs c a (descending c))
               (set_remote_window (win c) (u32 (remote_window (win c) - len))))
    else Ok (k, c)
  else Ok (k, c).

Definition channel_output_poll (k : con) (c : Channel) : res (con * Channel) :=
  if negb (isOpened (flg c)) then Ok (k, c)
  else
    '(k, c) ← send_data k c;
    if inputStateIs c StWaitDrain && negb (hasAscendingData c) then
      '(k, c) ← (if negb (eofSent (flg c) || closeSent (flg c)) then sendEOF k c else Ok (k, c));
      Ok (k, set_states c StClosed (currentOutputState c))
    else Ok (k, c).

Definition channel_check_window (k : con) (c : Channel) : res (con * Channel) :=
  let w := win c in
  if isOpened (flg c) && negb (closeSent (flg c) || closeRcvd (flg c)) &&
     ((u32 (local_window_max w - local_window w) >? u32 (local_maxpacket w * 3)) ||
      (local_window w <? local_window_max w / 2)) &&
     (local_consumed w >? 0)
  then
    k ← send_msg k SSH2_MSG_CHANNEL_WINDOW_ADJUST [FInt (remote_id c); FInt (local_consumed w)];
    Ok (k, set_win c (set_local w (u32 (local_window w + local_consumed w)) 0))
  else Ok (k, c).

Definition put_raw_data (c : Channel) (data : list Z) : res Channel :=
  d ← buffer_append (descending c) data; Ok (set_bufs c (ascending c) d).

(** [SessionChannel::put_eof] *)
Definition put_eof (c : Channel) : res Channel :=
  f ← WriteBuffer.put_eof (fromChannel c); Ok (set_io c f (toChannel c) (subsystem c)).

Definition rcvd_ieof (c : Channel) : res Channel :=
  let c := set_flg c (set_eofRcvd (flg c)) in
  if outputStateIs c StOpen then
    let c := set_states c (currentInputState c) StWaitDrain in
    if buffer_len (descending c) =? 0
    then c ← put_eof c; Ok (set_states c StWaitDrain StClosed)
    else Ok c
  else Ok c.

Definition chan_is_dead (k : con) (c : Channel) (do_send : bool) : res (con * Channel * bool) :=
  if negb (inputStateIs c StClosed) || negb (outputStateIs c StClosed) then Ok (k, c, false)
  else
    '(k, c, early) ←
      (if negb (closeSent (flg c)) then
         if do_send then
           k ← send_msg k SSH2_MSG_CHANNEL_CLOSE [FInt (remote_id c)];
           Ok (k, set_flg c (set_closeSent (flg c)), false)
         else Ok (k, c, closeRcvd (flg c))
       else Ok (k, c, false));
    if early : bool then Ok (k, c, true)
    else Ok (k, c, closeSent (flg c) && closeRcvd (flg c)).

Definition session_close_by_channel (c : Channel) : Channel :=
  set_io c (fromChannel c) (toChannel c) NoSubsystem.

(** [None]: the channel is deleted from the repository. *)
Definition garbage_collect (k : con) (c : Channel) : res (con * option Channel) :=
  '(k, c, dead) ← chan_is_dead k c (do_close (flg c));
  if negb dead then Ok (k, Some c)
  else
    let c := session_close_by_channel c in
    '(k, c, dead) ← chan_is_dead k c true;
    if negb dead then Ok (k, Some c) else Ok (k, None).

(** [SessionChannel] appends the next message of the subsystem as it is,
    [SFTPChannel] with its length. *)
Definition subproc2ascending (c : Channel) : res Channel :=
  '(_, t, a) ← ReadBuffer.get (toChannel c) (ascending c) (is_sftp c);
  Ok (set_io (set_bufs c a (descending c)) (fromChannel c) t (subsystem c)).

(** [SFTPChannel::is_complete_packet_in_descending]; the sum is a 32-bit one. *)
Definition is_complete_packet_in_descending (c : Channel) : bool :=
  let buf_len := buffer_len (descending c) in
  if buf_len <? 5 then false
  else let msg_len := get_u32 (buffer_ptr (descending c)) in
       negb (buf_len <? u32 (msg_len + 4)).

Definition set_consumed (c : Channel) (v : Z) : Channel :=
  set_win c (set_local (win c) (local_window (win c)) v).

Definition session_descending2subproc (c : Channel) : res Channel :=
  let data := buffer_ptr (descending c) in
  '(f, consumed) ← WriteBuffer.put (fromChannel c) data (local_consumed (win c));
  d ← buffer_consume (descending c) (buffer_len (descending c));
  Ok (set_consumed (set_io (set_bufs c (ascending c) d) f (toChannel c) (subsystem c)) consumed).

Definition sftp_descending2subproc (c : Channel) : res Channel :=
  if negb (is_complete_packet_in_descending c) then
    '(f, consumed) ← WriteBuffer.put (fromChannel c) [] (local_consumed (win c));
    Ok (set_consumed (set_io c f (toChannel c) (subsystem c)) consumed)
  else
    '(msg_len, d) ← buffer_get_int (descending c);
    '(f, consumed) ←
      WriteBuffer.put (fromChannel c) (take (Z.to_nat msg_len) (buffer_ptr d)) (local_consumed (win c));
    let consumed := if negb (consumed =? 0) then u32 (consumed + 4) else consumed in
    d ← buffer_consume d msg_len;
    Ok (set_consumed (set_io (set_bufs c (ascending c) d) f (toChannel c) (subsystem c)) consumed).

Definition descending2subproc (c : Channel) : res Channel :=
  if is_sftp c then sftp_descending2subproc c else session_descending2subproc c.

Definition channel_post (k : con) (c : Channel) : res (con * option Channel) :=
  '(k, c) ←
    (if isOpened (flg c) then
       c ← subproc2ascending c;
       c ← descending2subproc c;
       channel_check_window k c
     else Ok (k, c));
  garbage_collect k c.

Definition check_ascending_chan_rbuf (c : Channel) : res (bool * Channel) :=
  '(r, a) ← buffer_check_alloc (ascending c) (16 * 1024);
  Ok (r, set_bufs c a (descending c)).

(** [SessionChannel::subproc_terminated_notify] *)
Definition subproc_terminated_notify (k : con) (c : Channel) : res (con * Channel) :=
  k ← send_msg k SSH2_MSG_CHANNEL_REQUEST
        [FInt (remote_id c); FString (str "exit-status"); FChar 0; FInt 0];
  Ok (k, set_states (set_flg c (set_do_close (flg c))) StWaitDrain StClosed).

(** *** What the messages of the peer do to the channel (CoreConnection.cpp) *)

Definition chan_data (c : Channel) (data : list Z) : res Channel :=
  if negb (isOpened (flg c)) then Ok c
  else
    let w := win c in
    let data_len := zlen data in
    if negb (outputStateIs c StOpen) then
      Ok (set_win c (set_local w (u32 (local_window w - data_len)) (u32 (local_consumed w + data_len))))
    else if data_len >? local_window w then Ok c
    else put_raw_data (set_win c (set_local w (u32 (local_window w - data_len)) (local_consumed w))) data.

Definition chan_oclose (k : con) (c : Channel) : res (con * Channel) :=
  let c := set_flg c (set_closeRcvd (flg c)) in
  if negb (isOpened (flg c)) then Ok (k, set_states c StClosed StClosed)
  else
    let c := if outputStateIs c StOpen then set_states c (currentInputState c) StWaitDrain else c in
    if inputStateIs c StOpen then Ok (k, set_states c StClosed (currentOutputState c))
    else if inputStateIs c StWaitDrain then
      '(k, c) ← sendEOF k c; Ok (k, set_states c StClosed (currentOutputState c))
    else Ok (k, c).

Definition remote_window_adjust (c : Channel) (adjust : Z) : Channel :=
  set_win c (set_remote_window (win c) (u32 (remote_window (win c) + adjust))).

(** *** The pre-handlers of [fill_event_array] *)

(** Whether the channel's data event is waited for. *)
Definition waits_for_data (c : Channel) : res (bool * Channel) :=
  if inputStateIs c StOpen && (remote_window (win c) >? 0) &&
     (buffer_len (ascending c) <? remote_window (win c))
  then check_ascending_chan_rbuf c else Ok (false, c).

Definition drain_output (c : Channel) : res Channel :=
  if outputStateIs c StWaitDrain then
    if buffer_len (descending c) =? 0
    then c ← put_eof c; Ok (set_states c StWaitDrain StClosed)
    else Ok c
  else Ok c.

Definition channel_pre (k : con) (c : Channel) : res (con * option Channel * bool) :=
  '(waits, c) ← waits_for_data c;
  c ← drain_output c;
  '(k, o) ← garbage_collect k c;
  Ok (k, o, waits).

End Operations.

(** ** The repository of channels (Concurrenc++/Repository.h) *)

(** Slot 0 is never used; an empty slot is NULL. *)
Definition repository (A : Type) : Type := list (option A).

Definition repository_init {A} : repository A := [None].

Definition get_object_by_id {A} (r : repository A) (id : Z) : option A :=
  if (id <? 1) || (id >=? zlen r) then None else znth None r id.

Fixpoint first_unused {A} (r : list (option A)) (id : nat) : nat :=
  match r with
  | [] => id
  | None :: _ => id
  | Some _ :: r => first_unused r (S id)
  end.

(** The first empty slot behind slot 0, or a new one at the end. *)
Definition get_first_unused_object_id {A} (r : repository A) : nat := first_unused (tail r) 1.

Definition set_slot {A} (r : repository A) (id : nat) (o : option A) : repository A :=
  if (id <? length r)%nat then <[id := o]> r else r ++ [o].

Definition create_object {A} (r : repository A) (mk : Z -> A) : Z * repository A :=
  let id := get_first_unused_object_id r in
  (Z.of_nat id, set_slot r id (Some (mk (Z.of_nat id)))).

(** Deleting an empty or unknown slot throws. *)
Definition delete_object_by_id {A} (r : repository A) (id : Z) : option (repository A) :=
  if (id <? 0) || (id >=? zlen r) then None
  else match znth None r id with
       | None => None
       | Some _ => Some (<[Z.to_nat id := None]> r)
       end.
