(* ===== verification/SshChannelProps.v ===== *)
(** * SshChannelProps: what the channels guarantee

    A channel's life is a sequence of operations: calls of the server loop,
    messages of the peer and steps of the subsystem thread.  The messages it
    sends are collected in a trace.  The theorems are invariants of every such
    sequence: flow control in both directions, the closing handshake and the
    state machine of [allInputTrans] and [allOutputTrans]. *)

From S2P Require Import Prelude SshBuffer SshPacket SshQueue SshChannel.

Inductive chan_op :=
| OpOpen                      (** [SessionChannel::open] *)
| OpPoll                      (** [channel_output_poll] *)
| OpPost                      (** [channel_post] *)
| OpPre                       (** the channel's part of [fill_event_array] *)
| OpData (data : list Z)      (** CHANNEL_DATA *)
| OpEof                       (** CHANNEL_EOF *)
| OpClose                     (** CHANNEL_CLOSE *)
| OpAdjust (n : Z)            (** CHANNEL_WINDOW_ADJUST *)
| OpTerminated                (** [subproc_terminated_notify] *)
| OpSubPut (m : list Z)       (** the subsystem writes a message *)
| OpSubSwap                   (** its [get]: swap *)
| OpSubTake                   (** its [get]: take a message *)
| OpSubEnd.                   (** its thread ends *)

(** The worker takes a message, if there is one; [false]: [buffer_get_string] throws and the
    thread ends. *)
Definition sub_take (c : Channel) : res (bool * Channel) :=
  if WriteBuffer.nReadBufMsgs (fromChannel c) =? 0 then Ok (true, c)
  else
    '(m, f) ← WriteBuffer.take_msg (fromChannel c);
    Ok (match m with Some _ => true | None => false end, set_io c f (toChannel c) (subsystem c)).

(** [None]: the channel has been deleted. *)
Definition run_op (t : trace) (c : Channel) (op : chan_op) : res (trace * option Channel) :=
  match op with
  | OpOpen => '(t, c) ← open t c WindowDefaultSize; Ok (t, Some c)
  | OpPoll => '(t, c) ← channel_output_poll t c; Ok (t, Some c)
  | OpPost => channel_post t c
  | OpPre => '(t, o, _) ← channel_pre t c; Ok (t, o)
  | OpData data => c ← chan_data c data; Ok (t, Some c)
  | OpEof => c ← rcvd_ieof c; Ok (t, Some c)
  | OpClose => '(t, c) ← chan_oclose t c; Ok (t, Some c)
  | OpAdjust n => Ok (t, Some (remote_window_adjust c n))
  | OpTerminated => '(t, c) ← subproc_terminated_notify t c; Ok (t, Some c)
  | OpSubPut m => r ← ReadBuffer.put (toChannel c) m; Ok (t, Some (set_io c (fromChannel c) r (subsystem c)))
  | OpSubSwap => Ok (t, Some (set_io c (WriteBuffer.swap (fromChannel c)) (toChannel c) (subsystem c)))
  | OpSubTake =>
      '(alive, c) ← sub_take c;
      if alive : bool then Ok (t, Some c) else Fatal "buffer_get_string: buffer error"
  | OpSubEnd => Ok (t, Some (set_io c (fromChannel c) (toChannel c) Terminated))
  end.

Fixpoint run (t : trace) (c : Channel) (ops : list chan_op) : res (trace * option Channel) :=
  match ops with
  | [] => Ok (t, Some c)
  | op :: ops =>
      '(t, o) ← run_op t c op;
      match o with Some c => run t c ops | None => Ok (t, None) end
  end.

(** An invariant of every operation is an invariant of every run. *)
Lemma run_inv (I : trace -> Channel -> Prop) (D : trace -> Prop) (P : chan_op -> Prop) :
  (forall t c op t' o, I t c -> P op -> run_op t c op = Ok (t', o) ->
     match o with Some c' => I t' c' | None => D t' end) ->
  forall ops t c t' o, I t c -> Forall P ops -> run t c ops = Ok (t', o) ->
     match o with Some c' => I t' c' | None => D t' end.
Proof.
  intros Hstep ops. induction ops as [|op ops IH]; intros t c t' o Hi Hp E; cbn [run] in E.
  { by injection E as <- <-. }
  apply Forall_cons in Hp as [Hp Hps].
  destruct (run_op t c op) as [[t1 o1]| |] eqn:E1; cbn [mbind res_bind] in E; try discriminate E.
  specialize (Hstep _ _ _ _ _ Hi Hp E1). destruct o1 as [c1|]; [exact (IH t1 c1 t' o Hstep Hps E)|]. by injection E as <- <-.
Qed.

(** ** Inversion of the operations *)

Ltac bind_inv E E1 :=
  match type of E with
  | (mbind _ ?m = Ok _) =>
      destruct m as [?| |] eqn:E1; cbn [mbind res_bind] in E; [|discriminate E|discriminate E]
  end.

Definition data_len (m : Z * list field) : Z :=
  match m with
  | (t, [FInt _; FString s]) => if t =? SSH2_MSG_CHANNEL_DATA then zlen s else 0
  | _ => 0
  end.

Definition data_bytes (t : trace) : Z := foldr (fun m n => data_len m + n) 0 t.
Definition closes (t : trace) : Z :=
  foldr (fun m n => (if fst m =? SSH2_MSG_CHANNEL_CLOSE then 1 else 0) + n) 0 t.

Lemma data_bytes_snoc t m : data_bytes (t ++ [m]) = data_bytes t + data_len m.
Proof. induction t as [|x t IH]; cbn in *; [lia|]. unfold data_bytes in *. lia. Qed.

Lemma closes_snoc t m :
  closes (t ++ [m]) = closes t + (if fst m =? SSH2_MSG_CHANNEL_CLOSE then 1 else 0).
Proof. induction t as [|x t IH]; cbn in *; [lia|]. unfold closes in *. lia. Qed.

(** What [send_data] does: a prefix of the buffered data, no longer than the
    window and the packet size, leaves in one message. *)
Lemma send_data_spec t c t' c' :
  0 <= remote_window (win c) < 2 ^ 32 -> 0 <= remote_maxpacket (win c) -> buffer_ok (ascending c) ->
  send_data t c = Ok (t', c') ->
  exists n, 0 <= n <= remote_window (win c) /\ n <= remote_maxpacket (win c) /\
    n <= zlen (contents (ascending c)) /\
    remote_window (win c') = remote_window (win c) - n /\
    (n = 0 /\ t' = t /\ c' = c \/
     0 < n /\ t' = t ++ [(SSH2_MSG_CHANNEL_DATA,
                  [FInt (remote_id c); FString (take (Z.to_nat n) (contents (ascending c)))])] /\
     exists a, buffer_ok a /\ contents a = drop (Z.to_nat n) (contents (ascending c)) /\
       c' = set_win (set_bufs c a (descending c)) (set_remote_window (win c) (remote_window (win c) - n))).
Proof.
  intros Hw Hm Hok E. unfold send_data in E. pose proof (zlen_nonneg (contents (ascending c))).
  rewrite buffer_len_contents in E by done.
  destruct (_ && _) eqn:E0; [|injection E as <- <-; exists 0; repeat split; try lia; by left].
  set (n1 := if _ >? remote_window _ then _ else _) in E.
  set (n2 := if n1 >? _ then _ else _) in E.
  assert (Hn : n2 <= remote_window (win c) /\ n2 <= remote_maxpacket (win c) /\
               n2 <= zlen (contents (ascending c)) /\ 0 <= n2).
  { assert (Hmin : forall a b, (if a >? b then b else a) = Z.min a b) by (intros; zcase; lia).
    unfold n2, n1. rewrite !Hmin. lia. }
  clearbody n2. clear n1. destruct Hn as (H1 & H2 & H3 & H4).
  destruct (n2 >? 0) eqn:E2; zbool; [|injection E as <- <-; exists 0; repeat split; try lia; by left].
  cbn [send_msg trace_out] in E. cbn [mbind res_bind] in E. bind_inv E Ec. injection E as <- <-.
  rewrite buffer_ptr_contents in * by done. unfold buffer_consume in Ec.
  rewrite buffer_consume_ret_get in Ec.
  pose proof (buffer_get_ret_spec (ascending c) n2 Hok H4) as Hs.
  destruct (buffer_get_ret (ascending c) n2) as [[d b1]|]; [|done]. injection Ec as <-.
  destruct Hs as (_ & _ & Hd & Hb & _).
  exists n2. cbn [win set_win set_remote_window remote_window]. rewrite u32_small by lia.
  repeat split; try lia. right. split; [lia|]. split; [done|]. by exists b1.
Qed.

Lemma sendEOF_inv (t : trace) c t' c' :
  sendEOF t c = Ok (t', c') ->
  t' = t ++ [(SSH2_MSG_CHANNEL_EOF, [FInt (remote_id c)])] /\ c' = set_flg c (set_eofSent (flg c)).
Proof. unfold sendEOF. cbn. by intros [= <- <-]. Qed.

(** The polling step after the data: at most an EOF and the end of the input side. *)
Lemma output_poll_inv (t : trace) c t' c' :
  channel_output_poll t c = Ok (t', c') ->
  isOpened (flg c) = false /\ t' = t /\ c' = c \/
  exists t1 c1, send_data t c = Ok (t1, c1) /\
    (t' = t1 /\ c' = c1 \/
     currentInputState c1 = StWaitDrain /\
     (t' = t1 /\ c' = set_states c1 StClosed (currentOutputState c1) \/
      t' = t1 ++ [(SSH2_MSG_CHANNEL_EOF, [FInt (remote_id c1)])] /\
      c' = set_states (set_flg c1 (set_eofSent (flg c1))) StClosed (currentOutputState c1))).
Proof.
  unfold channel_output_poll. destruct (isOpened (flg c)) eqn:Eo; cbn [negb].
  2: { intros [= <- <-]. by left. }
  intros E. right. bind_inv E Ed. destruct a as [t1 c1]. exists t1, c1. split; [done|].
  destruct (inputStateIs c1 StWaitDrain && _) eqn:Ew; [|injection E as <- <-; by left].
  apply andb_true_iff in Ew as [Ew _]. apply bool_decide_eq_true in Ew. right. split; [done|].
  destruct (negb _) in E.
  - bind_inv E Es. destruct a as [t2 c2]. injection E as <- <-. apply sendEOF_inv in Es as [-> ->].
    by right.
  - cbn [mbind res_bind] in E. injection E as <- <-. by left.
Qed.

Lemma check_window_inv (t : trace) c t' c' :
  channel_check_window t c = Ok (t', c') ->
  t' = t /\ c' = c \/
  t' = t ++ [(SSH2_MSG_CHANNEL_WINDOW_ADJUST, [FInt (remote_id c); FInt (local_consumed (win c))])] /\
  c' = set_win c (set_local (win c) (u32 (local_window (win c) + local_consumed (win c))) 0).
Proof.
  unfold channel_check_window. destruct (_ && _); [|intros [= <- <-]; by left].
  cbn. intros [= <- <-]. by right.
Qed.

Lemma read_get_inv r o asString b r' o' : buffer_ok o -> ReadBuffer.get r o asString = Ok (b, r', o') -> buffer_ok o'.
Proof.
  intros Hok. assert (forall r, ReadBuffer.get_msg r o asString = Ok (b, r', o') -> buffer_ok o') as H.
  { intros r0 E. unfold ReadBuffer.get_msg in E. bind_inv E E1. destruct a as [[m|] r1]; [|done]. bind_inv E E2.
    injection E as _ _ <-. unfold ReadBuffer.deliver in E2. destruct asString; [by eapply buffer_put_string_inv|by eapply buffer_append_inv]. }
  unfold ReadBuffer.get. destruct (negb _); [apply H|]. destruct (negb _); [apply H|]. by intros [= _ _ <-].
Qed.

Lemma subproc2ascending_inv c c' :
  buffer_ok (ascending c) -> subproc2ascending c = Ok c' ->
  exists a t, buffer_ok a /\
    c' = set_io (set_bufs c a (descending c)) (fromChannel c) t (subsystem c).
Proof.
  intros Hok E. unfold subproc2ascending in E. bind_inv E E1. destruct a as [[b t] a]. injection E as <-.
  exists a, t. split; [|done]. by eapply read_get_inv.
Qed.

Lemma session_d2s_inv c c' :
  buffer_ok (descending c) -> session_descending2subproc c = Ok c' ->
  exists d f v, buffer_ok d /\ contents d = [] /\
    WriteBuffer.put (fromChannel c) (contents (descending c)) (local_consumed (win c)) = Ok (f, v) /\
    c' = set_consumed (set_io (set_bufs c (ascending c) d) f (toChannel c) (subsystem c)) v.
Proof.
  intros Hok E. unfold session_descending2subproc in E. rewrite buffer_ptr_contents in E by done.
  bind_inv E Ep. destruct a as [f v]. bind_inv E Ec. injection E as <-.
  rewrite buffer_len_contents in Ec by done.
  apply buffer_consume_inv in Ec as (_ & Hok' & Hc); [|done|apply zlen_nonneg].
  exists a, f, v. split; [done|]. split; [|done]. rewrite Hc. apply drop_ge. unfold zlen. lia.
Qed.

(** Whatever the kind of channel, only the descending side and the credit change. *)
Lemma d2s_frame c c' :
  descending2subproc c = Ok c' ->
  exists d f v, c' = set_consumed (set_io (set_bufs c (ascending c) d) f (toChannel c) (subsystem c)) v.
Proof.
  unfold descending2subproc, sftp_descending2subproc, session_descending2subproc. intros E.
  destruct (is_sftp c).
  - destruct (negb _) in E.
    + bind_inv E E1. destruct a as [f v]. injection E as <-.
      exists (descending c), f, v. by destruct c.
    + bind_inv E E1. destruct a as [n d]. bind_inv E E3. destruct a as [f v].
      bind_inv E E2. injection E as <-. by eexists a, f, _.
  - bind_inv E E1. destruct a as [f v]. bind_inv E E2. injection E as <-. by eexists a, f, _.
Qed.

(** The operations that give or take a message of a queue. *)
Lemma sub_take_inv c alive c' : sub_take c = Ok (alive, c') ->
  exists f, c' = set_io c f (toChannel c) (subsystem c) /\
    (f = fromChannel c \/ exists o, WriteBuffer.take_msg (fromChannel c) = Ok (o, f) /\ (alive = true -> is_Some o)).
Proof.
  unfold sub_take. intros E. destruct (_ =? 0).
  - injection E as <- <-. exists (fromChannel c). split; [by destruct c|by left].
  - bind_inv E E1. destruct a as [o f]. injection E as <- <-. exists f. split; [done|]. right. exists o. split; [done|]. by destruct o.
Qed.

Lemma drain_output_inv c c' : drain_output c = Ok c' -> c' = c \/
  (currentOutputState c = StWaitDrain /\ exists f, WriteBuffer.put_eof (fromChannel c) = Ok f /\
     c' = set_states (set_io c f (toChannel c) (subsystem c)) StWaitDrain StClosed).
Proof.
  unfold drain_output, put_eof, outputStateIs. intros E. destruct (bool_decide _) eqn:Eb; [|injection E as <-; by left].
  destruct (_ =? 0); [|injection E as <-; by left]. bind_inv E E1. bind_inv E1 E2. injection E1 as <-. injection E as <-.
  right. apply bool_decide_eq_true in Eb. split; [done|]. by exists a0.
Qed.

Lemma rcvd_ieof_inv c c' : rcvd_ieof c = Ok c' ->
  let c1 := set_flg c (set_eofRcvd (flg c)) in
  c' = c1 \/ (currentOutputState c = StOpen /\ (c' = set_states c1 (currentInputState c) StWaitDrain \/
    exists f, WriteBuffer.put_eof (fromChannel c) = Ok f /\
      c' = set_states (set_io c1 f (toChannel c) (subsystem c)) StWaitDrain StClosed)).
Proof.
  unfold rcvd_ieof, put_eof, outputStateIs. cbn [currentOutputState set_flg]. intros E.
  destruct (bool_decide _) eqn:Eb; [|injection E as <-; by left]. apply bool_decide_eq_true in Eb. right. split; [done|].
  destruct (_ =? 0); [|injection E as <-; by left]. bind_inv E E1. bind_inv E1 E2. injection E1 as <-. injection E as <-.
  right. by exists a0.
Qed.

(** [chan_is_dead] may send one CLOSE; it is true only for a channel closed on
    both sides whose peer has sent CLOSE. *)
Lemma chan_is_dead_inv (t : trace) c b t' c' dead :
  chan_is_dead t c b = Ok (t', c', dead) ->
  (t' = t /\ c' = c \/
   closeSent (flg c) = false /\ currentInputState c = StClosed /\ currentOutputState c = StClosed /\
   t' = t ++ [(SSH2_MSG_CHANNEL_CLOSE, [FInt (remote_id c)])] /\ c' = set_flg c (set_closeSent (flg c))) /\
  (dead = true -> currentInputState c = StClosed /\ currentOutputState c = StClosed /\
     closeRcvd (flg c) = true /\ (b = true -> closeSent (flg c') = true)).
Proof.
  unfold chan_is_dead, inputStateIs, outputStateIs.
  destruct (bool_decide (currentInputState c = StClosed)) eqn:Ei; cbn [negb orb].
  2: { intros [= <- <- <-]. split; [by left|done]. }
  destruct (bool_decide (currentOutputState c = StClosed)) eqn:Eo; cbn [negb].
  2: { intros [= <- <- <-]. split; [by left|done]. }
  apply bool_decide_eq_true in Ei, Eo. destruct (closeSent (flg c)) eqn:Es; cbn [negb].
  { cbn. rewrite Es. intros [= <- <- <-]. split; [by left|]. intros Hr. done. }
  destruct b; cbn.
  { intros [= <- <- <-]. split; [by right|]. intros Hr. done. }
  destruct (closeRcvd (flg c)) eqn:Er.
  { intros [= <- <- <-]. split; [by left|]. done. }
  rewrite ?Er, ?Es. intros [= <- <- <-]. split; [by left|done].
Qed.

(** ** The closing handshake *)

(** CLOSE has been sent once if [closeSent] is set, and not otherwise. *)
Definition close_inv (t : trace) (c : Channel) : Prop :=
  closes t = if closeSent (flg c) then 1 else 0.

(** The rest of a channel may change as long as the flag and the trace agree. *)
Lemma close_inv_same t c c' m :
  close_inv t c -> closeSent (flg c') = closeSent (flg c) -> fst m <> SSH2_MSG_CHANNEL_CLOSE ->
  close_inv t c' /\ close_inv (t ++ [m]) c'.
Proof.
  unfold close_inv. intros H Hf Hm. rewrite Hf, closes_snoc.
  destruct (fst m =? SSH2_MSG_CHANNEL_CLOSE) eqn:E; zbool; [done|]. rewrite H.
  destruct (closeSent (flg c)); lia.
Qed.

Lemma close_inv_frame t c c' : close_inv t c -> closeSent (flg c') = closeSent (flg c) -> close_inv t c'.
Proof. unfold close_inv. by intros H ->. Qed.

Lemma send_data_flg (t : trace) c t' c' :
  send_data t c = Ok (t', c') ->
  flg c' = flg c /\ (t' = t \/ exists fs, t' = t ++ [(SSH2_MSG_CHANNEL_DATA, fs)]).
Proof.
  unfold send_data. intros E. destruct (_ && _) in E; [|injection E as <- <-; split; [done|by left]].
  destruct (_ >? 0) in E; [|injection E as <- <-; split; [done|by left]].
  cbn in E. bind_inv E E1. injection E as <- <-. split; [done|]. right. by eexists.
Qed.

Lemma dead_close t c b t' c' dead :
  close_inv t c -> chan_is_dead t c b = Ok (t', c', dead) -> close_inv t' c'.
Proof.
  intros Hi E. apply chan_is_dead_inv in E as [[[-> ->]|(Hs & _ & _ & -> & ->)] _]; [done|].
  unfold close_inv in *. rewrite closes_snoc, Hi, Hs. done.
Qed.

Lemma garbage_close t c t' o :
  close_inv t c -> garbage_collect t c = Ok (t', o) ->
  match o with Some c' => close_inv t' c' | None => closes t' = 1 end.
Proof.
  unfold garbage_collect. intros Hi E. bind_inv E E1. destruct a as [[t1 c1] dead].
  pose proof (dead_close _ _ _ _ _ _ Hi E1) as Hi1. destruct dead; cbn [negb] in E.
  2: { by injection E as <- <-. }
  bind_inv E E2. destruct a as [[t2 c2] dead]. apply chan_is_dead_inv in E1 as [_ Hd1].
  assert (Hi1' : close_inv t1 (session_close_by_channel c1)) by exact Hi1.
  pose proof (dead_close _ _ _ _ _ _ Hi1' E2) as Hi2.
  apply chan_is_dead_inv in E2 as [_ Hd2]. destruct dead; cbn [negb] in E; injection E as <- <-; [|done].
  destruct (Hd2 eq_refl) as (_ & _ & _ & Hs). unfold close_inv in Hi2. by rewrite Hs in Hi2.
Qed.

Lemma run_op_close t c op t' o :
  close_inv t c -> True -> run_op t c op = Ok (t', o) ->
  match o with Some c' => close_inv t' c' | None => closes t' = 1 end.
Proof.
  intros Hi _ E. destruct op; cbn [run_op] in E; try (injection E as <- <-; by apply (close_inv_frame t c)).
  - cbn in E. injection E as <- <-. by apply (close_inv_same t c).
  - bind_inv E E1. destruct a as [t1 c1]. injection E as <- <-.
    apply output_poll_inv in E1 as [(_ & -> & ->)|(t2 & c2 & Ed & E1)]; [done|].
    apply send_data_flg in Ed as [Hf Ht].
    assert (Hi2 : close_inv t2 c2).
    { destruct Ht as [->|[fs ->]]; [by apply (close_inv_frame t c); rewrite ?Hf|].
      by apply (close_inv_same t c); rewrite ?Hf. }
    destruct E1 as [[-> ->]|[_ [[-> ->]|[-> ->]]]]; [done|done|].
    by apply (close_inv_same t2 c2).
  - unfold channel_post in E. bind_inv E E1. destruct a as [t1 c1].
    assert (Hi1 : close_inv t1 c1); [|by eapply garbage_close].
    destruct (isOpened (flg c)); [|by injection E1 as <- <-].
    bind_inv E1 E2. bind_inv E1 E3.
    assert (Hf2 : closeSent (flg a) = closeSent (flg c)).
    { unfold subproc2ascending in E2. bind_inv E2 E4. destruct a1 as [[? ?] ?]. by injection E2 as <-. }
    apply d2s_frame in E3 as (d & f & v & ->).
    apply check_window_inv in E1 as [[-> ->]|[-> ->]]; [by apply (close_inv_frame t c)|].
    by apply (close_inv_same t c).
  - bind_inv E E1. destruct a as [[t1 o1] w]. injection E as <- <-. unfold channel_pre in E1.
    bind_inv E1 E2. destruct a as [w1 c1]. bind_inv E1 Ed. bind_inv E1 E3. destruct a0 as [t2 o2]. injection E1 as <- <- <-.
    eapply garbage_close; [|exact E3]. apply (close_inv_frame t c); [done|].
    assert (Hf : flg c1 = flg c).
    { unfold waits_for_data in E2. destruct (_ && _); [|by injection E2 as <- <-].
      unfold check_ascending_chan_rbuf in E2. bind_inv E2 E4. destruct a0. by injection E2 as <- <-. }
    apply drain_output_inv in Ed as [->|(_ & f & _ & ->)]; cbn; by rewrite Hf.
  - bind_inv E E1. injection E as <- <-. apply (close_inv_frame t c); [done|].
    unfold chan_data in E1. destruct (negb _); [by injection E1 as <-|].
    destruct (negb _); [by injection E1 as <-|]. destruct (_ >? _); [by injection E1 as <-|].
    unfold put_raw_data in E1. bind_inv E1 E2. by injection E1 as <-.
  - bind_inv E E1. injection E as <- <-. apply (close_inv_frame t c); [done|].
    apply rcvd_ieof_inv in E1 as [->|[_ [->|(f & _ & ->)]]]; done.
  - bind_inv E E1. destruct a as [t1 c1]. injection E as <- <-. unfold chan_oclose in E1.
    destruct (negb _); [injection E1 as <- <-; by apply (close_inv_frame t c)|].
    set (c2 := if outputStateIs _ _ then _ else _) in E1.
    assert (Hf : closeSent (flg c2) = closeSent (flg c)) by (unfold c2; by destruct (outputStateIs _ _)).
    destruct (inputStateIs c2 StOpen); [injection E1 as <- <-; by apply (close_inv_frame t c)|].
    destruct (inputStateIs c2 StWaitDrain); [|injection E1 as <- <-; by apply (close_inv_frame t c)].
    bind_inv E1 E2. destruct a as [t3 c3]. injection E1 as <- <-. apply sendEOF_inv in E2 as [-> ->].
    by apply (close_inv_same t c).
  - cbn in E. injection E as <- <-. by apply (close_inv_same t c).
  - bind_inv E E1. injection E as <- <-. by apply (close_inv_frame t c).
  - bind_inv E E1. destruct a as [[] c1]; [|done]. injection E as <- <-. apply sub_take_inv in E1 as (f & -> & _).
    by apply (close_inv_frame t c).
Qed.

(** The closing handshake.  However the server loop, the peer and the
    subsystem interleave, a channel sends CHANNEL_CLOSE at most once, and it is
    deleted only after it has sent it. *)
Theorem close_sent_once rid rwin rmax ops t o :
  run [] (new_channel rid rwin rmax 0) ops = Ok (t, o) ->
  0 <= closes t <= 1 /\ (o = None -> closes t = 1).
Proof.
  intros E.
  pose proof (run_inv close_inv (fun t => closes t = 1) (fun _ => True) run_op_close ops
    [] (new_channel rid rwin rmax 0) t o eq_refl ltac:(by apply Forall_true) E) as H.
  destruct o as [c|]; [|rewrite H; split; [lia|done]]. unfold close_inv in H.
  rewrite H. split; [destruct (closeSent (flg c)); lia|done].
Qed.

(** ** The peer's window *)

Definition adjusts (ops : list chan_op) : Z :=
  foldr (fun op n => match op with OpAdjust a => a + n | _ => n end) 0 ops.

Definition adj (op : chan_op) : Z := match op with OpAdjust a => a | _ => 0 end.

Lemma adjusts_cons op ops : adjusts (op :: ops) = adj op + adjusts ops.
Proof. by destruct op. Qed.

(** What one operation does to the sending side: it spends window for every byte
    of data, never more than a packet at a time. *)
Definition spends (t : trace) (c : Channel) (extra : Z) (t' : trace) (w' m' : Z) : Prop :=
  data_bytes t' + w' = data_bytes t + remote_window (win c) + extra /\
  0 <= w' /\ data_bytes t <= data_bytes t' /\ m' = remote_maxpacket (win c) /\
  (forall M, m' <= M -> Forall (fun m => data_len m <= M) t -> Forall (fun m => data_len m <= M) t').

Lemma spends_same t c c' t' :
  0 <= remote_window (win c) -> 0 <= remote_maxpacket (win c) ->
  remote_window (win c') = remote_window (win c) -> remote_maxpacket (win c') = remote_maxpacket (win c) ->
  (t' = t \/ exists m, t' = t ++ [m] /\ data_len m = 0) ->
  spends t c 0 t' (remote_window (win c')) (remote_maxpacket (win c')).
Proof.
  intros Hw Hm H1 H2 Ht. unfold spends. rewrite H1, H2. destruct Ht as [->|(m & -> & Hd)].
  - split; [lia|]. split; [done|]. split; [lia|]. by split.
  - rewrite data_bytes_snoc, Hd. split; [lia|]. split; [done|]. split; [lia|]. split; [done|].
    intros M HM Hf. apply Forall_app. split; [done|]. repeat constructor. lia.
Qed.

Lemma data_len_send n (s : list Z) rid :
  0 <= n <= zlen s ->
  data_len (SSH2_MSG_CHANNEL_DATA, [FInt rid; FString (take (Z.to_nat n) s)]) = n.
Proof. intros Hn. cbn. unfold zlen in *. rewrite length_take. lia. Qed.

Lemma send_data_spends t c t' c' :
  0 <= remote_window (win c) < 2 ^ 32 -> 0 <= remote_maxpacket (win c) -> buffer_ok (ascending c) ->
  send_data t c = Ok (t', c') ->
  spends t c 0 t' (remote_window (win c')) (remote_maxpacket (win c')) /\ buffer_ok (ascending c').
Proof.
  intros Hw Hm Hok E.
  destruct (send_data_spec t c t' c' Hw Hm Hok E) as (n & Hn1 & Hn2 & Hn3 & Hr & [(-> & -> & ->)|(Hp & -> & a & Ha & _ & ->)]).
  - split; [|done]. apply spends_same; try done; [lia|by left].
  - split; [|done]. cbn [win set_win set_remote_window remote_window remote_maxpacket].
    unfold spends. rewrite data_bytes_snoc, data_len_send by lia.
    split; [lia|]. split; [lia|]. split; [lia|]. split; [done|]. intros M HM Hf. apply Forall_app.
    split; [done|]. constructor; [|done]. rewrite data_len_send by lia. lia.
Qed.

Lemma spends_after t c t1 w1 m1 t2 :
  spends t c 0 t1 w1 m1 -> 0 <= remote_maxpacket (win c) ->
  (t2 = t1 \/ exists m, t2 = t1 ++ [m] /\ data_len m = 0) -> spends t c 0 t2 w1 m1.
Proof.
  intros (H1 & H2 & H0 & H3 & H4) Hm Ht. unfold spends. destruct Ht as [->|(m & -> & Hd)]; [done|].
  rewrite data_bytes_snoc, Hd. split; [lia|]. split; [done|]. split; [lia|]. split; [done|].
  intros M HM Hf. apply Forall_app. split; [by apply H4|]. repeat constructor. lia.
Qed.

(** The garbage collection sends at most a CLOSE and keeps the windows. *)
Lemma garbage_spends t c t' o :
  0 <= remote_window (win c) -> 0 <= remote_maxpacket (win c) -> buffer_ok (ascending c) ->
  garbage_collect t c = Ok (t', o) ->
  spends t c 0 t' (remote_window (win c)) (remote_maxpacket (win c)) /\
  match o with Some c' => win c' = win c /\ buffer_ok (ascending c') | None => True end.
Proof.
  intros Hw Hm Hok E. unfold garbage_collect in E. bind_inv E E1. destruct a as [[t1 c1] dead].
  assert (H1 : (t1 = t \/ exists m, t1 = t ++ [m] /\ data_len m = 0) /\ win c1 = win c /\
               ascending c1 = ascending c).
  { apply chan_is_dead_inv in E1 as [[[-> ->]|(_ & _ & _ & -> & ->)] _]; [by split; [left|]|].
    split; [|done]. right. by eexists. }
  destruct H1 as (Ht1 & Hw1 & Ha1).
  pose proof (spends_same t c c t1 Hw Hm eq_refl eq_refl Ht1) as Hs1.
  destruct dead; cbn [negb] in E; [|injection E as <- <-; by rewrite Hw1, Ha1].
  bind_inv E E2. destruct a as [[t2 c2] dead].
  assert (H2 : (t2 = t1 \/ exists m, t2 = t1 ++ [m] /\ data_len m = 0) /\ win c2 = win c /\
               ascending c2 = ascending c).
  { apply chan_is_dead_inv in E2 as [[[-> ->]|(_ & _ & _ & -> & ->)] _]; cbn.
    - by split; [left|].
    - split; [|done]. right. by eexists. }
  destruct H2 as (Ht2 & Hw2 & Ha2). pose proof (spends_after _ _ _ _ _ _ Hs1 Hm Ht2) as Hs2.
  destruct dead; cbn [negb] in E; injection E as <- <-; [done|]. by rewrite Hw2, Ha2.
Qed.

Lemma check_alloc_ok fuel : forall b len r b',
  buffer_ok b -> check_alloc_restart fuel b len = Ok (r, b') -> buffer_ok b' /\ contents b' = contents b.
Proof.
  induction fuel as [|fuel IH]; intros b len r b' Hok E; [done|]. cbn [check_alloc_restart] in E.
  destruct (_ <? _); [by injection E as <- <-|].
  destruct (buffer_compact b) as [m b1] eqn:Ec.
  destruct (buffer_compact_spec _ _ _ Hok Ec) as (Hok1 & Hc1 & _).
  destruct m; [|by injection E as <- <-]. apply IH in E as [? E]; [|done]. by rewrite E, Hc1.
Qed.

Lemma waits_for_data_inv c w c' :
  buffer_ok (ascending c) -> waits_for_data c = Ok (w, c') ->
  exists a, buffer_ok a /\ c' = set_bufs c a (descending c).
Proof.
  intros Hok E. unfold waits_for_data in E. destruct (_ && _).
  - unfold check_ascending_chan_rbuf, buffer_check_alloc in E. bind_inv E E1. destruct a as [r b].
    injection E as <- <-. destruct (buffer_rewind_spec _ Hok) as (Hok1 & _).
    apply check_alloc_ok in E1 as [Hb _]; [|done]. by exists b.
  - injection E as <- <-. exists (ascending c). split; [done|]. by destruct c.
Qed.

Lemma drain_output_frame c c' : drain_output c = Ok c' -> win c' = win c /\ ascending c' = ascending c.
Proof. by intros [->|(_ & f & _ & ->)]%drain_output_inv. Qed.

Lemma chan_data_frame c d c' :
  chan_data c d = Ok c' ->
  remote_window (win c') = remote_window (win c) /\ remote_maxpacket (win c') = remote_maxpacket (win c) /\
  ascending c' = ascending c.
Proof.
  unfold chan_data. intros E. destruct (negb _); [by injection E as <-|].
  destruct (negb _); [by injection E as <-|]. destruct (_ >? _); [by injection E as <-|].
  unfold put_raw_data in E. bind_inv E E2. by injection E as <-.
Qed.

Lemma rcvd_ieof_frame c c' : rcvd_ieof c = Ok c' -> win c' = win c /\ ascending c' = ascending c.
Proof. by intros [->|[_ [->|(f & _ & ->)]]]%rcvd_ieof_inv. Qed.

Lemma chan_oclose_inv (t : trace) c t' c' :
  chan_oclose t c = Ok (t', c') ->
  win c' = win c /\ ascending c' = ascending c /\
  (t' = t \/ t' = t ++ [(SSH2_MSG_CHANNEL_EOF, [FInt (remote_id c)])]).
Proof.
  unfold chan_oclose. intros E. destruct (negb _); [injection E as <- <-; split_and!; try done; by left|].
  set (c2 := if outputStateIs _ _ then _ else _) in E.
  assert (Hf : win c2 = win c /\ ascending c2 = ascending c /\ remote_id c2 = remote_id c)
    by (unfold c2; by destruct (outputStateIs _ _)). destruct Hf as (H1 & H2 & H3).
  destruct (inputStateIs c2 StOpen); [injection E as <- <-; split_and!; try done; by left|].
  destruct (inputStateIs c2 StWaitDrain); [|injection E as <- <-; split_and!; try done; by left].
  bind_inv E E2. destruct a as [t3 c3]. injection E as <- <-. apply sendEOF_inv in E2 as [-> ->].
  split; [done|]. split; [done|]. right. by rewrite H3.
Qed.

Definition tx_ok (c : Channel) : Prop :=
  0 <= remote_window (win c) < 2 ^ 32 /\ 0 <= remote_maxpacket (win c) /\ buffer_ok (ascending c).

Definition op_spends (t : trace) (c : Channel) (op : chan_op) (t' : trace) (o : option Channel) : Prop :=
  exists w', spends t c (adj op) t' w' (remote_maxpacket (win c)) /\
    match o with
    | Some c' => remote_window (win c') = w' /\ remote_maxpacket (win c') = remote_maxpacket (win c) /\
                 buffer_ok (ascending c')
    | None => True
    end.

(** Operations that only send other messages. *)
Lemma op_spends_same t c op t' c' :
  tx_ok c -> adj op = 0 ->
  remote_window (win c') = remote_window (win c) -> remote_maxpacket (win c') = remote_maxpacket (win c) ->
  buffer_ok (ascending c') -> (t' = t \/ exists m, t' = t ++ [m] /\ data_len m = 0) ->
  op_spends t c op t' (Some c').
Proof.
  intros (Hw & Hm & _) Ha H1 H2 Hb Ht. exists (remote_window (win c')). rewrite Ha. split; [|done].
  rewrite <- H2. apply spends_same; try done. lia.
Qed.

Lemma post_spends t c t' o : tx_ok c -> channel_post t c = Ok (t', o) -> op_spends t c OpPost t' o.
Proof.
  intros Hok E. pose proof Hok as (Hw & Hm & Ha). unfold channel_post in E. bind_inv E E1.
  destruct a as [t1 c1].
  assert (H1 : (t1 = t \/ exists m, t1 = t ++ [m] /\ data_len m = 0) /\
     remote_window (win c1) = remote_window (win c) /\ remote_maxpacket (win c1) = remote_maxpacket (win c) /\
     buffer_ok (ascending c1)).
  { destruct (isOpened (flg c)); [|injection E1 as <- <-; split; [by left|done]].
    bind_inv E1 E2. bind_inv E1 E3.
    apply subproc2ascending_inv in E2 as (b & r & Hb & ->); [|done].
    apply d2s_frame in E3 as (d & f & v & ->).
    apply check_window_inv in E1 as [[-> ->]|[-> ->]]; [split; [by left|done]|].
    split; [right; by eexists|done]. }
  destruct H1 as (Ht1 & Hw1 & Hm1 & Hb1).
  pose proof (spends_same t c c1 t1 ltac:(lia) Hm Hw1 Hm1 Ht1) as Hs1.
  destruct (garbage_spends t1 c1 t' o) as [Hs2 Ho]; try done; [lia|lia|].
  exists (remote_window (win c)). cbn [adj]. rewrite Hw1, Hm1 in *. split.
  - destruct Hs1 as (A1 & A2 & A0 & _ & A4), Hs2 as (B1 & B2 & B0 & _ & B4). unfold spends.
    rewrite Hw1 in B1. split; [lia|]. split; [done|]. split; [lia|]. split; [done|]. intros M HM Hf. apply B4; [done|]. by apply A4.
  - destruct o as [c2|]; [|done]. destruct Ho as [-> Hb2]. done.
Qed.

Lemma poll_spends t c t' c' :
  tx_ok c -> channel_output_poll t c = Ok (t', c') -> op_spends t c OpPoll t' (Some c').
Proof.
  intros Hok E. pose proof Hok as (Hw & Hm & Ha).
  apply output_poll_inv in E as [(_ & -> & ->)|(t1 & c1 & Ed & E)].
  { apply op_spends_same; try done. by left. }
  destruct (send_data_spends t c t1 c1 Hw Hm Ha Ed) as [Hs Hb].
  assert (Hmm : remote_maxpacket (win c1) = remote_maxpacket (win c)) by apply Hs.
  rewrite Hmm in Hs. exists (remote_window (win c1)). cbn [adj].
  destruct E as [[-> ->]|[_ [[-> ->]|[-> ->]]]]; [done|done|]. split; [|done].
  eapply spends_after; [exact Hs|done|]. right. by eexists.
Qed.

Lemma run_op_spends t c op t' o :
  tx_ok c -> 0 <= adj op -> remote_window (win c) + adj op < 2 ^ 32 ->
  run_op t c op = Ok (t', o) -> op_spends t c op t' o.
Proof.
  intros Hok Hadj Hsum E. pose proof Hok as (Hw & Hm & Ha).
  destruct op; cbn [run_op] in E; try (injection E as <- <-; apply op_spends_same; try done; by left).
  - cbn in E. injection E as <- <-. apply op_spends_same; try done. right. by eexists.
  - bind_inv E E1. destruct a as [t1 c1]. injection E as <- <-. by apply poll_spends.
  - by apply post_spends.
  - bind_inv E E1. destruct a as [[t1 o1] w]. injection E as <- <-. unfold channel_pre in E1.
    bind_inv E1 E2. destruct a as [w1 c1]. bind_inv E1 Ed. bind_inv E1 E3. destruct a0 as [t2 o2]. injection E1 as <- <- <-.
    apply waits_for_data_inv in E2 as (b & Hb & ->); [|done].
    apply drain_output_frame in Ed as [Hdw Hda]. cbn in Hdw, Hda.
    destruct (garbage_spends t a t2 o2) as [Hs Ho];
      [rewrite Hdw; cbn; lia|rewrite Hdw; done|by rewrite Hda|done|].
    exists (remote_window (win c)). rewrite Hdw in Hs. split; [|destruct o2 as [c2|]; [|done]].
    + unfold spends in *. rewrite Hdw in Hs. exact Hs.
    + destruct Ho as [-> Hb2]. by rewrite Hdw.
  - bind_inv E E1. injection E as <- <-. apply chan_data_frame in E1 as (H1 & H2 & H3).
    apply op_spends_same; try done; [by rewrite H3|by left].
  - bind_inv E E1. injection E as <- <-. apply rcvd_ieof_frame in E1 as [H1 H2].
    apply op_spends_same; rewrite ?H1, ?H2; try done. by left.
  - bind_inv E E1. destruct a as [t1 c1]. injection E as <- <-.
    apply chan_oclose_inv in E1 as (H1 & H2 & [->| ->]); apply op_spends_same; rewrite ?H1, ?H2; try done;
      [by left|right; by eexists].
  - injection E as <- <-. unfold op_spends, spends. cbn [adj remote_window_adjust win set_win
      set_remote_window remote_window remote_maxpacket ascending] in *. rewrite u32_small by lia.
    eexists. split; [|done]. split; [lia|]. split; [lia|]. done.
  - cbn in E. injection E as <- <-. apply op_spends_same; try done. right. by eexists.
  - bind_inv E E1. injection E as <- <-. apply op_spends_same; try done; by left.
  - bind_inv E E1. destruct a as [[] c1]; [|done]. injection E as <- <-. apply sub_take_inv in E1 as (f & -> & _).
    apply op_spends_same; try done; by left.
Qed.

Lemma adjusts_nonneg ops : Forall (fun op => 0 <= adj op) ops -> 0 <= adjusts ops.
Proof. induction 1 as [|op ops H _ IH]; [done|]. rewrite adjusts_cons. lia. Qed.

Lemma run_spends ops : forall t c t' o,
  Forall (fun op => 0 <= adj op) ops -> tx_ok c -> remote_window (win c) + adjusts ops < 2 ^ 32 ->
  run t c ops = Ok (t', o) ->
  data_bytes t' <= data_bytes t + remote_window (win c) + adjusts ops /\
  (Forall (fun m => data_len m <= remote_maxpacket (win c)) t ->
   Forall (fun m => data_len m <= remote_maxpacket (win c)) t').
Proof.
  induction ops as [|op ops IH]; intros t c t' o Hadj Hok Hsum E; cbn [run] in E.
  { injection E as <- <-. destruct Hok as ([? ?] & _). cbn. split; [lia|done]. }
  apply Forall_cons in Hadj as [Ha Hadj]. rewrite adjusts_cons in *.
  pose proof (adjusts_nonneg ops Hadj). bind_inv E E1. destruct a as [t1 o1].
  destruct (run_op_spends t c op t1 o1 Hok Ha ltac:(lia) E1) as (w' & (S1 & S2 & S0 & _ & S4) & Ho).
  destruct o1 as [c1|]; [|injection E as <- <-; split; [lia|]; intros Hf; by apply S4].
  destruct Ho as (<- & Hmx & Hb). destruct Hok as ([? ?] & ? & ?).
  destruct (IH t1 c1 t' o) as [I1 I2]; try done; [|lia|].
  - split; [lia|]. by rewrite Hmx.
  - split; [lia|]. rewrite <- Hmx. intros Hf. apply I2. rewrite Hmx in *. by apply S4.
Qed.

(** C32: a channel never sends more than it may.  For every run of a new channel,
    the data bytes it has sent are at most the window the peer granted (the
    initial one and the adjustments, as long as their sum fits 32 bits), and no
    single message carries more than the peer's maximum packet size. *)
Theorem window_respected rid rwin rmax ops t o :
  0 <= rwin -> 0 <= rmax -> Forall (fun op => 0 <= adj op) ops -> rwin + adjusts ops < 2 ^ 32 ->
  run [] (new_channel rid rwin rmax 0) ops = Ok (t, o) ->
  data_bytes t <= rwin + adjusts ops /\ Forall (fun m => data_len m <= rmax) t.
Proof.
  intros Hw Hm Hadj Hsum E. pose proof (adjusts_nonneg ops Hadj).
  destruct (run_spends ops [] (new_channel rid rwin rmax 0) t o Hadj) as [H1 H2]; try done.
  - split; [cbn; lia|]. split; [done|apply buffer_init_ok].
  - split; [exact H1|by apply H2].
Qed.

(** ** Our window *)

(** Congruence modulo 2^32, the arithmetic of the counters. *)
Definition eq32 (a b : Z) : Prop := exists k, a = b + 4294967296 * k.

Lemma u32_eq32 x : eq32 (u32 x) x.
Proof. exists (- (x / 4294967296)). unfold u32. rewrite Z.mod_eq by lia. lia. Qed.
Lemma s32_eq32 x : eq32 (s32 x) x.
Proof.
  exists (- ((x + 2147483648) / 4294967296)). unfold s32. rewrite Z.mod_eq by lia. lia.
Qed.
Lemma eq32_refl x : eq32 x x.
Proof. exists 0. lia. Qed.
Lemma eq32_trans a b c : eq32 a b -> eq32 b c -> eq32 a c.
Proof. intros [k ->] [j ->]. exists (k + j). lia. Qed.
Lemma eq32_shift a b a' b' : eq32 a b -> a' - b' = a - b -> eq32 a' b'.
Proof. intros [k ->] H. exists k. lia. Qed.

(** The bytes of the messages in both buffers, without the four bytes that the length of each
    takes there, and the credit under way. *)
Definition queued (w : WriteBuffer.wbuf) : Z :=
  zlen (contents (WriteBuffer.readBuf w)) + zlen (contents (WriteBuffer.writeBuf w))
  - 4 * WriteBuffer.n_msgs_in_the_buffer w
  - WriteBuffer.nWriteConsumed w - WriteBuffer.nReadConsumed w.

(** Both buffers hold the messages that are counted. *)
Definition filled (w : WriteBuffer.wbuf) : Prop :=
  exists r x, holds (WriteBuffer.readBuf w) (WriteBuffer.nReadBufMsgs w) r /\
    holds (WriteBuffer.writeBuf w) (WriteBuffer.nWriteBufMsgs w) x.

Definition queue_keeps (w w' : WriteBuffer.wbuf) : Prop := filled w -> filled w' /\ eq32 (queued w') (queued w).

Lemma queue_keeps_refl w : queue_keeps w w.
Proof. intros H. split; [done|apply eq32_refl]. Qed.

(** Every byte the peer may still send or has sent and not yet got credit for. *)
Definition credit (c : Channel) : Z :=
  local_window (win c) + local_consumed (win c) + zlen (contents (descending c)) + queued (fromChannel c).

Record rx_inv (c : Channel) : Prop := {
  rx_kind : is_sftp c = false;
  rx_asc : buffer_ok (ascending c);
  rx_desc : buffer_ok (descending c);
  rx_queue : filled (fromChannel c);
  rx_credit : eq32 (credit c) WindowDefaultSize
}.

Lemma put_queued w data v f v' : buffer_ok (WriteBuffer.writeBuf w) ->
  WriteBuffer.put w data v = Ok (f, v') -> eq32 (v' + queued f) (v + zlen data + queued w).
Proof.
  intros Hok. unfold WriteBuffer.put. destruct (u32_eq32 (v - WriteBuffer.nWriteConsumed w)) as [k Hk].
  destruct (zlen data =? 0) eqn:E; intros Ep; zbool.
  - injection Ep as <- <-. exists k. unfold queued, WriteBuffer.n_msgs_in_the_buffer. cbn. lia.
  - bind_inv Ep Eb. injection Ep as <- <-. exists k. unfold queued, WriteBuffer.n_msgs_in_the_buffer. cbn.
    apply buffer_put_string_inv in Eb as (_ & -> & _); [|done]. cbn [encode foldr]. rewrite !zlen_app, zlen_put_u32.
    change (zlen []) with 0. lia.
Qed.

Lemma put_filled w data v f v' : filled w -> WriteBuffer.put w data v = Ok (f, v') -> filled f.
Proof.
  intros (r & x & Hr & Hx). unfold WriteBuffer.put. destruct (zlen data =? 0); intros Ep.
  - injection Ep as <- <-. by exists r, x.
  - bind_inv Ep Eb. injection Ep as <- <-. exists r, (x ++ [data]). split; [done|]. by eapply put_string_holds.
Qed.

Lemma take_queued w m f : WriteBuffer.take_msg w = Ok (Some m, f) -> queue_keeps w f.
Proof.
  intros E (r & x & Hr & Hx). destruct (WriteBuffer.take_msg_some _ _ _ Hr E) as (m1 & r1 & ->).
  destruct (WriteBuffer.take_msg_holds _ _ _ Hr) as (w' & E1 & E2 & E3 & E4 & [(Hs & Et & Hh & E5)|(_ & Et & _)]);
    rewrite E in Et; [|done]. injection Et as -> ->. split; [exists r1, x; by rewrite E1, E3|].
  destruct (s32_eq32 (WriteBuffer.nReadConsumed w - zlen m1)) as [k Hk]. exists (-k).
  unfold queued, WriteBuffer.n_msgs_in_the_buffer. rewrite E1, E2, E3, E4, E5, Hk, (holds_contents _ _ _ Hr), (holds_contents _ _ _ Hh).
  cbn [encode foldr]. fold (encode r1). rewrite !zlen_app, zlen_put_u32. lia.
Qed.

Lemma put_eof_queued w f : WriteBuffer.put_eof w = Ok f -> queue_keeps w f.
Proof.
  intros E (r & x & Hr & Hx). unfold WriteBuffer.put_eof in E. bind_inv E Eb. injection E as <-.
  split; [exists r, (x ++ [[]]); split; [done|by eapply put_string_holds]|]. apply buffer_put_string_inv in Eb as (_ & Hc & _); [|apply Hx].
  exists 0. unfold queued, WriteBuffer.n_msgs_in_the_buffer. cbn. rewrite Hc. cbn [encode foldr]. rewrite !zlen_app, zlen_put_u32.
  change (zlen []) with 0. lia.
Qed.

Lemma swap_queued w : queue_keeps w (WriteBuffer.swap w).
Proof.
  intros (r & x & Hr & Hx). split; [by exists x, r|]. exists 0. unfold queued, WriteBuffer.swap, WriteBuffer.n_msgs_in_the_buffer. cbn. lia.
Qed.

(** Changes that leave the receiving side alone. *)
Lemma rx_inv_frame c c' :
  rx_inv c -> is_sftp c' = is_sftp c -> buffer_ok (ascending c') -> descending c' = descending c ->
  local_window (win c') = local_window (win c) -> local_consumed (win c') = local_consumed (win c) ->
  queue_keeps (fromChannel c) (fromChannel c') -> rx_inv c'.
Proof.
  intros [H1 H2 H3 Hq H4] E1 Ha E2 E3 E4 Hk. destruct (Hk Hq) as [Hq' E6]. constructor; try congruence.
  unfold credit in *. rewrite E2, E3, E4. eapply eq32_trans; [|exact H4].
  eapply eq32_shift; [exact E6|]. lia.
Qed.

Lemma rx_data c d c' : rx_inv c -> chan_data c d = Ok c' -> rx_inv c'.
Proof.
  intros Hi E. pose proof Hi as [H1 H2 H3 Hq H4]. unfold chan_data in E.
  destruct (negb _); [by injection E as <-|]. destruct (negb _).
  { injection E as <-. constructor; try done. unfold credit in *. cbn.
    destruct (u32_eq32 (local_window (win c) - zlen d)) as [k Hk].
    destruct (u32_eq32 (local_consumed (win c) + zlen d)) as [j Hj]. rewrite Hk, Hj.
    destruct H4 as [i H4]. exists (i + k + j). lia. }
  destruct (_ >? _); [by injection E as <-|]. unfold put_raw_data in E. bind_inv E E1.
  injection E as <-. apply buffer_append_inv in E1 as [Hok Hc]; [|done]. constructor; try done.
  unfold credit in *. cbn in *. rewrite Hc, zlen_app.
  destruct (u32_eq32 (local_window (win c) - zlen d)) as [k Hk]. rewrite Hk.
  destruct H4 as [i H4]. exists (i + k). lia.
Qed.

Lemma rx_check_window (t : trace) c t' c' :
  rx_inv c -> channel_check_window t c = Ok (t', c') -> rx_inv c'.
Proof.
  intros Hi E. pose proof Hi as [H1 H2 H3 Hq H4].
  apply check_window_inv in E as [[-> ->]|[-> ->]]; [done|]. constructor; try done.
  unfold credit in *. cbn. destruct (u32_eq32 (local_window (win c) + local_consumed (win c))) as [k Hk].
  rewrite Hk. destruct H4 as [i H4]. exists (i + k). lia.
Qed.

Lemma rx_d2s c c' : rx_inv c -> descending2subproc c = Ok c' -> rx_inv c'.
Proof.
  intros [H1 H2 H3 Hq H4] E. unfold descending2subproc in E. rewrite H1 in E.
  apply session_d2s_inv in E as (d & f & v & Hd & Hcd & Hp & ->); [|done]. constructor; try done.
  { by eapply put_filled. }
  apply put_queued in Hp as [k Hp]; [|by destruct Hq as (? & ? & _ & [])]. destruct H4 as [i H4]. exists (i + k).
  unfold credit in *. cbn. rewrite Hcd. change (zlen []) with 0. lia.
Qed.

(** Collecting garbage touches flags and the subsystem only. *)
Lemma garbage_frame (t : trace) c t' c' :
  garbage_collect t c = Ok (t', Some c') ->
  is_sftp c' = is_sftp c /\ win c' = win c /\ ascending c' = ascending c /\
  descending c' = descending c /\ fromChannel c' = fromChannel c.
Proof.
  unfold garbage_collect. intros E. bind_inv E E1. destruct a as [[t1 c1] dead].
  assert (H1 : is_sftp c1 = is_sftp c /\ win c1 = win c /\ ascending c1 = ascending c /\
    descending c1 = descending c /\ fromChannel c1 = fromChannel c).
  { by apply chan_is_dead_inv in E1 as [[[-> ->]|(_ & _ & _ & -> & ->)] _]. }
  destruct dead; cbn [negb] in E; [|by injection E as <- <-].
  bind_inv E E2. destruct a as [[t2 c2] dead]. destruct dead; cbn [negb] in E; [done|].
  injection E as <- <-. apply chan_is_dead_inv in E2 as [[[-> ->]|(_ & _ & _ & -> & ->)] _]; exact H1.
Qed.

Lemma rx_garbage (t : trace) c t' c' : rx_inv c -> garbage_collect t c = Ok (t', Some c') -> rx_inv c'.
Proof.
  intros Hi E. apply garbage_frame in E as (H1 & H2 & H3 & H4 & H5). pose proof (rx_asc _ Hi).
  apply (rx_inv_frame c); rewrite ?H2, ?H3, ?H5; try done. apply queue_keeps_refl.
Qed.

Definition not_open (op : chan_op) : Prop := op <> OpOpen.

Lemma run_op_rx t c op t' o :
  rx_inv c -> not_open op -> run_op t c op = Ok (t', o) ->
  match o with Some c' => rx_inv c' | None => True end.
Proof.
  intros Hi Hop E. pose proof Hi as [H1 H2 H3 Hq H4].
  destruct op; cbn [run_op] in E; try done;
    try (injection E as <- <-; apply (rx_inv_frame c); try done; apply queue_keeps_refl).
  - bind_inv E E1. destruct a as [t1 c1]. injection E as <- <-.
    assert (Hsd : forall t2 c2, send_data t c = Ok (t2, c2) -> rx_inv c2).
    { intros t2 c2 Ed. unfold send_data in Ed. destruct (_ && _) in Ed; [|by injection Ed as <- <-].
      set (n1 := if _ >? remote_window _ then _ else _) in Ed. set (n2 := if n1 >? _ then _ else _) in Ed.
      destruct (n2 >? 0) eqn:En in Ed; [|by injection Ed as <- <-]. cbn in Ed. bind_inv Ed Ec.
      injection Ed as <- <-. zbool. apply buffer_consume_inv in Ec as (_ & Hb & _); [|done|lia].
      apply (rx_inv_frame c); try done. apply queue_keeps_refl. }
    apply output_poll_inv in E1 as [(_ & -> & ->)|(t2 & c2 & Ed & E1)]; [done|].
    apply Hsd in Ed. pose proof (rx_asc _ Ed).
    destruct E1 as [[-> ->]|[_ [[-> ->]|[-> ->]]]]; [done|..]; apply (rx_inv_frame c2); try done; apply queue_keeps_refl.
  - unfold channel_post in E. bind_inv E E1. destruct a as [t1 c1].
    assert (Hc1 : rx_inv c1); [|destruct o as [c2|]; [by eapply rx_garbage|done]].
    destruct (isOpened (flg c)); [|by injection E1 as <- <-]. bind_inv E1 E2. bind_inv E1 E3.
    eapply rx_check_window; [|exact E1]. eapply rx_d2s; [|exact E3].
    apply subproc2ascending_inv in E2 as (b & r & Hb & ->); [|done].
    apply (rx_inv_frame c); try done. apply queue_keeps_refl.
  - bind_inv E E1. destruct a as [[t1 o1] w]. injection E as <- <-. unfold channel_pre in E1.
    bind_inv E1 E2. destruct a as [w1 c1]. bind_inv E1 Ed. bind_inv E1 E3. destruct a0 as [t2 o2]. injection E1 as <- <- <-.
    destruct o2 as [c2|]; [|done]. eapply rx_garbage; [|exact E3].
    apply waits_for_data_inv in E2 as (b & Hb & ->); [|done].
    apply drain_output_inv in Ed as [->|(_ & f & Ef & ->)]; apply (rx_inv_frame c); try done;
      [apply queue_keeps_refl|by apply put_eof_queued].
  - bind_inv E E1. injection E as <- <-. by eapply rx_data.
  - bind_inv E E1. injection E as <- <-. apply rcvd_ieof_inv in E1 as [->|[_ [->|(f & Ef & ->)]]];
      apply (rx_inv_frame c); try done; [apply queue_keeps_refl..|by apply put_eof_queued].
  - bind_inv E E1. destruct a as [t1 c1]. injection E as <- <-. unfold chan_oclose in E1.
    destruct (negb _); [injection E1 as <- <-; apply (rx_inv_frame c); try done; apply queue_keeps_refl|].
    set (c2 := if outputStateIs _ _ then _ else _) in E1.
    assert (Hc2 : rx_inv c2)
      by (unfold c2; destruct (outputStateIs _ _); apply (rx_inv_frame c); try done; apply queue_keeps_refl).
    pose proof (rx_asc _ Hc2). clearbody c2.
    destruct (inputStateIs c2 StOpen);
      [injection E1 as <- <-; apply (rx_inv_frame c2); try done; apply queue_keeps_refl|].
    destruct (inputStateIs c2 StWaitDrain); [|by injection E1 as <- <-].
    bind_inv E1 E2. destruct a as [t3 c3]. injection E1 as <- <-. apply sendEOF_inv in E2 as [-> ->].
    apply (rx_inv_frame c2); try done; apply queue_keeps_refl.
  - bind_inv E E1. injection E as <- <-. apply (rx_inv_frame c); try done. apply queue_keeps_refl.
  - injection E as <- <-. apply (rx_inv_frame c); try done. apply swap_queued.
  - bind_inv E E1. destruct a as [[] c1]; [|done]. injection E as <- <-.
    apply sub_take_inv in E1 as (f & -> & [->|(o & Et & Ho)]); apply (rx_inv_frame c); try done; [apply queue_keeps_refl|].
    destruct (Ho eq_refl) as [m ->]. by eapply take_queued.
Qed.

(** C33: no window credit is lost.  From the moment a session channel is opened,
    in every run of the server loop, the peer and the subsystem thread, the
    window still granted, the bytes consumed but not yet announced, the bytes
    buffered in the channel and those in the queue to the subsystem, with the
    credit under way, always add up to the window size announced at the start
    (in the 32-bit arithmetic of the counters). *)
Theorem receive_window_conserved rid rwin rmax t0 c0 ops t c :
  open ([] : trace) (new_channel rid rwin rmax 0) WindowDefaultSize = Ok (t0, c0) ->
  Forall not_open ops -> run t0 c0 ops = Ok (t, Some c) ->
  eq32 (credit c) WindowDefaultSize.
Proof.
  intros E0 Hops E. cbn in E0. injection E0 as <- <-.
  assert (Hi : rx_inv c); [|by destruct Hi].
  refine (run_inv (fun _ => rx_inv) (fun _ => True) not_open _ ops _ _ t (Some c) _ Hops E).
  { intros ? ? ? ? ? H1 H2 H3. by eapply run_op_rx. }
  constructor; [done|apply buffer_init_ok|apply buffer_init_ok| |by exists 0].
  exists [], []. split; apply holds_init.
Qed.

(** ** The SFTP channel's header credit *)

Definition new_sftp_channel (rid rwin rmax : Z) : Channel :=
  let c := new_channel rid rwin rmax 0 in
  mkChan true (remote_id c) (win c) (flg c) (ascending c) (descending c) (currentInputState c)
    (currentOutputState c) (fromChannel c) (toChannel c) Running.

(** One SFTP message of [n] bytes of payload. *)
Definition sftp_message (n : nat) : list Z := put_u32 (Z.of_nat n) ++ repeat 1 n.

(** The peer sends a message, the server loop hands it over, the subsystem takes
    it and the loop collects the credit. *)
Definition sftp_round (n : nat) : list chan_op :=
  [OpData (sftp_message n); OpPost; OpSubSwap; OpSubTake; OpSubSwap; OpPost].

Lemma get_u32_nonneg p : bytes_ok p -> 0 <= get_u32 p.
Proof.
  intros Hp. unfold get_u32.
  assert (Hb : forall i, 0 <= znth 0 p i).
  { intros i. unfold znth. destruct (nth_in_or_default (Z.to_nat i) p 0) as [Hi| ->]; [|lia].
    by destruct (proj1 (List.Forall_forall _ _) Hp _ Hi). }
  rewrite !Z.lor_nonneg, !Z.shiftl_nonneg. by repeat split.
Qed.

Lemma sftp_d2s_inv c c' :
  is_sftp c = true -> buffer_ok (descending c) -> bytes_ok (contents (descending c)) -> is_complete_packet_in_descending c = true ->
  descending2subproc c = Ok c' ->
  exists n d f v, 0 <= n /\ buffer_ok d /\
    zlen (contents (descending c)) = zlen (contents d) + n + 4 /\
    WriteBuffer.put (fromChannel c) (take (Z.to_nat n) (drop 4 (contents (descending c))))
      (local_consumed (win c)) = Ok (f, v) /\
    c' = set_consumed (set_io (set_bufs c (ascending c) d) f (toChannel c) (subsystem c))
           (if v =? 0 then v else u32 (v + 4)).
Proof.
  intros Hs Hok Hby Hc E. unfold descending2subproc, sftp_descending2subproc in E. rewrite Hs, Hc in E.
  cbn [negb] in E. bind_inv E E1. destruct a as [n d1].
  unfold buffer_get_int, buffer_get_int_ret in E1.
  pose proof (buffer_get_ret_spec (descending c) 4 Hok ltac:(lia)) as Hg.
  destruct (buffer_get_ret (descending c) 4) as [[p b1]|]; [|done]. cbn in E1. injection E1 as <- <-.
  destruct Hg as (Hl & Hp & Hc1 & Hb1 & _). rewrite buffer_ptr_contents in E by done.
  bind_inv E Ep. destruct a as [f v]. bind_inv E E2. injection E as <-.
  assert (Hn : 0 <= get_u32 p) by (subst p; by apply get_u32_nonneg, Forall_take).
  unfold buffer_consume in E2. rewrite buffer_consume_ret_get in E2.
  pose proof (buffer_get_ret_spec b1 (get_u32 p) Hb1 Hn) as Hg.
  destruct (buffer_get_ret b1 (get_u32 p)) as [[q b2]|]; [|done]. injection E2 as <-.
  destruct Hg as (Hl2 & _ & Hc2 & Hb2 & _).
  exists (get_u32 p), b2, f, v. split; [done|]. split; [done|]. split.
  { rewrite Hc2, Hc1. unfold zlen in *. rewrite !length_drop. rewrite Hc1, length_drop in Hl2. lia. }
  rewrite Hc1 in Ep. split; [exact Ep|]. by destruct (v =? 0).
Qed.

(** The credit of the length field of an SFTP message is lost when no other
    credit is there.  Handing a complete message to the subsystem conserves the
    sum [credit] only if some credit is already known at that moment; if not, the
    four bytes of the length field are taken from the window for good. *)
Theorem sftp_header_credit c c' :
  is_sftp c = true -> buffer_ok (descending c) -> bytes_ok (contents (descending c)) ->
  buffer_ok (WriteBuffer.writeBuf (fromChannel c)) ->
  is_complete_packet_in_descending c = true -> descending2subproc c = Ok c' ->
  eq32 (credit c') (credit c -
    if u32 (local_consumed (win c) - WriteBuffer.nWriteConsumed (fromChannel c)) =? 0 then 4 else 0).
Proof.
  intros Hs Hok Hby Hwb Hc E. destruct (sftp_d2s_inv c c' Hs Hok Hby Hc E) as (n & d & f & v & Hn & Hd & Hl & Hp & ->).
  assert (Hv : v = u32 (local_consumed (win c) - WriteBuffer.nWriteConsumed (fromChannel c))).
  { unfold WriteBuffer.put in Hp. destruct (_ =? 0) in Hp; [by injection Hp as _ <-|]. bind_inv Hp Eb. by injection Hp as _ <-. }
  apply put_queued in Hp as [k Hp]; [|done]. destruct (u32_eq32 (v + 4)) as [j Hj].
  assert (Ht : zlen (take (Z.to_nat n) (drop 4 (contents (descending c)))) = n).
  { unfold zlen in *. rewrite length_take, length_drop. lia. }
  rewrite Ht in Hp. rewrite <- Hv. unfold credit.
  cbn [win set_consumed set_win set_local local_window local_consumed descending set_io set_bufs fromChannel].
  destruct (v =? 0); [exists k; lia|]. exists (k + j). lia.
Qed.

(** ** The state machine *)

Definition legal_move (a b : chan_state) : Prop := b = a \/ there_is_transition a b = true.

(** Collecting garbage leaves both states alone. *)
Lemma garbage_states (t : trace) c t' c' :
  garbage_collect t c = Ok (t', Some c') ->
  currentInputState c' = currentInputState c /\ currentOutputState c' = currentOutputState c.
Proof.
  unfold garbage_collect. intros E. bind_inv E E1. destruct a as [[t1 c1] dead].
  assert (H1 : currentInputState c1 = currentInputState c /\ currentOutputState c1 = currentOutputState c)
    by (by apply chan_is_dead_inv in E1 as [[[-> ->]|(_ & _ & _ & -> & ->)] _]).
  destruct dead; cbn [negb] in E; [|by injection E as <- <-].
  bind_inv E E2. destruct a as [[t2 c2] dead]. destruct dead; cbn [negb] in E; [done|].
  injection E as <- <-. apply chan_is_dead_inv in E2 as [[[-> ->]|(_ & _ & _ & -> & ->)] _]; exact H1.
Qed.

Lemma send_data_states (t : trace) c t' c' :
  send_data t c = Ok (t', c') ->
  currentInputState c' = currentInputState c /\ currentOutputState c' = currentOutputState c.
Proof.
  unfold send_data. intros E. destruct (_ && _) in E; [|by injection E as <- <-].
  destruct (_ >? 0) in E; [|by injection E as <- <-]. cbn in E. bind_inv E E1. by injection E as <- <-.
Qed.

Lemma channel_post_states (t : trace) c t' c' :
  channel_post t c = Ok (t', Some c') ->
  currentInputState c' = currentInputState c /\ currentOutputState c' = currentOutputState c.
Proof.
  unfold channel_post. intros E. bind_inv E E1. destruct a as [t1 c1].
  apply garbage_states in E as [-> ->]. destruct (isOpened (flg c)); [|by injection E1 as <- <-].
  bind_inv E1 E2. bind_inv E1 E3.
  assert (H2 : currentInputState a = currentInputState c /\ currentOutputState a = currentOutputState c).
  { unfold subproc2ascending in E2. bind_inv E2 E4. destruct a1 as [[? ?] ?]. by injection E2 as <-. }
  apply d2s_frame in E3 as (d & f & v & ->).
  by apply check_window_inv in E1 as [[-> ->]|[-> ->]].
Qed.

(** C38: The output side obeys [allOutputTrans]: every operation of the server,
    the peer and the subsystem either keeps a channel's output state or takes
    one of the declared transitions. *)
Theorem output_transitions_legal t c op t' c' :
  run_op t c op = Ok (t', Some c') -> legal_move (currentOutputState c) (currentOutputState c').
Proof.
  unfold legal_move. intros E. destruct op; cbn [run_op] in E; try (injection E as <- <-; by left).
  - bind_inv E E1. destruct a as [t1 c1]. injection E as <- <-. left.
    apply output_poll_inv in E1 as [(_ & -> & ->)|(t2 & c2 & Ed & E1)]; [done|].
    apply send_data_states in Ed as [_ <-]. by destruct E1 as [[-> ->]|[_ [[-> ->]|[-> ->]]]].
  - left. by apply channel_post_states in E as [_ ->].
  - bind_inv E E1. destruct a as [[t1 o1] w]. injection E as <- ->. unfold channel_pre in E1.
    bind_inv E1 E2. destruct a as [w1 c1]. bind_inv E1 Ed. bind_inv E1 E3. destruct a0 as [t2 o2]. injection E1 as <- -> <-.
    apply garbage_states in E3 as [_ ->].
    assert (Hc : currentOutputState c1 = currentOutputState c).
    { unfold waits_for_data, check_ascending_chan_rbuf in E2. destruct (_ && _) in E2; [|by injection E2 as _ <-].
      bind_inv E2 E4. destruct a0. by injection E2 as _ <-. }
    apply drain_output_inv in Ed as [->|(Eb & f & _ & ->)]; [by left|]. rewrite <- Hc, Eb. by right.
  - bind_inv E E1. injection E as <- <-. left. unfold chan_data, put_raw_data in E1.
    destruct (negb _); [by injection E1 as <-|]. destruct (negb _); [by injection E1 as <-|].
    destruct (_ >? _); [by injection E1 as <-|]. bind_inv E1 E2. by injection E1 as <-.
  - bind_inv E E1. injection E as <- <-. apply rcvd_ieof_inv in E1 as [->|[-> [->|(f & _ & ->)]]]; [by left|by right|by right].
  - bind_inv E E1. destruct a as [t1 c1]. injection E as <- <-.
    unfold chan_oclose in E1. destruct (negb _).
    { injection E1 as <- <-. cbn. destruct (currentOutputState c); tauto. }
    set (c2 := if outputStateIs _ _ then _ else _) in E1.
    assert (Hc2 : legal_move (currentOutputState c) (currentOutputState c2)).
    { unfold c2, outputStateIs. destruct (bool_decide _) eqn:Eb; [|by left].
      apply bool_decide_eq_true in Eb. cbn in Eb. rewrite Eb. by right. }
    clearbody c2. destruct (inputStateIs c2 StOpen); [by injection E1 as <- <-|].
    destruct (inputStateIs c2 StWaitDrain); [|by injection E1 as <- <-].
    bind_inv E1 E2. destruct a as [t3 c3]. injection E1 as <- <-. by apply sendEOF_inv in E2 as [-> ->].
  - cbn in E. injection E as <- <-. cbn. destruct (currentOutputState c); tauto.
  - bind_inv E E1. injection E as <- <-. by left.
  - bind_inv E E1. destruct a as [[] c1]; [|done]. injection E as <- <-. apply sub_take_inv in E1 as (f & -> & _). by left.
Qed.

(** The states of a session channel after each prefix of a run. *)
Definition states_after (ops : list chan_op) : res (option (chan_state * chan_state)) :=
  '(_, o) ← run [] (new_channel 7 1000 1000 0) ops;
  Ok (option_map (fun c => (currentInputState c, currentOutputState c)) o).

(** The input side does not obey [allInputTrans].  A CLOSE of the peer that
    overtakes data still to be handed to the subsystem closes the input side,
    and when that data is drained the input state moves from closed back to
    waitDrain, which is not a transition of [allInputTrans]; the end of the
    subsystem does the same. *)
Theorem closed_input_reopened :
  states_after [OpOpen; OpData [1]; OpClose; OpPost] = Ok (Some (StClosed, StWaitDrain)) /\
  states_after [OpOpen; OpData [1]; OpClose; OpPost; OpPre] = Ok (Some (StWaitDrain, StClosed)) /\
  states_after [OpOpen; OpData [1]; OpClose; OpTerminated] = Ok (Some (StWaitDrain, StClosed)) /\
  ~ legal_move StClosed StWaitDrain.
Proof.
  split; [by vm_compute|]. split; [by vm_compute|]. split; [by vm_compute|].
  by intros [|].
Qed.

(** ** The repository *)

Definition repository_ok {A} (r : repository A) : Prop := exists r', r = None :: r'.

Lemma get_object_cons {A} (r : list (option A)) (j : Z) :
  get_object_by_id (None :: r) j = if j <? 1 then None else nth (Z.to_nat (j - 1)) r None.
Proof.
  unfold get_object_by_id, znth, zlen. cbn [length]. destruct (j <? 1) eqn:E1; cbn [orb]; [done|]. zbool.
  assert (Hj : Z.to_nat j = S (Z.to_nat (j - 1))) by lia. rewrite Hj. cbn [nth].
  destruct (j >=? _) eqn:E2; [|done]. zbool. symmetry. apply nth_overflow. lia.
Qed.

Lemma first_unused_spec {A} (r : list (option A)) : forall id,
  exists n, first_unused r id = (id + n)%nat /\ (n <= length r)%nat /\ nth n r None = None /\
    forall i, (i < n)%nat -> nth i r None <> None.
Proof.
  induction r as [|[x|] r IH]; intros id; cbn [first_unused].
  - exists 0%nat. repeat split; try done; lia.
  - destruct (IH (S id)) as (n & -> & Hn & Hx & Hl). exists (S n). cbn [length nth].
    repeat split; try done; try lia. intros [|i] Hi; cbn [nth]; [done|]. apply Hl. lia.
  - exists 0%nat. cbn. repeat split; try done; lia.
Qed.

Lemma nth_set_slot {A} (r : list (option A)) n o i :
  (n <= length r)%nat ->
  nth i (if (n <? length r)%nat then <[n := o]> r else r ++ [o]) None =
  if (i =? n)%nat then o else nth i r None.
Proof.
  intros Hn. rewrite !nth_lookup. destruct (n <? length r)%nat eqn:E.
  - apply Nat.ltb_lt in E. destruct (i =? n)%nat eqn:Ei.
    + apply Nat.eqb_eq in Ei as ->. by rewrite list_lookup_insert_eq.
    + apply Nat.eqb_neq in Ei. by rewrite list_lookup_insert_ne.
  - apply Nat.ltb_ge in E. assert (n = length r) as -> by lia. destruct (i =? length r)%nat eqn:Ei.
    + apply Nat.eqb_eq in Ei as ->. by rewrite list_lookup_middle.
    + apply Nat.eqb_neq in Ei. destruct (decide (i < length r)%nat).
      * by rewrite lookup_app_l.
      * rewrite !lookup_ge_None_2 by (rewrite ?length_app; cbn; lia). done.
Qed.

(** The repository is a finite map with the smallest free id.  A new object
    gets the least id from 1 on that no live object has, exactly that id changes;
    deleting succeeds exactly on live objects and frees exactly their id; both
    keep slot 0 unused. *)
Theorem repository_is_map {A} (r : repository A) (mk : Z -> A) :
  repository_ok r ->
  (let '(id, r') := create_object r mk in
   repository_ok r' /\ 1 <= id /\ get_object_by_id r id = None /\
   (forall j, 1 <= j < id -> get_object_by_id r j <> None) /\
   forall j, get_object_by_id r' j = if j =? id then Some (mk id) else get_object_by_id r j) /\
  forall id, match delete_object_by_id r id with
    | Some r' => get_object_by_id r id <> None /\ repository_ok r' /\
        forall j, get_object_by_id r' j = if j =? id then None else get_object_by_id r j
    | None => get_object_by_id r id = None
    end.
Proof.
  intros [q ->]. split.
  - unfold create_object, get_first_unused_object_id. cbn [tail].
    destruct (first_unused_spec q 1) as (n & -> & Hn & Hx & Hl). cbn [Nat.add].
    assert (Hs : forall o, set_slot (None :: q) (S n) o =
      None :: (if (n <? length q)%nat then <[n := o]> q else q ++ [o])).
    { intros o. unfold set_slot. cbn [length]. change (S n <? S (length q))%nat with (n <? length q)%nat.
      by destruct (n <? length q)%nat. }
    rewrite Hs. split; [by eexists|]. split; [lia|]. split; [|split].
    + rewrite get_object_cons. destruct (_ <? 1); [done|].
      by replace (Z.to_nat (Z.of_nat (S n) - 1)) with n by lia.
    + intros j Hj. rewrite get_object_cons. destruct (j <? 1) eqn:E; zbool; [lia|]. apply Hl. lia.
    + intros j. rewrite !get_object_cons. rewrite nth_set_slot by done.
      destruct (Z.ltb_spec j 1), (Z.eqb_spec j (Z.of_nat (S n))), (Nat.eqb_spec (Z.to_nat (j - 1)) n);
        try done; lia.
  - intros id. unfold delete_object_by_id, znth, zlen. cbn [length]. rewrite get_object_cons.
    destruct ((id <? 0) || _) eqn:E0.
    { destruct (id <? 1) eqn:E1; [done|]. apply orb_true_iff in E0 as [E0|E0]; zbool; [lia|].
      apply nth_overflow. lia. }
    destruct (id <? 1) eqn:E1; zbool; [by replace (Z.to_nat id) with 0%nat by lia|].
    assert (Hid : Z.to_nat id = S (Z.to_nat (id - 1))) by lia. rewrite Hid. cbn [nth].
    destruct (nth (Z.to_nat (id - 1)) q None) as [x|] eqn:Ex; [|done].
    split; [done|]. split; [by eexists|]. intros j.
    change (<[S (Z.to_nat (id - 1)) := None]> (None :: q)) with (None :: <[Z.to_nat (id - 1) := None]> q).
    rewrite !get_object_cons.
    pose proof (nth_set_slot q (Z.to_nat (id - 1)) None (Z.to_nat (j - 1)) ltac:(lia)) as Hn.
    destruct (Nat.ltb_spec (Z.to_nat (id - 1)) (length q)) in Hn; [|lia]. rewrite Hn.
    destruct (Z.ltb_spec j 1), (Z.eqb_spec j id), (Nat.eqb_spec (Z.to_nat (j - 1)) (Z.to_nat (id - 1)));
      try done; lia.
Qed.

(** ** Concrete runs *)

(** The subsystem writes three bytes, the peer grants two more bytes and both
    sides close. *)
Definition session_run : list chan_op :=
  [OpOpen; OpSubPut [10; 11; 12]; OpPost; OpPoll; OpAdjust 2; OpPoll; OpEof; OpSubEnd; OpPoll;
   OpPre; OpClose; OpTerminated; OpPoll; OpPost].

Definition result_of (r : res (trace * option Channel)) : option (trace * bool) :=
  match r with Ok (t, Some _) => Some (t, true) | Ok (t, None) => Some (t, false) | _ => None end.

(** With a window of two bytes the data goes out in two messages. *)
Definition session_trace : trace :=
  [(93, [FInt 7; FInt 2097152]); (94, [FInt 7; FString [10; 11]]); (94, [FInt 7; FString [12]]);
   (96, [FInt 7]); (98, [FInt 7; FString (str "exit-status"); FChar 0; FInt 0]); (97, [FInt 7])].

Lemma session_run_result :
  result_of (run [] (new_channel 7 2 1000 0) session_run) = Some (session_trace, false).
Proof. vm_compute. reflexivity. Qed.

Lemma session_run_ok : run [] (new_channel 7 2 1000 0) session_run = Ok (session_trace, None).
Proof.
  pose proof session_run_result as H.
  destruct (run [] (new_channel 7 2 1000 0) session_run) as [[t [c|]]| |]; try discriminate H.
  by injection H as ->.
Qed.

Lemma close_sent_once_witness : 0 <= closes session_trace <= 1 /\ closes session_trace = 1.
Proof.
  destruct (close_sent_once 7 2 1000 session_run session_trace None session_run_ok) as [H1 H2].
  split; [exact H1|exact (H2 eq_refl)].
Defined.

Lemma window_respected_witness : data_bytes session_trace <= 2 + adjusts session_run.
Proof.
  refine (proj1 (window_respected 7 2 1000 session_run session_trace None _ _ _ _ session_run_ok)).
  - lia.
  - lia.
  - repeat constructor; vm_compute; discriminate.
  - reflexivity.
Defined.

Definition receive_run : list chan_op :=
  [OpData [1; 2; 3]; OpPost; OpSubSwap; OpSubTake; OpSubSwap; OpPost; OpData [4]].

Definition live (r : res (trace * option Channel)) : bool :=
  match r with Ok (_, Some _) => true | _ => false end.

Definition opened : Channel :=
  match open ([] : trace) (new_channel 7 2 1000 0) WindowDefaultSize with
  | Ok (_, c) => c
  | _ => new_channel 7 2 1000 0
  end.

Lemma receive_run_live :
  live (run [(93, [FInt 7; FInt WindowDefaultSize])] opened receive_run) = true.
Proof. vm_compute. reflexivity. Qed.

Lemma receive_window_conserved_witness :
  exists t c, run [(93, [FInt 7; FInt WindowDefaultSize])] opened receive_run = Ok (t, Some c) /\
    eq32 (credit c) WindowDefaultSize.
Proof.
  pose proof receive_run_live as H.
  destruct (run [(93, [FInt 7; FInt WindowDefaultSize])] opened receive_run) as [[t [c|]]| |] eqn:E;
    [|discriminate H|discriminate H|discriminate H].
  exists t, c. split; [reflexivity|].
  apply (receive_window_conserved 7 2 1000 [(93, [FInt 7; FInt WindowDefaultSize])] opened receive_run t c).
  - reflexivity.
  - repeat constructor; discriminate.
  - exact E.
Defined.

(** An SFTP channel that has received one message and knows of no credit. *)
Lemma sftp_received :
  exists c c', is_sftp c = true /\ buffer_ok (descending c) /\ bytes_ok (contents (descending c)) /\
    buffer_ok (WriteBuffer.writeBuf (fromChannel c)) /\
    is_complete_packet_in_descending c = true /\ descending2subproc c = Ok c' /\
    local_consumed (win c) = 0 /\ WriteBuffer.nWriteConsumed (fromChannel c) = 0.
Proof.
  assert (Ht : match put_raw_data (new_sftp_channel 7 1000 1000) (sftp_message 10) with
    | Ok c => is_complete_packet_in_descending c &&
        match descending2subproc c with Ok _ => true | _ => false end | _ => false end = true)
    by (vm_compute; reflexivity).
  unfold put_raw_data in Ht.
  destruct (buffer_append (descending (new_sftp_channel 7 1000 1000)) (sftp_message 10)) as [d| |] eqn:Ed;
    [|discriminate Ht|discriminate Ht].
  cbn [mbind res_bind] in Ht. apply andb_true_iff in Ht as [Hc Hd].
  exists (set_bufs (new_sftp_channel 7 1000 1000) (ascending (new_sftp_channel 7 1000 1000)) d).
  destruct (descending2subproc _) as [c'| |]; [|discriminate Hd|discriminate Hd]. exists c'.
  apply buffer_append_inv in Ed as [Hok Hcd]; [|apply buffer_init_ok].
  split; [done|]. split; [exact Hok|]. split; [|split; [apply buffer_init_ok|done]]. cbn [descending set_bufs]. rewrite Hcd.
  change (contents (descending (new_sftp_channel 7 1000 1000))) with (@nil Z).
  repeat constructor; vm_compute; discriminate.
Qed.

Lemma sftp_header_credit_witness :
  exists c c', descending2subproc c = Ok c' /\ eq32 (credit c') (credit c - 4).
Proof.
  destruct sftp_received as (c & c' & H1 & H2 & H3 & Hb & H4 & H5 & H6 & H7). exists c, c'. split; [exact H5|].
  pose proof (sftp_header_credit c c' H1 H2 H3 Hb H4 H5) as H. rewrite H6, H7 in H. exact H.
Defined.

Lemma output_transitions_legal_witness :
  exists c', rcvd_ieof opened = Ok c' /\ legal_move (currentOutputState opened) (currentOutputState c').
Proof.
  assert (match rcvd_ieof opened with Ok _ => true | _ => false end = true) as H by (vm_compute; reflexivity).
  destruct (rcvd_ieof opened) as [c'| |] eqn:E; [|discriminate H|discriminate H]. exists c'. split; [reflexivity|].
  apply (output_transitions_legal [] opened OpEof [] c'). cbn [run_op]. rewrite E. reflexivity.
Defined.

Lemma repository_is_map_witness :
  get_object_by_id (snd (create_object [None; Some 5; None; Some 6] (fun id => id * 10))) 2 = Some 20 /\
  get_object_by_id (snd (create_object [None; Some 5; None; Some 6] (fun id => id * 10))) 3 = Some 6.
Proof.
  destruct (repository_is_map [None; Some 5; None; Some 6] (fun id => id * 10)) as [H _].
  - exists [Some 5; None; Some 6]. reflexivity.
  - pose proof (proj2 (proj2 (proj2 (proj2 H)))) as Hg. split; [exact (Hg 2)|exact (Hg 3)].
Defined.
