(* ===== verification/SshDispatch.v ===== *)
(** * SshDispatch: message dispatch

    [Dispatcher] (shiesh/Dispatcher.cpp): the table of handlers by message type and
    the loop that reads packets and calls them.  The class [Connection] is what the
    handlers use of a connection; its instances are a script of messages, here, and
    the packet layer on a socket, in [SshSocket].

    A handler changes the state of the connection's object and may end the thread by
    an exception ([CxxMonad.SE]); log lines are left out. *)

From S2P Require Import Prelude SshBuffer CxxMonad SshPacket.

(** ** The interface to the connection *)

Class Connection (K : Type) := {
  (** the packet being read *)
  incoming : K -> Buffer;
  set_incoming : Buffer -> K -> K;
  (** [datafellows] *)
  peer_flags : K -> Z;
  (** [pd_disconnecting] *)
  disconnecting : K -> bool;
  set_disconnecting : K -> K;
  (** [packet_start (type)], a [packet_put_*] for each field, [packet_send] *)
  con_send : Z -> list field -> SE K unit;
  (** [packet_write_wait] *)
  con_write_wait : SE K unit;
  (** [packet_read_seqnr] and [packet_read_poll_seqnr]: type and sequence number *)
  con_read : SE K (Z * Z);
  con_poll : SE K (Z * Z)
}.

Definition SSH2_DISCONNECT_PROTOCOL_ERROR : Z := 2.
Definition SSH2_MSG_SERVICE_REQUEST : Z := 5.
Definition SSH2_MSG_SERVICE_ACCEPT : Z := 6.
Definition SSH2_MSG_USERAUTH_REQUEST : Z := 50.
Definition SSH2_MSG_USERAUTH_FAILURE : Z := 51.
Definition SSH2_MSG_USERAUTH_BANNER : Z := 53.

Section Packets.
Context {K : Type} `{!Connection K}.

Definition reading {A} (m : SE Buffer A) : SE K A := zoom incoming set_incoming m.

Definition get_char_field : SE K Z := reading get_char.
Definition get_string_field : SE K (list Z) := reading get_string.

(** What [vsnprintf] leaves in a buffer of 1024 bytes. *)
Definition formatted (text : list Z) : list Z := take 1023 text.

(** [packet_disconnect]: it never returns, and a second call is [fatal]. *)
Definition disconnect {A} (text : list Z) : SE K A :=
  d ← gets disconnecting;
  if d : bool then throw ShuttingDown
  else
    modify set_disconnecting;;
    con_send SSH2_MSG_DISCONNECT
      [FInt SSH2_DISCONNECT_PROTOCOL_ERROR; FString (formatted text); FString []];;
    con_write_wait;;
    throw ShuttingDown.

(** The macro [packet_check_eom]. *)
Definition packet_check_eom : SE K unit :=
  b ← gets incoming;
  if buffer_len b >? 0 then disconnect (str "Packet integrity error.") else mret tt.

End Packets.

(** ** The table *)

(** The virtual functions of [Dispatcher]. *)
Inductive dispatch_fn :=
| kexinit_msg | service_request_msg | userauth_request_msg
| channel_close_msg | channel_data_msg | channel_eof_msg | channel_extended_data_msg
| channel_open_msg | channel_open_confirmation_msg | channel_open_failure_msg
| channel_request_msg | channel_window_adjust_msg | global_request_msg
| channel_success_msg | channel_failure_msg | request_success_msg | request_failure_msg
| ignored_msg | unexpected_msg.

#[global] Instance dispatch_fn_eq_dec : EqDecision dispatch_fn.
Proof. solve_decision. Defined.

Definition DISPATCH_MAX : Z := 255.

(** The constructor of [Dispatcher]. *)
Definition dispatch_init : list dispatch_fn := replicate (Z.to_nat DISPATCH_MAX) unexpected_msg.

Definition dispatch_set (type : Z) (f : dispatch_fn) (t : list dispatch_fn) : list dispatch_fn :=
  <[Z.to_nat type := f]> t.

Definition dispatch_get (t : list dispatch_fn) (type : Z) : dispatch_fn :=
  if (type >? 0) && (type <? DISPATCH_MAX) then znth unexpected_msg t type else unexpected_msg.

Lemma dispatch_set_length type f t : length (dispatch_set type f t) = length t.
Proof. apply length_insert. Qed.

Lemma dispatch_get_init type : dispatch_get dispatch_init type = unexpected_msg.
Proof.
  unfold dispatch_get, znth. destruct (_ && _) eqn:E; [|done]. rewrite nth_lookup. unfold dispatch_init.
  destruct (replicate _ _ !! _) eqn:El; [|done]. by apply lookup_replicate_1 in El as [-> _].
Qed.

Lemma dispatch_get_set type0 f t type : length t = Z.to_nat DISPATCH_MAX ->
  0 < type0 < DISPATCH_MAX ->
  dispatch_get (dispatch_set type0 f t) type = if type =? type0 then f else dispatch_get t type.
Proof.
  intros Hl H0. unfold dispatch_get, znth. rewrite !nth_lookup. unfold dispatch_set.
  destruct (type =? type0) eqn:E; zbool.
  - subst type0. rewrite (proj2 (andb_true_iff _ _)) by (split; lia).
    by rewrite list_lookup_insert_eq by lia.
  - destruct (_ && _) eqn:Er; [|done]. zbool. by rewrite list_lookup_insert_ne by lia.
Qed.

Inductive dispatch_mode := DISPATCH_BLOCK | DISPATCH_NONBLOCK.

#[global] Instance dispatch_mode_eq_dec : EqDecision dispatch_mode.
Proof. solve_decision. Defined.

(** ** The loop *)

Section Run.
Context {S K : Type} `{!Connection K}.
(** Where the state of the thread has its connection and its table, the overrides of
    the virtual functions, and the flag [done] (never set where it is NULL). *)
Variables (get : S -> K) (set : K -> S -> S) (dispatch : S -> list dispatch_fn)
  (virt : dispatch_fn -> Z -> Z -> SE S unit) (done : S -> bool).

Definition dispatch_one (type seqnr : Z) : SE S unit :=
  t ← gets dispatch;
  virt (dispatch_get t type) type seqnr.

Definition read_next (mode : dispatch_mode) : SE S (Z * Z) :=
  zoom get set match mode with DISPATCH_BLOCK => con_read | DISPATCH_NONBLOCK => con_poll end.

(** Every turn takes a packet from the connection, which bounds the fuel. *)
Fixpoint dispatch_run (fuel : nat) (mode : dispatch_mode) : SE S unit :=
  match fuel with
  | O => throw Diverges
  | Datatypes.S fuel =>
      '(type, seqnr) ← read_next mode;
      match mode with
      | DISPATCH_NONBLOCK =>
          if type =? SSH_MSG_NONE then mret tt
          else
            dispatch_one type seqnr;;
            d ← gets done;
            if d : bool then mret tt else dispatch_run fuel mode
      | DISPATCH_BLOCK =>
          dispatch_one type seqnr;;
          d ← gets done;
          if d : bool then mret tt else dispatch_run fuel mode
      end
  end.

(** The rule of the loop: [I] holds at its head, [R] behind a packet that was read, and
    [Q] when it ends; [left_] counts the packets that are left, so that enough fuel
    never runs out. *)
Lemma dispatch_run_inv (I Q : S -> Prop) (R : Z * Z -> S -> Prop) (E : exn -> S -> Prop)
    (left_ : S -> nat) mode :
  (forall s, I s -> wp (read_next mode) (fun p s' =>
     if bool_decide (mode = DISPATCH_NONBLOCK /\ p.1 = SSH_MSG_NONE) then Q s'
     else R p s' /\ (left_ s' < left_ s)%nat) E s) ->
  (forall s p, R p s -> wp (dispatch_one p.1 p.2) (fun _ s' =>
     if done s' then Q s' else I s' /\ (left_ s' <= left_ s)%nat) E s) ->
  forall fuel s, I s -> (left_ s < fuel)%nat -> wp (dispatch_run fuel mode) (fun _ => Q) E s.
Proof.
  intros Hread Hone fuel. induction fuel as [|fuel IH]; intros s Hs Hf; [lia|].
  assert (Htail : forall p s1, R p s1 -> (left_ s1 < left_ s)%nat ->
    wp (dispatch_one p.1 p.2;; d ← gets done; if d : bool then mret tt else dispatch_run fuel mode)
      (fun _ => Q) E s1).
  { intros p s1 H1 Hl. apply wp_bind. eapply wp_mono; [by apply Hone| |done].
    intros [] s2 H2. apply wp_bind, wp_gets. destruct (done s2) eqn:Ed; [by apply wp_ret|].
    destruct H2. apply IH; [done|lia]. }
  cbn [dispatch_run]. apply wp_bind. eapply wp_mono; [by apply Hread| |done].
  intros [type seqnr] s1 H1. cbn [fst] in H1. destruct mode.
  - rewrite bool_decide_false in H1 by naive_solver. destruct H1. by apply (Htail (type, seqnr)).
  - destruct (type =? SSH_MSG_NONE) eqn:Et; zbool.
    + rewrite bool_decide_true in H1 by done. by apply wp_ret.
    + rewrite bool_decide_false in H1 by naive_solver. destruct H1. by apply (Htail (type, seqnr)).
Qed.

End Run.

(** [protocol_error] *)
Definition protocol_error {K} `{!Connection K} (seq : Z) : SE K unit :=
  con_send SSH2_MSG_UNIMPLEMENTED [FInt seq];; con_write_wait.

(** ** A script of messages *)

(** The peer's messages with their sequence numbers, and the messages sent. *)
Record script := mkScript {
  inbox : list (Z * Z * list Z);
  sent : list (Z * list field);
  current : Buffer;
  flags_of_peer : Z;
  closing : bool
}.

(** A buffer that holds the payload. *)
Definition packet_buffer (payload : list Z) : Buffer :=
  mkBuffer (payload ++ [0]) (zlen payload + 1) 0 (zlen payload).

Lemma packet_buffer_ok payload : zlen payload <= 256 * 1024 ->
  buffer_ok (packet_buffer payload) /\ contents (packet_buffer payload) = payload.
Proof.
  intros Hl. pose proof (zlen_nonneg payload). split.
  - split; cbn; [rewrite zlen_app; unfold zlen; cbn; lia|lia|lia|unfold BUFFER_MAX_LEN; lia].
  - unfold contents, packet_buffer, slice. cbn. rewrite Z.sub_0_r, drop_0. unfold zlen.
    by rewrite Nat2Z.id, take_app_length.
Qed.

Definition script_read (none : exc (Z * Z)) : SE script (Z * Z) := fun k =>
  match inbox k with
  | [] => (none, k)
  | (type, seq, payload) :: rest =>
      (Ret (type, seq), mkScript rest (sent k) (packet_buffer payload) (flags_of_peer k) (closing k))
  end.

#[global] Instance script_connection : Connection script := {
  incoming := current;
  set_incoming b k := mkScript (inbox k) (sent k) b (flags_of_peer k) (closing k);
  peer_flags := flags_of_peer;
  disconnecting := closing;
  set_disconnecting k := mkScript (inbox k) (sent k) (current k) (flags_of_peer k) true;
  con_send type fs k :=
    (Ret tt, mkScript (inbox k) (sent k ++ [(type, fs)]) (current k) (flags_of_peer k) (closing k));
  con_write_wait := mret tt;
  con_read := script_read (Throw ShuttingDown);
  con_poll := script_read (Ret (SSH_MSG_NONE, 0))
}.

Definition script_start (msgs : list (Z * Z * list Z)) (flags : Z) : script :=
  mkScript msgs [] buffer_init flags false.
