(* ===== verification/SshAuth.v ===== *)
(** * SshAuth: user authentication

    shiesh/auth2.cpp, auth2-none.cpp, auth2-passwd.cpp, auth-passwd.cpp, User.cpp and
    AuthDispatcher.cpp: the messages of RFC 4252 with the methods the server has
    (none, password), on any [Connection].

    The table of users is what the database answers to each statement of the session
    ([UserDb]); it may change between two statements.  A comparison of SQL is equality
    of strings.  [sys_auth_passwd] has no return statement behind a correct password:
    what it gives there is a parameter ([NoReturn]). *)

From S2P Require Import Prelude SshBuffer CxxMonad SshPacket SshDispatch.

(** ** Data (auth.h, User.h) *)

Record User := mkUser { userName : list Z; homeDir : list Z }.

(** A [char *] that may be NULL is an option. *)
Record Authctxt := mkCtxt {
  success : bool;
  postponed : Z;
  valid : Z;
  attempt : Z;
  failures : Z;
  server_caused_failure : Z;
  user : option (list Z);
  service : option (list Z);
  pw : option User;
  style : option (list Z);
  role : option (list Z)
}.

(** The constructor, which clears every field. *)
Definition authctxt_init : Authctxt := mkCtxt false 0 0 0 0 0 None None None None None.

Inductive authmethod_fn := userauth_none_fn | userauth_passwd_fn.

(** ** The world *)

Record user_row := mkRow { r_login : list Z; r_password : list Z; r_pwd : option (list Z) }.

(** The table [users] at the n-th statement; [None] when the library throws. *)
Class UserDb := { users_at : nat -> option (list user_row) }.

(** The value of [sys_auth_passwd] when control falls off its end, at the statement
    of that number. *)
Class NoReturn := { no_return : nat -> Z }.

(** [Options::get_max_login_attempts] *)
Definition get_max_login_attempts : Z := 5.
Definition SSH_BUG_BANNER : Z := 0x80.

Section Auth.
Context {K : Type} `{!Connection K} `{!UserDb} `{!NoReturn}.

Record session := mkSession {
  con : K;
  ctxt : Authctxt;
  none_auth_method_enabled : Z;
  password_authentication : Z;
  authDispatch : list dispatch_fn;
  queries : nat
}.

Definition M (A : Type) : Type := SE session A.

Definition set_con (k : K) (s : session) : session :=
  mkSession k (ctxt s) (none_auth_method_enabled s) (password_authentication s) (authDispatch s)
    (queries s).
Definition set_ctxt (c : Authctxt) (s : session) : session :=
  mkSession (con s) c (none_auth_method_enabled s) (password_authentication s) (authDispatch s)
    (queries s).
Definition set_none_enabled (v : Z) (s : session) : session :=
  mkSession (con s) (ctxt s) v (password_authentication s) (authDispatch s) (queries s).
Definition set_table (t : list dispatch_fn) (s : session) : session :=
  mkSession (con s) (ctxt s) (none_auth_method_enabled s) (password_authentication s) t (queries s).
Definition next_query (s : session) : session :=
  mkSession (con s) (ctxt s) (none_auth_method_enabled s) (password_authentication s)
    (authDispatch s) (S (queries s)).

Definition on_con {A} (m : SE K A) : M A := zoom con set_con m.

(** *** Updates of the context *)

Definition set_success (c : Authctxt) : Authctxt :=
  mkCtxt true (postponed c) (valid c) (attempt c) (failures c) (server_caused_failure c) (user c)
    (service c) (pw c) (style c) (role c).
Definition reset_state (c : Authctxt) : Authctxt :=
  mkCtxt (success c) 0 (valid c) (attempt c) (failures c) 0 (user c) (service c) (pw c) (style c)
    (role c).
Definition count_attempt (c : Authctxt) : Authctxt :=
  mkCtxt (success c) (postponed c) (valid c) (attempt c + 1) (failures c) (server_caused_failure c)
    (user c) (service c) (pw c) (style c) (role c).
Definition count_failure (c : Authctxt) : Authctxt :=
  mkCtxt (success c) (postponed c) (valid c) (attempt c) (failures c + 1) (server_caused_failure c)
    (user c) (service c) (pw c) (style c) (role c).
(** The assignments of the first attempt. *)
Definition set_up (p : option User) (v : Z) (u sv : list Z) (st ro : option (list Z)) (c : Authctxt) :
    Authctxt :=
  mkCtxt (success c) (postponed c) v (attempt c) (failures c) (server_caused_failure c) (Some u)
    (Some sv) p st ro.

(** ** The database (User.cpp) *)

(** One statement: the first row the condition selects. *)
Definition select (cond : user_row -> bool) : M (option user_row) :=
  n ← gets queries;
  modify next_query;;
  match users_at n with
  | None => throw soci_error
  | Some users => mret (snd <$> list_find (fun r => cond r = true) users)
  end.

(** NULL leaves the string as it was made, empty. *)
Definition pwd_of (r : user_row) : list Z := default [] (r_pwd r).

Definition is_soci (e : exn) : bool := match e with soci_error => true | _ => false end.

Definition find_allowed (u : list Z) : M (option User) :=
  try_catch is_soci
    (o ← select (fun r => bool_decide (r_login r = u));
     mret (r ← o;
           Some (mkUser (r_login r)
                   (if bool_decide (pwd_of r = []) then str "c:\" else pwd_of r))))
    (mret None).

Definition auth_passwd (login passwd : list Z) : M (option User) :=
  o ← select (fun r => bool_decide (r_login r = login) && bool_decide (r_password r = passwd));
  mret (r ← o; Some (mkUser [] (pwd_of r))).

(** ** Passwords (auth-passwd.cpp) *)

Definition sys_auth_passwd (password : list Z) : M Z :=
  c ← gets ctxt;
  u ← auth_passwd (default [] (user c)) password;
  match u with
  | None => mret 0
  | Some _ => gets (fun s => no_return (queries s))
  end.

(** [result && ok] *)
Definition auth_password (password : list Z) : M Z :=
  c ← gets ctxt;
  let ok := valid c in
  match password with
  | [] => mret 0
  | _ =>
      result ← sys_auth_passwd password;
      mret (c_bool (negb (result =? 0) && negb (ok =? 0)))
  end.

(** ** The methods *)

Definition userauth_none : M Z :=
  modify (set_none_enabled 0);;
  on_con packet_check_eom;;
  mret 0.

Definition userauth_passwd : M Z :=
  change ← on_con get_char_field;
  password ← on_con get_string_field;
  (if negb (change =? 0) then on_con get_string_field else mret []);;
  on_con packet_check_eom;;
  if negb (change =? 0) then mret 0
  else
    r ← auth_password (c_str password);
    mret (if r =? 1 then 1 else 0).

Record Authmethod := mkMethod {
  m_name : list Z;
  m_userauth : authmethod_fn;
  m_enabled : session -> Z
}.

(** The table the constructor of [CoreConnection] makes. *)
Definition authmethods : list Authmethod :=
  [mkMethod (str "none") userauth_none_fn none_auth_method_enabled;
   mkMethod (str "password") userauth_passwd_fn password_authentication].

Definition call_method (f : authmethod_fn) : M Z :=
  match f with
  | userauth_none_fn => userauth_none
  | userauth_passwd_fn => userauth_passwd
  end.

Fixpoint lookup_method (name : list Z) (ms : list Authmethod) (s : session) : option Authmethod :=
  match ms with
  | [] => None
  | m :: ms =>
      if negb (m_enabled m s =? 0) && bool_decide (name = m_name m) then Some m
      else lookup_method name ms s
  end.

Definition authmethod_lookup (name : list Z) : M (option Authmethod) :=
  gets (lookup_method name authmethods).

Fixpoint list_methods (ms : list Authmethod) (s : session) (b : Buffer) : res Buffer :=
  match ms with
  | [] => Ok b
  | m :: ms =>
      if bool_decide (m_name m = str "none") then list_methods ms s b
      else if negb (m_enabled m s =? 0) then
        b ← (if buffer_len b >? 0 then buffer_append b (str ",") else Ok b);
        b ← buffer_append b (m_name m);
        list_methods ms s b
      else list_methods ms s b
  end.

Definition authmethods_get : M (list Z) :=
  s ← gets id;
  b ← lift_res (b ← list_methods authmethods s buffer_init; buffer_append b [0]);
  mret (c_str (buffer_ptr b)).

(** ** Dispatch (AuthDispatcher.cpp) *)

Definition auth_table : list dispatch_fn :=
  dispatch_set SSH2_MSG_SERVICE_REQUEST service_request_msg dispatch_init.

Definition enable_userauth_request_msg : M unit :=
  modify (fun s => set_table
    (dispatch_set SSH2_MSG_USERAUTH_REQUEST userauth_request_msg (authDispatch s)) s).

Definition disable_userauth_request_msg : M unit :=
  modify (fun s => set_table
    (dispatch_set SSH2_MSG_USERAUTH_REQUEST ignored_msg (authDispatch s)) s).

(** ** The messages (auth2.cpp) *)

Definition input_service_request : M unit :=
  service ← on_con get_string_field;
  on_con packet_check_eom;;
  let service := c_str service in
  c ← gets ctxt;
  acceptit ← (if bool_decide (service = str "ssh-userauth") && negb (success c)
              then enable_userauth_request_msg;; mret true else mret false);
  if acceptit : bool then
    on_con (con_send SSH2_MSG_SERVICE_ACCEPT [FString service]);;
    on_con con_write_wait
  else on_con (disconnect (str "bad service request " ++ service)).

Definition userauth_send_banner (msg : list Z) : M unit :=
  k ← gets con;
  if negb (Z.land (peer_flags k) SSH_BUG_BANNER =? 0) then mret tt
  else on_con (con_send SSH2_MSG_USERAUTH_BANNER [FString msg; FString []]).

(** The bytes of a literal with its newlines. *)
Definition userauth_banner : M unit := userauth_send_banner (str "ShieSSH" ++ [10; 10]).

(** [strchr (s, c)] with the NUL written over the character: the part before it, and
    the part behind it. *)
Fixpoint cut_at (c : Z) (s : list Z) : list Z * option (list Z) :=
  match s with
  | [] => ([], None)
  | x :: s => if x =? c then ([], Some s) else let '(a, b) := cut_at c s in (x :: a, b)
  end.

Definition split_user (u : list Z) : list Z * option (list Z) * option (list Z) :=
  let '(u, role) := cut_at 47 u in                  (* '/' *)
  match cut_at 58 u with                            (* ':' *)
  | (u, Some style) => (u, Some style, role)
  | (u, None) =>
      match role with
      | None => (u, None, None)
      | Some r => let '(r, style) := cut_at 58 r in (u, style, Some r)
      end
  end.

Definition AUTH_FAIL_MSG (user : list Z) : list Z :=
  str "Too many authentication failures for " ++ take 100 user.

Definition userauth_finish (authenticated : Z) (method : list Z) : M unit :=
  c ← gets ctxt;
  if (valid c =? 0) && negb (authenticated =? 0) then throw ShuttingDown
  else if negb (postponed c =? 0) then mret tt
  else if authenticated =? 1 then
    disable_userauth_request_msg;;
    on_con (con_send SSH2_MSG_USERAUTH_SUCCESS []);;
    on_con con_write_wait;;
    modify (fun s => set_ctxt (set_success (ctxt s)) s)
  else
    (if (server_caused_failure c =? 0) &&
        ((attempt c >? 1) || negb (bool_decide (method = str "none")))
     then modify (fun s => set_ctxt (count_failure (ctxt s)) s) else mret tt);;
    c ← gets ctxt;
    (if failures c >=? get_max_login_attempts
     then on_con (disconnect (AUTH_FAIL_MSG (default [] (user c)))) else mret tt);;
    methods ← authmethods_get;
    on_con (con_send SSH2_MSG_USERAUTH_FAILURE [FString methods; FChar 0]);;
    on_con con_write_wait.

Definition change_msg (u0 s0 u s : list Z) : list Z :=
  str "Change of username or service not allowed: (" ++ u0 ++ str "," ++ s0 ++ str ") -> (" ++
  u ++ str "," ++ s ++ str ")".

(** [if (authctxt->attempt++ == 0) ... else ...] *)
Definition first_or_same (u sv : list Z) (st ro : option (list Z)) : M unit :=
  c ← gets ctxt;
  modify (fun s => set_ctxt (count_attempt (ctxt s)) s);;
  if attempt c =? 0 then
    p ← find_allowed u;
    let v := if bool_decide (is_Some p) && bool_decide (sv = str "ssh-connection") then 1
             else valid c in
    modify (fun s => set_ctxt (set_up p v u sv st ro (ctxt s)) s);;
    userauth_banner
  else if negb (bool_decide (Some u = user c)) || negb (bool_decide (Some sv = service c)) then
    on_con (disconnect (change_msg (default [] (user c)) (default [] (service c)) u sv))
  else mret tt.

Definition input_userauth_request : M unit :=
  u ← on_con get_string_field;
  sv ← on_con get_string_field;
  method ← on_con get_string_field;
  let '(u, st, ro) := split_user (c_str u) in
  let sv := c_str sv in
  let method := c_str method in
  first_or_same u sv st ro;;
  modify (fun s => set_ctxt (reset_state (ctxt s)) s);;
  m ← authmethod_lookup method;
  authenticated ← match m with
                  | Some m => call_method (m_userauth m)
                  | None => mret 0
                  end;
  userauth_finish authenticated method.

(** The overrides of [AuthDispatcher]; the empty ones are of messages its table never
    has. *)
Definition auth_virt (f : dispatch_fn) (type seq : Z) : M unit :=
  match f with
  | service_request_msg => input_service_request
  | userauth_request_msg => input_userauth_request
  | unexpected_msg => on_con (protocol_error seq)
  | _ => mret tt
  end.

Definition do_authentication2 (fuel : nat) : M unit :=
  dispatch_run con set_con authDispatch auth_virt (fun s => success (ctxt s)) fuel DISPATCH_BLOCK.

(** What the constructor of [CoreConnection] leaves for authentication. *)
Definition auth_start (k : K) : session := mkSession k authctxt_init 1 1 auth_table 0.

End Auth.

Arguments session : clear implicits.
