(* ===== verification/SshAuthProps.v ===== *)
(** * SshAuthProps: what authentication guarantees

    The rules of the handlers of [SshAuth] on a script of messages, the summary of one
    request ([request_post]), and the theorems: who is let in, how many attempts a
    client has, how requests are answered, that the loop ends. *)

From S2P Require Import Prelude SshBuffer CxxMonad SshPacket SshDispatch SshAuth.

(** ** The database *)

Section Database.
Context {db : UserDb} {nr : NoReturn} {K : Type} {ck : Connection K}.
Implicit Types s : session K.

(** A row with this login, and one with this login and password, at the statement of
    number [n]. *)
Definition selects (n : nat) (P : user_row -> Prop) : Prop :=
  match users_at n with Some users => Exists P users | None => False end.
Definition known (n : nat) (u : list Z) : Prop := selects n (fun r => r_login r = u).
Definition password_matches (n : nat) (u p : list Z) : Prop :=
  selects n (fun r => r_login r = u /\ r_password r = p).

#[global] Instance selects_dec n P `{!forall r, Decision (P r)} : Decision (selects n P).
Proof. unfold selects. destruct (users_at n); apply _. Defined.
#[global] Instance known_dec n u : Decision (known n u) := selects_dec _ _.
#[global] Instance password_matches_dec n u p : Decision (password_matches n u p) := selects_dec _ _.

Lemma selects_find n users (cond : user_row -> bool) P : users_at n = Some users ->
  (forall r, cond r = true <-> P r) ->
  is_Some (snd <$> list_find (fun r => cond r = true) users) <-> selects n P.
Proof.
  intros Eu HP. unfold selects. rewrite Eu, Exists_exists.
  destruct (list_find _ users) as [[i r]|] eqn:Ef; cbn.
  - apply list_find_Some in Ef as (Hi & Hr & _). split; [|done]. intros _. exists r.
    split; [by eapply list_elem_of_lookup_2|]. by apply HP.
  - rewrite list_find_None, Forall_forall in Ef. split; [by intros []|].
    intros (r & Hr & Hl). destruct (Ef r Hr). by apply HP.
Qed.

Lemma select_eq cond s :
  select cond s =
  match users_at (queries s) with
  | None => (Throw soci_error, next_query s)
  | Some users => (Ret (snd <$> list_find (fun r => cond r = true) users), next_query s)
  end.
Proof. unfold select, mbind, SE_bind, gets, modify. cbn. by destruct (users_at _). Qed.

(** Whoever the database knows is allowed; an error of the database is a refusal. *)
Lemma find_allowed_eq u s : exists p,
  find_allowed u s = (Ret p, next_query s) /\ (is_Some p <-> known (queries s) u) /\
  forall v, p = Some v -> userName v = u.
Proof.
  unfold find_allowed, try_catch, mbind at 1, SE_bind. rewrite select_eq.
  destruct (users_at (queries s)) as [users|] eqn:Eu; cbn.
  2:{ eexists. split; [done|]. split; [|done]. unfold known, selects. rewrite Eu. split; [by intros []|done]. }
  eexists. split; [done|]. split.
  2:{ intros v. destruct (list_find _ users) as [[i r]|] eqn:Ef; [|done]. cbn. intros [= <-].
      apply list_find_Some in Ef as (_ & Hr & _). by apply bool_decide_eq_true in Hr. }
  unfold known. rewrite <- (selects_find (queries s) users
    (fun r => bool_decide (r_login r = u)) (fun r => r_login r = u) Eu)
    by (intros r; apply bool_decide_eq_true).
  destruct (snd <$> _); split; intros []; naive_solver.
Qed.

Lemma auth_password_eq p s : p <> [] ->
  auth_password p s =
  match users_at (queries s) with
  | None => (Throw soci_error, next_query s)
  | Some _ =>
      (Ret (c_bool (bool_decide (password_matches (queries s) (default [] (user (ctxt s))) p) &&
                    negb (no_return (S (queries s)) =? 0) && negb (valid (ctxt s) =? 0))),
       next_query s)
  end.
Proof.
  intros Hp. unfold auth_password, mbind, SE_bind, gets. destruct p as [|x p]; [done|].
  unfold sys_auth_passwd, auth_passwd, mbind, SE_bind, gets. cbn -[select no_return]. rewrite select_eq.
  set (u := default [] (user (ctxt s))). set (q := x :: p).
  destruct (users_at (queries s)) as [users|] eqn:Eu; [|done].
  pose proof (selects_find (queries s) users
    (fun r => bool_decide (r_login r = u) && bool_decide (r_password r = q))
    (fun r => r_login r = u /\ r_password r = q) Eu) as Hf.
  destruct (snd <$> _); cbn -[no_return].
  - rewrite bool_decide_true; [done|]. apply Hf; [|done]. intros r.
    by rewrite andb_true_iff, !bool_decide_eq_true.
  - rewrite bool_decide_false; [done|]. intros Hm.
    destruct (proj2 (Hf ltac:(intros r; by rewrite andb_true_iff, !bool_decide_eq_true)) Hm). done.
Qed.

End Database.

Section Props.
Context {db : UserDb} {nr : NoReturn}.

Abbreviation state := (session script).
Implicit Types (s : state) (b : Buffer).

Definition cur (s : state) : Buffer := current (con s).

Definition with_buf b (s : state) : state := set_con (set_incoming b (con s)) s.
(** The messages [l] sent, and the flag of [packet_disconnect]. *)
Definition with_out (l : list (Z * list field)) (cl : bool) (s : state) : state :=
  set_con (mkScript (inbox (con s)) (sent (con s) ++ l) (current (con s)) (flags_of_peer (con s)) cl) s.

(** ** Rules for the connection *)

Lemma get_string_split b : queue_ok b ->
  match get_string b with
  | (Ret v, b') => queue_ok b' /\ contents b = field_bytes (FString v) ++ contents b'
  | (Throw e, b') => e = ShuttingDown
  end.
Proof.
  intros Hb. unfold get_string, buffer_get_string_ret, buffer_get_int, buffer_get_int_ret.
  pose proof (get_ret_drained b 4 Hb ltac:(lia)) as H4.
  pose proof (buffer_get_ret_spec b 4 (proj1 Hb) ltac:(lia)) as S4.
  destruct (buffer_get_ret b 4) as [[d b1]|]; cbn -[field_bytes]; [|done].
  destruct H4 as (Hd & Hbd & Hl), S4 as (Hle & Ed & Ec & _).
  pose proof (get_u32_range d Hbd Hl) as Hr. destruct (_ >? _); [done|].
  pose proof (get_ret_drained b1 (get_u32 d) (dr_ok _ _ _ Hd) ltac:(lia)) as H2.
  pose proof (buffer_get_ret_spec b1 (get_u32 d) (proj1 (dr_ok _ _ _ Hd)) ltac:(lia)) as S2.
  destruct (buffer_get_ret b1 _) as [[v b2]|]; [|done].
  destruct H2 as (Hd2 & _ & Hlv), S2 as (_ & Ev & Ec2 & _). split; [apply (dr_ok _ _ _ Hd2)|].
  assert (Hc : contents b = d ++ v ++ contents b2)
    by (rewrite Ed, Ev, Ec2, take_drop, Ec, take_drop; done).
  rewrite Hc. change (field_bytes (FString v)) with (put_u32 (zlen v) ++ v).
  rewrite Hlv, <- app_assoc.
  f_equal. destruct d as [|x0 [|x1 [|x2 [|x3 [|]]]]]; unfold zlen in Hl; cbn in Hl; try lia.
  rewrite !Forall_cons in Hbd. destruct Hbd as (? & ? & ? & ? & _). unfold is_u8 in *.
  rewrite get_u32_bytes, put_u32_bytes by done.
  repeat (f_equal; try (Z.div_mod_to_equations; lia)).
Qed.

Lemma wp_get_string Q (E : exn -> state -> Prop) s : queue_ok (cur s) ->
  (forall v b', queue_ok b' -> contents (cur s) = field_bytes (FString v) ++ contents b' ->
     Q v (with_buf b' s)) ->
  (forall b', E ShuttingDown (with_buf b' s)) -> wp (on_con get_string_field) Q E s.
Proof.
  intros Hb HQ HE. unfold on_con, get_string_field, reading, wp, zoom. cbn -[get_string].
  pose proof (get_string_split _ Hb) as Hs. unfold cur in *.
  destruct (get_string (current (con s))) as [[v|e] b'].
  - destruct Hs. by apply HQ.
  - subst e. apply HE.
Qed.

Lemma wp_get_char Q (E : exn -> state -> Prop) s : queue_ok (cur s) ->
  (forall v b', queue_ok b' -> contents (cur s) = field_bytes (FChar v) ++ contents b' ->
     0 <= v < 256 -> Q v (with_buf b' s)) ->
  (forall b', E ShuttingDown (with_buf b' s)) -> wp (on_con get_char_field) Q E s.
Proof.
  intros Hb HQ HE. unfold on_con, get_char_field, reading, wp, zoom, get_char, get_or_fatal,
    buffer_get_char_ret, cur in *. cbn -[buffer_get_ret].
  pose proof (get_ret_drained _ 1 Hb ltac:(lia)) as H1.
  pose proof (buffer_get_ret_spec _ 1 (proj1 Hb) ltac:(lia)) as S1.
  destruct (buffer_get_ret _ 1) as [[d b1]|]; cbn; [|apply HE].
  destruct H1 as (Hd & Hbd & Hl), S1 as (_ & Ed & Ec & _).
  destruct d as [|x [|]]; unfold zlen in Hl; cbn in Hl; try lia.
  apply Forall_cons in Hbd as [Hx _]. apply HQ; [apply (dr_ok _ _ _ Hd)| |exact Hx].
  change (field_bytes (FChar (znth 0 [x] 0))) with [u8 x]. rewrite u8_small by exact Hx.
  by rewrite Ed, Ec, take_drop.
Qed.

(** What [packet_disconnect] may have sent. *)
Definition farewell (l : list (Z * list field)) : Prop :=
  l = [] \/ exists fs, l = [(SSH2_MSG_DISCONNECT, fs)].

Lemma wp_disconnect {A} text (Q : A -> state -> Prop) (E : exn -> state -> Prop) s :
  (forall l cl, farewell l -> E ShuttingDown (with_out l cl s)) ->
  wp (on_con (disconnect text)) Q E s.
Proof.
  intros HE. unfold on_con, disconnect, wp, zoom. destruct s as [[i o c f cl] ? ? ? ? ?]. cbn.
  destruct cl; cbn.
  - specialize (HE [] true (or_introl eq_refl)). unfold with_out in HE. cbn in HE.
    by rewrite app_nil_r in HE.
  - apply (HE _ true). right. by eexists.
Qed.

Lemma wp_check_eom Q (E : exn -> state -> Prop) s : buffer_ok (cur s) ->
  (contents (cur s) = [] -> Q tt s) ->
  (forall l cl, farewell l -> E ShuttingDown (with_out l cl s)) ->
  wp (on_con packet_check_eom) Q E s.
Proof.
  intros Hb HQ HE. destruct (buffer_len (cur s) >? 0) eqn:El.
  - pose proof (wp_disconnect (str "Packet integrity error.") Q E s HE) as Hw.
    unfold on_con, wp, zoom, packet_check_eom, cur in *. cbn -[disconnect buffer_len] in *.
    unfold mbind, SE_bind, gets. by rewrite El.
  - unfold on_con, wp, zoom, packet_check_eom, cur in *. cbn -[disconnect buffer_len] in *.
    unfold mbind, SE_bind, gets. rewrite El. cbn.
    replace (set_con (con s) s) with s by (by destruct s). apply HQ.
    rewrite buffer_len_contents in El by done. zbool. pose proof (zlen_nonneg (contents (current (con s)))).
    apply nil_length_inv. unfold zlen in *. lia.
Qed.

Lemma wp_send type fs Q (E : exn -> state -> Prop) s :
  Q tt (with_out [(type, fs)] (closing (con s)) s) -> wp (on_con (con_send type fs)) Q E s.
Proof. done. Qed.

Lemma wp_write_wait Q (E : exn -> state -> Prop) s : Q tt s -> wp (on_con con_write_wait) Q E s.
Proof. unfold on_con, wp, zoom. cbn. by destruct s. Qed.

(** ** One request *)

(** What no part of a request but [userauth_finish] changes. *)
Record unchanged (s s' : state) : Prop := {
  un_inbox : inbox (con s') = inbox (con s);
  un_flags : flags_of_peer (con s') = flags_of_peer (con s);
  un_passwd : password_authentication s' = password_authentication s;
  un_table : authDispatch s' = authDispatch s
}.

Lemma unchanged_refl s : unchanged s s.
Proof. done. Qed.

(** The result of a method: no look at the database and a refusal, or the check of a
    password of the message. *)
Definition method_post (meth : list Z) s (a : Z) s' : Prop :=
  unchanged s s' /\ ctxt s' = ctxt s /\ sent (con s') = sent (con s) /\
  (a = 0 /\ queries s' = queries s \/
   meth = str "password" /\ queries s' = S (queries s) /\ exists pass,
     contents (cur s) = fields_bytes [FChar 0; FString pass] /\ c_str pass <> [] /\
     a = c_bool (bool_decide (password_matches (queries s) (default [] (user (ctxt s))) (c_str pass)) &&
                 negb (no_return (S (queries s)) =? 0) && negb (valid (ctxt s) =? 0))).

Definition ended (e : exn) : Prop := e = ShuttingDown \/ e = soci_error.

Definition method_fail s (e : exn) s' : Prop :=
  unchanged s s' /\ ctxt s' = ctxt s /\ (exists l, farewell l /\ sent (con s') = sent (con s) ++ l) /\
  ended e /\ (queries s <= queries s' <= S (queries s))%nat.

Lemma farewell_nil : farewell [].
Proof. by left. Qed.
#[local] Hint Resolve farewell_nil unchanged_refl : core.

Lemma fail_buf s b : method_fail s ShuttingDown (with_buf b s).
Proof. split_and!; [done|done| |by left|cbn; lia..]. exists []. by rewrite app_nil_r. Qed.

Lemma fail_out s b l cl : farewell l -> method_fail s ShuttingDown (with_out l cl (with_buf b s)).
Proof. intros Hl. split_and!; [done|done| |by left|cbn; lia..]. by exists l. Qed.

Lemma userauth_none_spec meth s : queue_ok (cur s) ->
  wp userauth_none (method_post meth s) (method_fail s) s.
Proof.
  intros Hb. unfold userauth_none. apply wp_bind, wp_modify, wp_bind.
  apply wp_check_eom; [apply Hb|..].
  - intros _. apply wp_ret. split_and!; [done..|]. by left.
  - intros l cl Hl. split_and!; [done|done| |by left|cbn; lia..]. by exists l.
Qed.

Lemma userauth_passwd_spec s : queue_ok (cur s) ->
  wp userauth_passwd (method_post (str "password") s) (method_fail s) s.
Proof.
  intros Hb. unfold userauth_passwd. apply wp_bind, wp_get_char; [done| |apply fail_buf].
  intros change b1 Hb1 E1 Hr. apply wp_bind, wp_get_string; [done| |intros b'; apply (fail_buf s)].
  intros pass b2 Hb2 E2. apply wp_bind. change (cur (with_buf b1 s)) with b1 in E2.
  destruct (change =? 0) eqn:Ech; cbn [negb]; zbool.
  - subst change. apply wp_ret, wp_bind, wp_check_eom; [apply Hb2| |intros; by apply (fail_out s)].
    intros E3. change (contents b2 = []) in E3. apply wp_bind.
    destruct (decide (c_str pass = [])) as [Ep|Ep].
    { rewrite Ep. apply wp_bind, wp_gets, wp_ret. split_and!; [done..|]. by left. }
    unfold wp. rewrite auth_password_eq by done.
    change (queries (with_buf b2 _)) with (queries s). change (ctxt (with_buf b2 _)) with (ctxt s).
    destruct (users_at (queries s)) as [users|] eqn:Eu.
    2:{ split_and!; [done|done| |by right|cbn; lia..]. exists []. by rewrite app_nil_r. }
    split_and!; [done..|]. right. split_and!; [done|done|]. exists pass. split_and!; [|done|].
    + rewrite E1, E2, E3, app_nil_r. unfold fields_bytes. cbn [fmap list_fmap concat].
      by rewrite app_nil_r.
    + by destruct (_ && _).
  - apply wp_get_string; [done| |intros b'; apply (fail_buf s)].
    intros new b3 Hb3 _. apply wp_bind, wp_check_eom; [apply Hb3| |intros; by apply (fail_out s)].
    intros _. apply wp_ret. split_and!; [done..|]. by left.
Qed.

(** [authmethod_lookup] and the call *)
Definition try_method (method : list Z) : SshAuth.M (K := script) Z :=
  m ← authmethod_lookup method;
  match m with Some m => call_method (m_userauth m) | None => mret 0 end.

Lemma try_method_spec meth s : queue_ok (cur s) ->
  wp (try_method meth) (method_post meth s) (method_fail s) s.
Proof.
  intros Hb. unfold try_method. apply wp_bind, wp_gets. unfold authmethods. cbn [lookup_method m_enabled m_name].
  destruct (_ && bool_decide (meth = str "none")); [by apply userauth_none_spec|].
  destruct (_ && bool_decide (meth = str "password")) eqn:Em.
  - apply andb_true_iff in Em as [_ Em]. apply bool_decide_eq_true in Em. subst.
    by apply userauth_passwd_spec.
  - apply wp_ret. split_and!; [done..|]. by left.
Qed.

Definition banner s : list (Z * list field) :=
  if negb (Z.land (flags_of_peer (con s)) SSH_BUG_BANNER =? 0) then []
  else [(SSH2_MSG_USERAUTH_BANNER, [FString (str "ShieSSH" ++ [10; 10]); FString []])].

Lemma userauth_banner_eq s : userauth_banner s = (Ret tt, with_out (banner s) (closing (con s)) s).
Proof.
  unfold userauth_banner, userauth_send_banner, banner, mbind, SE_bind, gets. cbn [peer_flags script_connection].
  destruct (negb _); [|done]. unfold with_out. rewrite app_nil_r. by destruct s as [[] ? ? ? ? ?].
Qed.

Definition first_post (u sv : list Z) st ro s s' : Prop :=
  unchanged s s' /\ cur s' = cur s /\
  if attempt (ctxt s) =? 0 then
    queries s' = S (queries s) /\ sent (con s') = sent (con s) ++ banner s /\
    exists p, (is_Some p <-> known (queries s) u) /\
      ctxt s' = set_up p (if bool_decide (is_Some p) && bool_decide (sv = str "ssh-connection") then 1
                          else valid (ctxt s)) u sv st ro (count_attempt (ctxt s))
  else
    queries s' = queries s /\ sent (con s') = sent (con s) /\ ctxt s' = count_attempt (ctxt s) /\
    Some u = user (ctxt s) /\ Some sv = service (ctxt s).

Definition first_fail s (e : exn) s' : Prop :=
  unchanged s s' /\ e = ShuttingDown /\ (exists l, farewell l /\ sent (con s') = sent (con s) ++ l) /\
  queries s' = queries s /\ ctxt s' = count_attempt (ctxt s) /\ attempt (ctxt s) <> 0.

Lemma first_or_same_spec u sv st ro s :
  wp (first_or_same u sv st ro) (fun _ => first_post u sv st ro s) (first_fail s) s.
Proof.
  unfold first_or_same. apply wp_bind, wp_gets, wp_bind, wp_modify.
  set (s1 := set_ctxt _ s). unfold first_post. destruct (attempt (ctxt s) =? 0) eqn:Ea; zbool.
  - destruct (find_allowed_eq u s1) as (p & Ef & Hp & _). apply wp_bind. unfold wp. rewrite Ef.
    unfold mbind, SE_bind, modify. rewrite userauth_banner_eq. split_and!; [done..|].
    exists p. split; [exact Hp|done].
  - destruct (negb _ || negb _) eqn:En.
    + apply wp_disconnect. intros l cl Hl. split_and!; [done|done| |done|done|done]. by exists l.
    + rewrite orb_false_iff, !negb_false_iff, !bool_decide_eq_true in En. destruct En.
      apply wp_ret. done.
Qed.

Lemma authmethods_get_eq s : password_authentication s = 1 ->
  authmethods_get s = (Ret (str "password"), s).
Proof.
  intros Hp. unfold authmethods_get, mbind at 1, SE_bind, gets, id.
  assert (He : (b ← list_methods authmethods s buffer_init; buffer_append b [0]) =
               (b ← buffer_append buffer_init (str "password"); buffer_append b [0])).
  { unfold authmethods. cbn [list_methods m_name m_enabled]. rewrite Hp. reflexivity. }
  rewrite He. vm_compute. reflexivity.
Qed.

Definition penalty (meth : list Z) (c : Authctxt) : Authctxt :=
  if (attempt c >? 1) || negb (bool_decide (meth = str "none")) then count_failure c else c.

Definition finish_post (a : Z) (meth : list Z) s s' : Prop :=
  inbox (con s') = inbox (con s) /\ flags_of_peer (con s') = flags_of_peer (con s) /\
  password_authentication s' = password_authentication s /\ queries s' = queries s /\
  if a =? 1 then
    ctxt s' = set_success (ctxt s) /\ sent (con s') = sent (con s) ++ [(SSH2_MSG_USERAUTH_SUCCESS, [])] /\
    authDispatch s' = dispatch_set SSH2_MSG_USERAUTH_REQUEST ignored_msg (authDispatch s) /\
    valid (ctxt s) <> 0
  else
    ctxt s' = penalty meth (ctxt s) /\ failures (ctxt s') < get_max_login_attempts /\
    sent (con s') = sent (con s) ++ [(SSH2_MSG_USERAUTH_FAILURE, [FString (str "password"); FChar 0])] /\
    authDispatch s' = authDispatch s.

Definition finish_fail (a : Z) (meth : list Z) s (e : exn) s' : Prop :=
  unchanged s s' /\ e = ShuttingDown /\ queries s' = queries s /\
  (exists l, farewell l /\ sent (con s') = sent (con s) ++ l) /\
  (a <> 0 /\ valid (ctxt s) = 0 /\ ctxt s' = ctxt s \/
   a <> 1 /\ ctxt s' = penalty meth (ctxt s) /\ get_max_login_attempts <= failures (ctxt s')).

Lemma finish_spec a meth s : password_authentication s = 1 -> postponed (ctxt s) = 0 ->
  server_caused_failure (ctxt s) = 0 ->
  wp (userauth_finish a meth) (fun _ => finish_post a meth s) (finish_fail a meth s) s.
Proof.
  intros Hp Hpo Hsc. unfold userauth_finish. apply wp_bind, wp_gets. rewrite Hpo, Hsc.
  destruct ((valid (ctxt s) =? 0) && negb (a =? 0)) eqn:Ev.
  { apply andb_true_iff in Ev as [Ev Ea]. zbool. apply wp_throw. split_and!; [done|done|done| |by left].
    exists []. by rewrite app_nil_r. }
  cbn [negb Z.eqb andb]. unfold finish_post. destruct (a =? 1) eqn:E1; zbool.
  - apply wp_bind, wp_modify, wp_bind, wp_send, wp_bind, wp_write_wait, wp_modify.
    split_and!; try done. cbn. subst a. intros Hv. by rewrite Hv in Ev.
  - apply wp_bind. set (s1 := set_ctxt (penalty meth (ctxt s)) s).
    apply (wp_mono _ (fun _ s' => s' = s1) _ (fun _ _ => False)); [|intros [] ? ->|done].
    { unfold penalty in s1. destruct (_ || _); [by apply wp_modify|]. apply wp_ret. by destruct s. }
    apply wp_bind, wp_gets, wp_bind. change (ctxt s1) with (penalty meth (ctxt s)).
    destruct (_ >=? _) eqn:Ef; zbool.
    + apply wp_disconnect. intros l cl Hl. split_and!; [done|done|done| |by right]. by exists l.
    + apply wp_ret, wp_bind. unfold wp at 1. rewrite authmethods_get_eq by done.
      apply wp_bind, wp_send, wp_write_wait. split_and!; done.
Qed.

(** *** The summary of a request *)

Definition same_identity (c c' : Authctxt) : Prop :=
  user c' = user c /\ service c' = service c /\ valid c' = valid c /\ pw c' = pw c /\
  style c' = style c /\ role c' = role c.

(** The first attempt asks the database once and sends the banner. *)
Definition first_query s : nat := if attempt (ctxt s) =? 0 then 1%nat else 0%nat.
Definition first_banner s : list (Z * list field) := if attempt (ctxt s) =? 0 then banner s else [].

(** Why a request is accepted: [n] is the statement that checks its password. *)
Definition accepted (n : nat) (u meth rest : list Z) : Prop :=
  meth = str "password" /\ exists pass,
    rest = fields_bytes [FChar 0; FString pass] /\ c_str pass <> [] /\
    password_matches n u (c_str pass) /\ no_return (S n) <> 0.

Record request_post (s s' : state) : Prop := {
  rq_inbox : inbox (con s') = inbox (con s);
  rq_flags : flags_of_peer (con s') = flags_of_peer (con s);
  rq_passwd : password_authentication s' = password_authentication s;
  rq_attempt : attempt (ctxt s') = attempt (ctxt s) + 1;
  rq_identity : attempt (ctxt s) <> 0 -> same_identity (ctxt s) (ctxt s');
  rq_result : exists usr sv meth rest checks,
    let u := (split_user (c_str usr)).1.1 in
    contents (cur s) = fields_bytes [FString usr; FString sv; FString meth] ++ rest /\
    user (ctxt s') = Some u /\ service (ctxt s') = Some (c_str sv) /\
    (attempt (ctxt s) = 0 -> valid (ctxt s') <> valid (ctxt s) ->
       known (queries s) u /\ c_str sv = str "ssh-connection") /\
    queries s' = (queries s + first_query s + checks)%nat /\ (checks <= 1)%nat /\
    (success (ctxt s') = true /\ failures (ctxt s') = failures (ctxt s) /\
       sent (con s') = sent (con s) ++ first_banner s ++ [(SSH2_MSG_USERAUTH_SUCCESS, [])] /\
       authDispatch s' = dispatch_set SSH2_MSG_USERAUTH_REQUEST ignored_msg (authDispatch s) /\
       valid (ctxt s') <> 0 /\ accepted (queries s + first_query s) u (c_str meth) rest \/
     success (ctxt s') = success (ctxt s) /\ failures (ctxt s') < get_max_login_attempts /\
       sent (con s') = sent (con s) ++ first_banner s ++
         [(SSH2_MSG_USERAUTH_FAILURE, [FString (str "password"); FChar 0])] /\
       authDispatch s' = authDispatch s /\
       (failures (ctxt s') = failures (ctxt s) + 1 \/
        failures (ctxt s') = failures (ctxt s) /\ attempt (ctxt s) = 0 /\ checks = 0%nat))
}.

(** A request that ends the connection. *)
Record request_fail (s : state) (e : exn) (s' : state) : Prop := {
  rf_ended : ended e;
  rf_unchanged : unchanged s s';
  rf_success : success (ctxt s') = success (ctxt s);
  rf_failures : failures (ctxt s) <= failures (ctxt s') <= failures (ctxt s) + 1;
  rf_attempt : attempt (ctxt s) <= attempt (ctxt s') <= attempt (ctxt s) + 1;
  rf_identity : attempt (ctxt s) <> 0 -> same_identity (ctxt s) (ctxt s');
  rf_queries : (queries s' <= queries s + first_query s + 1)%nat;
  rf_sent : exists l, farewell l /\
    (sent (con s') = sent (con s) ++ l \/ sent (con s') = sent (con s) ++ first_banner s ++ l)
}.

Lemma penalty_cases meth c : 1 <= attempt c ->
  penalty meth c = count_failure c \/
  penalty meth c = c /\ attempt c = 1 /\ meth = str "none".
Proof.
  intros Ha. unfold penalty. destruct (_ || _) eqn:E; [by left|]. right.
  rewrite orb_false_iff, negb_false_iff, bool_decide_eq_true in E. destruct E. zbool.
  split_and!; [done|lia|done].
Qed.

Lemma rf_parse s b : request_fail s ShuttingDown (with_buf b s).
Proof.
  split; try done; cbn; [by left|lia..|]. exists []. split; [done|]. left. by rewrite app_nil_r.
Qed.

(** The context and what was sent before the method is called. *)
Lemma first_facts u sv st ro s s1 : first_post u sv st ro s s1 ->
  let c := ctxt s1 in
  success c = success (ctxt s) /\ failures c = failures (ctxt s) /\ attempt c = attempt (ctxt s) + 1 /\
  user c = Some u /\ service c = Some sv /\
  (attempt (ctxt s) <> 0 -> same_identity (ctxt s) c) /\
  (attempt (ctxt s) = 0 -> valid c <> valid (ctxt s) -> known (queries s) u /\ sv = str "ssh-connection") /\
  queries s1 = (queries s + first_query s)%nat /\ sent (con s1) = sent (con s) ++ first_banner s.
Proof.
  intros (_ & _ & Hf). unfold first_query, first_banner. destruct (attempt (ctxt s) =? 0) eqn:Ea; zbool.
  - destruct Hf as (Hq & Hs & p & Hp & ->). rewrite Hq. split_and!; try done; [|lia].
    cbn. intros _ Hv. destruct (bool_decide (is_Some p)) eqn:Ei; [|done].
    destruct (bool_decide (sv = _)) eqn:Esv; [|done]. rewrite bool_decide_eq_true in Ei, Esv. naive_solver.
  - destruct Hf as (Hq & Hs & -> & Hu & Hsv). rewrite Hq, Hs, app_nil_r. split_and!; try done.
Qed.

Definition reset s : state := set_ctxt (reset_state (ctxt s)) s.

(** From the method on: [s1] is the state it is called in. *)
Definition rest_of_request (method : list Z) : SshAuth.M (K := script) unit :=
  a ← try_method method; userauth_finish a method.

Definition finish_result (meth rest u : list Z) s1 (s' : state) : Prop :=
  inbox (con s') = inbox (con s1) /\ flags_of_peer (con s') = flags_of_peer (con s1) /\
  password_authentication s' = password_authentication s1 /\
  attempt (ctxt s') = attempt (ctxt s1) /\ same_identity (ctxt s1) (ctxt s') /\
  exists checks, queries s' = (queries s1 + checks)%nat /\ (checks <= 1)%nat /\
  (success (ctxt s') = true /\ failures (ctxt s') = failures (ctxt s1) /\
     sent (con s') = sent (con s1) ++ [(SSH2_MSG_USERAUTH_SUCCESS, [])] /\
     authDispatch s' = dispatch_set SSH2_MSG_USERAUTH_REQUEST ignored_msg (authDispatch s1) /\
     valid (ctxt s1) <> 0 /\ accepted (queries s1) u meth rest \/
   success (ctxt s') = success (ctxt s1) /\ failures (ctxt s') < get_max_login_attempts /\
     sent (con s') = sent (con s1) ++
       [(SSH2_MSG_USERAUTH_FAILURE, [FString (str "password"); FChar 0])] /\
     authDispatch s' = authDispatch s1 /\
     (failures (ctxt s') = failures (ctxt s1) + 1 \/
      failures (ctxt s') = failures (ctxt s1) /\ attempt (ctxt s1) = 1 /\ checks = 0%nat)).

Definition rest_fail s1 (e : exn) (s' : state) : Prop :=
  ended e /\ unchanged s1 s' /\ success (ctxt s') = success (ctxt s1) /\
  failures (ctxt s1) <= failures (ctxt s') <= failures (ctxt s1) + 1 /\
  attempt (ctxt s') = attempt (ctxt s1) /\ same_identity (ctxt s1) (ctxt s') /\
  (queries s' <= queries s1 + 1)%nat /\ exists l, farewell l /\ sent (con s') = sent (con s1) ++ l.

Lemma finish_outcome meth u rest a s1 s2 s3 : 1 <= attempt (ctxt s1) -> user (ctxt s1) = Some u ->
  rest = contents (cur s1) -> ctxt s2 = ctxt s1 -> sent (con s2) = sent (con s1) ->
  authDispatch s2 = authDispatch s1 -> method_post meth s1 a s2 -> finish_post a meth s2 s3 ->
  exists checks, queries s2 = (queries s1 + checks)%nat /\ (checks <= 1)%nat /\
  (success (ctxt s3) = true /\ failures (ctxt s3) = failures (ctxt s1) /\
     sent (con s3) = sent (con s1) ++ [(SSH2_MSG_USERAUTH_SUCCESS, [])] /\
     authDispatch s3 = dispatch_set SSH2_MSG_USERAUTH_REQUEST ignored_msg (authDispatch s1) /\
     valid (ctxt s1) <> 0 /\ accepted (queries s1) u meth rest \/
   success (ctxt s3) = success (ctxt s1) /\ failures (ctxt s3) < get_max_login_attempts /\
     sent (con s3) = sent (con s1) ++
       [(SSH2_MSG_USERAUTH_FAILURE, [FString (str "password"); FChar 0])] /\
     authDispatch s3 = authDispatch s1 /\
     (failures (ctxt s3) = failures (ctxt s1) + 1 \/
      failures (ctxt s3) = failures (ctxt s1) /\ attempt (ctxt s1) = 1 /\ checks = 0%nat)).
Proof.
  intros Ha Hu -> Hc Hs Ht (_ & _ & _ & Hcase) (_ & _ & _ & _ & H3).
  rewrite Hc, Hs, Ht in H3. destruct Hcase as [[-> Hq]|(-> & Hq & pass & Hp & Hne & ->)].
  - exists 0%nat. split; [lia|]. split; [lia|]. right. cbn in H3. destruct H3 as (Hc3 & Hlt & Hs3 & Ht3).
    rewrite Hc3 in *. destruct (penalty_cases meth (ctxt s1) Ha) as [E|(E & ? & _)]; rewrite E in Hlt |- *.
    + split_and!; try done. by left.
    + split_and!; try done. by right.
  - exists 1%nat. split; [lia|]. split; [lia|]. destruct (_ && _) eqn:Ea.
    + left. destruct H3 as (-> & Hs3 & Ht3 & Hv). split_and!; try done. split; [done|]. exists pass.
      rewrite !andb_true_iff, bool_decide_eq_true, negb_true_iff, Hu in Ea. destruct Ea as [[? ?] _]. zbool.
      done.
    + right. destruct H3 as (Hc3 & Hlt & Hs3 & Ht3). rewrite Hc3 in *.
      destruct (penalty_cases (str "password") (ctxt s1) Ha) as [E|(_ & _ & E)]; [|done]. rewrite E in Hlt |- *.
      split_and!; try done. by left.
Qed.

Lemma rest_of_request_spec meth u s1 : queue_ok (cur s1) -> password_authentication s1 = 1 ->
  postponed (ctxt s1) = 0 -> server_caused_failure (ctxt s1) = 0 -> 1 <= attempt (ctxt s1) ->
  user (ctxt s1) = Some u ->
  wp (rest_of_request meth) (fun _ => finish_result meth (contents (cur s1)) u s1) (rest_fail s1) s1.
Proof.
  intros Hb Hp Hpo Hsc Ha Hu. unfold rest_of_request. apply wp_bind.
  eapply wp_mono; [by apply try_method_spec|..]; cbv beta.
  2:{ intros e s2 (Hun & Hc & Hl & He & Hq). unfold rest_fail. rewrite Hc.
      split_and!; try done; lia. }
  intros a s2 (Hun & Hc & Hs & Hcase). destruct Hun as [Hi Hf Hpp Ht].
  eapply wp_mono; [apply finish_spec; by rewrite ?Hc, ?Hpp|..]; cbv beta; rewrite ?Hc.
  - intros [] s3 (Hi3 & Hf3 & Hp3 & Hq3 & H3). unfold finish_result.
    rewrite Hi3, Hi, Hf3, Hf, Hp3, Hpp, Hq3. split_and!; [done..| | |].
    + destruct (a =? 1); destruct H3 as [-> _]; [by rewrite Hc|]. rewrite Hc.
      by destruct (penalty_cases meth (ctxt s1) Ha) as [->|[-> _]].
    + destruct (a =? 1); destruct H3 as [-> _]; [by rewrite Hc|]. rewrite Hc.
      by destruct (penalty_cases meth (ctxt s1) Ha) as [->|[-> _]].
    + by eapply finish_outcome.
  - intros e s3 (Hun3 & -> & Hq3 & (l & Hl & Hs3) & Hc3). destruct Hun3 as [Hi3 Hf3 Hp3 Ht3].
    rewrite Hc in Hc3. assert (Hq : (queries s2 <= S (queries s1))%nat)
      by (destruct Hcase as [[_ ->]|(_ & -> & _)]; lia).
    assert (Hctx : ctxt s3 = ctxt s1 \/ ctxt s3 = count_failure (ctxt s1)).
    { destruct Hc3 as [(_ & _ & ->)|(_ & -> & _)]; [by left|].
      destruct (penalty_cases meth (ctxt s1) Ha) as [->|[-> _]]; [by right|by left]. }
    unfold rest_fail. split_and!; [by left|split; congruence| | | | | |lia|].
    6: { exists l. split; [done|]. by rewrite Hs3, Hs. }
    all: destruct Hctx as [->| ->]; cbn; done || lia.
Qed.

Lemma request_rest_post u sv st ro usr meth rest b s s1 s' :
  contents (cur s) = fields_bytes [FString usr; FString sv; FString meth] ++ rest ->
  (split_user (c_str usr)).1.1 = u -> 
  first_post u (c_str sv) st ro (with_buf b s) s1 ->
  finish_result (c_str meth) rest u (reset s1) s' -> request_post s s'.
Proof.
  intros Hc Hu H1 (Hi & Hf & Hp & Ha & Hid & checks & Hq & Hle & Hcase).
  destruct (first_facts _ _ _ _ _ _ H1) as (Es & Ef & Ea & Eu & Esv & Eid & Ev & Eq & Est).
  destruct H1 as ([Ei Efl Epp Et] & _ & _). cbn in *.
  change (first_query (with_buf b s)) with (first_query s) in Eq.
  change (first_banner (with_buf b s)) with (first_banner s) in Est.
  destruct Hid as (I1 & I2 & I3 & I4 & I5 & I6). cbn in *. split.
  - by rewrite Hi, Ei.
  - by rewrite Hf, Efl.
  - by rewrite Hp, Epp.
  - by rewrite Ha, Ea.
  - intros Hne. destruct (Eid Hne) as (J1 & J2 & J3 & J4 & J5 & J6). cbn in *.
    split_and!; congruence.
  - exists usr, sv, meth, rest, checks. cbv zeta. rewrite Hu. split_and!; [done|congruence|congruence| | |done|].
    + rewrite I3. exact Ev.
    + rewrite Hq, Eq. done.
    + rewrite I3. destruct Hcase as [(?&?&Hs&?&?&?)|(?&?&Hs&?&Hpen)]; [left|right].
      * rewrite Hs, Est, <- app_assoc. split_and!; try congruence.
      * rewrite Hs, Est, <- app_assoc. split_and!; try congruence; [done|].
        destruct Hpen as [Hpen|(Hpen & ? & ?)]; [left; congruence|]. right. split_and!; [congruence|lia|done].
Qed.

Lemma request_rest_fail u sv st ro b s s1 e s' :
  first_post u sv st ro (with_buf b s) s1 -> rest_fail (reset s1) e s' -> request_fail s e s'.
Proof.
  intros H1 (He & Hun & Hs & Hf & Ha & Hid & Hq & l & Hl & Hst).
  destruct (first_facts _ _ _ _ _ _ H1) as (Es & Ef & Ea & Eu & Esv & Eid & Ev & Eq & Est).
  destruct H1 as ([Ei Efl Epp Et] & _ & _). destruct Hun as [Hi Hfl Hpp Ht]. cbn in *. split.
  - done.
  - split; cbn; congruence.
  - congruence.
  - rewrite Ef in Hf. lia.
  - rewrite Ha, Ea. lia.
  - intros Hne. destruct (Eid Hne) as (J1 & J2 & J3 & J4 & J5 & J6).
    destruct Hid as (I1 & I2 & I3 & I4 & I5 & I6). cbn in *. split_and!; congruence.
  - rewrite Eq in Hq. exact Hq.
  - exists l. split; [done|]. right. by rewrite Hst, Est, app_assoc.
Qed.

Lemma request_spec s : queue_ok (cur s) -> password_authentication s = 1 -> 0 <= attempt (ctxt s) ->
  wp input_userauth_request (fun _ => request_post s) (request_fail s) s.
Proof.
  intros Hb Hp Ha. unfold input_userauth_request.
  apply wp_bind, wp_get_string; [done| |apply rf_parse]. intros usr b1 Hb1 E1.
  apply wp_bind, wp_get_string; [done| |intros; apply (rf_parse s)]. intros sv b2 Hb2 E2.
  apply wp_bind, wp_get_string; [done| |intros; apply (rf_parse s)]. intros meth b3 Hb3 E3.
  destruct (split_user (c_str usr)) as [[u st] ro] eqn:Eu.
  change (cur (with_buf b1 s)) with b1 in E2. change (cur (with_buf b2 _)) with b2 in E3.
  change (with_buf b3 _) with (with_buf b3 s).
  apply wp_bind. eapply wp_mono; [apply first_or_same_spec|..]; cbv beta.
  - intros [] s1 H1. apply wp_bind, wp_modify. change (set_ctxt _ s1) with (reset s1).
    pose proof (first_facts _ _ _ _ _ _ H1) as (_ & _ & Ea & Eus & _).
    assert (Hcur : cur (reset s1) = b3) by (destruct H1 as (_ & Hcur & _); exact Hcur).
    assert (Hw : wp (rest_of_request (c_str meth))
      (fun _ => finish_result (c_str meth) (contents b3) u (reset s1)) (rest_fail (reset s1)) (reset s1)).
    { rewrite <- Hcur. apply rest_of_request_spec; [by rewrite Hcur| |done|done| |done].
      - destruct H1 as ([_ _ Hpp _] & _). cbn in *. congruence.
      - cbn in *. lia. }
    apply (wp_mono (rest_of_request (c_str meth)) _ _ _ _ _ Hw).
    + intros [] s'. eapply request_rest_post; [|by rewrite Eu|done].
      rewrite E1, E2, E3. unfold fields_bytes. cbn [fmap list_fmap concat].
      by rewrite app_nil_r, <- !app_assoc.
    + intros e s'. by eapply request_rest_fail.
  - intros e s1 (Hun & -> & (l & Hl & Hs) & Hq & Hc & Hne). destruct Hun as [Hi Hf Hpp Ht].
    cbn in *. split; rewrite ?Hc; cbn; try done; [by left|lia|lia|lia|]. exists l. split; [done|]. by left.
Qed.

(** ** Service requests *)

Definition service_post s s' : Prop :=
  inbox (con s') = inbox (con s) /\ flags_of_peer (con s') = flags_of_peer (con s) /\
  password_authentication s' = password_authentication s /\ ctxt s' = ctxt s /\ queries s' = queries s /\
  authDispatch s' = dispatch_set SSH2_MSG_USERAUTH_REQUEST userauth_request_msg (authDispatch s) /\
  sent (con s') = sent (con s) ++ [(SSH2_MSG_SERVICE_ACCEPT, [FString (str "ssh-userauth")])].

Lemma service_spec s : queue_ok (cur s) -> wp input_service_request (fun _ => service_post s) (method_fail s) s.
Proof.
  intros Hb. unfold input_service_request. apply wp_bind, wp_get_string; [done| |apply fail_buf].
  intros v b1 Hb1 E1. apply wp_bind, wp_check_eom; [apply Hb1| |intros; by apply fail_out].
  intros _. apply wp_bind, wp_gets, wp_bind.
  destruct (bool_decide _ && _) eqn:Ea.
  - apply andb_true_iff in Ea as [Ea _]. apply bool_decide_eq_true in Ea. rewrite Ea.
    apply wp_bind, wp_modify, wp_ret, wp_bind, wp_send, wp_write_wait. done.
  - apply wp_ret, wp_disconnect. intros l cl Hl. by apply fail_out.
Qed.

(** ** A session *)

Definition msg_ok (m : Z * Z * list Z) : Prop := bytes_ok m.2 /\ zlen m.2 <= 256 * 1024.

(** Whether a service request is among the messages, which enables the others. *)
Definition enabled (ms : list (Z * Z * list Z)) : bool :=
  existsb (fun m => m.1.1 =? SSH2_MSG_SERVICE_REQUEST) ms.

Definition is_banner (l : list (Z * list field)) : Prop :=
  l = [] \/ exists fs, l = [(SSH2_MSG_USERAUTH_BANNER, fs)].

(** What the server sends for one message. *)
Definition answer (en : bool) (m : Z * Z * list Z) (l : list (Z * list field)) : Prop :=
  let '(type, seq, _) := m in
  if type =? SSH2_MSG_SERVICE_REQUEST then
    l = [(SSH2_MSG_SERVICE_ACCEPT, [FString (str "ssh-userauth")])]
  else if (type =? SSH2_MSG_USERAUTH_REQUEST) && en then
    exists bn r, is_banner bn /\ l = bn ++ [r] /\
      (r = (SSH2_MSG_USERAUTH_SUCCESS, []) \/
       r = (SSH2_MSG_USERAUTH_FAILURE, [FString (str "password"); FChar 0]))
  else l = [(SSH2_MSG_UNIMPLEMENTED, [FInt seq])].

Inductive answers : list (Z * Z * list Z) -> list (Z * list field) -> Prop :=
| answers_nil : answers [] []
| answers_snoc ms l m a :
    answers ms l -> answer (enabled ms) m a -> answers (ms ++ [m]) (l ++ a).

Definition count (type : Z) (l : list (Z * list field)) : Z :=
  zlen (filter (fun m => m.1 = type) l).

Lemma count_app type l l' : count type (l ++ l') = count type l + count type l'.
Proof. unfold count. rewrite filter_app. apply zlen_app. Qed.

Lemma count_banner type s : type <> SSH2_MSG_USERAUTH_BANNER -> count type (first_banner s) = 0.
Proof.
  intros Ht. unfold first_banner, banner. destruct (_ =? 0); [|done]. destruct (negb _); [done|].
  unfold count. rewrite filter_cons_False by (cbn; congruence). done.
Qed.

Lemma first_banner_is s : is_banner (first_banner s).
Proof.
  unfold first_banner, banner. destruct (_ =? 0); [|by left]. destruct (negb _); [by left|].
  right. by eexists.
Qed.

Lemma farewell_count type l : type <> SSH2_MSG_DISCONNECT -> farewell l -> count type l = 0.
Proof.
  intros Ht [->|[fs ->]]; [done|]. unfold count. by rewrite filter_cons_False by (cbn; congruence).
Qed.

(** The table behind the messages [ms]. *)
Definition table_after (ms : list (Z * Z * list Z)) : list dispatch_fn :=
  if enabled ms then dispatch_set SSH2_MSG_USERAUTH_REQUEST userauth_request_msg auth_table
  else auth_table.

Lemma table_after_get ms type :
  dispatch_get (table_after ms) type =
  if type =? SSH2_MSG_SERVICE_REQUEST then service_request_msg
  else if (type =? SSH2_MSG_USERAUTH_REQUEST) && enabled ms then userauth_request_msg
  else unexpected_msg.
Proof.
  assert (Ha : dispatch_get auth_table type =
    if type =? SSH2_MSG_SERVICE_REQUEST then service_request_msg else unexpected_msg).
  { unfold auth_table. rewrite dispatch_get_set by (done || rewrite length_replicate; done).
    by rewrite dispatch_get_init. }
  unfold table_after. destruct (enabled ms); [|by rewrite andb_false_r].
  rewrite dispatch_get_set by (done || (unfold auth_table; rewrite dispatch_set_length; apply length_replicate)).
  rewrite andb_true_r, Ha. destruct (type =? SSH2_MSG_USERAUTH_REQUEST) eqn:E; [|done]. zbool. by subst.
Qed.

Section Session.
(** The messages of the client. *)
Variable msgs : list (Z * Z * list Z).
Hypothesis Hmsgs : Forall msg_ok msgs.

(** The state behind the messages [ms]. *)
Record running (ms : list (Z * Z * list Z)) (s : state) : Prop := {
  ru_passwd : password_authentication s = 1;
  ru_success : success (ctxt s) = false;
  ru_attempt : failures (ctxt s) <= attempt (ctxt s) <= failures (ctxt s) + 1;
  ru_failures : 0 <= failures (ctxt s) < get_max_login_attempts;
  ru_first : attempt (ctxt s) = 0 -> queries s = 0%nat /\ valid (ctxt s) = 0;
  ru_queries : Z.of_nat (queries s) <= failures (ctxt s) + 1;
  ru_valid : valid (ctxt s) <> 0 -> service (ctxt s) = Some (str "ssh-connection") /\
    exists u, user (ctxt s) = Some u /\ known 0 u;
  ru_table : authDispatch s = table_after ms;
  ru_sent : answers ms (sent (con s));
  ru_failure : count SSH2_MSG_USERAUTH_FAILURE (sent (con s)) = attempt (ctxt s);
  ru_no_success : count SSH2_MSG_USERAUTH_SUCCESS (sent (con s)) = 0
}.

(** At the head of the loop, and behind a message that was read. *)
Definition waiting (s : state) : Prop := exists ms, running ms s /\ msgs = ms ++ inbox (con s).
Definition reading_msg (p : Z * Z) (s : state) : Prop := exists ms payload,
  running ms s /\ msgs = ms ++ (p, payload) :: inbox (con s) /\ cur s = packet_buffer payload.

(** Who is in, and by which message. *)
Definition logged_in (s : state) : Prop := exists u seq usr sv meth pass n,
  success (ctxt s) = true /\ user (ctxt s) = Some u /\
  (SSH2_MSG_USERAUTH_REQUEST, seq,
     fields_bytes [FString usr; FString sv; FString meth; FChar 0; FString pass]) ∈ msgs /\
  (split_user (c_str usr)).1.1 = u /\ c_str sv = str "ssh-connection" /\
  c_str meth = str "password" /\ c_str pass <> [] /\
  known 0 u /\ password_matches n u (c_str pass) /\ no_return (S n) <> 0.

(** The bounds on what one connection may try. *)
Definition bounded (s : state) : Prop :=
  (queries s <= 6)%nat /\ 0 <= attempt (ctxt s) <= 6 /\ 0 <= failures (ctxt s) <= 5 /\
  count SSH2_MSG_USERAUTH_FAILURE (sent (con s)) <= 5.

Definition finished (s : state) : Prop :=
  logged_in s /\ bounded s /\ count SSH2_MSG_USERAUTH_SUCCESS (sent (con s)) = 1 /\
  exists ms, answers ms (sent (con s)) /\ msgs = ms ++ inbox (con s).

Definition broken (e : exn) (s : state) : Prop :=
  ended e /\ success (ctxt s) = false /\ bounded s /\
  count SSH2_MSG_USERAUTH_SUCCESS (sent (con s)) = 0 /\
  exists ms l bn fw, answers ms l /\ is_banner bn /\ farewell fw /\ sent (con s) = l ++ bn ++ fw /\
    exists k, (k <= 1)%nat /\ length msgs = (length ms + k + length (inbox (con s)))%nat /\ ms `prefix_of` msgs.

Lemma running_bounded ms s : running ms s -> bounded s.
Proof. intros []. unfold bounded, get_max_login_attempts in *. lia. Qed.

Lemma read_waiting s : waiting s ->
  wp (read_next con set_con DISPATCH_BLOCK) (fun p s' => reading_msg p s' /\
    (length (inbox (con s')) < length (inbox (con s)))%nat) broken s.
Proof.
  intros (ms & Hr & Hm). unfold read_next, wp, zoom. cbn. unfold script_read.
  destruct (inbox (con s)) as [|[[type seq] payload] rest] eqn:Ei; cbn.
  - replace (set_con (con s) s) with s by (by destruct s). pose proof (running_bounded _ _ Hr).
    destruct Hr. split_and!; [by left|done|done|done|].
    exists ms, (sent (con s)), [], []. rewrite app_nil_r. split_and!; [done|by left|done|done|].
    exists 0%nat. rewrite Ei, Hm, app_nil_r. split_and!; [lia|cbn; lia|done].
  - split; [|lia]. exists ms, payload. split_and!; [|done|done]. destruct Hr. by split.
Qed.

Lemma enabled_snoc ms m : enabled (ms ++ [m]) = enabled ms || (m.1.1 =? SSH2_MSG_SERVICE_REQUEST).
Proof. unfold enabled. rewrite existsb_app. cbn. by rewrite orb_false_r. Qed.

Lemma reading_queue p s : reading_msg p s -> queue_ok (cur s).
Proof.
  intros (ms & payload & _ & Hm & ->). rewrite Hm, Forall_app, Forall_cons in Hmsgs.
  destruct Hmsgs as (_ & [Hb Hl] & _). destruct (packet_buffer_ok payload Hl) as [Hok Hc].
  split; [done|]. by rewrite Hc.
Qed.

(** A handler that ended the connection while it dealt with a message. *)
Lemma broken_intro ms p payload s e s' bn fw :
  running ms s -> msgs = ms ++ (p, payload) :: inbox (con s) -> ended e ->
  inbox (con s') = inbox (con s) -> success (ctxt s') = success (ctxt s) ->
  attempt (ctxt s) <= attempt (ctxt s') <= attempt (ctxt s) + 1 ->
  failures (ctxt s) <= failures (ctxt s') <= failures (ctxt s) + 1 ->
  (queries s' <= queries s + first_query s + 1)%nat -> is_banner bn -> farewell fw ->
  sent (con s') = sent (con s) ++ bn ++ fw -> broken e s'.
Proof.
  intros [] Hm He Hi Hs Ha Hf Hq Hbn Hfw Hst.
  assert (Hcb : forall type, type <> SSH2_MSG_USERAUTH_BANNER -> count type bn = 0).
  { intros type Ht. destruct Hbn as [->|[fs ->]]; [done|]. unfold count.
    by rewrite filter_cons_False by (cbn; congruence). }
  unfold broken, bounded, get_max_login_attempts in *.
  assert (Hqq : (queries s + first_query s <= 5)%nat).
  { unfold first_query. destruct (_ =? 0) eqn:E0; zbool; [|lia]. destruct (ru_first0 E0). lia. }
  rewrite Hst, !count_app, !Hcb, !(farewell_count _ fw) by done.
  split_and!; [done|congruence|lia..|].
  exists ms, (sent (con s)), bn, fw. split_and!; [done..|]. exists 1%nat. rewrite Hm, Hi.
  split_and!; [lia|rewrite length_app; cbn; lia|by eexists].
Qed.

Lemma unexpected_spec type seq payload ms s : running ms s ->
  msgs = ms ++ (type, seq, payload) :: inbox (con s) ->
  type <> SSH2_MSG_SERVICE_REQUEST -> (type =? SSH2_MSG_USERAUTH_REQUEST) && enabled ms = false ->
  let s' := with_out [(SSH2_MSG_UNIMPLEMENTED, [FInt seq])] (closing (con s)) s in
  success (ctxt s') = false /\ waiting s'.
Proof.
  intros Hr Hm Hty Hen. destruct Hr. split; [done|]. exists (ms ++ [(type, seq, payload)]).
  split; [|by rewrite <- app_assoc]. split; cbn; try done.
  - rewrite ru_table0. unfold table_after. rewrite enabled_snoc. cbn.
    rewrite (proj2 (Z.eqb_neq _ _) Hty), orb_false_r. done.
  - constructor; [done|]. cbn. by rewrite (proj2 (Z.eqb_neq _ _) Hty), Hen.
  - by rewrite count_app, ru_failure0, Z.add_0_r.
  - by rewrite count_app, ru_no_success0.
Qed.

Lemma service_step seq payload ms s s' : running ms s ->
  msgs = ms ++ (SSH2_MSG_SERVICE_REQUEST, seq, payload) :: inbox (con s) ->
  service_post s s' -> success (ctxt s') = false /\ waiting s'.
Proof.
  intros Hr Hm (Hi & Hf & Hp & Hc & Hq & Ht & Hst). destruct Hr. rewrite Hc. split; [done|].
  exists (ms ++ [(SSH2_MSG_SERVICE_REQUEST, seq, payload)]).
  split; [|by rewrite <- app_assoc, Hi]. split; rewrite ?Hc, ?Hq, ?Hp; try done.
  - rewrite Ht, ru_table0. unfold table_after. rewrite enabled_snoc, orb_true_r.
    destruct (enabled ms); [|done]. unfold dispatch_set. apply list_insert_insert_eq.
  - rewrite Hst. by constructor.
  - by rewrite Hst, count_app, ru_failure0, Z.add_0_r.
  - by rewrite Hst, count_app, ru_no_success0.
Qed.

(** The user the context knows to be valid, after a request. *)
Lemma request_valid ms s s' : running ms s -> request_post s s' -> valid (ctxt s') <> 0 ->
  service (ctxt s') = Some (str "ssh-connection") /\ exists u, user (ctxt s') = Some u /\ known 0 u.
Proof.
  intros Hr [_ _ _ _ Hid (usr & sv & meth & rest & checks & Hres)] Hv. destruct Hr.
  destruct (decide (attempt (ctxt s) = 0)) as [E0|E0].
  - destruct Hres as (_ & Hu & Hsv & Hk & _). destruct (ru_first0 E0) as [Hq Hv0].
    destruct (Hk E0 ltac:(congruence)) as [Hkn Hc]. rewrite Hsv, Hc, Hu. rewrite Hq in Hkn. split; [done|].
    by eexists.
  - destruct (Hid E0) as (Iu & Is & Iv & _). rewrite Iu, Is. apply ru_valid0. congruence.
Qed.

Lemma answer_request ms seq payload s : enabled ms = true ->
  forall r, (r = (SSH2_MSG_USERAUTH_SUCCESS, []) \/
             r = (SSH2_MSG_USERAUTH_FAILURE, [FString (str "password"); FChar 0])) ->
  answer (enabled ms) (SSH2_MSG_USERAUTH_REQUEST, seq, payload) (first_banner s ++ [r]).
Proof.
  intros -> r Hr. exists (first_banner s), r. split_and!; [apply first_banner_is|done|done].
Qed.

Lemma request_step seq payload ms s s' : running ms s -> enabled ms = true ->
  msgs = ms ++ (SSH2_MSG_USERAUTH_REQUEST, seq, payload) :: inbox (con s) ->
  cur s = packet_buffer payload -> request_post s s' ->
  if success (ctxt s') then finished s' else waiting s'.
Proof.
  intros Hr Hen Hm Hcur Hpost. pose proof (request_valid _ _ _ Hr Hpost) as Hvalid.
  destruct Hpost as [Hi Hf Hp Ha Hid (usr & sv & meth & rest & checks & Hres)].
  destruct Hr. cbv zeta in Hres. destruct Hres as (Hc & Hu & Hsv & _ & Hq & Hle & Hcase).
  assert (Hqq : Z.of_nat (queries s + first_query s) <= Z.max 1 (failures (ctxt s) + 1)).
  { unfold first_query. destruct (_ =? 0) eqn:E0; zbool; [|lia]. destruct (ru_first0 E0). lia. }
  set (m := (SSH2_MSG_USERAUTH_REQUEST, seq, payload)) in *.
  assert (Hpay : contents (cur s) = payload).
  { rewrite Hcur. apply packet_buffer_ok. rewrite Hm, Forall_app, Forall_cons in Hmsgs.
    by destruct Hmsgs as (_ & [_ Hl] & _). }
  unfold get_max_login_attempts in *.
  destruct Hcase as [(Hs & Hfl & Hst & Ht & Hv & Hacc)|(Hs & Hlt & Hst & Ht & Hfl)]; rewrite Hs.
  - destruct Hacc as (Hmeth & pass & Hrest & Hne & Hpm & Hnr).
    destruct (Hvalid Hv) as (Hsvc & u & Hu' & Hkn).
    rewrite Hu in Hu'. injection Hu' as <-. rewrite Hsv in Hsvc. injection Hsvc as Hsvc. split_and!.
    + exists (split_user (c_str usr)).1.1, seq, usr, sv, meth, pass, (queries s + first_query s)%nat.
      split_and!; try done. rewrite Hm. apply elem_of_app. right. apply elem_of_cons. left.
      unfold m. f_equal. rewrite <- Hpay, Hc, Hrest. unfold fields_bytes. cbn [fmap list_fmap concat].
      by rewrite <- !app_assoc.
    + unfold bounded. rewrite Hst, !count_app, count_banner by done. rewrite ru_failure0, Hfl, Ha, Hq.
      change (count SSH2_MSG_USERAUTH_FAILURE [(SSH2_MSG_USERAUTH_SUCCESS, [])]) with 0. lia.
    + rewrite Hst, !count_app, count_banner, ru_no_success0 by done. done.
    + exists (ms ++ [m]). rewrite Hi, <- app_assoc. split; [|done]. rewrite Hst. constructor; [done|].
      apply answer_request; [done|by left].
  - rewrite ru_success0. exists (ms ++ [m]). rewrite Hi, <- app_assoc. split; [|done].
    split; unfold get_max_login_attempts in *; try done; try congruence; try lia.
    + rewrite Ht, ru_table0. unfold table_after. by rewrite enabled_snoc, Hen.
    + rewrite Hst. constructor; [done|]. apply answer_request; [done|by right].
    + rewrite Hst, !count_app, count_banner, ru_failure0, Ha by done. done.
    + rewrite Hst, !count_app, count_banner, ru_no_success0 by done. done.
Qed.

Lemma one_spec s p : reading_msg p s ->
  wp (dispatch_one authDispatch auth_virt p.1 p.2)
    (fun _ s' => (if success (ctxt s') then finished s' else waiting s') /\
       (length (inbox (con s')) <= length (inbox (con s)))%nat) broken s.
Proof.
  intros Hread. pose proof (reading_queue _ _ Hread) as Hb.
  destruct Hread as (ms & payload & Hr & Hm & Hcur). destruct p as [type seq]. cbn [fst snd].
  unfold dispatch_one. apply wp_bind, wp_gets. rewrite (ru_table _ _ Hr), table_after_get.
  destruct (type =? SSH2_MSG_SERVICE_REQUEST) eqn:E5; zbool.
  - subst type. eapply wp_mono; [by apply service_spec|..]; cbv beta.
    + intros [] s' Hp. destruct (service_step _ _ _ _ _ Hr Hm Hp) as [-> Hw]. split; [done|].
      destruct Hp as [-> _]. done.
    + intros e s' (Hun & Hc & (l & Hl & Hst) & He & Hq).
      eapply (broken_intro ms _ _ s e s' [] l); try done; rewrite ?Hc; try done; try lia; try by destruct Hun.
      by left.
  - destruct ((type =? _) && enabled ms) eqn:E50.
    + apply andb_true_iff in E50 as [E50 Hen]. zbool. subst type.
      eapply wp_mono; [apply request_spec; [done|by destruct Hr|destruct Hr; lia]|..]; cbv beta.
      * intros [] s' Hp. split; [by eapply request_step|]. by rewrite (rq_inbox _ _ Hp).
      * intros e s' []. destruct rf_sent0 as (l & Hl & [Hst|Hst]).
        -- eapply (broken_intro ms _ _ s e s' [] l); try done; [by destruct rf_unchanged0|by left].
        -- eapply (broken_intro ms _ _ s e s' _ l); try done; [by destruct rf_unchanged0|apply first_banner_is].
    + apply wp_send.
      destruct (unexpected_spec _ _ _ _ _ Hr Hm E5 E50) as [-> Hw]. by split.
Qed.

Lemma start_waiting flags : waiting (auth_start (script_start msgs flags)).
Proof.
  exists []. split; [|done]. split; cbn; try done. constructor.
Qed.

(** What a session of authentication comes to. *)
Lemma session_spec flags fuel : (length msgs < fuel)%nat ->
  wp (do_authentication2 fuel) (fun _ => finished) broken (auth_start (script_start msgs flags)).
Proof.
  intros Hf. unfold do_authentication2.
  apply (dispatch_run_inv con set_con authDispatch auth_virt (fun s => success (ctxt s))
           waiting finished reading_msg broken (fun s => length (inbox (con s)))).
  - intros s Hs. eapply wp_mono; [by apply read_waiting| |done]. cbv beta. intros p s' Hp.
    rewrite bool_decide_false by naive_solver. done.
  - intros s p Hp. eapply wp_mono; [by apply one_spec| |done]. cbv beta. intros _ s' [H1 H2].
    by destruct (success (ctxt s')).
  - apply start_waiting.
  - done.
Qed.

End Session.
End Props.
