(* ===== verification/SshLogin.v ===== *)
(** * SshLogin: the theorems about authentication

    Soundness, bounds, replies and completeness of a session of [SshAuth], from the
    summary of a session in [SshAuthProps]; the identity of a client on any
    connection; a database with one user as the example. *)

From S2P Require Import Prelude SshBuffer CxxMonad SshPacket SshDispatch SshAuth SshAuthProps.

(** ** The identity of the client, on any connection *)

Section Identity.
Context {K : Type} {ck : Connection K} {db : UserDb} {nr : NoReturn}.
Implicit Types s : session K.

(** Once a request was made, its user, service and the result of the first look at the
    database stay. *)
Definition keeps_identity {A} (m : SshAuth.M (K := K) A) : Prop := forall s, 0 < attempt (ctxt s) ->
  wp m (fun _ s' => 0 < attempt (ctxt s') /\ same_identity (ctxt s) (ctxt s'))
       (fun _ s' => 0 < attempt (ctxt s') /\ same_identity (ctxt s) (ctxt s')) s.

Lemma same_identity_refl c : same_identity c c.
Proof. done. Qed.

Lemma same_identity_trans c1 c2 c3 :
  same_identity c1 c2 -> same_identity c2 c3 -> same_identity c1 c3.
Proof. unfold same_identity. intuition congruence. Qed.

Lemma keeps_bind {A B} (m : SshAuth.M A) (f : A -> SshAuth.M B) :
  keeps_identity m -> (forall a, keeps_identity (f a)) -> keeps_identity (m ≫= f).
Proof.
  intros Hm Hf s Hs. apply wp_bind. eapply wp_mono; [by apply Hm| |done].
  intros a s1 [H1 Hi1]. eapply wp_mono; [by apply Hf|..].
  all: intros ? s2 [H2 Hi2]; split; [done|]; by eapply same_identity_trans.
Qed.

Lemma keeps_ret {A} (a : A) : keeps_identity (mret a).
Proof. intros s Hs. apply wp_ret. done. Qed.
Lemma keeps_throw {A} e : keeps_identity (A := A) (throw e).
Proof. intros s Hs. apply wp_throw. done. Qed.
Lemma keeps_gets {A} (f : session K -> A) : keeps_identity (gets f).
Proof. intros s Hs. apply wp_gets. done. Qed.

Lemma keeps_modify f : (forall s, attempt (ctxt s) <= attempt (ctxt (f s)) /\
  same_identity (ctxt s) (ctxt (f s))) -> keeps_identity (modify f).
Proof. intros Hf s Hs. apply wp_modify. destruct (Hf s). split; [lia|done]. Qed.

Lemma keeps_on_con {A} (m : SE K A) : keeps_identity (on_con m).
Proof. intros s Hs. unfold on_con, wp, zoom. by destruct (m (con s)) as [[a|e] k]. Qed.

Lemma keeps_try {A} c (m h : SshAuth.M A) :
  keeps_identity m -> keeps_identity h -> keeps_identity (try_catch c m h).
Proof.
  intros Hm Hh s Hs. apply wp_try. eapply wp_mono; [by apply Hm|done|].
  intros e s1 [H1 Hi1]. destruct (c e); [|done]. eapply wp_mono; [by apply Hh|..].
  all: intros ? s2 [H2 Hi2]; split; [done|]; by eapply same_identity_trans.
Qed.

Create HintDb identity.
#[local] Hint Resolve keeps_ret keeps_throw keeps_gets keeps_on_con : identity.

(** Split a handler at its binds, its conditions and its choices. *)
Ltac keeps :=
  repeat first
  [ solve [auto with identity nocore]
  | apply keeps_bind; [|intros ?]
  | apply keeps_modify; intros ?; split; [cbn; lia|done]
  | apply keeps_try
  | match goal with |- keeps_identity (if ?b then _ else _) => destruct b end
  | match goal with |- keeps_identity (match ?x with _ => _ end) => destruct x end ].

Lemma keeps_select cond : keeps_identity (select cond).
Proof. unfold select. keeps. Qed.
Lemma keeps_auth_password p : keeps_identity (auth_password p).
Proof. unfold auth_password, sys_auth_passwd, auth_passwd. keeps; apply keeps_select. Qed.
#[local] Hint Resolve keeps_auth_password : identity.
Lemma keeps_call m : keeps_identity (call_method m).
Proof. destruct m; unfold call_method, userauth_none, userauth_passwd; keeps. Qed.
Lemma keeps_lift {A} (r : res A) : keeps_identity (lift_res r).
Proof. unfold lift_res. keeps. Qed.
#[local] Hint Resolve keeps_call keeps_lift : identity.

Lemma keeps_finish a meth : keeps_identity (userauth_finish a meth).
Proof. unfold userauth_finish, disable_userauth_request_msg, authmethods_get. keeps. Qed.

(** The second and later requests only compare. *)
Lemma keeps_first u sv st ro : keeps_identity (first_or_same u sv st ro).
Proof.
  intros s Hs. unfold first_or_same. apply wp_bind, wp_gets, wp_bind, wp_modify.
  rewrite (proj2 (Z.eqb_neq _ _)) by lia. set (s1 := set_ctxt _ s).
  assert (H1 : 0 < attempt (ctxt s1) /\ same_identity (ctxt s) (ctxt s1)) by (split; [cbn; lia|done]).
  destruct (_ || _); [|by apply wp_ret]. eapply wp_mono; [apply keeps_on_con, H1|..].
  all: intros ? s2 [H2 Hi2]; split; [done|]; by eapply same_identity_trans.
Qed.
#[local] Hint Resolve keeps_finish keeps_first : identity.

Lemma keeps_virt f type seq : keeps_identity (auth_virt f type seq).
Proof.
  destruct f; unfold auth_virt; try solve [auto with identity nocore].
  - unfold input_service_request, enable_userauth_request_msg. keeps.
  - unfold input_userauth_request, authmethod_lookup. keeps.
Qed.

Lemma keeps_session fuel : keeps_identity (do_authentication2 fuel).
Proof.
  unfold do_authentication2. induction fuel as [|fuel IH]; cbn [dispatch_run]; [apply keeps_throw|].
  apply keeps_bind; [apply keeps_on_con|]. intros [type seq]. apply keeps_bind.
  - unfold dispatch_one. apply keeps_bind; [apply keeps_gets|]. intros t. apply keeps_virt.
  - intros _. apply keeps_bind; [apply keeps_gets|]. intros []; [apply keeps_ret|apply IH].
Qed.

End Identity.

(** C18: Once a client has made a request, whatever it sends on whatever connection and
    however long, the user name, the service, the account found in the database and
    its validity are those of the first request: later requests are checked against
    them and cannot change them. *)
Theorem auth_identity_fixed {K} `{!Connection K} `{!UserDb} `{!NoReturn} fuel (s : session K) :
  0 < attempt (ctxt s) -> same_identity (ctxt s) (ctxt (do_authentication2 fuel s).2).
Proof.
  intros Hs. pose proof (keeps_session fuel s Hs) as Hw. unfold wp in Hw.
  destruct (do_authentication2 fuel s) as [[a|e] s']; by destruct Hw.
Qed.

(** ** Sessions *)

Section Theorems.
Context {db : UserDb} {nr : NoReturn}.

(** C16: A session lets a client in only for a reason.  Whatever messages the client sends
    and whatever the database holds at each statement, authentication ends: either
    the client is in, and then one of its messages was a password request for the
    service ssh-connection whose user the database knew at the first request and
    whose non-empty password the database had for that user when it was checked; or
    the connection ends without a success message. *)
Theorem auth_sound msgs flags fuel : Forall msg_ok msgs -> (length msgs < fuel)%nat ->
  match do_authentication2 fuel (auth_start (script_start msgs flags)) with
  | (Ret _, s) => logged_in msgs s
  | (Throw e, s) => ended e /\ success (ctxt s) = false /\
      count SSH2_MSG_USERAUTH_SUCCESS (sent (con s)) = 0
  end.
Proof.
  intros Hm Hf. pose proof (session_spec msgs Hm flags fuel Hf) as Hw. unfold wp in Hw.
  destruct (do_authentication2 fuel _) as [[a|e] s]; [by destruct Hw|].
  by destruct Hw as (? & ? & _ & ? & _).
Qed.

(** C17: In one connection the database is asked at most six times (for the user once, for
    a password at most five times), at most five failures are counted and at most
    five requests are answered with a failure, however many messages come. *)
Theorem auth_attempts_bounded msgs flags fuel : Forall msg_ok msgs -> (length msgs < fuel)%nat ->
  bounded (do_authentication2 fuel (auth_start (script_start msgs flags))).2.
Proof.
  intros Hm Hf. pose proof (session_spec msgs Hm flags fuel Hf) as Hw. unfold wp in Hw.
  destruct (do_authentication2 fuel _) as [[a|e] s]; [by destruct Hw as (_ & ? & _)|].
  by destruct Hw as (_ & _ & ? & _).
Qed.

(** C25: Every message that was dealt with was answered in order: a service request by
    SERVICE_ACCEPT, an authentication request behind one by SUCCESS or FAILURE (with
    the banner before it), any other message by UNIMPLEMENTED with its sequence
    number; a session that breaks off adds at most a banner and a DISCONNECT, during
    the message it breaks off at. *)
Theorem auth_answers msgs flags fuel : Forall msg_ok msgs -> (length msgs < fuel)%nat ->
  match do_authentication2 fuel (auth_start (script_start msgs flags)) with
  | (Ret _, s) => exists ms, answers ms (sent (con s)) /\ msgs = ms ++ inbox (con s)
  | (Throw e, s) => exists ms l bn fw, answers ms l /\ is_banner bn /\ farewell fw /\
      sent (con s) = l ++ bn ++ fw /\ exists k, (k <= 1)%nat /\
      length msgs = (length ms + k + length (inbox (con s)))%nat /\ ms `prefix_of` msgs
  end.
Proof.
  intros Hm Hf. pose proof (session_spec msgs Hm flags fuel Hf) as Hw. unfold wp in Hw.
  destruct (do_authentication2 fuel _) as [[a|e] s]; [by destruct Hw as (_ & _ & _ & ?)|].
  by destruct Hw as (_ & _ & _ & _ & ?).
Qed.

(** If the function without a return statement gives zero, nobody ever logs in. *)
Theorem auth_zero_return msgs flags fuel : Forall msg_ok msgs -> (length msgs < fuel)%nat ->
  (forall n, no_return n = 0) ->
  exists e, (do_authentication2 fuel (auth_start (script_start msgs flags))).1 = Throw e.
Proof.
  intros Hm Hf Hz. pose proof (auth_sound msgs flags fuel Hm Hf) as Hw.
  destruct (do_authentication2 fuel _) as [[a|e] s]; [|by eexists].
  destruct Hw as (u & seq & usr & sv & meth & pass & n & _ & _ & _ & _ & _ & _ & _ & _ & _ & Hn).
  by rewrite Hz in Hn.
Qed.

(** *** A correct request *)

Implicit Types s : session script.

Lemma packet_buffer_capped payload : zlen payload <= 256 * 1024 ->
  capped (zlen payload) (packet_buffer payload).
Proof.
  intros Hl. destruct (packet_buffer_ok payload Hl) as [Hok _]. pose proof (zlen_nonneg payload).
  split; [done|]. cbn. unfold BUFFER_ALLOCSZ. lia.
Qed.

Lemma wp_string_there n v rest Q (E : exn -> session script -> Prop) s :
  capped n (cur s) -> zlen v <= 256 * 1024 -> contents (cur s) = field_bytes (FString v) ++ rest ->
  (forall b, capped n b -> contents b = rest -> Q v (with_buf b s)) ->
  wp (on_con get_string_field) Q E s.
Proof.
  intros Hc Hv Hco HQ. unfold on_con, get_string_field, reading, wp, zoom. cbn -[get_string].
  change (field_bytes (FString v)) with (put_u32 (zlen v) ++ v) in Hco. rewrite <- app_assoc in Hco.
  destruct (buffer_get_string_app n (cur s) v rest Hc Hv Hco) as (b & Eb & Hcb & Hrb).
  unfold buffer_get_string, get_string, cur in *.
  destruct (buffer_get_string_ret (current (con s))) as [[[w|] b']| |]; try done.
  injection Eb as -> ->. by apply HQ.
Qed.

Lemma wp_char_there n v rest Q (E : exn -> session script -> Prop) s :
  capped n (cur s) -> 0 <= v < 256 -> contents (cur s) = field_bytes (FChar v) ++ rest ->
  (forall b, capped n b -> contents b = rest -> Q v (with_buf b s)) ->
  wp (on_con get_char_field) Q E s.
Proof.
  intros Hc Hv Hco HQ. unfold on_con, get_char_field, reading, wp, zoom, get_char, get_or_fatal,
    buffer_get_char_ret. cbn -[buffer_get_ret]. unfold cur in *.
  destruct (buffer_get_ret_app n _ _ rest Hc Hco) as (b & Eb & Hcb & Hrb).
  change (zlen (field_bytes (FChar v))) with 1 in Eb. rewrite Eb. cbn. unfold znth. cbn.
  rewrite u8_small by lia. by apply HQ.
Qed.

Lemma wp_eom_there Q (E : exn -> session script -> Prop) s :
  buffer_ok (cur s) -> contents (cur s) = [] -> Q tt s -> wp (on_con packet_check_eom) Q E s.
Proof.
  intros Hok Hc HQ. assert (Hl : (buffer_len (incoming (con s)) >? 0) = false)
    by (change (incoming (con s)) with (cur s); by rewrite buffer_len_contents, Hc).
  unfold on_con, wp, zoom, packet_check_eom, mbind, SE_bind, gets. rewrite Hl. by destruct s.
Qed.

(** The right password is accepted by the method. *)
Lemma passwd_accepted n u pass s : capped n (cur s) -> zlen pass <= 256 * 1024 ->
  contents (cur s) = fields_bytes [FChar 0; FString pass] -> c_str pass <> [] ->
  user (ctxt s) = Some u -> valid (ctxt s) <> 0 -> password_matches (queries s) u (c_str pass) ->
  no_return (S (queries s)) <> 0 ->
  wp userauth_passwd (fun a s' => a = 1 /\ ctxt s' = ctxt s) (fun _ _ => False) s.
Proof.
  intros Hc Hl Hco Hne Hu Hv Hm Hn. unfold userauth_passwd.
  apply wp_bind, (wp_char_there n 0 (field_bytes (FString pass) ++ [])); [done|lia|done|].
  intros b1 Hc1 H1. apply wp_bind, (wp_string_there n pass []); [done|done|done|].
  intros b2 Hc2 H2. cbn [negb Z.eqb]. apply wp_bind, wp_ret, wp_bind, wp_eom_there; [apply Hc2|done|].
  apply wp_bind. unfold wp. rewrite auth_password_eq by done. cbn [queries ctxt with_buf set_con].
  unfold password_matches, selects in Hm. destruct (users_at (queries s)) as [users|] eqn:Eu; [|done].
  rewrite Hu, bool_decide_true by (unfold password_matches, selects; by rewrite Eu).
  rewrite (proj2 (Z.eqb_neq _ _) Hn), (proj2 (Z.eqb_neq _ _) Hv). done.
Qed.

(** The client is the one of the first request, or it is the first request and the
    database knows the user. *)
Definition may_try s (u : list Z) : Prop :=
  if attempt (ctxt s) =? 0 then known (queries s) u
  else user (ctxt s) = Some u /\ service (ctxt s) = Some (str "ssh-connection") /\ valid (ctxt s) <> 0.

Lemma first_accepted u st ro s : may_try s u ->
  wp (first_or_same u (str "ssh-connection") st ro)
    (fun _ s' => user (ctxt s') = Some u /\ valid (ctxt s') <> 0 /\ cur s' = cur s /\
       queries s' = (queries s + first_query s)%nat /\
       password_authentication s' = password_authentication s)
    (fun _ _ => False) s.
Proof.
  intros Hm. unfold first_or_same, may_try, first_query in *. apply wp_bind, wp_gets, wp_bind, wp_modify.
  set (s1 := set_ctxt _ s). destruct (attempt (ctxt s) =? 0).
  - destruct (find_allowed_eq u s1) as (p & Ef & Hp & _). apply wp_bind. unfold wp. rewrite Ef.
    unfold mbind, SE_bind, modify. rewrite userauth_banner_eq. cbn.
    rewrite bool_decide_true by (by apply Hp). split_and!; try done. lia.
  - destruct Hm as (Hu & Hs & Hv). rewrite Hu, Hs, !bool_decide_true by done. apply wp_ret.
    split_and!; try done.
Qed.

Lemma finish_accepted meth s : valid (ctxt s) <> 0 -> postponed (ctxt s) = 0 ->
  wp (userauth_finish 1 meth) (fun _ s' => success (ctxt s') = true /\
     last (sent (con s')) = Some (SSH2_MSG_USERAUTH_SUCCESS, [])) (fun _ _ => False) s.
Proof.
  intros Hv Hp. unfold userauth_finish. apply wp_bind, wp_gets.
  rewrite Hp, (proj2 (Z.eqb_neq _ _) Hv). cbn [negb Z.eqb andb].
  apply wp_bind, wp_modify, wp_bind, wp_send, wp_bind, wp_write_wait, wp_modify. split; [done|].
  cbn. apply last_snoc.
Qed.

Lemma request_accepted n u usr sv meth pass s : capped n (cur s) ->
  Forall (fun v => zlen v <= 256 * 1024) [usr; sv; meth; pass] ->
  contents (cur s) = fields_bytes [FString usr; FString sv; FString meth; FChar 0; FString pass] ->
  (split_user (c_str usr)).1.1 = u -> c_str sv = str "ssh-connection" ->
  c_str meth = str "password" -> c_str pass <> [] -> password_authentication s <> 0 -> may_try s u ->
  password_matches (queries s + first_query s) u (c_str pass) ->
  no_return (S (queries s + first_query s)) <> 0 ->
  wp input_userauth_request (fun _ s' => success (ctxt s') = true /\
     last (sent (con s')) = Some (SSH2_MSG_USERAUTH_SUCCESS, [])) (fun _ _ => False) s.
Proof.
  intros Hc Hl Hco Hu Hsv Hme Hpa Hen Htry Hm Hn. rewrite !Forall_cons in Hl.
  destruct Hl as (L1 & L2 & L3 & L4 & _). unfold input_userauth_request.
  apply wp_bind. eapply (wp_string_there n usr); [done|done|exact Hco|]. intros b1 Hc1 H1.
  apply wp_bind. eapply (wp_string_there n sv); [done|done|exact H1|]. intros b2 Hc2 H2.
  apply wp_bind. eapply (wp_string_there n meth); [done|done|exact H2|]. intros b3 Hc3 H3.
  destruct (split_user (c_str usr)) as [[u' st] ro]. cbn in Hu. subst u'. rewrite Hsv, Hme.
  apply wp_bind. eapply wp_mono; [by apply (first_accepted u st ro (with_buf b3 s))|..]; [|done].
  cbv beta. intros [] s1 (Hu1 & Hv1 & Hcu1 & Hq1 & Hp1). apply wp_bind, wp_modify, wp_bind, wp_gets.
  change (cur (with_buf b3 s)) with b3 in Hcu1.
  assert (Hlk : lookup_method (str "password") authmethods (set_ctxt (reset_state (ctxt s1)) s1) =
    Some (mkMethod (str "password") userauth_passwd_fn password_authentication)).
  { unfold authmethods. cbn [lookup_method m_enabled m_name]. rewrite andb_false_r.
    change (password_authentication (set_ctxt _ s1)) with (password_authentication s1).
    rewrite Hp1. change (password_authentication (with_buf b3 s)) with (password_authentication s).
    by rewrite (proj2 (Z.eqb_neq _ _) Hen). }
  rewrite Hlk. apply wp_bind. cbn [m_userauth call_method].
  eapply wp_mono; [apply (passwd_accepted n u pass)|..]; [..|done]; cbn [cur con set_ctxt queries ctxt];
    try done.
  - change (capped n (cur s1)). by rewrite Hcu1.
  - change (contents (cur s1) = fields_bytes [FChar 0; FString pass]). by rewrite Hcu1.
  - by rewrite Hq1.
  - by rewrite Hq1.
  - intros a s2 [-> Hc']. apply finish_accepted; by rewrite Hc'.
Qed.

(** C24: A request with the right password is accepted: in any state that deals with
    authentication requests, for the user of the first request or a user the database
    knows, when the checking function gives anything but zero, the next message logs
    the client in and is answered with success. *)
Theorem auth_complete s fuel seq usr sv meth pass rest u :
  inbox (con s) = (SSH2_MSG_USERAUTH_REQUEST, seq,
    fields_bytes [FString usr; FString sv; FString meth; FChar 0; FString pass]) :: rest ->
  zlen (fields_bytes [FString usr; FString sv; FString meth; FChar 0; FString pass]) <= 256 * 1024 ->
  dispatch_get (authDispatch s) SSH2_MSG_USERAUTH_REQUEST = userauth_request_msg ->
  (split_user (c_str usr)).1.1 = u -> c_str sv = str "ssh-connection" ->
  c_str meth = str "password" -> c_str pass <> [] -> password_authentication s <> 0 -> may_try s u ->
  password_matches (queries s + first_query s) u (c_str pass) ->
  no_return (S (queries s + first_query s)) <> 0 ->
  exists s', do_authentication2 (S fuel) s = (Ret tt, s') /\ success (ctxt s') = true /\
    last (sent (con s')) = Some (SSH2_MSG_USERAUTH_SUCCESS, []).
Proof.
  intros Hi Hl Hd Hu Hsv Hme Hpa Hen Htry Hm Hn. set (payload := fields_bytes _) in *.
  destruct (packet_buffer_ok payload Hl) as [_ Hco].
  set (s0 := set_con (mkScript rest (sent (con s)) (packet_buffer payload) (flags_of_peer (con s))
                        (closing (con s))) s).
  assert (Hw : wp input_userauth_request (fun _ s' => success (ctxt s') = true /\
     last (sent (con s')) = Some (SSH2_MSG_USERAUTH_SUCCESS, [])) (fun _ _ => False) s0).
  { apply (request_accepted (zlen payload) u usr sv meth pass); try done.
    - by apply packet_buffer_capped.
    - assert (Hlen : forall v, zlen (field_bytes (FString v)) = 4 + zlen v)
        by (intros v; change (field_bytes (FString v)) with (put_u32 (zlen v) ++ v); by rewrite zlen_app).
      unfold payload, fields_bytes in Hl. cbn [fmap list_fmap concat] in Hl.
      rewrite !zlen_app, !Hlen in Hl. pose proof (zlen_nonneg (field_bytes (FChar 0))).
      pose proof (zlen_nonneg usr). pose proof (zlen_nonneg sv). pose proof (zlen_nonneg meth).
      pose proof (zlen_nonneg pass). change (zlen []) with 0 in Hl. repeat constructor; lia. }
  unfold wp in Hw. destruct (input_userauth_request s0) as [[[]|e] s'] eqn:Er; [|done].
  exists s'. destruct Hw as [Hs Hlast]. split; [|done].
  unfold do_authentication2. cbn [dispatch_run]. unfold mbind, SE_bind, read_next, zoom. cbn [con_read script_connection].
  unfold script_read. rewrite Hi. fold s0. unfold dispatch_one, mbind, SE_bind, gets.
  change (authDispatch s0) with (authDispatch s). rewrite Hd. cbn [auth_virt]. rewrite Er, Hs. done.
Qed.

End Theorems.

(** ** Example: one user *)

Module Demo.

Definition db : UserDb := {| users_at _ := Some [mkRow (str "bob") (str "secret") (Some (str "c:\home"))] |}.
Definition nr : NoReturn := {| no_return _ := 1 |}.

Definition request (u m : string) (rest : list field) : Z * Z * list Z :=
  (SSH2_MSG_USERAUTH_REQUEST, 7,
   fields_bytes ([FString (str u); FString (str "ssh-connection"); FString (str m)] ++ rest)).
Definition password (u p : string) : Z * Z * list Z := request u "password" [FChar 0; FString (str p)].
Definition service_request : Z * Z * list Z :=
  (SSH2_MSG_SERVICE_REQUEST, 3, fields_bytes [FString (str "ssh-userauth")]).

(** A client that asks for the methods, mistypes once and gets in. *)
Definition client : list (Z * Z * list Z) :=
  [service_request; (80, 4, []); request "bob" "none" []; password "bob" "sekret"; password "bob" "secret"].

(** A client that guesses. *)
Definition guesser : list (Z * Z * list Z) :=
  service_request :: request "bob" "none" [] :: replicate 9 (password "bob" "123456").

Definition msg_okb (m : Z * Z * list Z) : bool :=
  forallb (fun x => (0 <=? x) && (x <? 256)) m.2 && (zlen m.2 <=? 256 * 1024).

Lemma msgs_ok_bool ms : forallb msg_okb ms = true -> Forall msg_ok ms.
Proof.
  rewrite forallb_forall. intros H. apply Forall_forall. intros m Hm. apply list_elem_of_In, H in Hm.
  unfold msg_okb in Hm. apply andb_true_iff in Hm as [Hb Hl]. zbool. split; [|done].
  rewrite forallb_forall in Hb. apply Forall_forall. intros x Hx. apply list_elem_of_In, Hb in Hx.
  zbool. unfold is_u8. lia.
Qed.

Lemma auth_sound_witness :
  Forall msg_ok client /\
  match @do_authentication2 script _ db nr 6 (auth_start (script_start client 0)) with
  | (Ret _, s) => @logged_in db nr client s
  | (Throw e, s) => ended e /\ success (ctxt s) = false /\
      count SSH2_MSG_USERAUTH_SUCCESS (sent (con s)) = 0
  end.
Proof.
  assert (H : Forall msg_ok client) by (apply msgs_ok_bool; vm_compute; reflexivity).
  split; [exact H|]. apply (@auth_sound db nr client 0 6 H). vm_compute. lia.
Defined.

Lemma auth_attempts_bounded_witness :
  Forall msg_ok guesser /\
  bounded (@do_authentication2 script _ db nr 20 (auth_start (script_start guesser 0))).2.
Proof.
  assert (H : Forall msg_ok guesser) by (apply msgs_ok_bool; vm_compute; reflexivity).
  split; [exact H|]. apply (@auth_attempts_bounded db nr guesser 0 20 H). vm_compute. lia.
Defined.

Lemma auth_answers_witness :
  Forall msg_ok guesser /\
  match @do_authentication2 script _ db nr 20 (auth_start (script_start guesser 0)) with
  | (Ret _, s) => exists ms, answers ms (sent (con s)) /\ guesser = ms ++ inbox (con s)
  | (Throw e, s) => exists ms l bn fw, answers ms l /\ is_banner bn /\ farewell fw /\
      sent (con s) = l ++ bn ++ fw /\ exists k, (k <= 1)%nat /\
      length guesser = (length ms + k + length (inbox (con s)))%nat /\ ms `prefix_of` guesser
  end.
Proof.
  assert (H : Forall msg_ok guesser) by (apply msgs_ok_bool; vm_compute; reflexivity).
  split; [exact H|]. apply (@auth_answers db nr guesser 0 20 H). vm_compute. lia.
Defined.

(** The state behind the service request. *)
Definition ready : session script :=
  mkSession (script_start [password "bob" "secret"] 0) authctxt_init 1 1
    (dispatch_set SSH2_MSG_USERAUTH_REQUEST userauth_request_msg auth_table) 0.

Lemma auth_complete_witness :
  exists s', @do_authentication2 script _ db nr 1 ready = (Ret tt, s') /\ success (ctxt s') = true /\
    last (sent (con s')) = Some (SSH2_MSG_USERAUTH_SUCCESS, []).
Proof.
  apply (@auth_complete db nr ready 0 7 (str "bob") (str "ssh-connection") (str "password")
           (str "secret") [] (str "bob")).
  - reflexivity.
  - vm_compute. congruence.
  - vm_compute. reflexivity.
  - reflexivity.
  - reflexivity.
  - reflexivity.
  - vm_compute. congruence.
  - vm_compute. congruence.
  - vm_compute. constructor. reflexivity.
  - vm_compute. constructor. split; reflexivity.
  - vm_compute. congruence.
Defined.

Definition second_user : session script :=
  mkSession (script_start [password "root" "secret"] 0)
    (set_up (Some (mkUser (str "bob") [])) 1 (str "bob") (str "ssh-connection") None None
       (count_attempt authctxt_init)) 0 1
    (dispatch_set SSH2_MSG_USERAUTH_REQUEST userauth_request_msg auth_table) 1.

Lemma auth_identity_fixed_witness :
  same_identity (ctxt second_user) (ctxt (@do_authentication2 script _ db nr 3 second_user).2).
Proof.
  apply (@auth_identity_fixed script _ db nr 3 second_user). vm_compute. reflexivity.
Defined.

End Demo.
