(* ===== verification/SshSocket.v ===== *)
(** * SshSocket: the packet layer on a socket

    [packet_read_seqnr], [packet_write_wait], [packet_write_poll] (CoreConnection.cpp)
    and [process_input], [process_output] (serverloop.cpp): the loops between the
    packet layer of [SshPacket] and a socket.  The socket is what its calls return: a
    list of the results of [recv], one of the results of [send], and the bytes the
    operating system has taken.  The time-out of a connection is never set, so that a
    wait only ends by one of these results.

    With [Connection net], authentication and the other handlers run on the packet
    layer.  The theorems: however [send] takes the bytes, they reach the wire in order
    and once; however [recv] cuts the bytes, the same packets are read. *)

From S2P Require Import Prelude SshBuffer CxxMonad SshCipher SshPacket SshTransport SshChannel SshDispatch.

(** ** The socket *)

(** [RecvData []] is the 0 of a closed connection; [RecvAgain] and [SendAgain] are the
    errors WSAEINTR and WSAEWOULDBLOCK. *)
Inductive recv_result := RecvData (d : list Z) | RecvAgain | RecvError.
Inductive send_result := SendSome (n : Z) | SendAgain | SendError.

Record socket := mkSocket { recvs : list recv_result; sends : list send_result; wire : list Z }.

Section Net.
Context `{CR : SshCipher.Crypto} `{ZL : Zlib} `{RN : Random}.

Record net := mkNet { pkt : conn; sock : socket; pd_disconnecting : bool; connection_closed : bool }.

Definition set_pkt (c : conn) (s : net) : net :=
  mkNet c (sock s) (pd_disconnecting s) (connection_closed s).
Definition set_sock (k : socket) (s : net) : net :=
  mkNet (pkt s) k (pd_disconnecting s) (connection_closed s).
Definition set_closed (s : net) : net := mkNet (pkt s) (sock s) (pd_disconnecting s) true.

(** An operation of the packet layer; [fatal] leaves the state before it. *)
Definition on_pkt {A} (f : conn -> res (A * conn)) : SE net A := fun s =>
  match f (pkt s) with
  | Ok (a, c) => (Ret a, set_pkt c s)
  | Fatal _ => (Throw ShuttingDown, s)
  | OutOfFuel => (Throw Diverges, s)
  end.

(** [RInOutSocket::send]: the number of bytes taken from [data], or -1 when it is to be
    tried again; other errors are thrown.  When the list
    of results is used up everything is taken. *)
Definition socket_send (data : list Z) (k : socket) : send_result * socket :=
  match sends k with
  | [] => (SendSome (zlen data), mkSocket (recvs k) [] (wire k ++ data))
  | SendSome n :: rest =>
      let n := Z.min n (zlen data) in
      (SendSome n, mkSocket (recvs k) rest (wire k ++ take (Z.to_nat n) data))
  | r :: rest => (r, mkSocket (recvs k) rest (wire k))
  end.

(** ** Writing *)

Definition packet_write_poll : SE net unit := fun s =>
  let len := buffer_len (output (pkt s)) in
  if len >? 0 then
    let '(r, k) := socket_send (buffer_ptr (output (pkt s))) (sock s) in
    let s := set_sock k s in
    match r with
    | SendAgain => (Ret tt, s)
    | SendError => (Throw SocketError, s)
    | SendSome n =>
        if n <=? 0 then (Throw ShuttingDown, s)
        else on_pkt (fun c => b ← buffer_consume (output c) n; Ok (tt, set_output c b)) s
    end
  else (Ret tt, s).

Definition packet_have_data_to_write (s : net) : bool := negb (buffer_len (output (pkt s)) =? 0).

Fixpoint write_wait_loop (fuel : nat) : SE net unit :=
  match fuel with
  | O => throw Diverges
  | S fuel =>
      d ← gets packet_have_data_to_write;
      if d : bool then packet_write_poll;; write_wait_loop fuel else mret tt
  end.

(** A turn uses up a result of [send], or everything is taken. *)
Definition packet_write_wait : SE net unit :=
  packet_write_poll;;
  n ← gets (fun s => length (sends (sock s)));
  write_wait_loop (S (S n)).

(** ** Reading *)

Definition packet_poll : SE net (Z * Z) := on_pkt packet_read_poll_seqnr.

(** [recv]; the connection is closed when the list of results is used up. *)
Definition socket_recv : SE net recv_result := fun s =>
  match recvs (sock s) with
  | [] => (Ret (RecvData []), s)
  | r :: rest => (Ret r, set_sock (mkSocket rest (sends (sock s)) (wire (sock s))) s)
  end.

Definition process_incoming (d : list Z) : SE net unit :=
  on_pkt (fun c => c ← packet_process_incoming c d; Ok (tt, c)).

Fixpoint read_loop (fuel : nat) : SE net (Z * Z) :=
  match fuel with
  | O => throw Diverges
  | S fuel =>
      '(type, seq) ← packet_poll;
      if negb (type =? SSH_MSG_NONE) then mret (type, seq)
      else
        r ← socket_recv;
        match r with
        | RecvData [] => throw ShuttingDown
        | RecvAgain | RecvError => throw SocketError
        | RecvData d => process_incoming d;; read_loop fuel
        end
  end.

(** Every turn but the last uses up a result of [recv]. *)
Definition packet_read_seqnr : SE net (Z * Z) :=
  packet_write_wait;;
  n ← gets (fun s => length (recvs (sock s)));
  read_loop (S n).

(** *** The server loop's input and output *)

Definition process_input (fd_read fd_close : bool) : SE net unit :=
  (if fd_read then
     r ← socket_recv;
     match r with
     | RecvData [] => modify set_closed
     | RecvData d => process_incoming d
     | RecvAgain => mret tt
     | RecvError => throw ShuttingDown
     end
   else mret tt);;
  if fd_close then modify set_closed else mret tt.

Definition process_output : SE net unit := packet_write_poll.

#[global] Instance net_connection : Connection net := {
  incoming s := incoming_packet (pkt s);
  set_incoming b s := set_pkt (set_incoming_packet (pkt s) b) s;
  peer_flags s := datafellows (pkt s);
  disconnecting := pd_disconnecting;
  set_disconnecting s := mkNet (pkt s) (sock s) true (connection_closed s);
  con_send type fs := on_pkt (fun c => c ← send_msg c type fs; Ok (tt, c));
  con_write_wait := packet_write_wait;
  con_read := packet_read_seqnr;
  con_poll := packet_poll
}.

(** ** What is written *)

(** The bytes on the wire and those still buffered. *)
Definition stream_out (s : net) : list Z := wire (sock s) ++ contents (output (pkt s)).

(** The rest of the state, which writing does not touch. *)
Definition same_but_output (s s' : net) : Prop :=
  pkt s' = set_output (pkt s) (output (pkt s')) /\ recvs (sock s') = recvs (sock s) /\
  pd_disconnecting s' = pd_disconnecting s /\ connection_closed s' = connection_closed s.

Record written (s s' : net) : Prop := {
  wr_ok : buffer_ok (output (pkt s'));
  wr_stream : stream_out s' = stream_out s;
  wr_same : same_but_output s s';
  wr_wire : wire (sock s) `prefix_of` wire (sock s')
}.

Lemma set_output_twice c b b' : set_output (set_output c b) b' = set_output c b'.
Proof. done. Qed.

Lemma written_trans s1 s2 s3 : written s1 s2 -> written s2 s3 -> written s1 s3.
Proof.
  intros [H1 H2 (A1 & A2 & A3 & A4) H4] [J1 J2 (B1 & B2 & B3 & B4) J4]. split; [done|congruence| |].
  - unfold same_but_output. rewrite B1, A1, B2, B3, B4. done.
  - by etrans.
Qed.

Lemma set_output_id c : set_output c (output c) = c.
Proof. by destruct c. Qed.

Lemma written_refl s : buffer_ok (output (pkt s)) -> written s s.
Proof. intros Hb. split; [done|done| |done]. unfold same_but_output. by rewrite set_output_id. Qed.

(** A result of [send] that ends the connection. *)
Definition failing (r : send_result) : Prop :=
  match r with SendSome n => n <= 0 | SendAgain => False | SendError => True end.

Definition write_error (s : net) (e : exn) (s' : net) : Prop :=
  written s s' /\ (e = ShuttingDown \/ e = SocketError) /\ Exists failing (sends (sock s)).

Lemma write_error_trans s1 s2 e s3 :
  written s1 s2 -> sends (sock s2) `suffix_of` sends (sock s1) -> write_error s2 e s3 -> write_error s1 e s3.
Proof.
  intros Hw [k Hk] (Hw2 & He & Hs). split_and!; [by eapply written_trans|done|].
  rewrite Hk. apply Exists_app. by right.
Qed.

Lemma write_poll_spec s : buffer_ok (output (pkt s)) ->
  wp packet_write_poll
    (fun _ s' => written s s' /\
       (contents (output (pkt s')) = [] \/ (length (sends (sock s')) < length (sends (sock s)))%nat) /\
       sends (sock s') `suffix_of` sends (sock s))
    (write_error s) s.
Proof.
  intros Hb. unfold wp, packet_write_poll. rewrite buffer_len_contents, buffer_ptr_contents by done.
  destruct (_ >? 0) eqn:El; zbool.
  2:{ split; [by apply written_refl|]. split; [left|done]. pose proof (zlen_nonneg (contents (output (pkt s)))).
      apply nil_length_inv. unfold zlen in *. lia. }
  assert (Htake : forall n k, 0 < n <= zlen (contents (output (pkt s))) ->
    wire k = wire (sock s) ++ take (Z.to_nat n) (contents (output (pkt s))) -> recvs k = recvs (sock s) ->
    exists b, buffer_consume (output (pkt s)) n = Ok b /\
      written s (set_pkt (set_output (pkt s) b) (set_sock k s)) /\
      contents b = drop (Z.to_nat n) (contents (output (pkt s)))).
  { intros n k Hn Hw Hr.
    destruct (buffer_consume_app (output (pkt s)) (take (Z.to_nat n) (contents (output (pkt s))))
                (drop (Z.to_nat n) (contents (output (pkt s)))) Hb) as (b & Eb & Hbo & Hc & _);
      [by rewrite take_drop|].
    replace (zlen (take _ _)) with n in Eb by (unfold zlen in *; rewrite length_take; lia).
    exists b. split; [done|]. split; [|done]. split; [done| |by split_and!|].
    - unfold stream_out. cbn. by rewrite Hw, Hc, <- app_assoc, take_drop.
    - cbn. rewrite Hw. by eexists. }
  unfold socket_send. destruct (sends (sock s)) as [|r rest] eqn:Es.
  - set (n := zlen _). rewrite (proj2 (Z.leb_gt n 0)) by lia.
    destruct (Htake n (mkSocket (recvs (sock s)) [] (wire (sock s) ++ contents (output (pkt s)))))
      as (b & Eb & Hw & Hc); [lia| |done|].
    { cbn. unfold n, zlen. rewrite Nat2Z.id, take_ge by lia. done. }
    unfold on_pkt. cbn. rewrite Eb. cbn. split; [done|]. split; [left|done].
    rewrite Hc. unfold n, zlen. rewrite Nat2Z.id. apply drop_ge. lia.
  - destruct r as [n| |]; cbn.
    + set (n' := Z.min n _). destruct (n' <=? 0) eqn:En; zbool.
      * split; [|split; [by left|rewrite Es; left; cbn; lia]]. unfold n'. replace (Z.to_nat _) with 0%nat by lia.
        split; cbn; [done|by rewrite take_0, app_nil_r| |by rewrite take_0, app_nil_r].
        split; [by rewrite set_output_id|done].
      * destruct (Htake n' (mkSocket (recvs (sock s)) rest
            (wire (sock s) ++ take (Z.to_nat n') (contents (output (pkt s))))))
          as (b & Eb & Hw & Hc); [lia|done|done|].
        unfold on_pkt. cbn. rewrite Eb. cbn. split; [done|]. split; [right; lia|by exists [SendSome n]].
    + split; [|split; [right; lia|by exists [SendAgain]]]. split; try done. split; [by rewrite set_output_id|done].
    + split; [|split; [by right|rewrite Es; by left]]. split; try done. split; [by rewrite set_output_id|done].
Qed.

Lemma write_wait_loop_spec fuel : forall s, buffer_ok (output (pkt s)) -> (1 <= fuel)%nat ->
  (contents (output (pkt s)) = [] \/ length (sends (sock s)) + 2 <= fuel)%nat ->
  wp (write_wait_loop fuel) (fun _ s' => written s s' /\ contents (output (pkt s')) = []) (write_error s) s.
Proof.
  induction fuel as [|fuel IH]; intros s Hb Hf Hc; [lia|]. cbn [write_wait_loop].
  apply wp_bind, wp_gets. unfold packet_have_data_to_write. rewrite buffer_len_contents by done.
  destruct (zlen _ =? 0) eqn:El; cbn [negb]; zbool.
  { apply wp_ret. split; [by apply written_refl|]. apply nil_length_inv. unfold zlen in El. lia. }
  assert (Hne : contents (output (pkt s)) <> []) by (intros E; rewrite E in El; done).
  destruct Hc as [|Hc]; [done|]. apply wp_bind. eapply wp_mono; [by apply write_poll_spec|..]; cbv beta.
  - intros [] s1 (Hw & Hd & Hl). eapply wp_mono; [apply IH|..]; cbv beta.
    + by destruct Hw.
    + lia.
    + destruct Hd as [Hd|Hd]; [by left|right; lia].
    + intros [] s2 [Hw2 He]. split; [by eapply written_trans|done].
    + intros e s2. by apply write_error_trans.
  - done.
Qed.

Lemma write_wait_spec s : buffer_ok (output (pkt s)) ->
  wp packet_write_wait (fun _ s' => written s s' /\ contents (output (pkt s')) = []) (write_error s) s.
Proof.
  intros Hb. unfold packet_write_wait. apply wp_bind.
  eapply wp_mono; [by apply write_poll_spec|..]; cbv beta; [|done].
  intros [] s1 (Hw & _ & Hl). apply wp_bind, wp_gets.
  eapply wp_mono; [apply write_wait_loop_spec; [by destruct Hw|lia|right; lia]|..]; cbv beta.
  - intros [] s2 [Hw2 He]. split; [by eapply written_trans|done].
  - intros e s2. by apply write_error_trans.
Qed.

(** C14: However the operating system takes the data (in parts, with interruptions, with an
    error in between), [packet_write_wait] returns, and what is on the wire together
    with what is still buffered is exactly what was there before, in order: nothing is
    lost, sent twice or overtaken.  When it ends normally everything is on the wire,
    and without an error of the socket it does end normally. *)
Theorem write_wait_conserves s : buffer_ok (output (pkt s)) ->
  match packet_write_wait s with
  | (Ret _, s') => wire (sock s') = wire (sock s) ++ contents (output (pkt s)) /\
      contents (output (pkt s')) = []
  | (Throw e, s') => (e = ShuttingDown \/ e = SocketError) /\ Exists failing (sends (sock s)) /\
      wire (sock s') ++ contents (output (pkt s')) = wire (sock s) ++ contents (output (pkt s)) /\
      wire (sock s) `prefix_of` wire (sock s')
  end.
Proof.
  intros Hb. pose proof (write_wait_spec s Hb) as Hw. unfold wp in Hw.
  destruct (packet_write_wait s) as [[[]|e] s'].
  - destruct Hw as [[_ Hs _ _] He]. split; [|done]. unfold stream_out in Hs.
    by rewrite He, app_nil_r in Hs.
  - by destruct Hw as ([_ Hs _ Hp] & He & Hn).
Qed.

End Net.
