(* ===== verification/SshSegments.v ===== *)
(** * SshSegments: packets do not depend on how the bytes arrive

    The packet layer reads what is buffered; a packet may come in many pieces.  [ext d]
    relates a connection to one with the bytes [d] behind its input.  Polling respects
    it: what is read with fewer bytes is read with more, and a poll that finds too
    little changes nothing that a later poll depends on.  So [packet_read_seqnr]
    returns the same packets however [recv] cuts the stream. *)

From S2P Require Import Prelude SshBuffer CxxMonad SshCipher SshPacket SshTransport SshChannel SshDispatch SshSocket.

Section Segments.
Context `{CR : SshCipher.Crypto} `{ZL : Zlib} `{RN : Random}.

(** ** Connections that differ in their input *)

Record ext (d : list Z) (c c' : conn) : Prop := {
  ex_same : c' = set_input c (input c');
  ex_ok : buffer_ok (input c);
  ex_ok' : buffer_ok (input c');
  ex_input : contents (input c') = contents (input c) ++ d
}.

Definition rel {A} (R : A -> A -> Prop) (r r' : res A) : Prop :=
  match r, r' with
  | Ok a, Ok a' => R a a'
  | Fatal m, Fatal m' => m = m'
  | OutOfFuel, OutOfFuel => True
  | _, _ => False
  end.

(** The same value and related connections. *)
Definition ext_val {A} (d : list Z) (p p' : A * conn) : Prop := p.1 = p'.1 /\ ext d p.2 p'.2.

Lemma rel_bind {A B} (R : A -> A -> Prop) (T : B -> B -> Prop) r r' f f' :
  rel R r r' -> (forall a a', R a a' -> rel T (f a) (f' a')) -> rel T (r ≫= f) (r' ≫= f').
Proof. destruct r, r'; cbn; intros H Hf; try done. by apply Hf. Qed.

(** The same computation first. *)
Lemma rel_same {A B} (T : B -> B -> Prop) (r : res A) f f' :
  (forall a, r = Ok a -> rel T (f a) (f' a)) -> rel T (r ≫= f) (r ≫= f').
Proof. destruct r; cbn; intros Hf; [by apply Hf|done|done]. Qed.

(** An operation that neither reads nor changes the input. *)
Definition frames (f : conn -> res conn) : Prop := forall c b,
  f (set_input c b) = (c1 ← f c; Ok (set_input c1 b)).

Lemma set_input_id c : set_input c (input c) = c.
Proof. by destruct c. Qed.

Lemma frames_ext d f c c' : frames f -> ext d c c' -> rel (ext d) (f c) (f c').
Proof.
  intros Hf [Hs Ho Ho' Hi]. rewrite Hs, Hf.
  pose proof (Hf c (input c)) as Hi0. rewrite set_input_id in Hi0.
  destruct (f c) as [c1| |]; [|done|done]. cbn in *. injection Hi0 as Hi0.
  assert (Hin : input c1 = input c) by (rewrite Hi0; done).
  split; cbn; rewrite ?Hin; done.
Qed.

Lemma frames_Ok (g : conn -> conn) : (forall c b, g (set_input c b) = set_input (g c) b) ->
  frames (fun c => Ok (g c)).
Proof. intros Hg c b. cbn. by rewrite Hg. Qed.

Lemma frames_bind f g : frames f -> frames g -> frames (fun c => c ← f c; g c).
Proof.
  intros Hf Hg c b. rewrite Hf. destruct (f c) as [c1| |]; [|done|done]. cbn. apply Hg.
Qed.

Lemma frames_enable_compression mode nk : frames (fun c => enable_compression c mode nk).
Proof.
  intros c b. unfold enable_compression, packet_init_compression. cbn.
  destruct (compression_buffer_ready c), mode; cbn; try done.
  all: unfold buffer_compress_init_send; cbn; by destruct (_ || _).
Qed.

Lemma frames_set_newkeys mode : frames (fun c => set_newkeys c mode).
Proof.
  intros c b. unfold set_newkeys. cbn [kex_get_newkeys].
  replace (get_dir (set_input c b) mode) with (get_dir c mode) by (by destruct mode).
  cbn [kex_get_newkeys]. unfold kex_get_newkeys. cbn.
  destruct (current_keys (get_dir c mode)) as [nk|]; [|done].
  destruct (mac_init (nk_mac nk)) as [[ok mac]| |]; [|done|done]. cbn.
  destruct (cipher_init _ _ _ _) as [cc| |]; [|done|done]. cbn.
  destruct mode.
  all: match goal with |- (if ?x then _ else _) = _ => destruct x end; [|done].
  all: match goal with |- enable_compression (set_dir _ ?m ?d) _ ?nk' = _ =>
         exact (frames_enable_compression m nk' (set_dir c m d) b) end.
Qed.

Lemma frames_enable_delayed mode : frames (fun c => enable_delayed c mode).
Proof.
  intros c b. unfold enable_delayed.
  replace (get_dir (set_input c b) mode) with (get_dir c mode) by (by destruct mode).
  destruct (newkeys (get_dir c mode)) as [nk|]; [|done].
  destruct (_ && _); [|done]. apply frames_enable_compression.
Qed.

Lemma frames_enable_delayed_compress : frames packet_enable_delayed_compress.
Proof.
  intros c b. unfold packet_enable_delayed_compress.
  change (set_after_auth (set_input c b) true) with (set_input (set_after_auth c true) b).
  apply (frames_bind _ _ (frames_enable_delayed MODE_IN) (frames_enable_delayed MODE_OUT)).
Qed.

Lemma frames_uncompress : frames uncompress_incoming.
Proof.
  intros c b. unfold uncompress_incoming.
  change (incoming_stream (set_input c b)) with (incoming_stream c).
  change (incoming_packet (set_input c b)) with (incoming_packet c).
  change (compression_buffer (set_input c b)) with (compression_buffer c).
  destruct (incoming_stream c) as [zs|]; [|done].
  destruct (buffer_uncompress zs (incoming_packet c) (buffer_clear (compression_buffer c)))
    as [[zs' cb]| |]; [|done|done]. cbn [mbind res_bind].
  by destruct (buffer_append (buffer_clear (incoming_packet c)) (buffer_ptr cb)).
Qed.

(** *** Reading fields *)

Lemma ext_incoming d c c' : ext d c c' -> incoming_packet c' = incoming_packet c.
Proof. intros [-> _ _ _]. done. Qed.

Lemma ext_setter d (g : conn -> conn) c c' :
  (forall c b, g (set_input c b) = set_input (g c) b) -> ext d c c' -> ext d (g c) (g c').
Proof.
  intros Hg He. pose proof (frames_ext d _ c c' (frames_Ok g Hg) He) as H. exact H.
Qed.

(** A reader of the current packet. *)
Definition reads {A} (g : conn -> res (A * conn)) : Prop :=
  (forall d c c', ext d c c' -> rel (ext_val d) (g c) (g c')) /\
  (forall c v c1, g c = Ok (v, c1) -> exists b, c1 = set_incoming_packet c b).

Lemma reads_intro {A B} (get : Buffer -> res (B * Buffer)) (h : B -> A) :
  reads (fun c => '(p, b) ← get (incoming_packet c); Ok (h p, set_incoming_packet c b)).
Proof.
  split.
  - intros d c c' He. rewrite (ext_incoming _ _ _ He). apply rel_same. intros [v b] _. split; [done|].
    by apply (ext_setter d (fun c => set_incoming_packet c b)).
  - intros c v c1 E. ok_bind E. destruct a as [p b]. injection E as _ <-. by exists b.
Qed.

Lemma ext_get_char : reads packet_get_char.
Proof. apply (reads_intro (fun b => buffer_get b 1) (fun p => znth 0 p 0)). Qed.
Lemma ext_get_int : reads packet_get_int.
Proof. apply (reads_intro buffer_get_int id). Qed.
Lemma ext_get_string : reads packet_get_string.
Proof. apply (reads_intro buffer_get_string id). Qed.

(** ** One poll *)

Lemma ext_dir d c c' : ext d c c' -> din c' = din c.
Proof. intros [-> _ _ _]. done. Qed.

Lemma ext_take d c c' n : ext d c c' -> 0 <= n <= zlen (contents (input c)) ->
  take (Z.to_nat n) (buffer_ptr (input c')) = take (Z.to_nat n) (buffer_ptr (input c)).
Proof.
  intros [_ Ho Ho' Hi] Hn. rewrite !buffer_ptr_contents, Hi, take_app_le by (done || (unfold zlen in *; lia)).
  done.
Qed.

(** Taking bytes off the front. *)
Lemma ext_consume d c c' n : ext d c c' -> 0 <= n <= zlen (contents (input c)) ->
  exists b b', buffer_consume (input c) n = Ok b /\ buffer_consume (input c') n = Ok b' /\
    ext d (set_input c b) (set_input c' b') /\ zlen (contents b) = zlen (contents (input c)) - n.
Proof.
  intros [Hs Ho Ho' Hi] Hn. set (x := take (Z.to_nat n) (contents (input c))).
  set (y := drop (Z.to_nat n) (contents (input c))).
  assert (Hx : zlen x = n) by (unfold x, zlen in *; rewrite length_take; lia).
  destruct (buffer_consume_app (input c) x y Ho) as (b & Eb & Hb & Hc & _); [by unfold x, y; rewrite take_drop|].
  destruct (buffer_consume_app (input c') x (y ++ d) Ho') as (b' & Eb' & Hb' & Hc' & _).
  { rewrite Hi, app_assoc. unfold x, y. by rewrite take_drop. }
  rewrite Hx in *. exists b, b'. split_and!; [done|done| |].
  - split; cbn; [by rewrite Hs|done|done|congruence].
  - rewrite Hc. unfold y, zlen in *. rewrite length_drop. lia.
Qed.

Lemma set_input_comm d c c' (g : conn -> conn) b b' :
  (forall c b, g (set_input c b) = set_input (g c) b) -> ext d (set_input c b) (set_input c' b') ->
  ext d (set_input (g c) b) (set_input (g c') b').
Proof. intros Hg He. rewrite <- !Hg. by apply ext_setter. Qed.

Lemma check_mac_rel d c c' maclen : ext d c c' -> 0 <= maclen <= zlen (contents (input c)) ->
  rel (ext d) (check_mac c maclen) (check_mac c' maclen).
Proof.
  intros He Hm. unfold check_mac. rewrite (ext_incoming _ _ _ He), (ext_dir _ _ _ He).
  apply rel_same. intros [[m|] d1] _; [|done]. rewrite (ext_take _ _ _ _ He Hm).
  destruct (bool_decide _); [|done].
  destruct (ext_consume _ _ _ _ He Hm) as (b & b' & -> & -> & Hb & _). cbn [mbind res_bind rel].
  by apply (set_input_comm d c c' (fun c => set_dir c MODE_IN d1)).
Qed.

(** Sizes of the cipher and MAC tables. *)
Definition usual (p : Z * Z) : Prop := (p.1 = 8 \/ p.1 = 16) /\ 0 <= p.2 <= 65536.

(** A packet length that was read passed the first check. *)
Definition length_ok (c : conn) : Prop :=
  poll2_packet_length c = 0 \/ 1 + 4 <= poll2_packet_length c <= 256 * 1024.

Definition missing (c : conn) (bs ml : Z) : bool :=
  ((4 + poll2_packet_length c) mod bs =? 0) &&
  (zlen (contents (input c)) <? 4 + poll2_packet_length c - bs + ml).

Lemma need_cases plen bs ml : bs = 8 \/ bs = 16 -> 5 <= plen <= 256 * 1024 -> 0 <= ml <= 65536 ->
  (u32 (4 + plen - bs) mod bs =? 0) = ((4 + plen) mod bs =? 0) /\
  ((4 + plen) mod bs = 0 -> u32 (4 + plen - bs) = 4 + plen - bs /\ 0 <= 4 + plen - bs /\
     u32 (u32 (4 + plen - bs) + ml) = 4 + plen - bs + ml).
Proof.
  intros Hbs Hp Hm. unfold u32. destruct Hbs as [-> | ->].
  - split; [|Z.div_mod_to_equations; lia].
    apply eq_true_iff_eq. rewrite !Z.eqb_eq. Z.div_mod_to_equations; lia.
  - split; [|Z.div_mod_to_equations; lia].
    apply eq_true_iff_eq. rewrite !Z.eqb_eq. Z.div_mod_to_equations; lia.
Qed.

Lemma ext_plen d c c' : ext d c c' -> poll2_packet_length c' = poll2_packet_length c.
Proof. intros [-> _ _ _]. done. Qed.

(** What follows a packet that has been taken off the input. *)
Lemma after_packet_rel d c c' (type seq : Z) : ext d c c' ->
  rel (ext_val d)
    (c ← (if type =? SSH2_MSG_NEWKEYS then set_newkeys c MODE_IN
          else if (type =? SSH2_MSG_USERAUTH_SUCCESS) && negb server_side
               then packet_enable_delayed_compress c else Ok c);
     Ok (type, seq, set_poll2_len c 0))
    (c ← (if type =? SSH2_MSG_NEWKEYS then set_newkeys c' MODE_IN
          else if (type =? SSH2_MSG_USERAUTH_SUCCESS) && negb server_side
               then packet_enable_delayed_compress c' else Ok c');
     Ok (type, seq, set_poll2_len c 0)).
Proof.
  intros He. apply (rel_bind (ext d)).
  - destruct (_ =? SSH2_MSG_NEWKEYS); [by apply (frames_ext d _ c c' (frames_set_newkeys MODE_IN))|].
    destruct (_ && _); [|done]. by apply frames_ext; [apply frames_enable_delayed_compress|].
  - intros c1 c1' H1. split; [done|]. by apply (ext_setter d (fun c => set_poll2_len c 0)).
Qed.

(** Stripping the padding, decompressing, taking the type. *)
Lemma open_packet_rel d c c' (seq : Z) (comp : option Comp) : ext d c c' ->
  let strip c :=
    let padlen := znth 0 (buffer_ptr (incoming_packet c)) 4 in
    if padlen <? 4 then packet_disconnect "Corrupted padlen on input." else
    ic ← buffer_consume (incoming_packet c) (4 + 1);
    ic ← buffer_consume_end ic padlen;
    let c := set_incoming_packet c ic in
    c ← match comp with
        | Some comp => if comp_enabled comp then uncompress_incoming c else Ok c
        | None => Ok c
        end;
    '(type, ic) ← buffer_get_char (incoming_packet c);
    let c := set_incoming_packet c ic in
    if (type <? SSH2_MSG_MIN) || (type >=? SSH2_MSG_LOCAL_MIN) then
      packet_disconnect "Invalid ssh2 packet type"
    else
      c ← (if type =? SSH2_MSG_NEWKEYS then set_newkeys c MODE_IN
           else if (type =? SSH2_MSG_USERAUTH_SUCCESS) && negb server_side
                then packet_enable_delayed_compress c
                else Ok c);
      Ok (type, seq, set_poll2_len c 0) in
  rel (ext_val d) (strip c) (strip c').
Proof.
  intros He strip. unfold strip. rewrite (ext_incoming _ _ _ He). destruct (_ <? 4); [done|].
  apply rel_same. intros ic1 _. apply rel_same. intros ic2 _.
  apply (rel_bind (ext d)).
  - assert (He2 : ext d (set_incoming_packet c ic2) (set_incoming_packet c' ic2))
      by (by apply (ext_setter d (fun c => set_incoming_packet c ic2))).
    destruct comp as [co|]; [|done]. destruct (comp_enabled co); [|done].
    by apply frames_ext; [apply frames_uncompress|].
  - intros c1 c1' H1. rewrite (ext_incoming _ _ _ H1). apply rel_same. intros [type ic3] _.
    destruct (_ || _); [done|]. apply after_packet_rel.
    by apply (ext_setter d (fun c => set_incoming_packet c ic3)).
Qed.

Lemma read_rest_rel d c c' bs ml : ext d c c' -> bs = 8 \/ bs = 16 -> 0 <= ml <= 65536 ->
  1 + 4 <= poll2_packet_length c <= 256 * 1024 ->
  if missing c bs ml then read_rest c bs ml = Ok (SSH_MSG_NONE, 0, c)
  else rel (ext_val d) (read_rest c bs ml) (read_rest c' bs ml).
Proof.
  intros He Hbs Hml Hpl. pose proof He as [_ Ho Ho' Hi].
  destruct (need_cases (poll2_packet_length c) bs ml Hbs Hpl Hml) as [Hmod Hneed].
  unfold missing, read_rest. rewrite (ext_plen _ _ _ He), (ext_dir _ _ _ He), Hmod.
  destruct ((4 + poll2_packet_length c) mod bs =? 0) eqn:Em; cbn [negb andb]; [|done]. zbool.
  destruct (Hneed Em) as (-> & Hn0 & Hsum). rewrite Hsum.
  set (need := 4 + poll2_packet_length c - bs) in *.
  rewrite !buffer_len_contents by done.
  destruct (zlen (contents (input c)) <? need + ml) eqn:El; [done|]. zbool.
  rewrite (proj2 (Z.ltb_ge _ _)) by (rewrite Hi, zlen_app; pose proof (zlen_nonneg d); lia).
  rewrite (ext_take _ _ _ need He), (ext_incoming _ _ _ He) by lia.
  apply rel_same. intros [ic cc] _.
  destruct (ext_consume _ _ _ need He ltac:(lia)) as (b & b' & -> & -> & Hb & Hlen). cbn [mbind res_bind].
  apply (rel_bind (ext d)).
  - apply check_mac_rel; [|cbn; lia].
    exact (set_input_comm d c c'
      (fun x => set_incoming_packet (set_dir x MODE_IN (set_context (din c) cc)) ic) b b' (fun _ _ => eq_refl) Hb).
  - intros c1 c1' H1. rewrite (ext_dir _ _ _ H1).
    replace (datafellows c1') with (datafellows c1) by (destruct H1 as [-> _ _ _]; done).
    apply rel_same. intros ps _.
    assert (H2 : ext d (set_dir c1 MODE_IN (set_pst (din c1) ps)) (set_dir c1' MODE_IN (set_pst (din c1) ps)))
      by (by apply (ext_setter d (fun c => set_dir c MODE_IN (set_pst (din c1) ps)))).
    exact (open_packet_rel d _ _ (seqnr (pst (din c1))) (nk_comp <$> newkeys (din c)) H2).
Qed.

(** A packet that was read has a type. *)
Lemma read_rest_type c bs ml type seq c' : bs = 8 \/ bs = 16 -> 0 <= ml <= 65536 ->
  1 + 4 <= poll2_packet_length c <= 256 * 1024 -> buffer_ok (input c) -> missing c bs ml = false ->
  read_rest c bs ml = Ok (type, seq, c') -> type <> SSH_MSG_NONE.
Proof.
  intros Hbs Hml Hpl Ho Hmi E. destruct (need_cases (poll2_packet_length c) bs ml Hbs Hpl Hml) as [Hmod Hneed].
  unfold missing, read_rest in *. rewrite Hmod in E.
  destruct (_ =? 0) eqn:Em in E, Hmi; cbn [negb andb] in *; [|done]. apply Z.eqb_eq in Em.
  destruct (Hneed Em) as (_ & _ & Hsum). rewrite Hsum, buffer_len_contents, Hmi in E by done.
  ok_bind E. destruct a as [ic cc]. ok_bind E. ok_bind E. ok_bind E. destruct (_ <? 4) in E; [done|].
  ok_bind E. ok_bind E. ok_bind E. ok_bind E. destruct a5 as [ty ic3].
  destruct (_ || _) eqn:Et in E; [done|]. ok_bind E. injection E as <- _ _.
  rewrite orb_false_iff in Et. destruct Et. zbool. unfold SSH2_MSG_MIN, SSH_MSG_NONE in *. lia.
Qed.

Section Poll.
(** The bytes the input buffer has to hold at most. *)
Context (N : Z).

(** The state between two polls. *)
Record idle (c : conn) : Prop := {
  id_ok : capped N (input c);
  id_dims : dir_all usual (din c);
  id_len : length_ok c
}.

Lemma usual_sizes d : dir_all usual d ->
  (bsize (newkeys d) = 8 \/ bsize (newkeys d) = 16) /\ 0 <= maclen_of (newkeys d) <= 65536.
Proof.
  intros [Hn _]. destruct (newkeys d) as [nk|]; [|by split; [left|]].
  destruct (Hn nk eq_refl) as [Hb Hm]. cbn in *. split; [done|]. destruct (mac_enabled _); lia.
Qed.

Lemma usual_sane d : dir_all usual d -> dir_all sane d.
Proof.
  intros [Hn Hc]. split; intros nk E; [destruct (Hn nk E)|destruct (Hc nk E)]; unfold sane; lia.
Qed.

Lemma idle_poll_ok c : idle c -> poll_all sane c.
Proof. intros [[? _]]. split; [done|by apply usual_sane]. Qed.

Lemma capped_same_end b b' : capped N b -> same_end b b' -> buffer_ok b' -> capped N b'.
Proof. intros (_ & ? & ?) [E1 E2] Ho. split; [done|]. by rewrite E1, E2. Qed.

(** The first block. *)
Lemma first_block_rel d c c' bs : ext d c c' -> bs = 8 \/ bs = 16 -> length_ok c ->
  read_first_block c bs = Ok None \/
  (exists m, read_first_block c bs = Fatal m /\ read_first_block c' bs = Fatal m) \/
  (read_first_block c bs = OutOfFuel /\ read_first_block c' bs = OutOfFuel) \/
  exists c1 c1', read_first_block c bs = Ok (Some c1) /\ read_first_block c' bs = Ok (Some c1') /\
    ext d c1 c1' /\ 1 + 4 <= poll2_packet_length c1 <= 256 * 1024 /\
    newkeys (din c1) = newkeys (din c) /\ current_keys (din c1) = current_keys (din c) /\
    same_end (input c) (input c1).
Proof.
  intros He Hbs Hl. pose proof He as [_ Ho Ho' Hi]. unfold read_first_block.
  rewrite (ext_plen _ _ _ He), (ext_dir _ _ _ He).
  destruct (poll2_packet_length c =? 0) eqn:E0; cbn [negb]; zbool.
  2:{ do 3 right. exists c, c'. destruct Hl; [done|]. split_and!; (done || lia). }
  rewrite !buffer_len_contents by done.
  destruct (zlen (contents (input c)) <? bs) eqn:El; [by left|]. right. zbool.
  rewrite (proj2 (Z.ltb_ge _ _)) by (rewrite Hi, zlen_app; pose proof (zlen_nonneg d); lia).
  rewrite (ext_take _ _ _ bs He), (ext_incoming _ _ _ He) by lia.
  destruct (append_crypt _ _ _) as [[ic cc]|m|]; [|left; by exists m|right; by left]. cbn [mbind res_bind].
  destruct (_ || _) eqn:Er; [left; by eexists|]. rewrite orb_false_iff in Er. destruct Er. zbool.
  destruct (ext_consume _ _ _ bs He ltac:(lia)) as (b & b' & Eb & -> & Hb & _). rewrite Eb.
  pose proof (buffer_consume_end_same _ _ _ Eb) as Hend. cbn [mbind res_bind].
  right. right. do 2 eexists. split; [done|]. split; [done|]. split_and!; [|done|done|done|done|apply Hend..].
  exact (set_input_comm d c c' (fun x => set_poll2_len
    (set_incoming_packet (set_dir x MODE_IN (set_context (din c) cc)) ic) (get_u32 (buffer_ptr ic)))
    b b' (fun _ _ => eq_refl) Hb).
Qed.

Lemma idle_after c1 bs ml type seq c2 : idle c1 -> 0 <= ml ->
  read_rest c1 bs ml = Ok (type, seq, c2) -> type <> SSH_MSG_NONE -> idle c2.
Proof.
  intros [Ho Hd _] Hm E Ht.
  destruct (read_rest_progress usual c1 bs ml type seq c2 (conj (proj1 Ho) Hd) Hm E Ht)
    as ([? ?] & ? & _ & Hend).
  split; [by eapply capped_same_end|done|by left].
Qed.

(** A poll with more input: the same packet or failure, or nothing now and the same
    later. *)
Definition poll_rel {A} (d : list Z) (p : conn -> res (A * conn)) (none : A -> Prop) (c c' : conn) : Prop :=
  (rel (ext_val d) (p c) (p c') /\ forall a c1, p c = Ok (a, c1) -> ~ none a /\ idle c1) \/
  (exists a c1 c1', p c = Ok (a, c1) /\ none a /\ idle c1 /\ ext d c1 c1' /\ p c' = p c1' /\
     (d = [] -> p c' = Ok (a, c1'))).

Definition is_none (p : Z * Z) : Prop := p.1 = SSH_MSG_NONE.

Lemma poll2_unfold c : packet_read_poll2 c =
  (o ← read_first_block c (bsize (newkeys (din c)));
   match o with
   | None => Ok (SSH_MSG_NONE, 0, c)
   | Some c1 => read_rest c1 (bsize (newkeys (din c))) (maclen_of (newkeys (din c)))
   end).
Proof. done. Qed.

Lemma first_block_none c c' bs : ext [] c c' -> read_first_block c bs = Ok None ->
  read_first_block c' bs = Ok None.
Proof.
  intros He. pose proof He as [_ Ho Ho' Hi]. rewrite app_nil_r in Hi. unfold read_first_block.
  rewrite (ext_plen _ _ _ He), !buffer_len_contents, Hi by done.
  destruct (negb _); [done|]. destruct (_ <? bs); [done|].
  intros E. ok_bind E. destruct a as [ic cc]. destruct (_ || _) in E; [done|]. by ok_bind E.
Qed.

Lemma poll2_rel d c c' : ext d c c' -> idle c -> poll_rel d packet_read_poll2 is_none c c'.
Proof.
  intros He Hid. pose proof Hid as [Ho Hd Hl]. destruct (usual_sizes _ Hd) as [Hbs Hml].
  unfold poll_rel. rewrite !poll2_unfold. rewrite (ext_dir _ _ _ He).
  set (bs := bsize _) in *. set (ml := maclen_of _) in *.
  destruct (first_block_rel d c c' bs He Hbs Hl)
    as [E|[(m & E & E')|[(E & E')|(c1 & c1' & E & E' & He1 & Hp1 & Hn1 & Hk1 & Hend)]]].
  - right. exists (SSH_MSG_NONE, 0), c, c'. rewrite E. split_and!; try done.
    + by rewrite poll2_unfold, (ext_dir _ _ _ He).
    + intros ->. by rewrite (first_block_none c c' bs He E).
  - left. rewrite E, E'. by split.
  - left. rewrite E, E'. by split.
  - rewrite E, E'. cbn [mbind res_bind].
    assert (Hid1 : idle c1).
    { split; [by eapply capped_same_end; [..|destruct He1]| |by right].
      unfold dir_all. by rewrite Hn1, Hk1. }
    pose proof (read_rest_rel d c1 c1' bs ml He1 Hbs Hml Hp1) as Hr.
    destruct (missing c1 bs ml) eqn:Em.
    + right. exists (SSH_MSG_NONE, 0), c1, c1'. split_and!; try done.
      * rewrite poll2_unfold, (ext_dir _ _ _ He1), Hn1. fold bs ml. unfold read_first_block.
        rewrite (ext_plen _ _ _ He1), (proj2 (Z.eqb_neq _ 0)) by lia. done.
      * intros ->. pose proof He1 as [_ _ Ho1' Hi1]. rewrite app_nil_r in Hi1.
        pose proof (read_rest_rel [] c1' c1' bs ml) as Hr'. unfold missing in Em, Hr'.
        rewrite Hi1, (ext_plen _ _ _ He1), Em in Hr'. apply Hr'; [|done..].
        split; [by rewrite set_input_id|done|done|by rewrite app_nil_r].
    + left. split; [done|]. intros [type seq] c2 E2.
      assert (Ht : type <> SSH_MSG_NONE)
        by exact (read_rest_type c1 bs ml type seq c2 Hbs Hml Hp1 (proj1 (id_ok _ Hid1)) Em E2).
      split; [done|]. exact (idle_after c1 bs ml type seq c2 Hid1 (proj1 Hml) E2 Ht).
Qed.

(** ** The polling loop *)

(** One turn of the loop of [packet_read_poll_seqnr]. *)
Definition poll_body (next : conn -> res (Z * Z * conn)) (c : conn) : res (Z * Z * conn) :=
  '(type, seq, c) ← packet_read_poll2 c;
  let c := if negb (type =? 0) then set_keep_alive c 0 else c in
  if type =? SSH2_MSG_IGNORE then next c
  else if type =? SSH2_MSG_DEBUG then
    '(_, c) ← packet_get_char c;
    '(_, c) ← packet_get_string c;
    '(_, c) ← packet_get_string c;
    next c
  else if type =? SSH2_MSG_DISCONNECT then
    '(_, c) ← packet_get_int c;
    '(_, c) ← packet_get_string c;
    Fatal "Received disconnect"
  else if type =? SSH2_MSG_UNIMPLEMENTED then
    '(_, c) ← packet_get_int c;
    next c
  else Ok (type, seq, c).

Lemma loop_body f c : read_poll_loop (S f) c = poll_body (read_poll_loop f) c.
Proof. done. Qed.

(** The next states of a turn are below it. *)
Lemma poll_body_next (f g : conn -> res (Z * Z * conn)) c : poll_all sane c ->
  (forall c2, poll_all sane c2 -> (pending c2 < pending c)%nat -> f c2 = g c2) ->
  poll_body f c = poll_body g c.
Proof.
  intros Hp Hfg. unfold poll_body.
  destruct (packet_read_poll2 c) as [[[type seq] c1]| |] eqn:E; [|done|done]. cbn [mbind res_bind].
  destruct (type =? 0) eqn:T0; zbool.
  { subst type. done. }
  destruct (read_poll2_progress _ _ _ _ Hp E T0) as [Hp1 Hlt]. cbn [negb].
  set (c2 := set_keep_alive c1 0).
  assert (Hp2 : poll_all sane c2 /\ pending c2 = pending c1) by done. destruct Hp2 as [Hp2 He2].
  destruct (type =? SSH2_MSG_IGNORE); [apply Hfg; [done|lia]|].
  destruct (type =? SSH2_MSG_DEBUG).
  { destruct (packet_get_char c2) as [[v3 c3]| |] eqn:E3; [|done|done]. cbn [mbind res_bind].
    destruct (packet_get_char_io _ _ _ E3 Hp2) as [Hp3 He3].
    destruct (packet_get_string c3) as [[v4 c4]| |] eqn:E4; [|done|done]. cbn [mbind res_bind].
    destruct (packet_get_string_io _ _ _ E4 Hp3) as [Hp4 He4].
    destruct (packet_get_string c4) as [[v5 c5]| |] eqn:E5; [|done|done]. cbn [mbind res_bind].
    destruct (packet_get_string_io _ _ _ E5 Hp4) as [Hp5 He5]. apply Hfg; [done|lia]. }
  destruct (type =? SSH2_MSG_DISCONNECT); [done|].
  destruct (type =? SSH2_MSG_UNIMPLEMENTED); [|done].
  destruct (packet_get_int c2) as [[v3 c3]| |] eqn:E3; [|done|done]. cbn [mbind res_bind].
  destruct (packet_get_int_io _ _ _ E3 Hp2) as [Hp3 He3]. apply Hfg; [done|lia].
Qed.

Lemma seqnr_unfold c : poll_all sane c -> packet_read_poll_seqnr c = poll_body packet_read_poll_seqnr c.
Proof.
  intros Hp. pose proof Hp as [Ho Hs].
  rewrite (read_poll_terminates c (S (S (S (Z.to_nat (buffer_len (input c)))))) Ho Hs) by lia.
  rewrite loop_body. apply poll_body_next; [done|]. intros c2 Hp2 Hlt. symmetry.
  apply read_poll_loop_fuel; [done| |].
  - unfold pending. destruct (_ =? 0); lia.
  - unfold pending in *. destruct (_ =? 0); destruct (_ =? 0); lia.
Qed.

Lemma ext_poll_ok d c c' : ext d c c' -> idle c -> poll_all sane c'.
Proof.
  intros He []. split; [by destruct He|]. rewrite (ext_dir _ _ _ He). by apply usual_sane.
Qed.

(** The outcome of polling and that of polling with more input. *)
Definition outcome (d : list Z) (r r' : res (Z * Z * conn)) : Prop :=
  (rel (ext_val d) r r' /\ forall a c1, r = Ok (a, c1) -> ~ is_none a /\ idle c1) \/
  (exists a c1 c1', r = Ok (a, c1) /\ is_none a /\ idle c1 /\ ext d c1 c1' /\
     r' = packet_read_poll_seqnr c1' /\ (d = [] -> r' = Ok (a, c1'))).

Lemma outcome_bind {A} d (r r' : res (A * conn)) f f' : rel (ext_val d) r r' ->
  (forall v c c', r = Ok (v, c) -> ext d c c' -> outcome d (f (v, c)) (f' (v, c'))) ->
  outcome d (r ≫= f) (r' ≫= f').
Proof.
  intros Hr Hf. destruct r as [[v c]|m|], r' as [[v' c']|m'|]; try done; cbn.
  - destruct Hr as [Hv He]. cbn in *. subst v'. by apply Hf.
  - left. split; [exact Hr|done].
  - left. by split.
Qed.

Lemma outcome_read {A} d (g : conn -> res (A * conn)) c c' f f' : reads g -> ext d c c' -> idle c ->
  (forall v c1 c1', ext d c1 c1' -> idle c1 -> pending c1 = pending c -> outcome d (f (v, c1)) (f' (v, c1'))) ->
  outcome d (g c ≫= f) (g c' ≫= f').
Proof.
  intros [Hg Hb] He Hid Hf. apply outcome_bind; [by apply Hg|]. intros v c1 c1' E He1.
  destruct (Hb _ _ _ E) as [b ->]. apply Hf; [done|by destruct Hid|done].
Qed.

Lemma poll_outcome d n : forall c c', (pending c <= n)%nat -> ext d c c' -> idle c ->
  outcome d (packet_read_poll_seqnr c) (packet_read_poll_seqnr c').
Proof.
  induction n as [n IH] using lt_wf_ind. intros c c' Hn He Hid.
  pose proof (idle_poll_ok _ Hid) as Hp. pose proof (ext_poll_ok _ _ _ He Hid) as Hp'.
  rewrite (seqnr_unfold c Hp), (seqnr_unfold c' Hp'). unfold poll_body.
  destruct (poll2_rel d c c' He Hid) as [[Hr Ha]|([type seq] & c1 & c1' & E & Hno & Hid1 & He1 & E' & Hd0)].
  2:{ right. exists (type, seq), c1, c1'. rewrite E. cbn [mbind res_bind]. unfold is_none in Hno.
      cbn in Hno. subst type. split_and!; try done.
      - rewrite E', (seqnr_unfold c1' (ext_poll_ok _ _ _ He1 Hid1)). done.
      - intros Hd. by rewrite (Hd0 Hd). }
  apply outcome_bind; [exact Hr|]. intros [type seq] c1 c1' E He1.
  destruct (Ha _ _ E) as [Hno Hid1]. unfold is_none in Hno. cbn [fst] in Hno.
  destruct (read_poll2_progress _ _ _ _ Hp E Hno) as [_ Hlt].
  rewrite (proj2 (Z.eqb_neq type 0) Hno). cbn [negb].
  set (c2 := set_keep_alive c1 0). set (c2' := set_keep_alive c1' 0).
  assert (He2 : ext d c2 c2') by (by apply (ext_setter d (fun c => set_keep_alive c 0))).
  assert (Hid2 : idle c2) by (destruct Hid1; done).
  assert (Hp2 : pending c2 = pending c1) by done.
  assert (Hnext : forall c3 c3', ext d c3 c3' -> idle c3 -> pending c3 = pending c2 ->
    outcome d (packet_read_poll_seqnr c3) (packet_read_poll_seqnr c3')).
  { intros c3 c3' H3 Hi3 Hp3. apply (IH (pending c3)); [lia|lia|done|done]. }
  destruct (type =? SSH2_MSG_IGNORE); [by apply Hnext|].
  destruct (type =? SSH2_MSG_DEBUG).
  { apply outcome_read; [apply ext_get_char|done|done|]. intros v3 c3 c3' He3 Hid3 Hp3.
    apply outcome_read; [apply ext_get_string|done|done|]. intros v4 c4 c4' He4 Hid4 Hp4.
    apply outcome_read; [apply ext_get_string|done|done|]. intros v5 c5 c5' He5 Hid5 Hp5.
    apply Hnext; [done|done|congruence]. }
  destruct (type =? SSH2_MSG_DISCONNECT).
  { apply outcome_read; [apply ext_get_int|done|done|]. intros v3 c3 c3' He3 Hid3 Hp3.
    apply outcome_read; [apply ext_get_string|done|done|]. intros v4 c4 c4' He4 Hid4 Hp4. left. by split. }
  destruct (type =? SSH2_MSG_UNIMPLEMENTED).
  { apply outcome_read; [apply ext_get_int|done|done|]. intros v3 c3 c3' He3 Hid3 Hp3.
    apply Hnext; [done|done|congruence]. }
  left. split; [by split|]. by intros a c3 [= <- <-].
Qed.

End Poll.

(** ** Reading from the socket *)

(** What [recv] gives, one buffer of the code at a time. *)
Definition segments_ok (ds : list (list Z)) : Prop := Forall (fun d => d <> [] /\ zlen d <= 8192) ds.

(** The packet that polling finds when all the bytes are there, and what reading from
    the socket gives. *)
Definition same_read (x : exc (Z * Z) * net) (r : res (Z * Z * conn)) : Prop :=
  match r with
  | Ok (a, c2) =>
      if a.1 =? SSH_MSG_NONE then x.1 = Throw ShuttingDown
      else exists ds, x.1 = Ret a /\ recvs (sock x.2) = RecvData <$> ds /\ ext (concat ds) (pkt x.2) c2
  | Fatal _ => x.1 = Throw ShuttingDown
  | OutOfFuel => x.1 = Throw Diverges
  end.

(** Adding a segment to the input. *)
Lemma add_segment n c d rest c' : idle n c -> zlen d <= 8192 ->
  2 * (n + zlen d) + BUFFER_ALLOCSZ <= BUFFER_MAX_LEN -> ext (d ++ rest) c c' ->
  exists c1, packet_process_incoming c d = Ok c1 /\ idle (n + zlen d) c1 /\ ext rest c1 c'.
Proof.
  intros [Hc Hd Hl] Hz Hn [Hs Ho Ho' Hi]. unfold packet_process_incoming.
  destruct (buffer_append_capped n (input c) d Hc) as (b & -> & Hcb & Hcon);
    [unfold BUFFER_MAX_CHUNK; lia|done|].
  exists (set_input c b). split; [done|]. split.
  - split; [done|done|done].
  - split; cbn; [by rewrite Hs|apply Hcb|done|by rewrite Hi, Hcon, <- app_assoc].
Qed.

Lemma read_loop_whole ds : forall n s c', recvs (sock s) = RecvData <$> ds -> segments_ok ds ->
  idle n (pkt s) -> 2 * (n + zlen (concat ds)) + BUFFER_ALLOCSZ <= BUFFER_MAX_LEN ->
  ext (concat ds) (pkt s) c' ->
  same_read (read_loop (S (length ds)) s) (packet_read_poll_seqnr c').
Proof.
  induction ds as [|d ds IH]; intros n s c' Hr Hds Hid Hn He.
  all: cbn [read_loop length]; unfold mbind at 1, SE_bind, packet_poll, on_pkt.
  all: destruct (poll_outcome n _ (pending (pkt s)) (pkt s) c' (le_n _) He Hid)
         as [[Hrel Ha]|(a & c1 & c1' & E & Hno & Hid1 & He1 & E' & Hd0)].
  1, 3: unfold same_read; destruct (packet_read_poll_seqnr (pkt s)) as [[a c1]|m|],
        (packet_read_poll_seqnr c') as [[a' c2]|m'|]; try done.
  1, 2: destruct Hrel as [Haa Hex]; cbn in Haa, Hex; subst a'; destruct (Ha a c1 eq_refl) as [Hno _];
        unfold is_none in Hno; destruct a as [type seq]; cbn [fst] in *;
        rewrite (proj2 (Z.eqb_neq _ _) Hno); cbn [negb].
  - by exists [].
  - by exists (d :: ds).
  - rewrite (Hd0 eq_refl), E. destruct a as [type seq]. unfold is_none in Hno. cbn [fst] in Hno.
    unfold same_read. cbn [fst]. rewrite Hno. change (SSH_MSG_NONE =? SSH_MSG_NONE) with true. cbn [negb].
    unfold mbind, SE_bind, socket_recv. cbn [sock set_pkt]. by rewrite Hr.
  - rewrite E', E. destruct a as [type seq]. unfold is_none in Hno. cbn [fst] in Hno. rewrite Hno.
    change (SSH_MSG_NONE =? SSH_MSG_NONE) with true. cbn [negb].
    unfold mbind, SE_bind, socket_recv. cbn [sock set_pkt]. rewrite Hr.
    cbn [fmap list_fmap]. apply Forall_cons in Hds as [[Hne Hz] Hds]. destruct d as [|x d]; [done|].
    cbn [concat] in *. rewrite zlen_app in Hn. pose proof (zlen_nonneg (concat ds)).
    destruct (add_segment n c1 (x :: d) (concat ds) c1' Hid1 Hz ltac:(lia) He1) as (c2 & E2 & Hid2 & He2).
    unfold process_incoming, on_pkt. cbn [pkt set_sock set_pkt]. rewrite E2. cbn [mbind res_bind].
    apply (IH (n + zlen (x :: d))); cbn [pkt sock set_pkt set_sock recvs]; try done. lia.
Qed.

Definition recv_bytes (r : recv_result) : list Z := match r with RecvData d => d | _ => [] end.

(** The bytes that have arrived or will arrive and are in no packet yet. *)
Definition unread (s : net) : list Z :=
  contents (input (pkt s)) ++ concat (recv_bytes <$> recvs (sock s)).

Lemma recv_bytes_segments (ds : list (list Z)) : recv_bytes <$> (RecvData <$> ds) = ds.
Proof. induction ds as [|d ds IH]; cbn; [done|by f_equal]. Qed.

Lemma write_wait_nothing s : buffer_ok (output (pkt s)) -> contents (output (pkt s)) = [] ->
  packet_write_wait s = (Ret tt, s).
Proof.
  intros Ho Hc. assert (Hl : buffer_len (output (pkt s)) = 0) by (by rewrite buffer_len_contents, Hc).
  unfold packet_write_wait, packet_write_poll, packet_have_data_to_write, mbind, SE_bind, gets.
  rewrite Hl. cbn. unfold mbind, SE_bind, gets, packet_have_data_to_write. by rewrite Hl.
Qed.

Lemma read_seqnr_segments n s ds c' : recvs (sock s) = RecvData <$> ds -> segments_ok ds ->
  idle n (pkt s) -> 2 * (n + zlen (concat ds)) + BUFFER_ALLOCSZ <= BUFFER_MAX_LEN ->
  buffer_ok (output (pkt s)) -> contents (output (pkt s)) = [] ->
  ext (concat ds) (pkt s) c' -> same_read (packet_read_seqnr s) (packet_read_poll_seqnr c').
Proof.
  intros Hr Hds Hid Hn Ho Hc He. unfold packet_read_seqnr, mbind at 1, SE_bind.
  rewrite write_wait_nothing by done. unfold mbind, SE_bind, gets. rewrite Hr, length_fmap.
  by eapply read_loop_whole.
Qed.

(** A connection with all the bytes in its input. *)
Lemma all_there n c d : idle n c -> 2 * (n + zlen d) + BUFFER_ALLOCSZ <= BUFFER_MAX_LEN ->
  exists c', ext d c c'.
Proof.
  intros [(Ho & He & _) _ _] Hn. set (l := contents (input c) ++ d).
  assert (Hlen : zlen l <= n + zlen d).
  { unfold l. rewrite zlen_app, <- buffer_len_contents, buffer_len_ok by done. destruct Ho. lia. }
  exists (set_input c (mkBuffer (l ++ [0]) (zlen l + 1) 0 (zlen l))).
  pose proof (zlen_nonneg l). pose proof (zlen_nonneg d). split; [done|done| |].
  - split; cbn; [rewrite zlen_app; unfold zlen; cbn; lia|lia|lia|unfold BUFFER_ALLOCSZ in *; lia].
  - unfold contents at 1, slice. cbn. rewrite Z.sub_0_r, drop_0. unfold zlen.
    by rewrite Nat2Z.id, take_app_length.
Qed.

(** C13: However [recv] cuts the bytes of the peer, the connection reads the same packets:
    from the same state and for two ways to cut the same bytes, [packet_read_seqnr]
    ends in the same way; a packet has the same type, number and contents, everything
    else of the packet layer is the same, and the same bytes are left. *)
Theorem reads_any_cut n c k1 k2 pd cl ds1 ds2 :
  recvs k1 = RecvData <$> ds1 -> recvs k2 = RecvData <$> ds2 -> concat ds1 = concat ds2 ->
  segments_ok ds1 -> segments_ok ds2 -> idle n c ->
  2 * (n + zlen (concat ds1)) + BUFFER_ALLOCSZ <= BUFFER_MAX_LEN ->
  buffer_ok (output c) -> contents (output c) = [] ->
  match packet_read_seqnr (mkNet c k1 pd cl), packet_read_seqnr (mkNet c k2 pd cl) with
  | (Ret a1, s1), (Ret a2, s2) =>
      a1 = a2 /\ pkt s2 = set_input (pkt s1) (input (pkt s2)) /\
      incoming_packet (pkt s1) = incoming_packet (pkt s2) /\ unread s1 = unread s2
  | (Throw e1, _), (Throw e2, _) => e1 = e2
  | _, _ => False
  end.
Proof.
  intros H1 H2 Hcat Hs1 Hs2 Hid Hn Ho Hc.
  destruct (all_there n c (concat ds1) Hid Hn) as [c' He].
  pose proof (read_seqnr_segments n (mkNet c k1 pd cl) ds1 c' H1 Hs1 Hid Hn Ho Hc He) as R1.
  rewrite Hcat in Hn, He.
  pose proof (read_seqnr_segments n (mkNet c k2 pd cl) ds2 c' H2 Hs2 Hid Hn Ho Hc He) as R2.
  destruct (packet_read_seqnr (mkNet c k1 pd cl)) as [x1 s1].
  destruct (packet_read_seqnr (mkNet c k2 pd cl)) as [x2 s2]. unfold same_read in R1, R2.
  destruct (packet_read_poll_seqnr c') as [[a c2]| |]; cbn in R1, R2; [|by subst..].
  destruct (a.1 =? SSH_MSG_NONE); [by subst|].
  destruct R1 as (es1 & -> & Hr1 & He1), R2 as (es2 & -> & Hr2 & He2).
  pose proof (ext_incoming _ _ _ He1) as Hi1. pose proof (ext_incoming _ _ _ He2) as Hi2.
  destruct He1 as [X1 _ _ C1], He2 as [X2 _ _ C2]. split_and!; [done| |congruence|].
  - transitivity (set_input c2 (input (pkt s2))).
    + rewrite X2. symmetry. exact (set_input_id (pkt s2)).
    + rewrite X1. done.
  - unfold unread. rewrite Hr1, Hr2, !recv_bytes_segments. congruence.
Qed.

End Segments.

(** ** Example: two packets of the toy transport, cut in two ways *)

Module CutDemo.
Import Toy.

Definition bytes : list Z :=
  match send_packets start pkts with Ok a => contents (output a) | _ => [] end.

Definition pieces : list (list Z) := [take 5 bytes; take 40 (drop 5 bytes); drop 45 bytes].

Definition from (ds : list (list Z)) : net := mkNet start (mkSocket (RecvData <$> ds) [] []) false false.

(** The first packet is an IGNORE, which the loop skips. *)
Example second_packet : (packet_read_seqnr (from pieces)).1 = Ret (94, 4).
Proof. vm_compute. reflexivity. Qed.

Lemma reads_any_cut_witness :
  match packet_read_seqnr (from pieces), packet_read_seqnr (from [bytes]) with
  | (Ret a1, s1), (Ret a2, s2) =>
      a1 = a2 /\ pkt s2 = set_input (pkt s1) (input (pkt s2)) /\
      incoming_packet (pkt s1) = incoming_packet (pkt s2) /\ unread s1 = unread s2
  | (Throw e1, _), (Throw e2, _) => e1 = e2
  | _, _ => False
  end.
Proof.
  apply (reads_any_cut 0 start _ _ false false pieces [bytes]).
  - reflexivity.
  - reflexivity.
  - vm_compute. reflexivity.
  - repeat constructor; vm_compute; congruence.
  - repeat constructor; vm_compute; congruence.
  - split.
    + apply buffer_init_capped.
    + split; cbn; intros nk [= <-]. split; cbn; [by right|lia].
    + by left.
  - vm_compute. congruence.
  - apply buffer_init_ok.
  - vm_compute. reflexivity.
Defined.

(** Five bytes to write, taken two at a time with an interruption. *)
Definition writer : net :=
  mkNet (set_output start (mkBuffer [1; 2; 3; 4; 5; 0] 6 0 5))
    (mkSocket [] [SendSome 2; SendAgain; SendSome 2] [9]) false false.

Lemma write_wait_conserves_witness :
  match packet_write_wait writer with
  | (Ret _, s') => wire (sock s') = [9; 1; 2; 3; 4; 5] /\ contents (output (pkt s')) = []
  | (Throw e, s') => (e = ShuttingDown \/ e = SocketError) /\ Exists failing (sends (sock writer)) /\
      wire (sock s') ++ contents (output (pkt s')) = [9; 1; 2; 3; 4; 5] /\
      wire (sock writer) `prefix_of` wire (sock s')
  end.
Proof.
  apply (write_wait_conserves writer). split; cbn; unfold BUFFER_MAX_LEN, zlen; cbn; lia.
Defined.

End CutDemo.
