(* ===== verification/SshIdent.v ===== *)
(** * SshIdent: the exchange of identification strings

    [sshd_exchange_identification] (sshd.cpp) with [atomicio_recv] (atomicio.cpp),
    [RInOutSocket::atomicio_send] and [chop] (misc.cpp): what happens on the socket
    before the first packet.  The socket is the one of [SshSocket].  [sscanf] is given
    by the rules of its directives; what it stores for a number outside of the range
    of [int] is not defined by the language and is a parameter.

    The theorems: a client that identifies itself is understood however its bytes are
    cut, and not one byte behind its line is taken; whatever arrives, the exchange ends
    within the buffers, and only a client of protocol 2 passes. *)

From S2P Require Import Prelude SshBuffer CxxMonad SshMatch SshCompat SshSocket.

(** ** The string of the server (Options.cpp) *)

Definition prog_name_version : list Z := str "ShieSSH" ++ str "_" ++ str "1.4d2".
Definition get_protocol_version_exchange_string : list Z :=
  str "SSH-2.0-" ++ prog_name_version ++ str " obihod" ++ [13; 10].

Fixpoint chop (s : list Z) : list Z :=
  match s with
  | [] => []
  | c :: s => if (c =? 10) || (c =? 13) then [] else c :: chop s
  end.

(** ** [sscanf] *)

Class Scanf := { scan_overflow : Z -> Z }.

Definition strip (p s : list Z) : option (list Z) :=
  if bool_decide (take (length p) s = p) then Some (drop (length p) s) else None.

(** The digits at the head of a text, and what follows them. *)
Fixpoint span_digits (s : list Z) : list Z * list Z :=
  match s with
  | c :: s1 => if Compat.isdigit c then let '(d, r) := span_digits s1 in (c :: d, r) else ([], s)
  | [] => ([], [])
  end.

Section Scan.
Context {SC : Scanf}.

Definition to_int (v : Z) : Z := if (- 2 ^ 31 <=? v) && (v <? 2 ^ 31) then v else scan_overflow v.

(** [%d]: white space, a sign, at least one digit. *)
Definition scan_int (s : list Z) : option (Z * list Z) :=
  let s := Compat.skip_space s in
  let '(neg, s) := match s with
                   | c :: t => if c =? 45 then (true, t) else if c =? 43 then (false, t) else (false, s)
                   | [] => (false, [])
                   end in
  let '(d, r) := span_digits s in
  match d with
  | [] => None
  | _ => let v := Compat.digits_value 0 d in Some (to_int (if neg : bool then - v else v), r)
  end.

(** [%\[^\n\]]: at least one character that is not a newline. *)
Fixpoint until_newline (s : list Z) : list Z :=
  match s with c :: s => if c =? 10 then [] else c :: until_newline s | [] => [] end.

(** The format of the server; [None]: fewer than three items. *)
Definition scan_ident (s : list Z) : option (Z * Z * list Z) :=
  s ← strip (str "SSH-") s;
  '(major, s) ← scan_int s;
  s ← strip (str ".") s;
  '(minor, s) ← scan_int s;
  s ← strip (str "-") s;
  match until_newline s with
  | [] => None
  | version => Some (major, minor, version)
  end.

End Scan.

(** ** The exchange *)

(** What it uses of the connection: the socket and [datafellows]. *)
Record ident := mkIdent { id_sock : socket; id_flags : Z }.

Definition set_id_sock (k : socket) (s : ident) : ident := mkIdent k (id_flags s).
Definition set_id_flags (f : Z) (s : ident) : ident := mkIdent (id_sock s) f.

Section Exchange.
Context {SC : Scanf}.

(** [atomicio_recv] for one byte: a result that says to try again is skipped; a closed
    connection is an exception, another error makes the caller exit. *)
Fixpoint next_byte (rs : list recv_result) : exc Z * list recv_result :=
  match rs with
  | [] => (Throw SocketError, [])
  | RecvAgain :: rs => next_byte rs
  | RecvError :: rs => (Throw ShuttingDown, rs)
  | RecvData [] :: rs => (Throw SocketError, rs)
  | RecvData [c] :: rs => (Ret c, rs)
  | RecvData (c :: d) :: rs => (Ret c, RecvData d :: rs)
  end.

Definition recv_byte : SE ident Z := fun s =>
  let k := id_sock s in
  let '(r, rs) := next_byte (recvs k) in
  (r, set_id_sock (mkSocket rs (sends k) (wire k)) s).

(** [RInOutSocket::atomicio_send]: a turn uses up a result, or everything is taken. *)
Fixpoint send_loop (fuel : nat) (data : list Z) : SE ident unit :=
  match fuel with
  | O => throw Diverges
  | S fuel =>
      match data with
      | [] => mret tt
      | _ =>
          k ← gets id_sock;
          let '(r, k) := socket_send data k in
          modify (set_id_sock k);;
          match r with
          | SendAgain => send_loop fuel data
          | SendError => throw SocketError
          | SendSome n => if n <=? 0 then throw SocketError else send_loop fuel (drop (Z.to_nat n) data)
          end
      end
  end.

Definition atomicio_send (data : list Z) : SE ident unit :=
  n ← gets (fun s => length (sends (id_sock s)));
  send_loop (S (S n)) data.

Definition IDENT_BUF : Z := 256.

(** The loop over the bytes of the client's line, from index [i] on, [n] of them left. *)
Fixpoint read_line (n : nat) (i : Z) (buf : list Z) : SE ident (list Z) :=
  match n with
  | O => mret buf
  | S n =>
      c ← recv_byte;
      if c =? 13 then
        let buf := <[Z.to_nat i := 0]> buf in
        if (i =? 12) && bool_decide (take 12 buf = str "SSH-1.5-W1.0") then mret buf
        else read_line n (i + 1) buf
      else if c =? 10 then mret (<[Z.to_nat i := 0]> buf)
      else read_line n (i + 1) (<[Z.to_nat i := c]> buf)
  end.

Definition read_version : SE ident (list Z) :=
  buf ← read_line (Z.to_nat (IDENT_BUF - 1)) 0 (replicate (Z.to_nat IDENT_BUF) 0);
  mret (c_str (<[Z.to_nat (IDENT_BUF - 1) := 0]> buf)).

(** [compat_datafellows] on the connection. *)
Definition set_datafellows (version : list Z) : SE ident unit :=
  o ← lift_res (Compat.compat_datafellows version);
  match o with Some f => modify (set_id_flags f) | None => mret tt end.

Definition refuse {A} (text : list Z) : SE ident A := atomicio_send text;; throw ShuttingDown.

(** The two version strings. *)
Definition sshd_exchange_identification : SE ident (list Z * list Z) :=
  let server_version := get_protocol_version_exchange_string in
  atomicio_send server_version;;
  client_version ← read_version;
  match scan_ident client_version with
  | None => refuse (str "Protocol mismatch." ++ [10])
  | Some (remote_major, remote_minor, remote_version) =>
      set_datafellows remote_version;;
      f ← gets id_flags;
      if negb (Z.land f Compat.SSH_BUG_PROBE =? 0) then throw ShuttingDown
      else if negb (Z.land f Compat.SSH_BUG_SCANNER =? 0) then throw ShuttingDown
      else if negb (remote_major =? 2) then refuse (str "Protocol major versions differ." ++ [10])
      else mret (chop server_version, client_version)
  end.

End Exchange.

(** ** The bytes that arrive *)

(** What [recv] will give until it fails or the connection closes. *)
Fixpoint stream (rs : list recv_result) : list Z :=
  match rs with
  | [] | RecvError :: _ | RecvData [] :: _ => []
  | RecvAgain :: rs => stream rs
  | RecvData d :: rs => d ++ stream rs
  end.

Definition incoming_bytes (s : ident) : list Z := stream (recvs (id_sock s)).

(** The state but for what was received. *)
Definition reads_from (s s' : ident) : Prop :=
  sends (id_sock s') = sends (id_sock s) /\ wire (id_sock s') = wire (id_sock s) /\ id_flags s' = id_flags s.

#[export] Instance reads_from_preorder : PreOrder reads_from.
Proof. split; [by intros s|]. intros s1 s2 s3 (? & ? & ?) (? & ? & ?). repeat split; congruence. Qed.

Definition gives_up (e : exn) : Prop := e = SocketError \/ e = ShuttingDown.

Lemma next_byte_spec rs :
  match stream rs with
  | c :: r => exists rs', next_byte rs = (Ret c, rs') /\ stream rs' = r
  | [] => exists e rs', next_byte rs = (Throw e, rs') /\ gives_up e
  end.
Proof.
  induction rs as [|[d| |] rs IH]; cbn; [by repeat eexists; left| |done|by repeat eexists; right].
  destruct d as [|c [|c1 d]]; cbn; [by repeat eexists; left|by eexists|by eexists].
Qed.

Lemma recv_byte_cons c r s : incoming_bytes s = c :: r ->
  exists s', recv_byte s = (Ret c, s') /\ incoming_bytes s' = r /\ reads_from s s'.
Proof.
  unfold incoming_bytes, recv_byte. intros H. pose proof (next_byte_spec (recvs (id_sock s))) as Hn.
  rewrite H in Hn. destruct Hn as (rs' & -> & Hr). by eexists.
Qed.

Lemma recv_byte_nil s : incoming_bytes s = [] -> exists e s', recv_byte s = (Throw e, s') /\ gives_up e.
Proof.
  unfold incoming_bytes, recv_byte. intros H. pose proof (next_byte_spec (recvs (id_sock s))) as Hn.
  rewrite H in Hn. destruct Hn as (e & rs' & -> & He). by repeat eexists.
Qed.

(** ** Sending *)

(** A result of [send] that ends the connection. *)
Definition send_fails (r : send_result) : Prop :=
  match r with SendSome n => n <= 0 | SendError => True | SendAgain => False end.

Lemma socket_send_spec data k : data <> [] ->
  match socket_send data k with
  | (SendSome n, k') => wire k' = wire k ++ take (Z.to_nat n) data /\ recvs k' = recvs k /\
      sends k' = tail (sends k) /\ (sends k = [] -> n = zlen data) /\
      (n <= 0 -> Exists send_fails (sends k))
  | (r, k') => wire k' = wire k /\ recvs k' = recvs k /\ sends k' = tail (sends k) /\ sends k <> [] /\
      (r = SendError -> Exists send_fails (sends k))
  end.
Proof.
  intros Hd. unfold socket_send. assert (0 < zlen data) by (destruct data; [done|unfold zlen; cbn; lia]).
  destruct (sends k) as [|[n| |] rest]; cbn [fst snd wire recvs sends].
  - rewrite take_ge by (unfold zlen; lia). repeat split; lia.
  - repeat split; try done. intros Hn. left. cbn. lia.
  - by repeat split.
  - repeat split; try done. intros _. by left.
Qed.

Definition sent_all (data : list Z) (s s' : ident) : Prop :=
  wire (id_sock s') = wire (id_sock s) ++ data /\ recvs (id_sock s') = recvs (id_sock s) /\ id_flags s' = id_flags s.

Lemma send_loop_spec : forall fuel data s, (S (length (sends (id_sock s))) < fuel)%nat \/ data = [] /\ (0 < fuel)%nat ->
  wp (send_loop fuel data) (fun _ => sent_all data s)
    (fun e _ => e = SocketError /\ Exists send_fails (sends (id_sock s))) s.
Proof.
  induction fuel as [|fuel IH]; intros data s Hf; [lia|]. cbn [send_loop].
  destruct data as [|c data]; [apply wp_ret; by split; [rewrite app_nil_r|]|].
  destruct Hf as [Hf|[? _]]; [|done]. apply wp_bind, wp_gets.
  set (d := c :: data) in *. pose proof (socket_send_spec d (id_sock s) ltac:(done)) as Hs.
  destruct (socket_send d (id_sock s)) as [[n| |] k'].
  - apply wp_bind, wp_modify. destruct (n <=? 0) eqn:En; zbool;
      [apply wp_throw; split; [done|]; by apply Hs|].
    destruct Hs as (Hw & Hr & Hs & He & _).
    assert (forall P, Exists P (sends k') -> Exists P (sends (id_sock s)))
      by (intros P; rewrite Hs; destruct (sends (id_sock s)); [done|by right]). eapply wp_mono; [apply IH|..|naive_solver]; cbn.
    + destruct (sends (id_sock s)) as [|r rest]; cbn in *.
      * right. rewrite (He eq_refl). rewrite drop_ge by (unfold zlen; lia). split; [done|lia].
      * left. rewrite Hs. lia.
    + intros [] s' (Hw' & Hr' & Hfl). cbn in *. split; [|split; congruence].
      by rewrite Hw', Hw, <- (assoc_L (++)), take_drop.
  - apply wp_bind, wp_modify. destruct Hs as (Hw & Hr & Hs & He & _).
    assert (forall P, Exists P (sends k') -> Exists P (sends (id_sock s)))
      by (intros P; rewrite Hs; destruct (sends (id_sock s)); [done|by right]).
    eapply wp_mono; [apply IH|..|naive_solver]; cbn.
    + left. rewrite Hs. destruct (sends (id_sock s)); [done|]. cbn in *. lia.
    + intros [] s' (Hw' & Hr' & Hfl). cbn in *. split; [|split]; congruence.
  - apply wp_bind, wp_modify, wp_throw. split; [done|]. by apply Hs.
Qed.

Lemma atomicio_send_spec data s :
  wp (atomicio_send data) (fun _ => sent_all data s)
    (fun e _ => e = SocketError /\ Exists send_fails (sends (id_sock s))) s.
Proof. apply wp_bind, wp_gets, send_loop_spec. left. lia. Qed.

Lemma refuse_spec {A} text (s : ident) (Q : A -> ident -> Prop) : wp (refuse text) Q (fun e _ => gives_up e) s.
Proof.
  apply wp_bind. eapply wp_mono; [apply atomicio_send_spec|..]; cbn.
  - intros _ s' _. by right.
  - intros e s' [-> _]. by left.
Qed.

(** ** The line of the client *)

Definition plain (c : Z) : Prop := c <> 0 /\ c <> 10 /\ c <> 13.

(** A buffer filled from the front. *)
Definition filled_with (v : list Z) (m : nat) : list Z := v ++ replicate m 0.

Lemma filled_insert v m c : <[length v := c]> (filled_with v (S m)) = filled_with (v ++ [c]) m.
Proof.
  unfold filled_with. rewrite insert_app_r_alt by lia. rewrite Nat.sub_diag. cbn.
  by rewrite <- (assoc_L (++)).
Qed.

Lemma read_line_text w : Forall plain w -> forall n v m rest s,
  incoming_bytes s = w ++ rest -> exists s', incoming_bytes s' = rest /\ reads_from s s' /\
  read_line (length w + n) (zlen v) (filled_with v (length w + m)) s =
  read_line n (zlen (v ++ w)) (filled_with (v ++ w) m) s'.
Proof.
  induction 1 as [|c w Hc Hw IH]; intros n v m rest s Hs.
  { exists s. by rewrite app_nil_r. }
  destruct (recv_byte_cons c (w ++ rest) s Hs) as (s1 & Hb & H1 & Hr).
  destruct (IH n (v ++ [c]) m rest s1 H1) as (s2 & H2 & Hr2 & He). exists s2.
  split; [done|]. split; [by etrans|]. destruct Hc as (_ & H10 & H13).
  cbn [length Nat.add read_line]. unfold mbind, SE_bind at 1. rewrite Hb.
  rewrite (proj2 (Z.eqb_neq c 13)), (proj2 (Z.eqb_neq c 10)) by done.
  unfold zlen at 2. rewrite Nat2Z.id, filled_insert.
  replace (zlen v + 1) with (zlen (v ++ [c])) by (rewrite zlen_app; done).
  rewrite He. by rewrite <- (assoc_L (++)).
Qed.

Lemma filled_zero v m i : zlen v <= i -> <[Z.to_nat i := 0]> (filled_with v m) = filled_with v m.
Proof.
  intros Hi. unfold filled_with, zlen in *. rewrite insert_app_r_alt by lia. f_equal.
  destruct (decide (Z.to_nat i - length v < m)%nat) as [Hl|Hl].
  - by apply list_insert_id, lookup_replicate_2.
  - apply list_insert_ge. rewrite length_replicate. lia.
Qed.

Lemma c_str_filled v m : Forall plain v -> c_str (filled_with v m) = v.
Proof.
  induction 1 as [|c v (H0 & _) Hv IH]; [by destruct m|]. cbn. rewrite (proj2 (Z.eqb_neq c 0)) by done.
  by f_equal.
Qed.

(** The end of a line; the string that ends a line of its own is another protocol's. *)
Definition line_end (v nl : list Z) : Prop := nl = [10] \/ nl = [13; 10] /\ v <> str "SSH-1.5-W1.0".

Lemma read_version_line v nl rest s : Forall plain v -> line_end v nl -> zlen (v ++ nl) <= 255 ->
  incoming_bytes s = v ++ nl ++ rest ->
  exists s', read_version s = (Ret v, s') /\ incoming_bytes s' = rest /\ reads_from s s'.
Proof.
  intros Hv Hnl Hl Hs. rewrite zlen_app in Hl. unfold zlen in Hl.
  assert (0 < length nl)%nat by (destruct Hnl as [->|[-> _]]; cbn; lia).
  set (n := (254 - length v)%nat).
  destruct (read_line_text v Hv (S n) [] (256 - length v) (nl ++ rest) s Hs) as (s1 & H1 & Hr1 & He).
  change (filled_with [] (length v + (256 - length v))) with (replicate (length v + (256 - length v)) 0) in He.
  replace (length v + (256 - length v))%nat with 256%nat in He by lia.
  replace (length v + S n)%nat with 255%nat in He by lia. change (zlen []) with 0 in He. cbn [app] in He.
  assert (exists s', read_line (S n) (zlen v) (filled_with v (256 - length v)) s1 =
    (Ret (filled_with v (256 - length v)), s') /\ incoming_bytes s' = rest /\ reads_from s1 s') as (s2 & Hl2 & H2 & Hr2).
  { cbn [read_line]. unfold mbind, SE_bind at 1. destruct Hnl as [->|[-> Hne]].
    - destruct (recv_byte_cons _ _ s1 H1) as (s2 & -> & H2 & Hr2). exists s2. cbn [Z.eqb Pos.eqb].
      by rewrite filled_zero by lia.
    - destruct (recv_byte_cons _ _ s1 H1) as (s2 & -> & H2 & Hr2). cbn [Z.eqb Pos.eqb].
      rewrite filled_zero by lia. rewrite (proj2 (andb_false_iff _ _)).
      2:{ destruct (zlen v =? 12) eqn:E12; [right|by left]. zbool. apply bool_decide_eq_false.
          unfold filled_with. rewrite take_app_le, take_ge by (unfold zlen in *; lia). done. }
      destruct n as [|n'] eqn:En; [cbn in Hl; lia|].
      destruct (recv_byte_cons _ _ s2 H2) as (s3 & Hb & H3 & Hr3). exists s3.
      cbn [read_line]. unfold mbind, SE_bind at 1. rewrite Hb. cbn [Z.eqb Pos.eqb].
      rewrite filled_zero by (unfold zlen; lia). split; [done|]. split; [done|]. by etrans. }
  exists s2. split; [|split; [done|by etrans]].
  unfold read_version. change (Z.to_nat (IDENT_BUF - 1)) with 255%nat. change (Z.to_nat IDENT_BUF) with 256%nat.
  unfold mbind, SE_bind at 1. rewrite He, Hl2. unfold mret, SE_ret.
  change 255%nat with (Z.to_nat 255). rewrite filled_zero by (unfold zlen; cbn in Hl; lia).
  by rewrite c_str_filled.
Qed.

(** Whatever arrives: the buffer keeps its size and holds no end of line, and the bytes
    taken are a prefix of those that arrived. *)
Definition no_newline (c : Z) : Prop := c <> 10 /\ c <> 13.

Definition took (n : nat) (s s' : ident) : Prop :=
  exists t, incoming_bytes s = t ++ incoming_bytes s' /\ (length t <= n)%nat.

Lemma read_line_any : forall n i buf s, Forall no_newline buf ->
  wp (read_line n i buf)
    (fun b s' => length b = length buf /\ Forall no_newline b /\ took n s s' /\ reads_from s s')
    (fun e _ => gives_up e) s.
Proof.
  assert (forall i c buf, no_newline c -> Forall no_newline buf -> Forall no_newline (<[i := c]> buf)) as Hins
    by (intros; by apply Forall_insert).
  assert (no_newline 0) as H0 by done.
  induction n as [|n IH]; intros i buf s Hb; cbn [read_line].
  { apply wp_ret. split; [done|]. split; [done|]. split; [by exists []|done]. }
  apply wp_bind. destruct (incoming_bytes s) as [|c r] eqn:Es.
  { destruct (recv_byte_nil s Es) as (e & s' & Hr & He). unfold wp. by rewrite Hr. }
  destruct (recv_byte_cons c r s Es) as (s1 & Hr & H1 & Hf). unfold wp at 1. rewrite Hr.
  assert (forall i b, Forall no_newline b -> length b = length buf ->
    wp (read_line n i b) (fun b s' => length b = length buf /\ Forall no_newline b /\ took (S n) s s' /\ reads_from s s')
      (fun e _ => gives_up e) s1) as Hgo.
  { intros j b Hbb Hl. eapply wp_mono; [by apply IH|..|done]. intros b' s2 (Hl2 & Hb2 & (t & Ht & Hn) & Hf2).
    split; [lia|]. split; [done|]. split; [|by etrans]. exists (c :: t). rewrite Es. cbn. split; [congruence|lia]. }
  assert (took (S n) s s1) by (exists [c]; rewrite Es, <- H1; split; [done|cbn; lia]).
  destruct (c =? 13) eqn:E13; [|destruct (c =? 10) eqn:E10]; zbool.
  - destruct (_ && _); [apply wp_ret|apply Hgo]; rewrite ?length_insert; auto.
  - apply wp_ret. rewrite ?length_insert; auto.
  - apply Hgo; rewrite ?length_insert; auto. by apply Hins.
Qed.

Lemma c_str_plain s : Forall no_newline s -> Forall plain (c_str s).
Proof.
  induction 1 as [|c s Hc Hs IH]; [constructor|]. cbn. destruct (c =? 0) eqn:E; [constructor|]. zbool.
  constructor; [by destruct Hc|done].
Qed.

Lemma c_str_nul k : forall s, s !! k = Some 0 -> (length (c_str s) <= k)%nat.
Proof.
  induction k as [|k IH]; intros [|c s] H; cbn in *; try done.
  - by injection H as ->.
  - destruct (c =? 0); cbn; [lia|]. specialize (IH s H). lia.
Qed.

Lemma read_version_any s :
  wp read_version
    (fun v s' => Forall plain v /\ zlen v < 256 /\ took 255 s s' /\ reads_from s s')
    (fun e _ => gives_up e) s.
Proof.
  unfold read_version. apply wp_bind. eapply wp_mono; [apply read_line_any|..|done].
  { by apply Forall_replicate. }
  intros b s' (Hl & Hb & Ht & Hr). rewrite length_replicate in Hl. change (Z.to_nat IDENT_BUF) with 256%nat in Hl.
  apply wp_ret. change (Z.to_nat (IDENT_BUF - 1)) with 255%nat. split; [|split; [|done]].
  - apply c_str_plain. by apply Forall_insert.
  - pose proof (c_str_nul 255 (<[255%nat := 0]> b)) as H. unfold zlen.
    rewrite list_lookup_insert_eq in H by lia. specialize (H eq_refl). lia.
Qed.

Section Theorems.
Context {SC : Scanf}.

Lemma until_newline_le s : (length (until_newline s) <= length s)%nat.
Proof. induction s as [|c s IH]; cbn; [lia|]. destruct (c =? 10); cbn; lia. Qed.

Lemma strip_length p s r : strip p s = Some r -> (length r <= length s)%nat.
Proof. unfold strip. case_bool_decide; [|done]. intros [= <-]. rewrite length_drop. lia. Qed.

Lemma span_digits_length s : (length (span_digits s).2 <= length s)%nat.
Proof.
  induction s as [|c s IH]; cbn; [lia|]. destruct (Compat.isdigit c); [|done].
  destruct (span_digits s). cbn in *. lia.
Qed.

Lemma skip_space_length s : (length (Compat.skip_space s) <= length s)%nat.
Proof. induction s as [|c s IH]; cbn; [lia|]. destruct (Compat.isspace c); cbn; lia. Qed.

Lemma scan_int_length s v r : scan_int s = Some (v, r) -> (length r <= length s)%nat.
Proof.
  unfold scan_int. pose proof (skip_space_length s) as H. destruct (Compat.skip_space s) as [|c t]; [done|].
  cbn in H. assert (forall neg u, (length u <= length s)%nat ->
    (let '(d, r) := span_digits u in match d with [] => None | _ => Some (to_int (if neg : bool then - Compat.digits_value 0 d else Compat.digits_value 0 d), r) end) = Some (v, r) -> (length r <= length s)%nat) as Hg.
  { intros neg u Hu. pose proof (span_digits_length u). destruct (span_digits u) as [[|? ?] r']; [done|].
    intros [= _ <-]. cbn in *. lia. }
  destruct (c =? 45); [apply (Hg true); lia|]. destruct (c =? 43); apply (Hg false); cbn; lia.
Qed.

(** The version fits into the array that [sscanf] writes. *)
Lemma scan_ident_length s major minor version :
  scan_ident s = Some (major, minor, version) -> zlen version <= zlen s.
Proof.
  unfold scan_ident. destruct (strip (str "SSH-") s) as [s1|] eqn:E1; [|done]. cbn.
  destruct (scan_int s1) as [[a s2]|] eqn:E2; [|done]. cbn.
  destruct (strip _ s2) as [s3|] eqn:E3; [|done]. cbn. destruct (scan_int s3) as [[b s4]|] eqn:E4; [|done]. cbn.
  destruct (strip _ s4) as [s5|] eqn:E5; [|done]. cbn. pose proof (until_newline_le s5) as H.
  destruct (until_newline s5) as [|c t]; [done|]. intros [= <- <- <-]. unfold zlen. cbn [length] in *.
  apply strip_length in E1, E3, E5. apply scan_int_length in E2, E4. lia.
Qed.

Lemma compat_total version : is_Ok (Compat.compat_datafellows version).
Proof.
  unfold Compat.compat_datafellows. induction Compat.check as [|[pat b] tbl IH]; [by eexists|].
  cbn [Compat.compat_scan]. destruct (Match.match_pattern_list_total version pat false) as [r ->]. cbn.
  destruct (r =? 1); [by eexists|done].
Qed.

(** The flags of a peer. *)
Definition flags_for (version : list Z) (old : Z) : Z :=
  match Compat.compat_datafellows version with Ok (Some f) => f | _ => old end.

Lemma set_datafellows_spec version s :
  set_datafellows version s = (Ret tt, set_id_flags (flags_for version (id_flags s)) s).
Proof.
  unfold set_datafellows, flags_for. destruct (compat_total version) as [[f|] ->]; [done|]. by destruct s.
Qed.

Definition welcome (f : Z) : Prop :=
  Z.land f Compat.SSH_BUG_PROBE = 0 /\ Z.land f Compat.SSH_BUG_SCANNER = 0.

(** What holds behind an exchange that returned the strings [vs] and [vc]. *)
Record identified (s : ident) (vs vc : list Z) (s' : ident) : Prop := {
  id_server : vs ++ [13; 10] = get_protocol_version_exchange_string;
  id_wire : wire (id_sock s') = wire (id_sock s) ++ get_protocol_version_exchange_string;
  id_client : exists minor sw, scan_ident vc = Some (2, minor, sw) /\ zlen sw <= zlen vc < IDENT_BUF /\
    id_flags s' = flags_for sw (id_flags s);
  id_plain : Forall plain vc;
  id_welcome : welcome (id_flags s');
  id_took : took 255 s s'
}.

(** C23: Whatever arrives on the socket, the exchange of identification strings ends, and
    its writes stay inside of its two arrays; when it returns, the client named major
    version 2, its string holds no line end and no zero byte, it is no scanner, and at
    most 255 bytes were taken, from the front of what arrived. *)
Theorem ident_safe s :
  wp sshd_exchange_identification (fun '(vs, vc) s' => identified s vs vc s') (fun e _ => gives_up e) s.
Proof.
  unfold sshd_exchange_identification. apply wp_bind. eapply wp_mono; [apply atomicio_send_spec|..].
  2:{ cbn. intros e s' [-> _]. by left. }
  intros [] s1 (Hw1 & Hr1 & Hf1). apply wp_bind. eapply wp_mono; [apply read_version_any|..|done].
  intros vc s2 (Hp & Hl & (t & Ht & Hn) & Hs2 & Hw2 & Hf2).
  destruct (scan_ident vc) as [[[major minor] sw]|] eqn:Es; [|apply refuse_spec].
  apply wp_bind. unfold wp at 1. rewrite set_datafellows_spec. apply wp_bind, wp_gets.
  set (s3 := set_id_flags _ s2).
  destruct (Z.land (id_flags s3) Compat.SSH_BUG_PROBE =? 0) eqn:Ep; [|apply wp_throw; by right]. cbn [negb].
  destruct (Z.land (id_flags s3) Compat.SSH_BUG_SCANNER =? 0) eqn:Esc; [|apply wp_throw; by right]. cbn [negb].
  destruct (major =? 2) eqn:Em; [|apply refuse_spec]. cbn [negb]. apply wp_ret. zbool. subst major. pose proof (scan_ident_length _ _ _ _ Es) as Hsw.
  split; [done|..].
  - change (id_sock s3) with (id_sock s2). by rewrite Hw2, Hw1.
  - exists minor, sw. split; [done|]. split; [unfold IDENT_BUF; lia|]. cbn. by rewrite Hf2, Hf1.
  - done.
  - by split.
  - exists t. split; [|done]. change (incoming_bytes s3) with (incoming_bytes s2). rewrite <- Ht.
    unfold incoming_bytes. by rewrite Hr1.
Qed.

(** A client of protocol 2.0 that sends its line, however the bytes are cut into
    pieces, is understood: the exchange returns its string, has sent the one of the
    server, and leaves every byte behind the line for the packets. *)
Theorem ident_accepts sw nl rest s :
  sw <> [] -> Forall plain sw -> nl = [10] \/ nl = [13; 10] -> zlen sw + zlen nl <= 247 ->
  incoming_bytes s = str "SSH-2.0-" ++ sw ++ nl ++ rest ->
  welcome (flags_for sw (id_flags s)) -> Forall (fun r => ~ send_fails r) (sends (id_sock s)) ->
  exists s', sshd_exchange_identification s = (Ret (chop get_protocol_version_exchange_string, str "SSH-2.0-" ++ sw), s') /\
    incoming_bytes s' = rest /\ id_flags s' = flags_for sw (id_flags s) /\
    wire (id_sock s') = wire (id_sock s) ++ get_protocol_version_exchange_string.
Proof.
  intros Hne Hp Hnl Hl Hi [Hw1 Hw2] Hs. set (v := str "SSH-2.0-" ++ sw).
  pose proof (atomicio_send_spec get_protocol_version_exchange_string s) as Hsend. unfold wp in Hsend.
  destruct (atomicio_send get_protocol_version_exchange_string s) as [[[]|e] s1] eqn:E1.
  2:{ destruct Hsend as [_ He]. apply Exists_exists in He as (r & Hr & He). rewrite Forall_forall in Hs.
      by destruct (Hs r Hr). }
  destruct Hsend as (Hwi & Hre & Hfl).
  destruct (read_version_line v nl rest s1) as (s2 & Hv & Hin & Hse & Hwi2 & Hfl2).
  - apply Forall_app. split; [|done]. by repeat constructor.
  - destruct Hnl as [->| ->]; [by left|right]. split; [done|]. intros Hq. by apply (f_equal (take 5)) in Hq.
  - unfold v. rewrite !zlen_app. change (zlen (str "SSH-2.0-")) with 8. lia.
  - unfold incoming_bytes in *. rewrite Hre, Hi. unfold v. by rewrite <- !(assoc_L (++)).
  - exists (set_id_flags (flags_for sw (id_flags s2)) s2). rewrite Hfl2, Hfl.
    split; [|split; [done|]; split; [done|by rewrite <- Hwi, <- Hwi2]].
    unfold sshd_exchange_identification. unfold mbind at 1, SE_bind at 1. rewrite E1.
    unfold mbind at 1, SE_bind at 1. rewrite Hv.
    assert (scan_ident v = Some (2, 0, sw)) as ->.
    { assert (until_newline sw = sw) as Hu.
      { clear -Hp. induction Hp as [|c sw (_ & H10 & _) Hp IH]; [done|]. cbn.
        rewrite (proj2 (Z.eqb_neq c 10)) by done. by f_equal. }
      change (scan_ident v) with (match until_newline sw with [] => None | version => Some (to_int 2, to_int 0, version) end).
      rewrite Hu. by destruct sw. }
    unfold mbind at 1, SE_bind at 1. rewrite set_datafellows_spec, Hfl2, Hfl.
    unfold mbind, SE_bind, gets. cbn [id_flags set_id_flags]. rewrite Hw1, Hw2. done.
Qed.

End Theorems.

(** ** Example *)

Module IdentDemo.

#[local] Instance no_overflow : Scanf := {| scan_overflow _ := 0 |}.

Definition line : list Z := str "SSH-2.0-OpenSSH_5.1" ++ [13; 10].
Definition start : ident :=
  mkIdent (mkSocket [RecvData (take 3 line); RecvAgain; RecvData (drop 3 line ++ [0; 0; 1]); RecvData [44]]
             [SendSome 10; SendAgain] []) 0.

Lemma ident_accepts_witness : exists s', sshd_exchange_identification start =
    (Ret (chop get_protocol_version_exchange_string, str "SSH-2.0-" ++ str "OpenSSH_5.1"), s') /\
  incoming_bytes s' = [0; 0; 1; 44] /\ id_flags s' = flags_for (str "OpenSSH_5.1") (id_flags start) /\
  wire (id_sock s') = wire (id_sock start) ++ get_protocol_version_exchange_string.
Proof.
  apply (ident_accepts (str "OpenSSH_5.1") [13; 10] [0; 0; 1; 44] start); try done.
  - by repeat constructor.
  - by right.
  - repeat constructor; cbn; lia.
Defined.

End IdentDemo.
