(* ===== verification/SshKexServer.v ===== *)
(** * SshKexServer: the key exchange of the server

    [do_ssh2_kex], [kexdh_server], [kexgex_server], [kex_finish] (CoreConnection.cpp) and
    [KexDispatcher]: the messages of a key exchange, from the proposals to NEWKEYS.  It
    runs on any connection: [KexConnection] adds to the operations of [SshDispatch] the
    two that reach into the packet layer, sending the proposal with a fresh cookie and
    installing the keys; its instances are a socket and a script of messages.

    The host keys are those of [SshKey], the groups those of [SshDh]. *)

From S2P Require Import Prelude SshBuffer CxxMonad SshMatch SshCipher SshPacket SshTransport SshKex SshCompat SshDh SshKey SshDispatch SshSocket.

Definition SSH2_MSG_KEXDH_INIT : Z := 30.
Definition SSH2_MSG_KEXDH_REPLY : Z := 31.
Definition SSH2_MSG_KEX_DH_GEX_REQUEST_OLD : Z := 30.
Definition SSH2_MSG_KEX_DH_GEX_REQUEST : Z := 34.
Definition SSH2_MSG_KEX_DH_GEX_GROUP : Z := 31.
Definition SSH2_MSG_KEX_DH_GEX_INIT : Z := 32.
Definition SSH2_MSG_KEX_DH_GEX_REPLY : Z := 33.

(** ** Numbers in packets *)

Section Numbers.
Context `{BnLib}.

(** [packet_put_bignum2], as a field: the bytes of [buffer_put_bignum2]. *)
Definition bignum2_field (value : Z) : res field :=
  if value =? 0 then Ok (FString [])
  else if value <? 0 then Fatal "buffer_put_bignum2: buffer error"
  else
    let bytes := u32 (BN_num_bytes value + 1) in
    if bytes <? 2 then Fatal "buffer_put_bignum2: buffer error"
    else
      let buf := 0 :: BN_bn2bin value in
      if negb (zlen (BN_bn2bin value) =? bytes - 1) then Fatal "buffer_put_bignum2: buffer error"
      else
        let hasnohigh := if negb (Z.land (znth 0 buf 1) 0x80 =? 0) then 0%nat else 1%nat in
        Ok (FString (drop hasnohigh buf)).

(** [packet_get_bignum2]: what was read before an error stays consumed. *)
Definition get_bignum2 : SE Buffer Z := fun b =>
  match buffer_get_bignum2_ret b with
  | Ok (Some v, b) => (Ret v, b)
  | Ok (None, b) => (Throw ShuttingDown, b)
  | Fatal _ => (Throw ShuttingDown, b)
  | OutOfFuel => (Throw Diverges, b)
  end.

End Numbers.

(** ** The interface *)

Class KexConnection (K : Type) `{CR : Crypto} `{CN : Connection K} := {
  (** [kex_send_kexinit] *)
  con_kexinit : Kex -> SE K Kex;
  (** [kex_derive_keys] *)
  con_derive : Kex -> list Z -> Z -> SE K Kex
}.

Section Server.
Context {CR : Crypto} {DG : Digest} {BN : BnLib} {DL : DhLib} {KL : KeyLib}.
Context {K : Type} {CN : Connection K} {KC : KexConnection K}.

(** The members of the connection (and of its [Kex]) that the exchange uses, and the
    number of the calls of [BN_rand] so far. *)
Record kexrun := mkRun {
  kr_con : K;
  kr_kex : Kex;
  kr_draws : nat;
  myproposal : list (list Z);
  client_version_string : list Z;
  server_version_string : list Z;
  session_id2 : option (list Z)
}.

Definition set_con (k : K) (r : kexrun) : kexrun :=
  mkRun k (kr_kex r) (kr_draws r) (myproposal r) (client_version_string r) (server_version_string r)
    (session_id2 r).
Definition set_kex (x : Kex) (r : kexrun) : kexrun :=
  mkRun (kr_con r) x (kr_draws r) (myproposal r) (client_version_string r) (server_version_string r)
    (session_id2 r).
Definition set_draws (n : nat) (r : kexrun) : kexrun :=
  mkRun (kr_con r) (kr_kex r) n (myproposal r) (client_version_string r) (server_version_string r)
    (session_id2 r).
Definition set_proposal (p : list (list Z)) (r : kexrun) : kexrun :=
  mkRun (kr_con r) (kr_kex r) (kr_draws r) p (client_version_string r) (server_version_string r)
    (session_id2 r).
Definition set_session_id2 (i : option (list Z)) (r : kexrun) : kexrun :=
  mkRun (kr_con r) (kr_kex r) (kr_draws r) (myproposal r) (client_version_string r)
    (server_version_string r) i.

Abbreviation M := (SE kexrun).

Definition on_con {A} (m : SE K A) : M A := zoom kr_con set_con m.

(** *** Parts of the handlers *)

Definition packet_read_expect (expected_type : Z) : M unit :=
  '(type, _) ← on_con con_read;
  if negb (type =? expected_type) then
    on_con (disconnect (str "Protocol error: expected packet type " ++ dec expected_type ++
                        str ", got " ++ dec type))
  else mret tt.

(** [dh_gen_key] with the random numbers of the run. *)
Definition gen_key (dh : DH) (need : Z) : M DH :=
  n ← gets kr_draws;
  '(dh, n) ← lift_res (dh_gen_key dh need n);
  modify (set_draws n);;
  mret dh.

(** [DH_compute_key] and [BN_bin2bn] *)
Definition shared_with (dh : DH) (e : Z) : M Z :=
  match DH_compute_key e dh with
  | None => throw ShuttingDown
  | Some kbuf => mret (BN_bin2bn kbuf)
  end.

(** [key_to_blob] of a host key; without a blob the pointer is NULL. *)
Definition host_key_blob (key : Key) : M (list Z) :=
  o ← lift_res (key_to_blob key);
  match o with Some blob => mret blob | None => throw BadRead end.

(** [key_sign], whose result is not looked at: without a signature the pointer is NULL. *)
Definition sign_hash (key : Key) (hash : list Z) : M (list Z) :=
  df ← gets (peer_flags ∘ kr_con);
  o ← lift_res (key_sign df key hash);
  match o with Some sig => mret sig | None => throw BadRead end.

Definition set_session_id (h : list Z) (k : Kex) : Kex :=
  match session_id k with
  | None => mkKex (Some h) (kex_newkeys k) (we_need k) (server k) (kex_name k) (hostkey_type k)
              (kex_type k) (my k) (peer k) (done_ k) (flags k) (kex_md k)
  | Some _ => k
  end.

(** The public value of the server. *)
Definition server_pub (dh : DH) : M Z :=
  match pub_key dh with Some f => mret f | None => throw BadRead end.

(** The reply: host key, public value and signed hash. *)
Definition send_reply (type : Z) (blob : list Z) (f : Z) (signature : list Z) : M unit :=
  ff ← lift_res (bignum2_field f);
  on_con (con_send type [FString blob; ff; FString signature]).

Definition derive (hash : list Z) (secret : Z) : M unit :=
  kex ← gets kr_kex;
  kex ← on_con (con_derive kex hash secret);
  modify (set_kex kex).

Definition finished (k : Kex) : Kex :=
  mkKex (session_id k) (kex_newkeys k) (we_need k) (server k) None (hostkey_type k) (kex_type k)
    (my k) (buffer_clear (peer k)) true (Z.land (flags k) (Z.lnot KEX_INIT_SENT)) (kex_md k).

Definition kex_finish : M unit :=
  on_con (con_send SSH2_MSG_NEWKEYS []);;
  packet_read_expect SSH2_MSG_NEWKEYS;;
  on_con packet_check_eom;;
  modify (fun r => set_kex (finished (kr_kex r)) r).

(** From the hash on: the session id, the signature, the reply, the keys. *)
Definition complete_exchange (reply : Z) (server_host_key : Key) (blob : list Z) (f shared_secret : Z)
    (hash : list Z) : M unit :=
  modify (fun r => set_kex (set_session_id hash (kr_kex r)) r);;
  signature ← sign_hash server_host_key hash;
  send_reply reply blob f signature;;
  derive hash shared_secret;;
  kex_finish.

(** *** The fixed groups *)

Definition kexdh_server (host_keys : list (option Key)) : M unit :=
  kex ← gets kr_kex;
  dh ← lift_res (if kex_type kex =? KEX_DH_GRP1_SHA1 then dh_new_group1
                 else if kex_type kex =? KEX_DH_GRP14_SHA1 then dh_new_group14
                 else Fatal "Unexpected KEX type");
  dh ← gen_key dh (s32 (u32 (we_need kex * 8)));
  packet_read_expect SSH2_MSG_KEXDH_INIT;;
  match get_hostkey_by_type host_keys (hostkey_type kex) with
  | None => throw ShuttingDown
  | Some server_host_key =>
      dh_client_pub ← on_con (reading get_bignum2);
      on_con packet_check_eom;;
      if negb (dh_pub_is_valid dh dh_client_pub) then on_con (disconnect (str "bad client public DH value"))
      else
        shared_secret ← shared_with dh dh_client_pub;
        blob ← host_key_blob server_host_key;
        f ← server_pub dh;
        r ← gets id;
        hash ← lift_res (kex_dh_hash (client_version_string r) (server_version_string r)
                 (buffer_ptr (peer kex)) (buffer_ptr (my kex)) blob dh_client_pub f shared_secret);
        complete_exchange SSH2_MSG_KEXDH_REPLY server_host_key blob f shared_secret hash
  end.

(** *** Group exchange *)

Definition read_gex_request : M (Z * Z * Z * Z) :=
  '(type, _) ← on_con con_read;
  if type =? SSH2_MSG_KEX_DH_GEX_REQUEST then
    min ← on_con (reading get_int);
    nbits ← on_con (reading get_int);
    max ← on_con (reading get_int);
    mret (type, Z.max DH_GRP_MIN (s32 min), s32 nbits, Z.min DH_GRP_MAX (s32 max))
  else if type =? SSH2_MSG_KEX_DH_GEX_REQUEST_OLD then
    nbits ← on_con (reading get_int);
    mret (type, DH_GRP_MIN, s32 nbits, DH_GRP_MAX)
  else throw ShuttingDown.

Definition kexgex_server (host_keys : list (option Key)) : M unit :=
  kex ← gets kr_kex;
  match get_hostkey_by_type host_keys (hostkey_type kex) with
  | None => throw ShuttingDown
  | Some server_host_key =>
      '(type, min, nbits, max) ← read_gex_request;
      on_con packet_check_eom;;
      if (max <? min) || (nbits <? min) || (max <? nbits) then throw ShuttingDown
      else
        dh ← lift_res (choose_dh min nbits max);
        pf ← lift_res (bignum2_field (dh_p dh));
        gf ← lift_res (bignum2_field (dh_g dh));
        on_con (con_send SSH2_MSG_KEX_DH_GEX_GROUP [pf; gf]);;
        on_con con_write_wait;;
        dh ← gen_key dh (s32 (u32 (we_need kex * 8)));
        packet_read_expect SSH2_MSG_KEX_DH_GEX_INIT;;
        dh_client_pub ← on_con (reading get_bignum2);
        on_con packet_check_eom;;
        if negb (dh_pub_is_valid dh dh_client_pub) then on_con (disconnect (str "bad client public DH value"))
        else
          shared_secret ← shared_with dh dh_client_pub;
          blob ← host_key_blob server_host_key;
          let old := type =? SSH2_MSG_KEX_DH_GEX_REQUEST_OLD in
          f ← server_pub dh;
          r ← gets id;
          hash ← lift_res (kexgex_hash (kex_md kex) (client_version_string r) (server_version_string r)
                   (buffer_ptr (peer kex)) (buffer_ptr (my kex)) blob
                   (if old then -1 else min) nbits (if old then -1 else max) (dh_p dh) (dh_g dh)
                   dh_client_pub f shared_secret);
          complete_exchange SSH2_MSG_KEX_DH_GEX_REPLY server_host_key blob f shared_secret hash
  end.

(** *** KEXINIT and the run *)

(** [kex_kexinit_finish], with the negotiation of [SshKex] and the packet that a wrong
    guess of the client makes it skip; [do_ssh2_kex] sets four of the methods. *)
Definition kexinit_finish (host_keys : list (option Key)) : M unit :=
  kex ← gets kr_kex;
  (if Z.land (flags kex) KEX_INIT_SENT =? 0 then
     kex ← on_con (con_kexinit kex); modify (set_kex kex)
   else mret tt);;
  kex ← gets kr_kex;
  df ← gets (peer_flags ∘ kr_con);
  '(kex, skip) ← lift_res (kex_choose_conf df kex);
  modify (set_kex kex);;
  (if skip : bool then on_con con_read;; mret tt else mret tt);;
  let t := kex_type kex in
  if (t =? KEX_DH_GRP1_SHA1) || (t =? KEX_DH_GRP14_SHA1) then kexdh_server host_keys
  else if (t =? KEX_DH_GEX_SHA1) || (t =? KEX_DH_GEX_SHA256) then kexgex_server host_keys
  else throw ShuttingDown.

Fixpoint repeat_get {A} (n : nat) (m : M A) : M unit :=
  match n with O => mret tt | S n => m;; repeat_get n m end.

(** [KexDispatcher::kexinit_msg] *)
Definition kexinit_received (host_keys : list (option Key)) : M unit :=
  ptr ← gets (buffer_ptr ∘ incoming ∘ kr_con);
  kex ← gets kr_kex;
  pb ← lift_res (buffer_append (peer kex) ptr);
  modify (set_kex (set_peer kex pb));;
  repeat_get KEX_COOKIE_LEN (on_con (reading get_char));;
  repeat_get PROPOSAL_MAX (on_con (reading get_string));;
  on_con (reading get_char);;
  on_con (reading get_int);;
  on_con packet_check_eom;;
  kexinit_finish host_keys.

(** The table of [KexDispatcher] and its overrides: other messages are ignored. *)
Definition kex_table : list dispatch_fn := dispatch_set SSH2_MSG_KEXINIT kexinit_msg dispatch_init.

Definition kex_virt (host_keys : list (option Key)) (f : dispatch_fn) (type seq : Z) : M unit :=
  match f with
  | kexinit_msg => kexinit_received host_keys
  | _ => mret tt
  end.

Definition kex_dispatch_run (host_keys : list (option Key)) (fuel : nat) : M unit :=
  dispatch_run kr_con set_con (fun _ => kex_table) (kex_virt host_keys) (done_ ∘ kr_kex) fuel DISPATCH_BLOCK.

(** The proposal of the server for this peer. *)
Definition server_proposal (df : Z) (host_keys : list (option Key)) (p : list (list Z)) : res (list (list Z)) :=
  ctos ← Compat.compat_cipher_proposal df (prop_nth p PROPOSAL_ENC_ALGS_CTOS);
  stoc ← Compat.compat_cipher_proposal df (prop_nth p PROPOSAL_ENC_ALGS_STOC);
  types ← list_hostkey_types host_keys;
  Ok (<[PROPOSAL_SERVER_HOST_KEY_ALGS := types]>
      (<[PROPOSAL_COMP_ALGS_CTOS := str "none"]> (<[PROPOSAL_COMP_ALGS_STOC := str "none"]>
      (<[PROPOSAL_ENC_ALGS_CTOS := ctos]> (<[PROPOSAL_ENC_ALGS_STOC := stoc]> p))))).

(** [kex_setup], then the server's part of the [Kex]. *)
Definition setup_kex : M unit :=
  p ← gets myproposal;
  m ← lift_res (kex_prop2buf buffer_init p);
  kex ← on_con (con_kexinit (mkKex None (fun _ => None) 0 false None 0 0 m buffer_init false 0 EVP_sha1));
  modify (set_kex (mkKex (session_id kex) (kex_newkeys kex) (we_need kex) true (kex_name kex)
    (hostkey_type kex) (kex_type kex) (my kex) (peer kex) (done_ kex) (flags kex) (kex_md kex))).

Definition do_ssh2_kex (host_keys : list (option Key)) (fuel : nat) : M unit :=
  df ← gets (peer_flags ∘ kr_con);
  p ← gets myproposal;
  p ← lift_res (server_proposal df host_keys p);
  modify (set_proposal p);;
  setup_kex;;
  kex_dispatch_run host_keys fuel;;
  modify (fun r => set_session_id2 (session_id (kr_kex r)) r).

End Server.

(** ** On a socket *)

Section OnSocket.
Context {CR : Crypto} {DG : Digest} {ZL : Zlib} {RN : Random} {BN : BnLib}.

#[export] Instance net_kex_connection : KexConnection net := {
  con_kexinit kex := on_pkt (fun c => '(c, kex) ← kex_send_kexinit c kex; Ok (kex, c));
  con_derive kex hash secret := on_pkt (fun c => '(c, kex) ← kex_derive_keys c kex hash secret; Ok (kex, c))
}.

End OnSocket.
