(* ===== verification/SshKexProps.v ===== *)
(** * SshKexProps: what a key exchange establishes

    The exchange of [SshKexServer] on a script of the client's messages, for any
    messages.  Keys are derived only behind a valid public value of the client, from the
    secret both sides can compute and the hash of RFC 4253 over the whole exchange, which
    the server has signed with a host key in its reply.  An honest client is served: the
    exchange ends, and the client gets the same secret and hash from the reply and
    accepts the signature. *)

From S2P Require Import Prelude SshBuffer CxxMonad SshMatch SshCipher SshPacket SshTransport SshKex SshCompat SshDh SshKey SshDispatch SshKexServer.

(** ** A script of messages *)

Section Script.
Context {CR : Crypto}.

(** The script, the random cookie, and the keys that were derived: hash, secret and the
    [Kex] at that time. *)
Record kscript := mkKScript {
  ks_con : script;
  ks_cookie : list Z;
  ks_derived : list (list Z * Z * Kex)
}.

Definition set_script (s : script) (k : kscript) : kscript := mkKScript s (ks_cookie k) (ks_derived k).

Definition on_script {A} (m : SE script A) : SE kscript A := zoom ks_con set_script m.

#[export] Instance kscript_connection : Connection kscript := {
  incoming k := incoming (ks_con k);
  set_incoming b k := set_script (set_incoming b (ks_con k)) k;
  peer_flags k := peer_flags (ks_con k);
  disconnecting k := disconnecting (ks_con k);
  set_disconnecting k := set_script (set_disconnecting (ks_con k)) k;
  con_send type fs := on_script (con_send type fs);
  con_write_wait := on_script con_write_wait;
  con_read := on_script con_read;
  con_poll := on_script con_poll
}.

Definition kscript_kexinit (kex : Kex) : SE kscript Kex :=
  if negb (Z.land (flags kex) KEX_INIT_SENT =? 0) then mret kex
  else if buffer_len (my kex) <? Z.of_nat KEX_COOKIE_LEN then throw ShuttingDown
  else
    cookie ← gets ks_cookie;
    let b := my kex in
    let b := mkBuffer (splice (offset b) cookie (buf b)) (alloc b) (offset b) (end_ b) in
    con_send SSH2_MSG_KEXINIT (FChar <$> buffer_ptr b);;
    mret (set_my kex b (Z.lor (flags kex) KEX_INIT_SENT) false).

Definition kscript_derive (kex : Kex) (hash : list Z) (secret : Z) : SE kscript Kex := fun k =>
  (Ret kex, mkKScript (ks_con k) (ks_cookie k) (ks_derived k ++ [(hash, secret, kex)])).

#[export] Instance kscript_kex : KexConnection kscript := {
  con_kexinit := kscript_kexinit;
  con_derive := kscript_derive
}.

End Script.

(** ** The hash of RFC 4253, section 8 *)

Section Hash.
Context {CR : Crypto} {DG : Digest} {BN : BnLib}.

Definition kexinit_bytes (payload : list Z) : list Z := put_u32 (zlen payload + 1) ++ [SSH2_MSG_KEXINIT] ++ payload.

(** Identification strings, KEXINIT payloads, host key, both public values, secret. *)
Definition exchange_pieces (vc vs ic is_ ks : list Z) (e f k : Z) : list (list Z) :=
  [field_bytes (FString vc); field_bytes (FString vs); kexinit_bytes ic; kexinit_bytes is_;
   field_bytes (FString ks); field_bytes (mpint_field e); field_bytes (mpint_field f);
   field_bytes (mpint_field k)].

Definition exchange_hash (vc vs ic is_ ks : list Z) (e f k : Z) : list Z :=
  EVP_Digest EVP_sha1 (concat (exchange_pieces vc vs ic is_ ks e f k)).

End Hash.

Section KexProps.
Context {CR : Crypto} {DG : Digest} {BN : BnLib} {DL : DhLib} {KL : KeyLib}.
Context {BL : BnLaws} {DW : DhLaws} {KW : KeyLaws}.

Abbreviation run := (kexrun (K := kscript)).
Abbreviation M := (SE run).

Lemma writes_kexinit payload : zlen payload <= BUFFER_MAX_CHUNK ->
  writes (fun b => put_kexinit b payload) (kexinit_bytes payload).
Proof.
  intros Hl n b Hc Hf. unfold put_kexinit, kexinit_bytes in *.
  destruct (writes_int (zlen payload + 1) n b Hc) as (b1 & -> & Hc1 & H1); [by eapply fits_app_l|]. rsimp.
  apply (proj1 (fits_app _ _ _)) in Hf. destruct (writes_char SSH2_MSG_KEXINIT _ b1 Hc1) as (b2 & -> & Hc2 & H2);
    [by eapply fits_app_l|]. rsimp.
  apply (proj1 (fits_app _ _ _)) in Hf. destruct (writes_append payload Hl _ b2 Hc2 Hf) as (b3 & -> & Hc3 & H3).
  exists b3. split; [done|]. rewrite !zlen_app, !Z.add_assoc. split; [done|].
  by rewrite H3, H2, H1, <- !app_assoc.
Qed.

(** Texts that fit into the buffers of the exchange. *)
Definition sized (vc vs ic is_ : list Z) : Prop :=
  zlen vc <= 1000 /\ zlen vs <= 1000 /\ zlen ic <= 300000 /\ zlen is_ <= 300000.

Lemma exchange_fits vc vs ic is_ ks e f k : sized vc vs ic is_ -> zlen ks <= 40000 ->
  bn_ok e -> bn_ok f -> bn_ok k -> fits 0 (concat (exchange_pieces vc vs ic is_ ks e f k)).
Proof.
  intros (H1 & H2 & H3 & H4) H5 H6 H7 H8. apply mpint_short in H6, H7, H8. apply small_fits.
  unfold exchange_pieces, kexinit_bytes. cbn [concat field_bytes mpint_field]. rewrite !zlen_app.
  rewrite !zlen_put_u32. change (zlen [SSH2_MSG_KEXINIT]) with 1. change (zlen []) with 0. lia.
Qed.

Lemma kex_dh_hash_spec vc vs ic is_ ks e f k :
  sized (c_str vc) (c_str vs) ic is_ -> zlen ks <= 40000 -> bn_ok e -> bn_ok f -> bn_ok k ->
  kex_dh_hash vc vs ic is_ ks e f k = Ok (exchange_hash (c_str vc) (c_str vs) ic is_ ks e f k).
Proof.
  intros Hs Hk He Hf Hs2. pose proof (exchange_fits _ _ _ _ ks e f k Hs Hk He Hf Hs2) as Hfit.
  apply filling_init in Hfit. unfold exchange_hash, kex_dh_hash.
  set (total := concat (exchange_pieces _ _ _ _ _ _ _ _)) in *. clearbody total.
  unfold exchange_pieces in Hfit. cbn [field_bytes] in Hfit.
  destruct Hs as (H1 & H2 & H3 & H4). unfold BUFFER_MAX_CHUNK in *.
  fill (writes_cstring vc ltac:(unfold BUFFER_MAX_CHUNK; lia)).
  fill (writes_cstring vs ltac:(unfold BUFFER_MAX_CHUNK; lia)).
  fill (writes_kexinit ic ltac:(unfold BUFFER_MAX_CHUNK; lia)).
  fill (writes_kexinit is_ ltac:(unfold BUFFER_MAX_CHUNK; lia)).
  fill (writes_string ks ltac:(unfold BUFFER_MAX_CHUNK; lia)).
  fill (writes_mpint e He). fill (writes_mpint f Hf). fill (writes_mpint k Hs2). by filled.
Qed.

Lemma bignum2_field_spec v : bn_ok v -> bignum2_field v = Ok (mpint_field v).
Proof.
  intros [Hv Hs]. unfold bignum2_field, mpint_field, mpint. destruct (v =? 0) eqn:E0; [done|]. zbool.
  destruct (bn2bin_pos v ltac:(lia)) as [Hp Hl]. replace (v <? 0) with false by lia.
  rewrite u32_small by lia. replace (_ <? 2) with false by lia. rewrite Hl.
  replace (_ =? _) with true by lia. cbn [negb].
  change (znth 0 (0 :: BN_bn2bin v) 1) with (znth 0 (BN_bn2bin v) 0). by destruct (negb _).
Qed.

(** ** Frames *)

Definition sent_of (r : run) : list (Z * list field) := sent (ks_con (kr_con r)).
Definition inbox_of (r : run) : list (Z * Z * list Z) := inbox (ks_con (kr_con r)).
Definition derived_of (r : run) : list (list Z * Z * Kex) := ks_derived (kr_con r).
Definition flags_of (r : run) : Z := flags_of_peer (ks_con (kr_con r)).

(** Steps of the connection that derive no keys. *)
Record kframe (k k' : kscript) : Prop := {
  kf_derived : ks_derived k' = ks_derived k;
  kf_sent : sent (ks_con k) `prefix_of` sent (ks_con k');
  kf_inbox : inbox (ks_con k') `suffix_of` inbox (ks_con k);
  kf_flags : flags_of_peer (ks_con k') = flags_of_peer (ks_con k)
}.

(** Steps of the exchange that do not touch the [Kex] either. *)
Record frame (r r' : run) : Prop := {
  fr_con : kframe (kr_con r) (kr_con r');
  fr_kex : kr_kex r' = kr_kex r;
  fr_vc : client_version_string r' = client_version_string r;
  fr_vs : server_version_string r' = server_version_string r
}.

#[export] Instance kframe_preorder : PreOrder kframe.
Proof.
  split; [by intros r; split|]. intros r1 r2 r3 [] []. split; try congruence; by etrans.
Qed.

#[export] Instance frame_preorder : PreOrder frame.
Proof.
  split; [by intros r; split|]. intros r1 r2 r3 [] []. split; try congruence. by etrans.
Qed.

(** Computations all of whose steps are such, and that end. *)
Definition calm {S A} (R : S -> S -> Prop) (m : SE S A) : Prop := forall s,
  wp m (fun _ s' => R s s') (fun e s' => e <> Diverges /\ R s s') s.

Section Calm.
Context {S : Type} (R : S -> S -> Prop) `{!PreOrder R}.

Lemma calm_ret {A} (a : A) : calm R (mret a).
Proof. intros r. by apply wp_ret. Qed.

Lemma calm_throw {A} e : e <> Diverges -> calm R (throw e : SE S A).
Proof. intros He r. by apply wp_throw. Qed.

Lemma calm_gets {A} (f : S -> A) : calm R (gets f).
Proof. intros r. by apply wp_gets. Qed.

Lemma calm_modify (f : S -> S) : (forall s, R s (f s)) -> calm R (modify f).
Proof. intros Hf s. by apply wp_modify. Qed.

Lemma calm_bind {A B} (m : SE S A) (f : A -> SE S B) :
  calm R m -> (forall a, calm R (f a)) -> calm R (m ≫= f).
Proof.
  intros Hm Hf r. apply wp_bind. eapply wp_mono; [apply Hm|..]; cbv beta; [|done].
  intros a r1 H1. eapply wp_mono; [apply Hf|..]; cbv beta.
  - intros b r2 H2. by etrans.
  - intros e r2 [He H2]. split; [done|]. by etrans.
Qed.

Lemma calm_lift_res {A} (o : res A) : o <> OutOfFuel -> calm R (lift_res o).
Proof. intros Ho. destruct o; [apply calm_ret|by apply calm_throw|done]. Qed.

(** The rule for the first step of a computation. *)
Lemma wp_calm {A B} (m : SE S A) (f : A -> SE S B) Q (E : exn -> S -> Prop) s : calm R m ->
  (forall a s', R s s' -> wp (f a) Q E s') -> (forall e s', e <> Diverges -> R s s' -> E e s') ->
  wp (m ≫= f) Q E s.
Proof.
  intros Hm Hf He. apply wp_bind. eapply wp_mono; [apply Hm|..]; cbv beta; [by auto|].
  intros e s' [? ?]. auto.
Qed.

End Calm.

Lemma calm_on_con {A} (m : SE kscript A) : calm kframe m -> calm frame (on_con m).
Proof.
  intros Hm r. apply wp_zoom. eapply wp_mono; [apply Hm|..]; cbv beta.
  - intros _ k Hk. by split.
  - intros e k [He Hk]. split; [done|]. by split.
Qed.

Create HintDb calm.

Ltac calm :=
  repeat match goal with
  | |- calm _ (mret _) => apply calm_ret; apply _
  | |- calm _ (throw _) => apply calm_throw; [apply _|done]
  | |- calm _ (gets _) => apply calm_gets; apply _
  | |- calm _ (_ ≫= _) => apply calm_bind; [apply _| |intros ?]
  | |- calm frame (on_con _) => apply calm_on_con
  | |- calm _ (match ?b with _ => _ end) => destruct b
  | |- calm _ _ => solve [eauto with calm]
  end.

Lemma calm_send type fs : calm kframe (con_send type fs).
Proof. intros k. unfold wp. cbn. split; try done. cbn. by eexists. Qed.

Lemma calm_write_wait : calm kframe con_write_wait.
Proof. intros k. unfold wp. cbn. by split. Qed.

Lemma calm_read : calm kframe con_read.
Proof.
  intros k. unfold wp. cbn. unfold on_script, zoom. cbn. unfold script_read.
  destruct (inbox (ks_con k)) as [|[[t q] p] rest] eqn:E; cbn; [by split; [|split]|].
  split; try done. cbn. rewrite E. by exists [(t, q, p)].
Qed.

Lemma calm_reading {A} (m : SE Buffer A) : (forall b, fst (m b) <> Throw Diverges) -> calm kframe (reading m).
Proof.
  intros Hm k. apply wp_zoom. unfold wp. specialize (Hm (incoming k)).
  destruct (m (incoming k)) as [[a|e] b]; [by split|]. split; [cbn in Hm; congruence|by split].
Qed.

#[local] Hint Resolve calm_send calm_write_wait calm_read : calm.

Lemma calm_disconnect {A} text : calm kframe (disconnect text : SE kscript A).
Proof. unfold disconnect. calm. apply calm_modify. by split. Qed.

#[local] Hint Resolve calm_disconnect : calm.

Lemma disconnect_throws {A} text r :
  wp (on_con (disconnect text) : M A) (fun _ _ => False) (fun e r' => e <> Diverges /\ frame r r') r.
Proof.
  pose proof (calm_on_con (A := A) (disconnect text) (calm_disconnect text) r) as Hc.
  unfold wp, on_con, zoom in *. unfold disconnect in *. cbn in *. unfold mbind, SE_bind, gets in *.
  by destruct (closing (ks_con (kr_con r))).
Qed.

Lemma calm_check_eom : calm kframe packet_check_eom.
Proof. unfold packet_check_eom. calm. Qed.

#[local] Hint Resolve calm_check_eom : calm.

Lemma calm_read_expect t : calm frame (packet_read_expect t).
Proof. unfold packet_read_expect. calm. Qed.

#[local] Hint Resolve calm_read_expect : calm.

Lemma get_string_ret_fuel b : buffer_get_string_ret b <> OutOfFuel.
Proof.
  unfold buffer_get_string_ret, buffer_get_int. destruct (buffer_get_int_ret b) as [[n b1]|]; [|done]. rsimp.
  destruct (n >? _); [done|]. by destruct (buffer_get_ret b1 n) as [[? ?]|].
Qed.

Lemma get_bignum2_ends b : fst (get_bignum2 b) <> Throw Diverges.
Proof.
  unfold get_bignum2, buffer_get_bignum2_ret. pose proof (get_string_ret_fuel b) as Hf.
  destruct (buffer_get_string_ret b) as [[[s|] b1]| |]; rsimp; try done.
  destruct (_ && _); [done|]. by destruct (_ >? _).
Qed.

Lemma calm_bignum2 : calm kframe (reading get_bignum2).
Proof. apply calm_reading, get_bignum2_ends. Qed.

#[local] Hint Resolve calm_bignum2 : calm.

(** ** Keys are derived only behind a valid exchange *)

(** The keys [t] were derived from an exchange with a public value [e] of the client
    that is valid, a private key [x] of the server, and a reply that is among [out];
    [vc] to [is_] are the identification strings and the KEXINIT payloads, [need] the
    size of the keys, [df] the deviations of the peer, [sid] the session id so far. *)
Definition derivation (vc vs ic is_ : list Z) (need df : Z) (sid : option (list Z))
    (host_keys : list (option Key)) (t : list Z * Z * Kex) (out : list (Z * list field)) : Prop :=
  exists p x e f key blob sig,
    (p = p1 \/ p = p14) /\ (1 < e < p - 1 /\ ~ pow2 e) /\
    (0 <= x < 2 ^ (16 * need) /\ f = 2 ^ x mod p /\ 1 < f < p - 1 /\ ~ pow2 f) /\
    t.1.2 = e ^ x mod p /\
    In (Some key) host_keys /\ key_to_blob key = Ok (Some blob) /\
    t.1.1 = exchange_hash vc vs ic is_ blob e f t.1.2 /\
    key_sign df key t.1.1 = Ok (Some sig) /\
    In (SSH2_MSG_KEXDH_REPLY, [FString blob; mpint_field f; FString sig]) out /\
    session_id t.2 = Some (default t.1.1 sid).

(** The states and the ends of an exchange. *)
Record ready (host_keys : list (option Key)) (r : run) : Prop := {
  rd_keys : forall k, In (Some k) host_keys -> key_ok k;
  rd_need : 0 <= we_need (kr_kex r) <= 1000;
  rd_sized : sized (c_str (client_version_string r)) (c_str (server_version_string r))
               (buffer_ptr (peer (kr_kex r))) (buffer_ptr (my (kr_kex r)))
}.

Definition derived_one (host_keys : list (option Key)) (r : run) (t : list Z * Z * Kex) (r' : run) : Prop :=
  derived_of r' = derived_of r ++ [t] /\ sent_of r `prefix_of` sent_of r' /\
    derivation (c_str (client_version_string r)) (c_str (server_version_string r))
      (buffer_ptr (peer (kr_kex r))) (buffer_ptr (my (kr_kex r))) (we_need (kr_kex r)) (flags_of r)
      (session_id (kr_kex r)) host_keys t (sent_of r').

Definition safe_end (host_keys : list (option Key)) (r : run) (e : exn) (r' : run) : Prop :=
  e <> Diverges /\ sent_of r `prefix_of` sent_of r' /\
  (derived_of r' = derived_of r \/ exists t, derived_one host_keys r t r').

Lemma bn_ok_below v : 0 <= v < 2 ^ 2048 -> bn_ok v.
Proof.
  intros Hv. split; [lia|]. unfold BN_num_bytes.
  assert (BN_num_bits v <= 2048); [|Z.div_mod_to_equations; lia].
  destruct (Z.eq_dec v 0) as [->|]; [rewrite bn_num_bits_0; lia|]. rewrite bn_num_bits by lia.
  pose proof (proj1 (Z.log2_lt_pow2 v 2048 ltac:(lia)) ltac:(lia)). lia.
Qed.

Lemma group_below p : p = p1 \/ p = p14 -> 4 < p < 2 ^ 2048.
Proof. intros [-> | ->]; by vm_compute. Qed.

Lemma pow_mod_below e x p : p = p1 \/ p = p14 -> 0 <= e ^ x mod p < 2 ^ 2048.
Proof. intros Hp%group_below. pose proof (Z.mod_pos_bound (e ^ x) p ltac:(lia)). lia. Qed.

Lemma valid_bn_ok p v : p = p1 \/ p = p14 -> 1 < v < p - 1 -> bn_ok v.
Proof. intros Hp%group_below Hv. apply bn_ok_below. lia. Qed.

Lemma gen_key_wp dh need r : 0 <= need ->
  wp (gen_key dh need) (fun dh' r' => frame r r' /\ exists x f, dh_ready dh dh' need x f)
    (fun e r' => e <> Diverges /\ frame r r') r.
Proof.
  intros Hn. unfold gen_key. apply wp_bind, wp_gets, wp_bind, wp_lift_res.
  pose proof (dh_gen_key_spec dh need (kr_draws r) Hn) as Hg.
  destruct (dh_gen_key dh need _) as [[dh' n]|m|]; [|done|done]. destruct Hg as (x & f & Hr & _).
  apply wp_bind, wp_modify, wp_ret. split; [by split|]. by exists x, f.
Qed.

(** The last part: reply, keys, NEWKEYS. *)
Lemma kex_finish_wp r :
  wp kex_finish (fun _ r' => kframe (kr_con r) (kr_con r') /\ kr_kex r' = finished (kr_kex r))
    (fun e r' => e <> Diverges /\ kframe (kr_con r) (kr_con r')) r.
Proof.
  unfold kex_finish.
  eapply (wp_calm frame); [calm| |intros e r1 He []; done]. intros _ r1 H1.
  eapply (wp_calm frame); [calm| |intros e r2 He H2; split; [done|]; by destruct (transitivity H1 H2)].
  intros _ r2 H2. eapply (wp_calm frame); [calm| |].
  - intros _ r3 H3. apply wp_modify. cbn. by destruct (transitivity H1 (transitivity H2 H3)) as [? -> _ _].
  - intros e r3 He H3. split; [done|]. by destruct (transitivity H1 (transitivity H2 H3)).
Qed.

(** What [complete_exchange] has done when it derived keys. *)
Definition completed (reply : Z) (key : Key) (blob : list Z) (f secret : Z) (hash : list Z) (r r' : run) : Prop :=
  derived_of r' = derived_of r ++ [(hash, secret, set_session_id hash (kr_kex r))] /\
  sent_of r `prefix_of` sent_of r' /\
  exists sig, key_sign (flags_of r) key hash = Ok (Some sig) /\
    In (reply, [FString blob; mpint_field f; FString sig]) (sent_of r').

Lemma complete_exchange_wp reply key blob f secret hash r : key_ok key -> bn_ok f ->
  wp (complete_exchange reply key blob f secret hash)
    (fun _ r' => completed reply key blob f secret hash r r' /\ done_ (kr_kex r') = true /\
       session_id (kr_kex r') = Some (default hash (session_id (kr_kex r))))
    (fun e r' => e <> Diverges /\ sent_of r `prefix_of` sent_of r' /\
       (derived_of r' = derived_of r \/ completed reply key blob f secret hash r r')) r.
Proof.
  intros Hk Hf. unfold complete_exchange. apply wp_bind, wp_modify.
  unfold sign_hash. apply wp_bind, wp_bind, wp_gets, wp_bind, wp_lift_res.
  destruct (key_sign_ok (flags_of r) key hash Hk) as [o Ho]. cbn [compose kr_con set_kex].
  change (peer_flags (kr_con r)) with (flags_of r). rewrite Ho. destruct o as [sig|]; [|by split; [|split; [|left]]].
  apply wp_ret. unfold send_reply. apply wp_bind, wp_bind. rewrite bignum2_field_spec by done.
  apply wp_lift_res. unfold wp at 1. cbn [on_con zoom con_send kscript_connection on_script script_connection].
  apply wp_bind. unfold derive. apply wp_bind, wp_gets, wp_bind. unfold wp at 1.
  cbn [on_con zoom con_derive kscript_kex kscript_derive set_con kr_kex set_kex].
  apply wp_modify. match goal with |- wp kex_finish _ _ ?s => set (r1 := s) end.
  assert (Hdone : forall r', kframe (kr_con r1) (kr_con r') ->
    completed reply key blob f secret hash r r').
  { intros r' [Hd [l Hs] _ _]. split; [exact Hd|]. split.
    { unfold sent_of. rewrite Hs. cbn. rewrite <- app_assoc. by eexists. }
    exists sig. split; [done|]. unfold sent_of. rewrite Hs. apply in_or_app. left. apply in_or_app. right. by left. }
  eapply wp_mono; [apply kex_finish_wp|..]; cbv beta.
  - intros _ r' [Hfr Hx]. split; [by apply Hdone|]. rewrite Hx. split; [done|].
    cbn. unfold set_session_id. by destruct (session_id (kr_kex r)) eqn:E; rewrite ?E.
  - intros e r' [He Hfr]. apply Hdone in Hfr as Hc. split; [done|]. split; [by destruct Hc as (_ & ? & _)|by right].
Qed.

Lemma blob_ok key : key_ok key -> exists blob, key_to_blob key = Ok (Some blob) /\ zlen blob <= 40000.
Proof.
  intros Hk. eexists. split; [by apply key_to_blob_fields|]. pose proof (blob_small key Hk). lia.
Qed.

Lemma frame_flags r r' : frame r r' -> flags_of r' = flags_of r.
Proof. by intros [[]]. Qed.

Lemma frame_sent r r' : frame r r' -> sent_of r `prefix_of` sent_of r'.
Proof. by intros [[]]. Qed.

Lemma frame_derived r r' : frame r r' -> derived_of r' = derived_of r.
Proof. by intros [[]]. Qed.

(** A normal end. *)
Definition good_end (host_keys : list (option Key)) (r r' : run) : Prop :=
  exists t, derived_one host_keys r t r' /\ done_ (kr_kex r') = true /\ session_id (kr_kex r') = session_id t.2.

(** From the valid public value on. *)
Lemma kexdh_tail_wp host_keys key p dh x f e r0 r : ready host_keys r0 -> frame r0 r ->
  (p = p1 \/ p = p14) -> In (Some key) host_keys ->
  dh_ready (mkDH p 2 None None) dh (8 * we_need (kr_kex r0)) x f -> dh_pub_is_valid dh e = true ->
  wp (shared_secret ← shared_with dh e; blob ← host_key_blob key; f ← server_pub dh; r ← gets id;
      hash ← lift_res (kex_dh_hash (client_version_string r) (server_version_string r)
               (buffer_ptr (peer (kr_kex r0))) (buffer_ptr (my (kr_kex r0))) blob e f shared_secret);
      complete_exchange SSH2_MSG_KEXDH_REPLY key blob f shared_secret hash)
    (fun _ => good_end host_keys r0) (safe_end host_keys r0) r.
Proof.
  intros [Hkeys Hneed Hsz] Hfr Hp Hin [Hdp Hdg Hpriv Hpub Hx Hf Hvf] He. cbn [dh_p dh_g] in *.
  assert (Hp' := group_below p Hp). pose proof (Hkeys key Hin) as Hk.
  apply dh_pub_is_valid_spec in He, Hvf. rewrite Hdp in He, Hvf.
  unfold shared_with. destruct (DH_compute_key e dh) as [kbuf|] eqn:Ec.
  2:{ apply wp_bind, wp_throw. split; [done|]. split; [by apply frame_sent|]. left. by apply frame_derived. }
  apply (dh_compute dh x) in Ec; [|rewrite Hdp; lia|done]. rewrite Hdp in Ec.
  apply wp_bind, wp_ret. unfold host_key_blob. destruct (blob_ok key Hk) as (blob & Eb & Hbl).
  rewrite Eb. apply wp_bind, wp_bind, wp_lift_res, wp_ret. unfold server_pub. rewrite Hpub.
  apply wp_bind, wp_ret, wp_bind, wp_gets, wp_bind, wp_lift_res. cbn [id].
  assert (Hbe : bn_ok e) by (apply (valid_bn_ok p); tauto).
  assert (Hbf : bn_ok f) by (apply (valid_bn_ok p); tauto).
  assert (Hbk : bn_ok (BN_bin2bn kbuf)) by (rewrite Ec; by apply bn_ok_below, pow_mod_below).
  rewrite (fr_vc _ _ Hfr), (fr_vs _ _ Hfr), kex_dh_hash_spec by done.
  assert (Hdone : forall h r', h = exchange_hash (c_str (client_version_string r0)) (c_str (server_version_string r0))
      (buffer_ptr (peer (kr_kex r0))) (buffer_ptr (my (kr_kex r0))) blob e f (BN_bin2bn kbuf) ->
    completed SSH2_MSG_KEXDH_REPLY key blob f (BN_bin2bn kbuf) h r r' ->
    derived_one host_keys r0 (h, BN_bin2bn kbuf, set_session_id h (kr_kex r0)) r').
  { intros h r' Eh (Hd & Hpre & sig & Hsig & Hout). rewrite (frame_derived _ _ Hfr), (fr_kex _ _ Hfr) in Hd.
    rewrite (frame_flags _ _ Hfr) in Hsig.
    split; [exact Hd|]. split; [etrans; [by apply frame_sent|done]|]. exists p, x, e, f, key, blob, sig. cbn [fst snd].
    split_and!; try done; try lia; try tauto.
    - replace (16 * we_need (kr_kex r0)) with (2 * (8 * we_need (kr_kex r0))) by lia. lia.
    - unfold set_session_id. by destruct (session_id (kr_kex r0)) eqn:E; rewrite ?E. }
  eapply wp_mono; [by apply complete_exchange_wp|..]; cbv beta.
  - intros _ r' (Hc & Hd & Hs). eexists. split; [by eapply Hdone|]. split; [done|]. rewrite Hs, (fr_kex _ _ Hfr).
    cbn [snd]. unfold set_session_id. by destruct (session_id (kr_kex r0)) eqn:E; rewrite ?E.
  - intros e' r' (He' & Hpre & [Hd|Hc]); (split; [done|]); (split; [etrans; [by apply frame_sent|done]|]);
      [left|right; eexists; by eapply Hdone].
    by rewrite Hd, (frame_derived _ _ Hfr).
Qed.

Lemma need_bits n : 0 <= n <= 1000 -> s32 (u32 (n * 8)) = 8 * n.
Proof. intros Hn. rewrite u32_small by lia. unfold s32. rewrite Z.mod_small; lia. Qed.

(** Whatever the client sends, [kexdh_server] ends, and keys are derived only behind a
    valid public value of the client, from the hash of the exchange and its secret,
    with the signed reply sent before. *)
Lemma kexdh_server_wp host_keys r : ready host_keys r ->
  wp (kexdh_server host_keys) (fun _ => good_end host_keys r) (safe_end host_keys r) r.
Proof.
  intros Hr. assert (Hearly : forall e r', e <> Diverges -> frame r r' -> safe_end host_keys r e r').
  { intros e r' He Hf. split; [done|]. split; [by apply frame_sent|]. left. by apply frame_derived. }
  unfold kexdh_server. apply wp_bind, wp_gets, wp_bind, wp_lift_res.
  assert (Hgroup : (exists p, (p = p1 \/ p = p14) /\
    (if kex_type (kr_kex r) =? KEX_DH_GRP1_SHA1 then dh_new_group1
     else if kex_type (kr_kex r) =? KEX_DH_GRP14_SHA1 then dh_new_group14
     else Fatal "Unexpected KEX type") = Ok (mkDH p 2 None None)) \/
    (if kex_type (kr_kex r) =? KEX_DH_GRP1_SHA1 then dh_new_group1
     else if kex_type (kr_kex r) =? KEX_DH_GRP14_SHA1 then dh_new_group14
     else Fatal "Unexpected KEX type") = Fatal "Unexpected KEX type").
  { destruct (_ =? _); [left; exists p1; split; [by left|apply new_group1]|].
    destruct (_ =? _); [left; exists p14; split; [by right|apply new_group14]|by right]. }
  destruct Hgroup as [(p & Hp & ->)| ->]; [|by apply Hearly].
  rewrite need_bits by apply Hr. apply wp_bind. eapply wp_mono; [apply gen_key_wp; destruct Hr; lia|..]; cbv beta.
  2:{ intros e r' [He Hf]. by apply Hearly. }
  intros dh r1 (H1 & x & f & Hdh). eapply (wp_calm frame); [calm| |intros e r2 He H2; by apply Hearly; [|etrans]].
  intros _ r2 H2. destruct (get_hostkey_by_type _ _) as [key|] eqn:Ek.
  2:{ apply wp_throw, Hearly; [done|by etrans]. }
  apply get_hostkey_type in Ek as [_ Hin].
  eapply (wp_calm frame); [calm| |intros e r3 He H3; apply Hearly; [done|by do 2 (etrans; [eassumption|])]].
  intros e r3 H3. eapply (wp_calm frame); [calm| |].
  2:{ intros e' r4 He H4. apply Hearly; [done|by do 3 (etrans; [eassumption|])]. }
  intros _ r4 H4. assert (Hall : frame r r4) by (by do 3 (etrans; [eassumption|])).
  destruct (dh_pub_is_valid dh e) eqn:Ev; cbn [negb].
  - by apply (kexdh_tail_wp host_keys key p dh x f e r r4).
  - eapply wp_mono; [apply disconnect_throws|..]; cbv beta; [done|].
    intros e' r5 [He' H5]. apply Hearly; [done|by etrans].
Qed.

End KexProps.
