(* ===== verification/SshKexRun.v ===== *)
(** * SshKexRun: whole key exchanges

    An honest client of RFC 4253 is served and agrees with the server; and the whole run
    of [do_ssh2_kex], from the proposals to the keys, is safe for any messages. *)

From S2P Require Import Prelude SshBuffer CxxMonad SshMatch SshCipher SshPacket SshTransport SshKex SshCompat SshDh SshKey SshDispatch SshKexServer SshKexProps.

Section Honest.
Context {CR : Crypto} {DG : Digest} {BN : BnLib} {DL : DhLib} {KL : KeyLib}.
Context {BL : BnLaws} {DW : DhLaws} {KW : KeyLaws}.

Abbreviation run := (kexrun (K := kscript)).
Abbreviation M := (SE run).

(** ** Steps that succeed *)

Lemma bind_eq {S A B} (m : SE S A) (f : A -> SE S B) s a s' : m s = (Ret a, s') -> (m ≫= f) s = f a s'.
Proof. intros E. unfold mbind, SE_bind. by rewrite E. Qed.

(** The next message is [p]. *)
Definition advance (p : list Z) (rest : list (Z * Z * list Z)) (r : run) : run :=
  let k := kr_con r in
  let s := ks_con k in
  set_con (set_script (mkScript rest (sent s) (packet_buffer p) (flags_of_peer s) (closing s)) k) r.

(** A message is sent. *)
Definition push (type : Z) (fs : list field) (r : run) : run :=
  let k := kr_con r in
  let s := ks_con k in
  set_con (set_script (mkScript (inbox s) (sent s ++ [(type, fs)]) (current s) (flags_of_peer s) (closing s)) k) r.

Lemma send_eq type fs r : on_con (con_send type fs) r = (Ret tt, push type fs r).
Proof. done. Qed.

Lemma read_expect_eq t q p rest r : inbox_of r = (t, q, p) :: rest ->
  packet_read_expect t r = (Ret tt, advance p rest r).
Proof.
  intros E. unfold inbox_of in E. unfold packet_read_expect, on_con, zoom. unfold mbind, SE_bind. cbn.
  unfold on_script, zoom. cbn. unfold script_read. rewrite E. cbn. by rewrite Z.eqb_refl.
Qed.

Lemma set_con_id (r : run) : set_con (kr_con r) r = r.
Proof. by destruct r. Qed.

Lemma eom_eq r : buffer_len (incoming (kr_con r)) = 0 -> on_con packet_check_eom r = (Ret tt, r).
Proof.
  intros E. unfold on_con, zoom, packet_check_eom, mbind, SE_bind, gets. rewrite E. cbn. by rewrite set_con_id.
Qed.

Lemma packet_buffer_len p : zlen p <= 256 * 1024 -> buffer_len (packet_buffer p) = zlen p.
Proof. intros Hp. destruct (packet_buffer_ok p Hp) as [Hb Hc]. by rewrite buffer_len_contents, Hc. Qed.

Lemma get_bignum2_eq v : bn_ok v -> exists b,
  get_bignum2 (packet_buffer (field_bytes (mpint_field v))) = (Ret v, b) /\ buffer_len b = 0.
Proof.
  intros Hv. pose proof (mpint_short v Hv) as Hs.
  assert (Hl : zlen (field_bytes (mpint_field v)) <= 256 * 1024).
  { cbn [field_bytes mpint_field]. rewrite zlen_app, zlen_put_u32. lia. }
  destruct (packet_buffer_ok _ Hl) as [Hb Hc].
  assert (Hcap : capped 600000 (packet_buffer (field_bytes (mpint_field v)))).
  { split; [done|]. cbn [packet_buffer end_ alloc]. unfold BUFFER_ALLOCSZ. pose proof (zlen_nonneg (field_bytes (mpint_field v))). lia. }
  destruct (get_bignums_app [v] _ _ [] Hcap) as (b & E & [Hbo _] & Hrest).
  - by apply Forall_singleton.
  - rewrite Hc. unfold fields_bytes. cbn [fmap list_fmap concat]. by rewrite !app_nil_r.
  - exists b. rewrite buffer_len_contents, Hrest by done. split; [|done].
    cbn [get_bignums length] in E. unfold get_bignum2.
    destruct (buffer_get_bignum2_ret _) as [[[w|] b']| |]; try discriminate E. cbn in E. by injection E as -> ->.
Qed.

(** ** An honest client *)

(** What a client of RFC 4253 makes of the reply: with its private key [y] it computes
    the secret and the hash, reads the host key and verifies the signature. *)
Definition client_accepts (df : Z) (vc vs ic is_ : list Z) (p y e : Z) (blob sig : list Z) (f : Z)
    (hash : list Z) (secret : Z) : Prop :=
  secret = f ^ y mod p /\ hash = exchange_hash vc vs ic is_ blob e f secret /\
  exists pk, key_from_blob blob = Ok (Some pk) /\ key_verify df pk sig hash = Ok 1.

(** The messages of such a client from KEXDH_INIT on. *)
Definition client_messages (q1 q2 e : Z) (rest : list (Z * Z * list Z)) : list (Z * Z * list Z) :=
  (SSH2_MSG_KEXDH_INIT, q1, field_bytes (mpint_field e)) :: (SSH2_MSG_NEWKEYS, q2, []) :: rest.

(** The group of a negotiated method. *)
Definition group_of (kex : Kex) (p : Z) : Prop :=
  (kex_type kex = KEX_DH_GRP1_SHA1 /\ p = p1) \/ (kex_type kex = KEX_DH_GRP14_SHA1 /\ p = p14).

(** What the code relies on of its libraries at this point: there is a key of the
    negotiated type that signs, a good private key is drawn, and the secret computed. *)
Record served (host_keys : list (option Key)) (r : run) (p e : Z) (key : Key) (dh : DH) : Prop := {
  sv_ready : ready host_keys r;
  sv_group : group_of (kr_kex r) p;
  sv_key : get_hostkey_by_type host_keys (hostkey_type (kr_kex r)) = Some key;
  sv_rsa : match rsa_of key with Some k => SSH_RSA_MINIMUM_MODULUS_SIZE <= BN_num_bits (rsa_n k) | None => True end;
  sv_signs : forall data, exists sig, key_sign (flags_of r) key data = Ok (Some sig);
  sv_draw : exists n, dh_gen_key (mkDH p 2 None None) (8 * we_need (kr_kex r)) (kr_draws r) = Ok (dh, n);
  sv_compute : exists kbuf, DH_compute_key e dh = Some kbuf
}.

(** The keys are derived. *)
Definition install (hash : list Z) (secret : Z) (r : run) : run :=
  let k := kr_con r in
  set_con (mkKScript (ks_con k) (ks_cookie k) (ks_derived k ++ [(hash, secret, kr_kex r)])) r.

Definition with_session (hash : list Z) (r : run) : run := set_kex (set_session_id hash (kr_kex r)) r.

Lemma derive_eq hash secret r : derive hash secret r = (Ret tt, install hash secret r).
Proof. unfold derive. by destruct r. Qed.

Lemma kex_finish_eq q rest r : inbox_of r = (SSH2_MSG_NEWKEYS, q, []) :: rest ->
  kex_finish r = (Ret tt, set_kex (finished (kr_kex r)) (advance [] rest (push SSH2_MSG_NEWKEYS [] r))).
Proof.
  intros E. unfold kex_finish. erewrite bind_eq by apply send_eq.
  erewrite bind_eq by (by apply (read_expect_eq _ q [] rest)). by erewrite bind_eq by (by apply eom_eq).
Qed.

Lemma complete_exchange_eq reply key blob f secret hash sig q rest r :
  key_sign (flags_of r) key hash = Ok (Some sig) -> bn_ok f ->
  inbox_of r = (SSH2_MSG_NEWKEYS, q, []) :: rest ->
  exists r', complete_exchange reply key blob f secret hash r = (Ret tt, r') /\
    sent_of r' = sent_of r ++ [(reply, [FString blob; mpint_field f; FString sig]); (SSH2_MSG_NEWKEYS, [])] /\
    derived_of r' = derived_of r ++ [(hash, secret, set_session_id hash (kr_kex r))] /\
    inbox_of r' = rest /\ kr_kex r' = finished (set_session_id hash (kr_kex r)).
Proof.
  intros Es Hf Ei. set (r1 := install hash secret (push reply [FString blob; mpint_field f; FString sig] (with_session hash r))).
  exists (set_kex (finished (kr_kex r1)) (advance [] rest (push SSH2_MSG_NEWKEYS [] r1))).
  split; [|split; [|done]].
  - unfold complete_exchange. erewrite bind_eq by done.
    erewrite bind_eq.
    2:{ unfold sign_hash. erewrite bind_eq by done.
        change ((peer_flags ∘ kr_con) _) with (flags_of r). rewrite Es. by erewrite bind_eq by done. }
    erewrite bind_eq.
    2:{ unfold send_reply. rewrite bignum2_field_spec by done. erewrite bind_eq by done. apply send_eq. }
    erewrite bind_eq by apply derive_eq. by apply (kex_finish_eq q).
  - unfold sent_of. cbn. by rewrite <- app_assoc.
Qed.

Lemma new_group kex p : group_of kex p ->
  (if kex_type kex =? KEX_DH_GRP1_SHA1 then dh_new_group1
   else if kex_type kex =? KEX_DH_GRP14_SHA1 then dh_new_group14
   else Fatal "Unexpected KEX type") = Ok (mkDH p 2 None None).
Proof. intros [[-> ->]|[-> ->]]; cbn; [apply new_group1|apply new_group14]. Qed.

(** The exchange up to the hash. *)
Lemma kexdh_server_eq host_keys r p key dh n f e kbuf blob hash q rest :
  group_of (kr_kex r) p -> 0 <= we_need (kr_kex r) <= 1000 ->
  get_hostkey_by_type host_keys (hostkey_type (kr_kex r)) = Some key ->
  dh_gen_key (mkDH p 2 None None) (8 * we_need (kr_kex r)) (kr_draws r) = Ok (dh, n) ->
  pub_key dh = Some f -> dh_pub_is_valid dh e = true -> DH_compute_key e dh = Some kbuf ->
  key_to_blob key = Ok (Some blob) -> bn_ok e ->
  kex_dh_hash (client_version_string r) (server_version_string r) (buffer_ptr (peer (kr_kex r)))
    (buffer_ptr (my (kr_kex r))) blob e f (BN_bin2bn kbuf) = Ok hash ->
  inbox_of r = (SSH2_MSG_KEXDH_INIT, q, field_bytes (mpint_field e)) :: rest ->
  exists r', kexdh_server host_keys r =
      complete_exchange SSH2_MSG_KEXDH_REPLY key blob f (BN_bin2bn kbuf) hash r' /\
    sent_of r' = sent_of r /\ derived_of r' = derived_of r /\ flags_of r' = flags_of r /\
    inbox_of r' = rest /\ kr_kex r' = kr_kex r.
Proof.
  intros Hg Hn Hk Hdraw Hpub Hv Hc Hb He Hh Hin.
  destruct (get_bignum2_eq e He) as (b & Egb & Hlen).
  set (r1 := advance (field_bytes (mpint_field e)) rest (set_draws n r)).
  exists (set_con (set_incoming b (kr_con r1)) r1). split; [|done].
  unfold kexdh_server. erewrite bind_eq by done.
  rewrite (new_group _ p Hg). erewrite bind_eq by done.
  rewrite need_bits by done. erewrite bind_eq.
  2:{ unfold gen_key. erewrite bind_eq by done. rewrite Hdraw. by erewrite bind_eq by done. }
  erewrite bind_eq by (by apply (read_expect_eq _ q (field_bytes (mpint_field e)) rest)). rewrite Hk.
  erewrite bind_eq.
  2:{ unfold on_con, reading, zoom. change (incoming _) with (packet_buffer (field_bytes (mpint_field e))).
      rewrite Egb. done. }
  erewrite bind_eq by (by apply eom_eq). rewrite Hv. cbn [negb].
  unfold shared_with. rewrite Hc. erewrite bind_eq by done.
  unfold host_key_blob. rewrite Hb. erewrite bind_eq by done.
  unfold server_pub. rewrite Hpub. erewrite bind_eq by done. erewrite bind_eq by done.
  cbn [id client_version_string server_version_string set_con advance set_draws].
  rewrite Hh. by erewrite bind_eq by done.
Qed.

(** C8: An honest client is served.  Its message is its public value [2 ^ y mod p], which
    the server accepts; the exchange ends normally, with the reply and NEWKEYS sent; and
    from the reply the client gets the secret and the hash from which the server derived
    its keys, and accepts the signature over that hash, made with the host key of the
    blob.  The session id is the hash of the first exchange. *)
Theorem kexdh_agreement host_keys r p y key dh q1 q2 rest :
  served host_keys r p (2 ^ y mod p) key dh -> 0 <= y ->
  dh_pub_is_valid dh (2 ^ y mod p) = true ->
  inbox_of r = client_messages q1 q2 (2 ^ y mod p) rest ->
  exists r' blob f sig hash secret,
    kexdh_server host_keys r = (Ret tt, r') /\
    sent_of r' = sent_of r ++
      [(SSH2_MSG_KEXDH_REPLY, [FString blob; mpint_field f; FString sig]); (SSH2_MSG_NEWKEYS, [])] /\
    derived_of r' = derived_of r ++ [(hash, secret, set_session_id hash (kr_kex r))] /\
    client_accepts (flags_of r) (c_str (client_version_string r)) (c_str (server_version_string r))
      (buffer_ptr (peer (kr_kex r))) (buffer_ptr (my (kr_kex r))) p y (2 ^ y mod p) blob sig f hash secret /\
    session_id (kr_kex r') = Some (default hash (session_id (kr_kex r))) /\
    done_ (kr_kex r') = true /\ inbox_of r' = rest.
Proof.
  set (e := 2 ^ y mod p). intros [Hr Hg Hk Hrsa Hsig [n Hdraw] [kbuf Hkbuf]] Hy Hv Hin.
  assert (Hp : p = p1 \/ p = p14) by (destruct Hg as [[_ ?]|[_ ?]]; auto). assert (Hp' := group_below p Hp).
  destruct (Hr) as [Hkeys Hneed Hsz]. destruct (get_hostkey_type _ _ _ Hk) as [_ Hink].
  pose proof (Hkeys key Hink) as Hok. destruct (blob_ok key Hok) as (blob & Eb & Hbl).
  pose proof (dh_gen_key_spec (mkDH p 2 None None) (8 * we_need (kr_kex r)) (kr_draws r) ltac:(lia)) as Hgen.
  rewrite Hdraw in Hgen. destruct Hgen as (x & f & [Hdp Hdg Hpriv Hpub Hx Hf Hvf] & _). cbn [dh_p dh_g] in *.
  assert (Hv' := Hv). apply dh_pub_is_valid_spec in Hv', Hvf. rewrite Hdp in Hv', Hvf.
  apply (dh_compute dh x) in Hkbuf as Hsec; [|rewrite Hdp; lia|done]. rewrite Hdp in Hsec.
  assert (Hbe : bn_ok e) by (apply (valid_bn_ok p); tauto).
  assert (Hbf : bn_ok f) by (apply (valid_bn_ok p); tauto).
  assert (Hbk : bn_ok (BN_bin2bn kbuf)) by (rewrite Hsec; by apply bn_ok_below, pow_mod_below).
  set (hash := exchange_hash (c_str (client_version_string r)) (c_str (server_version_string r))
    (buffer_ptr (peer (kr_kex r))) (buffer_ptr (my (kr_kex r))) blob e f (BN_bin2bn kbuf)).
  destruct (Hsig hash) as [sig Es].
  destruct (kexdh_server_eq host_keys r p key dh n f e kbuf blob hash q1 ((SSH2_MSG_NEWKEYS, q2, []) :: rest))
    as (r1 & E1 & Hs1 & Hd1 & Hf1 & Hi1 & Hk1); try done; [by apply kex_dh_hash_spec|].
  rewrite <- Hf1 in Es.
  destruct (complete_exchange_eq SSH2_MSG_KEXDH_REPLY key blob f (BN_bin2bn kbuf) hash sig q2 rest r1 Es Hbf Hi1)
    as (r' & E2 & Hs2 & Hd2 & Hi2 & Hk2).
  rewrite Hf1 in Es. rewrite E2 in E1. rewrite Hs1 in Hs2. rewrite Hd1, Hk1 in Hd2. rewrite Hk1 in Hk2.
  exists r', blob, f, sig, hash, (BN_bin2bn kbuf). split_and!; try done.
  - split; [|split; [done|]].
    + rewrite Hsec, Hf. symmetry. apply dh_exchange; lia.
    + destruct (sign_verify (flags_of r) key hash sig Hok Hrsa Es) as (blob' & pk & Eb' & Efrom & Ever).
      rewrite Eb in Eb'. injection Eb' as <-. by exists pk.
  - rewrite Hk2. cbn. unfold set_session_id. by destruct (session_id (kr_kex r)) eqn:E; rewrite ?E.
  - by rewrite Hk2.
Qed.

End Honest.

(** ** The whole run *)

(** A computation in [res] that does not run out of fuel. *)
Definition finite {A} (r : res A) : Prop := r <> OutOfFuel.

Lemma finite_bind {A B} (m : res A) (f : A -> res B) : finite m -> (forall a, finite (f a)) -> finite (m ≫= f).
Proof. unfold finite. intros Hm Hf. by destruct m; [apply Hf| |]. Qed.

Lemma finite_fatal {A} msg (o : option A) : finite (or_fatal msg o).
Proof. by destruct o. Qed.

Section Run.
Context {CR : Crypto} {DG : Digest} {BN : BnLib} {DL : DhLib} {KL : KeyLib}.
Context {BL : BnLaws} {DW : DhLaws} {KW : KeyLaws}.

Abbreviation run := (kexrun (K := kscript)).
Abbreviation M := (SE run).

(** *** Negotiation *)

Lemma finite_buf2prop b : buffer_ok b -> zlen (contents b) <= 1000000 -> finite (kex_buf2prop b).
Proof.
  intros Hb Hl. unfold kex_buf2prop. rewrite buffer_ptr_contents by done.
  destruct (buffer_append_fits 0 buffer_init (contents b) buffer_init_capped) as (b1 & -> & _);
    [by apply small_fits|unfold BUFFER_MAX_CHUNK; lia|]. rsimp.
  assert (Hgs : forall b, finite (buffer_get_string b)).
  { intros b2. unfold buffer_get_string. apply finite_bind; [apply get_string_ret_fuel|].
    intros [o b3]. by destruct o. }
  apply finite_bind.
  { generalize KEX_COOKIE_LEN. intros n. revert b1. induction n as [|n IH]; intros b1; [done|].
    cbn [get_chars]. apply finite_bind; [unfold buffer_get_char; apply finite_fatal|]. intros [v b2]. apply IH. }
  intros b2. apply finite_bind.
  { generalize PROPOSAL_MAX. intros n. revert b2. induction n as [|n IH]; intros b2; [done|].
    cbn [get_cstrings]. apply finite_bind; [apply Hgs|]. intros [s b3]. apply finite_bind; [apply IH|]. by intros [l b4]. }
  intros [p b3]. apply finite_bind; [unfold buffer_get_char; apply finite_fatal|]. intros [i b4].
  apply finite_bind; [unfold buffer_get_int; apply finite_fatal|]. by intros [j b5].
Qed.

Lemma finite_choose df srv cp sp mode : finite (choose_newkeys df srv cp sp mode).
Proof.
  unfold choose_newkeys. apply finite_bind.
  { unfold choose_enc. apply finite_bind; [apply finite_fatal|]. intros name.
    apply finite_bind; [apply finite_fatal|]. done. }
  intros enc. apply finite_bind.
  { unfold choose_mac. apply finite_bind; [apply finite_fatal|]. intros name. apply finite_bind.
    - unfold mac_setup. destruct (List.find _ _) as [e|]; [|done]. apply finite_bind; [|done].
      unfold mac_setup_by_id. apply finite_bind; [|intros m; by destruct (negb _)].
      destruct (me_type e =? SSH_EVP); [|done]. destruct (me_mdfunc e); [|done]. by destruct (_ <=? 0).
    - intros o. apply finite_bind; [apply finite_fatal|]. done. }
  intros mac. apply finite_bind; [|done]. unfold choose_comp. apply finite_bind; [apply finite_fatal|]. intros name.
  apply finite_bind; [|done]. by repeat (destruct (bool_decide _); [done|]).
Qed.

Lemma finite_choose_conf df k : buffer_ok (my k) -> zlen (contents (my k)) <= 1000000 ->
  buffer_ok (peer k) -> zlen (contents (peer k)) <= 1000000 -> finite (kex_choose_conf df k).
Proof.
  intros H1 H2 H3 H4. unfold kex_choose_conf. apply finite_bind; [by apply finite_buf2prop|]. intros [mp mf].
  apply finite_bind; [by apply finite_buf2prop|]. intros [pp pf].
  destruct (server k); (apply finite_bind; [apply finite_choose|]; intros nin;
    apply finite_bind; [apply finite_choose|]; intros nout; apply finite_bind;
    [unfold choose_kex; apply finite_bind; [apply finite_fatal|]; intros name;
     by repeat (destruct (bool_decide _); [done|])|];
    intros [[name type] md]; apply finite_bind; [|done];
    unfold choose_hostkeyalg; apply finite_bind; [apply finite_fatal|]; intros alg; by destruct (_ =? _)).
Qed.

Lemma choose_conf_keeps df k k' skip : kex_choose_conf df k = Ok (k', skip) ->
  my k' = my k /\ peer k' = peer k /\ session_id k' = session_id k.
Proof.
  unfold kex_choose_conf. intros E.
  destruct (kex_buf2prop (my k)) as [[mp mf]| |]; cbn [mbind res_bind] in E; try done.
  destruct (kex_buf2prop (peer k)) as [[pp pf]| |]; cbn [mbind res_bind] in E; try done.
  destruct (server k); cbn [mbind res_bind] in E; do 2 ok_bind E;
    (destruct (choose_kex _ _) as [[[name type] md]| |]; cbn [mbind res_bind] in E; try done);
    ok_bind E; by injection E as <- _.
Qed.

Lemma conf_need df k k' skip : kex_choose_conf df k = Ok (k', skip) -> 0 <= we_need k' <= 64.
Proof.
  intros E. destruct (choose_conf_inv _ _ _ _ E) as (mp & mf & pp & pf & ctos & stoc & name & type & md & hk &
    _ & _ & Ec & Es & _ & _ & _ & _ & Hn & _).
  destruct (choose_newkeys_sized _ _ _ _ _ _ Ec) as [(?&?&?&?) Hmc].
  destruct (choose_newkeys_sized _ _ _ _ _ _ Es) as [(?&?&?&?) Hms].
  rewrite Hn, !need_for_max. lia.
Qed.

(** The server offers the two fixed groups only. *)
Lemma conf_type df k k' skip p : server k = true -> kex_buf2prop (my k) = Ok (p, 0) ->
  prop_nth p PROPOSAL_KEX_ALGS = KEX_DEFAULT_KEX -> kex_choose_conf df k = Ok (k', skip) ->
  kex_type k' = KEX_DH_GRP1_SHA1 \/ kex_type k' = KEX_DH_GRP14_SHA1.
Proof.
  intros Hs Hp Hk E. destruct (choose_conf_inv _ _ _ _ E) as (mp & mf & pp & pf & ctos & stoc & name & type & md & hk &
    Em & _ & _ & _ & Ek & _ & _ & _ & _ & _ & _ & Ht & _).
  rewrite Hp in Em. injection Em as <- <-. rewrite Hs, Hk in Ek. rewrite Ht. unfold choose_kex in Ek.
  destruct (fst (Match.match_list _ _)) as [n|] eqn:En; [|done].
  apply (match_list_all (fun n => bool_decide (n = KEX_DH1) || bool_decide (n = KEX_DH14))) in En;
    [|vm_compute; reflexivity]. cbn [or_fatal mbind res_bind] in Ek.
  destruct (bool_decide (n = KEX_DH1)); [left; congruence|].
  destruct (bool_decide (n = KEX_DH14)); [right; congruence|done].
Qed.

(** *** One KEXINIT *)

(** The state in which the server waits for the client's KEXINIT. *)
Record waiting (host_keys : list (option Key)) (r : run) : Prop := {
  wt_keys : forall k, In (Some k) host_keys -> key_ok k;
  wt_vc : zlen (c_str (client_version_string r)) <= 1000;
  wt_vs : zlen (c_str (server_version_string r)) <= 1000;
  wt_server : server (kr_kex r) = true;
  wt_sent : Z.land (flags (kr_kex r)) KEX_INIT_SENT <> 0;
  wt_done : done_ (kr_kex r) = false;
  wt_peer : peer (kr_kex r) = buffer_init;
  wt_my : buffer_ok (my (kr_kex r)) /\ zlen (contents (my (kr_kex r))) <= 300000;
  wt_prop : exists p, kex_buf2prop (my (kr_kex r)) = Ok (p, 0) /\ prop_nth p PROPOSAL_KEX_ALGS = KEX_DEFAULT_KEX
}.

(** Keys that were derived for the KEXINIT [ic] of the client. *)
Definition outcome (host_keys : list (option Key)) (r : run) (ic : list Z) (t : list Z * Z * Kex) (r' : run) : Prop :=
  derived_of r' = derived_of r ++ [t] /\ sent_of r `prefix_of` sent_of r' /\
  exists need, 0 <= need <= 64 /\
    derivation (c_str (client_version_string r)) (c_str (server_version_string r)) ic
      (buffer_ptr (my (kr_kex r))) need (flags_of r) (session_id (kr_kex r)) host_keys t (sent_of r').

(** Ends of a step of the run, normal ones and others. *)
Definition good_out (host_keys : list (option Key)) (r : run) (ic : list Z) (r' : run) : Prop :=
  exists t, outcome host_keys r ic t r' /\ done_ (kr_kex r') = true /\ session_id (kr_kex r') = session_id t.2.
Definition bad_out (host_keys : list (option Key)) (r : run) (ic : list Z) (e : exn) (r' : run) : Prop :=
  e <> Diverges /\ sent_of r `prefix_of` sent_of r' /\
  (derived_of r' = derived_of r \/ exists t, outcome host_keys r ic t r').

(** The same connection behind steps that may have set the [Kex]. *)
Record moved (r r' : run) : Prop := {
  mv_con : kframe (kr_con r) (kr_con r');
  mv_vc : client_version_string r' = client_version_string r;
  mv_vs : server_version_string r' = server_version_string r
}.

Lemma moved_frame r r1 r2 : moved r r1 -> frame r1 r2 -> moved r r2.
Proof. intros [] []. split; [by etrans|congruence|congruence]. Qed.

Lemma moved_bad host_keys r ic e r' : moved r r' -> e <> Diverges -> bad_out host_keys r ic e r'.
Proof. intros [[Hd Hs _ _] _ _] He. split; [done|]. split; [exact Hs|]. left. exact Hd. Qed.

(** From the negotiated method on. *)
Lemma method_wp host_keys r r1 ic :
  waiting host_keys r -> moved r r1 -> zlen ic <= 262144 ->
  buffer_ptr (peer (kr_kex r1)) = ic -> my (kr_kex r1) = my (kr_kex r) ->
  session_id (kr_kex r1) = session_id (kr_kex r) -> 0 <= we_need (kr_kex r1) <= 64 ->
  wp (kexdh_server host_keys) (fun _ => good_out host_keys r ic) (bad_out host_keys r ic) r1.
Proof.
  intros [Hk Hvc Hvs _ _ _ _ [Hmy Hml] _] Hm Hic Hpeer Hmy' Hsid Hneed.
  assert (Hr : ready host_keys r1).
  { split; [done|lia|]. rewrite (mv_vc _ _ Hm), (mv_vs _ _ Hm), Hpeer, Hmy'.
    rewrite buffer_ptr_contents by done. repeat split; lia || done. }
  assert (Hpre : sent_of r `prefix_of` sent_of r1) by (by destruct Hm as [[]]).
  assert (Hone : forall t r', derived_one host_keys r1 t r' -> outcome host_keys r ic t r').
  { intros t r' (Hd & Hs & Hder). destruct Hm as [[Hmd Hms _ Hmf] Hmv Hmw]. unfold outcome.
    split; [unfold derived_of in *; by rewrite Hd, Hmd|]. split; [by etrans|].
    exists (we_need (kr_kex r1)). split; [done|].
    revert Hder. rewrite Hmv, Hmw, Hpeer, Hmy', Hsid. unfold flags_of. by rewrite Hmf. }
  eapply wp_mono; [by apply kexdh_server_wp|..]; cbv beta.
  - intros _ r' (t & H1 & H2 & H3). exists t. split; [by apply Hone|done].
  - intros e r' (He & Hs & Hd). split; [done|]. split; [by etrans|]. destruct Hd as [Hd|[t Ht]].
    + left. destruct Hm as [[Hmd _ _ _] _ _]. unfold derived_of in *. congruence.
    + right. exists t. by apply Hone.
Qed.

Lemma kexinit_finish_wp host_keys r r1 ic pb : waiting host_keys r -> moved r r1 ->
  kr_kex r1 = set_peer (kr_kex r) pb -> buffer_ok pb -> contents pb = ic -> zlen ic <= 262144 ->
  wp (kexinit_finish host_keys) (fun _ => good_out host_keys r ic) (bad_out host_keys r ic) r1.
Proof.
  intros Hw Hm Hkex Hpb Hic Hl. assert (Hw' := Hw). destruct Hw as [Hk Hvc Hvs Hsrv Hsent _ Hp0 [Hmy Hml] (p & Hp & Hpk)].
  unfold kexinit_finish. apply wp_bind, wp_gets. rewrite Hkex. cbn [flags set_peer].
  rewrite (proj2 (Z.eqb_neq _ 0) Hsent). apply wp_bind, wp_ret, wp_bind, wp_gets, wp_bind, wp_gets, wp_bind, wp_lift_res.
  rewrite Hkex. destruct (kex_choose_conf _ (set_peer (kr_kex r) pb)) as [[k' skip]|m|] eqn:E.
  - destruct (choose_conf_keeps _ _ _ _ E) as (Em & Ep & Es).
    pose proof (conf_need _ _ _ _ E) as Hneed.
    pose proof (conf_type _ (set_peer (kr_kex r) pb) k' skip p Hsrv Hp Hpk E) as Ht.
    apply wp_bind, wp_modify. set (r2 := set_kex k' r1).
    assert (H2 : moved r r2) by (by destruct Hm).
    assert (Hrest : forall r3, frame r2 r3 ->
      wp (if (kex_type k' =? KEX_DH_GRP1_SHA1) || (kex_type k' =? KEX_DH_GRP14_SHA1) then kexdh_server host_keys
          else if (kex_type k' =? KEX_DH_GEX_SHA1) || (kex_type k' =? KEX_DH_GEX_SHA256) then kexgex_server host_keys
          else throw ShuttingDown) (fun _ => good_out host_keys r ic) (bad_out host_keys r ic) r3).
    { intros r3 H3. replace (_ || _) with true by (destruct Ht as [-> | ->]; done).
      apply method_wp; try done; rewrite ?(fr_kex _ _ H3); cbn [kr_kex r2 set_kex]; try done.
      - by eapply moved_frame.
      - rewrite Ep. cbn. by rewrite buffer_ptr_contents. }
    destruct skip.
    + apply wp_bind, wp_bind. eapply wp_mono; [apply (calm_on_con con_read calm_read)|..]; cbv beta.
      * intros _ r3 H3. apply wp_ret. by apply Hrest.
      * intros e r3 [He H3]. apply moved_bad; [by eapply moved_frame|done].
    + apply wp_bind, wp_ret. by apply Hrest.
  - by apply moved_bad.
  - exfalso. revert E. apply finite_choose_conf; cbn; try done; [lia|]. rewrite Hic. lia.
Qed.

Lemma calm_repeat {A} n (m : M A) : calm frame m -> calm frame (repeat_get n m).
Proof.
  intros Hm. induction n as [|n IH]; cbn [repeat_get]; [apply calm_ret; apply _|].
  apply calm_bind; [apply _|done|]. by intros _.
Qed.

Lemma getter_calm {A} (m : SE Buffer A) : (forall b, fst (m b) <> Throw Diverges) -> calm frame (on_con (reading m)).
Proof. intros Hm. by apply calm_on_con, calm_reading. Qed.

Lemma get_string_calm b : fst (get_string b) <> Throw Diverges.
Proof.
  unfold get_string. pose proof (get_string_ret_fuel b).
  by destruct (buffer_get_string_ret b) as [[[s|] b1]| |].
Qed.

Lemma get_or_fatal_calm {A} (get : Buffer -> option (A * Buffer)) b : fst (get_or_fatal get b) <> Throw Diverges.
Proof. unfold get_or_fatal. by destruct (get b) as [[a b1]|]. Qed.

Lemma kexinit_received_wp host_keys r ic : waiting host_keys r -> zlen ic <= 262144 ->
  incoming (kr_con r) = packet_buffer ic ->
  wp (kexinit_received host_keys) (fun _ => good_out host_keys r ic) (bad_out host_keys r ic) r.
Proof.
  intros Hw Hl Hin. unfold kexinit_received. apply wp_bind, wp_gets, wp_bind, wp_gets, wp_bind, wp_lift_res.
  cbn [compose]. rewrite Hin. destruct (packet_buffer_ok ic Hl) as [Hb Hc]. rewrite buffer_ptr_contents, Hc by done.
  rewrite (wt_peer _ _ Hw).
  destruct (buffer_append_fits 0 buffer_init ic buffer_init_capped) as (pb & -> & [Hpb _] & Hpc);
    [apply small_fits; lia|unfold BUFFER_MAX_CHUNK; lia|]. change (contents buffer_init ++ ic) with ic in Hpc.
  apply wp_bind, wp_modify. set (r1 := set_kex _ r).
  assert (Hm : moved r r1) by (by split).
  assert (Hbad : forall r0 e r', frame r1 r0 -> e <> Diverges -> frame r0 r' -> bad_out host_keys r ic e r').
  { intros r0 e r' H0 He H'. apply moved_bad; [|done]. eapply moved_frame; [done|by etrans]. }
  assert (H11 : frame r1 r1) by done.
  eapply (wp_calm frame); [apply calm_repeat, getter_calm; intros b; apply get_or_fatal_calm| |by eauto].
  intros _ r3 H13.
  eapply (wp_calm frame); [apply calm_repeat, getter_calm, get_string_calm| |by eauto].
  intros _ r4 H4. assert (H14 := transitivity H13 H4).
  eapply (wp_calm frame); [apply getter_calm; intros b; apply get_or_fatal_calm| |by eauto].
  intros _ r5 H5. assert (H15 := transitivity H14 H5).
  eapply (wp_calm frame); [apply getter_calm; intros b; apply get_or_fatal_calm| |by eauto].
  intros _ r6 H6. assert (H16 := transitivity H15 H6).
  eapply (wp_calm frame); [apply calm_on_con, calm_check_eom| |by eauto].
  intros _ r7 H7. assert (H17 := transitivity H16 H7).
  apply (kexinit_finish_wp host_keys r r7 ic pb); try done; [by eapply moved_frame|].
  by rewrite (fr_kex _ _ H17).
Qed.

(** *** The loop *)

(** An end of the run that waited in [r]: for one of the client's KEXINIT messages. *)
Definition run_good (host_keys : list (option Key)) (r r' : run) : Prop :=
  exists q ic, In (SSH2_MSG_KEXINIT, q, ic) (inbox_of r) /\ good_out host_keys r ic r'.
Definition run_bad (host_keys : list (option Key)) (r : run) (e : exn) (r' : run) : Prop :=
  e <> Diverges /\ sent_of r `prefix_of` sent_of r' /\ (derived_of r' = derived_of r \/
  exists q ic t, In (SSH2_MSG_KEXINIT, q, ic) (inbox_of r) /\ outcome host_keys r ic t r').

Lemma waiting_frame host_keys r r' : frame r r' -> waiting host_keys r -> waiting host_keys r'.
Proof. intros [_ Hk Hvc Hvs] []. split; rewrite ?Hk, ?Hvc, ?Hvs; done. Qed.

Lemma outcome_frame host_keys r r1 ic t r' : frame r r1 -> outcome host_keys r1 ic t r' -> outcome host_keys r ic t r'.
Proof.
  intros Hf (Hd & Hs & need & Hn & Hder). pose proof (frame_derived _ _ Hf) as Hd1. pose proof (frame_sent _ _ Hf).
  pose proof (frame_flags _ _ Hf) as Hf1. destruct Hf as [_ Hk Hvc Hvs].
  split; [by rewrite Hd, Hd1|]. split; [by etrans|]. exists need. split; [done|]. by rewrite Hk, Hvc, Hvs, Hf1 in Hder.
Qed.

Lemma frame_in r r' m : frame r r' -> In m (inbox_of r') -> In m (inbox_of r).
Proof. intros [[_ _ [l Hl] _] _ _ _] Hin. unfold inbox_of. rewrite Hl. apply in_or_app. by right. Qed.

(** A packet that was read. *)
Definition read_msg (host_keys : list (option Key)) (r : run) (p : Z * Z) (r' : run) : Prop :=
  frame r r' /\ exists ic, In (p.1, p.2, ic) (inbox_of r) /\ incoming (kr_con r') = packet_buffer ic.

Lemma read_next_wp host_keys r r1 : frame r r1 ->
  wp (read_next kr_con set_con DISPATCH_BLOCK)
    (fun p r' => read_msg host_keys r p r' /\ (length (inbox_of r') < length (inbox_of r1))%nat)
    (run_bad host_keys r) r1.
Proof.
  intros Hf. apply wp_zoom. unfold wp. cbn. unfold on_script, zoom. cbn. unfold script_read.
  destruct (inbox (ks_con (kr_con r1))) as [|[[type seq] ic] rest] eqn:E; cbn.
  - split; [done|]. pose proof (frame_sent _ _ Hf). pose proof (frame_derived _ _ Hf). by split; [|left].
  - split; [|unfold inbox_of; rewrite E; cbn; lia]. split.
    + etrans; [exact Hf|]. split; try done. split; try done. cbn. rewrite E. by exists [(type, seq, ic)].
    + exists ic. split; [|done]. eapply frame_in; [done|]. unfold inbox_of. rewrite E. by left.
Qed.

Lemma dispatch_one_wp host_keys r r1 p : waiting host_keys r -> Forall (fun m => zlen m.2 <= 262144) (inbox_of r) ->
  read_msg host_keys r p r1 ->
  wp (dispatch_one (fun _ => kex_table) (kex_virt host_keys) p.1 p.2)
    (fun _ r' => if done_ (kr_kex r') then run_good host_keys r r'
                 else frame r r' /\ (length (inbox_of r') <= length (inbox_of r1))%nat)
    (run_bad host_keys r) r1.
Proof.
  intros Hw Hsz (Hf & ic & Hin & Hcur). unfold dispatch_one. apply wp_bind, wp_gets.
  unfold kex_table. rewrite dispatch_get_set by done. rewrite dispatch_get_init.
  destruct (p.1 =? SSH2_MSG_KEXINIT) eqn:E; cbn [kex_virt].
  - zbool. rewrite E in Hin. assert (Hl : zlen ic <= 262144).
    { apply list_elem_of_In in Hin. rewrite Forall_forall in Hsz. by apply (Hsz (SSH2_MSG_KEXINIT, p.2, ic)). }
    eapply wp_mono; [apply (kexinit_received_wp host_keys r1 ic); try done; by eapply waiting_frame|..]; cbv beta.
    + intros _ r' (t & Ho & Hd & Hs). rewrite Hd. exists p.2, ic. split; [done|]. exists t.
      split; [by eapply outcome_frame|done].
    + intros e r' (He & Hs & Hd). pose proof (frame_sent _ _ Hf). pose proof (frame_derived _ _ Hf) as Hd1.
      split; [done|]. split; [by etrans|]. destruct Hd as [Hd|[t Ht]]; [left; congruence|].
      right. exists p.2, ic, t. split; [done|]. by eapply outcome_frame.
  - apply wp_ret. rewrite (fr_kex _ _ Hf), (wt_done _ _ Hw). done.
Qed.

Lemma kex_dispatch_run_wp host_keys fuel r : waiting host_keys r ->
  Forall (fun m => zlen m.2 <= 262144) (inbox_of r) -> (length (inbox_of r) < fuel)%nat ->
  wp (kex_dispatch_run host_keys fuel) (fun _ => run_good host_keys r) (run_bad host_keys r) r.
Proof.
  intros Hw Hsz Hf. unfold kex_dispatch_run.
  apply (dispatch_run_inv kr_con set_con _ _ _ (frame r) (run_good host_keys r)
           (read_msg host_keys r) (run_bad host_keys r) (fun s => length (inbox_of s))); [| |done|done].
  - intros r1 H1. eapply wp_mono; [by apply (read_next_wp host_keys)| |done]. cbv beta. intros p r2 H2.
    rewrite bool_decide_false by naive_solver. done.
  - intros r1 p H1. by apply dispatch_one_wp.
Qed.

(** *** The start *)

Lemma default_ciphers df : exists enc, Compat.compat_cipher_proposal df KEX_DEFAULT_ENCRYPT = Ok enc /\
  no_nul enc /\ zlen enc <= 300.
Proof.
  unfold Compat.compat_cipher_proposal. destruct (_ =? 0); eexists;
    (split; [vm_compute; reflexivity|]); (split; [repeat (constructor; [done|]); constructor|by vm_compute]).
Qed.

Lemma key_names_len keys : zlen (Match.join (key_names keys)) <= 12 * zlen keys.
Proof.
  induction keys as [|o keys IH]; [done|]. rewrite key_names_cons.
  assert (Hz : zlen (o :: keys) = 1 + zlen keys) by (unfold zlen; cbn [length]; lia).
  destruct o as [k|]; [destruct (_ || _)|]; try lia.
  pose proof (Compat.join_len_cons (key_ssh_name k) (key_names keys)). destruct (ssh_name_ok k) as (_ & _ & ?). lia.
Qed.

(** A proposal that can be written and read back. *)
Record prop_ok (p : list (list Z)) : Prop := {
  po_length : length p = PROPOSAL_MAX;
  po_names : Forall (fun s => zlen s <= 256 * 1024) p;
  po_nul : Forall no_nul p;
  po_size : zlen (fields_bytes (prop_fields p 0)) <= 200000
}.

Lemma server_proposal_ok df host_keys : zlen host_keys <= 100 ->
  exists p, server_proposal df host_keys def_proposal = Ok p /\ prop_ok p /\
    prop_nth p PROPOSAL_KEX_ALGS = KEX_DEFAULT_KEX.
Proof.
  intros Hl. destruct (default_ciphers df) as (enc & Ee & Hn & Hel). pose proof (key_names_len host_keys) as Hkl.
  destruct (key_names_ok host_keys) as [_ Hkn]. apply Compat.join_no_nul in Hkn.
  set (types := Match.join (key_names host_keys)) in *.
  exists [KEX_DEFAULT_KEX; types; enc; enc; KEX_DEFAULT_MAC; KEX_DEFAULT_MAC; str "none"; str "none"; []; []].
  split; [|split; [split|done]].
  - unfold server_proposal. change (prop_nth def_proposal PROPOSAL_ENC_ALGS_CTOS) with KEX_DEFAULT_ENCRYPT.
    change (prop_nth def_proposal PROPOSAL_ENC_ALGS_STOC) with KEX_DEFAULT_ENCRYPT.
    rewrite Ee. rsimp. rewrite list_hostkey_types_join by lia. done.
  - done.
  - repeat (constructor; [first [lia|by vm_compute]|]). constructor.
  - assert (Hc : forall s, forallb (fun c => negb (c =? 0)) s = true -> no_nul s).
    { intros s0 Hs. apply Forall_forall. intros c Hc. apply list_elem_of_In in Hc.
      apply (proj1 (forallb_forall _ _) Hs) in Hc. intros ->. done. }
    repeat (constructor; [first [exact Hkn|exact Hn|apply Hc; by vm_compute]|]). constructor.
  - unfold prop_fields, fields_bytes. cbn [fmap list_fmap app concat field_bytes]. rewrite !zlen_app, !zlen_put_u32.
    assert (zlen KEX_DEFAULT_KEX <= 1000) by (by vm_compute). assert (zlen KEX_DEFAULT_MAC <= 1000) by (by vm_compute).
    change (zlen (str "none")) with 4. change (zlen []) with 0.
    change (zlen (u8 0 :: put_u32 0 ++ [])) with 5. lia.
Qed.

(** The cookie. *)
Lemma cookie_contents b cookie : buffer_ok b -> zlen cookie <= zlen (contents b) ->
  let b' := mkBuffer (splice (offset b) cookie (buf b)) (alloc b) (offset b) (end_ b) in
  buffer_ok b' /\ contents b' = cookie ++ drop (length cookie) (contents b).
Proof.
  intros [H1 H2 H3 H4] Hl b'. unfold contents, slice in *. unfold zlen in *. cbn [buf offset end_ b'].
  rewrite length_take, length_drop in Hl. split.
  - split; cbn [buf offset end_ alloc b']; try done. unfold splice, zlen. rewrite !length_app, length_take, length_drop. lia.
  - unfold splice. rewrite drop_app_length' by (rewrite length_take; lia).
    rewrite take_app, take_ge by lia. f_equal. rewrite skipn_firstn_comm, drop_drop. f_equal.
Qed.

(** The state before the run. *)
Record starting (host_keys : list (option Key)) (r : run) : Prop := {
  st_proposal : myproposal r = def_proposal;
  st_keys : forall k, In (Some k) host_keys -> key_ok k;
  st_count : zlen host_keys <= 100;
  st_vc : zlen (c_str (client_version_string r)) <= 1000;
  st_vs : zlen (c_str (server_version_string r)) <= 1000;
  st_cookie : length (ks_cookie (kr_con r)) = KEX_COOKIE_LEN;
  st_derived : derived_of r = [];
  st_inbox : Forall (fun m => zlen m.2 <= 262144) (inbox_of r)
}.

Lemma setup_kex_wp host_keys r p : starting host_keys r -> prop_ok p ->
  prop_nth p PROPOSAL_KEX_ALGS = KEX_DEFAULT_KEX ->
  wp setup_kex (fun _ r' => waiting host_keys r' /\ derived_of r' = derived_of r /\ inbox_of r' = inbox_of r /\
      flags_of r' = flags_of r /\ session_id (kr_kex r') = None /\
      client_version_string r' = client_version_string r /\ server_version_string r' = server_version_string r /\
      In (SSH2_MSG_KEXINIT, FChar <$> buffer_ptr (my (kr_kex r'))) (sent_of r'))
    (fun _ _ => False) (set_proposal p r).
Proof.
  intros [Hp0 Hk Hc Hvc Hvs Hck Hd Hi] [Hlen Hnames Hnul Hsize] Hpk. unfold setup_kex. apply wp_bind, wp_gets, wp_bind, wp_lift_res.
  cbn [myproposal set_proposal].
  assert (Hci : capped 1000 buffer_init) by (split; [apply buffer_init_ok|]; cbn; unfold BUFFER_ALLOCSZ; lia).
  destruct (prop2buf_ok buffer_init p Hci Hnames Hnul ltac:(lia)) as (m & -> & Hm & Hcon).
  apply wp_bind. unfold on_con. apply wp_zoom. cbn [con_kexinit kscript_kex]. unfold kscript_kexinit. cbn [flags].
  change (Z.land 0 KEX_INIT_SENT) with 0. cbn [Z.eqb negb my].
  assert (Hml : zlen (contents m) = 16 + zlen (fields_bytes (prop_fields p 0))) by (by rewrite Hcon, zlen_app).
  pose proof (zlen_nonneg (fields_bytes (prop_fields p 0))).
  rewrite buffer_len_contents, Hml by done. change (Z.of_nat KEX_COOKIE_LEN) with 16.
  replace (_ <? 16) with false by lia. apply wp_bind, wp_gets. cbn [ks_cookie kr_con set_proposal].
  destruct (cookie_contents m (ks_cookie (kr_con r)) Hm) as [Hb Hbc]; [unfold zlen at 1; rewrite Hck, Hml; unfold KEX_COOKIE_LEN; lia|].
  set (b := mkBuffer _ _ _ _) in *. rewrite Hcon, Hck in Hbc.
  rewrite drop_app_length' in Hbc by (by rewrite length_replicate).
  unfold wp. cbn. split; [|split_and!; try done].
  - split; cbn; try done.
    + split; [done|]. rewrite Hbc, zlen_app. unfold zlen at 1. rewrite Hck. unfold KEX_COOKIE_LEN. lia.
    + exists p. split; [|done]. apply (buf2prop_cookie b (ks_cookie (kr_con r))); try done. lia.
  - apply in_or_app. right. by left.
Qed.

(** Keys that were derived in a run: for a KEXINIT of the client among its messages and
    the one that the server sent. *)
Definition exchanged (host_keys : list (option Key)) (r : run) (t : list Z * Z * Kex) (r' : run) : Prop :=
  exists q ic is_ need, In (SSH2_MSG_KEXINIT, q, ic) (inbox_of r) /\
    In (SSH2_MSG_KEXINIT, FChar <$> is_) (sent_of r') /\ 0 <= need <= 64 /\
    derivation (c_str (client_version_string r)) (c_str (server_version_string r)) ic is_ need (flags_of r)
      None host_keys t (sent_of r').

(** C7: Whatever the client sends, the key exchange of a connection ends, and derives keys at
    most once.  They come from the hash over both identification strings, the client's
    and the server's KEXINIT as they were sent, the host key, both public values and the
    secret; the client's public value was valid; the private key was drawn from the
    range that the negotiated algorithms need; and the hash, which is the session id
    when the exchange succeeds, was signed with a host key in the reply. *)
Theorem kex_run_safe host_keys fuel r : starting host_keys r -> (length (inbox_of r) < fuel)%nat ->
  match do_ssh2_kex host_keys fuel r with
  | (Ret _, r') => exists t, derived_of r' = [t] /\ exchanged host_keys r t r' /\ session_id2 r' = Some t.1.1
  | (Throw e, r') => e <> Diverges /\
      (derived_of r' = [] \/ exists t, derived_of r' = [t] /\ exchanged host_keys r t r')
  end.
Proof.
  intros Hs Hf. assert (Hs' := Hs). destruct Hs' as [Hp0 _ Hc _ _ _ Hd Hi].
  enough (Hwp : wp (do_ssh2_kex host_keys fuel)
    (fun _ r' => exists t, derived_of r' = [t] /\ exchanged host_keys r t r' /\ session_id2 r' = Some t.1.1)
    (fun e r' => e <> Diverges /\ (derived_of r' = [] \/ exists t, derived_of r' = [t] /\ exchanged host_keys r t r')) r).
  { unfold wp in Hwp. by destruct (do_ssh2_kex host_keys fuel r) as [[?|e] r']. }
  unfold do_ssh2_kex. apply wp_bind, wp_gets, wp_bind, wp_gets, wp_bind, wp_lift_res. rewrite Hp0.
  destruct (server_proposal_ok ((peer_flags ∘ kr_con) r) host_keys Hc) as (p & -> & Hp & Hpk).
  apply wp_bind, wp_modify, wp_bind. eapply wp_mono; [by apply (setup_kex_wp host_keys)| |done]. cbv beta.
  intros _ r1 (Hw & Hd1 & Hi1 & Hf1 & Hsid & Hvc & Hvs & Hout).
  assert (Hex : forall q ic t r', In (SSH2_MSG_KEXINIT, q, ic) (inbox_of r1) -> outcome host_keys r1 ic t r' ->
    derived_of r' = [t] /\ exchanged host_keys r t r').
  { intros q ic t r' Hin (Hd2 & [l Hl] & need & Hn & Hder). rewrite Hd2, Hd1, Hd. split; [done|].
    exists q, ic, (buffer_ptr (my (kr_kex r1))), need. rewrite Hi1 in Hin. rewrite Hvc, Hvs, Hf1, Hsid in Hder.
    split_and!; try done; try lia. rewrite Hl. apply in_or_app. by left. }
  apply wp_bind. eapply wp_mono; [apply (kex_dispatch_run_wp host_keys fuel r1 Hw); by rewrite Hi1|..]; cbv beta.
  - intros _ r' (q & ic & Hin & t & Ho & _ & Hss). apply wp_modify. exists t. cbn.
    destruct (Hex q ic t r' Hin Ho) as [H1 H2]. split; [done|]. split; [done|]. rewrite Hss.
    destruct Ho as (_ & _ & need & _ & Hder). destruct Hder as (? & ? & ? & ? & ? & ? & ? & Hder).
    rewrite Hsid in Hder. cbn in Hder. tauto.
  - intros e r' (He & _ & Hcase). split; [done|]. destruct Hcase as [Hd2|(q & ic & t & Hin & Ho)].
    + left. by rewrite Hd2, Hd1.
    + right. exists t. by apply (Hex q ic).
Qed.

End Run.

(** ** Examples *)

Module KexDemo.
Import Toy.
Import ToyKey.

Lemma toy_dsa_short dg d : exists r s, DSA_do_sign dg d = Some (r, s) /\ BN_num_bytes r <= 20 /\ BN_num_bytes s <= 20.
Proof.
  exists (1 + of_bytes dg mod 2 ^ 100), 7. split; [reflexivity|]. split; [|by vm_compute].
  pose proof (Z.mod_pos_bound (of_bytes dg) (2 ^ 100) ltac:(lia)). set (v := 1 + _) in *.
  unfold BN_num_bytes. rewrite bn_num_bits by lia. pose proof (Z.log2_le_mono v (2 ^ 100) ltac:(lia)) as Hl.
  rewrite Z.log2_pow2 in Hl by lia. Z.div_mod_to_equations. lia.
Qed.

Lemma dsa_signs df data : exists sig, key_sign df dsa_key data = Ok (Some sig).
Proof. apply (dss_signs df dsa_key (mkDSA 23 11 4 9 (Some 5)) data); [reflexivity|reflexivity|apply toy_dsa_short]. Qed.

(** A negotiated exchange in group 1 with a DSA key. *)
Definition kex1 : Kex :=
  mkKex None (fun _ => None) 16 true None KEY_DSA KEX_DH_GRP1_SHA1 (buf_of [1; 2]) (buf_of [3]) false 1 EVP_sha1.

Definition e1 : Z := 2 ^ 1030 mod p1.

Definition run1 : kexrun (K := kscript) :=
  mkRun (mkKScript (script_start (client_messages 3 4 e1 []) 0) (replicate 16 0) []) kex1 0 def_proposal
    (str "SSH-2.0-client") (str "SSH-2.0-server") None.

Definition dh1 : DH := mkDH p1 2 (Some 1026) (Some (2 ^ 1026 mod p1)).

Lemma e1_valid : dh_pub_is_valid dh1 e1 = true.
Proof. vm_compute. reflexivity. Qed.

Lemma run1_served : served [Some dsa_key] run1 p1 e1 dsa_key dh1.
Proof.
  split.
  - split.
    + intros k [[= <-]|[]]. apply dsa_key_ok.
    + cbn. lia.
    + repeat split; by vm_compute.
  - by left.
  - done.
  - exact I.
  - apply dsa_signs.
  - exists 1%nat. vm_compute. reflexivity.
  - eexists. vm_compute. reflexivity.
Qed.

Lemma kexdh_agreement_witness :
  exists r' blob f sig hash secret,
    kexdh_server [Some dsa_key] run1 = (Ret tt, r') /\
    sent_of r' = [(SSH2_MSG_KEXDH_REPLY, [FString blob; mpint_field f; FString sig]); (SSH2_MSG_NEWKEYS, [])] /\
    derived_of r' = [(hash, secret, set_session_id hash kex1)] /\
    client_accepts 0 (str "SSH-2.0-client") (str "SSH-2.0-server") [3] [1; 2] p1 1030 e1 blob sig f hash secret /\
    session_id (kr_kex r') = Some hash /\ done_ (kr_kex r') = true /\ inbox_of r' = [].
Proof.
  apply (kexdh_agreement [Some dsa_key] run1 p1 1030 dsa_key dh1 3 4 []).
  - exact run1_served.
  - lia.
  - exact e1_valid.
  - reflexivity.
Defined.

(** A run from the start: the client sends a message that is ignored, a KEXINIT, its
    public value and NEWKEYS. *)
Definition kexinit1 : list Z := payload client_prop.

Definition run0 : kexrun (K := kscript) :=
  mkRun (mkKScript (script_start ((99, 0, [7]) :: (SSH2_MSG_KEXINIT, 1, kexinit1) :: client_messages 2 3 e1 []) 0)
           (replicate 16 9) []) kex1 0 def_proposal (str "SSH-2.0-client") (str "SSH-2.0-server") None.

Lemma run0_starting : starting [Some dsa_key] run0.
Proof.
  split; try done.
  - intros k [[= <-]|[]]. apply dsa_key_ok.
  - repeat (constructor; [by vm_compute|]). constructor.
Qed.

Lemma kex_run_safe_witness :
  match do_ssh2_kex [Some dsa_key] 10 run0 with
  | (Ret _, r') => exists t, derived_of r' = [t] /\ exchanged [Some dsa_key] run0 t r' /\ session_id2 r' = Some t.1.1
  | (Throw e, r') => e <> Diverges /\
      (derived_of r' = [] \/ exists t, derived_of r' = [t] /\ exchanged [Some dsa_key] run0 t r')
  end.
Proof.
  apply (kex_run_safe [Some dsa_key] 10 run0).
  - exact run0_starting.
  - cbn. lia.
Defined.

(** This run succeeds. *)
Example run0_succeeds :
  match do_ssh2_kex [Some dsa_key] 10 run0 with
  | (Ret _, r') => (map fst (sent_of r'), length (derived_of r'))
  | (Throw _, _) => ([], 0%nat)
  end = ([SSH2_MSG_KEXINIT; SSH2_MSG_KEXDH_REPLY; SSH2_MSG_NEWKEYS], 1%nat).
Proof. vm_compute. reflexivity. Qed.

End KexDemo.
