(* ===== verification/SshSession.v ===== *)
(** * SshSession: the connection after authentication

    The channels of a connection and the threads behind them: CHANNEL_OPEN and
    CHANNEL_REQUEST ([server_input_channel_open], [server_input_channel_req] of
    serverloop.cpp, ChannelPars.cpp, SessionChannel.cpp, SubsystemParsFactory.cpp,
    SubsystemPars.cpp, PTYPars.cpp, [PTY::tty_parse_modes]), forwarded connections
    (TCPClientChannel.cpp), the other channel messages (CoreConnection.cpp),
    [ServerMainDispatcher], and [server_loop].

    A channel is the one of [SshChannel]; what a step of the loop does to it is an
    operation of [SshChannelProps.run_op] on an empty trace, and the messages in the
    trace are then sent.  The connection is any instance of [ServerConnection]. *)

From S2P Require Import Prelude SshBuffer CxxMonad SshCipher SshPacket SshTransport SshKex SshCompat SshDh SshKey SshQueue.
From S2P Require Import SshChannel SshChannelProps SshDispatch SshAuth SshSocket SshKexServer.

Definition SSH2_MSG_GLOBAL_REQUEST : Z := 80.
Definition SSH2_MSG_REQUEST_SUCCESS : Z := 81.
Definition SSH2_MSG_REQUEST_FAILURE : Z := 82.
Definition SSH2_MSG_CHANNEL_OPEN : Z := 90.
Definition SSH2_MSG_CHANNEL_OPEN_FAILURE : Z := 92.
Definition SSH2_MSG_CHANNEL_EXTENDED_DATA : Z := 95.
Definition SSH2_MSG_CHANNEL_SUCCESS : Z := 99.
Definition SSH2_MSG_CHANNEL_FAILURE : Z := 100.
Definition SSH2_OPEN_UNKNOWN_CHANNEL_TYPE : Z := 3.

(** ** The modes of a terminal (ttymodes.cpp) *)

Definition TTY_OP_END : Z := 0.
Definition TTY_OP_ISPEED_PROTO1 : Z := 192.
Definition TTY_OP_OSPEED_PROTO1 : Z := 193.

(** Whether an argument follows the opcode; the loop stops at the others. *)
Definition has_argument (opcode : Z) : bool :=
  (opcode =? TTY_OP_ISPEED_PROTO1) || (opcode =? TTY_OP_OSPEED_PROTO1) || ((0 <? opcode) && (opcode <? 160)).

(** The number of the bytes read; every turn takes one at least. *)
Fixpoint parse_modes (fuel : nat) (n_bytes : Z) : SE Buffer Z :=
  match fuel with
  | O => throw Diverges
  | S fuel =>
      opcode ← get_char;
      if has_argument opcode then get_int;; parse_modes fuel (n_bytes + 5) else mret (n_bytes + 1)
  end.

Definition tty_parse_modes : SE Buffer Z :=
  n ← get_int;
  if n =? 0 then mret 0
  else fuel ← gets (fun b => length (contents b)); parse_modes (S fuel) 0.

(** ** Threads and channels *)

Inductive subsystem_kind := SFTP | Shell | TCPClient (host : list Z) (port : Z).

(** An object of [OverSubsystemThread]. *)
Record Subsystem := mkSubsystem {
  sub_kind : subsystem_kind;
  sub_channel : Z;       (** [channelId] *)
  sub_user : User;
  sub_ended : bool       (** [terminatedState] *)
}.

Record PTY := mkPTY { pty_term : list Z; pty_col : Z; pty_row : Z }.

(** A [SessionChannel]; [c_connecting] is the member of a [TCPClientChannel]. *)
Record chan := mkChannel {
  c_base : Channel;
  c_sub : option Z;      (** its subsystem, by id *)
  c_user : User;         (** [pw] of its factory of subsystems *)
  c_ptys : repository PTY;
  c_connecting : option bool
}.

Definition set_base (b : Channel) (c : chan) : chan := mkChannel b (c_sub c) (c_user c) (c_ptys c) (c_connecting c).
Definition set_sub (i : option Z) (c : chan) : chan := mkChannel (c_base c) i (c_user c) (c_ptys c) (c_connecting c).
Definition add_pty (p : PTY) (c : chan) : chan :=
  mkChannel (c_base c) (c_sub c) (c_user c) (create_object (c_ptys c) (fun _ => p)).2 (c_connecting c).
Definition set_connecting (v : bool) (c : chan) : chan := mkChannel (c_base c) (c_sub c) (c_user c) (c_ptys c) (Some v).

(** The upgrade of a [SessionChannel] to an [SFTPChannel]. *)
Definition to_sftp (c : chan) : chan :=
  let b := c_base c in
  set_base (mkChan true (remote_id b) (win b) (flg b) (ascending b) (descending b) (currentInputState b)
              (currentOutputState b) (fromChannel b) (toChannel b) (subsystem b)) c.

Definition set_running (c : chan) : chan :=
  set_base (set_io (c_base c) (fromChannel (c_base c)) (toChannel (c_base c)) Running) c.

(** [TCPClientChannel::open] *)
Definition tcp_open (c : chan) : chan := set_base (set_flg (c_base c) (set_opened (flg (c_base c)))) c.

(** [get_first_unused_object_id], which may add a slot. *)
Definition claim {A} (r : repository A) : Z * repository A :=
  let id := get_first_unused_object_id r in
  (Z.of_nat id, if (id <? length r)%nat then r else r ++ [None]).

Definition put {A} (r : repository A) (id : Z) (o : option A) : repository A := <[Z.to_nat id := o]> r.

(** What the operating system answers. *)
Class Platform := {
  (** the terminal is in the database of terminals *)
  pty_creates : PTY -> bool;
  (** the n-th thread can be made, and started *)
  thread_creates : nat -> bool;
  thread_starts : nat -> bool;
  (** the name of a host can be resolved *)
  host_resolves : list Z -> Z -> bool
}.

(** ** The interface to the connection *)

Class ServerConnection (K : Type) `{KC : KexConnection K} := {
  (** [packet_need_rekeying] *)
  con_need_rekeying : K -> bool;
  (** [process_input] with the events FD_READ and FD_CLOSE *)
  con_input : bool -> bool -> SE K unit;
  con_closed : K -> bool;
  (** [process_output] *)
  con_output : SE K unit
}.

Section Session.
Context {CR : Crypto} {DG : Digest} {BN : BnLib} {DL : DhLib} {KL : KeyLib} {PF : Platform}.
Context {K : Type} {CN : Connection K} {KC : KexConnection K} {SC : ServerConnection K}.

Record server := mkServer {
  sv_kex : kexrun (K := K);           (** the connection, [xxx_kex] *)
  sv_ctxt : Authctxt;
  sv_channels : repository chan;
  sv_threads : repository Subsystem;
  sv_started : nat                    (** threads asked for so far *)
}.

Definition set_kexrun (r : kexrun) (s : server) : server :=
  mkServer r (sv_ctxt s) (sv_channels s) (sv_threads s) (sv_started s).
Definition set_channels (r : repository chan) (s : server) : server :=
  mkServer (sv_kex s) (sv_ctxt s) r (sv_threads s) (sv_started s).
Definition set_threads (r : repository Subsystem) (s : server) : server :=
  mkServer (sv_kex s) (sv_ctxt s) (sv_channels s) r (sv_started s).
Definition set_started (n : nat) (s : server) : server :=
  mkServer (sv_kex s) (sv_ctxt s) (sv_channels s) (sv_threads s) n.

Abbreviation M := (SE server).

Definition in_kex {A} (m : SE (kexrun (K := K)) A) : M A := zoom sv_kex set_kexrun m.
Definition con_of (s : server) : K := kr_con (sv_kex s).
Definition put_con (k : K) (s : server) : server := set_kexrun (SshKexServer.set_con k (sv_kex s)) s.
Definition in_con {A} (m : SE K A) : M A := zoom con_of put_con m.

Definition lookup_channel (id : Z) (s : server) : option chan := get_object_by_id (sv_channels s) id.
Definition put_channel (id : Z) (o : option chan) (s : server) : server :=
  set_channels (put (sv_channels s) id o) s.
Definition put_thread (id : Z) (o : option Subsystem) (s : server) : server :=
  set_threads (put (sv_threads s) id o) s.

(** *** Steps of a channel *)

Fixpoint send_all (t : trace) : M unit :=
  match t with
  | [] => mret tt
  | (type, fs) :: t => in_con (con_send type fs);; send_all t
  end.

(** Puts back what an operation left of a channel.  A channel that closed deletes its
    thread (it is stopped and waited for). *)
Definition store (id : Z) (c : chan) (o : option Channel) (s : server) : server :=
  match o with
  | None => put_channel id None (match c_sub c with Some t => put_thread t None s | None => s end)
  | Some b =>
      match subsystem b, c_sub c with
      | NoSubsystem, Some t => put_channel id (Some (set_sub None (set_base b c))) (put_thread t None s)
      | _, _ => put_channel id (Some (set_base b c)) s
      end
  end.

(** Whether the channel is left. *)
Definition step_channel (id : Z) (c : chan) (op : chan_op) : M bool :=
  '(t, o) ← lift_res (run_op [] (c_base c) op);
  modify (store id c o);;
  send_all t;;
  mret (match o with Some _ => true | None => false end).

(** *** Opening (ChannelPars.cpp) *)

Record ChannelPars := mkPars {
  ctype : list Z; p_remote_id : Z; rwindow : Z; rmaxpack : Z;
  host_to_connect : list Z; port_to_connect : Z
}.

Definition get_text : SE Buffer (list Z) := s ← get_string; mret (c_str s).

Definition read_from_packet : SE K ChannelPars :=
  ctype ← reading get_text;
  remote_id ← reading get_int;
  rwindow ← reading get_int;
  rmaxpack ← reading get_int;
  if bool_decide (ctype = str "session") then
    packet_check_eom;;
    mret (mkPars ctype remote_id rwindow rmaxpack [] 0)
  else if bool_decide (ctype = str "direct-tcpip") then
    host ← reading get_text;
    port ← reading get_int;
    reading get_text;;
    reading get_int;;
    packet_check_eom;;
    mret (mkPars ctype remote_id rwindow rmaxpack host port)
  else mret (mkPars ctype remote_id rwindow rmaxpack [] 0).

(** [create_subthread]: the constructors, then the slot. *)
Definition create_subthread (kind : subsystem_kind) (channel : Z) (u : User) : M Z :=
  n ← gets sv_started;
  modify (set_started (S n));;
  '(tid, r) ← gets (fun s => claim (sv_threads s));
  modify (set_threads r);;
  if thread_creates n then
    modify (put_thread tid (Some (mkSubsystem kind channel u false)));;
    mret tid
  else throw SException.

(** [start] of the thread made last. *)
Definition start_thread : M unit :=
  n ← gets sv_started;
  if thread_starts (pred n) then mret tt else throw SException.

(** The user of the session; the constructor of [SessionChannel] is [fatal] without. *)
Definition session_user : M User :=
  c ← gets sv_ctxt;
  match pw c with
  | Some u => if valid c =? 0 then throw ShuttingDown else mret u
  | None => throw ShuttingDown
  end.

(** [create_derivation]; [None]: [UnknownChannelType] is thrown. *)
Definition create_channel (p : ChannelPars) : M (option (Z * chan)) :=
  '(id, r) ← gets (fun s => claim (sv_channels s));
  modify (set_channels r);;
  if bool_decide (ctype p = str "session") then
    u ← session_user;
    let c := mkChannel (new_channel (p_remote_id p) (rwindow p) (rmaxpack p) 0) None u repository_init None in
    modify (put_channel id (Some c));;
    mret (Some (id, c))
  else if bool_decide (ctype p = str "direct-tcpip") then
    u ← session_user;
    if negb (host_resolves (host_to_connect p) (port_to_connect p)) then throw SException
    else
      tid ← create_subthread (TCPClient (host_to_connect p) (port_to_connect p)) id u;
      start_thread;;
      let c := set_running (mkChannel (new_channel (p_remote_id p) (rwindow p) (rmaxpack p) WindowDefaultSize)
                 (Some tid) u repository_init (Some true)) in
      modify (put_channel id (Some c));;
      mret (Some (id, c))
  else mret None.

(** The confirmation of an open channel. *)
Definition confirm (id : Z) (c : chan) : M unit :=
  let b := c_base c in
  in_con (con_send SSH2_MSG_CHANNEL_OPEN_CONFIRMATION
    [FInt (remote_id b); FInt id; FInt (local_window (win b)); FInt (local_maxpacket (win b))]).

Definition server_input_channel_open : M unit :=
  p ← in_con read_from_packet;
  o ← create_channel p;
  match o with
  | None =>
      df ← gets (peer_flags ∘ con_of);
      in_con (con_send SSH2_MSG_CHANNEL_OPEN_FAILURE
        ([FInt (p_remote_id p); FInt SSH2_OPEN_UNKNOWN_CHANNEL_TYPE] ++
         (if Z.land df Compat.SSH_BUG_OPENFAILURE =? 0 then [FString (str "open failed"); FString []] else [])))
  | Some (id, c) => match c_connecting c with Some _ => mret tt | None => confirm id c end
  end.

(** *** Requests (SessionChannel.cpp) *)

(** [PTYPars::read_from_packet] *)
Definition read_pty : SE K PTY :=
  term ← reading get_text;
  col ← reading get_int;
  row ← reading get_int;
  reading get_int;;
  reading get_int;;
  reading tty_parse_modes;;
  packet_check_eom;;
  mret (mkPTY term col row).

(** The thread for a subsystem of that name, or a shell ([None]).  The channel becomes an
    [SFTPChannel] first. *)
Definition start_subsystem (id : Z) (c : chan) (name : option (list Z)) : M bool :=
  match c_sub c with
  | Some _ => throw ShuttingDown
  | None =>
      let sftp := bool_decide (name = Some (str "sftp")) in
      let c := if sftp then to_sftp c else c in
      modify (put_channel id (Some c));;
      tid ← match name with
            | None => create_subthread Shell id (c_user c)
            | Some _ =>
                if sftp then create_subthread SFTP id (c_user c)
                else '(_, r) ← gets (fun s => claim (sv_threads s));
                     modify (set_threads r);; throw SException
            end;
      let c := set_running (set_sub (Some tid) c) in
      modify (put_channel id (Some c));;
      start_thread;;
      step_channel id c OpOpen
  end.

(** The body of the [try] block: the factory reads the request. *)
Definition process_request (id : Z) (c : chan) (rtype : list Z) : M bool :=
  if bool_decide (rtype = str "pty-req") then
    p ← in_con read_pty;
    if pty_creates p then modify (put_channel id (Some (add_pty p c)));; mret true
    else throw SException
  else if bool_decide (rtype = str "shell") then start_subsystem id c None
  else if bool_decide (rtype = str "subsystem") then
    name ← in_con (reading get_text);
    in_con packet_check_eom;;
    start_subsystem id c (Some name)
  else throw SException.

(** [fatal] throws an [SException], too. *)
Definition is_SException (e : exn) : bool :=
  match e with InvalidPath | SocketError | SException | ShuttingDown => true | _ => false end.

(** [SessionChannel::input_channel_req], and the one of [TCPClientChannel]. *)
Definition input_channel_req (id : Z) (c : chan) (rtype : list Z) (reply : Z) : M unit :=
  match c_connecting c with
  | Some _ => throw SException
  | None =>
      processed ← (if isOpened (flg (c_base c)) then mret false
                   else try_catch is_SException (process_request id c rtype) (mret false));
      if reply =? 0 then mret tt
      else in_con (con_send (if processed : bool then SSH2_MSG_CHANNEL_SUCCESS else SSH2_MSG_CHANNEL_FAILURE)
             [FInt (remote_id (c_base c))])
  end.

Definition with_channel (id : Z) (unknown : list Z) (f : chan -> M unit) : M unit :=
  o ← gets (lookup_channel id);
  match o with
  | None => in_con (disconnect unknown)
  | Some c => f c
  end.

Definition server_input_channel_req : M unit :=
  id ← in_con (reading get_int);
  rtype ← in_con (reading get_text);
  reply ← in_con (reading get_char);
  with_channel id (str "server_input_channel_req: unknown channel " ++ dec (s32 id))
    (fun c => input_channel_req id c rtype reply).

(** *** The other messages (CoreConnection.cpp) *)

(** [packet_get_string_ptr] *)
Definition get_string_ptr : SE Buffer (list Z) := fun b =>
  match buffer_get_int_ret b with
  | None => (Throw ShuttingDown, b)
  | Some (len, b1) =>
      if len >? 256 * 1024 then (Throw ShuttingDown, b1)
      else
        match buffer_consume b1 len with
        | Ok b2 => (Ret (slice (offset b1) len (buf b1)), b2)
        | Fatal _ => (Throw ShuttingDown, b1)
        | OutOfFuel => (Throw Diverges, b1)
        end
  end.

Definition nonexistent (what : string) (id : Z) : list Z :=
  str ("Received " +:+ what +:+ " for nonexistent channel ") ++ dec (s32 id) ++ str ".".

Definition channel_input_data : M unit :=
  id ← in_con (reading get_int);
  with_channel id (nonexistent "data" id) (fun c =>
    let b := c_base c in
    if negb (isOpened (flg b)) then mret tt
    else
      data ← in_con (reading get_string_ptr);
      step_channel id c (OpData data);;
      if outputStateIs b StOpen && negb (zlen data >? local_window (win b)) then in_con packet_check_eom
      else mret tt).

Definition channel_input_eof : M unit :=
  id ← in_con (reading get_int);
  in_con packet_check_eom;;
  with_channel id (nonexistent "ieof" id) (fun c => step_channel id c OpEof;; mret tt).

Definition channel_input_oclose : M unit :=
  id ← in_con (reading get_int);
  in_con packet_check_eom;;
  with_channel id (nonexistent "oclose" id) (fun c => step_channel id c OpClose;; mret tt).

Definition channel_input_window_adjust : M unit :=
  id ← in_con (reading get_int);
  o ← gets (lookup_channel id);
  match o with
  | None => mret tt
  | Some c =>
      adjust ← in_con (reading get_int);
      in_con packet_check_eom;;
      step_channel id c (OpAdjust adjust);; mret tt
  end.

Definition server_input_global_request : M unit :=
  in_con (reading get_text);;
  want_reply ← in_con (reading get_char);
  if want_reply =? 0 then mret tt
  else in_con (con_send SSH2_MSG_REQUEST_FAILURE []);; in_con con_write_wait.

(** *** The dispatcher (ServerMainDispatcher.cpp) *)

Definition server_table : list dispatch_fn :=
  foldr (fun p t => dispatch_set p.1 p.2 t) dispatch_init
    [(SSH2_MSG_CHANNEL_CLOSE, channel_close_msg); (SSH2_MSG_CHANNEL_DATA, channel_data_msg);
     (SSH2_MSG_CHANNEL_EOF, channel_eof_msg); (SSH2_MSG_CHANNEL_EXTENDED_DATA, channel_extended_data_msg);
     (SSH2_MSG_CHANNEL_OPEN, channel_open_msg);
     (SSH2_MSG_CHANNEL_OPEN_CONFIRMATION, channel_open_confirmation_msg);
     (SSH2_MSG_CHANNEL_OPEN_FAILURE, channel_open_failure_msg);
     (SSH2_MSG_CHANNEL_REQUEST, channel_request_msg);
     (SSH2_MSG_CHANNEL_WINDOW_ADJUST, channel_window_adjust_msg);
     (SSH2_MSG_GLOBAL_REQUEST, global_request_msg); (SSH2_MSG_CHANNEL_SUCCESS, channel_success_msg);
     (SSH2_MSG_CHANNEL_FAILURE, channel_failure_msg); (SSH2_MSG_REQUEST_SUCCESS, request_success_msg);
     (SSH2_MSG_REQUEST_FAILURE, request_failure_msg); (SSH2_MSG_KEXINIT, kexinit_msg)].

(** Messages that are only logged: [channel_extended_data_msg] and the answers. *)
Definition server_virt (host_keys : list (option Key)) (f : dispatch_fn) (type seq : Z) : M unit :=
  match f with
  | kexinit_msg => in_kex (kexinit_received host_keys)
  | channel_close_msg => channel_input_oclose
  | channel_data_msg => channel_input_data
  | channel_eof_msg => channel_input_eof
  | channel_open_msg => server_input_channel_open
  | channel_request_msg => server_input_channel_req
  | channel_window_adjust_msg => channel_input_window_adjust
  | global_request_msg => server_input_global_request
  | unexpected_msg => in_con (protocol_error seq)
  | _ => mret tt
  end.

Definition server_dispatch_run (host_keys : list (option Key)) (fuel : nat) : M unit :=
  dispatch_run con_of put_con (fun _ => server_table) (server_virt host_keys) (fun _ => false) fuel
    DISPATCH_NONBLOCK.

(** *** The loop *)

(** [for_each] of the repository, over the ids in order. *)
Fixpoint for_ids (ids : list Z) (f : Z -> chan -> M unit) : M unit :=
  match ids with
  | [] => mret tt
  | id :: ids =>
      o ← gets (lookup_channel id);
      match o with Some c => f id c | None => mret tt end;;
      for_ids ids f
  end.

Definition for_each_channel (f : Z -> chan -> M unit) : M unit :=
  n ← gets (fun s => zlen (sv_channels s));
  for_ids (seqZ 0 n) f.

Definition all_channels_output_poll : M unit :=
  for_each_channel (fun id c => step_channel id c OpPoll;; mret tt).

(** [TCPClientChannel::channel_post] sends the confirmation of the channel at the first
    call; it reads a member behind the call that may have deleted the channel. *)
Definition post_one (id : Z) (c : chan) : M unit :=
  left_ ← step_channel id c OpPost;
  match c_connecting c with
  | None => mret tt
  | Some connecting =>
      if negb left_ then throw BadRead
      else if connecting then
        o ← gets (lookup_channel id);
        match o with
        | Some c => confirm id c;; modify (put_channel id (Some (set_connecting false c)))
        | None => mret tt
        end
      else mret tt
  end.

Definition all_channel_post : M unit := for_each_channel post_one.

(** [fill_event_array]: the channels whose data is waited for, at most [room] of them;
    behind the last one the channels are not looked at. *)
Fixpoint fill_events (ids : list Z) (room : nat) : M (list Z) :=
  match ids with
  | [] => mret []
  | id :: ids =>
      o ← gets (lookup_channel id);
      match o, room with
      | None, _ => fill_events ids room
      | Some _, O => mret []
      | Some c, S room' =>
          '(waits, _) ← lift_res (waits_for_data (c_base c));
          step_channel id c OpPre;;
          rest ← fill_events ids (if waits : bool then room' else room);
          mret (if waits : bool then id :: rest else rest)
      end
  end.

(** WSA_MAXIMUM_WAIT_EVENTS - FirstAscendingEvt *)
Definition EVENTS_MAX : nat := 61.

Definition fill_event_array : M (list Z) :=
  n ← gets (fun s => zlen (sv_channels s));
  fill_events (seqZ 0 n) EVENTS_MAX.

(** What threads do while the loop waits. *)
Inductive thread_event :=
| ThTake (tid : Z)                  (** takes a message of the channel *)
| ThPut (tid : Z) (m : list Z)      (** gives the channel a message *)
| ThConnected (tid : Z)             (** [TCPClient] calls [TCPClientChannel::open] *)
| ThEnd (tid : Z).                  (** ends *)

Definition thread_of (e : thread_event) : Z :=
  match e with ThTake t | ThPut t _ | ThConnected t | ThEnd t => t end.

(** The effect on the channel of the thread.  Where a buffer refuses the message, the thread
    throws; its end is an event of its own. *)
Definition thread_acts (e : thread_event) (c : chan) : chan :=
  let b := c_base c in
  match e with
  | ThTake _ =>
      match sub_take (set_io b (WriteBuffer.swap (fromChannel b)) (toChannel b) (subsystem b)) with
      | Ok (_, b) => set_base b c
      | _ => c
      end
  | ThPut _ m =>
      match ReadBuffer.put (toChannel b) m with
      | Ok r => set_base (set_io b (fromChannel b) r (subsystem b)) c
      | _ => c
      end
  | ThConnected _ => tcp_open c
  | ThEnd _ => set_base (set_io b (fromChannel b) (toChannel b) Terminated) c
  end.

Definition end_thread (e : thread_event) (t : Subsystem) : Subsystem :=
  match e with ThEnd _ => mkSubsystem (sub_kind t) (sub_channel t) (sub_user t) true | _ => t end.

(** An ended thread does nothing more, and only a [TCPClient] connects. *)
Definition may_act (e : thread_event) (t : Subsystem) : bool :=
  negb (sub_ended t) &&
  match e, sub_kind t with ThConnected _, TCPClient _ _ => true | ThConnected _, _ => false | _, _ => true end.

Definition thread_step (e : thread_event) (s : server) : server :=
  let tid := thread_of e in
  match get_object_by_id (sv_threads s) tid with
  | None => s
  | Some t =>
      if may_act e t then
        let s := put_thread tid (Some (end_thread e t)) s in
        match lookup_channel (sub_channel t) s with
        | Some c => put_channel (sub_channel t) (Some (thread_acts e c)) s
        | None => s
        end
      else s
  end.

(** What a wait of the loop ends with. *)
Record turn := mkTurn {
  tn_threads : list thread_event;
  tn_stop : bool;
  tn_ended : bool;      (** the event of ended threads *)
  tn_read : bool;
  tn_close : bool
}.

(** [SendExitMsg] for the threads that have ended *)
Fixpoint send_exit (tids : list Z) : M unit :=
  match tids with
  | [] => mret tt
  | tid :: tids =>
      o ← gets (fun s => get_object_by_id (sv_threads s) tid);
      match o with
      | None => mret tt
      | Some t =>
          o ← gets (lookup_channel (sub_channel t));
          match o with
          | None => throw SException
          | Some c => step_channel (sub_channel t) c OpTerminated;; mret tt
          end
      end;;
      send_exit tids
  end.

Definition ended_threads (s : server) : list Z :=
  filter (fun tid => (if get_object_by_id (sv_threads s) tid is Some t then sub_ended t else false) = true)
    (seqZ 0 (zlen (sv_threads s))).

Definition set_done (v : bool) (k : Kex) : Kex :=
  mkKex (session_id k) (kex_newkeys k) (we_need k) (SshKex.server k) (kex_name k) (hostkey_type k) (kex_type k)
    (my k) (peer k) v (SshKex.flags k) (kex_md k).

Definition rekey_if_needed : M unit :=
  need ← gets (con_need_rekeying ∘ con_of);
  if need : bool then
    in_kex (modify (fun r => set_kex (set_done false (kr_kex r)) r);;
            kex ← gets kr_kex;
            kex ← SshKexServer.on_con (con_kexinit kex);
            modify (set_kex kex))
  else mret tt.

(** One turn; the answer is whether the loop ends. *)
Definition loop_turn (host_keys : list (option Key)) (fuel : nat) (t : turn) : M bool :=
  server_dispatch_run host_keys fuel;;
  rekeying ← gets (fun s => negb (done_ (kr_kex (sv_kex s))));
  (if rekeying : bool then mret tt else all_channels_output_poll);;
  (if rekeying : bool then mret tt else fill_event_array;; mret tt);;
  modify (fun s => foldl (fun s e => thread_step e s) s (tn_threads t));;
  if tn_stop t then mret true
  else
    (if tn_ended t then tids ← gets ended_threads; send_exit tids else mret tt);;
    (if rekeying : bool then mret tt else all_channel_post;; rekey_if_needed);;
    in_con (con_input (tn_read t) (tn_close t));;
    closed ← gets (con_closed ∘ con_of);
    if closed : bool then mret true else in_con con_output;; mret false.

(** The loop for the turns of a run. *)
Fixpoint server_loop (host_keys : list (option Key)) (fuel : nat) (turns : list turn) : M unit :=
  match turns with
  | [] => mret tt
  | t :: turns =>
      ends ← loop_turn host_keys fuel t;
      if ends : bool then mret tt else server_loop host_keys fuel turns
  end.

End Session.
