(* ===== verification/SshSessionProps.v ===== *)
(** * SshSessionProps: channels and threads of a connection

    The invariant that ties the channels of a connection to its threads, and its proof
    for every message and every turn of the loop of [SshSession], on any connection:
    what the connection does is not looked at. *)

From S2P Require Import Prelude SshBuffer CxxMonad SshCipher SshPacket SshTransport SshKex SshCompat SshDh SshKey SshQueue.
From S2P Require Import SshChannel SshChannelProps SshDispatch SshAuth SshSocket SshKexServer SshSession.

(** ** Repositories *)

Lemma get_object_range {A} (r : repository A) id x : get_object_by_id r id = Some x -> 1 <= id < zlen r.
Proof. unfold get_object_by_id. destruct (_ || _) eqn:E; [done|]. apply orb_false_iff in E as [? ?]. zbool. lia. Qed.

Lemma get_put {A} (r : repository A) id o j : 1 <= id < zlen r ->
  get_object_by_id (put r id o) j = if j =? id then o else get_object_by_id r j.
Proof.
  intros Hid. unfold get_object_by_id, put, znth, zlen, repository in *. rewrite length_insert, !nth_lookup.
  destruct (_ || _) eqn:E; [destruct (j =? id) eqn:Ej; [|done]; zbool; apply orb_true_iff in E as [?|?]; zbool; lia|].
  apply orb_false_iff in E as [E1 E2]. destruct (j =? id) eqn:Ej; zbool.
  - subst j. by rewrite list_lookup_insert_eq by lia.
  - by rewrite list_lookup_insert_ne by lia.
Qed.

Lemma put_length {A} (r : repository A) id o : zlen (put r id o) = zlen r.
Proof. unfold put, zlen, repository. by rewrite length_insert. Qed.

(** The free slot that [claim] finds or makes. *)
Lemma claim_spec {A} (r : repository A) id r' : repository_ok r -> claim r = (id, r') ->
  repository_ok r' /\ 1 <= id < zlen r' /\ get_object_by_id r id = None /\
  forall j, get_object_by_id r' j = get_object_by_id r j.
Proof.
  intros [q ->] [= <- <-]. unfold get_first_unused_object_id. cbn [tail].
  destruct (first_unused_spec q 1) as (n & -> & Hn & Hx & _). cbn [Nat.add length].
  change (S n <? S (length q))%nat with (n <? length q)%nat.
  assert (get_object_by_id (None :: q) (Z.of_nat (S n)) = None) as Hnone.
  { rewrite get_object_cons. destruct (_ <? 1); [done|]. by replace (Z.to_nat (Z.of_nat (S n) - 1)) with n by lia. }
  destruct (n <? length q)%nat eqn:E.
  - apply Nat.ltb_lt in E. split; [by eexists|]. split; [unfold zlen; cbn; lia|]. done.
  - apply Nat.ltb_ge in E. cbn [app]. split; [by eexists|]. split; [unfold zlen; cbn; rewrite length_app; cbn; lia|].
    split; [done|]. intros j. rewrite !get_object_cons. destruct (j <? 1); [done|]. rewrite !nth_lookup.
    destruct (decide (Z.to_nat (j - 1) < length q)%nat); [by rewrite lookup_app_l|].
    rewrite (lookup_ge_None_2 q) by lia. rewrite lookup_app_r by lia.
    destruct (Z.to_nat (j - 1) - length q)%nat as [|[|?]]; done.
Qed.

Lemma put_ok {A} (r : repository A) id o : repository_ok r -> 1 <= id -> repository_ok (put r id o).
Proof. intros [q ->] Hid. unfold put. destruct (Z.to_nat id) eqn:E; [lia|]. by eexists. Qed.

(** ** What an operation of a channel keeps *)

Record frame (c c' : Channel) : Prop := {
  fr_sub : subsystem c' = subsystem c;
  fr_sftp : is_sftp c' = is_sftp c;
  fr_remote : remote_id c' = remote_id c;
  fr_opened : isOpened (flg c') = isOpened (flg c)
}.

#[export] Instance frame_preorder : PreOrder frame.
Proof. split; [by intros c|]. intros c1 c2 c3 [] []. split; congruence. Qed.

Lemma frame_send_data (t : trace) c t' c' : send_data t c = Ok (t', c') -> frame c c'.
Proof.
  unfold send_data. destruct (_ && _); [|intros [= <- <-]; done].
  destruct (_ >? 0); [|intros [= <- <-]; done]. cbn. destruct (buffer_consume _ _); [|done..].
  cbn. by intros [= <- <-].
Qed.

Lemma frame_poll (t : trace) c t' c' : channel_output_poll t c = Ok (t', c') -> frame c c'.
Proof.
  intros H. apply output_poll_inv in H as [(_ & _ & ->)|(t1 & c1 & H1 & H)]; [done|].
  apply frame_send_data in H1. etrans; [exact H1|].
  destruct H as [[_ ->]|[_ [[_ ->]|[_ ->]]]]; [done|by split..].
Qed.

Lemma frame_dead (t : trace) c b t' c' dead : chan_is_dead t c b = Ok (t', c', dead) -> frame c c'.
Proof. intros H. apply chan_is_dead_inv in H as [[[_ ->]|(_ & _ & _ & _ & ->)] _]; [done|by split]. Qed.

Lemma dead_twice (t : trace) c b t1 c1 t2 c2 dead :
  chan_is_dead t c b = Ok (t1, c1, true) ->
  chan_is_dead t1 (session_close_by_channel c1) true = Ok (t2, c2, dead) -> dead = true.
Proof.
  intros H1 H2. pose proof (chan_is_dead_inv _ _ _ _ _ _ H1) as [Hc Hd]. destruct (Hd eq_refl) as (Hi & Ho & Hr & _).
  assert (currentInputState c1 = StClosed /\ currentOutputState c1 = StClosed /\ closeRcvd (flg c1) = true)
    as (Hi1 & Ho1 & Hr1) by (destruct Hc as [[_ ->]|(_ & _ & _ & _ & ->)]; done).
  unfold chan_is_dead, inputStateIs, outputStateIs in H2. cbn in H2. rewrite Hi1, Ho1 in H2. cbn in H2.
  destruct (closeSent (flg c1)) eqn:Es; cbn in H2; rewrite ?Es, ?Hr1 in H2; by injection H2.
Qed.

Lemma frame_garbage (t : trace) c t' c' : garbage_collect t c = Ok (t', Some c') -> frame c c'.
Proof.
  unfold garbage_collect. intros E. bind_inv E E1. destruct a as [[t1 c1] dead]. pose proof (frame_dead _ _ _ _ _ _ E1).
  destruct dead; cbn [negb] in E; [|by injection E as <- <-].
  bind_inv E E2. destruct a as [[t2 c2] dead]. by rewrite (dead_twice _ _ _ _ _ _ _ _ E1 E2) in E.
Qed.

Lemma frame_s2a c c' : subproc2ascending c = Ok c' -> frame c c'.
Proof.
  unfold subproc2ascending. intros E. bind_inv E E1. destruct a as [[? ?] ?]. by injection E as <-.
Qed.

Lemma frame_d2s c c' : descending2subproc c = Ok c' -> frame c c'.
Proof. intros E. apply d2s_frame in E as (d & f & v & ->). by split. Qed.

Lemma frame_check (t : trace) c t' c' : channel_check_window t c = Ok (t', c') -> frame c c'.
Proof. intros E. apply check_window_inv in E as [[_ ->]|[_ ->]]; [done|by split]. Qed.

Lemma frame_post (t : trace) c t' c' : channel_post t c = Ok (t', Some c') -> frame c c'.
Proof.
  unfold channel_post. intros E. bind_inv E E1. destruct a as [t1 c1]. apply frame_garbage in E. etrans; [|exact E].
  destruct (isOpened (flg c)); [|by injection E1 as <- <-].
  bind_inv E1 E2. bind_inv E1 E3. apply frame_s2a in E2. apply frame_d2s in E3. apply frame_check in E1.
  etrans; [exact E2|]. by etrans.
Qed.

Lemma frame_waits c w c' : waits_for_data c = Ok (w, c') -> frame c c'.
Proof.
  unfold waits_for_data, check_ascending_chan_rbuf. destruct (_ && _); [|by intros [= <- <-]].
  intros E. bind_inv E E1. destruct a as [r a']. by injection E as <- <-.
Qed.

Lemma frame_pre (t : trace) c t' c' w : channel_pre t c = Ok (t', Some c', w) -> frame c c'.
Proof.
  unfold channel_pre. intros E. bind_inv E E1. destruct a as [w1 c1]. bind_inv E Ed. bind_inv E E2. destruct a0 as [t2 o].
  injection E as <- -> <-. apply frame_garbage in E2. apply frame_waits in E1. etrans; [exact E1|]. etrans; [|exact E2].
  by apply drain_output_inv in Ed as [->|(_ & f & _ & ->)].
Qed.

Lemma frame_data c d c' : chan_data c d = Ok c' -> frame c c'.
Proof.
  unfold chan_data, put_raw_data. destruct (negb _); [by intros [= <-]|].
  destruct (negb _); [by intros [= <-]|]. destruct (_ >? _); [by intros [= <-]|].
  intros E. bind_inv E E1. by injection E as <-.
Qed.

Lemma frame_oclose (t : trace) c t' c' : chan_oclose t c = Ok (t', c') -> frame c c'.
Proof.
  unfold chan_oclose. cbn [flg set_flg]. destruct (negb _); [by intros [= <- <-]|].
  destruct (outputStateIs _ _); (destruct (inputStateIs _ _); [by intros [= <- <-]|]);
    (destruct (inputStateIs _ _); [|by intros [= <- <-]]); intros E; bind_inv E E1; destruct a as [t1 c1];
    apply sendEOF_inv in E1 as [_ ->]; by injection E as <- <-.
Qed.

Lemma frame_ieof c c' : rcvd_ieof c = Ok c' -> frame c c'.
Proof. by intros [->|[_ [->|(f & _ & ->)]]]%rcvd_ieof_inv. Qed.

(** The operations of the loop and of the messages. *)
Definition loop_op (op : chan_op) : bool :=
  match op with
  | OpPoll | OpPost | OpPre | OpData _ | OpEof | OpClose | OpAdjust _ | OpTerminated => true
  | _ => false
  end.

Lemma run_op_frame (t : trace) c op t' c' : loop_op op = true -> run_op t c op = Ok (t', Some c') -> frame c c'.
Proof.
  destruct op; cbn [loop_op run_op]; intros Hop E; try discriminate Hop.
  - bind_inv E E1. destruct a as [t1 c1]. injection E as <- <-. by eapply frame_poll.
  - by eapply frame_post.
  - bind_inv E E1. destruct a as [[t1 o] w]. injection E as <- ->. by eapply frame_pre.
  - bind_inv E E1. injection E as <- <-. by eapply frame_data.
  - bind_inv E E1. injection E as <- <-. by eapply frame_ieof.
  - bind_inv E E1. destruct a as [t1 c1]. injection E as <- <-. by eapply frame_oclose.
  - by injection E as <- <-.
  - bind_inv E E1. destruct a as [t1 c1]. injection E as <- <-. unfold subproc_terminated_notify in E1. cbn in E1.
    by injection E1 as <- <-.
Qed.

(** ** The invariant *)

Section Invariant.
Context {CR : Crypto} {DG : Digest} {BN : BnLib} {DL : DhLib} {KL : KeyLib} {PF : Platform}.
Context {K : Type} {CN : Connection K} {KC : KexConnection K} {SC : ServerConnection K}.
(** The context that authentication left. *)
Variable x : Authctxt.

Abbreviation state := (server (K := K)).
Implicit Types (s : state) (c : chan) (id tid : Z).

Definition thread tid s : option Subsystem := get_object_by_id (sv_threads s) tid.

Definition allowed (u : User) : Prop := pw x = Some u /\ valid x <> 0.

(** The channel fits the thread behind it. *)
Definition kind_ok (k : subsystem_kind) c : Prop :=
  match k with
  | SFTP => is_sftp (c_base c) = true /\ c_connecting c = None
  | Shell => c_connecting c = None
  | TCPClient _ _ => is_sftp (c_base c) = false /\ c_connecting c <> None
  end.

Definition thread_state (t : Subsystem) : subsystem_state := if sub_ended t then Terminated else Running.

Record linked id c (t : Subsystem) : Prop := {
  lk_channel : sub_channel t = id;
  lk_user : sub_user t = c_user c;
  lk_state : subsystem (c_base c) = thread_state t;
  lk_kind : kind_ok (sub_kind t) c
}.

(** A channel without a thread has not been opened. *)
Definition larval c : Prop :=
  subsystem (c_base c) = NoSubsystem /\ isOpened (flg (c_base c)) = false /\ c_connecting c = None.

Definition chan_ok id c s : Prop :=
  match c_sub c with None => larval c | Some tid => exists t, thread tid s = Some t /\ linked id c t end.

Record Inv s : Prop := {
  inv_channels : repository_ok (sv_channels s);
  inv_threads : repository_ok (sv_threads s);
  inv_ctxt : sv_ctxt s = x;
  inv_user : forall id c, lookup_channel id s = Some c -> allowed (c_user c);
  inv_chan : forall id c, lookup_channel id s = Some c -> chan_ok id c s;
  inv_thread : forall tid t, thread tid s = Some t ->
    exists c, lookup_channel (sub_channel t) s = Some c /\ c_sub c = Some tid
}.

(** What is left of it when the connection ends by an exception. *)
Record Users s : Prop := {
  us_ctxt : sv_ctxt s = x;
  us_channel : forall id c, lookup_channel id s = Some c -> allowed (c_user c);
  us_thread : forall tid t, thread tid s = Some t -> allowed (sub_user t)
}.

Lemma inv_users s : Inv s -> Users s.
Proof.
  intros [? ? Hx Hu Hc Ht]. split; [done|done|]. intros tid t Hl. destruct (Ht tid t Hl) as (c & Hlc & Hs).
  specialize (Hc _ _ Hlc). unfold chan_ok in Hc. rewrite Hs in Hc. destruct Hc as (t' & Hl' & []).
  rewrite Hl in Hl'. injection Hl' as <-. rewrite lk_user0. by eapply Hu.
Qed.

(** *** What the connection does is not seen *)

Record view s s' : Prop := {
  vw_ctxt : sv_ctxt s' = sv_ctxt s;
  vw_channels : sv_channels s' = sv_channels s;
  vw_threads : sv_threads s' = sv_threads s
}.

#[global] Instance view_preorder : PreOrder view.
Proof. split; [by intros s|]. intros s1 s2 s3 [] []. split; congruence. Qed.

Lemma inv_view s s' : view s s' -> Inv s -> Inv s'.
Proof.
  destruct s, s'. intros [Hx Hc Ht] []. cbn in *. subst. by split.
Qed.

Lemma users_view s s' : view s s' -> Users s -> Users s'.
Proof. destruct s, s'. intros [Hx Hc Ht] []. cbn in *. subst. by split. Qed.

Lemma lookup_view id s s' : view s s' -> lookup_channel id s' = lookup_channel id s.
Proof. intros [_ Hc _]. unfold lookup_channel. by rewrite Hc. Qed.

Lemma wp_in_con {A} (m : SE K A) Q E s :
  (forall a s', view s s' -> Q a s') -> (forall e s', view s s' -> E e s') -> wp (in_con m) Q E s.
Proof. intros HQ HE. unfold in_con, wp, zoom. destruct (m _) as [[a|e] k]; [apply HQ|apply HE]; by split. Qed.

Lemma wp_in_kex {A} (m : SE (kexrun (K := K)) A) Q E s :
  (forall a s', view s s' -> Q a s') -> (forall e s', view s s' -> E e s') -> wp (in_kex m) Q E s.
Proof. intros HQ HE. unfold in_kex, wp, zoom. destruct (m _) as [[a|e] k]; [apply HQ|apply HE]; by split. Qed.

(** *** Updates of the two repositories *)

Lemma lookup_put id o s j : 1 <= id < zlen (sv_channels s) ->
  lookup_channel j (put_channel id o s) = if j =? id then o else lookup_channel j s.
Proof. intros Hid. unfold lookup_channel, put_channel. cbn. by apply get_put. Qed.

Lemma thread_put tid o s j : 1 <= tid < zlen (sv_threads s) ->
  thread j (put_thread tid o s) = if j =? tid then o else thread j s.
Proof. intros Hid. unfold thread, put_thread. cbn. by apply get_put. Qed.

Lemma lookup_range id c s : lookup_channel id s = Some c -> 1 <= id < zlen (sv_channels s).
Proof. apply get_object_range. Qed.
Lemma thread_range tid t s : thread tid s = Some t -> 1 <= tid < zlen (sv_threads s).
Proof. apply get_object_range. Qed.

(** A channel changes and keeps its thread, if it has one. *)
Lemma inv_put_same id c c' s : Inv s -> lookup_channel id s = Some c -> c_sub c' = c_sub c -> c_user c' = c_user c ->
  chan_ok id c' s -> Inv (put_channel id (Some c') s).
Proof.
  intros [Hr1 Hr2 Hx Hu Hc Ht] Hl Hs Hus Hok. pose proof (lookup_range _ _ _ Hl) as Hid.
  split; [apply put_ok; [done|lia]|done|done|..].
  - intros j d. rewrite lookup_put by done. destruct (j =? id); [|by apply Hu]. intros [= <-]. rewrite Hus. by eapply Hu.
  - intros j d. rewrite lookup_put by done. destruct (j =? id) eqn:Ej; [|by apply Hc]. zbool. subst j. by intros [= <-].
  - intros tid t Htt. destruct (Ht tid t Htt) as (d & Hd & Hsd). rewrite lookup_put by done.
    destruct (_ =? id) eqn:Ej; [|by eexists]. zbool. rewrite Ej, Hl in Hd. injection Hd as <-. eexists. split; [done|]. congruence.
Qed.

(** A channel without a thread is deleted. *)
Lemma inv_delete id c s : Inv s -> lookup_channel id s = Some c ->
  Inv (put_channel id None (match c_sub c with Some t => put_thread t None s | None => s end)).
Proof.
  intros [Hr1 Hr2 Hx Hu Hc Ht] Hl. pose proof (lookup_range _ _ _ Hl) as Hid.
  pose proof (Hc _ _ Hl) as Hok. unfold chan_ok in Hok.
  set (s1 := match c_sub c with Some t => put_thread t None s | None => s end).
  assert (sv_channels s1 = sv_channels s /\ sv_ctxt s1 = sv_ctxt s) as [Hch Hx1] by (unfold s1; by destruct (c_sub c)).
  assert (repository_ok (sv_threads s1)) as Hr2'.
  { unfold s1. destruct (c_sub c) as [tid|]; [|done]. destruct Hok as (t & Htt & _). apply put_ok; [done|].
    apply thread_range in Htt. lia. }
  assert (forall j d, lookup_channel j (put_channel id None s1) = Some d -> j <> id /\ lookup_channel j s = Some d) as Hlook.
  { intros j d. rewrite lookup_put by (rewrite Hch; done). destruct (j =? id) eqn:Ej; [done|]. zbool.
    unfold lookup_channel. rewrite Hch. done. }
  assert (forall j t, thread j s1 = Some t -> thread j s = Some t /\ c_sub c <> Some j) as Hth.
  { intros j t. unfold s1. destruct (c_sub c) as [tid|]; [|done]. destruct Hok as (t' & Htt & _).
    rewrite thread_put by (by eapply thread_range). destruct (j =? tid) eqn:Ej; [done|]. zbool. intros ?. split; [done|congruence]. }
  split.
  - apply put_ok; [by rewrite Hch|lia].
  - done.
  - by rewrite <- Hx.
  - intros j d Hj. apply Hlook in Hj as [_ Hj]. by eapply Hu.
  - intros j d Hj. apply Hlook in Hj as [Hne Hj]. pose proof (Hc _ _ Hj) as Hd. unfold chan_ok in *.
    destruct (c_sub d) as [td|] eqn:Esd; [|done]. destruct Hd as (t & Htd & Hlk). exists t. split; [|done].
    change (thread td (put_channel id None s1)) with (thread td s1). unfold s1. destruct (c_sub c) as [tid|]; [|done].
    destruct Hok as (t' & Htt & Hlk'). rewrite thread_put by (by eapply thread_range). destruct (td =? tid) eqn:Ej; [|done].
    zbool. subst td. rewrite Htd in Htt. injection Htt as <-. destruct Hlk, Hlk'. congruence.
  - intros tid t Htt. change (thread tid (put_channel id None s1)) with (thread tid s1) in Htt.
    apply Hth in Htt as [Htt Hne]. destruct (Ht tid t Htt) as (d & Hd & Hsd).
    exists d. split; [|done]. rewrite lookup_put by (rewrite Hch; done). destruct (_ =? id) eqn:Ej.
    + zbool. rewrite Ej, Hl in Hd. injection Hd as <-. done.
    + unfold lookup_channel. by rewrite Hch.
Qed.

(** A channel without a thread, or a free slot, gets a thread. *)
Lemma inv_attach id c' tid t s : Inv s -> 1 <= id < zlen (sv_channels s) ->
  (forall c, lookup_channel id s = Some c -> c_sub c = None) ->
  1 <= tid < zlen (sv_threads s) -> thread tid s = None ->
  c_sub c' = Some tid -> linked id c' t -> allowed (c_user c') ->
  Inv (put_channel id (Some c') (put_thread tid (Some t) s)).
Proof.
  intros [Hr1 Hr2 Hx Hu Hc Ht] Hid Hfree Htid Hn Hs Hlk Hal.
  assert (forall j, lookup_channel j (put_channel id (Some c') (put_thread tid (Some t) s)) =
    if j =? id then Some c' else lookup_channel j s) as Hlook by (intros j; by rewrite lookup_put).
  assert (forall j, thread j (put_channel id (Some c') (put_thread tid (Some t) s)) =
    if j =? tid then Some t else thread j s) as Hth by (intros j; by rewrite <- thread_put).
  split.
  - apply put_ok; [done|lia].
  - apply put_ok; [done|lia].
  - done.
  - intros j d. rewrite Hlook. destruct (j =? id); [by intros [= <-]|by apply Hu].
  - intros j d. rewrite Hlook. unfold chan_ok. destruct (j =? id) eqn:Ej; zbool.
    + subst j. intros [= <-]. rewrite Hs. exists t. split; [|done]. by rewrite Hth, Z.eqb_refl.
    + intros Hd. pose proof (Hc _ _ Hd) as Hok. unfold chan_ok in Hok. destruct (c_sub d) as [td|]; [|done].
      destruct Hok as (t' & Htd & Hld). exists t'. split; [|done]. rewrite Hth. destruct (td =? tid) eqn:E; [|done].
      zbool. subst td. congruence.
  - intros j t'. rewrite Hth. destruct (j =? tid) eqn:Ej; zbool.
    + subst j. intros [= <-]. exists c'. split; [|done]. rewrite Hlook, (lk_channel _ _ _ Hlk). by rewrite Z.eqb_refl.
    + intros Hj. destruct (Ht j t' Hj) as (d & Hd & Hsd). exists d. split; [|done]. rewrite Hlook.
      destruct (_ =? id) eqn:E; [|done]. zbool. rewrite E in Hd. by rewrite (Hfree _ Hd) in Hsd.
Qed.

Lemma inv_new id c' s : Inv s -> 1 <= id < zlen (sv_channels s) -> lookup_channel id s = None ->
  c_sub c' = None -> larval c' -> allowed (c_user c') -> Inv (put_channel id (Some c') s).
Proof.
  intros [Hr1 Hr2 Hx Hu Hc Ht] Hid Hn Hs Hlv Hal. split; [apply put_ok; [done|lia]|done|done|..].
  - intros j d. rewrite lookup_put by done. destruct (j =? id); [by intros [= <-]|by apply Hu].
  - intros j d. rewrite lookup_put by done. destruct (j =? id); [|by apply Hc]. intros [= <-]. unfold chan_ok. by rewrite Hs.
  - intros tid t Htt. destruct (Ht tid t Htt) as (d & Hd & Hsd). exists d. split; [|done]. rewrite lookup_put by done.
    destruct (_ =? id) eqn:E; [|done]. zbool. rewrite E in Hd. congruence.
Qed.

Lemma inv_claim_channel id r s : Inv s -> claim (sv_channels s) = (id, r) ->
  Inv (set_channels r s) /\ 1 <= id < zlen r /\ lookup_channel id (set_channels r s) = None.
Proof.
  intros [Hr1 Hr2 Hx Hu Hc Ht] E. destruct (claim_spec _ _ _ Hr1 E) as (Hok & Hid & Hn & Hg).
  assert (forall j, lookup_channel j (set_channels r s) = lookup_channel j s) as Hl by (intros j; apply Hg).
  split; [|split; [done|by rewrite Hl]]. split; [done|done|done|..].
  - intros j d. rewrite Hl. apply Hu.
  - intros j d. rewrite Hl. apply Hc.
  - intros tid t Htt. destruct (Ht tid t Htt) as (d & Hd & Hsd). exists d. by rewrite Hl.
Qed.

Lemma inv_claim_thread tid r s : Inv s -> claim (sv_threads s) = (tid, r) ->
  Inv (set_threads r s) /\ 1 <= tid < zlen r /\ thread tid (set_threads r s) = None.
Proof.
  intros [Hr1 Hr2 Hx Hu Hc Ht] E. destruct (claim_spec _ _ _ Hr2 E) as (Hok & Hid & Hn & Hg).
  assert (forall j, thread j (set_threads r s) = thread j s) as Hl by (intros j; apply Hg).
  split; [|split; [done|by rewrite Hl]]. split; [done|done|done|done|..].
  - intros j d Hd. specialize (Hc _ _ Hd). unfold chan_ok in *. destruct (c_sub d); [|done].
    destruct Hc as (t & Ht' & Hk). exists t. by rewrite Hl.
  - intros j t. rewrite Hl. apply Ht.
Qed.

(** *** Steps of a channel *)

Lemma wp_send_all t Q E s :
  (forall s', view s s' -> Q tt s') -> (forall e s', view s s' -> E e s') -> wp (send_all t) Q E s.
Proof.
  revert s. induction t as [|[type fs] t IH]; intros s HQ HE; [apply wp_ret; by apply HQ|].
  apply wp_bind, wp_in_con; [|done]. intros [] s1 H1. apply IH; intros; [apply HQ|apply HE]; by etrans.
Qed.

Lemma inv_store id c op t o s : Inv s -> lookup_channel id s = Some c -> loop_op op = true ->
  run_op [] (c_base c) op = Ok (t, o) ->
  Inv (store id c o s) /\ (forall b, o = Some b -> lookup_channel id (store id c o s) = Some (set_base b c)).
Proof.
  intros Hi Hl Hop E. destruct o as [b|]; [|split; [by apply inv_delete|done]].
  apply run_op_frame in E as [Hfs Hff Hfr Hfo]; [|done]. pose proof (inv_chan _ Hi _ _ Hl) as Hok. unfold chan_ok in Hok.
  assert (store id c (Some b) s = put_channel id (Some (set_base b c)) s) as ->.
  { unfold store. destruct (c_sub c) as [tid|]; [|by destruct (subsystem b)]. destruct Hok as (th & _ & []).
    rewrite Hfs, lk_state0. unfold thread_state. by destruct (sub_ended th). }
  split.
  - apply (inv_put_same id c); [done|done|done|done|]. unfold chan_ok. cbn [set_base c_sub].
    destruct (c_sub c) as [tid|].
    + destruct Hok as (th & Hth & [H1 H2 H3 H4]). exists th. split; [done|]. split; [done|done|cbn; congruence|].
      unfold kind_ok in *. cbn [set_base c_base c_connecting]. by rewrite Hff.
    + destruct Hok as (H1 & H2 & H3). split; [cbn; congruence|]. split; [cbn; congruence|done].
  - intros b' [= <-]. rewrite lookup_put by (by eapply lookup_range). by rewrite Z.eqb_refl.
Qed.

Lemma step_keeps id c op s : Inv s -> lookup_channel id s = Some c -> loop_op op = true ->
  wp (step_channel id c op)
    (fun left_ s' => Inv s' /\ (left_ = true -> exists b, lookup_channel id s' = Some (set_base b c)))
    (fun _ s' => Inv s') s.
Proof.
  intros Hi Hl Hop. unfold step_channel. apply wp_bind, wp_lift_res.
  destruct (run_op [] (c_base c) op) as [[t o]| |] eqn:E; [|done..].
  destruct (inv_store id c op t o s Hi Hl Hop E) as [Hi1 Hl1].
  apply wp_bind, wp_modify, wp_bind, wp_send_all; intros; [|by eapply inv_view].
  apply wp_ret. split; [by eapply inv_view|]. destruct o as [b|]; [|done]. intros _. exists b.
  rewrite (lookup_view id _ _ H). by apply Hl1.
Qed.

Lemma step_keeps_tt id c op s : Inv s -> lookup_channel id s = Some c -> loop_op op = true ->
  wp (step_channel id c op;; mret tt) (fun _ => Inv) (fun _ => Inv) s.
Proof. intros. apply wp_bind. eapply wp_mono; [by apply step_keeps|..|done]. by intros ? s' []. Qed.

(** *** Threads *)

Lemma wp_create_subthread kind ch u (Q : Z -> state -> Prop) (E : exn -> state -> Prop) s : Inv s ->
  (forall tid s1, Inv s1 -> sv_channels s1 = sv_channels s -> 1 <= tid < zlen (sv_threads s1) -> thread tid s1 = None ->
    Q tid (put_thread tid (Some (mkSubsystem kind ch u false)) s1)) ->
  (forall s1, Inv s1 -> E SException s1) -> wp (create_subthread kind ch u) Q E s.
Proof.
  intros Hi HQ HE. unfold create_subthread. apply wp_bind, wp_gets, wp_bind, wp_modify.
  assert (Hi0 : Inv (set_started (S (sv_started s)) s)) by (by apply (inv_view s); [split|]).
  set (s0 := set_started _ s) in *. apply wp_bind, wp_gets.
  destruct (claim (sv_threads s0)) as [tid r] eqn:Ec. destruct (inv_claim_thread tid r s0 Hi0 Ec) as (Hi1 & Hr & Hn).
  apply wp_bind, wp_modify. destruct (thread_creates _); [|by apply wp_throw, HE].
  apply wp_bind, wp_modify, wp_ret. by apply HQ.
Qed.

Lemma wp_start_thread (Q : unit -> state -> Prop) (E : exn -> state -> Prop) s :
  Q tt s -> E SException s -> wp start_thread Q E s.
Proof. intros HQ HE. apply wp_bind, wp_gets. by destruct (thread_starts _). Qed.

Lemma open_eq (c : chan) : exists t b, run_op [] (c_base c) OpOpen = Ok (t, Some b) /\
  subsystem b = subsystem (c_base c) /\ is_sftp b = is_sftp (c_base c).
Proof. by eexists _, _. Qed.

(** A channel with its thread opens. *)
Lemma open_keeps id c tid s : Inv s -> lookup_channel id s = Some c -> c_sub c = Some tid ->
  wp (step_channel id c OpOpen) (fun _ => Inv) (fun _ => Inv) s.
Proof.
  intros Hi Hl Hs. unfold step_channel. apply wp_bind, wp_lift_res.
  destruct (open_eq c) as (t & b & -> & Hb & Hf). apply wp_bind, wp_modify.
  pose proof (inv_chan _ Hi _ _ Hl) as Hok. unfold chan_ok in Hok. rewrite Hs in Hok. destruct Hok as (th & Hth & [H1 H2 H3 H4]).
  assert (Inv (store id c (Some b) s)) as Hi1.
  { unfold store. rewrite Hs, Hb, H3.
    replace (match thread_state th with NoSubsystem => _ | _ => _ end)
      with (put_channel id (Some (set_base b c)) s) by (unfold thread_state; by destruct (sub_ended th)).
    apply (inv_put_same id c); [done..|]. unfold chan_ok. cbn [set_base c_sub]. rewrite Hs. exists th. split; [done|].
    split; [done|done|cbn; congruence|]. unfold kind_ok in *. cbn [set_base c_base c_connecting]. by rewrite Hf. }
  apply wp_bind, wp_send_all; intros; [apply wp_ret|]; by eapply inv_view.
Qed.

(** A new thread for the channel, which opens. *)
Lemma attach_keeps id c kind s : Inv s -> lookup_channel id s = Some c -> c_sub c = None -> larval c ->
  kind_ok kind c ->
  wp (tid ← create_subthread kind id (c_user c);
      let c := set_running (set_sub (Some tid) c) in
      modify (put_channel id (Some c));; start_thread;; step_channel id c OpOpen)
    (fun _ => Inv) (fun _ => Inv) s.
Proof.
  intros Hi Hl Hs Hlv Hk. pose proof (inv_user _ Hi _ _ Hl) as Hu. apply wp_bind, wp_create_subthread; [done| |done].
  intros tid s1 Hi1 Hch Hr Hn. apply wp_bind, wp_modify. set (c' := set_running _).
  assert (lookup_channel id s1 = Some c) as Hl1 by (unfold lookup_channel in *; by rewrite Hch).
  pose proof (lookup_range _ _ _ Hl1) as Hid.
  assert (Inv (put_channel id (Some c') (put_thread tid (Some (mkSubsystem kind id (c_user c) false)) s1))) as Hi2.
  { apply inv_attach; [done|done|intros d Hd; congruence|done|done|done| |done]. split; [done|done|done|]. unfold kind_ok in *. by destruct kind. }
  apply wp_bind, wp_start_thread; [|done]. apply (open_keeps id c' tid); [done| |done].
  rewrite lookup_put by done. by rewrite Z.eqb_refl.
Qed.

Lemma start_keeps id c name s : Inv s -> lookup_channel id s = Some c -> c_connecting c = None ->
  wp (start_subsystem id c name) (fun _ => Inv) (fun _ => Inv) s.
Proof.
  intros Hi Hl Hcon. unfold start_subsystem. pose proof (inv_chan _ Hi _ _ Hl) as Hok. unfold chan_ok in Hok.
  destruct (c_sub c) as [tid|] eqn:Hs; [by apply wp_throw|].
  set (sftp := bool_decide _). set (c1 := if sftp then to_sftp c else c).
  assert (c_sub c1 = None /\ c_user c1 = c_user c /\ larval c1 /\ c_connecting c1 = None) as (Hs1 & Hu1 & Hlv1 & Hcon1)
    by (unfold c1; by destruct sftp).
  apply wp_bind, wp_modify. set (s1 := put_channel id (Some c1) s).
  assert (Inv s1) as Hi1 by (apply (inv_put_same id c); [done|done|congruence|done|]; unfold chan_ok; by rewrite Hs1).
  assert (lookup_channel id s1 = Some c1) as Hl1 by (unfold s1; rewrite lookup_put by (by eapply lookup_range); by rewrite Z.eqb_refl).
  destruct name as [name|].
  - destruct sftp eqn:Esf.
    + apply attach_keeps; [done|done|done|done|]. by split.
    + apply wp_bind, wp_bind, wp_gets. destruct (claim (sv_threads s1)) as [tid r] eqn:Ec.
      destruct (inv_claim_thread tid r s1 Hi1 Ec) as (Hi2 & _ & _). apply wp_bind, wp_modify. by apply wp_throw.
  - by apply attach_keeps.
Qed.

(** *** Requests *)

Lemma keeps_put_lookup id c s s' : Inv s -> lookup_channel id s = Some c -> view s s' ->
  Inv s' /\ lookup_channel id s' = Some c.
Proof. intros Hi Hl Hv. split; [by eapply inv_view|]. by rewrite (lookup_view id _ _ Hv). Qed.

Lemma request_keeps id c rtype s : Inv s -> lookup_channel id s = Some c -> c_connecting c = None ->
  wp (process_request id c rtype) (fun _ => Inv) (fun _ => Inv) s.
Proof.
  intros Hi Hl Hcon. unfold process_request. destruct (bool_decide _).
  { apply wp_bind, wp_in_con; [|intros; by eapply inv_view]. intros p s1 Hv.
    destruct (keeps_put_lookup id c s s1 Hi Hl Hv) as [Hi1 Hl1]. destruct (pty_creates p); [|by apply wp_throw].
    apply wp_bind, wp_modify, wp_ret. apply (inv_put_same id c); [done..|]. pose proof (inv_chan _ Hi1 _ _ Hl1) as Hok.
    unfold chan_ok in *. cbn [add_pty c_sub]. destruct (c_sub c); [|done]. destruct Hok as (t & Ht & []). exists t. by repeat split. }
  destruct (bool_decide _); [by apply start_keeps|]. destruct (bool_decide _); [|by apply wp_throw].
  apply wp_bind, wp_in_con; [|intros; by eapply inv_view]. intros name s1 Hv1. apply wp_bind, wp_in_con.
  - intros [] s2 Hv2. destruct (keeps_put_lookup id c s s2 Hi Hl ltac:(by etrans)). by apply start_keeps.
  - intros e s2 Hv2. eapply inv_view, Hi. by etrans.
Qed.

Lemma input_request_keeps id c rtype reply s : Inv s -> lookup_channel id s = Some c ->
  wp (input_channel_req id c rtype reply) (fun _ => Inv) (fun _ => Inv) s.
Proof.
  intros Hi Hl. unfold input_channel_req. destruct (c_connecting c) eqn:Hcon; [by apply wp_throw|].
  apply wp_bind. eapply (wp_mono _ (fun _ => Inv) _ (fun _ => Inv)); [|..|done].
  - destruct (isOpened _); [by apply wp_ret|]. apply wp_try. eapply wp_mono; [by apply request_keeps|done|].
    intros e s1 Hi1. by destruct (is_SException e).
  - intros p s1 Hi1. destruct (reply =? 0); [by apply wp_ret|]. apply wp_in_con; intros; by eapply inv_view.
Qed.

(** *** Opening *)

(** Only the user who authenticated gets a channel. *)
Lemma wp_session_user (Q : User -> state -> Prop) (E : exn -> state -> Prop) s : Inv s ->
  (forall u, allowed u -> Q u s) -> E ShuttingDown s -> wp session_user Q E s.
Proof.
  intros Hi HQ HE. unfold session_user. apply wp_bind, wp_gets. rewrite (inv_ctxt _ Hi).
  destruct (pw x) as [u|] eqn:Ep; [|by apply wp_throw]. destruct (valid x =? 0) eqn:Ev; [by apply wp_throw|]. zbool.
  apply wp_ret, HQ. by split.
Qed.

Lemma create_keeps p s : Inv s ->
  wp (create_channel p)
    (fun o s' => Inv s' /\ match o with Some (id, c) => lookup_channel id s' = Some c | None => True end)
    (fun _ => Users) s.
Proof.
  intros Hi. unfold create_channel. apply wp_bind, wp_gets. destruct (claim (sv_channels s)) as [id r] eqn:Ec.
  destruct (inv_claim_channel id r s Hi Ec) as (Hi1 & Hid & Hn). apply wp_bind, wp_modify.
  set (s1 := set_channels r s) in *. pose proof (inv_users _ Hi1).
  destruct (bool_decide _); [|destruct (bool_decide _); [|by apply wp_ret]].
  - apply wp_bind, wp_session_user; [done| |done]. intros u Hu. apply wp_bind, wp_modify, wp_ret.
    split; [by apply inv_new|]. rewrite lookup_put by done. by rewrite Z.eqb_refl.
  - apply wp_bind, wp_session_user; [done| |done]. intros u Hu. destruct (negb _); [by apply wp_throw|].
    apply wp_bind, wp_create_subthread; [done| |intros; by apply inv_users].
    intros tid s2 Hi2 Hch Htid Hnt. pose proof (inv_users _ Hi2) as [Hx2 Hu2 Ht2]. apply wp_bind, wp_start_thread.
    + apply wp_bind, wp_modify, wp_ret. set (c := set_running _).
      assert (1 <= id < zlen (sv_channels s2)) as Hid2 by (by rewrite Hch).
      split; [|cbn; rewrite lookup_put by done; by rewrite Z.eqb_refl].
      apply inv_attach; try done. intros d Hd. unfold lookup_channel in *. rewrite Hch in Hd. congruence.
    + split; [done|done|]. intros j t. rewrite thread_put by done. destruct (j =? tid); [|by apply Ht2].
      by intros [= <-].
Qed.

Lemma open_msg_keeps s : Inv s -> wp server_input_channel_open (fun _ => Inv) (fun _ => Users) s.
Proof.
  intros Hi. unfold server_input_channel_open. apply wp_bind, wp_in_con.
  2:{ intros e s1 Hv. eapply users_view, inv_users; done. }
  intros p s1 Hv. apply wp_bind. eapply wp_mono; [apply create_keeps; by eapply inv_view|..|done].
  intros [[id c]|] s2 [Hi2 Hl2].
  - destruct (c_connecting c); [by apply wp_ret|]. apply wp_in_con; intros; [by eapply inv_view|].
    by eapply users_view, inv_users.
  - apply wp_bind, wp_gets, wp_in_con; intros; [by eapply inv_view|]. by eapply users_view, inv_users.
Qed.

(** *** All messages *)

Definition kept {A} (m : SE state A) : Prop := forall s, Inv s -> wp m (fun _ => Inv) (fun _ => Users) s.

Lemma kept_strong {A} (m : SE state A) : (forall s, Inv s -> wp m (fun _ => Inv) (fun _ => Inv) s) -> kept m.
Proof. intros Hm s Hs. eapply wp_mono; [by apply Hm|done|]. intros. by apply inv_users. Qed.

Lemma kept_ret {A} (a : A) : kept (mret a).
Proof. intros s Hs. by apply wp_ret. Qed.
Lemma kept_gets {A} (f : state -> A) : kept (gets f).
Proof. intros s Hs. by apply wp_gets. Qed.
Lemma kept_con {A} (m : SE K A) : kept (in_con m).
Proof. apply kept_strong. intros s Hs. apply wp_in_con; intros; by eapply inv_view. Qed.
Lemma kept_kex {A} (m : SE kexrun A) : kept (in_kex m).
Proof. apply kept_strong. intros s Hs. apply wp_in_kex; intros; by eapply inv_view. Qed.
Lemma kept_bind {A B} (m : SE state A) (f : A -> SE state B) : kept m -> (forall a, kept (f a)) -> kept (m ≫= f).
Proof. intros Hm Hf s Hs. apply wp_bind. eapply wp_mono; [by apply Hm| |done]. intros a s1 H1. by apply Hf. Qed.

Lemma kept_channel id text (f : chan -> SE state unit) :
  (forall c s, Inv s -> lookup_channel id s = Some c -> wp (f c) (fun _ => Inv) (fun _ => Inv) s) ->
  kept (with_channel id text f).
Proof.
  intros Hf s Hs. apply wp_bind, wp_gets. destruct (lookup_channel id s) as [c|] eqn:Hl; [|by apply kept_con].
  eapply wp_mono; [by apply Hf|done|]. intros. by apply inv_users.
Qed.

Create HintDb kept.
#[local] Hint Resolve kept_ret kept_gets kept_con kept_kex : kept.

Lemma data_kept : kept channel_input_data.
Proof.
  unfold channel_input_data. apply kept_bind; [auto with kept|]. intros id. apply kept_channel. intros c s Hi Hl.
  destruct (negb _); [by apply wp_ret|]. apply wp_bind, wp_in_con; [|intros; by eapply inv_view].
  intros data s1 Hv. destruct (keeps_put_lookup id c s s1 Hi Hl Hv) as [Hi1 Hl1].
  apply wp_bind. eapply wp_mono; [by apply step_keeps|..|done]. intros left_ s2 [Hi2 _].
  destruct (_ && _); [|by apply wp_ret]. apply wp_in_con; intros; by eapply inv_view.
Qed.

Lemma adjust_kept : kept channel_input_window_adjust.
Proof.
  unfold channel_input_window_adjust. apply kept_bind; [auto with kept|]. intros id. apply kept_strong. intros s Hi.
  apply wp_bind, wp_gets. destruct (lookup_channel id s) as [c|] eqn:Hl; [|by apply wp_ret].
  apply wp_bind, wp_in_con; [|intros; by eapply inv_view]. intros a s1 Hv1. apply wp_bind, wp_in_con.
  - intros [] s2 Hv2. destruct (keeps_put_lookup id c s s2 Hi Hl ltac:(by etrans)). by apply step_keeps_tt.
  - intros e s2 Hv2. eapply inv_view, Hi. by etrans.
Qed.

Lemma virt_kept host_keys f type seq : kept (server_virt host_keys f type seq).
Proof.
  destruct f; cbn [server_virt]; auto with kept.
  - unfold channel_input_oclose. apply kept_bind; [auto with kept|intros id]. apply kept_bind; [auto with kept|intros _].
    apply kept_channel. intros. by apply step_keeps_tt.
  - apply data_kept.
  - unfold channel_input_eof. apply kept_bind; [auto with kept|intros id]. apply kept_bind; [auto with kept|intros _].
    apply kept_channel. intros. by apply step_keeps_tt.
  - intros s Hs. by apply open_msg_keeps.
  - unfold server_input_channel_req. do 3 (apply kept_bind; [auto with kept|intros ?]). apply kept_channel.
    intros. by apply input_request_keeps.
  - apply adjust_kept.
  - unfold server_input_global_request. repeat (apply kept_bind; [auto with kept|intros ?]).
    destruct (_ =? 0); [auto with kept|]. apply kept_bind; auto with kept.
Qed.

Lemma dispatch_kept host_keys fuel : kept (server_dispatch_run host_keys fuel).
Proof.
  unfold server_dispatch_run. induction fuel as [|fuel IH]; cbn [dispatch_run].
  { intros s Hs. apply wp_throw. by apply inv_users. }
  apply kept_bind; [apply kept_con|]. intros [type seq]. destruct (type =? _); [auto with kept|].
  apply kept_bind; [|intros _; apply kept_bind; [auto with kept|intros []; [auto with kept|exact IH]]].
  unfold dispatch_one. apply kept_bind; [auto with kept|]. intros t. apply virt_kept.
Qed.

(** *** The loop *)

Lemma kept_for_ids (f : Z -> chan -> SE state unit) :
  (forall id c s, Inv s -> lookup_channel id s = Some c -> wp (f id c) (fun _ => Inv) (fun _ => Users) s) ->
  forall ids, kept (for_ids ids f).
Proof.
  intros Hf ids. induction ids as [|id ids IH]; cbn [for_ids]; [apply kept_ret|]. intros s Hs.
  apply wp_bind, wp_gets, wp_bind. eapply (wp_mono _ (fun _ => Inv) _ (fun _ => Users)); [|intros [] s1 H1; by apply IH|done].
  destruct (lookup_channel id s) as [c|] eqn:Hl; [by apply Hf|by apply wp_ret].
Qed.

Lemma step_ends id c op s : Inv s -> lookup_channel id s = Some c -> loop_op op = true ->
  wp (step_channel id c op;; mret tt) (fun _ => Inv) (fun _ => Users) s.
Proof. intros. eapply wp_mono; [by apply step_keeps_tt|done|]. intros. by apply inv_users. Qed.

Lemma poll_kept : kept all_channels_output_poll.
Proof. apply kept_bind; [apply kept_gets|]. intros n. apply kept_for_ids. intros. by apply step_ends. Qed.

Lemma post_kept : kept all_channel_post.
Proof.
  apply kept_bind; [apply kept_gets|]. intros n. apply kept_for_ids. intros id c s Hi Hl. unfold post_one.
  apply wp_bind. eapply wp_mono; [by apply step_keeps|..|intros; by apply inv_users].
  intros left_ s1 [Hi1 Hb]. destruct (c_connecting c) as [con|] eqn:Hcon; [|by apply wp_ret].
  destruct left_; cbn [negb]; [|by apply wp_throw, inv_users]. destruct con; [|by apply wp_ret].
  destruct (Hb eq_refl) as (b & Hl1). apply wp_bind, wp_gets. rewrite Hl1. apply wp_bind, wp_in_con.
  2:{ intros. by eapply users_view, inv_users. }
  intros [] s2 Hv. destruct (keeps_put_lookup _ _ _ _ Hi1 Hl1 Hv) as [Hi2 Hl2]. apply wp_modify.
  apply (inv_put_same id (set_base b c)); [done..|]. pose proof (inv_chan _ Hi2 _ _ Hl2) as Hok.
  unfold chan_ok in *. cbn [set_connecting set_base c_sub] in *. destruct (c_sub c).
  - destruct Hok as (t & Ht & [H1 H2 H3 H4]). exists t. split; [done|]. split; [done|done|done|].
    unfold kind_ok in *. cbn in *. rewrite Hcon in H4. destruct (sub_kind t); naive_solver.
  - destruct Hok as (_ & _ & Hc). cbn in Hc. congruence.
Qed.

Lemma fill_kept : forall ids room, kept (fill_events ids room).
Proof.
  induction ids as [|id ids IH]; intros room; cbn [fill_events]; [apply kept_ret|]. intros s Hs.
  apply wp_bind, wp_gets. destruct (lookup_channel id s) as [c|] eqn:Hl; [|by apply IH].
  destruct room as [|room]; [by apply wp_ret|]. apply wp_bind, wp_lift_res.
  destruct (waits_for_data _) as [[w c']| |]; [|by apply inv_users..].
  apply wp_bind. eapply wp_mono; [by apply step_keeps|..|intros; by apply inv_users]. intros left_ s1 [Hi1 _].
  apply wp_bind. eapply wp_mono; [by apply IH|..|done]. intros rest s2 Hi2. by apply wp_ret.
Qed.

(** Taking and giving a message changes the queues of the channel only. *)
Lemma thread_acts_io e c : match e with ThTake _ | ThPut _ _ => True | _ => False end ->
  exists f t, thread_acts e c = set_base (set_io (c_base c) f t (subsystem (c_base c))) c.
Proof.
  assert (c = set_base (set_io (c_base c) (fromChannel (c_base c)) (toChannel (c_base c)) (subsystem (c_base c))) c) as H
    by (destruct c as [[] ]; done).
  destruct e; intros He; try done; cbn [thread_acts].
  - destruct (sub_take _) as [[? b]| |] eqn:E; [|by eexists _, _..]. apply sub_take_inv in E as (f & -> & _). by eexists _, _.
  - destruct (ReadBuffer.put _ _) as [t| |]; [by eexists _, _|by eexists _, _..].
Qed.

Lemma thread_step_inv e s : Inv s -> Inv (thread_step e s).
Proof.
  intros Hi. unfold thread_step. destruct (get_object_by_id _ _) as [t|] eqn:Ht; [|done].
  destruct (may_act e t) eqn:Hm; [|done]. set (tid := thread_of e) in *.
  destruct (inv_thread _ Hi _ _ Ht) as (c & Hl & Hs). change (lookup_channel (sub_channel t) (put_thread tid (Some (end_thread e t)) s))
    with (lookup_channel (sub_channel t) s). rewrite Hl.
  pose proof (inv_chan _ Hi _ _ Hl) as Hok. unfold chan_ok in Hok. rewrite Hs in Hok. destruct Hok as (t' & Ht' & [H1 H2 H3 H4]).
  unfold thread in Ht'. rewrite Ht in Ht'. injection Ht' as <-.
  assert (sub_ended t = false) as He by (unfold may_act in Hm; by destruct (sub_ended t)).
  destruct Hi as [Hr1 Hr2 Hx Hu Hc Hth]. pose proof (thread_range _ _ _ Ht) as Htid. pose proof (lookup_range _ _ _ Hl) as Hid.
  set (c' := thread_acts e c).
  assert (c_sub c' = c_sub c /\ c_user c' = c_user c /\ kind_ok (sub_kind t) c') as (Hs' & Hu' & Hk').
  { assert (match e with ThTake _ | ThPut _ _ => True | _ => False end \/ match e with ThTake _ | ThPut _ _ => False | _ => True end) as [Hio|Hio]
      by (destruct e; auto).
    - destruct (thread_acts_io e c Hio) as (f & r & E). unfold c'. rewrite E. by unfold kind_ok in *; destruct (sub_kind t).
    - unfold c', kind_ok, thread_acts, tcp_open, set_io in *. destruct e; cbn; repeat split; done. }
  set (s2 := put_channel _ _ _).
  assert (forall j, lookup_channel j s2 = if j =? sub_channel t then Some c' else lookup_channel j s) as Hlook
    by (intros j; unfold s2; by rewrite lookup_put).
  assert (forall j, thread j s2 = if j =? tid then Some (end_thread e t) else thread j s) as Hthr
    by (intros j; unfold s2; by rewrite <- thread_put).
  split.
  - apply put_ok; [done|lia].
  - apply put_ok; [done|lia].
  - done.
  - intros j d. rewrite Hlook. destruct (j =? _); [|by apply Hu]. intros [= <-]. rewrite Hu'. by eapply Hu.
  - intros j d. rewrite Hlook. unfold chan_ok. destruct (j =? _) eqn:Ej; zbool.
    + subst j. intros [= <-]. rewrite Hs', Hs. exists (end_thread e t). split; [by rewrite Hthr, Z.eqb_refl|].
      split; [by destruct e|rewrite Hu'; by destruct e| |by destruct e].
      unfold thread_state in *. rewrite He in *.
      destruct e as [tk|tk m| |]; [destruct (thread_acts_io (ThTake tk) c I) as (f & r & E)|
        destruct (thread_acts_io (ThPut tk m) c I) as (f & r & E)|..];
        unfold c', end_thread in *; rewrite ?E; cbn; rewrite ?He; done.
    + intros Hd. pose proof (Hc _ _ Hd) as Hok. unfold chan_ok in Hok. destruct (c_sub d) as [td|]; [|done].
      destruct Hok as (t' & Htd & Hld). exists t'. split; [|done]. rewrite Hthr. destruct (td =? tid) eqn:E; [|done].
      zbool. subst td. unfold thread in Htd. rewrite Ht in Htd. injection Htd as <-. by destruct Hld.
  - intros j t'. rewrite Hthr. destruct (j =? tid) eqn:Ej; zbool.
    + subst j. intros [= <-]. exists c'. rewrite Hs'. split; [|done]. rewrite Hlook. destruct e; by rewrite Z.eqb_refl.
    + intros Hj. destruct (Hth j t' Hj) as (d & Hd & Hsd). rewrite Hlook. destruct (_ =? sub_channel t) eqn:E; [|by eexists].
      zbool. rewrite E, Hl in Hd. injection Hd as <-. congruence.
Qed.

(** The channel of a thread is there: [Subsystem::get_channel] finds it. *)
Lemma exit_kept : forall tids, kept (send_exit tids).
Proof.
  induction tids as [|tid tids IH]; cbn [send_exit]; [apply kept_ret|]. intros s Hs. apply wp_bind, wp_gets, wp_bind.
  eapply (wp_mono _ (fun _ => Inv) _ (fun _ => Users)); [|intros [] s1 H1; by apply IH|done].
  destruct (get_object_by_id _ tid) as [t|] eqn:Ht; [|by apply wp_ret].
  destruct (inv_thread _ Hs _ _ Ht) as (c & Hl & _). apply wp_bind, wp_gets. rewrite Hl. by apply step_ends.
Qed.

Lemma threads_inv es s : Inv s -> Inv (foldl (fun s e => thread_step e s) s es).
Proof. revert s. induction es as [|e es IH]; intros s Hs; [done|]. cbn. by apply IH, thread_step_inv. Qed.

Lemma rekey_kept : kept rekey_if_needed.
Proof. apply kept_bind; [apply kept_gets|]. intros []; [apply kept_kex|apply kept_ret]. Qed.

Lemma kept_if {A} (b : bool) (m1 m2 : SE state A) : kept m1 -> kept m2 -> kept (if b then m1 else m2).
Proof. by destruct b. Qed.

#[local] Hint Resolve kept_if dispatch_kept poll_kept post_kept fill_kept exit_kept rekey_kept : kept.

Lemma turn_kept host_keys fuel t : kept (loop_turn host_keys fuel t).
Proof.
  unfold loop_turn. apply kept_bind; [auto with kept|intros _]. apply kept_bind; [auto with kept|intros rekeying].
  apply kept_bind; [auto with kept|intros _]. apply kept_bind; [|intros _].
  { apply kept_if; [auto with kept|]. apply kept_bind; [|auto with kept]. apply kept_bind; auto with kept. }
  apply kept_bind; [|intros _].
  { intros s Hs. apply wp_modify. by apply threads_inv. }
  apply kept_if; [auto with kept|]. apply kept_bind; [|intros _].
  { apply kept_if; [|auto with kept]. apply kept_bind; [auto with kept|]. intros; auto with kept. }
  apply kept_bind; [|intros _].
  { apply kept_if; [auto with kept|]. apply kept_bind; auto with kept. }
  repeat (apply kept_bind; [auto with kept|intros ?]). apply kept_if; [auto with kept|].
  apply kept_bind; auto with kept.
Qed.

Lemma loop_kept host_keys fuel : forall turns, kept (server_loop host_keys fuel turns).
Proof.
  induction turns as [|t turns IH]; cbn [server_loop]; [apply kept_ret|].
  apply kept_bind; [apply turn_kept|]. intros []; [apply kept_ret|exact IH].
Qed.

End Invariant.
