(* ===== verification/SshConnection.v ===== *)
(** * SshConnection: a connection from its first byte to its last

    [CoreConnection::run]: identification ([SshIdent]), key exchange ([SshKexServer]),
    authentication ([SshAuth]) and the session ([SshSession]), one behind the other on
    one connection.  The theorem: whatever the network and the client do, a channel or
    a thread of a connection belongs to a user whose password the database had.

    The second half follows single messages of the session on a script of messages:
    what opening a channel and each request answer, and places where the code
    does not do what it means to. *)

From S2P Require Import Prelude SshBuffer CxxMonad SshCipher SshPacket SshTransport SshKex SshCompat SshDh SshKey SshQueue.
From S2P Require Import SshChannel SshChannelProps SshDispatch SshAuth SshAuthProps SshSocket SshKexServer SshKexProps.
From S2P Require Import SshLogin SshKexRun SshIdent SshSession SshSessionProps.

(** ** The run *)

Class Identifies (K : Type) := { con_ident : SE K (list Z * list Z) }.

Section Run.
Context {CR : Crypto} {DG : Digest} {BN : BnLib} {DL : DhLib} {KL : KeyLib} {PF : Platform}.
Context {K : Type} {CN : Connection K} {KC : KexConnection K} {SC : ServerConnection K} {ID : Identifies K}.
Context {db : UserDb} {nr : NoReturn}.

Definition set_versions (vs vc : list Z) (r : kexrun (K := K)) : kexrun :=
  mkRun (kr_con r) (kr_kex r) (kr_draws r) (myproposal r) vc vs (session_id2 r).

Definition set_ctxt (c : Authctxt) (s : server (K := K)) : server :=
  mkServer (sv_kex s) c (sv_channels s) (sv_threads s) (sv_started s).

(** [do_authentication2] on the connection, with the context the constructor made. *)
Definition authenticate (fuel : nat) : SE (server (K := K)) unit := fun s =>
  let '(r, a) := do_authentication2 fuel (auth_start (con_of s)) in
  (r, set_ctxt (ctxt a) (put_con (con a) s)).

Definition connection_run (host_keys : list (option Key)) (fuel : nat) (turns : list turn) :
    SE (server (K := K)) unit :=
  '(vs, vc) ← in_con con_ident;
  in_kex (modify (set_versions vs vc));;
  in_kex (do_ssh2_kex host_keys fuel);;
  authenticate fuel;;
  server_loop host_keys fuel turns.

(** A connection as it is made. *)
Record fresh (s : server (K := K)) : Prop := {
  fr_ctxt : sv_ctxt s = authctxt_init;
  fr_channels : sv_channels s = repository_init;
  fr_threads : sv_threads s = repository_init
}.

(** ** Who gets in, on any connection *)

(** The user is the one the context names, and the database had a password of it. *)
Definition entitled (x : Authctxt) : Prop := success x = true /\
  exists u pass n, pw x = Some u /\ user x = Some (userName u) /\ valid x <> 0 /\
    pass <> [] /\ password_matches n (userName u) pass.

Record ctxt_ok (x : Authctxt) : Prop := {
  co_name : forall u, pw x = Some u -> user x = Some (userName u);
  co_valid : valid x <> 0 -> is_Some (pw x);
  co_first : attempt x <= 0 -> valid x = 0;
  co_attempt : 0 <= attempt x
}.

(** A part of a handler that keeps the context in order and does not set [success]. *)
Definition modest {A} (m : SshAuth.M (K := K) A) : Prop := forall s, ctxt_ok (ctxt s) -> success (ctxt s) = false ->
  wp m (fun _ s' => ctxt_ok (ctxt s') /\ success (ctxt s') = false) (fun _ _ => True) s.

Lemma modest_bind {A B} (m : SshAuth.M A) (f : A -> SshAuth.M B) : modest m -> (forall a, modest (f a)) -> modest (m ≫= f).
Proof.
  intros Hm Hf s Hs Hn. apply wp_bind. eapply wp_mono; [by apply Hm| |done]. intros a s1 [H1 H2]. by apply Hf.
Qed.
Lemma modest_ret {A} (a : A) : modest (mret a).
Proof. intros s Hs Hn. by apply wp_ret. Qed.
Lemma modest_throw {A} e : modest (A := A) (throw e).
Proof. intros s Hs Hn. by apply wp_throw. Qed.
Lemma modest_gets {A} (f : session K -> A) : modest (gets f).
Proof. intros s Hs Hn. by apply wp_gets. Qed.
Lemma modest_con {A} (m : SE K A) : modest (SshAuth.on_con m).
Proof. intros s Hs Hn. unfold SshAuth.on_con, wp, zoom. by destruct (m (con s)) as [[a|e] k]. Qed.
Lemma modest_modify f : (forall s, ctxt_ok (ctxt s) -> ctxt_ok (ctxt (f s)) /\ success (ctxt (f s)) = success (ctxt s)) ->
  modest (modify f).
Proof. intros Hf s Hs Hn. apply wp_modify. destruct (Hf s Hs) as [? He]. by rewrite He. Qed.
Lemma modest_if {A} (b : bool) (m1 m2 : SshAuth.M A) : modest m1 -> modest m2 -> modest (if b then m1 else m2).
Proof. by destruct b. Qed.
Lemma modest_res {A} (r : res A) : modest (lift_res r).
Proof. destruct r; [apply modest_ret|apply modest_throw..]. Qed.

Create HintDb modest.
#[local] Hint Resolve modest_ret modest_throw modest_gets modest_con modest_if modest_res : modest.

Ltac modest :=
  repeat first
  [ solve [auto with modest nocore]
  | apply modest_bind; [|intros ?]
  | apply modest_if
  | apply modest_modify; intros ? []; split; [by split|done] ].

Lemma modest_first u sv st ro : modest (first_or_same u sv st ro).
Proof.
  intros s Hs Hn. unfold first_or_same. apply wp_bind, wp_gets, wp_bind, wp_modify. set (s1 := SshAuth.set_ctxt _ s).
  assert (ctxt_ok (ctxt s1)) as H1 by (destruct Hs; split; cbn; [done|done|lia|lia]).
  destruct (attempt (ctxt s) =? 0) eqn:Ea; zbool.
  - apply wp_bind. destruct (find_allowed_eq u s1) as (p & Ef & _ & Hu). unfold wp at 1. rewrite Ef.
    apply wp_bind, wp_modify. set (s2 := SshAuth.set_ctxt _ _).
    assert (ctxt_ok (ctxt s2) /\ success (ctxt s2) = false) as [H2 Hn2]; [|by apply modest_if; auto with modest].
    destruct Hs as [_ _ H0 _]. split; [|done]. split; cbn.
    + intros v Hv. by rewrite (Hu v Hv).
    + destruct p; [done|]. cbn. rewrite H0 by lia. done.
    + lia.
    + lia.
  - apply modest_if; auto with modest.
Qed.

(** What the method says about the user. *)
Lemma call_method_sound m (s : session K) :
  wp (call_method m)
    (fun a s' => ctxt s' = ctxt s /\ (a <> 0 -> exists pass n, pass <> [] /\
       password_matches n (default [] (user (ctxt s))) pass /\ valid (ctxt s) <> 0))
    (fun _ _ => True) s.
Proof.
  assert (forall {A} (c : SE K A) (s : session K) Q, (forall a s', ctxt s' = ctxt s -> Q a s') ->
    wp (SshAuth.on_con c) Q (fun _ _ => True) s) as Hcon.
  { intros A c s0 Q HQ. unfold SshAuth.on_con, wp, zoom. destruct (c (con s0)) as [[a|e] k]; [by apply HQ|done]. }
  destruct m; cbn [call_method].
  - unfold userauth_none. apply wp_bind, wp_modify, wp_bind, Hcon. intros [] s1 H1. by apply wp_ret.
  - unfold userauth_passwd. apply wp_bind, Hcon. intros ch s1 H1. apply wp_bind, Hcon. intros p s2 H2. apply wp_bind.
    eapply (wp_mono _ (fun _ s' => ctxt s' = ctxt s) _ (fun _ _ => True)); [| |done].
    { destruct (negb _); [apply Hcon; intros; congruence|apply wp_ret; congruence]. }
    intros _ s3 H3. apply wp_bind, Hcon. intros [] s4 H4. destruct (negb _); [apply wp_ret; split; [congruence|done]|].
    apply wp_bind. destruct (decide (c_str p = [])) as [Hp|Hp].
    { rewrite Hp. apply wp_bind, wp_gets, wp_ret, wp_ret. split; [congruence|done]. }
    unfold wp at 1. rewrite auth_password_eq by done. destruct (users_at (queries s4)) as [users|] eqn:Eu; [|done].
    apply wp_ret. split; [cbn; congruence|]. intros Ha. exists (c_str p), (queries s4). split; [done|].
    destruct (bool_decide _) eqn:Em; [|done]. apply bool_decide_eq_true in Em.
    destruct (negb (valid (ctxt s4) =? 0)) eqn:Ev; [|by rewrite andb_false_r in Ha]. apply negb_true_iff in Ev. zbool.
    split; congruence.
Qed.

Definition in_order (s : session K) : Prop :=
  ctxt_ok (ctxt s) /\ (success (ctxt s) = true -> entitled (ctxt s)).

Lemma modest_in_order {A} (m : SshAuth.M (K := K) A) s : modest m -> ctxt_ok (ctxt s) -> success (ctxt s) = false ->
  wp m (fun _ => in_order) (fun _ _ => True) s.
Proof. intros Hm Hs Hn. eapply wp_mono; [by apply Hm| |done]. intros a s' [H1 H2]. split; [done|]. by rewrite H2. Qed.

(** The end of a request: success is set only when the method said so. *)
Lemma finish_sound a meth (s : session K) : ctxt_ok (ctxt s) -> success (ctxt s) = false ->
  (a <> 0 -> exists pass n, pass <> [] /\ password_matches n (default [] (user (ctxt s))) pass /\ valid (ctxt s) <> 0) ->
  wp (userauth_finish a meth) (fun _ => in_order) (fun _ _ => True) s.
Proof.
  intros Hs Hn Ha. unfold userauth_finish. apply wp_bind, wp_gets. destruct (_ && _); [by apply wp_throw|].
  destruct (negb _); [by apply wp_ret; split; [|rewrite Hn]|]. destruct (a =? 1) eqn:Ea; zbool.
  - subst a. destruct (Ha ltac:(done)) as (pass & n & Hp & Hm & Hv). destruct (co_valid _ Hs Hv) as [u Hu].
    pose proof (co_name _ Hs u Hu) as Hname. rewrite Hname in Hm.
    assert (forall {A} (c : SE K A) (s1 : session K) Q, ctxt s1 = ctxt s ->
      (forall b s2, ctxt s2 = ctxt s -> Q b s2) -> wp (SshAuth.on_con c) Q (fun _ _ => True) s1) as Hcon.
    { intros A c s1 Q H1 HQ. unfold SshAuth.on_con, wp, zoom. destruct (c (con s1)) as [[b|e] k]; [by apply HQ|done]. }
    apply wp_bind, wp_modify, wp_bind, Hcon; [done|]. intros [] s1 H1. apply wp_bind, Hcon; [done|]. intros [] s2 H2.
    apply wp_modify. unfold in_order. cbn [SshAuth.set_ctxt ctxt]. rewrite H2. destruct Hs. split; [by split|].
    intros _. split; [done|]. by exists u, pass, n.
  - apply modest_in_order; [|done..]. unfold authmethods_get. modest.
Qed.

Lemma request_sound (s : session K) : ctxt_ok (ctxt s) -> success (ctxt s) = false ->
  wp input_userauth_request (fun _ => in_order) (fun _ _ => True) s.
Proof.
  intros Hs Hn. unfold input_userauth_request. do 3 (apply wp_bind; eapply wp_mono; [by apply modest_con| |done];
    clear s Hs Hn; intros ? s [Hs Hn]).
  destruct (split_user _) as [[u st] ro]. apply wp_bind. eapply wp_mono; [by apply modest_first| |done].
  intros [] s1 [H1 Hn1]. apply wp_bind, wp_modify. set (s2 := SshAuth.set_ctxt _ s1).
  assert (ctxt_ok (ctxt s2)) as H2 by (destruct H1; by split). apply wp_bind, wp_gets, wp_bind.
  destruct (lookup_method _ _ s2) as [m|].
  - eapply wp_mono; [apply call_method_sound| |done]. intros auth s3 [H3 Ha]. apply finish_sound; by rewrite H3.
  - apply wp_ret. by apply finish_sound.
Qed.

Lemma auth_entitled fuel : forall s : session K, ctxt_ok (ctxt s) -> success (ctxt s) = false ->
  wp (do_authentication2 fuel) (fun _ s' => entitled (ctxt s')) (fun _ _ => True) s.
Proof.
  unfold do_authentication2. induction fuel as [|fuel IH]; intros s Hs Hn; cbn [dispatch_run]; [by apply wp_throw|].
  apply wp_bind. eapply wp_mono; [by apply modest_con| |done]. clear s Hs Hn. intros [type seq] s [Hs Hn].
  apply wp_bind. eapply (wp_mono _ (fun _ => in_order) _ (fun _ _ => True)); [| |done].
  - unfold dispatch_one. apply wp_bind, wp_gets. destruct (dispatch_get _ _); cbn [auth_virt];
      try (by apply modest_in_order; auto with modest).
    + apply modest_in_order; [|done..]. unfold input_service_request, enable_userauth_request_msg. modest.
    + by apply request_sound.
  - intros [] s1 [H1 He]. apply wp_bind, wp_gets. destruct (success (ctxt s1)) eqn:E; [apply wp_ret; by apply He|by apply IH].
Qed.

(** ** The whole connection *)

Lemma wp_authenticate fuel (s : server (K := K)) : fresh s ->
  wp (authenticate fuel)
    (fun _ s' => entitled (sv_ctxt s') /\ sv_channels s' = repository_init /\ sv_threads s' = repository_init)
    (fun _ s' => sv_channels s' = repository_init /\ sv_threads s' = repository_init) s.
Proof.
  intros [Hx Hc Ht]. unfold authenticate, wp. pose proof (auth_entitled fuel (auth_start (con_of s))) as H. unfold wp in H.
  destruct (do_authentication2 fuel _) as [[a|e] s1]; [|done]. split; [|done]. apply H; [|done]. by split.
Qed.

Lemma empty_lookup id (s : server (K := K)) : sv_channels s = repository_init -> lookup_channel id s = None.
Proof. unfold lookup_channel. intros ->. unfold repository_init. rewrite get_object_cons. destruct (_ <? _); [done|]. by destruct (Z.to_nat _). Qed.

Lemma empty_thread tid (s : server (K := K)) : sv_threads s = repository_init -> thread tid s = None.
Proof. unfold thread. intros ->. unfold repository_init. rewrite get_object_cons. destruct (_ <? _); [done|]. by destruct (Z.to_nat _). Qed.

Lemma empty_inv (s : server (K := K)) : sv_channels s = repository_init -> sv_threads s = repository_init ->
  Inv (sv_ctxt s) s.
Proof.
  intros Hc Ht. split; [rewrite Hc; by eexists|rewrite Ht; by eexists|done|..].
  - intros id c. by rewrite empty_lookup.
  - intros id c. by rewrite empty_lookup.
  - intros tid t. by rewrite empty_thread.
Qed.

(** A user whom the database knew with a password. *)
Definition let_in (x : Authctxt) (u : User) : Prop := success x = true /\ pw x = Some u /\
  exists pass n, pass <> [] /\ password_matches n (userName u) pass.

Lemma allowed_let_in x u : entitled x -> allowed x u -> let_in x u.
Proof.
  intros (Hs & v & pass & n & Hp & _ & _ & Hne & Hm) [Hu _]. rewrite Hu in Hp. injection Hp as <-.
  split; [done|]. split; [done|]. by exists pass, n.
Qed.

Definition only_let_in (s : server (K := K)) : Prop :=
  (forall id c, lookup_channel id s = Some c -> let_in (sv_ctxt s) (c_user c)) /\
  (forall tid t, thread tid s = Some t -> let_in (sv_ctxt s) (sub_user t)).

Lemma empty_only (s : server (K := K)) : sv_channels s = repository_init -> sv_threads s = repository_init -> only_let_in s.
Proof. intros Hc Ht. split; intros ? ?; [by rewrite empty_lookup|by rewrite empty_thread]. Qed.

Lemma users_only x (s : server (K := K)) : entitled x -> Users x s -> only_let_in s.
Proof. intros Hx [He Hc Ht]. rewrite <- He in *. split; intros; apply allowed_let_in; eauto. Qed.

(** C1: Nobody gets a channel or a thread without a password.  Take any connection (any
    socket, any client, any host keys), any answers of the database and of the
    operating system, and any number of turns of the loop.  Wherever the connection
    stands when it stops, each of its channels and each of its threads belongs to the
    user of its authentication, which succeeded, and the database held that user with
    a non-empty password.  If it stops without an exception, channels and threads also
    fit together: a thread has its channel, an open channel has its thread, of the
    kind that was asked for. *)
Theorem connection_sound host_keys fuel turns s : fresh s ->
  match connection_run host_keys fuel turns s with
  | (Ret _, s') => only_let_in s' /\ Inv (sv_ctxt s') s'
  | (Throw _, s') => only_let_in s'
  end.
Proof.
  intros Hf. enough (wp (connection_run host_keys fuel turns)
    (fun _ s' => only_let_in s' /\ Inv (sv_ctxt s') s') (fun _ => only_let_in) s) as H.
  { unfold wp in H. by destruct (connection_run _ _ _ s) as [[a|e] s']. }
  assert (forall s' : server (K := K), view s s' -> fresh s') as Hv by (intros s' [? ? ?]; destruct Hf; split; congruence).
  assert (forall s' : server (K := K), view s s' -> only_let_in s') as Ho by (intros s' Hs'; destruct (Hv s' Hs'); by apply empty_only).
  unfold connection_run. apply wp_bind, wp_in_con; [|intros; by apply Ho]. intros [vs vc] s1 H1.
  apply wp_bind, wp_in_kex; [|intros; apply Ho; by etrans]. intros [] s2 H2.
  apply wp_bind, wp_in_kex; [|intros; apply Ho; etrans; [|done]; by etrans]. intros [] s3 H3.
  apply wp_bind. eapply wp_mono; [apply wp_authenticate, Hv|..].
  - etrans; [|done]. by etrans.
  - intros [] s4 (He & Hc & Ht). eapply wp_mono; [apply (loop_kept (sv_ctxt s4))|..].
    + by apply empty_inv.
    + intros [] s5 Hi. split; [eapply users_only; [exact He|by apply inv_users]|]. by rewrite (inv_ctxt _ _ Hi).
    + intros e s5 Hu. by eapply users_only.
  - intros e s4 [Hc Ht]. by apply empty_only.
Qed.

End Run.

(** ** Connections *)

Section OnSocket.
Context {CR : Crypto} {DG : Digest} {ZL : Zlib} {RN : Random} {BN : BnLib} {SF : Scanf}.

#[export] Instance net_server : ServerConnection net := {
  con_need_rekeying s := packet_need_rekeying (pkt s);
  con_input := process_input;
  con_closed := connection_closed;
  con_output := process_output
}.

Definition set_peer_flags (f : Z) (c : conn) : conn :=
  mkConn (din c) (dout c) (input c) (output c) (outgoing_packet c) (incoming_packet c) (outgoing c)
    (compression_buffer c) (compression_buffer_ready c) (outgoing_stream c) (incoming_stream c)
    (rekey_limit c) (extra_pad c) (after_authentication c) f
    (keep_alive_timeouts c) (poll2_packet_length c) (send2_rekeying c) (rand_used c).

#[export] Instance net_identifies : Identifies net := {
  con_ident := zoom (fun s => mkIdent (sock s) (datafellows (pkt s)))
    (fun i s => set_sock (id_sock i) (set_pkt (set_peer_flags (id_flags i) (pkt s)) s))
    sshd_exchange_identification
}.

End OnSocket.

Section OnScript.
Context {CR : Crypto}.

(** All messages of a script are there at once; it never closes. *)
#[export] Instance kscript_server : ServerConnection kscript := {
  con_need_rekeying _ := false;
  con_input _ _ := mret tt;
  con_closed _ := false;
  con_output := mret tt
}.

#[export] Instance kscript_identifies : Identifies kscript := {
  con_ident := mret (chop get_protocol_version_exchange_string, str "SSH-2.0-client")
}.

End OnScript.

(** ** Requests and their answers *)

Section Answers.
Context {CR : Crypto} {DG : Digest} {BN : BnLib} {DL : DhLib} {KL : KeyLib} {PF : Platform}.
Variable x : Authctxt.

Abbreviation state := (server (K := kscript)).
Implicit Types s : state.

Definition out s : list (Z * list field) := sent (ks_con (con_of s)).

(** The messages that do not answer a request. *)
Definition quiet (m : Z * list field) : Prop := m.1 <> SSH2_MSG_CHANNEL_SUCCESS /\ m.1 <> SSH2_MSG_CHANNEL_FAILURE.

Definition adds (P : Z * list field -> Prop) s s' : Prop := exists l, out s' = out s ++ l /\ Forall P l.

#[local] Instance adds_preorder P : PreOrder (adds P).
Proof.
  split; [by exists []; rewrite app_nil_r|]. intros s1 s2 s3 (l1 & H1 & F1) (l2 & H2 & F2).
  exists (l1 ++ l2). rewrite H2, H1, (assoc_L (++)). split; [done|]. by apply Forall_app.
Qed.

(** A computation that sends only such messages. *)
Definition still {A} (m : SE state A) : Prop := forall s, wp m (fun _ => adds quiet s) (fun _ => adds quiet s) s.

Lemma still_ret {A} (a : A) : still (mret a).
Proof. intros s. by apply wp_ret. Qed.
Lemma still_throw {A} e : still (A := A) (throw e).
Proof. intros s. by apply wp_throw. Qed.
Lemma still_gets {A} (f : state -> A) : still (gets f).
Proof. intros s. by apply wp_gets. Qed.
Lemma still_modify f : (forall s, out (f s) = out s) -> still (modify f).
Proof. intros Hf s. apply wp_modify. exists []. by rewrite Hf, app_nil_r. Qed.
Lemma still_bind {A B} (m : SE state A) (f : A -> SE state B) : still m -> (forall a, still (f a)) -> still (m ≫= f).
Proof.
  intros Hm Hf s. apply wp_bind. eapply wp_mono; [apply Hm| |done]. intros a s1 H1.
  eapply wp_mono; [apply Hf|..]; intros ? s2 H2; exact (transitivity H1 H2).
Qed.
Lemma still_if {A} (b : bool) (m1 m2 : SE state A) : still m1 -> still m2 -> still (if b then m1 else m2).
Proof. by destruct b. Qed.
Lemma still_res {A} (r : res A) : still (lift_res r).
Proof. destruct r; [apply still_ret|apply still_throw..]. Qed.

Lemma still_send type fs : quiet (type, fs) -> still (in_con (con_send type fs)).
Proof. intros Hq s. unfold in_con, wp, zoom. cbn. exists [(type, fs)]. split; [done|]. by apply Forall_singleton. Qed.

(** Parts of the connection that leave what was sent alone, or add a DISCONNECT. *)
Definition still_con {A} (m : SE kscript A) : Prop := forall k, exists l,
  sent (ks_con (m k).2) = sent (ks_con k) ++ l /\ Forall quiet l.

Lemma still_in_con {A} (m : SE kscript A) : still_con m -> still (in_con m).
Proof.
  intros Hm s. unfold in_con, wp, zoom. destruct (Hm (con_of s)) as (l & Hl & Hq).
  destruct (m (con_of s)) as [[a|e] k]; by exists l.
Qed.

Lemma still_con_bind {A B} (m : SE kscript A) (f : A -> SE kscript B) :
  still_con m -> (forall a, still_con (f a)) -> still_con (m ≫= f).
Proof.
  intros Hm Hf k. destruct (Hm k) as (l & Hl & Hq). unfold mbind, SE_bind. destruct (m k) as [[a|e] k1]; cbn in *.
  - destruct (Hf a k1) as (l' & Hl' & Hq'). exists (l ++ l'). rewrite Hl', Hl, (assoc_L (++)). split; [done|]. by apply Forall_app.
  - by exists l.
Qed.

Lemma still_con_ret {A} (a : A) : still_con (mret a).
Proof. intros k. exists []. by rewrite app_nil_r. Qed.
Lemma still_con_reading {A} (m : SE Buffer A) : still_con (reading m).
Proof. intros k. exists []. rewrite app_nil_r. split; [|done]. unfold reading, zoom.
  cbn. by destruct (m _) as [[a|e] b]. Qed.
Lemma still_con_eom : still_con packet_check_eom.
Proof.
  intros k. unfold packet_check_eom, disconnect, mbind, SE_bind, gets. destruct (_ >? 0).
  2:{ exists []. by rewrite app_nil_r. }
  destruct (disconnecting k); cbn.
  - exists []. by rewrite app_nil_r.
  - eexists [_]. split; [done|]. by apply Forall_singleton.
Qed.

Create HintDb still.
#[local] Hint Resolve still_ret still_throw still_gets still_if still_res still_in_con still_con_ret
  still_con_reading still_con_eom : still.

Lemma still_text : still_con (reading get_text).
Proof. auto with still. Qed.

Lemma still_pty : still_con read_pty.
Proof. unfold read_pty. repeat (apply still_con_bind; [auto with still|intros ?]). auto with still. Qed.

Lemma still_thread kind ch u : still (create_subthread kind ch u).
Proof.
  unfold create_subthread. apply still_bind; [auto with still|intros n]. apply still_bind; [by apply still_modify|intros _].
  apply still_bind; [auto with still|intros [tid r]]. apply still_bind; [by apply still_modify|intros _].
  apply still_if; [|auto with still]. apply still_bind; [by apply still_modify|auto with still].
Qed.

Lemma out_store id c o s : out (store id c o s) = out s.
Proof. unfold store. destruct o as [b|]; [destruct (subsystem b)|]; by destruct (c_sub c). Qed.

Definition packet s : Buffer := incoming (con_of s).

Lemma packet_store id c o s : packet (store id c o s) = packet s.
Proof. unfold store. destruct o as [b|]; [destruct (subsystem b)|]; by destruct (c_sub c). Qed.

(** The channel after [open]. *)
Definition opened (c : chan) : chan :=
  let b := c_base c in
  set_base (set_flg (SshChannel.set_win b (mkWin (remote_window (win b)) (remote_maxpacket (win b)) WindowDefaultSize
    WindowDefaultSize (local_consumed (win b)) (local_maxpacket (win b)))) (set_opened (flg b))) c.

Lemma step_open_eq id c s : subsystem (c_base c) = Running ->
  exists s', step_channel id c OpOpen s = (Ret true, s') /\ view (put_channel id (Some (opened c)) s) s' /\
    out s' = out s ++ [(SSH2_MSG_CHANNEL_WINDOW_ADJUST, [FInt (remote_id (c_base c)); FInt WindowDefaultSize])] /\
    packet s' = packet s.
Proof.
  intros Hr. eexists. split; [|split; [|split]].
  - unfold step_channel, mbind at 1, SE_bind at 1. cbn [run_op open send_msg trace_out mbind res_bind lift_res].
    unfold mret, SE_ret at 1. unfold mbind, SE_bind, modify. cbn. reflexivity.
  - unfold store. cbn [subsystem set_flg set_win]. rewrite Hr. by destruct (c_sub c).
  - rewrite <- (out_store id c (Some (c_base (opened c))) s). reflexivity.
  - rewrite <- (packet_store id c (Some (c_base (opened c))) s). reflexivity.
Qed.

Lemma still_open id c : subsystem (c_base c) = Running -> still (step_channel id c OpOpen).
Proof.
  intros Hr s. destruct (step_open_eq id c s Hr) as (s' & E & _ & Ho & _). unfold wp. rewrite E. eexists. split; [exact Ho|].
  by apply Forall_singleton.
Qed.

Lemma still_start id c name : still (start_subsystem id c name).
Proof.
  unfold start_subsystem. destruct (c_sub c); [auto with still|]. apply still_bind; [by apply still_modify|intros _].
  apply still_bind.
  - destruct name; [|apply still_thread]. apply still_if; [apply still_thread|].
    apply still_bind; [auto with still|intros [tid r]]. apply still_bind; [by apply still_modify|auto with still].
  - intros tid. apply still_bind; [by apply still_modify|intros _]. apply still_bind; [|intros _; by apply still_open].
    apply still_bind; auto with still.
Qed.

Lemma still_request id c rtype : still (process_request id c rtype).
Proof.
  unfold process_request. apply still_if.
  { apply still_bind; [apply still_in_con, still_pty|intros p]. apply still_if; [|auto with still].
    apply still_bind; [by apply still_modify|auto with still]. }
  apply still_if; [apply still_start|]. apply still_if; [|auto with still].
  apply still_bind; [auto with still|intros name]. apply still_bind; [auto with still|intros _]. apply still_start.
Qed.

(** *** Only exceptions that the handler catches *)

Definition tame {A} (m : SE state A) : Prop := forall s, queue_ok (packet s) ->
  wp m (fun _ s' => queue_ok (packet s')) (fun e _ => is_SException e = true) s.

Lemma tame_ret {A} (a : A) : tame (mret a).
Proof. intros s Hs. by apply wp_ret. Qed.
Lemma tame_throw {A} e : is_SException e = true -> tame (A := A) (throw e).
Proof. intros He s Hs. by apply wp_throw. Qed.
Lemma tame_gets {A} (f : state -> A) : tame (gets f).
Proof. intros s Hs. by apply wp_gets. Qed.
Lemma tame_modify f : (forall s, packet (f s) = packet s) -> tame (modify f).
Proof. intros Hf s Hs. apply wp_modify. by rewrite Hf. Qed.
Lemma tame_bind {A B} (m : SE state A) (f : A -> SE state B) : tame m -> (forall a, tame (f a)) -> tame (m ≫= f).
Proof. intros Hm Hf s Hs. apply wp_bind. eapply wp_mono; [by apply Hm| |done]. intros a s1 H1. by apply Hf. Qed.
Lemma tame_if {A} (b : bool) (m1 m2 : SE state A) : tame m1 -> tame m2 -> tame (if b then m1 else m2).
Proof. by destruct b. Qed.

Definition tame_con {A} (m : SE kscript A) : Prop := forall k, queue_ok (incoming k) ->
  wp m (fun _ k' => queue_ok (incoming k')) (fun e _ => e = ShuttingDown) k.

Lemma tame_in_con {A} (m : SE kscript A) : tame_con m -> tame (in_con m).
Proof.
  intros Hm s Hs. apply wp_zoom. eapply wp_mono; [by apply Hm|done|]. intros e k ->. done.
Qed.
Lemma tame_con_bind {A B} (m : SE kscript A) (f : A -> SE kscript B) :
  tame_con m -> (forall a, tame_con (f a)) -> tame_con (m ≫= f).
Proof. intros Hm Hf s Hs. apply wp_bind. eapply wp_mono; [by apply Hm| |done]. intros a s1 H1. by apply Hf. Qed.
Lemma tame_con_ret {A} (a : A) : tame_con (mret a).
Proof. intros s Hs. by apply wp_ret. Qed.
Lemma tame_reading {A} n (m : SE Buffer A) : getter n m -> tame_con (reading m).
Proof.
  intros Hm k Hk. apply wp_zoom. eapply wp_mono; [by apply Hm|..].
  - intros a b []. done.
  - by intros e b [-> _].
Qed.
Lemma tame_eom : tame_con packet_check_eom.
Proof.
  intros k Hk. unfold packet_check_eom. apply wp_bind, wp_gets. destruct (_ >? 0); [|by apply wp_ret].
  unfold disconnect. apply wp_bind, wp_gets. by destruct (disconnecting k).
Qed.

Lemma getter_text : getter 0 get_text.
Proof. unfold get_text. eapply getter_seq; [|apply getter_string|]; [lia|]. intros. apply getter_ret. Qed.

Lemma getter_modes : forall fuel n b, queue_ok b -> (length (contents b) < fuel)%nat ->
  wp (parse_modes fuel n) (fun _ b' => drained 0 b b') (fun e b' => e = ShuttingDown /\ drained 0 b b') b.
Proof.
  induction fuel as [|fuel IH]; intros n b Hb Hf; [lia|]. cbn [parse_modes]. apply wp_bind.
  eapply wp_mono; [by apply getter_char|..|done]. intros op b1 H1. pose proof H1 as [Hok1 Hl1 _ _].
  destruct (has_argument op); [|apply wp_ret; by eapply drained_le, H1].
  apply wp_bind. eapply wp_mono; [by apply getter_int|..].
  - intros a b2 H2. pose proof H2 as [Hok2 Hl2 _ _]. eapply wp_mono; [apply IH; [done|unfold zlen in *; lia]|..]; cbn.
    + intros _ b3 H3. eapply drained_le, drained_trans; [|exact H1|eapply drained_trans; [exact H2|exact H3]]. lia.
    + intros e b3 [-> H3]. split; [done|]. eapply drained_le, drained_trans; [|exact H1|eapply drained_trans; [exact H2|exact H3]]. lia.
  - intros e b2 [-> H2]. split; [done|]. eapply drained_le, drained_trans; [|exact H1|exact H2]. lia.
Qed.

Lemma getter_tty : getter 0 tty_parse_modes.
Proof.
  unfold tty_parse_modes. eapply getter_seq; [|apply getter_int|]; [lia|]. intros n. destruct (n =? 0); [apply getter_ret|].
  intros b Hb. apply wp_bind, wp_gets. apply getter_modes; [done|lia].
Qed.

Create HintDb tame.
#[local] Hint Resolve tame_ret tame_gets tame_if tame_in_con tame_con_ret tame_eom getter_char getter_int getter_text
  getter_tty : tame.
#[local] Hint Extern 2 (tame_con (reading _)) => eapply tame_reading : tame.
#[local] Hint Extern 1 (tame (throw _)) => by apply tame_throw : tame.

Lemma tame_thread kind ch u : tame (create_subthread kind ch u).
Proof.
  unfold create_subthread. apply tame_bind; [auto with tame|intros n]. apply tame_bind; [by apply tame_modify|intros _].
  apply tame_bind; [auto with tame|intros [tid r]]. apply tame_bind; [by apply tame_modify|intros _].
  apply tame_if; [|auto with tame]. apply tame_bind; [by apply tame_modify|auto with tame].
Qed.

Lemma tame_start id c name : tame (start_subsystem id c name).
Proof.
  unfold start_subsystem. destruct (c_sub c); [auto with tame|]. apply tame_bind; [by apply tame_modify|intros _].
  apply tame_bind.
  - destruct name; [|apply tame_thread]. apply tame_if; [apply tame_thread|].
    apply tame_bind; [auto with tame|intros [tid r]]. apply tame_bind; [by apply tame_modify|auto with tame].
  - intros tid. apply tame_bind; [by apply tame_modify|intros _]. apply tame_bind; [apply tame_bind; auto with tame|intros _].
    intros s Hs. destruct (step_open_eq id (set_running (set_sub (Some tid) (if bool_decide (name = Some (str "sftp")) then to_sftp c else c))) s eq_refl)
      as (s' & E & _ & _ & Hp). unfold wp. rewrite E. by rewrite Hp.
Qed.

Lemma tame_request id c rtype : tame (process_request id c rtype).
Proof.
  unfold process_request. apply tame_if.
  { apply tame_bind; [apply tame_in_con; unfold read_pty; repeat (apply tame_con_bind; [auto with tame|intros ?]); auto with tame|].
    intros p. apply tame_if; [|auto with tame]. apply tame_bind; [by apply tame_modify|auto with tame]. }
  apply tame_if; [apply tame_start|]. apply tame_if; [|auto with tame].
  apply tame_bind; [auto with tame|intros name]. apply tame_bind; [auto with tame|intros _]. apply tame_start.
Qed.

(** *** What a request is granted *)

(** The channel is open, and a thread of that kind runs behind it for its user. *)
Definition started id (c : chan) (kind : subsystem_kind) s : Prop := exists tid,
  lookup_channel id s = Some (opened (set_running (set_sub (Some tid) (if kind is SFTP then to_sftp c else c)))) /\
  get_object_by_id (sv_threads s) tid = Some (mkSubsystem kind id (c_user c) false).

Definition granted id (c : chan) (rtype : list Z) s : Prop :=
  (rtype = str "pty-req" /\ exists p, pty_creates p = true /\ lookup_channel id s = Some (add_pty p c)) \/
  (rtype = str "shell" /\ started id c Shell s) \/
  (rtype = str "subsystem" /\ started id c SFTP s).

Lemma granted_view id c rtype s s' : view s s' -> granted id c rtype s -> granted id c rtype s'.
Proof.
  intros Hv. unfold granted, started. rewrite (lookup_view _ _ _ Hv). by destruct Hv as [_ _ ->].
Qed.

Lemma attach_grants id c kind s : Inv x s -> 1 <= id < zlen (sv_channels s) ->
  wp (tid ← create_subthread kind id (c_user c);
      let c := set_running (set_sub (Some tid) c) in
      modify (put_channel id (Some c));;
      start_thread;;
      step_channel id c OpOpen)
    (fun r s' => r = true /\ exists tid, lookup_channel id s' = Some (opened (set_running (set_sub (Some tid) c))) /\
       get_object_by_id (sv_threads s') tid = Some (mkSubsystem kind id (c_user c) false)) (fun _ _ => True) s.
Proof.
  intros Hi Hid. apply wp_bind. apply (wp_create_subthread x); [done| |done]. intros tid s1 Hi1 Hc1 Ht1 Hn.
  cbv zeta. apply wp_bind, wp_modify, wp_bind, wp_start_thread; [|done].
  set (c' := set_running _). match goal with |- wp _ _ _ ?s2 => destruct (step_open_eq id c' s2 eq_refl) as (s' & E & Hv & _) end.
  unfold wp. rewrite E. split; [done|]. exists tid. rewrite (lookup_view _ _ _ Hv).
  assert (1 <= id < zlen (sv_channels s1)) as Hid1 by (by rewrite Hc1). split.
  - rewrite !lookup_put by (cbn; by rewrite ?put_length). by rewrite Z.eqb_refl.
  - destruct Hv as [_ _ ->]. cbn. rewrite get_put by done. by rewrite Z.eqb_refl.
Qed.

Lemma start_grants id c name s : Inv x s -> lookup_channel id s = Some c -> c_connecting c = None ->
  wp (start_subsystem id c name)
    (fun r s' => r = true /\ match name with
       | None => started id c Shell s'
       | Some n => n = str "sftp" /\ started id c SFTP s'
       end) (fun _ _ => True) s.
Proof.
  intros Hi Hl Hc. unfold start_subsystem. pose proof (inv_chan _ _ Hi _ _ Hl) as Hok. unfold chan_ok in Hok.
  destruct (c_sub c) eqn:Hs; [done|]. pose proof (lookup_range _ _ _ Hl) as Hid. cbv zeta. apply wp_bind, wp_modify.
  destruct name as [n|].
  - destruct (bool_decide _) eqn:En; [apply bool_decide_eq_true in En; injection En as ->|].
    + eapply wp_mono; [apply attach_grants|..|done].
      * eapply inv_put_same; [done|exact Hl|done|done|]. unfold chan_ok. cbn. by rewrite Hs.
      * cbn. by rewrite put_length.
      * intros r s' [-> H]. by split.
    + apply wp_bind, wp_bind, wp_gets. destruct (claim _) as [? r]. by apply wp_bind, wp_modify, wp_throw.
  - rewrite bool_decide_false by done. eapply wp_mono; [apply attach_grants|..|done].
    + eapply inv_put_same; [done|exact Hl|done|done|]. unfold chan_ok. by rewrite Hs.
    + cbn. by rewrite put_length.
    + intros r s' [-> H]. by split.
Qed.

Lemma request_grants id c rtype s : Inv x s -> lookup_channel id s = Some c -> c_connecting c = None ->
  wp (process_request id c rtype) (fun r s' => r = true /\ granted id c rtype s') (fun _ _ => True) s.
Proof.
  intros Hi Hl Hc. unfold process_request. destruct (bool_decide _) eqn:E1; [apply bool_decide_eq_true in E1|].
  { apply wp_bind, wp_in_con; [|done]. intros p s1 Hv. destruct (keeps_put_lookup _ _ _ _ _ Hi Hl Hv) as [Hi1 Hl1].
    destruct (pty_creates p) eqn:Ep; [|by apply wp_throw]. apply wp_bind, wp_modify, wp_ret. split; [done|]. left. split; [done|].
    exists p. split; [done|]. rewrite lookup_put by (by eapply lookup_range). by rewrite Z.eqb_refl. }
  destruct (bool_decide (rtype = str "shell")) eqn:E2; [apply bool_decide_eq_true in E2|].
  { eapply wp_mono; [by apply start_grants|..|done]. intros r s1 [-> H]. split; [done|]. by right; left. }
  destruct (bool_decide (rtype = str "subsystem")) eqn:E3; [apply bool_decide_eq_true in E3|by apply wp_throw].
  apply wp_bind, wp_in_con; [|done]. intros n s1 Hv1. destruct (keeps_put_lookup _ _ _ _ _ Hi Hl Hv1) as [Hi1 Hl1].
  apply wp_bind, wp_in_con; [|done]. intros [] s2 Hv2. destruct (keeps_put_lookup _ _ _ _ _ Hi1 Hl1 Hv2) as [Hi2 Hl2].
  eapply wp_mono; [by apply start_grants|..|done]. intros r s3 [-> [_ H]]. split; [done|]. by right; right.
Qed.

(** The channel, the request and whether an answer is wanted. *)
Definition request_header : SE Buffer (Z * list Z * Z) :=
  id ← get_int; rtype ← get_text; reply ← get_char; mret (id, rtype, reply).

Lemma wp_reads {A} n (m : SE Buffer A) a b (Q : A -> state -> Prop) E s : getter n m ->
  m (packet s) = (Ret a, b) -> queue_ok (packet s) ->
  (forall s', view s s' -> out s' = out s -> packet s' = b -> queue_ok b -> Q a s') -> wp (in_con (reading m)) Q E s.
Proof.
  intros Hg Hm Hok HQ. specialize (Hg _ Hok). unfold wp in Hg. rewrite Hm in Hg.
  apply wp_zoom, wp_zoom. unfold wp. change (incoming (con_of s)) with (packet s). rewrite Hm.
  by apply HQ; [..|apply Hg].
Qed.

Lemma header_inv id rtype reply b b' : request_header b = (Ret (id, rtype, reply), b') -> exists b1 b2,
  get_int b = (Ret id, b1) /\ get_text b1 = (Ret rtype, b2) /\ get_char b2 = (Ret reply, b').
Proof.
  unfold request_header, mbind, SE_bind. destruct (get_int b) as [[?|?] b1]; [|done].
  destruct (get_text b1) as [[?|?] b2] eqn:E1; [|done]. destruct (get_char b2) as [[?|?] b3] eqn:E2; [|done].
  intros [= -> -> -> ->]. by exists b1, b2.
Qed.

(** The answer itself. *)
Definition answer_of (reply : Z) (ok : bool) (c : chan) : list (Z * list field) :=
  if reply =? 0 then []
  else [(if ok then SSH2_MSG_CHANNEL_SUCCESS else SSH2_MSG_CHANNEL_FAILURE, [FInt (remote_id (c_base c))])].

Definition answered id c rtype reply s s' : Prop := exists ok l, Forall quiet l /\
  out s' = out s ++ l ++ answer_of reply ok c /\
  (ok = true -> isOpened (flg (c_base c)) = false /\ granted id c rtype s').

Lemma wp_reply id c rtype reply (ok : bool) l s s1 : Forall quiet l -> out s1 = out s ++ l ->
  (ok = true -> isOpened (flg (c_base c)) = false /\ granted id c rtype s1) ->
  wp (if reply =? 0 then mret tt
      else in_con (con_send (if ok then SSH2_MSG_CHANNEL_SUCCESS else SSH2_MSG_CHANNEL_FAILURE) [FInt (remote_id (c_base c))]))
    (fun _ => answered id c rtype reply s) (fun _ _ => False) s1.
Proof.
  intros Hq Ho Hg. unfold answered, answer_of. destruct (reply =? 0).
  - apply wp_ret. exists ok, l. by rewrite app_nil_r.
  - unfold in_con, wp, zoom. cbn. exists ok, l. split; [done|]. split; [unfold out in *; cbn; by rewrite Ho, <- (assoc_L (++))|].
    intros H. specialize (Hg H) as [? Hg]. split; [done|]. eapply granted_view, Hg. by split.
Qed.

Lemma wp_answer id c rtype reply s : Inv x s -> queue_ok (packet s) -> lookup_channel id s = Some c ->
  c_connecting c = None ->
  wp (input_channel_req id c rtype reply) (fun _ => answered id c rtype reply s) (fun _ _ => False) s.
Proof.
  intros Hi Hok Hl Hc. unfold input_channel_req. rewrite Hc. apply wp_bind. destruct (isOpened _) eqn:Ho.
  { apply wp_ret, (wp_reply id c rtype reply false []); [done|by rewrite app_nil_r|done]. }
  apply wp_try. pose proof (wp_and _ _ _ _ _ _ (tame_request id c rtype s Hok) (request_grants id c rtype s Hi Hl Hc)) as H.
  eapply wp_mono; [exact (wp_and _ _ _ _ _ _ (still_request id c rtype s) H)|..].
  - intros r s1 [(l & Hl1 & Hq) (_ & -> & Hg)]. by apply (wp_reply id c rtype reply true l).
  - intros e s1 [(l & Hl1 & Hq) [-> _]]. by apply wp_ret, (wp_reply id c rtype reply false l).
Qed.

(** C21: A request on a session channel is answered, whatever it asks for and whatever
    follows its header: the handler returns, other messages it sends are no answers, and
    the client gets exactly one SUCCESS or FAILURE if it wants an answer, none
    otherwise.  SUCCESS means that what was asked for is there: the terminal, or
    the open channel with a running thread of the kind asked for and of its user. *)
Theorem request_answered s id rtype reply b c :
  Inv x s -> queue_ok (packet s) ->
  request_header (packet s) = (Ret (id, rtype, reply), b) ->
  lookup_channel id s = Some c -> c_connecting c = None ->
  exists ok l s', server_input_channel_req s = (Ret tt, s') /\ Forall quiet l /\
    out s' = out s ++ l ++ answer_of reply ok c /\
    (ok = true -> isOpened (flg (c_base c)) = false /\ granted id c rtype s').
Proof.
  intros Hi Hok Hh Hl Hc. apply header_inv in Hh as (b1 & b2 & E1 & E2 & E3).
  enough (wp server_input_channel_req (fun _ => answered id c rtype reply s) (fun _ _ => False) s) as H.
  { unfold wp in H. destruct (server_input_channel_req s) as [[[]|e] s']; [|done]. destruct H as (ok & l & H). by exists ok, l, s'. }
  unfold server_input_channel_req. apply wp_bind. eapply wp_reads; [apply getter_int|exact E1|done|].
  intros s1 Hv1 Ho1 <- Hok1. apply wp_bind. eapply wp_reads; [apply getter_text|exact E2|done|].
  intros s2 Hv2 Ho2 <- Hok2. apply wp_bind. eapply wp_reads; [apply getter_char|exact E3|done|].
  intros s3 Hv3 Ho3 <- Hok3. assert (view s s3) as Hv by (etrans; [exact Hv1|]; by etrans).
  destruct (keeps_put_lookup _ _ _ _ _ Hi Hl Hv) as [Hi3 Hl3]. unfold with_channel.
  apply wp_bind, wp_gets. rewrite Hl3. unfold answered. rewrite <- Ho1, <- Ho2, <- Ho3. by apply wp_answer.
Qed.

(** *** Opening a channel *)

(** The message, the channel of the new id and the others. *)
Definition opens (p : ChannelPars) (u : User) s s' : Prop := exists id,
  let c := mkChannel (new_channel (p_remote_id p) (rwindow p) (rmaxpack p) 0) None u repository_init None in
  lookup_channel id s = None /\ lookup_channel id s' = Some c /\
  (forall j, j <> id -> lookup_channel j s' = lookup_channel j s) /\
  out s' = out s ++ [(SSH2_MSG_CHANNEL_OPEN_CONFIRMATION,
    [FInt (p_remote_id p); FInt id; FInt 0; FInt (local_maxpacket (win (c_base c)))])].

Definition refuses (p : ChannelPars) s s' : Prop :=
  (forall j, lookup_channel j s' = lookup_channel j s) /\
  exists why, out s' = out s ++ [(SSH2_MSG_CHANNEL_OPEN_FAILURE, FInt (p_remote_id p) :: FInt SSH2_OPEN_UNKNOWN_CHANNEL_TYPE :: why)].

(** C22: CHANNEL_OPEN: a session gets a channel of its own, under an id that no channel had,
    for the user of the connection, with the client's window and a window of its own that
    is empty until a subsystem opens it, and the confirmation names that id; a type that is
    not known is refused.  No other channel and no thread changes. *)
Theorem open_answered s p k u : Inv x s -> pw x = Some u -> valid x <> 0 ->
  read_from_packet (con_of s) = (Ret p, k) -> ctype p <> str "direct-tcpip" ->
  exists s', server_input_channel_open s = (Ret tt, s') /\ sv_threads s' = sv_threads s /\
    if bool_decide (ctype p = str "session") then opens p u (put_con k s) s' else refuses p (put_con k s) s'.
Proof.
  intros Hi Hu Hval Hp Hd. set (s1 := put_con k s). assert (Inv x s1) as Hi1 by (by eapply inv_view; [|exact Hi]).
  destruct (claim (sv_channels s1)) as [id r] eqn:Ec.
  destruct (claim_spec _ _ _ (inv_channels _ _ Hi1) Ec) as (_ & Hid & Hn & Hg).
  enough (wp server_input_channel_open (fun _ s' => sv_threads s' = sv_threads s /\
    if bool_decide (ctype p = str "session") then opens p u s1 s' else refuses p s1 s') (fun _ _ => False) s) as H.
  { unfold wp in H. destruct (server_input_channel_open s) as [[[]|e] s']; [by exists s'|done]. }
  unfold server_input_channel_open, create_channel. apply wp_bind, wp_zoom. unfold wp at 1. rewrite Hp. fold s1.
  apply wp_bind, wp_bind, wp_gets. rewrite Ec. apply wp_bind, wp_modify. destruct (bool_decide (ctype p = str "session")).
  - unfold session_user. apply wp_bind, wp_bind, wp_gets. cbn [sv_ctxt set_channels]. rewrite (inv_ctxt _ _ Hi1), Hu.
    apply Z.eqb_neq in Hval. rewrite Hval. apply wp_ret, wp_bind, wp_modify, wp_ret. split; [done|]. exists id. split; [done|].
    split; [unfold lookup_channel; cbn -[get_object_by_id put]; rewrite get_put by done; by rewrite Z.eqb_refl|]. split; [|done].
    intros j Hj. unfold lookup_channel. cbn -[get_object_by_id put]. rewrite get_put by done.
    rewrite (proj2 (Z.eqb_neq _ _) Hj). apply Hg.
  - rewrite (bool_decide_false _ Hd). apply wp_ret, wp_bind, wp_gets. split; [done|]. split; [apply Hg|]. by eexists.
Qed.

End Answers.

(** ** Runs *)

Module SessionDemo.
Import Toy.
Import ToyKey.

#[local] Instance os : Platform := {|
  pty_creates _ := true; thread_creates _ := true; thread_starts _ := true; host_resolves _ _ := true |}.

Definition open_msg (type : string) (remote : Z) (fs : list field) : Z * Z * list Z :=
  (SSH2_MSG_CHANNEL_OPEN, 20, fields_bytes ([FString (str type); FInt remote; FInt 1000; FInt 500] ++ fs)).
Definition request_msg (id : Z) (type : string) (reply : Z) (fs : list field) : Z * Z * list Z :=
  (SSH2_MSG_CHANNEL_REQUEST, 21, fields_bytes ([FInt id; FString (str type); FChar reply] ++ fs)).
Definition idle : turn := mkTurn [] false false false false.

(** A client from its identification to an sftp subsystem. *)
Definition messages : list (Z * Z * list Z) :=
  (SSH2_MSG_KEXINIT, 0, KexDemo.kexinit1) :: client_messages 1 2 KexDemo.e1 [] ++
  Demo.client ++ [open_msg "session" 7 []; request_msg 1 "subsystem" 1 [FString (str "sftp")]].

Definition start (ms : list (Z * Z * list Z)) : server (K := kscript) :=
  mkServer (mkRun (mkKScript (script_start ms 0) (replicate 16 9) []) KexDemo.kex1 0 def_proposal [] [] None)
    authctxt_init repository_init repository_init 0.

Lemma start_fresh ms : fresh (start ms).
Proof. by split. Qed.

Definition threads_of (s : server (K := kscript)) : list (option (subsystem_kind * Z * list Z)) :=
  map (fmap (fun t => (sub_kind t, sub_channel t, userName (sub_user t)))) (sv_threads s).

Definition run (ms : list (Z * Z * list Z)) (turns : list turn) : exc unit * server (K := kscript) :=
  connection_run (db := Demo.db) (nr := Demo.nr) [Some dsa_key] 30 turns (start ms).

(** The whole run: the types of the messages of the server, and the thread that runs. *)
Example run_sftp :
  let '(r, s) := run messages [idle] in
  (r, map fst (sent (ks_con (con_of s))), threads_of s) =
  (Ret tt, [20; 31; 21; 6; 3; 53; 51; 51; 52; 91; 93; 99], [None; Some (SFTP, 1, str "bob")]).
Proof. vm_compute. reflexivity. Qed.

Lemma connection_sound_witness :
  fresh (start messages) /\
  match connection_run (db := Demo.db) (nr := Demo.nr) [Some dsa_key] 30 [idle] (start messages) with
  | (Ret _, s') => only_let_in (db := Demo.db) s' /\ Inv (sv_ctxt s') s'
  | (Throw _, s') => only_let_in (db := Demo.db) s'
  end.
Proof. split; [apply start_fresh|]. apply (connection_sound [Some dsa_key] 30 [idle] (start messages)), start_fresh. Defined.

(** *** Sessions of a user who is in *)

Definition bob : User := mkUser (str "bob") (str "c:\home").
Definition bobs : Authctxt :=
  mkCtxt true 0 1 1 0 0 (Some (str "bob")) (Some (str "ssh-connection")) (Some bob) None None.

(** Behind authentication; [msg] is being read. *)
Definition session (msg : Z * Z * list Z) (rest : list (Z * Z * list Z)) : server (K := kscript) :=
  mkServer (mkRun (mkKScript (set_incoming (packet_buffer msg.2) (script_start rest 0)) (replicate 16 9) [])
              (set_done true KexDemo.kex1) 0 def_proposal [] [] None)
    bobs repository_init repository_init 0.

Lemma bobs_session_inv msg rest : Inv bobs (session msg rest).
Proof. by apply (empty_inv (session msg rest)). Qed.

Lemma open_answered_witness :
  let s := session (open_msg "session" 7 []) [] in
  exists p k s', read_from_packet (con_of s) = (Ret p, k) /\ server_input_channel_open s = (Ret tt, s') /\
    sv_threads s' = sv_threads s /\
    if bool_decide (ctype p = str "session") then opens p bob (put_con k s) s' else refuses p (put_con k s) s'.
Proof.
  intros s. destruct (read_from_packet (con_of s)) as [[p|e] k] eqn:E; [|by vm_compute in E].
  destruct (open_answered bobs s p k bob (bobs_session_inv _ _) eq_refl ltac:(done) E) as (s' & H).
  - vm_compute in E. by injection E as <- _.
  - by exists p, k, s'.
Defined.

(** With a channel. *)
Definition chan1 : chan := mkChannel (new_channel 7 1000 500 0) None bob repository_init None.
Definition with_session (msg : Z * Z * list Z) (rest : list (Z * Z * list Z)) : server (K := kscript) :=
  put_channel 1 (Some chan1) (set_channels [None; None] (session msg rest)).

Lemma with_session_inv msg rest : Inv bobs (with_session msg rest).
Proof.
  destruct (inv_claim_channel bobs 1 [None; None] _ (bobs_session_inv msg rest) eq_refl) as (Hi & Hid & Hn).
  by apply inv_new.
Qed.

Lemma packet_buffer_queue payload : forallb (fun v => (0 <=? v) && (v <? 256)) payload = true ->
  zlen payload <= 256 * 1024 -> queue_ok (packet_buffer payload).
Proof.
  intros Hb Hl. destruct (packet_buffer_ok payload Hl) as [Hok Hc]. split; [done|]. rewrite Hc.
  rewrite forallb_forall in Hb. apply Forall_forall. intros v Hv. apply list_elem_of_In, Hb in Hv. zbool. unfold is_u8. lia.
Qed.

Lemma request_answered_witness :
  let s := with_session (request_msg 1 "subsystem" 1 [FString (str "sftp")]) [] in
  exists ok l s', server_input_channel_req s = (Ret tt, s') /\ Forall quiet l /\
    out s' = out s ++ l ++ answer_of 1 ok chan1 /\
    (ok = true -> isOpened (flg (c_base chan1)) = false /\ granted 1 chan1 (str "subsystem") s').
Proof.
  intros s. eapply (request_answered bobs s 1 (str "subsystem") 1 _ chan1).
  - apply with_session_inv.
  - by apply packet_buffer_queue.
  - vm_compute. reflexivity.
  - reflexivity.
  - reflexivity.
Defined.

(** *** Places where the code does not do what it means to *)

Definition play (rest : list (Z * Z * list Z)) (turns : list turn) : exc unit * server (K := kscript) :=
  server_loop [] 20 turns (session (0, 0, []) rest).

(** The types of what the server sent, and its channels: open, and the states. *)
Definition shown (p : exc unit * server (K := kscript)) :=
  (p.1, map fst (out p.2),
   map (fmap (fun c => (isOpened (flg (c_base c)), currentInputState (c_base c), currentOutputState (c_base c))))
     (sv_channels p.2)).

(** A byte too much behind a request: [packet_check_eom] sends DISCONNECT (1) and throws, the
    handler of the request takes that for a request that failed, and the session goes on: FAILURE
    (100), and the next request opens a shell (93, 99). *)
Example disconnect_ignored :
  shown (play [open_msg "session" 7 []; request_msg 1 "subsystem" 1 [FString (str "sftp"); FChar 3];
               request_msg 1 "shell" 1 []] [idle]) =
  (Ret tt, [91; 1; 100; 93; 99], [None; Some (true, StOpen, StOpen)]).
Proof. vm_compute. reflexivity. Qed.

Definition forward_msg : Z * Z * list Z :=
  open_msg "direct-tcpip" 7 [FString (str "host"); FInt 80; FString (str "me"); FInt 1].

(** A forwarded connection is confirmed (91) before it is there. *)
Example confirmed_early : shown (play [forward_msg] [idle]) = (Ret tt, [91], [None; Some (false, StOpen, StOpen)]).
Proof. vm_compute. reflexivity. Qed.

(** When it fails, the exit status (98) comes before the confirmation, and however long the loop
    runs, the channel is neither closed nor reported. *)
Definition failed : turn := mkTurn [ThEnd 1] false true false false.

Example failed_forward :
  shown (play [forward_msg] (failed :: replicate 20 idle)) = shown (play [forward_msg] [failed; idle]) /\
  (shown (play [forward_msg] [failed; idle])).1.2 = [98; 91].
Proof. vm_compute. split; reflexivity. Qed.

(** With more channels than the loop can wait for, [channel_pre] is not called for the last one:
    62 forwarded connections, all connected; the last thread ends and the client closes its
    channel.  It is deleted within [channel_post], which then reads a member of it. *)
Definition many : server (K := kscript) :=
  (server_loop [] 100 [mkTurn (ThConnected <$> seqZ 1 62) false false false false]
     (session (0, 0, []) (replicate 62 forward_msg))).2.

Definition close_last (s : server (K := kscript)) : server :=
  put_con (set_script (mkScript [(SSH2_MSG_CHANNEL_CLOSE, 22, fields_bytes [FInt 62])] (out s) (packet s) 0 false)
             (con_of s)) s.

Example read_after_delete :
  (server_loop [] 100 [mkTurn [ThEnd 62] false true false false; idle] (close_last many)).1 = Throw BadRead.
Proof. vm_compute. reflexivity. Qed.

End SessionDemo.
