(* ===== verification/CppStateMap.v ===== *)
(** * CppStateMap: tables of states and transitions

    [StateMap] (Concurrenc++/StateMap.cpp, StateMap.h): a map is built from an array of
    named states and an array of transitions, checks moves between states and names them.
    Channels ([Channel::initializeStates]) and threads ([SThread::ThreadState]) are built
    on it.

    An array is a list with its terminating entry; reading behind the end of a list is
    [PastEnd].  A [UniversalState] points to its map: here the number of the map.
    [assert] does nothing in the release build and is left out; [created_in_map] is what
    the assertions about states say. *)

From stdpp Require Import gmap strings.
From S2P Require Import Prelude SshChannel.

(** ** Results *)

Inductive map_error :=
| BadParameters (what : string)
| NoStateWithTheName
| IncompatibleMap
| InvalidStateTransition (from to : string)
| OutOfRange              (** [vector::at] *)
| PastEnd.                (** a read behind an array or of [end ()] *)

Inductive outcome (A : Type) := Got (a : A) | Err (e : map_error).
Arguments Got {A} a.
Arguments Err {A} e.

#[export] Instance outcome_ret : MRet outcome := fun A a => Got a.
#[export] Instance outcome_bind : MBind outcome := fun A B f m =>
  match m with Got a => f a | Err e => Err e end.

Lemma bind_Got {A B} (m : outcome A) (f : A -> outcome B) b :
  (m ≫= f) = Got b <-> exists a, m = Got a /\ f a = Got b.
Proof. destruct m; cbn; split; [intros H; by eexists|by intros (? & [= ->] & ?)|done|by intros (? & ? & _)]. Qed.

Definition from_option_or {A} (e : map_error) (o : option A) : outcome A :=
  match o with Some a => Got a | None => Err e end.

(** ** The data *)

Record State2Idx := mkState { idx : Z; state : string }.
Record StateTransition := mkTrans { tr_from : option string; tr_to : option string }.
Record UniversalState := mkUniversal { state_map : Z; state_idx : Z }.

#[export] Instance UniversalState_eq_dec : EqDecision UniversalState.
Proof. solve_decision. Defined.

Record StateMap := mkMap {
  this : Z;
  name2idx : gmap string Z;
  idx2name : gmap Z string;
  trans2number : list (list Z);
  number2trans : list (Z * Z)
}.

(** ** The constructor *)

(** The loop over the states: both maps, [maxIdx] and [i]. *)
Fixpoint add_states (new_states : list State2Idx) (n2i : gmap string Z) (i2n : gmap Z string) (maxIdx i : Z) :
    outcome (gmap string Z * gmap Z string * Z * Z) :=
  match new_states with
  | [] => Err PastEnd
  | s :: rest =>
      if idx s =? 0 then Got (n2i, i2n, maxIdx, i)
      else if idx s <? 1 then Err (BadParameters "2")
      else add_states rest (<[state s := idx s]> n2i) (<[idx s := state s]> i2n)
             (if idx s >? maxIdx then idx s else maxIdx) (i + 1)
  end.

Fixpoint count_transitions (transitions : list StateTransition) (i : nat) : outcome nat :=
  match transitions with
  | [] => Err PastEnd
  | t :: rest =>
      match tr_from t, tr_to t with
      | None, None => Got i
      | Some _, Some _ => count_transitions rest (S i)
      | _, _ => Err (BadParameters "5")
      end
  end.

Definition find_name (n2i : gmap string Z) (name : option string) : outcome Z :=
  match name with
  | None => Err PastEnd
  | Some n => from_option_or (BadParameters ("Invalid state name is [" +:+ n +:+ "]")) (n2i !! n)
  end.

(** [at] of a vector *)
Definition at_ {A} (l : list A) (i : Z) : outcome A :=
  if i <? 0 then Err OutOfRange else from_option_or OutOfRange (l !! Z.to_nat i).
Definition set_at {A} (l : list A) (i : Z) (a : A) : outcome (list A) := _ ← at_ l i; Got (<[Z.to_nat i := a]> l).

Fixpoint add_transitions (n2i : gmap string Z) (transitions : list StateTransition) (nTransitions : nat)
    (t2n : list (list Z)) (n2t : list (Z * Z)) (transId : Z) : outcome (list (list Z) * list (Z * Z)) :=
  match nTransitions, transitions with
  | O, _ => Got (t2n, n2t)
  | S _, [] => Err PastEnd
  | S n, t :: rest =>
      fromIdx ← find_name n2i (tr_from t);
      toIdx ← find_name n2i (tr_to t);
      row ← at_ t2n (fromIdx - 1);
      old ← at_ row (toIdx - 1);
      if old =? 0 then
        row ← set_at row (toIdx - 1) transId;
        t2n ← set_at t2n (fromIdx - 1) row;
        n2t ← set_at n2t transId (fromIdx, toIdx);
        add_transitions n2i rest n t2n n2t (transId + 1)
      else add_transitions n2i rest n t2n n2t transId
  end.

Definition new_StateMap (self : Z) (new_states : list State2Idx) (transitions : list StateTransition) :
    outcome StateMap :=
  '(n2i, i2n, maxIdx, i) ← add_states new_states ∅ ∅ 0 0;
  if negb (maxIdx =? Z.of_nat (size n2i)) then Err (BadParameters "3")
  else if negb (maxIdx =? i) then Err (BadParameters "4")
  else
    nTransitions ← count_transitions transitions 0;
    let nStates := Z.to_nat maxIdx in
    '(t2n, n2t) ← add_transitions n2i transitions nTransitions
        (replicate nStates (replicate nStates 0)) (replicate (S nTransitions) (0, 0)) 1;
    Got (mkMap self n2i i2n t2n n2t).

(** ** The operations *)

Section Operations.
Variable m : StateMap.

Definition size_ : Z := Z.of_nat (size (name2idx m)).

Definition create_state (name : string) : outcome UniversalState :=
  match name2idx m !! name with
  | Some i => Got (mkUniversal (this m) i)
  | None => Err NoStateWithTheName
  end.

Definition is_compatible (s : UniversalState) : bool := state_map s =? this m.

Definition get_transition_id (from to : UniversalState) : outcome Z :=
  row ← at_ (trans2number m) (state_idx from - 1);
  at_ row (state_idx to - 1).

Definition there_is_transition (from to : UniversalState) : outcome bool :=
  if negb (is_compatible from) || negb (is_compatible to) then Err IncompatibleMap
  else n ← get_transition_id from to; Got (negb (n =? 0)).

Definition get_state_name (s : UniversalState) : outcome string :=
  if negb (is_compatible s) then Err IncompatibleMap
  else from_option_or PastEnd (idx2name m !! state_idx s).

Definition check_transition (from to : UniversalState) : outcome unit :=
  b ← there_is_transition from to;
  if b : bool then Got tt
  else f ← get_state_name from; t ← get_state_name to; Err (InvalidStateTransition f t).

Definition is_equal (a b : UniversalState) : outcome bool :=
  if negb (is_compatible a) || negb (is_compatible b) then Err IncompatibleMap
  else Got (state_idx a =? state_idx b).

(** The loop over the transitions, from [i] on for [n] rounds. *)
Fixpoint out_transitions (n : nat) (i : Z) (first : bool) (out : string) : outcome string :=
  match n with
  | O => Got out
  | S n =>
      let out := if first then out else out +:+ ";" in
      '(f, t) ← from_option_or PastEnd (number2trans m !! Z.to_nat i);
      f ← from_option_or PastEnd (idx2name m !! f);
      t ← from_option_or PastEnd (idx2name m !! t);
      out_transitions n (i + 1) false (out +:+ f +:+ "->" +:+ t)
  end.

(** The names come in the order of their numbers. *)
Definition names_in_order : list string :=
  omap (fun i => idx2name m !! i) (seqZ 1 (Z.of_nat (length (trans2number m)))).

Definition outString : outcome string :=
  out_transitions (length (number2trans m)) 1 true (String.concat ";" names_in_order +:+ "|").

End Operations.

(** ** What a map is *)

(** Arrays as they are written: the entries and the terminating one. *)
Definition states_array (ss : list State2Idx) : list State2Idx := ss ++ [mkState 0 ""].
Definition trans_array (ts : list (string * string)) : list StateTransition :=
  ((fun p => mkTrans (Some p.1) (Some p.2)) <$> ts) ++ [mkTrans None None].

Abbreviation names ss := (state <$> ss).
Definition max_idx (ss : list State2Idx) : Z := foldr Z.max 0 (idx <$> ss).

(** The arrays the constructor accepts. *)
Record accepted (ss : list State2Idx) (ts : list (string * string)) : Prop := {
  ac_names : NoDup (names ss);
  ac_max : max_idx ss = zlen ss;
  ac_trans : forall f t, (f, t) ∈ ts -> f ∈ names ss /\ t ∈ names ss
}.

(** Both ends of a transition, by number. *)
Definition connected (ss : list State2Idx) (ts : list (string * string)) (i j : Z) : Prop :=
  exists a b, (state a, state b) ∈ ts /\ a ∈ ss /\ b ∈ ss /\ idx a = i /\ idx b = j.

Record represents (self : Z) (ss : list State2Idx) (ts : list (string * string)) (m : StateMap) : Prop := {
  rp_create : forall s, s ∈ ss -> create_state m (state s) = Got (mkUniversal self (idx s));
  rp_unknown : forall n, n ∉ names ss -> create_state m n = Err NoStateWithTheName;
  rp_size : size_ m = zlen ss;
  rp_trans : forall a b, a ∈ ss -> b ∈ ss -> exists v,
    there_is_transition m (mkUniversal self (idx a)) (mkUniversal self (idx b)) = Got v /\
    (v = true <-> connected ss ts (idx a) (idx b));
  rp_name : NoDup (idx <$> ss) -> forall s, s ∈ ss -> get_state_name m (mkUniversal self (idx s)) = Got (state s);
  rp_this : this m = self;
  rp_shape : (0 < length (number2trans m))%nat
}.

(** *** The states *)

Definition add_name (m : gmap string Z) (s : State2Idx) := <[state s := idx s]> m.
Definition add_number (m : gmap Z string) (s : State2Idx) := <[idx s := state s]> m.

Lemma add_states_eq ss : Forall (fun s => 1 <= idx s) ss -> forall n2i i2n mx i, 0 <= mx ->
  add_states (states_array ss) n2i i2n mx i =
  Got (foldl add_name n2i ss, foldl add_number i2n ss, Z.max mx (max_idx ss), i + zlen ss).
Proof.
  unfold max_idx, zlen. induction 1 as [|s ss Hs _ IH]; intros n2i i2n mx i Hm; cbn.
  { do 2 f_equal; [|lia]. f_equal. lia. }
  destruct (idx s =? 0) eqn:E0; zbool; [lia|]. destruct (idx s <? 1) eqn:E1; zbool; [lia|].
  change (ss ++ [mkState 0 ""]) with (states_array ss).
  rewrite IH by (destruct (idx s >? mx); lia). do 2 f_equal; [|lia]. f_equal. destruct (idx s >? mx) eqn:E; zbool; lia.
Qed.

Lemma dom_add_names ss : forall m0 : gmap string Z, dom (foldl add_name m0 ss) = dom m0 ∪ list_to_set (names ss).
Proof.
  induction ss as [|s ss IH]; intros m0; cbn; [set_solver|]. rewrite IH. unfold add_name. rewrite dom_insert_L. set_solver.
Qed.

Lemma size_names_le (l : list string) : (size (list_to_set l : gset string) <= length l)%nat /\
  (size (list_to_set l : gset string) = length l -> NoDup l).
Proof.
  induction l as [|x l [IH1 IH2]]; cbn [length list_to_set]; [split; [by rewrite size_empty|constructor]|].
  destruct (decide (x ∈ (list_to_set l : gset string))) as [Hx|Hx].
  - rewrite (subseteq_union_1_L {[x]} (list_to_set l)) by set_solver. split; [lia|]. intros H. lia.
  - rewrite size_union by set_solver. rewrite size_singleton. split; [lia|]. intros H.
    constructor; [set_solver|]. apply IH2. lia.
Qed.

Lemma size_add_names ss : size (foldl add_name ∅ ss) = size (list_to_set (names ss) : gset string).
Proof. rewrite <- size_dom, dom_add_names. f_equal. set_solver. Qed.

Lemma lookup_add_other ss n : n ∉ names ss -> forall m0, foldl add_name m0 ss !! n = m0 !! n.
Proof.
  induction ss as [|s ss IH]; intros Hn m0; [done|]. cbn. rewrite IH by set_solver. unfold add_name.
  apply lookup_insert_ne. set_solver.
Qed.

Lemma lookup_add_name ss s : NoDup (names ss) -> s ∈ ss -> forall m0, foldl add_name m0 ss !! state s = Some (idx s).
Proof.
  induction ss as [|x ss IH]; intros Hn Hs m0; [set_solver|]. cbn in *. apply NoDup_cons in Hn as [Hx Hn].
  apply elem_of_cons in Hs as [<-|Hs]; [|by apply IH]. rewrite lookup_add_other by done. apply lookup_insert_eq.
Qed.

Lemma lookup_number_other ss i : i ∉ (idx <$> ss) -> forall m0, foldl add_number m0 ss !! i = m0 !! i.
Proof.
  induction ss as [|s ss IH]; intros Hn m0; [done|]. cbn. rewrite IH by set_solver. unfold add_number.
  apply lookup_insert_ne. set_solver.
Qed.

Lemma lookup_add_number ss s : NoDup (idx <$> ss) -> s ∈ ss -> forall m0, foldl add_number m0 ss !! idx s = Some (state s).
Proof.
  induction ss as [|x ss IH]; intros Hn Hs m0; [set_solver|]. cbn in *. apply NoDup_cons in Hn as [Hx Hn].
  apply elem_of_cons in Hs as [<-|Hs]; [|by apply IH]. rewrite lookup_number_other by done. apply lookup_insert_eq.
Qed.

Lemma idx_le_max ss s : s ∈ ss -> idx s <= max_idx ss.
Proof.
  unfold max_idx. induction ss as [|x ss IH]; [set_solver|]. intros [<-|Hs]%elem_of_cons; cbn; [lia|]. specialize (IH Hs). lia.
Qed.

Lemma max_idx_nonneg ss : 0 <= max_idx ss.
Proof. unfold max_idx. induction ss; cbn; lia. Qed.

(** *** The transitions *)

Lemma count_trans_array ts : forall i, count_transitions (trans_array ts) i = Got (i + length ts)%nat.
Proof. induction ts as [|t ts IH]; intros i; cbn; [by rewrite Nat.add_0_r|]. rewrite IH. f_equal. lia. Qed.

Definition square {A} (n : nat) (t : list (list A)) : Prop := length t = n /\ Forall (fun row => length row = n) t.

Definition entry (t : list (list Z)) (i j : Z) : outcome Z := row ← at_ t (i - 1); at_ row (j - 1).

Lemma at_in {A} (l : list A) i : 0 <= i < zlen l -> exists a, at_ l i = Got a /\ l !! Z.to_nat i = Some a.
Proof.
  intros Hi. unfold at_, zlen in *. destruct (i <? 0) eqn:E; zbool; [lia|].
  destruct (lookup_lt_is_Some_2 l (Z.to_nat i)) as [a Ha]; [lia|]. exists a. by rewrite Ha.
Qed.

Lemma at_set {A} (l : list A) i j a : 0 <= i < zlen l -> 0 <= j ->
  at_ (<[Z.to_nat i := a]> l) j = if j =? i then Got a else at_ l j.
Proof.
  intros Hi Hj. unfold at_, zlen in *. destruct (j <? 0) eqn:E; zbool; [lia|]. destruct (j =? i) eqn:Ej; zbool.
  - subst j. rewrite list_lookup_insert_eq by lia. done.
  - rewrite list_lookup_insert_ne by lia. done.
Qed.

Lemma square_set {A} n (t : list (list A)) i row : square n t -> length row = n -> square n (<[i := row]> t).
Proof. intros [Hl Hr] H. split; [by rewrite length_insert|]. by apply Forall_insert. Qed.

(** The numbers in range, and what a new entry does to the others. *)
Lemma set_entry n t i j v : square n t -> 1 <= i <= Z.of_nat n -> 1 <= j <= Z.of_nat n ->
  exists row, at_ t (i - 1) = Got row /\ (exists x, at_ row (j - 1) = Got x /\ entry t i j = Got x) /\
    set_at row (j - 1) v = Got (<[Z.to_nat (j - 1) := v]> row) /\
    set_at t (i - 1) (<[Z.to_nat (j - 1) := v]> row) = Got (<[Z.to_nat (i - 1) := <[Z.to_nat (j - 1) := v]> row]> t) /\
    square n (<[Z.to_nat (i - 1) := <[Z.to_nat (j - 1) := v]> row]> t) /\
    forall i' j', 1 <= i' -> 1 <= j' ->
      entry (<[Z.to_nat (i - 1) := <[Z.to_nat (j - 1) := v]> row]> t) i' j' =
      if (i' =? i) && (j' =? j) then Got v else entry t i' j'.
Proof.
  intros Hsq Hi Hj. pose proof Hsq as [Hl Hr]. destruct (at_in t (i - 1)) as (row & Ha & Hrow); [unfold zlen; lia|].
  assert (length row = n) as Hn by (eapply (Forall_lookup_1 (fun row => length row = n)); [exact Hr|exact Hrow]).
  destruct (at_in row (j - 1)) as (x & Hx & _); [unfold zlen; lia|].
  exists row. split; [done|]. split; [exists x; split; [done|]; unfold entry; by rewrite Ha|].
  unfold set_at. rewrite Hx, Ha. split; [done|]. split; [done|]. split; [apply square_set; [done|by rewrite length_insert]|].
  intros i' j' Hi' Hj'. unfold entry. rewrite at_set by (unfold zlen; lia).
  destruct (i' =? i) eqn:E; zbool.
  - subst i'. rewrite (proj2 (Z.eqb_eq _ _) eq_refl). cbn. rewrite at_set by (unfold zlen; lia). rewrite Ha. cbn.
    destruct (j' =? j) eqn:Ej; zbool; [by rewrite (proj2 (Z.eqb_eq (j' - 1) (j - 1))) by lia|].
    by rewrite (proj2 (Z.eqb_neq (j' - 1) (j - 1))) by lia.
  - by rewrite (proj2 (Z.eqb_neq (i' - 1) (i - 1))) by lia.
Qed.

Section Transitions.
Variable n2i : gmap string Z.
Variable n : nat.
Hypothesis in_range : forall s i, n2i !! s = Some i -> 1 <= i <= Z.of_nat n.

Definition linked (ts : list (string * string)) (i j : Z) : Prop :=
  exists f t, (f, t) ∈ ts /\ n2i !! f = Some i /\ n2i !! t = Some j.

(** The table after the transitions [ts], where it held [P] before. *)
Definition holds (t2n : list (list Z)) (P : Z -> Z -> Prop) : Prop := forall i j, 1 <= i <= Z.of_nat n -> 1 <= j <= Z.of_nat n ->
  exists v, entry t2n i j = Got v /\ 0 <= v /\ (v <> 0 <-> P i j).

Lemma linked_cons f t ts i j i' j' : n2i !! f = Some i -> n2i !! t = Some j ->
  linked ((f, t) :: ts) i' j' <-> (i' = i /\ j' = j) \/ linked ts i' j'.
Proof.
  intros Hf Ht. split.
  - intros (f' & t' & [[= -> ->]|H]%elem_of_cons & H1 & H2); [left; split; congruence|right; by exists f', t'].
  - intros [[-> ->]|(f' & t' & H & ? & ?)]; [exists f, t; set_solver|exists f', t'; set_solver].
Qed.

(** What the loop has done at its end. *)
Definition added ts P (n2t : list (Z * Z)) (r : outcome (list (list Z) * list (Z * Z))) : Prop :=
  match r with
  | Got (t2n', n2t') => (forall f t, (f, t) ∈ ts -> is_Some (n2i !! f) /\ is_Some (n2i !! t)) /\
      square n t2n' /\ holds t2n' (fun i j => P i j \/ linked ts i j) /\ length n2t' = length n2t
  | Err (BadParameters _) => exists f t, (f, t) ∈ ts /\ (n2i !! f = None \/ n2i !! t = None)
  | Err _ => False
  end.

Lemma holds_ext t2n P Q : (forall i j, P i j <-> Q i j) -> holds t2n P -> holds t2n Q.
Proof. intros H Hh i j Hi Hj. destruct (Hh i j Hi Hj) as (v & ? & ? & Hv). exists v. by rewrite <- H. Qed.

Lemma added_cons f t ts i j P P' n2t n2t' r : n2i !! f = Some i -> n2i !! t = Some j -> length n2t' = length n2t ->
  (forall i' j', P' i' j' \/ linked ts i' j' <-> P i' j' \/ linked ((f, t) :: ts) i' j') ->
  added ts P' n2t' r -> added ((f, t) :: ts) P n2t r.
Proof.
  intros Hf Ht Hl HP. destruct r as [[t2n2 n2t2]|[]]; cbn; try done.
  - intros (Hn & Hsq & Hh & Hl2). split; [|split; [done|split; [exact (holds_ext _ _ _ HP Hh)|by rewrite Hl2]]].
    intros f' t' [[= -> ->]|H]%elem_of_cons; [rewrite Hf, Ht; by split; eexists|by apply Hn].
  - intros (f' & t' & H & ?). exists f', t'. split; [set_solver|done].
Qed.

Lemma add_transitions_spec ts : forall t2n n2t transId P, square n t2n -> holds t2n P -> 1 <= transId ->
  transId + zlen ts <= zlen n2t ->
  added ts P n2t (add_transitions n2i (trans_array ts) (length ts) t2n n2t transId).
Proof.
  induction ts as [|[f t] ts IH]; intros t2n n2t k P Hsq Hh Hk Hl.
  { split; [set_solver|]. split; [done|]. split; [|done]. eapply holds_ext, Hh. intros i j. split; [by left|].
    intros [?|(? & ? & ?%elem_of_nil & _)]; done. }
  cbn [length]. unfold trans_array. cbn [fmap list_fmap app add_transitions tr_from tr_to fst snd]. fold (trans_array ts).
  unfold find_name.
  destruct (n2i !! f) as [i|] eqn:Hf; cbn; [|exists f, t; split; [set_solver|by left]].
  destruct (n2i !! t) as [j|] eqn:Ht; cbn; [|exists f, t; split; [set_solver|by right]].
  pose proof (in_range _ _ Hf) as Hi. pose proof (in_range _ _ Ht) as Hj.
  destruct (set_entry n t2n i j k Hsq Hi Hj) as (row & -> & (x & Hx & He) & H1 & H2 & Hsq' & Hu). cbn. rewrite Hx. cbn.
  destruct (Hh i j Hi Hj) as (x' & Hx' & Hx0 & HP). rewrite He in Hx'. injection Hx' as <-.
  unfold zlen in *. cbn in Hl. destruct (x =? 0) eqn:Ex; zbool.
  - rewrite H1. cbn. rewrite H2. cbn. unfold set_at. destruct (at_in n2t k) as (p & -> & _); [unfold zlen; lia|]. cbn.
    eapply (added_cons f t ts i j P (fun i' j' => P i' j' \/ (i' = i /\ j' = j))); [done|done|apply length_insert| |apply IH].
    + intros i' j'. rewrite (linked_cons f t ts i j) by done. tauto.
    + done.
    + intros i' j' Hi' Hj'. rewrite Hu by lia. destruct ((i' =? i) && (j' =? j)) eqn:E.
      { apply andb_true_iff in E as [? ?]. zbool. subst. exists k. split; [done|]. split; [lia|]. split; [by right|lia]. }
      destruct (Hh i' j' Hi' Hj') as (v & ? & ? & Hv). exists v. split; [done|]. split; [done|]. rewrite Hv.
      split; [by left|]. intros [?|[-> ->]]; [done|]. by rewrite !Z.eqb_refl in E.
    + lia.
    + rewrite length_insert. lia.
  - eapply (added_cons f t ts i j P P); [done|done|done| |apply IH; [done|done|done|lia]].
    intros i' j'. rewrite (linked_cons f t ts i j) by done. assert (P i j) by (by apply HP). split; [tauto|].
    intros [?|[[-> ->]|?]]; tauto.
Qed.

End Transitions.

(** *** The whole map *)

Lemma zeros_hold n : square n (replicate n (replicate n 0)) /\ holds n (replicate n (replicate n 0)) (fun _ _ => False).
Proof.
  split; [split; [apply length_replicate|apply Forall_replicate, length_replicate]|]. intros i j Hi Hj. exists 0.
  split; [|split; [lia|tauto]]. unfold entry, at_. destruct (i - 1 <? 0) eqn:E; zbool; [lia|].
  rewrite lookup_replicate_2 by lia. cbn. destruct (j - 1 <? 0) eqn:E'; zbool; [lia|]. by rewrite lookup_replicate_2 by lia.
Qed.

Lemma accepted_range ss n i : Forall (fun s => 1 <= idx s) ss -> max_idx ss = zlen ss ->
  foldl add_name ∅ ss !! n = Some i -> 1 <= i <= Z.of_nat (Z.to_nat (zlen ss)).
Proof.
  intros Hp Hm. assert (forall m0 : gmap string Z, (forall n i, m0 !! n = Some i -> 1 <= i <= max_idx ss) ->
    forall ss', (forall s, s ∈ ss' -> s ∈ ss) -> foldl add_name m0 ss' !! n = Some i -> 1 <= i <= max_idx ss) as H.
  { intros m0 H0 ss'. revert m0 H0. induction ss' as [|s ss' IH]; intros m0 H0 Hin; [apply H0|]. cbn. apply IH; [|set_solver].
    intros n' i'. unfold add_name. destruct (decide (state s = n')) as [<-|Hne].
    - rewrite lookup_insert_eq. intros [= <-]. rewrite Forall_forall in Hp. split; [apply Hp|apply idx_le_max]; set_solver.
    - rewrite lookup_insert_ne by done. apply H0. }
  intros Hl. apply H in Hl; [|done|done]. unfold zlen in *. lia.
Qed.

Lemma linked_connected ss ts i j : NoDup (names ss) ->
  linked (foldl add_name ∅ ss) ts i j <-> connected ss ts i j.
Proof.
  intros Hn. assert (forall n k, foldl add_name ∅ ss !! n = Some k -> exists s, s ∈ ss /\ state s = n /\ idx s = k) as Hex.
  { intros n k H. destruct (decide (n ∈ names ss)) as [(s & -> & Hs)%list_elem_of_fmap|Hx]; [|by rewrite lookup_add_other in H].
    exists s. rewrite lookup_add_name in H by done. by injection H. }
  split.
  - intros (f & t & Ht & (a & ? & <- & ?)%Hex & (b & ? & <- & ?)%Hex). by exists a, b.
  - intros (a & b & Ht & ? & ? & <- & <-). exists (state a), (state b). by rewrite !lookup_add_name.
Qed.

Lemma new_map_spec self ss ts : Forall (fun s => 1 <= idx s) ss ->
  match new_StateMap self (states_array ss) (trans_array ts) with
  | Got m => accepted ss ts /\ represents self ss ts m
  | Err (BadParameters _) => ~ accepted ss ts
  | Err _ => False
  end.
Proof.
  intros Hp. unfold new_StateMap. rewrite add_states_eq by done. cbn.
  rewrite Z.max_r by apply max_idx_nonneg.
  rewrite size_add_names. destruct (size_names_le (names ss)) as [Hle Hnd]. rewrite length_fmap in Hle, Hnd.
  destruct (max_idx ss =? _) eqn:E1; cbn; zbool.
  2:{ intros [Hn Hm _]. apply E1. rewrite Hm, size_list_to_set, length_fmap by done. done. }
  rewrite Z.add_0_l. destruct (max_idx ss =? zlen ss) eqn:E2; cbn; zbool; [|by intros [_ ? _]].
  assert (NoDup (names ss)) as Hn by (apply Hnd; unfold zlen in E2; lia).
  rewrite count_trans_array, E2. cbn [outcome_bind mbind Nat.add]. set (n := Z.to_nat (zlen ss)).
  destruct (zeros_hold n) as [Hsq Hz].
  pose proof (add_transitions_spec _ n (fun m i => accepted_range ss m i Hp E2) ts _ ((0, 0) :: replicate (length ts) (0, 0)) 1
    (fun _ _ => False) Hsq Hz ltac:(lia) ltac:(unfold zlen; cbn; rewrite length_replicate; lia)) as H.
  destruct (add_transitions _ _ _ _ _ _) as [[t2n n2t]|[]]; cbn in H |- *; try done.
  2:{ destruct H as (f & t & Ht & H). intros [_ _ Hin]. destruct (Hin f t Ht) as [Hf1 Ht1].
      apply list_elem_of_fmap in Hf1 as (a & -> & Ha), Ht1 as (b & -> & Hb). rewrite !lookup_add_name in H by done. by destruct H. }
  destruct H as (Hin & Hsq' & Hh & Hl). split.
  - split; [done|done|]. intros f t Ht. specialize (Hin f t Ht) as [Hf1 Ht1].
    split; apply dec_stable; intros Hx; [rewrite lookup_add_other in Hf1 by done|rewrite lookup_add_other in Ht1 by done].
    + by destruct Hf1.
    + by destruct Ht1.
  - split.
    + intros s Hs. unfold create_state. cbn. by rewrite lookup_add_name.
    + intros m Hx. unfold create_state. cbn. by rewrite lookup_add_other.
    + unfold size_. cbn. rewrite size_add_names. lia.
    + intros a b Ha Hb. pose proof (idx_le_max _ _ Ha). pose proof (idx_le_max _ _ Hb). rewrite Forall_forall in Hp.
      pose proof (Hp _ Ha). pose proof (Hp _ Hb).
      destruct (Hh (idx a) (idx b)) as (v & Hv & _ & Hc); [unfold n; lia..|]. exists (negb (v =? 0)). split.
      * unfold there_is_transition, is_compatible. cbn -[get_transition_id]. rewrite Z.eqb_refl.
        change (get_transition_id _ _ _) with (entry t2n (idx a) (idx b)). by rewrite Hv.
      * rewrite negb_true_iff, Z.eqb_neq, Hc, linked_connected by done. tauto.
    + intros Hi s Hs. unfold get_state_name, is_compatible. cbn. rewrite Z.eqb_refl. cbn. by rewrite lookup_add_number.
    + done.
    + cbn. rewrite Hl. cbn. lia.
Qed.

(** What a [StateMap] is: the constructor accepts exactly the arrays whose names differ,
    whose greatest number is the number of states and whose transitions are between named
    states, and throws [BadParameters] for all others (it never leaves its vectors).  An
    accepted map creates a state for each name and no other, allows a move exactly if a
    listed transition connects the two numbers, and, when the numbers differ, gives a state
    its name back. *)
Theorem state_map_spec self ss ts : Forall (fun s => 1 <= idx s) ss ->
  match new_StateMap self (states_array ss) (trans_array ts) with
  | Got m => accepted ss ts /\ represents self ss ts m
  | Err (BadParameters _) => ~ accepted ss ts
  | Err _ => False
  end.
Proof. exact (new_map_spec self ss ts). Qed.

(** The asserted facts about a state that was created. *)
Lemma created_in_map self ss ts m n u : Forall (fun s => 1 <= idx s) ss ->
  new_StateMap self (states_array ss) (trans_array ts) = Got m -> create_state m n = Got u ->
  is_compatible m u = true /\ 1 <= state_idx u <= size_ m.
Proof.
  intros Hp Hm Hu. pose proof (new_map_spec self ss ts Hp) as H. rewrite Hm in H. destruct H as [[_ Hmax _] [Hc Hun Hsz _ _ Ht _]].
  destruct (decide (n ∈ names ss)) as [(s & -> & Hs)%list_elem_of_fmap|Hx]; [|by rewrite Hun in Hu].
  rewrite Hc in Hu by done. injection Hu as <-. pose proof (idx_le_max _ _ Hs). rewrite Forall_forall in Hp. specialize (Hp _ Hs).
  unfold is_compatible. cbn. rewrite Ht, Z.eqb_refl, Hsz. lia.
Qed.

(** *** Printing *)

Lemma out_transitions_past m : forall n i first out, 1 <= i -> (0 < n)%nat -> zlen (number2trans m) < i + Z.of_nat n ->
  out_transitions m n i first out = Err PastEnd.
Proof.
  induction n as [|n IH]; intros i first out Hi Hn Hl; [lia|]. cbn [out_transitions].
  destruct (number2trans m !! Z.to_nat i) as [[f t]|] eqn:E; [|done]. cbn.
  apply lookup_lt_Some in E. destruct (idx2name m !! f); [|done]. cbn. destruct (idx2name m !! t); [|done]. cbn.
  apply IH; unfold zlen in *; lia.
Qed.

(** Printing a map reads behind the vector of its transitions: the loop runs up to and
    with the size of the vector. *)
Theorem outString_past_end self ss ts m : Forall (fun s => 1 <= idx s) ss ->
  new_StateMap self (states_array ss) (trans_array ts) = Got m -> outString m = Err PastEnd.
Proof.
  intros Hp Hm. pose proof (new_map_spec self ss ts Hp) as H. rewrite Hm in H. destruct H as [_ Hr].
  apply out_transitions_past; [lia|apply Hr|unfold zlen; lia].
Qed.

(** Two states with one number are accepted. *)
Example duplicate_numbers : exists m,
  new_StateMap 1 (states_array [mkState 1 "a"; mkState 3 "b"; mkState 3 "c"]) (trans_array [("a", "b")]) = Got m /\
  is_equal m (mkUniversal 1 3) (mkUniversal 1 3) = Got true /\
  create_state m "b" = Got (mkUniversal 1 3) /\ create_state m "c" = Got (mkUniversal 1 3) /\
  get_state_name m (mkUniversal 1 3) = Got "c".
Proof. eexists. split; [vm_compute; reflexivity|]. by vm_compute. Qed.

(** ** The states of a channel (Channel.cpp) *)

Definition allInputStates : list State2Idx := states_array [mkState 1 "open"; mkState 2 "waitDrain"; mkState 3 "closed"].
Definition allOutputStates : list State2Idx := allInputStates.
Definition allInputTrans : list StateTransition :=
  trans_array [("open", "closed"); ("open", "waitDrain"); ("waitDrain", "closed")].
Definition allOutputTrans : list StateTransition := allInputTrans.

(** The two maps. *)
Definition initializeStates : outcome (StateMap * StateMap) :=
  i ← new_StateMap 1 allInputStates allInputTrans;
  o ← new_StateMap 2 allOutputStates allOutputTrans;
  Got (i, o).

Definition chan_state_name (s : chan_state) : string :=
  match s with StOpen => "open" | StWaitDrain => "waitDrain" | StClosed => "closed" end.

(** What [SshChannel] takes for granted: the maps are built, the states of a channel are
    told apart as its states are, and a move is allowed as [SshChannel.there_is_transition]
    says. *)
Definition channel_map (m : StateMap) : Prop := forall a b, exists u v,
  create_state m (chan_state_name a) = Got u /\ create_state m (chan_state_name b) = Got v /\
  is_equal m u v = Got (bool_decide (a = b)) /\
  there_is_transition m u v = Got (SshChannel.there_is_transition a b).

Theorem channel_maps : exists i o, initializeStates = Got (i, o) /\ channel_map i /\ channel_map o.
Proof.
  eexists _, _. split; [vm_compute; reflexivity|].
  split; intros [] []; eexists _, _; (repeat split; vm_compute; reflexivity).
Qed.

Lemma state_map_spec_witness :
  let ss := [mkState 1 "open"; mkState 2 "waitDrain"; mkState 3 "closed"] in
  let ts := [("open", "closed"); ("open", "waitDrain"); ("waitDrain", "closed")] in
  match new_StateMap 1 (states_array ss) (trans_array ts) with
  | Got m => accepted ss ts /\ represents 1 ss ts m
  | Err (BadParameters _) => ~ accepted ss ts
  | Err _ => False
  end.
Proof.
  intros ss ts. apply (state_map_spec 1 ss ts). repeat constructor; cbn; lia.
Defined.
