(* ===== verification/CppThread.v ===== *)
(** * CppThread: the life of a thread

    [SThread] (Concurrenc++/SThread.cpp, SThread.h) and the calls that a
    [ThreadRepository] makes on it: starting, stopping, waiting for and deleting a thread,
    by any number of callers at a time, against the thread that runs.

    A call is a list of instructions; an instruction is what happens under one lock of the
    object, or one call of the system.  A configuration is the object, where its own thread
    is in [_run], what is left of the object in memory, and what every caller has still to
    do; [step] interleaves them.  States are those of the [StateMap] of the class.
    [waitCnt] is read nowhere; its unprotected decrement is one instruction here.

    [run] is virtual, so it is a parameter: states of its own and a relation that says what
    it can do next, given the stop event and the shutdown of the process.  Nothing says that
    it returns by itself; [server_loop] and the listening sockets, for instance, go on until
    they see the stop event.  [obeys_stop] is what such a thread promises, and only the
    theorem on termination has it as a hypothesis.

    Deleting the object runs the destructors of the derived classes first, and then
    [~SThread], which stops and waits; an exception out of it does not keep the object in
    memory.  Any use of freed memory ends the model's knowledge ([Touched]). *)

From stdpp Require Import relations.
From S2P Require Import Prelude CppStateMap.

(** ** States *)

Inductive ThreadState := ready | working | terminated | destroyed.

#[export] Instance ThreadState_eq_dec : EqDecision ThreadState.
Proof. solve_decision. Defined.

Definition thread_states : list State2Idx :=
  [mkState 1 "ready"; mkState 2 "working"; mkState 3 "terminated"; mkState 4 "destroyed"].
Definition thread_trans : list (string * string) :=
  [("ready", "working"); ("working", "terminated"); ("terminated", "destroyed"); ("ready", "destroyed")].

Definition allStates : list State2Idx := states_array thread_states.
Definition allTrans : list StateTransition := trans_array thread_trans.

Definition state_name (s : ThreadState) : string :=
  match s with ready => "ready" | working => "working" | terminated => "terminated" | destroyed => "destroyed" end.

(** [ThreadState::check_moving_to] on the map of the class. *)
Definition check_moving_to (from to : ThreadState) : outcome unit :=
  m ← new_StateMap 3 allStates allTrans;
  f ← create_state m (state_name from);
  t ← create_state m (state_name to);
  check_transition m f t.

(** ** The object *)

Record SThread := mkThread {
  currentState : ThreadState;
  stopEvent : bool;
  exitRequested : bool;
  isTerminatedEvent : bool;           (** an event that one waiter resets *)
  waitCnt : Z;
  externalTerminated : option bool    (** of the owner, if it gave one *)
}.

Definition new_SThread (ext : option bool) : SThread := mkThread ready false false false 0 ext.

Definition set_state (s : ThreadState) (t : SThread) : SThread :=
  mkThread s (stopEvent t) (exitRequested t) (isTerminatedEvent t) (waitCnt t) (externalTerminated t).
Definition set_event (v : bool) (t : SThread) : SThread :=
  mkThread (currentState t) (stopEvent t) (exitRequested t) v (waitCnt t) (externalTerminated t).
Definition set_waitCnt (n : Z) (t : SThread) : SThread :=
  mkThread (currentState t) (stopEvent t) (exitRequested t) (isTerminatedEvent t) n (externalTerminated t).
Definition signal_owner (t : SThread) : SThread :=
  mkThread (currentState t) (stopEvent t) (exitRequested t) (isTerminatedEvent t) (waitCnt t)
    ((fun _ => true) <$> externalTerminated t).

Definition state_is (t : SThread) (s : ThreadState) : bool := bool_decide (currentState t = s).
Definition is_running (t : SThread) : bool := state_is t working.

(** [SThread::stop] *)
Definition stop (t : SThread) : SThread :=
  mkThread (currentState t) true true (isTerminatedEvent t) (waitCnt t) (externalTerminated t).

(** ** The thread itself: [_run] *)

(** [R]: where the thread is in its [run]. *)
Inductive body (R : Type) :=
| NotStarted
| Running (r : R)  (** in [run] *)
| Ending           (** behind it, exceptions caught *)
| Moved            (** the state is set *)
| Signalled        (** the event of the owner is set *)
| Finished         (** [isTerminatedEvent] is set *)
| Crashed.         (** an exception left [_run] *)

Arguments NotStarted {R}.
Arguments Running {R} r.
Arguments Ending {R}.
Arguments Moved {R}.
Arguments Signalled {R}.
Arguments Finished {R}.
Arguments Crashed {R}.

(** [o]: what [run] does next, [None] when it returns or throws; both end in [Ending]. *)
Definition _run {R} (o : option R) (t : SThread) (b : body R) : option (SThread * body R) :=
  match b with
  | NotStarted | Finished | Crashed => None
  | Running _ => Some (t, match o with Some r => Running r | None => Ending end)
  | Ending =>
      match check_moving_to (currentState t) terminated with
      | Got _ => Some (set_state terminated t, Moved)
      | Err _ => Some (t, Crashed)
      end
  | Moved => Some (signal_owner t, Signalled)
  | Signalled => Some (set_event true t, Finished)
  end.

(** ** The memory of the object *)

Inductive memory :=
| Whole
| BaseOnly       (** the destructors of the derived classes are over *)
| Freed
| Touched.       (** used when it was freed: anything can happen *)

#[export] Instance memory_eq_dec : EqDecision memory.
Proof. solve_decision. Defined.

(** ** Callers *)

Inductive instr :=
| IStart
| IStop
| IIfRunning     (** [ThreadStopper] *)
| IWait          (** the first part of [wait] *)
| IBlock         (** [isTerminatedEvent.wait ()] *)
| ILeave         (** [waitCnt--] *)
| IDelete        (** [delete]: the destructors of the derived classes *)
| IDtor          (** the first part of [~SThread] *)
| IDestroy.      (** the last one, and the memory *)

(** The object, its thread, its memory and what the caller has still to do; [None]: the
    caller waits. *)
Abbreviation result R := (option (SThread * body R * memory * list instr)).

Section Calls.
Context {R : Type} (run0 : R).

(** [SThread::start]; [created]: the system made the thread.  The new thread runs before the
    state is set, but the state is read only under the lock that [start] holds.  An
    exception ends the calls. *)
Definition start (created : bool) (k : list instr) (t : SThread) (b : body R) (m : memory) : result R :=
  match check_moving_to (currentState t) working with
  | Err _ => Some (t, b, m, [])
  | Got _ => if created then Some (set_state working t, Running run0, m, k) else Some (t, b, m, [])
  end.

(** [SThread::wait]: under the lock, then on the event.  The shutdown of the process ends
    every wait ([XShuttingDown], caught in [wait]). *)
Definition wait_enter (k : list instr) (t : SThread) (b : body R) (m : memory) : result R :=
  if state_is t terminated || state_is t ready then Some (t, b, m, k)
  else Some (set_waitCnt (waitCnt t + 1) t, b, m, IBlock :: ILeave :: k).

Definition wait_event (shutdown : bool) (k : list instr) (t : SThread) (b : body R) (m : memory) : result R :=
  if shutdown then Some (t, b, m, k)
  else if isTerminatedEvent t then Some (set_event false t, b, m, k)
  else None.

(** [SThread::~SThread].  An exception leaves the destructor and ends the calls; the memory
    is given back all the same. *)
Definition dtor_begin (k : list instr) (t : SThread) (b : body R) (m : memory) : result R :=
  let needStop := state_is t working && negb (exitRequested t) in
  let needWait := needStop || exitRequested t in
  Some (t, b, m, (if needStop then [IStop] else []) ++ (if needWait then [IWait] else []) ++ IDestroy :: k).

Definition dtor_end (k : list instr) (t : SThread) (b : body R) : result R :=
  match check_moving_to (currentState t) destroyed with
  | Got _ => Some (set_state destroyed t, b, Freed, k)
  | Err _ => Some (t, b, Freed, [])
  end.

Definition exec (shutdown created : bool) (i : instr) (k : list instr)
    (t : SThread) (b : body R) (m : memory) : result R :=
  match i with
  | IStart => start created k t b m
  | IStop => Some (stop t, b, m, k)
  | IIfRunning => Some (t, b, m, if is_running t then IStop :: k else k)
  | IWait => wait_enter k t b m
  | IBlock => wait_event shutdown k t b m
  | ILeave => Some (set_waitCnt (waitCnt t - 1) t, b, m, k)
  | IDelete => Some (t, b, BaseOnly, IDtor :: k)
  | IDtor => dtor_begin k t b m
  | IDestroy => dtor_end k t b
  end.

End Calls.

(** [ThreadRepository::delete_object_by_id] *)
Definition delete_object_by_id : list instr := [IStop; IWait; IDelete].

(** ** Interleaving *)

Definition usable (m : memory) : bool := match m with Whole | BaseOnly => true | _ => false end.

Record config (R : Type) := mkConfig {
  obj : SThread; where_ : body R; mem : memory; shutdown : bool; callers : list (list instr)
}.
Arguments mkConfig {R}.
Arguments obj {R}.
Arguments where_ {R}.
Arguments mem {R}.
Arguments shutdown {R}.
Arguments callers {R}.

Section Steps.
Context {R : Type} (run0 : R) (run : bool -> bool -> R -> option R -> Prop).

(** A step of a caller; the memory it needs may be freed. *)
Inductive call_step : config R -> config R -> Prop :=
| step_caller t b m sd cs n i k created t' b' m' k' : usable m = true ->
    cs !! n = Some (i :: k) -> exec run0 sd created i k t b m = Some (t', b', m', k') ->
    call_step (mkConfig t b m sd cs) (mkConfig t' b' m' sd (<[n := k']> cs))
| step_caller_freed t b sd cs n i k : cs !! n = Some (i :: k) ->
    call_step (mkConfig t b Freed sd cs) (mkConfig t b Touched sd cs).

(** A step of the thread; in [run] it does what [run] allows. *)
Inductive run_step : config R -> config R -> Prop :=
| step_run t b m sd cs o t' b' : usable m = true ->
    (forall r, b = Running r -> run (stopEvent t) sd r o) -> _run o t b = Some (t', b') ->
    run_step (mkConfig t b m sd cs) (mkConfig t' b' m sd cs)
| step_run_freed t b sd cs : is_Some (_run None t b) ->
    run_step (mkConfig t b Freed sd cs) (mkConfig t b Touched sd cs).

Definition step (c c' : config R) : Prop := call_step c c' \/ run_step c c'.

(** Also the process may be shut down. *)
Inductive any_step : config R -> config R -> Prop :=
| any_one c c' : step c c' -> any_step c c'
| any_shutdown t b m cs : any_step (mkConfig t b m false cs) (mkConfig t b m true cs).

Definition initial (ext : option bool) (cs : list (list instr)) : config R :=
  mkConfig (new_SThread ext) NotStarted Whole false cs.

(** What a thread promises that looks at its stop event: once it is set, [run] always has
    something to do and comes nearer to its return. *)
Record obeys_stop (left : R -> nat) : Prop := {
  obeys_goes_on : forall sd r, exists o, run true sd r o;
  obeys_returns : forall sd r r', run true sd r (Some r') -> (left r' < left r)%nat
}.

End Steps.

(** ** The states fit the thread *)

Definition may_move (from to : ThreadState) : bool :=
  match from, to with
  | ready, working | working, terminated | terminated, destroyed | ready, destroyed => true
  | _, _ => false
  end.

Lemma check_moving_eq from to :
  check_moving_to from to = if may_move from to then Got tt else Err (InvalidStateTransition (state_name from) (state_name to)).
Proof. destruct from, to; vm_compute; reflexivity. Qed.

#[global] Opaque check_moving_to.

Definition moves (s s' : ThreadState) : Prop := s' = s \/ may_move s s' = true.

(** The thread is in [run], or has not said yet that it left it. *)
Definition in_run {R} (b : body R) : Prop := match b with Running _ | Ending => True | _ => False end.

Definition life {R} (t : SThread) (b : body R) : Prop :=
  match b with
  | NotStarted => currentState t = ready \/ currentState t = destroyed
  | Running _ | Ending => currentState t = working
  | Moved | Signalled | Finished => currentState t = terminated \/ currentState t = destroyed
  | Crashed => False
  end.

Tactic Notation "unfold_exec" := unfold exec, start, wait_enter, wait_event, dtor_begin, dtor_end.
Tactic Notation "unfold_exec" "in" ident(H) := unfold exec, start, wait_enter, wait_event, dtor_begin, dtor_end in H.

Section Props.
Context {R : Type} (run0 : R) (run : bool -> bool -> R -> option R -> Prop).
Implicit Types (b : body R) (c : config R).

Lemma exec_life sd created i k t b m t' b' m' k' : life t b -> exec run0 sd created i k t b m = Some (t', b', m', k') ->
  life t' b' /\ moves (currentState t) (currentState t').
Proof.
  unfold moves. intros Hl. destruct i; unfold_exec; rewrite ?check_moving_eq; intros He.
  - destruct (currentState t) eqn:Es; cbn in He; [|by simplify_eq; rewrite Es; auto..].
    destruct created; simplify_eq; cbn; [by auto|]. rewrite Es. auto.
  - by simplify_eq; destruct b'; auto.
  - by simplify_eq; auto.
  - destruct (_ || _); simplify_eq; [by auto|]. by destruct b'; auto.
  - destruct sd; simplify_eq; [by auto|]. destruct (isTerminatedEvent t); simplify_eq. by destruct b'; auto.
  - by simplify_eq; destruct b'; auto.
  - by simplify_eq; auto.
  - by simplify_eq; auto.
  - destruct (currentState t) eqn:Es; cbn in He; simplify_eq; cbn; (split; [|by auto]); destruct b'; cbn in *; intuition congruence.
Qed.

Lemma run_life o t b t' b' : life t b -> _run o t b = Some (t', b') -> life t' b' /\ moves (currentState t) (currentState t').
Proof.
  unfold moves. intros Hl. destruct b; unfold _run; rewrite ?check_moving_eq; intros Hr; try discriminate Hr.
  - destruct o; injection Hr as <- <-; auto.
  - cbn in Hl. rewrite Hl in *. injection Hr as <- <-. cbn. auto.
  - injection Hr as <- <-. auto.
  - injection Hr as <- <-. auto.
Qed.

Lemma step_life c c' : life (obj c) (where_ c) -> any_step run0 run c c' ->
  life (obj c') (where_ c') /\ moves (currentState (obj c)) (currentState (obj c')).
Proof.
  intros Hl Hs. destruct Hs as [c c' [Hs|Hs]|]; [destruct Hs as [t b m sd cs n i k created t' b' m' k' _ _ He|]|
    destruct Hs as [t b m sd cs o t' b' _ _ Hr|]|]; cbn in *; try (split; [done|by left]).
  - exact (exec_life _ _ _ _ _ _ _ _ _ _ _ Hl He).
  - exact (run_life _ _ _ _ _ Hl Hr).
Qed.

Lemma reachable_life ext cs c : rtc (any_step run0 run) (initial ext cs) c -> life (obj c) (where_ c).
Proof.
  apply (rtc_ind_r (fun c => life (obj c) (where_ c))); [by left|]. intros c1 c2 _ Hs Hl. by eapply step_life.
Qed.

(** ** The owner and the others *)

Definition plain (i : instr) : bool := match i with IStart | IStop | IIfRunning | IWait => true | _ => false end.
Definition onlooker (i : instr) : bool := match i with IStop | IIfRunning | IWait => true | _ => false end.

(** The calls of an owner: it does nothing with the thread once it has deleted it; if it is
    [strict] it deletes only with [delete_object_by_id]. *)
Definition owner_calls (strict : bool) (k : list instr) : Prop :=
  exists p, Forall (fun i => plain i = true) p /\
    (k = p \/ k = p ++ if strict then delete_object_by_id else [IDelete]).

Definition idle (t : SThread) : Prop := currentState t <> working.

(** What is left of the destructor; [waited]: behind its [wait]. *)
Inductive dtor_rest : bool -> list instr -> Prop :=
| rest_begin : dtor_rest false [IDtor]
| rest_stop : dtor_rest false [IStop; IWait; IDestroy]
| rest_wait : dtor_rest false [IWait; IDestroy]
| rest_block : dtor_rest false [IBlock; ILeave; IDestroy]
| rest_leave : dtor_rest true [ILeave; IDestroy]
| rest_last : dtor_rest true [IDestroy].

(** What the owner has still to do, and when the thread cannot be working any more; a
    shutdown of the process breaks the latter. *)
Inductive owner (strict sd : bool) (t : SThread) : memory -> list instr -> Prop :=
| owner_next k : owner_calls strict k -> owner strict sd t Whole k
| owner_leaves k : owner_calls strict k -> owner strict sd t Whole (ILeave :: k)
| owner_blocks k : owner_calls strict k -> owner strict sd t Whole (IBlock :: ILeave :: k)
| owner_waits : owner strict sd t Whole [IWait; IDelete]
| owner_waits_block : owner strict sd t Whole [IBlock; ILeave; IDelete]
| owner_waited : (sd = false -> idle t) -> owner strict sd t Whole [ILeave; IDelete]
| owner_deletes : (sd = false -> strict = true -> idle t) -> owner strict sd t Whole [IDelete]
| owner_destroys waited k : dtor_rest waited k ->
    (sd = false -> (strict = true \/ waited = true) -> idle t) -> owner strict sd t BaseOnly k
| owner_over m : usable m = false -> (sd = false -> idle t) -> owner strict sd t m [].

Create HintDb thread.
#[local] Hint Constructors dtor_rest owner : thread.

Lemma owner_mono strict sd sd' t t' m k : (sd' = false -> sd = false) -> (sd' = false -> idle t -> idle t') ->
  owner strict sd t m k -> owner strict sd' t' m k.
Proof.
  intros Hs Hi Ho. destruct Ho; [by apply owner_next|by apply owner_leaves|by apply owner_blocks|by apply owner_waits|
    by apply owner_waits_block|apply owner_waited|apply owner_deletes|eapply owner_destroys|apply owner_over]; eauto.
Qed.

Lemma owner_calls_inv strict i k : owner_calls strict (i :: k) ->
  (plain i = true /\ owner_calls strict k) \/ (strict = true /\ i = IStop /\ k = [IWait; IDelete]) \/
  (strict = false /\ i = IDelete /\ k = []).
Proof.
  intros ([|x p] & Hp & [Hk|Hk]); [discriminate Hk| | |].
  - right. destruct strict; injection Hk as -> ->; auto.
  - left. injection Hk as -> ->. apply Forall_cons in Hp as [Hi Hp]. split; [done|]. exists p. auto.
  - left. injection Hk as -> ->. apply Forall_cons in Hp as [Hi Hp]. split; [done|]. exists p. auto.
Qed.

Lemma owner_calls_cons strict i k : plain i = true -> owner_calls strict k -> owner_calls strict (i :: k).
Proof. intros Hi (p & Hp & [-> | ->]); exists (i :: p); (split; [by constructor|auto]). Qed.

Lemma owner_calls_nil strict : owner_calls strict [].
Proof. exists []. auto. Qed.

#[local] Hint Resolve owner_calls_nil owner_calls_cons : thread.

(** The event is set only behind the change of the state, and a usable object is not
    destroyed. *)
Record kept (t : SThread) (m : memory) : Prop := {
  kept_event : isTerminatedEvent t = true -> currentState t = terminated \/ currentState t = destroyed;
  kept_alive : usable m = true -> currentState t <> destroyed
}.

Lemma exec_kept sd created i k t b m t' b' m' k' : kept t m -> usable m = true ->
  exec run0 sd created i k t b m = Some (t', b', m', k') -> kept t' m'.
Proof.
  intros [He Ha] Hm. specialize (Ha Hm). destruct i; unfold_exec; rewrite ?check_moving_eq; intros H.
  - destruct (currentState t) eqn:Es; cbn in H; [destruct created|..]; simplify_eq; (split; cbn; [|congruence]); try (rewrite Es; done).
    intros Hv. destruct (He Hv); congruence.
  - simplify_eq. by split.
  - simplify_eq. by split.
  - destruct (_ || _); simplify_eq; by split.
  - destruct sd; simplify_eq; [by split|]. destruct (isTerminatedEvent t) eqn:E; simplify_eq. by split.
  - simplify_eq. by split.
  - simplify_eq. by split.
  - simplify_eq. by split.
  - destruct (may_move _ _) eqn:Em; simplify_eq; (split; [|done]); [by right|done].
Qed.

Lemma run_kept o t b m t' b' : kept t m -> life t b -> _run o t b = Some (t', b') -> usable m = true -> kept t' m.
Proof.
  intros [He Ha] Hl. destruct b; unfold _run; rewrite ?check_moving_eq; intros H Hm; specialize (Ha Hm); try discriminate H; cbn in Hl.
  - destruct o; injection H as <- <-; by split.
  - rewrite Hl in *. injection H as <- <-. split; cbn; auto.
  - injection H as <- <-. by split.
  - injection H as <- <-. split; cbn; auto.
Qed.

Lemma wait_enter_idle k t b m t' b' m' k' : currentState t <> destroyed -> wait_enter k t b m = Some (t', b', m', k') ->
  b' = b /\ m' = m /\ currentState t' = currentState t /\
  ((k' = k /\ idle t) \/ (k' = IBlock :: ILeave :: k /\ currentState t = working)).
Proof.
  intros Hd. unfold wait_enter, state_is, idle.
  destruct (currentState t) eqn:Es; cbn; intros [= <- <- <- <-]; cbn; rewrite ?Es; auto 8; done.
Qed.

Lemma wait_event_idle sd k t b m t' b' m' k' : kept t m -> wait_event sd k t b m = Some (t', b', m', k') ->
  b' = b /\ m' = m /\ k' = k /\ currentState t' = currentState t /\ (sd = false -> idle t').
Proof.
  intros [He _]. unfold wait_event, idle. destruct sd; [by intros [= <- <- <- <-]|].
  destruct (isTerminatedEvent t); [|done]. intros [= <- <- <- <-]. cbn.
  destruct (He eq_refl) as [-> | ->]; repeat split; intros; discriminate.
Qed.

(** One step of the owner, before it deletes the thread. *)
Lemma exec_plain strict sd created i k t b t' b' m' k' : kept t Whole -> plain i = true -> owner_calls strict k ->
  exec run0 sd created i k t b Whole = Some (t', b', m', k') -> owner strict sd t' m' k'.
Proof.
  intros [_ Hk] Hp Hc. specialize (Hk eq_refl). destruct i; try discriminate Hp; cbn [exec].
  - unfold start. rewrite check_moving_eq. intros H. destruct (may_move _ _); [destruct created|]; simplify_eq; auto with thread.
  - intros H. simplify_eq. auto with thread.
  - intros H. simplify_eq. apply owner_next. destruct (is_running t'); auto with thread.
  - intros H. apply wait_enter_idle in H as (-> & -> & _ & [[-> _]|[-> _]]); auto with thread.
Qed.

(** One step of the destructor. *)
Lemma exec_dtor strict sd created waited i k t b t' b' m' k' : kept t BaseOnly -> dtor_rest waited (i :: k) ->
  (sd = false -> (strict = true \/ waited = true) -> idle t) ->
  exec run0 sd created i k t b BaseOnly = Some (t', b', m', k') -> owner strict sd t' m' k'.
Proof.
  intros Hk Hr Hi. inversion Hr; subst; clear Hr; cbn [exec].
  - unfold dtor_begin. intros [= <- <- <- <-]. destruct (state_is t working && negb (exitRequested t)) eqn:E1; cbn.
    { apply (owner_destroys _ _ _ false); [constructor|]. naive_solver. }
    destruct (exitRequested t); cbn; [apply (owner_destroys _ _ _ false); [constructor|naive_solver]|].
    apply (owner_destroys _ _ _ true); [constructor|]. intros _ _. unfold idle. rewrite andb_true_r in E1. by apply bool_decide_eq_false in E1.
  - intros [= <- <- <- <-]. apply (owner_destroys _ _ _ false); [constructor|]. exact Hi.
  - intros H. apply wait_enter_idle in H as (-> & -> & Hs & [[-> Hj]|[-> _]]); [..|by apply Hk].
    + apply (owner_destroys _ _ _ true); [constructor|]. intros _ _. unfold idle. by rewrite Hs.
    + apply (owner_destroys _ _ _ false); [constructor|]. unfold idle. by rewrite Hs.
  - intros (-> & -> & -> & _ & Hj)%(wait_event_idle _ _ _ _ _ _ _ _ _ Hk). apply (owner_destroys _ _ _ true); [constructor|auto].
  - intros [= <- <- <- <-]. apply (owner_destroys _ _ _ true); [constructor|]. intros; apply Hi; auto.
  - unfold dtor_end. intros H. destruct (check_moving_to _ _); simplify_eq; (apply owner_over; [done|]); [done|]. auto.
Qed.

Lemma exec_owner strict sd created i k t b m t' b' m' k' : kept t m -> usable m = true -> owner strict sd t m (i :: k) ->
  exec run0 sd created i k t b m = Some (t', b', m', k') -> owner strict sd t' m' k'.
Proof.
  intros Hk Hm Ho. inversion Ho as [k0 Hc|k0 Hc|k0 Hc| | |Hi|Hi|w k0 Hr Hi|]; subst.
  - apply owner_calls_inv in Hc as [[Hp Hc]|[(-> & -> & ->)|(-> & -> & ->)]].
    + by eapply exec_plain.
    + intros [= <- <- <- <-]. auto with thread.
    + intros [= <- <- <- <-]. apply (owner_destroys _ _ _ false); [constructor|naive_solver].
  - intros [= <- <- <- <-]. auto with thread.
  - intros (-> & -> & -> & _)%(wait_event_idle _ _ _ _ _ _ _ _ _ Hk). auto with thread.
  - intros H. apply wait_enter_idle in H as (-> & -> & Hs & [[-> Hj]|[-> _]]); [apply owner_deletes|apply owner_waits_block|by apply Hk].
    unfold idle. by rewrite Hs.
  - intros (-> & -> & -> & _ & Hj)%(wait_event_idle _ _ _ _ _ _ _ _ _ Hk). by apply owner_waited.
  - intros [= <- <- <- <-]. apply owner_deletes. auto.
  - intros [= <- <- <- <-]. apply (owner_destroys _ _ _ false); [constructor|]. naive_solver.
  - by eapply exec_dtor.
Qed.

(** ** The others *)

Definition looks (i : instr) : bool := match i with IStop | IIfRunning | IWait | IBlock | ILeave => true | _ => false end.

Lemma exec_looks sd created i k t b m t' b' m' k' : looks i = true -> Forall (fun i => looks i = true) k ->
  exec run0 sd created i k t b m = Some (t', b', m', k') ->
  m' = m /\ b' = b /\ currentState t' = currentState t /\ Forall (fun i => looks i = true) k'.
Proof.
  intros Hi Hk. destruct i; try discriminate Hi; unfold_exec; intros He.
  - by simplify_eq.
  - simplify_eq. destruct (is_running t'); auto.
  - destruct (_ || _); simplify_eq; auto 7.
  - destruct sd; [by simplify_eq|]. destruct (isTerminatedEvent t); by simplify_eq.
  - by simplify_eq.
Qed.

Lemma run_idle o t b t' b' : life t b -> _run o t b = Some (t', b') -> idle t -> idle t'.
Proof.
  unfold idle. intros Hl Hr Hi. destruct b; unfold _run in Hr; rewrite ?check_moving_eq in Hr; try discriminate Hr;
    [done|done|by injection Hr as <- <-..].
Qed.

(** ** What holds in every configuration *)

Record owned (strict : bool) (c : config R) : Prop := {
  owned_life : life (obj c) (where_ c);
  owned_kept : kept (obj c) (mem c);
  owned_owner : exists k others, callers c = k :: others /\ owner strict (shutdown c) (obj c) (mem c) k /\
    Forall (Forall (fun i => looks i = true)) others
}.

Lemma owned_call strict c c' : owned strict c -> call_step run0 c c' -> owned strict c'.
Proof.
  intros [Hl Hk (k & os & Hc & Ho & Hs)] Hst.
  destruct Hst as [t b m sd cs n i k1 created t' b' m' k' Hm Hn He|t b sd cs n i k1 Hn]; cbn in *; subst cs.
  - split; cbn; [by eapply exec_life|by eapply exec_kept|]. destruct n as [|n]; cbn in *.
    + injection Hn as ->. exists k', os. split; [done|]. split; [|done]. by eapply exec_owner.
    + exists k, (<[n := k']> os). apply Forall_lookup_1 with (i := n) (x := i :: k1) in Hs as Hi; [|done].
      apply Forall_cons in Hi as [Hi Hk1]. destruct (exec_looks _ _ _ _ _ _ _ _ _ _ _ Hi Hk1 He) as (-> & -> & E & Hk').
      split; [done|]. split; [|by apply Forall_insert]. eapply owner_mono; [..|exact Ho]; [done|]. unfold idle. by rewrite E.
  - split; cbn; [done|by split; [apply Hk|]|]. exists k, os. split; [done|]. split; [|done].
    inversion Ho; subst. by apply owner_over.
Qed.

Lemma owned_run strict c c' : owned strict c -> run_step run c c' -> owned strict c'.
Proof.
  intros [Hl Hk (k & os & Hc & Ho & Hs)] Hst.
  destruct Hst as [t b m sd cs o t' b' Hm _ Hr|t b sd cs Hr]; cbn in *; subst cs.
  - split; cbn; [by eapply run_life|by eapply run_kept|]. exists k, os. split; [done|]. split; [|done].
    eapply owner_mono; [..|exact Ho]; [done|]. intros _. by eapply run_idle.
  - split; cbn; [done|by split; [apply Hk|]|]. exists k, os. split; [done|]. split; [|done].
    inversion Ho; subst. by apply owner_over.
Qed.

Lemma owned_step strict c c' : owned strict c -> any_step run0 run c c' -> owned strict c'.
Proof.
  intros Ho Hs. destruct Hs as [c c' [Hs|Hs]|t b m cs]; [by eapply owned_call|by eapply owned_run|].
  destruct Ho as [Hl Hk (k & os & Hc & Ho & Hs)]. split; [done|done|]. exists k, os. split; [done|]. split; [|done].
  eapply owner_mono; [..|exact Ho]; done.
Qed.

Lemma reachable_owned strict ext k others c : owner_calls strict k -> Forall (Forall (fun i => onlooker i = true)) others ->
  rtc (any_step run0 run) (initial ext (k :: others)) c -> owned strict c.
Proof.
  intros Hk Hs. apply (rtc_ind_r (owned strict)); [|intros; by eapply owned_step].
  split; [by left|by split|]. exists k, others. split; [done|]. split; [by apply owner_next|].
  apply (Forall_impl _ _ _ Hs). intros l Hl. apply (Forall_impl _ _ _ Hl). by intros [].
Qed.

(** The last move of the destructor is one of the table. *)
Lemma last_move strict t m k : owner strict false t m (IDestroy :: k) -> kept t m ->
  check_moving_to (currentState t) destroyed = Got tt.
Proof.
  intros Ho [_ Hk]. inversion Ho as [k0 Hc| | | | | | |w k0 Hr Hi|]; subst.
  - by apply owner_calls_inv in Hc as [[Hp _]|[(_ & He & _)|(_ & He & _)]].
  - inversion Hr; subst. specialize (Hi eq_refl (or_intror eq_refl)). specialize (Hk eq_refl). unfold idle in Hi.
    rewrite check_moving_eq. by destruct (currentState t).
Qed.

Lemma in_run_alive strict t b m k : owner strict false t m k -> life t b -> in_run b ->
  m = Whole \/ (strict = false /\ m = BaseOnly).
Proof.
  intros Ho Hl Hb. assert (~ idle t) as Hn. { unfold idle. intros Hi. by destruct b. }
  destruct Ho as [| | | | | | |w k Hr Hi|m Hm Hi]; auto; [|by destruct Hn; apply Hi].
  right. split; [|done]. destruct strict; [|done]. destruct Hn. apply Hi; auto.
Qed.


(** ** Every call returns *)

(** The owner waits only for a thread that it asked to stop or that does not run; the
    destructor asks by itself.  [q]: the thread does not run now. *)
Fixpoint stops_first (q : bool) (k : list instr) : bool :=
  match k with
  | IStart :: k => stops_first false k
  | IIfRunning :: k | IDelete :: k | IDtor :: k | IDestroy :: k => stops_first true k
  | IWait :: k => q && stops_first q k
  | ILeave :: k => stops_first q k
  | IBlock :: _ => false
  | [] | IStop :: _ => true
  end.

Lemma stops_first_mono k : stops_first false k = true -> stops_first true k = true.
Proof. induction k as [|[] k IH]; cbn; auto. intros H. discriminate H. Qed.

Definition asks (t : SThread) (k : list instr) : Prop :=
  stopEvent t = exitRequested t /\ (stopEvent t = true \/ stops_first (negb (is_running t)) k = true).

Lemma asks_state t t' k : stopEvent t' = stopEvent t -> exitRequested t' = exitRequested t ->
  (is_running t' = true -> is_running t = true) -> asks t k -> asks t' k.
Proof.
  intros E1 E2 Hi [Ha Hb]. unfold asks. rewrite E1, E2. split; [done|]. destruct Hb as [Hb|Hb]; [by left|right].
  destruct (is_running t'); [by rewrite Hi in Hb|]. destruct (is_running t); [by apply stops_first_mono|done].
Qed.

Lemma exec_asks sd created i k t b m t' b' m' k' : currentState t <> destroyed -> asks t (i :: k) ->
  exec run0 sd created i k t b m = Some (t', b', m', k') -> asks t' k'.
Proof.
  intros Hd [Ha Hb]. assert (forall k, stopEvent t = true -> asks t k) as Hst by (intros k0 Hk0; split; auto).
  destruct i; cbn [exec]; intros H.
  - unfold start in H. rewrite check_moving_eq in H. destruct (may_move _ _); [destruct created|]; simplify_eq; split; auto.
  - simplify_eq. split; [done|by left].
  - simplify_eq. destruct (is_running t') eqn:E; [split; [done|by right]|]. split; [done|]. by rewrite E.
  - apply wait_enter_idle in H as H'; [|done]. destruct H' as (_ & _ & Hs & Hw).
    assert (asks t k') as Hk. { destruct Hb as [Hb|Hb]; [by apply Hst|]. cbn in Hb. apply andb_prop in Hb as [Hq Hb].
      destruct Hw as [[-> _]|[_ Hw]]; [split; auto|]. unfold is_running, state_is in Hq. by rewrite Hw in Hq. }
    unfold wait_enter in H. destruct (_ || _); simplify_eq; done.
  - assert (stopEvent t = true) as Hs by (destruct Hb as [Hb|Hb]; [done|discriminate Hb]).
    unfold wait_event in H. destruct sd; [by simplify_eq; apply Hst|]. destruct (isTerminatedEvent t); simplify_eq. split; [done|by left].
  - simplify_eq. by split.
  - simplify_eq. split; [done|exact Hb].
  - unfold dtor_begin in H. simplify_eq. destruct (state_is t' working && _) eqn:E; cbn; [split; [done|by right]|].
    destruct (exitRequested t') eqn:Ex; [|split; [congruence|exact Hb]]. by apply Hst.
  - unfold dtor_end in H. destruct (check_moving_to _ _); simplify_eq; (split; [done|]); [exact Hb|by right].
Qed.

(** *** Runs are finite *)

Context (left : R -> nat).

Definition weight_i (i : instr) : nat :=
  match i with
  | IStart => left run0 + 6 | IStop => 1 | IIfRunning => 2 | IWait => 4 | IBlock => 2 | ILeave => 1
  | IDelete => 9 | IDtor => 8 | IDestroy => 2
  end.
Definition weight_k (k : list instr) : nat := sum_list (weight_i <$> k).
Definition weight_m (m : memory) : nat := match m with Freed => 1 | _ => 0 end.
Definition weight_b (b : body R) : nat :=
  match b with Running r => left r + 4 | Ending => 3 | Moved => 2 | Signalled => 1 | NotStarted | Finished | Crashed => 0 end.

(** What the callers have still to do, and everything. *)
Definition work (c : config R) : nat := weight_m (mem c) + sum_list (weight_k <$> callers c).
Definition weight (c : config R) : nat := (if shutdown c then 0 else 1) + weight_b (where_ c) + work c.

Lemma exec_weight sd created i k t b m t' b' m' k' : usable m = true -> exec run0 sd created i k t b m = Some (t', b', m', k') ->
  (weight_m m' + weight_k k' < weight_m m + weight_k (i :: k))%nat /\
  (life t b -> weight_b b' + weight_m m' + weight_k k' < weight_b b + weight_m m + weight_k (i :: k))%nat.
Proof.
  intros Hm. change (weight_k (i :: k)) with (weight_i i + weight_k k)%nat.
  assert (weight_m m = 0%nat) as Hm0 by (destruct m; done).
  destruct i; cbn [exec weight_i]; unfold_exec; rewrite ?check_moving_eq; intros He.
  - destruct (may_move _ _) eqn:Em; [|simplify_eq; unfold weight_k; cbn; lia]. destruct created; simplify_eq; [|unfold weight_k; cbn; lia].
    cbn. split; [lia|]. intros Hl. destruct b; cbn in Hl |- *; try lia; by rewrite Hl in Em.
  - simplify_eq. lia.
  - destruct (is_running t); simplify_eq; unfold weight_k; cbn; lia.
  - destruct (_ || _); simplify_eq; unfold weight_k; cbn; lia.
  - destruct sd; [simplify_eq; lia|]. destruct (isTerminatedEvent t); simplify_eq. lia.
  - simplify_eq. lia.
  - simplify_eq. unfold weight_k. cbn. lia.
  - injection He as <- <- <- <-. destruct (state_is t working && _); cbn; destruct (exitRequested t); unfold weight_k; cbn; lia.
  - destruct (may_move _ _); simplify_eq; unfold weight_k; cbn; lia.
Qed.

Lemma sum_insert (l : list nat) n a a' : l !! n = Some a -> (sum_list (<[n := a']> l) + a = sum_list l + a')%nat.
Proof.
  revert n. induction l as [|x l IH]; intros [|n] H; cbn in *; [done|done|injection H as ->; lia|].
  rewrite <- Nat.add_assoc. etrans; [exact (f_equal (Nat.add x) (IH n H))|lia].
Qed.

Lemma call_weight c c' : call_step run0 c c' -> (work c' < work c)%nat /\ (life (obj c) (where_ c) -> weight c' < weight c)%nat.
Proof.
  intros Hs. destruct Hs as [t b m sd cs n i k created t' b' m' k' Hm Hn He|t b sd cs n i k Hn]; unfold weight, work; cbn; [|lia].
  destruct (exec_weight _ _ _ _ _ _ _ _ _ _ _ Hm He) as [H1 H2]. rewrite list_fmap_insert.
  pose proof (sum_insert (weight_k <$> cs) n (weight_k (i :: k)) (weight_k k')) as H.
  rewrite list_lookup_fmap, Hn in H. specialize (H eq_refl). split; [lia|]. intros Hl. specialize (H2 Hl). lia.
Qed.

Lemma any_work c c' : any_step run0 run c c' -> (work c' <= work c)%nat.
Proof.
  intros [c1 c2 [Hs|Hs]|t b m cs]; [apply call_weight in Hs; lia| |done].
  by destruct Hs; unfold work; cbn; [|lia].
Qed.

(** One more step of a caller, whatever happens before it. *)
Definition turn (c c' : config R) : Prop := exists c1, rtc (any_step run0 run) c c1 /\ call_step run0 c1 c'.

Lemma turns_end c : sn turn c.
Proof.
  remember (work c) as w eqn:Hw. revert c Hw. induction (lt_wf w) as [w _ IH]. intros c ->. constructor.
  intros c' (c1 & Hr & Hs). eapply IH; [|done]. apply call_weight in Hs as [Hs _].
  assert (work c1 <= work c)%nat; [|lia]. clear Hs. induction Hr as [|c c2 c1 H1 _ IHr]; [done|]. apply any_work in H1.
  etrans; [|exact H1]. apply IHr. intros y Hy. apply IH. lia.
Qed.

Context (Hobeys : obeys_stop run left).

Lemma run_weight o sd t b t' b' : life t b -> stopEvent t = true -> (forall r, b = Running r -> run (stopEvent t) sd r o) ->
  _run o t b = Some (t', b') -> (weight_b b' < weight_b b)%nat.
Proof.
  intros Hl Hst Ho Hr. destruct b; unfold _run in Hr; rewrite ?check_moving_eq in Hr; try discriminate Hr.
  - specialize (Ho _ eq_refl). rewrite Hst in Ho. injection Hr as <- <-. destruct o as [r'|]; cbn; [|lia].
    apply (obeys_returns _ _ Hobeys) in Ho. lia.
  - cbn in Hl. rewrite Hl in Hr. injection Hr as <- <-. cbn. lia.
  - injection Hr as <- <-. cbn. lia.
  - injection Hr as <- <-. cbn. lia.
Qed.

Lemma exec_stays sd created i k t b m t' b' m' k' : exec run0 sd created i k t b m = Some (t', b', m', k') ->
  stopEvent t = true -> stopEvent t' = true.
Proof.
  intros H Ht. destruct i; unfold_exec in H; rewrite ?check_moving_eq in H; repeat case_match; simplify_eq; done.
Qed.

Lemma run_stays o t b t' b' : _run o t b = Some (t', b') -> stopEvent t' = stopEvent t /\ exitRequested t' = exitRequested t.
Proof.
  intros H. destruct b; unfold _run in H; rewrite ?check_moving_eq in H; repeat case_match; simplify_eq; done.
Qed.

Lemma stopped_ends c : life (obj c) (where_ c) -> stopEvent (obj c) = true -> sn (any_step run0 run) c.
Proof.
  remember (weight c) as w eqn:Hw. revert c Hw. induction (lt_wf w) as [w _ IH]. intros c -> Hl Ht. constructor.
  intros c' Hs. destruct (step_life _ _ Hl Hs) as [Hl' _].
  assert (weight c' < weight c /\ stopEvent (obj c') = true)%nat as [Hw Ht']; [|by eapply IH].
  destruct Hs as [c c' [Hs|Hs]|]; [|destruct Hs as [t b m sd cs o t' b' Hm Ho Hr|]|]; cbn in *; [..|split; [unfold weight, work; cbn; lia|done]].
  - split; [by apply call_weight|]. destruct Hs; cbn in *; [by eapply exec_stays|done].
  - apply run_stays in Hr as Hr'. destruct Hr' as [E _]. rewrite E. split; [|done].
    apply (run_weight _ _ _ _ _ _ Hl Ht Ho) in Hr. unfold weight, work. cbn. lia.
  - split; [unfold weight, work; cbn; lia|done].
Qed.

(** *** No wake-up is lost *)

(** When the owner is the only one who waits, the event is set or will be. *)
Definition wakes (t : SThread) (b : body R) (k : list instr) : Prop :=
  forall k', k = IBlock :: k' ->
    (currentState t = working \/ currentState t = terminated) /\ (b = Finished -> isTerminatedEvent t = true).

Lemma owner_one_block strict sd t m i k : owner strict sd t m (i :: IBlock :: k) -> False.
Proof.
  assert (forall k', owner_calls strict (IBlock :: k') -> False) as H.
  { intros k' [[? _]|[(_ & ? & _)|(_ & ? & _)]]%owner_calls_inv; done. }
  intros Ho. inversion Ho as [k0 Hc|k0 Hc|k0 Hc| | |Hi|Hi|w k0 Hr Hi|]; subst; [|by eapply H|inversion Hr].
  apply owner_calls_inv in Hc as [[_ Hc]|[(_ & _ & ?)|(_ & _ & ?)]]; [by eapply H|done|done].
Qed.

Lemma exec_wakes strict sd created i k t b m t' b' m' k' : kept t m -> life t b -> usable m = true -> owner strict sd t m (i :: k) ->
  exec run0 sd created i k t b m = Some (t', b', m', k') -> wakes t' b' k'.
Proof.
  intros [_ Hk] Hl Hm Ho He k1 Hk1. specialize (Hk Hm). assert (k <> IBlock :: k1) as Hn. { intros ->. by eapply owner_one_block. }
  destruct i; unfold_exec in He; rewrite ?check_moving_eq in He.
  - destruct (may_move _ _); [destruct created|]; simplify_eq.
  - simplify_eq.
  - destruct (is_running t); simplify_eq.
  - apply (wait_enter_idle _ _ _ _ _ _ _ _ Hk) in He as (-> & -> & Hs & [[-> _]|[-> Hw]]); [done|].
    rewrite Hs. split; [by left|]. intros ->. cbn in Hl. rewrite Hw in Hl. by destruct Hl.
  - destruct sd; simplify_eq. destruct (isTerminatedEvent t); simplify_eq.
  - simplify_eq.
  - simplify_eq.
  - simplify_eq. destruct (state_is t' working && _); [done|]. destruct (exitRequested t'); done.
  - destruct (may_move _ _); simplify_eq.
Qed.

Lemma run_wakes o t b t' b' k : life t b -> _run o t b = Some (t', b') -> wakes t b k -> wakes t' b' k.
Proof.
  intros Hl Hr Hw k' Hk. destruct (Hw k' Hk) as [Hs Hf]. revert Hr. unfold _run. destruct b; rewrite ?check_moving_eq; intros Hr; try discriminate Hr.
  - destruct o; injection Hr as <- <-; by split.
  - cbn in Hl. rewrite Hl in Hr. injection Hr as <- <-. cbn. naive_solver.
  - injection Hr as <- <-. cbn. naive_solver.
  - injection Hr as <- <-. cbn. naive_solver.
Qed.

Record calm (strict : bool) (c : config R) : Prop := {
  calm_owned : owned strict c;
  calm_one : exists k, callers c = [k] /\ asks (obj c) k /\ wakes (obj c) (where_ c) k
}.

Lemma run_asks o t b t' b' k : life t b -> _run o t b = Some (t', b') -> asks t k -> asks t' k.
Proof.
  intros Hl Hr. destruct (run_stays _ _ _ _ _ Hr) as [E1 E2]. apply asks_state; [done|done|].
  unfold is_running, state_is. rewrite !bool_decide_eq_true. intros Hw. destruct (currentState t) eqn:Es; [|done|..];
    exfalso; refine (run_idle _ _ _ _ _ Hl Hr _ Hw); unfold idle; by rewrite Es.
Qed.

Lemma calm_step strict c c' : calm strict c -> any_step run0 run c c' -> calm strict c'.
Proof.
  intros [How (k & Hc & Ha & Hw)] Hs. split; [by eapply owned_step|].
  destruct How as [Hl Hk (k1 & os & Hc1 & Ho & _)]. rewrite Hc in Hc1. injection Hc1 as <- <-.
  destruct Hs as [c c' [Hs|Hs]|t b m cs]; [destruct Hs as [t b m sd cs n i k1 created t' b' m' k' Hm Hn He|t b sd cs n i k1 Hn]|
    destruct Hs as [t b m sd cs o t' b' Hm _ Hr|t b sd cs _]|]; cbn in *; subst cs; [| |exists k; split; [done|]..].
  - destruct n as [|n]; [|done]. injection Hn as ->. exists k'. split; [done|].
    split; [eapply exec_asks; [by apply Hk|..]; done|by eapply exec_wakes].
  - destruct n as [|n]; [|done]. injection Hn as ->. inversion Ho.
  - split; [by eapply run_asks|by eapply run_wakes].
  - done.
  - done.
Qed.

Lemma run_goes_on t b : life t b -> stopEvent t = true \/ ~ in_run b -> b = NotStarted \/ b = Finished \/
  forall sd, exists o, (forall r, b = Running r -> run (stopEvent t) sd r o) /\ is_Some (_run o t b).
Proof.
  intros Hl Hs. destruct b as [|r| | | | |]; auto; right; right; intros sd; [|exists None; split; [done|]..].
  - destruct Hs as [Hs|Hs]; [|by destruct Hs]. destruct (obeys_goes_on _ _ Hobeys sd r) as [o Ho]. exists o.
    split; [intros r' [= <-]; by rewrite Hs|]. by eexists.
  - cbn in *. rewrite check_moving_eq, Hl. by eexists.
  - by eexists.
  - by eexists.
  - done.
Qed.

Lemma run_either (o o' : option R) t b x : _run o t b = Some x -> is_Some (_run o' t b).
Proof.
  destruct b; unfold _run; rewrite ?check_moving_eq; intros H; try discriminate H; try (eexists; reflexivity).
  destruct (may_move _ _); eexists; reflexivity.
Qed.

(** Where nothing can happen any more to a thread that was asked to stop, it is over. *)
Lemma final_thread c : life (obj c) (where_ c) -> nf (step run0 run) c -> stopEvent (obj c) = true ->
  where_ c = NotStarted \/ where_ c = Finished \/ mem c = Touched.
Proof.
  destruct c as [t b m sd cs]. cbn. intros Hl Hnf Ht.
  destruct (run_goes_on t b Hl (or_introl Ht)) as [?|[?|Hr]]; [by left|by right; left|]. right. right.
  destruct (Hr sd) as (o & Ho & [t' b'] & Hr'). destruct m; [| | |done]; exfalso; apply Hnf; eexists; right.
  - by eapply (step_run run t b Whole).
  - by eapply (step_run run t b BaseOnly).
  - apply step_run_freed. by eapply run_either.
Qed.

(** The owner waits only if it asked the thread to stop. *)
Lemma owner_moves strict c : calm strict c -> callers c = [[]] \/ (exists c', call_step run0 c c') \/
  (stopEvent (obj c) = true /\ usable (mem c) = true /\ where_ c <> NotStarted /\ where_ c <> Finished).
Proof.
  intros [[Hl Hk (k1 & os & Hc1 & Ho & _)] (k & Hc & [_ Ha] & Hw)]. rewrite Hc in Hc1. injection Hc1 as <- <-.
  destruct c as [t b m sd cs]. cbn in *. subst cs. destruct k as [|i k]; [by left|right].
  assert (usable m = true) as Hm by (inversion Ho; done).
  destruct (exec run0 sd true i k t b m) as [[[[t' b'] m'] k']|] eqn:He.
  { left. eexists. by eapply (step_caller run0 t b m sd [i :: k] 0). }
  right. assert (i = IBlock /\ isTerminatedEvent t = false) as [-> Hev].
  { destruct i; unfold_exec in He; rewrite ?check_moving_eq in He; repeat case_match; done. }
  destruct (Hw k eq_refl) as [Hs Hf]. split; [destruct Ha as [Ha|Ha]; [done|discriminate Ha]|]. split; [done|].
  split; [|intros E; by rewrite Hf in Hev]. intros ->. cbn in Hl. destruct Hl, Hs; congruence.
Qed.


End Props.

(** ** Where the calls do not protect each other *)

(** A thread that goes on until it sees its stop event. *)
Definition until_stop (stop sd : bool) (_ : unit) (o : option unit) : Prop := o = if stop then None else Some tt.

Lemma until_stop_obeys : obeys_stop until_stop (fun _ => 0%nat).
Proof. split; [by eexists|]. intros sd r r' H. discriminate H. Qed.

Abbreviation reaches := (rtc (any_step tt until_stop)).

Lemma caller_step (t : SThread) (b : body unit) m sd cs n i k t' b' m' k' : usable m = true -> cs !! n = Some (i :: k) ->
  exec tt sd true i k t b m = Some (t', b', m', k') ->
  any_step tt until_stop (mkConfig t b m sd cs) (mkConfig t' b' m' sd (<[n := k']> cs)).
Proof. intros. apply any_one. left. by eapply step_caller. Qed.
Lemma thread_step (t : SThread) (b : body unit) m sd cs t' b' : usable m = true ->
  _run (if stopEvent t then None else Some tt) t b = Some (t', b') ->
  any_step tt until_stop (mkConfig t b m sd cs) (mkConfig t' b' m sd cs).
Proof. intros. apply any_one. right. by eapply step_run. Qed.

Lemma exec_start (t : SThread) k (b : body unit) m : currentState t = ready ->
  exec tt false true IStart k t b m = Some (set_state working t, Running tt, m, k).
Proof. intros H. unfold_exec. by rewrite check_moving_eq, H. Qed.
Lemma exec_destroy sd (t : SThread) k (b : body unit) m : exec tt sd true IDestroy k t b m =
  if may_move (currentState t) destroyed then Some (set_state destroyed t, b, Freed, k) else Some (t, b, Freed, []).
Proof. unfold_exec. rewrite check_moving_eq. by destruct (may_move _ _). Qed.
Lemma run_ending (t : SThread) o : currentState t = working -> _run (R := unit) o t Ending = Some (set_state terminated t, Moved).
Proof. intros H. unfold _run. by rewrite check_moving_eq, H. Qed.

Ltac caller n := eapply rtc_l; [eapply (caller_step _ _ _ _ _ n); [reflexivity|reflexivity|
  first [by apply exec_start|rewrite exec_destroy; reflexivity|reflexivity]]|].
Ltac thread := eapply rtc_l; [eapply thread_step; [reflexivity|first [by apply run_ending|reflexivity]]|].

(** Who waits for a thread that nobody asked to stop waits for ever. *)
Theorem wait_without_stop_hangs : exists c, reaches (initial None [[IStart; IWait]]) c /\
  callers c = [[IBlock; ILeave]] /\ shutdown c = false /\ forall c', step tt until_stop c c' -> c' = c.
Proof.
  eexists. split; [caller 0%nat; caller 0%nat; apply rtc_refl|]. split; [done|]. split; [done|]. cbn. intros c' [Hs|Hs].
  - inversion Hs as [t b m sd cs n i k created t' b' m' k' Hm Hn He|]; subst.
    destruct n as [|[|n]]; try discriminate Hn. injection Hn as <- <-. discriminate He.
  - inversion Hs as [t b m sd cs o t' b' Hm Ho Hr|]; subst. specialize (Ho tt eq_refl). cbn in Ho. unfold until_stop in Ho. subst o.
    injection Hr as <- <-. done.
Qed.

(** Two callers wait; the thread ends and wakes only one: its event is reset by the first
    waiter.  The second waits until the process is shut down. *)
Theorem second_waiter_hangs : exists c, reaches (initial None [[IStart; IStop; IWait]; [IWait]]) c /\
  nf (step tt until_stop) c /\ where_ c = Finished /\ shutdown c = false /\ callers c = [[]; [IBlock; ILeave]].
Proof.
  eexists. split; [|split].
  - caller 0%nat. caller 0%nat. caller 0%nat. caller 1%nat. thread. thread. thread. thread. caller 0%nat. caller 0%nat. apply rtc_refl.
  - cbn. intros (c' & [Hs|Hs]).
    + inversion Hs as [t b m sd cs n i k created t' b' m' k' Hm Hn He|]; subst.
      destruct n as [|[|[|n]]]; try discriminate Hn. injection Hn as <- <-. discriminate He.
    + inversion Hs as [t b m sd cs o t' b' Hm Ho Hr|]; subst. discriminate Hr.
  - done.
Qed.

(** The owner deletes the thread: the object is gone, and the thread has still to set
    events of it, and does. *)
Theorem deleted_before_signal : exists c c', reaches (initial None [IStart :: delete_object_by_id]) c /\
  mem c = Freed /\ callers c = [[]] /\ where_ c = Moved /\ step tt until_stop c c' /\ mem c' = Touched.
Proof.
  eexists. eexists. split; [|split].
  - caller 0%nat. caller 0%nat. thread. thread. caller 0%nat. caller 0%nat. caller 0%nat. caller 0%nat. caller 0%nat. apply rtc_refl.
  - done.
  - split; [done|]. split; [done|]. split; [right; apply step_run_freed; by eexists|done].
Qed.

(** While the process is shut down the destructor does not wait, and its last move is not
    in the table: it throws, and the object is gone while the thread still runs. *)
Theorem destructor_throws : exists c c', reaches (initial None [IStart :: delete_object_by_id]) c /\
  callers c = [[IDestroy]] /\ where_ c = Running tt /\
  check_moving_to (currentState (obj c)) destroyed = Err (InvalidStateTransition "working" "destroyed") /\
  step tt until_stop c c' /\ mem c' = Freed /\ where_ c' = Running tt.
Proof.
  eexists. eexists. split; [|split].
  - caller 0%nat. eapply rtc_l; [apply any_shutdown|]. do 9 caller 0%nat. apply rtc_refl.
  - done.
  - split; [done|]. cbn. rewrite check_moving_eq. split; [done|]. split; [left; eapply (step_caller _ _ _ _ _ _ 0%nat _ _ true); [done|done|rewrite exec_destroy; reflexivity]|done].
Qed.

(** ** Witnesses *)

(** The thread runs, its owner waits for it in the destructor, and another caller waits too. *)
Definition half_way : config unit :=
  mkConfig (mkThread working true true false 1 None) (Running tt) BaseOnly false [[IBlock; ILeave; IDestroy]; [IWait]].

Lemma half_way_reached : reaches (initial None [[IStart; IDelete]; [IWait]]) half_way.
Proof. do 5 caller 0%nat. apply rtc_refl. Qed.


