(* ===== verification/ZlibAdler.v ===== *)
(** * ZlibAdler: the Adler-32 checksum of the bundled zlib

    zlib/adler32.c, for the 32-bit [unsigned long] of the Windows build and with
    the hardware division ([NO_DIVIDE] is not defined).  The deferred reductions
    are shown to compute the sums of RFC 1950, and [adler32_combine] is compared
    with the checksum of the concatenation. *)

From S2P Require Import Prelude.

Module Adler.

Definition BASE : Z := 65521.
Definition NMAX : Z := 5552.

(** [adler += *buf; sum2 += adler] *)
Definition DO1 (st : Z * Z) (x : Z) : Z * Z :=
  let '(adler, sum2) := st in
  let adler := u32 (adler + x) in
  (adler, u32 (sum2 + adler)).

Definition DO16 (st : Z * Z) (buf : list Z) : Z * Z := fold_left DO1 (take 16 buf) st.

(** [do { DO16 (buf); buf += 16; } while (--n)] *)
Fixpoint do16s (n : nat) (st : Z * Z) (buf : list Z) : (Z * Z) * list Z :=
  match n with
  | O => (st, buf)
  | S n => do16s n (DO16 st buf) (drop 16 buf)
  end.

Definition MOD2 (st : Z * Z) : Z * Z := (fst st mod BASE, snd st mod BASE).

(** [NO_DIVIDE]: the same remainders without a division. *)
Definition sub_if (k a : Z) : Z := if a >=? Z.shiftl BASE k then a - Z.shiftl BASE k else a.
Definition MOD_NO_DIVIDE (a : Z) : Z :=
  fold_left (fun a k => sub_if k a) [16; 15; 14; 13; 12; 11; 10; 9; 8; 7; 6; 5; 4; 3; 2; 1; 0] a.
Definition MOD4_NO_DIVIDE (a : Z) : Z := fold_left (fun a k => sub_if k a) [4; 3; 2; 1; 0] a.

(** [while (len >= NMAX)]; each round takes bytes, so the length is fuel enough. *)
Fixpoint nmax_blocks (fuel : nat) (st : Z * Z) (buf : list Z) : (Z * Z) * list Z :=
  match fuel with
  | O => (st, buf)
  | S fuel =>
      if zlen buf >=? NMAX then
        let '(st, buf) := do16s (Z.to_nat (NMAX / 16)) st buf in
        nmax_blocks fuel (MOD2 st) buf
      else (st, buf)
  end.

(** [while (len >= 16)] *)
Fixpoint sixteens (fuel : nat) (st : Z * Z) (buf : list Z) : (Z * Z) * list Z :=
  match fuel with
  | O => (st, buf)
  | S fuel =>
      if zlen buf >=? 16 then sixteens fuel (DO16 st buf) (drop 16 buf) else (st, buf)
  end.

Definition recombine (st : Z * Z) : Z := Z.lor (fst st) (u32 (Z.shiftl (snd st) 16)).

Definition adler32 (adler : Z) (buf : option (list Z)) : Z :=
  let sum2 := Z.land (Z.shiftr adler 16) 65535 in
  let adler := Z.land adler 65535 in
  match buf with
  | None => 1
  | Some buf =>
      let len := zlen buf in
      if len =? 1 then
        let adler := u32 (adler + znth 0 buf 0) in
        let adler := if adler >=? BASE then adler - BASE else adler in
        let sum2 := u32 (sum2 + adler) in
        let sum2 := if sum2 >=? BASE then sum2 - BASE else sum2 in
        recombine (adler, sum2)
      else if len <? 16 then
        let '(adler, sum2) := fold_left DO1 buf (adler, sum2) in
        let adler := if adler >=? BASE then adler - BASE else adler in
        recombine (adler, sum2 mod BASE)
      else
        let '(st, buf) := nmax_blocks (length buf) (adler, sum2) buf in
        if negb (zlen buf =? 0) then
          let '(st, buf) := sixteens (length buf) st buf in
          recombine (MOD2 (fold_left DO1 buf st))
        else recombine st
  end.

Definition adler32_combine_ (adler1 adler2 len2 : Z) : Z :=
  let rem := u32 len2 mod BASE in
  let sum1 := Z.land adler1 65535 in
  let sum2 := u32 (rem * sum1) mod BASE in
  let sum1 := u32 (sum1 + u32 (Z.land adler2 65535 + BASE - 1)) in
  let sum2 := u32 (sum2 + u32 (Z.land (Z.shiftr adler1 16) 65535 +
                               Z.land (Z.shiftr adler2 16) 65535 + BASE - rem)) in
  let sum1 := if sum1 >? BASE then sum1 - BASE else sum1 in
  let sum1 := if sum1 >? BASE then sum1 - BASE else sum1 in
  let sum2 := if sum2 >? BASE * 2 then sum2 - BASE * 2 else sum2 in
  let sum2 := if sum2 >? BASE then sum2 - BASE else sum2 in
  recombine (sum1, sum2).

Definition adler32_combine (adler1 adler2 len2 : Z) : Z := adler32_combine_ adler1 adler2 len2.
Definition adler32_combine64 (adler1 adler2 len2 : Z) : Z := adler32_combine_ adler1 adler2 len2.

(** ** The sums of RFC 1950, without any reduction *)

Fixpoint sum_bytes (l : list Z) : Z := match l with [] => 0 | x :: l => x + sum_bytes l end.

(** The sum of the running sums. *)
Fixpoint sum_sums (l : list Z) : Z :=
  match l with [] => 0 | x :: l => zlen (x :: l) * x + sum_sums l end.

Definition s1 (a : Z) (l : list Z) : Z := a + sum_bytes l.
Definition s2 (a b : Z) (l : list Z) : Z := b + zlen l * a + sum_sums l.

Lemma zlen_cons {A} (x : A) l : zlen (x :: l) = zlen l + 1.
Proof. unfold zlen. cbn [length]. lia. Qed.

Lemma sums_app l k :
  sum_bytes (l ++ k) = sum_bytes l + sum_bytes k /\
  sum_sums (l ++ k) = sum_sums l + zlen k * sum_bytes l + sum_sums k.
Proof.
  induction l as [|x l [IH1 IH2]]; cbn [app sum_bytes sum_sums]; [change (zlen []) with 0; lia|].
  rewrite IH1, IH2, !zlen_cons, zlen_app. lia.
Qed.

Lemma sums_bound l :
  bytes_ok l -> 0 <= sum_bytes l <= 255 * zlen l /\ 0 <= 2 * sum_sums l <= 255 * (zlen l * (zlen l + 1)).
Proof.
  induction 1 as [|x l Hx _ [IH1 IH2]]; cbn [sum_bytes sum_sums]; [change (zlen []) with 0; lia|].
  rewrite zlen_cons. pose proof (zlen_nonneg l). unfold is_u8 in Hx. nia.
Qed.

(** Without overflow the machine sums are the mathematical ones. *)
Lemma fold_DO1 l : forall a b,
  bytes_ok l -> 0 <= a -> 0 <= b -> s1 a l < 2 ^ 32 -> s2 a b l < 2 ^ 32 ->
  fold_left DO1 l (a, b) = (s1 a l, s2 a b l).
Proof.
  unfold s1, s2. induction l as [|x l IH]; intros a b Hl Ha Hb H1 H2; cbn [fold_left].
  { change (zlen []) with 0. f_equal; cbn; lia. }
  apply Forall_cons in Hl as [Hx Hl]. unfold is_u8 in Hx. destruct (sums_bound l Hl).
  cbn [sum_bytes sum_sums] in *. rewrite zlen_cons in *. pose proof (zlen_nonneg l).
  unfold DO1. rewrite (u32_small (a + x)) by lia. rewrite u32_small by nia.
  rewrite IH by (try done; nia). f_equal; lia.
Qed.

(** [NMAX] bytes from reduced sums stay below [2^32]; one byte more may not. *)
Lemma nmax_bound a b l :
  bytes_ok l -> zlen l <= NMAX -> 0 <= a < BASE -> 0 <= b < BASE ->
  0 <= s1 a l < 2 ^ 32 /\ 0 <= s2 a b l < 2 ^ 32.
Proof.
  unfold s1, s2, NMAX, BASE. intros Hl Hn Ha Hb. destruct (sums_bound l Hl) as [H1 H2].
  pose proof (zlen_nonneg l).
  assert (zlen l * a <= 5552 * 65520) by nia. assert (0 <= zlen l * a) by nia.
  assert (zlen l * (zlen l + 1) <= 5552 * 5553) by nia. lia.
Qed.

Lemma do16s_fold n : forall st buf,
  do16s n st buf = (fold_left DO1 (take (16 * n) buf) st, drop (16 * n) buf).
Proof.
  induction n as [|n IH]; intros st buf; [done|]. cbn [do16s]. rewrite IH. unfold DO16.
  rewrite drop_drop, <- fold_left_app.
  replace (16 * S n)%nat with (16 + 16 * n)%nat by lia. f_equal. f_equal.
  rewrite <- (take_drop 16 (take (16 + 16 * n) buf)). rewrite take_take, Nat.min_l by lia.
  f_equal. rewrite skipn_firstn_comm. f_equal. lia.
Qed.

Lemma sixteens_fold fuel : forall st buf,
  exists n, (n <= length buf)%nat /\
    sixteens fuel st buf = (fold_left DO1 (take n buf) st, drop n buf).
Proof.
  induction fuel as [|fuel IH]; intros st buf; cbn [sixteens]; [exists 0%nat; split; [lia|done]|].
  destruct (_ >=? _) eqn:E; [|exists 0%nat; split; [lia|done]]. zbool. unfold zlen in E.
  destruct (IH (DO16 st buf) (drop 16 buf)) as (n & Hn & ->). rewrite length_drop in Hn.
  exists (16 + n)%nat. split; [lia|]. unfold DO16. rewrite <- fold_left_app, drop_drop. f_equal. f_equal.
  rewrite <- (take_drop 16 (take (16 + n) buf)). rewrite take_take, Nat.min_l by lia.
  f_equal. rewrite skipn_firstn_comm. f_equal. lia.
Qed.

Lemma fold_split (st : Z * Z) n buf :
  fold_left DO1 (drop n buf) (fold_left DO1 (take n buf) st) = fold_left DO1 buf st.
Proof. rewrite <- fold_left_app. by rewrite take_drop. Qed.

(** Reducing between blocks does not change the residues. *)
Lemma s_mod a b l k :
  s1 (s1 a l mod BASE) k mod BASE = s1 a (l ++ k) mod BASE /\
  s2 (s1 a l mod BASE) (s2 a b l mod BASE) k mod BASE = s2 a b (l ++ k) mod BASE.
Proof.
  unfold s1, s2. destruct (sums_app l k) as [-> ->]. rewrite zlen_app. unfold BASE.
  split.
  - rewrite Zplus_mod_idemp_l. f_equal. lia.
  - rewrite <- Z.add_assoc, Zplus_mod_idemp_l.
    rewrite <- (Zplus_mod_idemp_r (_ + _)), <- (Zplus_mod_idemp_l (zlen k * _)), Zmult_mod_idemp_r.
    rewrite Zplus_mod_idemp_l, Zplus_mod_idemp_r. f_equal. lia.
Qed.

Lemma nmax_blocks_spec fuel : forall a b buf,
  bytes_ok buf -> 0 <= a < BASE -> 0 <= b < BASE -> (length buf <= fuel)%nat ->
  exists l rest, buf = l ++ rest /\ zlen rest < NMAX /\
    nmax_blocks fuel (a, b) buf = ((s1 a l mod BASE, s2 a b l mod BASE), rest).
Proof.
  induction fuel as [|fuel IH]; intros a b buf Hok Ha Hb Hf.
  { destruct buf; [|cbn in Hf; lia]. exists [], []. unfold s1, s2. cbn. rewrite !Z.add_0_r.
    rewrite !Z.mod_small by done. done. }
  cbn [nmax_blocks]. destruct (_ >=? _) eqn:E; zbool.
  2: { exists [], buf. unfold s1, s2. cbn. rewrite !Z.add_0_r. rewrite !Z.mod_small by done. done. }
  rewrite do16s_fold. change (16 * Z.to_nat (NMAX / 16))%nat with (Z.to_nat NMAX).
  set (n := Z.to_nat NMAX). assert (Hn : (n <= length buf)%nat) by (unfold n, zlen in *; lia).
  assert (Hnp : (0 < n)%nat) by (unfold n, NMAX; lia).
  assert (Hl : zlen (take n buf) = NMAX) by (unfold zlen; rewrite length_take; unfold n, NMAX in *; lia).
  assert (Hok1 : bytes_ok (take n buf)) by by apply Forall_take.
  destruct (nmax_bound a b (take n buf) Hok1 ltac:(lia) Ha Hb).
  rewrite fold_DO1 by (done || lia).
  unfold MOD2. cbn [fst snd].
  destruct (IH (s1 a (take n buf) mod BASE) (s2 a b (take n buf) mod BASE) (drop n buf))
    as (l & rest & Heq & Hr & ->);
    [by apply Forall_drop|apply Z.mod_pos_bound; done|apply Z.mod_pos_bound; done|rewrite length_drop; lia|].
  exists (take n buf ++ l), rest. split; [rewrite <- app_assoc, <- Heq; by rewrite take_drop|].
  split; [done|]. destruct (s_mod a b (take n buf) l) as [-> ->]. done.
Qed.

(** A checksum is the pair of its sums. *)
Lemma recombine_add a b : 0 <= a < 65536 -> 0 <= b < 65536 -> recombine (a, b) = a + 65536 * b.
Proof.
  intros. unfold recombine. cbn [fst snd]. rewrite Z.shiftl_mul_pow2 by lia.
  rewrite u32_small by lia. rewrite Z.lor_comm, (lor_disjoint_add b a 16) by lia. lia.
Qed.

Lemma recombine_split a b :
  0 <= a < 65536 -> 0 <= b < 65536 ->
  Z.land (recombine (a, b)) 65535 = a /\ Z.land (Z.shiftr (recombine (a, b)) 16) 65535 = b.
Proof.
  intros. rewrite recombine_add by done. change 65535 with (Z.ones 16).
  rewrite !Z.land_ones, Z.shiftr_div_pow2 by lia. change (2 ^ 16) with 65536.
  split; [|replace (a + 65536 * b) with (b * 65536 + a) by lia; rewrite Z.div_add_l by lia;
    rewrite (Z.div_small a) by lia; rewrite Z.add_0_r, Z.mod_small by lia; done].
  rewrite Z.mul_comm, Z.mod_add, Z.mod_small by lia. done.
Qed.

Lemma reduce_once x : 0 <= x < 2 * BASE -> (if x >=? BASE then x - BASE else x) = x mod BASE.
Proof.
  unfold BASE. intros Hx. destruct (_ >=? _) eqn:E; zbool; [|by rewrite Z.mod_small by lia].
  replace x with (x - 65521 + 1 * 65521) at 2 by lia. rewrite Z.mod_add, Z.mod_small by lia. done.
Qed.

(** The bytes behind the last whole block. *)
Lemma tail_spec a b l rest :
  bytes_ok rest -> zlen rest < NMAX ->
  let st := (s1 a l mod BASE, s2 a b l mod BASE) in
  MOD2 (fold_left DO1 rest st) = (s1 a (l ++ rest) mod BASE, s2 a b (l ++ rest) mod BASE).
Proof.
  intros Hok Hl st. unfold st. assert (HB : 0 < BASE) by done.
  pose proof (Z.mod_pos_bound (s1 a l) BASE HB). pose proof (Z.mod_pos_bound (s2 a b l) BASE HB).
  destruct (nmax_bound (s1 a l mod BASE) (s2 a b l mod BASE) rest Hok) as [? ?]; [lia..|].
  rewrite fold_DO1 by (done || lia). unfold MOD2. cbn [fst snd].
  destruct (s_mod a b l rest) as [-> ->]. done.
Qed.

(** A conditional subtraction halves the bound and keeps the remainder. *)
Lemma sub_if_spec k a :
  0 <= k -> 0 <= a < BASE * 2 ^ (k + 1) ->
  0 <= sub_if k a < BASE * 2 ^ k /\ sub_if k a mod BASE = a mod BASE.
Proof.
  intros Hk Ha. unfold sub_if. rewrite Z.shiftl_mul_pow2, Z.geb_leb by done.
  rewrite Z.pow_add_r, Z.pow_1_r in Ha by lia.
  destruct (Z.leb_spec (BASE * 2 ^ k) a); split; try lia.
  replace (a - BASE * 2 ^ k) with (a + (- 2 ^ k) * BASE) by lia. by rewrite Z.mod_add.
Qed.

(** A descending chain of them is the remainder. *)
Lemma sub_chain n : forall a,
  0 <= a < BASE * 2 ^ Z.of_nat n ->
  fold_left (fun a k => sub_if k a) (rev (map Z.of_nat (seq 0 n))) a = a mod BASE.
Proof.
  induction n as [|n IH]; intros a Ha.
  { change (2 ^ Z.of_nat 0) with 1 in Ha. rewrite Z.mul_1_r in Ha. by rewrite Z.mod_small. }
  rewrite seq_S, map_app, rev_app_distr. cbn [map rev app fold_left Nat.add].
  destruct (sub_if_spec (Z.of_nat n) a) as [H1 H2]; [lia| |by rewrite IH].
  by replace (Z.of_nat n + 1) with (Z.of_nat (S n)) by lia.
Qed.

(** The division-free macros agree with the dividing ones wherever the code
    uses them: [MOD] on any 32-bit sum, [MOD4] below [BASE << 5]. *)
Lemma MOD_NO_DIVIDE_spec a : 0 <= a < 2 ^ 32 -> MOD_NO_DIVIDE a = a mod BASE.
Proof. intros Ha. apply (sub_chain 17). unfold BASE. lia. Qed.

Lemma MOD4_NO_DIVIDE_spec a : 0 <= a < BASE * 32 -> MOD4_NO_DIVIDE a = a mod BASE.
Proof. intros Ha. apply (sub_chain 5). lia. Qed.

(** The Adler-32 of zlib.  From any reduced checksum, over any bytes, on the
    one-byte, the short and the blocked path, the function returns the sums of
    RFC 1950 reduced modulo 65521: the unreduced 32-bit accumulators never
    overflow within a block, and no reduction is missed. *)
Theorem adler32_rfc1950 a b buf :
  0 <= a < BASE -> 0 <= b < BASE -> bytes_ok buf ->
  adler32 (recombine (a, b)) (Some buf) = recombine (s1 a buf mod BASE, s2 a b buf mod BASE).
Proof.
  intros Ha Hb Hok. unfold adler32.
  destruct (recombine_split a b) as [-> ->]; [unfold BASE in *; lia..|].
  destruct (_ =? 1) eqn:E1; zbool.
  { destruct buf as [|x [|]]; [done| |unfold zlen in E1; cbn in E1; lia].
    apply Forall_cons in Hok as [Hx _]. unfold is_u8 in Hx. change (znth 0 [x] 0) with x.
    rewrite (u32_small (a + x)) by (unfold BASE in *; lia).
    rewrite (reduce_once (a + x)) by (unfold BASE in *; lia).
    pose proof (Z.mod_pos_bound (a + x) BASE ltac:(done)).
    rewrite (u32_small (b + _)) by (unfold BASE in *; lia).
    rewrite (reduce_once (b + _)) by (unfold BASE in *; lia). unfold s1, s2.
    change (zlen [x]) with 1. cbn [sum_bytes sum_sums]. change (zlen [x]) with 1.
    rewrite Zplus_mod_idemp_r. do 2 f_equal; f_equal; lia. }
  destruct (_ <? 16) eqn:E2; zbool.
  { destruct (nmax_bound a b buf Hok) as [? ?]; [unfold NMAX; lia|done|done|].
    rewrite fold_DO1 by (done || lia). rewrite reduce_once; [done|].
    destruct (sums_bound buf Hok). unfold s1, BASE in *. lia. }
  destruct (nmax_blocks_spec (length buf) a b buf Hok Ha Hb ltac:(lia)) as (l & rest & -> & Hr & ->).
  apply Forall_app in Hok as [_ Hok].
  destruct (zlen rest =? 0) eqn:E3; cbn [negb]; zbool.
  { destruct rest; [|unfold zlen in E3; cbn in E3; lia]. by rewrite app_nil_r. }
  match goal with |- context [sixteens ?f ?st rest] =>
    destruct (sixteens_fold f st rest) as (n & _ & ->) end.
  rewrite fold_split. by rewrite (tail_spec a b l rest).
Qed.

(** A residue 0 written as [BASE]. *)
Definition unreduced (x : Z) : Z := if x =? 0 then BASE else x.

Lemma combine_sum1 x : BASE - 1 <= x <= 3 * BASE - 3 ->
  (let y := if x >? BASE then x - BASE else x in if y >? BASE then y - BASE else y)
  = unreduced (x mod BASE).
Proof.
  unfold unreduced, BASE. intros Hx. cbv zeta.
  pose proof (Z.div_mod x 65521 ltac:(lia)). pose proof (Z.mod_pos_bound x 65521 ltac:(lia)).
  assert (0 <= x / 65521 <= 2) by (split; [apply Z.div_pos|apply Z.lt_succ_r, Z.div_lt_upper_bound]; lia).
  repeat zcase; nia.
Qed.

Lemma combine_sum2 x : 1 <= x <= 4 * BASE - 3 ->
  (let y := if x >? BASE * 2 then x - BASE * 2 else x in if y >? BASE then y - BASE else y)
  = unreduced (x mod BASE).
Proof.
  unfold unreduced, BASE. intros Hx. cbv zeta.
  pose proof (Z.div_mod x 65521 ltac:(lia)). pose proof (Z.mod_pos_bound x 65521 ltac:(lia)).
  assert (0 <= x / 65521 <= 3) by (split; [apply Z.div_pos|apply Z.lt_succ_r, Z.div_lt_upper_bound]; lia).
  repeat zcase; nia.
Qed.

Lemma mod_congr x y k : x = y + k * BASE -> x mod BASE = y mod BASE.
Proof. intros ->. apply Z.mod_add. done. Qed.

(** [adler32_combine] of the checksums of two strings is the checksum of
    their concatenation, except that a sum of 0 comes out as 65521: the tests
    compare with [>] instead of [>=], so that the result is not reduced and
    differs from what [adler32] returns for the same bytes. *)
Theorem adler32_combine_spec l1 l2 :
  bytes_ok l1 -> bytes_ok l2 -> zlen l2 < 2 ^ 31 ->
  let a1 := s1 1 l1 mod BASE in let b1 := s2 1 0 l1 mod BASE in
  let a2 := s1 1 l2 mod BASE in let b2 := s2 1 0 l2 mod BASE in
  adler32_combine (recombine (a1, b1)) (recombine (a2, b2)) (zlen l2) =
  recombine (unreduced (s1 1 (l1 ++ l2) mod BASE), unreduced (s2 1 0 (l1 ++ l2) mod BASE)).
Proof.
  intros H1 H2 Hl a1 b1 a2 b2. unfold adler32_combine, adler32_combine_. pose proof (zlen_nonneg l2).
  assert (HB : 0 < BASE) by done. rewrite (u32_small (zlen l2)) by lia.
  pose proof (Z.mod_pos_bound (s1 1 l1) BASE HB) as Ha1. pose proof (Z.mod_pos_bound (s2 1 0 l1) BASE HB) as Hb1.
  pose proof (Z.mod_pos_bound (s1 1 l2) BASE HB) as Ha2. pose proof (Z.mod_pos_bound (s2 1 0 l2) BASE HB) as Hb2.
  fold a1 in Ha1. fold b1 in Hb1. fold a2 in Ha2. fold b2 in Hb2.
  destruct (recombine_split a1 b1) as [-> ->]; [unfold BASE in *; lia..|].
  destruct (recombine_split a2 b2) as [-> ->]; [unfold BASE in *; lia..|].
  set (rem := zlen l2 mod BASE). pose proof (Z.mod_pos_bound (zlen l2) BASE HB) as Hrem. fold rem in Hrem.
  assert (Hp : 0 <= rem * a1 <= 65520 * 65520) by (unfold BASE in *; nia).
  rewrite (u32_small (rem * a1)) by lia.
  pose proof (Z.mod_pos_bound (rem * a1) BASE HB) as Hra.
  rewrite (u32_small (a2 + BASE - 1)), (u32_small (b1 + b2 + BASE - rem)) by (unfold BASE in *; lia).
  rewrite (u32_small (a1 + _)), (u32_small ((rem * a1) mod BASE + _)) by (unfold BASE in *; lia).
  pose proof (combine_sum1 (a1 + (a2 + BASE - 1)) ltac:(lia)) as E1.
  pose proof (combine_sum2 ((rem * a1) mod BASE + (b1 + b2 + BASE - rem)) ltac:(lia)) as E2.
  cbv zeta in E1, E2 |- *. rewrite E1, E2. clear E1 E2.
  destruct (sums_app l1 l2) as [Hs1 Hs2].
  pose proof (Z.div_mod (s1 1 l1) BASE ltac:(done)) as D1. fold a1 in D1.
  pose proof (Z.div_mod (s2 1 0 l1) BASE ltac:(done)) as D2. fold b1 in D2.
  pose proof (Z.div_mod (s1 1 l2) BASE ltac:(done)) as D3. fold a2 in D3.
  pose proof (Z.div_mod (s2 1 0 l2) BASE ltac:(done)) as D4. fold b2 in D4.
  pose proof (Z.div_mod (zlen l2) BASE ltac:(done)) as D5. fold rem in D5.
  unfold s1, s2 in D1, D2, D3, D4 |- *. rewrite Hs1, Hs2, zlen_app. clearbody a1 b1 a2 b2 rem.
  do 2 f_equal; [f_equal|].
  - apply (mod_congr _ _ (1 - (1 + sum_bytes l1) / BASE - (1 + sum_bytes l2) / BASE)). lia.
  - f_equal. rewrite Zplus_mod_idemp_l.
    set (q2 := (0 + zlen l1 * 1 + sum_sums l1) / BASE) in *.
    set (q4 := (0 + zlen l2 * 1 + sum_sums l2) / BASE) in *.
    set (q1 := (1 + sum_bytes l1) / BASE) in *. set (q5 := zlen l2 / BASE) in *.
    apply (mod_congr _ _ (1 - q2 - q4 - q5 * a1 - rem * q1 - BASE * q5 * q1 + q5)).
    rewrite D5. replace (sum_bytes l1) with (BASE * q1 + a1 - 1) by lia.
    replace (sum_sums l1) with (BASE * q2 + b1 - zlen l1) by lia.
    replace (sum_sums l2) with (BASE * q4 + b2 - (BASE * q5 + rem)) by lia. ring.
Qed.

(** ** Concrete strings *)

Definition wikipedia : list Z := str "Wikipedia".

Lemma adler32_rfc1950_witness : adler32 1 (Some wikipedia) = 300286872.
Proof.
  change 1 with (recombine (1, 0)).
  rewrite (adler32_rfc1950 1 0 wikipedia).
  - reflexivity.
  - unfold BASE. lia.
  - unfold BASE. lia.
  - repeat constructor; vm_compute; discriminate.
Defined.

(** The bytes of the first string sum up to 65520, so that the sum is 0. *)
Definition zero_sum : list Z := repeat 255 256 ++ [240].

Lemma adler32_combine_spec_witness :
  adler32_combine (adler32 1 (Some zero_sum)) (adler32 1 (Some [])) 0 <>
  adler32 1 (Some (zero_sum ++ [])) /\
  Z.land (adler32_combine (adler32 1 (Some zero_sum)) (adler32 1 (Some [])) 0) 65535 = 65521.
Proof.
  assert (H : adler32_combine (adler32 1 (Some zero_sum)) (adler32 1 (Some [])) (zlen (@nil Z)) =
    recombine (unreduced (s1 1 (zero_sum ++ []) mod BASE), unreduced (s2 1 0 (zero_sum ++ []) mod BASE))).
  { apply (adler32_combine_spec zero_sum []).
    - apply Forall_app. split; [|repeat constructor; vm_compute; discriminate].
      apply List.Forall_forall. intros x Hx. apply repeat_spec in Hx. subst x. split; [lia|reflexivity].
    - constructor.
    - reflexivity. }
  change 0 with (zlen (@nil Z)). rewrite H. vm_compute. split; [discriminate|reflexivity].
Defined.

End Adler.
