(* ===== verification/ZlibCrc.v ===== *)
(** * ZlibCrc: the CRC-32 of the bundled zlib

    zlib/crc32.c for 32-bit words: the generation of the tables, the byte-wise
    loop, the word-wise loops for little- and big-endian machines, and
    [crc32_combine] with its matrices over GF(2).  The tables are those of
    crc32.h.  All of them are compared with the shift register that the comment
    of [make_crc_table] describes. *)

From Stdlib Require Import Btauto.
From S2P Require Import Prelude ZlibCrcTables.

Module Crc.

(** ** The tables *)

Definition p : list Z := [0; 1; 2; 4; 5; 7; 8; 10; 11; 12; 16; 22; 23; 26].

Definition poly : Z := fold_left (fun poly n => Z.lor poly (u32 (Z.shiftl 1 (31 - n)))) p 0.

(** [c & 1 ? poly ^ (c >> 1) : c >> 1] *)
Definition shift1 (c : Z) : Z :=
  if negb (Z.land c 1 =? 0) then Z.lxor poly (Z.shiftr c 1) else Z.shiftr c 1.

Definition REV (w : Z) : Z :=
  u32 (Z.shiftr w 24 + Z.land (Z.shiftr w 8) 65280 + Z.shiftl (Z.land w 65280) 8 +
       Z.shiftl (Z.land w 255) 24).

Definition bytes256 : list Z := map Z.of_nat (seq 0 256).

Definition make_table0 : list Z := map (fun n => Nat.iter 8 shift1 n) bytes256.

(** [crc_table[0][c & 0xff] ^ (c >> 8)] *)
Definition next (t0 : list Z) (c : Z) : Z := Z.lxor (znth 0 t0 (Z.land c 255)) (Z.shiftr c 8).

Definition make_crc_table : list (list Z) :=
  let t0 := make_table0 in
  let t1 := map (next t0) t0 in
  let t2 := map (next t0) t1 in
  let t3 := map (next t0) t2 in
  [t0; t1; t2; t3; map REV t0; map REV t1; map REV t2; map REV t3].

Definition tab (k i : Z) : Z := znth 0 (znth [] crc_table k) i.

(** ** The checksum *)

Definition not32 (c : Z) : Z := Z.lxor c 4294967295.

(** [DO1] *)
Definition DO1 (crc x : Z) : Z := Z.lxor (tab 0 (Z.land (Z.lxor crc x) 255)) (Z.shiftr crc 8).

(** [DO8] while at least eight bytes are left, then a byte at a time. *)
Fixpoint do8s (fuel : nat) (crc : Z) (buf : list Z) : Z * list Z :=
  match fuel with
  | O => (crc, buf)
  | S fuel =>
      if zlen buf >=? 8 then do8s fuel (fold_left DO1 (take 8 buf) crc) (drop 8 buf) else (crc, buf)
  end.

(** [crc32] where no four-byte type is known. *)
Definition crc32_bytewise (crc : Z) (buf : list Z) : Z :=
  let crc := Z.lxor crc 4294967295 in
  let '(crc, buf) := do8s (length buf) crc buf in
  Z.lxor (fold_left DO1 buf crc) 4294967295.

(** A word as the machine reads it. *)
Definition load_le (b : list Z) : Z :=
  Z.lor (Z.lor (Z.lor (znth 0 b 0) (Z.shiftl (znth 0 b 1) 8)) (Z.shiftl (znth 0 b 2) 16))
    (Z.shiftl (znth 0 b 3) 24).
Definition load_be (b : list Z) : Z :=
  Z.lor (Z.lor (Z.lor (Z.shiftl (znth 0 b 0) 24) (Z.shiftl (znth 0 b 1) 16)) (Z.shiftl (znth 0 b 2) 8))
    (znth 0 b 3).

(** [while (len && ((ptrdiff_t)buf & 3))]; [addr] is the address of [buf]. *)
Fixpoint align (step : Z -> Z -> Z) (addr c : Z) (buf : list Z) : Z * list Z :=
  match buf with
  | [] => (c, [])
  | x :: rest => if Z.land addr 3 =? 0 then (c, buf) else align step (addr + 1) (step c x) rest
  end.

(** [n] words in a row. *)
Fixpoint wordn (word : Z -> list Z -> Z) (n : nat) (c : Z) (buf : list Z) : Z * list Z :=
  match n with O => (c, buf) | S n => wordn word n (word c (take 4 buf)) (drop 4 buf) end.

(** [while (len >= 4 * n)] *)
Fixpoint words (word : Z -> list Z -> Z) (n fuel : nat) (c : Z) (buf : list Z) : Z * list Z :=
  match fuel with
  | O => (c, buf)
  | S fuel =>
      if zlen buf >=? 4 * Z.of_nat n
      then let '(c, buf) := wordn word n c buf in words word n fuel c buf
      else (c, buf)
  end.

Definition DOLIT4 (c : Z) (b : list Z) : Z :=
  let c := Z.lxor c (load_le b) in
  Z.lxor (Z.lxor (Z.lxor (tab 3 (Z.land c 255)) (tab 2 (Z.land (Z.shiftr c 8) 255)))
    (tab 1 (Z.land (Z.shiftr c 16) 255))) (tab 0 (Z.shiftr c 24)).

Definition crc32_little (addr crc : Z) (buf : list Z) : Z :=
  let c := not32 (u32 crc) in
  let '(c, buf) := align DO1 addr c buf in
  let '(c, buf) := words DOLIT4 8 (length buf) c buf in
  let '(c, buf) := words DOLIT4 1 (length buf) c buf in
  not32 (fold_left DO1 buf c).

Definition DOBIG1 (c x : Z) : Z := Z.lxor (tab 4 (Z.lxor (Z.shiftr c 24) x)) (u32 (Z.shiftl c 8)).

Definition DOBIG4 (c : Z) (b : list Z) : Z :=
  let c := Z.lxor c (load_be b) in
  Z.lxor (Z.lxor (Z.lxor (tab 4 (Z.land c 255)) (tab 5 (Z.land (Z.shiftr c 8) 255)))
    (tab 6 (Z.land (Z.shiftr c 16) 255))) (tab 7 (Z.shiftr c 24)).

Definition crc32_big (addr crc : Z) (buf : list Z) : Z :=
  let c := not32 (REV (u32 crc)) in
  let '(c, buf) := align DOBIG1 addr c buf in
  let '(c, buf) := words DOBIG4 8 (length buf) c buf in
  let '(c, buf) := words DOBIG4 1 (length buf) c buf in
  REV (not32 (fold_left DOBIG1 buf c)).

(** [little]: the result of the test of the first byte of [endian]. *)
Definition crc32 (little : bool) (addr crc : Z) (buf : option (list Z)) : Z :=
  match buf with
  | None => 0
  | Some buf => if little then crc32_little addr crc buf else crc32_big addr crc buf
  end.

(** ** Combining checksums *)

Definition GF2_DIM : nat := 32.

Fixpoint gf2_matrix_times (mat : list Z) (vec sum : Z) : Z :=
  match mat with
  | [] => sum
  | m :: mat =>
      if vec =? 0 then sum
      else gf2_matrix_times mat (Z.shiftr vec 1)
             (if negb (Z.land vec 1 =? 0) then Z.lxor sum m else sum)
  end.

Definition gf2_matrix_square (mat : list Z) : list Z :=
  map (fun n => gf2_matrix_times mat (nth n mat 0) 0) (seq 0 GF2_DIM).

(** The operator for one zero bit. *)
Definition odd0 : list Z :=
  3988292384 :: map (fun n => Z.shiftl 1 (Z.of_nat n)) (seq 0 (GF2_DIM - 1)).

(** The [do] loop; every round shifts [len2] by two bits. *)
Fixpoint combine_loop (fuel : nat) (odd : list Z) (crc1 len2 : Z) : res Z :=
  match fuel with
  | O => OutOfFuel
  | S fuel =>
      let even := gf2_matrix_square odd in
      let crc1 := if negb (Z.land len2 1 =? 0) then gf2_matrix_times even crc1 0 else crc1 in
      let len2 := Z.shiftr len2 1 in
      if len2 =? 0 then Ok crc1
      else
        let odd := gf2_matrix_square even in
        let crc1 := if negb (Z.land len2 1 =? 0) then gf2_matrix_times odd crc1 0 else crc1 in
        let len2 := Z.shiftr len2 1 in
        if len2 =? 0 then Ok crc1 else combine_loop fuel odd crc1 len2
  end.

Definition crc32_combine_ (crc1 crc2 len2 : Z) : res Z :=
  if len2 =? 0 then Ok crc1
  else
    let even := gf2_matrix_square odd0 in
    let odd := gf2_matrix_square even in
    crc1 ← combine_loop 32 odd crc1 len2;
    Ok (Z.lxor crc1 crc2).

Definition crc32_combine (crc1 crc2 len2 : Z) : res Z := crc32_combine_ crc1 crc2 len2.
Definition crc32_combine64 (crc1 crc2 len2 : Z) : res Z := crc32_combine_ crc1 crc2 len2.

(** ** The reference: the shift register, one bit at a time *)

Definition crc_step (c x : Z) : Z := Nat.iter 8 shift1 (Z.lxor c x).
Definition crc_spec (crc : Z) (l : list Z) : Z := not32 (fold_left crc_step l (not32 crc)).

Example crc_check : crc_spec 0 (str "123456789") = 0xcbf43926.
Proof. vm_compute. reflexivity. Qed.


(** ** Linearity over GF(2) *)

Definition w32 (c : Z) : Prop := 0 <= c < 4294967296.

Ltac xor_bits :=
  apply Z.bits_inj'; intros ? ?; rewrite ?Z.lxor_spec, ?Z.bits_0; btauto.

Definition linear (f : Z -> Z) : Prop := forall a b, f (Z.lxor a b) = Z.lxor (f a) (f b).

Lemma linear_0 f : linear f -> f 0 = 0.
Proof. intros H. rewrite <- (Z.lxor_nilpotent 0), H. apply Z.lxor_nilpotent. Qed.

Lemma linear_iter f n : linear f -> linear (Nat.iter n f).
Proof. intros H a b. induction n as [|n IH]; [done|]. rewrite !Nat.iter_succ. by rewrite IH, H. Qed.

Lemma land1_odd c : negb (Z.land c 1 =? 0) = Z.odd c.
Proof.
  change 1 with (Z.ones 1). rewrite Z.land_ones by lia. change (2 ^ 1) with 2.
  rewrite Zmod_odd. by destruct (Z.odd c).
Qed.

Lemma odd_lxor a b : Z.odd (Z.lxor a b) = xorb (Z.odd a) (Z.odd b).
Proof. rewrite <- !Z.bit0_odd. apply Z.lxor_spec. Qed.

Lemma shift1_linear : linear shift1.
Proof.
  intros a b. unfold shift1. rewrite !land1_odd, odd_lxor, Z.shiftr_lxor.
  destruct (Z.odd a), (Z.odd b); cbn [xorb]; xor_bits.
Qed.

Lemma lxor_w32 a b : w32 a -> w32 b -> w32 (Z.lxor a b).
Proof.
  unfold w32. intros [Ha1 Ha2] [Hb1 Hb2]. split; [by apply Z.lxor_nonneg|].
  destruct (Z.eq_dec (Z.lxor a b) 0) as [->|Hn]; [lia|].
  change 4294967296 with (2 ^ 32) in *.
  assert (0 <= Z.lxor a b) by (by apply Z.lxor_nonneg).
  apply Z.log2_lt_pow2; [lia|]. eapply Z.le_lt_trans; [by apply Z.log2_lxor|].
  apply Z.max_lub_lt.
  - destruct (Z.eq_dec a 0) as [->|]; [done|]. apply Z.log2_lt_pow2; lia.
  - destruct (Z.eq_dec b 0) as [->|]; [done|]. apply Z.log2_lt_pow2; lia.
Qed.

Lemma shiftr_w32 c n : w32 c -> 0 <= n -> w32 (Z.shiftr c n).
Proof.
  unfold w32. intros Hc Hn. rewrite Z.shiftr_div_pow2 by done.
  assert (0 < 2 ^ n) by (apply Z.pow_pos_nonneg; lia).
  split; [apply Z.div_pos; lia|]. eapply Z.le_lt_trans; [|exact (proj2 Hc)].
  apply Z.div_le_upper_bound; nia.
Qed.

Lemma shift1_w32 c : w32 c -> w32 (shift1 c).
Proof.
  intros Hc. unfold shift1. assert (w32 (Z.shiftr c 1)) by (by apply shiftr_w32).
  destruct (negb _); [|done]. apply lxor_w32; [|done]. by vm_compute.
Qed.

Lemma iter_w32 n c : w32 c -> w32 (Nat.iter n shift1 c).
Proof. intros Hc. induction n; [done|]. rewrite Nat.iter_succ. by apply shift1_w32. Qed.

(** Eight shifts push a whole byte out. *)
Lemma shift1_even x : shift1 (2 * x) = x.
Proof.
  unfold shift1. rewrite land1_odd. replace (2 * x) with (x * 2) by lia. rewrite Z.odd_mul, andb_false_r.
  rewrite Z.shiftr_div_pow2 by lia. by apply Z.div_mul.
Qed.

Lemma iter_shift_pow n x : Nat.iter n shift1 (x * 2 ^ Z.of_nat n) = x.
Proof.
  induction n as [|n IH]; [cbn; lia|]. rewrite Nat.iter_succ_r.
  replace (x * 2 ^ Z.of_nat (S n)) with (2 * (x * 2 ^ Z.of_nat n))
    by (rewrite Nat2Z.inj_succ, Z.pow_succ_r by apply Nat2Z.is_nonneg; ring).
  by rewrite shift1_even.
Qed.

Lemma split_low c n :
  0 <= n -> Z.lxor (Z.land c (Z.ones n)) (Z.shiftr c n * 2 ^ n) = c.
Proof.
  intros Hn. rewrite <- Z.shiftl_mul_pow2 by done. apply Z.bits_inj'. intros i Hi.
  rewrite Z.lxor_spec, Z.land_spec, Z.shiftl_spec by lia.
  destruct (Z.lt_ge_cases i n).
  - rewrite Z.ones_spec_low, (Z.testbit_neg_r _ (i - n)) by lia. btauto.
  - rewrite Z.ones_spec_high, Z.shiftr_spec by lia. replace (i - n + n) with i by lia. btauto.
Qed.

Lemma iter8_split c :
  Nat.iter 8 shift1 c = Z.lxor (Nat.iter 8 shift1 (Z.land c 255)) (Z.shiftr c 8).
Proof.
  rewrite <- (split_low c 8) at 1 by lia.
  rewrite (linear_iter shift1 8 shift1_linear). change (Z.ones 8) with 255. f_equal.
  apply (iter_shift_pow 8).
Qed.

(** ** The tables hold the shifts *)

(** crc32.h is what [make_crc_table] generates. *)
Lemma tables_generated : crc_table = make_crc_table.
Proof. vm_compute. reflexivity. Qed.

Lemma znth_map {A B} (f : A -> B) (d : A) (d' : B) l i :
  0 <= i < zlen l -> znth d' (map f l) i = f (znth d l i).
Proof.
  intros Hi. unfold znth, zlen in *. rewrite (nth_indep _ d' (f d)) by (rewrite length_map; lia).
  apply map_nth.
Qed.

Lemma znth_bytes256 i : 0 <= i < 256 -> znth 0 bytes256 i = i.
Proof.
  intros Hi. unfold bytes256. rewrite (znth_map Z.of_nat 0%nat) by (unfold zlen; cbn; lia).
  unfold znth. rewrite seq_nth by lia. lia.
Qed.

Lemma table0_spec i : 0 <= i < 256 -> znth 0 make_table0 i = Nat.iter 8 shift1 i.
Proof.
  intros Hi. unfold make_table0. rewrite (znth_map _ 0) by (unfold zlen; cbn; lia).
  by rewrite znth_bytes256.
Qed.

Lemma land255 c : 0 <= Z.land c 255 < 256.
Proof. change 255 with (Z.ones 8). rewrite Z.land_ones by lia. apply Z.mod_pos_bound. lia. Qed.

Lemma next_spec c : next make_table0 c = Nat.iter 8 shift1 c.
Proof. unfold next. rewrite table0_spec by apply land255. by rewrite <- iter8_split. Qed.

(** The rows of the generated table. *)
Fixpoint row (k : nat) : list Z :=
  match k with O => make_table0 | S k => map (next make_table0) (row k) end.

Lemma row_length k : length (row k) = 256%nat.
Proof. induction k as [|k IH]; [done|]. cbn [row]. by rewrite length_map. Qed.

Lemma row_spec k i : 0 <= i < 256 -> znth 0 (row k) i = Nat.iter (8 * (k + 1)) shift1 i.
Proof.
  intros Hi. induction k as [|k IH]; [by apply table0_spec|]. cbn [row].
  rewrite (znth_map _ 0) by (unfold zlen; rewrite row_length; lia).
  rewrite next_spec, IH, <- Nat.iter_add. f_equal. lia.
Qed.

Lemma tab_rows :
  (forall i, tab 0 i = znth 0 (row 0) i) /\ (forall i, tab 1 i = znth 0 (row 1) i) /\
  (forall i, tab 2 i = znth 0 (row 2) i) /\ (forall i, tab 3 i = znth 0 (row 3) i) /\
  (forall i, tab 4 i = znth 0 (map REV (row 0)) i) /\ (forall i, tab 5 i = znth 0 (map REV (row 1)) i) /\
  (forall i, tab 6 i = znth 0 (map REV (row 2)) i) /\ (forall i, tab 7 i = znth 0 (map REV (row 3)) i).
Proof. unfold tab. rewrite tables_generated. repeat split; reflexivity. Qed.

Lemma tab_spec i : 0 <= i < 256 ->
  tab 0 i = Nat.iter 8 shift1 i /\ tab 1 i = Nat.iter 16 shift1 i /\
  tab 2 i = Nat.iter 24 shift1 i /\ tab 3 i = Nat.iter 32 shift1 i.
Proof.
  intros Hi. destruct tab_rows as (-> & -> & -> & -> & _). rewrite !row_spec by done. done.
Qed.

Lemma tab_rev i : 0 <= i < 256 ->
  tab 4 i = REV (tab 0 i) /\ tab 5 i = REV (tab 1 i) /\
  tab 6 i = REV (tab 2 i) /\ tab 7 i = REV (tab 3 i).
Proof.
  intros Hi. destruct tab_rows as (-> & -> & -> & -> & -> & -> & -> & ->).
  rewrite !(znth_map REV 0) by (unfold zlen; rewrite row_length; lia). done.
Qed.

(** ** The byte loop *)

Lemma land_lxor_255 a x : is_u8 x -> Z.land (Z.lxor a x) 255 = Z.lxor (Z.land a 255) x.
Proof.
  unfold is_u8. intros Hx. rewrite <- (Z.mod_small x 256) at 2 by done. change 256 with (2 ^ 8).
  rewrite <- Z.land_ones by lia. apply Z.bits_inj'. intros i Hi.
  change 255 with (Z.ones 8). rewrite !Z.land_spec, !Z.lxor_spec, !Z.land_spec. btauto.
Qed.

Lemma shiftr_lxor_u8 c x : is_u8 x -> Z.shiftr (Z.lxor c x) 8 = Z.shiftr c 8.
Proof.
  unfold is_u8. intros Hx. rewrite Z.shiftr_lxor, (Z.shiftr_div_pow2 x) by lia.
  rewrite (Z.div_small x) by done. apply Z.lxor_0_r.
Qed.

Lemma DO1_step c x : is_u8 x -> DO1 c x = crc_step c x.
Proof.
  intros Hx. unfold DO1, crc_step. destruct (tab_spec _ (land255 (Z.lxor c x))) as (-> & _).
  rewrite (iter8_split (Z.lxor c x)). by rewrite shiftr_lxor_u8.
Qed.

Lemma fold_crc_DO1 l : forall c, bytes_ok l -> fold_left DO1 l c = fold_left crc_step l c.
Proof.
  induction l as [|x l IH]; intros c Hl; [done|]. apply Forall_cons in Hl as [Hx Hl].
  cbn [fold_left]. by rewrite DO1_step, IH.
Qed.

Lemma do8s_fold fuel : forall c buf,
  exists n, do8s fuel c buf = (fold_left DO1 (take n buf) c, drop n buf).
Proof.
  induction fuel as [|fuel IH]; intros c buf; cbn [do8s]; [by exists 0%nat|].
  destruct (_ >=? _); [|by exists 0%nat].
  destruct (IH (fold_left DO1 (take 8 buf) c) (drop 8 buf)) as (n & ->). exists (8 + n)%nat.
  rewrite drop_drop, <- fold_left_app. f_equal. f_equal.
  rewrite <- (take_drop 8 (take (8 + n) buf)). rewrite take_take, Nat.min_l by lia.
  f_equal. rewrite skipn_firstn_comm. f_equal. lia.
Qed.

Lemma bytewise_spec crc buf : bytes_ok buf -> crc32_bytewise crc buf = crc_spec crc buf.
Proof.
  intros Hb. unfold crc32_bytewise, crc_spec, not32.
  destruct (do8s_fold (length buf) (Z.lxor crc 4294967295) buf) as (n & ->).
  rewrite <- fold_left_app, take_drop. by rewrite fold_crc_DO1.
Qed.

(** ** The word loops *)

(** A word loop agrees with a byte loop if one word is four bytes. *)
Lemma wordn_fold word step n : forall c buf,
  (forall c b, w32 c -> bytes_ok b -> length b = 4%nat ->
     word c b = fold_left step b c /\ w32 (word c b)) ->
  w32 c -> bytes_ok buf -> (4 * n <= length buf)%nat ->
  wordn word n c buf = (fold_left step (take (4 * n) buf) c, drop (4 * n) buf) /\
  w32 (fold_left step (take (4 * n) buf) c).
Proof.
  intros c buf Hw. revert c buf. induction n as [|n IH]; intros c buf Hc Hb Hl; [done|].
  cbn [wordn]. destruct (Hw c (take 4 buf)) as [E Hc']; [done|by apply Forall_take|rewrite length_take; lia|].
  destruct (IH (word c (take 4 buf)) (drop 4 buf)) as [-> Hc2];
    [done|by apply Forall_drop|rewrite length_drop; lia|].
  assert (Ht : take (4 * S n) buf = take 4 buf ++ take (4 * n) (drop 4 buf)).
  { rewrite <- (take_drop 4 (take (4 * S n) buf)), take_take, Nat.min_l by lia.
    f_equal. rewrite skipn_firstn_comm. f_equal. lia. }
  rewrite Ht, fold_left_app, <- E, drop_drop. replace (4 + 4 * n)%nat with (4 * S n)%nat by lia. done.
Qed.

Lemma words_fold word step n fuel : forall c buf,
  (forall c b, w32 c -> bytes_ok b -> length b = 4%nat ->
     word c b = fold_left step b c /\ w32 (word c b)) ->
  w32 c -> bytes_ok buf ->
  exists k, words word n fuel c buf = (fold_left step (take k buf) c, drop k buf) /\
    w32 (fold_left step (take k buf) c).
Proof.
  intros c buf Hw. revert c buf. induction fuel as [|fuel IH]; intros c buf Hc Hb; cbn [words];
    [by exists 0%nat|].
  destruct (_ >=? _) eqn:E; [|by exists 0%nat]. zbool. unfold zlen in E.
  destruct (wordn_fold word step n c buf Hw Hc Hb ltac:(lia)) as [-> Hc2].
  destruct (IH _ (drop (4 * n) buf) Hc2) as (k & -> & Hk); [by apply Forall_drop|].
  assert (Ht : take (4 * n + k) buf = take (4 * n) buf ++ take k (drop (4 * n) buf)).
  { rewrite <- (take_drop (4 * n) (take (4 * n + k) buf)), take_take, Nat.min_l by lia.
    f_equal. rewrite skipn_firstn_comm. f_equal. lia. }
  exists (4 * n + k)%nat. rewrite Ht, fold_left_app, drop_drop. done.
Qed.

Lemma align_fold step : forall buf addr c,
  exists k, align step addr c buf = (fold_left step (take k buf) c, drop k buf).
Proof.
  induction buf as [|x buf IH]; intros addr c; cbn [align]; [by exists 0%nat|].
  destruct (_ =? _); [by exists 0%nat|]. destruct (IH (addr + 1) (step c x)) as (k & ->). by exists (S k).
Qed.

(** A 32-bit word from its bytes. *)
Definition word (b0 b1 b2 b3 : Z) : Z := b0 + 256 * b1 + 65536 * b2 + 16777216 * b3.

Lemma lxor_high a b n : 0 <= n -> 0 <= b < 2 ^ n -> Z.lxor b (a * 2 ^ n) = b + a * 2 ^ n.
Proof.
  intros Hn Hb. rewrite Z.lxor_comm, Z.add_comm. symmetry. apply Z.add_nocarry_lxor.
  by apply land_disjoint.
Qed.

Lemma word_lxor_form b0 b1 b2 b3 :
  is_u8 b0 -> is_u8 b1 -> is_u8 b2 -> is_u8 b3 ->
  word b0 b1 b2 b3 = Z.lxor (Z.lxor (Z.lxor b0 (b1 * 2 ^ 8)) (b2 * 2 ^ 16)) (b3 * 2 ^ 24).
Proof.
  unfold is_u8, word. intros. rewrite (lxor_high b1 b0 8) by lia.
  rewrite (lxor_high b2 _ 16) by lia. rewrite (lxor_high b3 _ 24) by lia. lia.
Qed.

Lemma load_le_word b0 b1 b2 b3 :
  is_u8 b0 -> is_u8 b1 -> is_u8 b2 -> is_u8 b3 -> load_le [b0; b1; b2; b3] = word b0 b1 b2 b3.
Proof.
  unfold is_u8. intros.
  change (load_le [b0; b1; b2; b3])
    with (Z.lor (Z.lor (Z.lor b0 (Z.shiftl b1 8)) (Z.shiftl b2 16)) (Z.shiftl b3 24)).
  rewrite !Z.shiftl_mul_pow2 by lia. unfold word.
  rewrite (Z.lor_comm b0), (lor_disjoint_add b1 b0 8) by lia.
  rewrite (Z.lor_comm _ (b2 * _)), (lor_disjoint_add b2 _ 16) by lia.
  rewrite (Z.lor_comm _ (b3 * _)), (lor_disjoint_add b3 _ 24) by lia. lia.
Qed.

Lemma load_be_word b0 b1 b2 b3 :
  is_u8 b0 -> is_u8 b1 -> is_u8 b2 -> is_u8 b3 -> load_be [b0; b1; b2; b3] = word b3 b2 b1 b0.
Proof.
  unfold is_u8. intros.
  change (load_be [b0; b1; b2; b3])
    with (Z.lor (Z.lor (Z.lor (Z.shiftl b0 24) (Z.shiftl b1 16)) (Z.shiftl b2 8)) b3).
  rewrite !Z.shiftl_mul_pow2 by lia. unfold word.
  rewrite (lor_disjoint_add b0 (b1 * 2 ^ 16) 24) by lia.
  replace (b0 * 2 ^ 24 + b1 * 2 ^ 16) with ((b0 * 256 + b1) * 2 ^ 16) by lia.
  rewrite (lor_disjoint_add _ (b2 * 2 ^ 8) 16) by lia.
  replace ((b0 * 256 + b1) * 2 ^ 16 + b2 * 2 ^ 8) with (((b0 * 256 + b1) * 256 + b2) * 2 ^ 8) by lia.
  rewrite (lor_disjoint_add _ b3 8) by lia. lia.
Qed.

Lemma word_w32 b0 b1 b2 b3 :
  is_u8 b0 -> is_u8 b1 -> is_u8 b2 -> is_u8 b3 -> w32 (word b0 b1 b2 b3).
Proof. unfold is_u8, w32, word. lia. Qed.

(** Shifting commutes with adding a byte further up. *)
Lemma push n y x : Z.lxor (Nat.iter n shift1 y) x = Nat.iter n shift1 (Z.lxor y (x * 2 ^ Z.of_nat n)).
Proof. rewrite (linear_iter shift1 n shift1_linear). by rewrite iter_shift_pow. Qed.

Lemma four_steps c b0 b1 b2 b3 :
  is_u8 b0 -> is_u8 b1 -> is_u8 b2 -> is_u8 b3 ->
  fold_left crc_step [b0; b1; b2; b3] c = Nat.iter 32 shift1 (Z.lxor c (word b0 b1 b2 b3)).
Proof.
  intros H0 H1 H2 H3. cbn [fold_left]. unfold crc_step at 4.
  unfold crc_step at 3. rewrite (push 8), <- Nat.iter_add. change (8 + 8)%nat with 16%nat.
  unfold crc_step at 2. rewrite (push 16), <- Nat.iter_add. change (8 + 16)%nat with 24%nat.
  unfold crc_step. rewrite (push 24), <- Nat.iter_add. change (8 + 24)%nat with 32%nat.
  rewrite word_lxor_form by done. f_equal. change (Z.of_nat 8) with 8.
  change (Z.of_nat 16) with 16. change (Z.of_nat 24) with 24. xor_bits.
Qed.

Lemma shiftr_shiftr_8 c n : 0 <= n -> Z.shiftr (Z.shiftr c n) 8 = Z.shiftr c (n + 8).
Proof. intros. by rewrite Z.shiftr_shiftr by lia. Qed.

Lemma iter_peel n c :
  Nat.iter (8 + n) shift1 c =
  Z.lxor (Nat.iter (8 + n) shift1 (Z.land c 255)) (Nat.iter n shift1 (Z.shiftr c 8)).
Proof.
  replace (8 + n)%nat with (n + 8)%nat by lia. rewrite !Nat.iter_add. rewrite (iter8_split c).
  by rewrite (linear_iter shift1 n shift1_linear).
Qed.

Lemma shiftr24_range c : w32 c -> 0 <= Z.shiftr c 24 < 256.
Proof.
  unfold w32. intros Hc. rewrite Z.shiftr_div_pow2 by lia.
  split; [apply Z.div_pos; lia|apply Z.div_lt_upper_bound; lia].
Qed.

(** Four table lookups are 32 shifts. *)
Lemma four_tabs c : w32 c ->
  Z.lxor (Z.lxor (Z.lxor (tab 3 (Z.land c 255)) (tab 2 (Z.land (Z.shiftr c 8) 255)))
    (tab 1 (Z.land (Z.shiftr c 16) 255))) (tab 0 (Z.shiftr c 24)) = Nat.iter 32 shift1 c.
Proof.
  intros Hc.
  destruct (tab_spec _ (land255 c)) as (_ & _ & _ & ->).
  destruct (tab_spec _ (land255 (Z.shiftr c 8))) as (_ & _ & -> & _).
  destruct (tab_spec _ (land255 (Z.shiftr c 16))) as (_ & -> & _).
  destruct (tab_spec _ (shiftr24_range c Hc)) as (-> & _).
  pose proof (iter_peel 24 c) as P1. pose proof (iter_peel 16 (Z.shiftr c 8)) as P2.
  pose proof (iter_peel 8 (Z.shiftr (Z.shiftr c 8) 8)) as P3.
  rewrite !Z.shiftr_shiftr in P2, P3 by lia. cbn [Nat.add Z.add Pos.add Pos.succ Pos.add_carry] in P1, P2, P3.
  rewrite P1, P2, P3. by rewrite !Z.lxor_assoc.
Qed.

Lemma four_bytes (b : list Z) :
  bytes_ok b -> length b = 4%nat ->
  exists b0 b1 b2 b3, b = [b0; b1; b2; b3] /\ is_u8 b0 /\ is_u8 b1 /\ is_u8 b2 /\ is_u8 b3.
Proof.
  intros Hb Hl. destruct b as [|b0 [|b1 [|b2 [|b3 [|]]]]]; try done.
  rewrite !Forall_cons in Hb. destruct Hb as (? & ? & ? & ? & _). by exists b0, b1, b2, b3.
Qed.

Lemma DOLIT4_steps c b :
  w32 c -> bytes_ok b -> length b = 4%nat -> DOLIT4 c b = fold_left crc_step b c /\ w32 (DOLIT4 c b).
Proof.
  intros Hc Hb Hl. destruct (four_bytes b Hb Hl) as (b0 & b1 & b2 & b3 & -> & H0 & H1 & H2 & H3).
  unfold DOLIT4. cbv zeta. rewrite load_le_word by done.
  assert (Hw : w32 (Z.lxor c (word b0 b1 b2 b3))) by (apply lxor_w32; [done|by apply word_w32]).
  rewrite four_tabs by done. rewrite four_steps by done. split; [done|by apply iter_w32].
Qed.

Lemma crc_step_w32 l : forall c, w32 c -> bytes_ok l -> w32 (fold_left crc_step l c).
Proof.
  induction l as [|x l IH]; intros c Hc Hl; [done|]. apply Forall_cons in Hl as [Hx Hl].
  cbn [fold_left]. apply IH; [|done]. apply iter_w32, lxor_w32; [done|]. unfold w32, is_u8 in *. lia.
Qed.

Lemma not32_w32 c : w32 c -> w32 (not32 c).
Proof. intros. apply lxor_w32; [done|]. by vm_compute. Qed.

Lemma little_spec addr crc buf :
  w32 crc -> bytes_ok buf -> crc32_little addr crc buf = crc_spec crc buf.
Proof.
  intros Hc Hb. unfold crc32_little, crc_spec. rewrite u32_small by exact Hc.
  destruct (align_fold DO1 buf addr (not32 crc)) as (k & ->).
  pose proof (Forall_take _ k _ Hb). rewrite fold_crc_DO1 by done.
  assert (Hd : bytes_ok (drop k buf)) by by apply Forall_drop.
  assert (Hc1 : w32 (fold_left crc_step (take k buf) (not32 crc)))
    by (by apply crc_step_w32; [apply not32_w32|]).
  destruct (words_fold DOLIT4 crc_step 8 (length (drop k buf)) _ (drop k buf) DOLIT4_steps Hc1 Hd)
    as (k1 & -> & Hc2). set (d1 := drop k buf) in *.
  assert (Hd1 : bytes_ok (drop k1 d1)) by by apply Forall_drop.
  destruct (words_fold DOLIT4 crc_step 1 (length (drop k1 d1)) _ (drop k1 d1) DOLIT4_steps Hc2 Hd1)
    as (k2 & -> & Hc3).
  rewrite fold_crc_DO1 by (by apply Forall_drop). rewrite <- !fold_left_app, take_drop.
  rewrite (take_drop k1 d1). unfold d1. by rewrite take_drop.
Qed.

(** ** Byte reversal *)

Lemma word_split c : w32 c ->
  exists b0 b1 b2 b3, c = word b0 b1 b2 b3 /\ is_u8 b0 /\ is_u8 b1 /\ is_u8 b2 /\ is_u8 b3.
Proof.
  unfold w32, word, is_u8. intros Hc.
  exists (c mod 256), (c / 256 mod 256), (c / 65536 mod 256), (c / 16777216).
  Z.div_mod_to_equations. lia.
Qed.

Lemma word_parts b0 b1 b2 b3 :
  is_u8 b0 -> is_u8 b1 -> is_u8 b2 -> is_u8 b3 ->
  let c := word b0 b1 b2 b3 in
  Z.land c 255 = b0 /\ Z.land (Z.shiftr c 8) 255 = b1 /\ Z.land (Z.shiftr c 16) 255 = b2 /\
  Z.shiftr c 24 = b3 /\ Z.shiftr c 8 = word b1 b2 b3 0.
Proof.
  unfold is_u8, word. intros. cbv zeta. change 255 with (Z.ones 8). rewrite !Z.land_ones by lia.
  rewrite !Z.shiftr_div_pow2 by lia. change (2 ^ 8) with 256. change (2 ^ 16) with 65536.
  change (2 ^ 24) with 16777216. Z.div_mod_to_equations. lia.
Qed.

Lemma land_ff00 x : Z.land x 65280 = (x / 256) mod 256 * 256.
Proof.
  change 65280 with (Z.shiftl (Z.ones 8) 8). change 256 with (2 ^ 8).
  rewrite <- Z.land_ones, <- Z.shiftr_div_pow2, <- Z.shiftl_mul_pow2 by lia.
  apply Z.bits_inj'. intros i Hi. rewrite Z.land_spec, !Z.shiftl_spec by lia.
  destruct (Z.lt_ge_cases i 8); [rewrite !(Z.testbit_neg_r _ (i - 8)) by lia; btauto|].
  rewrite Z.land_spec, Z.shiftr_spec by lia. by replace (i - 8 + 8) with i by lia.
Qed.

Lemma REV_word b0 b1 b2 b3 :
  is_u8 b0 -> is_u8 b1 -> is_u8 b2 -> is_u8 b3 -> REV (word b0 b1 b2 b3) = word b3 b2 b1 b0.
Proof.
  intros H0 H1 H2 H3. unfold REV. destruct (word_parts b0 b1 b2 b3 H0 H1 H2 H3) as (-> & _ & _ & -> & E).
  rewrite E, !land_ff00, !Z.shiftl_mul_pow2 by lia. unfold word, is_u8 in *.
  rewrite u32_small; Z.div_mod_to_equations; lia.
Qed.

Lemma lxor_u8 a b : is_u8 a -> is_u8 b -> is_u8 (Z.lxor a b).
Proof.
  unfold is_u8. intros Ha Hb. rewrite <- (Z.mod_small a 256), <- (Z.mod_small b 256) by done.
  change 256 with (2 ^ 8). rewrite <- !Z.land_ones by lia.
  replace (Z.lxor _ _) with (Z.land (Z.lxor a b) (Z.ones 8))
    by (apply Z.bits_inj'; intros; rewrite ?Z.land_spec, ?Z.lxor_spec, ?Z.land_spec; btauto).
  rewrite Z.land_ones by lia. apply Z.mod_pos_bound. lia.
Qed.

Lemma lxor_word a0 a1 a2 a3 b0 b1 b2 b3 :
  is_u8 a0 -> is_u8 a1 -> is_u8 a2 -> is_u8 a3 -> is_u8 b0 -> is_u8 b1 -> is_u8 b2 -> is_u8 b3 ->
  Z.lxor (word a0 a1 a2 a3) (word b0 b1 b2 b3) =
  word (Z.lxor a0 b0) (Z.lxor a1 b1) (Z.lxor a2 b2) (Z.lxor a3 b3).
Proof.
  intros. rewrite !word_lxor_form by (done || by apply lxor_u8).
  rewrite <- !Z.shiftl_mul_pow2, !Z.shiftl_lxor by lia. xor_bits.
Qed.

Lemma REV_w32 c : w32 c -> w32 (REV c).
Proof. intros _. unfold w32, REV. apply u32_range. Qed.

Lemma REV_REV c : w32 c -> REV (REV c) = c.
Proof.
  intros Hc. destruct (word_split c Hc) as (b0 & b1 & b2 & b3 & -> & ? & ? & ? & ?).
  by rewrite !REV_word.
Qed.

Lemma REV_lxor a b : w32 a -> w32 b -> REV (Z.lxor a b) = Z.lxor (REV a) (REV b).
Proof.
  intros Ha Hb. destruct (word_split a Ha) as (a0 & a1 & a2 & a3 & -> & ? & ? & ? & ?).
  destruct (word_split b Hb) as (b0 & b1 & b2 & b3 & -> & ? & ? & ? & ?).
  rewrite lxor_word by done. rewrite !REV_word by (done || by apply lxor_u8). by rewrite lxor_word.
Qed.

Lemma tab_w32 i : 0 <= i < 256 -> w32 (tab 0 i) /\ w32 (tab 1 i) /\ w32 (tab 2 i) /\ w32 (tab 3 i).
Proof.
  intros Hi. destruct (tab_spec i Hi) as (-> & -> & -> & ->).
  repeat split; apply iter_w32; unfold w32; lia.
Qed.

(** The big-endian loops work on the reversed register. *)
Lemma DOBIG1_rev c x : w32 c -> is_u8 x -> DOBIG1 (REV c) x = REV (crc_step c x).
Proof.
  intros Hc Hx. destruct (word_split c Hc) as (b0 & b1 & b2 & b3 & -> & H0 & H1 & H2 & H3).
  assert (Hbx : is_u8 (Z.lxor b0 x)) by by apply lxor_u8.
  unfold crc_step. rewrite iter8_split, land_lxor_255, shiftr_lxor_u8 by done.
  destruct (word_parts b0 b1 b2 b3 H0 H1 H2 H3) as (-> & _ & _ & _ & ->).
  unfold DOBIG1. rewrite REV_word by done. destruct (word_parts b3 b2 b1 b0 H3 H2 H1 H0) as (_ & _ & _ & -> & _).
  destruct (tab_rev _ Hbx) as (-> & _). destruct (tab_spec _ Hbx) as (-> & _).
  rewrite REV_lxor; [|apply iter_w32; unfold w32, is_u8 in *; lia|apply word_w32; unfold is_u8 in *; lia].
  f_equal. rewrite REV_word by (unfold is_u8 in *; lia). rewrite Z.shiftl_mul_pow2 by lia.
  unfold u32, word, is_u8 in *. Z.div_mod_to_equations. lia.
Qed.

Lemma fold_DOBIG1 l : forall c, w32 c -> bytes_ok l ->
  fold_left DOBIG1 l (REV c) = REV (fold_left crc_step l c).
Proof.
  induction l as [|x l IH]; intros c Hc Hl; [done|]. apply Forall_cons in Hl as [Hx Hl].
  cbn [fold_left]. rewrite DOBIG1_rev, IH by (try done; by apply (crc_step_w32 [x]); [|constructor]). done.
Qed.

Lemma DOBIG4_rev c b :
  w32 c -> bytes_ok b -> length b = 4%nat -> DOBIG4 (REV c) b = REV (DOLIT4 c b).
Proof.
  intros Hc Hb Hl. destruct (four_bytes b Hb Hl) as (b0 & b1 & b2 & b3 & -> & H0 & H1 & H2 & H3).
  unfold DOBIG4, DOLIT4. cbv zeta. rewrite load_le_word, load_be_word by done.
  rewrite <- (REV_word b0 b1 b2 b3), <- REV_lxor by (done || by apply word_w32).
  assert (Hd : w32 (Z.lxor c (word b0 b1 b2 b3))) by (apply lxor_w32; [done|by apply word_w32]).
  destruct (word_split _ Hd) as (d0 & d1 & d2 & d3 & -> & D0 & D1 & D2 & D3). rewrite REV_word by done.
  destruct (word_parts d3 d2 d1 d0 D3 D2 D1 D0) as (-> & -> & -> & -> & _).
  destruct (word_parts d0 d1 d2 d3 D0 D1 D2 D3) as (-> & -> & -> & -> & _).
  destruct (tab_rev _ D3) as (-> & _). destruct (tab_rev _ D2) as (_ & -> & _).
  destruct (tab_rev _ D1) as (_ & _ & -> & _). destruct (tab_rev _ D0) as (_ & _ & _ & ->).
  destruct (tab_w32 _ D0) as (_ & _ & _ & T0). destruct (tab_w32 _ D1) as (_ & _ & T1 & _).
  destruct (tab_w32 _ D2) as (_ & T2 & _). destruct (tab_w32 _ D3) as (T3 & _).
  rewrite !REV_lxor by (repeat (done || apply lxor_w32)). xor_bits.
Qed.

Lemma DOBIG4_steps c b :
  w32 c -> bytes_ok b -> length b = 4%nat -> DOBIG4 c b = fold_left DOBIG1 b c /\ w32 (DOBIG4 c b).
Proof.
  intros Hc Hb Hl. assert (Hr : w32 (REV c)) by by apply REV_w32.
  rewrite <- (REV_REV c Hc). rewrite DOBIG4_rev by done.
  destruct (DOLIT4_steps (REV c) b Hr Hb Hl) as [-> Hw].
  rewrite fold_DOBIG1 by done. split; [done|by apply REV_w32].
Qed.

Lemma big_spec addr crc buf : w32 crc -> bytes_ok buf -> crc32_big addr crc buf = crc_spec crc buf.
Proof.
  intros Hc Hb. unfold crc32_big, crc_spec. rewrite u32_small by exact Hc.
  assert (Hn : w32 (not32 crc)) by by apply not32_w32.
  replace (not32 (REV crc)) with (REV (not32 crc))
    by (unfold not32; rewrite REV_lxor by (done || by vm_compute); done).
  assert (Hf : forall k l, bytes_ok l -> w32 (fold_left DOBIG1 (take k l) (REV (not32 crc)))).
  { intros k l Hl. rewrite fold_DOBIG1 by (try done; by apply Forall_take).
    by apply REV_w32, crc_step_w32, Forall_take. }
  destruct (align_fold DOBIG1 buf addr (REV (not32 crc))) as (k & ->). specialize (Hf k buf Hb).
  assert (Hd : bytes_ok (drop k buf)) by by apply Forall_drop.
  destruct (words_fold DOBIG4 DOBIG1 8 (length (drop k buf)) _ (drop k buf) DOBIG4_steps Hf Hd)
    as (k1 & -> & Hc2). set (d1 := drop k buf) in *.
  assert (Hd1 : bytes_ok (drop k1 d1)) by by apply Forall_drop.
  destruct (words_fold DOBIG4 DOBIG1 1 (length (drop k1 d1)) _ (drop k1 d1) DOBIG4_steps Hc2 Hd1)
    as (k2 & -> & Hc3).
  rewrite <- !fold_left_app, take_drop, (take_drop k1 d1). unfold d1. rewrite take_drop.
  rewrite fold_DOBIG1 by done. assert (Hw : w32 (fold_left crc_step buf (not32 crc))) by by apply crc_step_w32.
  unfold not32 at 1. rewrite REV_lxor by (by apply REV_w32 || by vm_compute).
  by rewrite REV_REV.
Qed.

(** One CRC on every machine.  For any bytes, any start value, any alignment
    and either byte order, [crc32] returns the CRC-32 of the shift register that
    the comment of [make_crc_table] defines, and so does the byte-wise loop. *)
Theorem crc32_is_shift_register little addr crc buf :
  0 <= crc < 2 ^ 32 -> bytes_ok buf ->
  crc32 little addr crc (Some buf) = crc_spec crc buf /\ crc32_bytewise crc buf = crc_spec crc buf.
Proof.
  intros Hc Hb. split; [|by apply bytewise_spec].
  destruct little; [by apply little_spec|by apply big_spec].
Qed.

(** ** Matrices over GF(2) *)

(** [mat] is the matrix of [f]. *)
Record matrix_of (mat : list Z) (f : Z -> Z) : Prop := {
  mat_length : length mat = GF2_DIM;
  mat_linear : linear f;
  mat_column : forall n, (n < GF2_DIM)%nat -> nth n mat 0 = f (2 ^ Z.of_nat n);
  mat_bound : forall c, w32 c -> w32 (f c)
}.

Lemma vec_split vec : Z.lxor (if Z.odd vec then 1 else 0) (Z.shiftr vec 1 * 2) = vec.
Proof.
  rewrite <- (split_low vec 1) at 3 by lia. f_equal. rewrite Z.land_ones by lia.
  change (2 ^ 1) with 2. by rewrite Zmod_odd.
Qed.

Lemma times_spec f : linear f -> forall mat k vec sum,
  (forall n, (n < length mat)%nat -> nth n mat 0 = f (2 ^ Z.of_nat (k + n))) ->
  0 <= vec < 2 ^ zlen mat ->
  gf2_matrix_times mat vec sum = Z.lxor sum (f (vec * 2 ^ Z.of_nat k)).
Proof.
  intros Hf mat. induction mat as [|m mat IH]; intros k vec sum Hcol Hv; cbn [gf2_matrix_times].
  { change (2 ^ zlen []) with 1 in Hv. assert (vec = 0) as -> by lia.
    by rewrite Z.mul_0_l, (linear_0 f Hf), Z.lxor_0_r. }
  destruct (vec =? 0) eqn:E; zbool.
  { subst vec. by rewrite Z.mul_0_l, (linear_0 f Hf), Z.lxor_0_r. }
  assert (Hz : 2 ^ zlen (m :: mat) = 2 * 2 ^ zlen mat).
  { unfold zlen. cbn [length]. rewrite Nat2Z.inj_succ, Z.pow_succ_r by lia. done. }
  rewrite Hz in Hv. pose proof (Hcol 0%nat ltac:(cbn; lia)) as Hm. cbn [nth] in Hm.
  replace (k + 0)%nat with k in Hm by lia. rewrite land1_odd.
  rewrite (IH (S k)).
  - rewrite Nat2Z.inj_succ, Z.pow_succ_r by lia.
    rewrite <- (vec_split vec) at 3.
    assert (Hd : Z.lxor (if Z.odd vec then 1 else 0) (Z.shiftr vec 1 * 2) * 2 ^ Z.of_nat k =
      Z.lxor ((if Z.odd vec then 1 else 0) * 2 ^ Z.of_nat k) (Z.shiftr vec 1 * (2 * 2 ^ Z.of_nat k))).
    { rewrite (Z.mul_assoc (Z.shiftr vec 1)), <- !Z.shiftl_mul_pow2 by lia. by rewrite Z.shiftl_lxor. }
    rewrite Hd, Hf. destruct (Z.odd vec); rewrite ?Z.mul_1_l, ?Z.mul_0_l, ?(linear_0 f Hf), ?Hm; xor_bits.
  - intros n Hn. specialize (Hcol (S n) ltac:(cbn; lia)). cbn [nth] in Hcol. rewrite Hcol. do 2 f_equal. lia.
  - rewrite Z.shiftr_div_pow2 by lia. change (2 ^ 1) with 2.
    split; [apply Z.div_pos; lia|apply Z.div_lt_upper_bound; lia].
Qed.

Lemma times_matrix mat f vec : matrix_of mat f -> w32 vec -> gf2_matrix_times mat vec 0 = f vec.
Proof.
  intros [Hl Hf Hc _] Hv. rewrite (times_spec f Hf mat 0).
  - by rewrite Z.mul_1_r, Z.lxor_0_l.
  - intros n Hn. apply Hc. lia.
  - unfold zlen. rewrite Hl. exact Hv.
Qed.

Lemma pow2_w32 n : (n < GF2_DIM)%nat -> w32 (2 ^ Z.of_nat n).
Proof.
  unfold GF2_DIM, w32. intros Hn. split; [apply Z.pow_nonneg; lia|]. change 4294967296 with (2 ^ 32).
  apply Z.pow_lt_mono_r; lia.
Qed.

Lemma square_matrix mat f : matrix_of mat f -> matrix_of (gf2_matrix_square mat) (fun c => f (f c)).
Proof.
  intros H. pose proof H as [Hl Hf Hc Hb]. constructor.
  - unfold gf2_matrix_square. by rewrite length_map, length_seq.
  - intros a b. by rewrite !Hf.
  - intros n Hn. unfold gf2_matrix_square.
    rewrite (nth_indep _ 0 (gf2_matrix_times mat (nth 0 mat 0) 0)) by (by rewrite length_map, length_seq).
    rewrite (map_nth (fun n => gf2_matrix_times mat (nth n mat 0) 0) _ 0%nat), seq_nth by done.
    rewrite Hc by done. apply times_matrix; [done|]. by apply Hb, pow2_w32.
  - intros c Hw. by apply Hb, Hb.
Qed.

Lemma matrix_ext mat f g : (forall c, f c = g c) -> matrix_of mat f -> matrix_of mat g.
Proof.
  intros E [H1 H2 H3 H4]. constructor; [done|intros a b; rewrite <- !E; apply H2| |].
  - intros n Hn. rewrite <- E. by apply H3.
  - intros c Hc. rewrite <- E. by apply H4.
Qed.

Lemma square_iter mat n :
  matrix_of mat (Nat.iter n shift1) -> matrix_of (gf2_matrix_square mat) (Nat.iter (2 * n) shift1).
Proof.
  intros H. apply (matrix_ext _ (fun c => Nat.iter n shift1 (Nat.iter n shift1 c))); [|by apply square_matrix].
  intros c. rewrite <- Nat.iter_add. f_equal. lia.
Qed.

Lemma odd0_matrix : matrix_of odd0 (Nat.iter 1 shift1).
Proof.
  constructor.
  - reflexivity.
  - apply linear_iter, shift1_linear.
  - intros n Hn. do 32 (destruct n as [|n]; [vm_compute; reflexivity|]). unfold GF2_DIM in Hn. lia.
  - intros c. apply iter_w32.
Qed.

Lemma combine_loop_spec fuel : forall m odd crc1 len2,
  matrix_of odd (Nat.iter (4 * m) shift1) -> w32 crc1 -> 0 < len2 < 4 ^ Z.of_nat fuel ->
  combine_loop fuel odd crc1 len2 = Ok (Nat.iter (8 * m * Z.to_nat len2) shift1 crc1).
Proof.
  induction fuel as [|fuel IH]; intros m odd crc1 len2 Hm Hw Hl; [cbn in Hl; lia|].
  rewrite Nat2Z.inj_succ, Z.pow_succ_r in Hl by lia. cbn [combine_loop]. rewrite !land1_odd.
  pose proof (square_iter _ _ Hm) as He. pose proof (square_iter _ _ He) as Ho.
  set (c1 := if Z.odd len2 then _ else _).
  assert (Hc1 : c1 = Nat.iter (8 * m * Z.to_nat (len2 mod 2)) shift1 crc1).
  { unfold c1. rewrite Zmod_odd. destruct (Z.odd len2).
    - rewrite (times_matrix _ _ _ He Hw). f_equal. change (Z.to_nat 1) with 1%nat. lia.
    - change (Z.to_nat 0) with 0%nat. by rewrite Nat.mul_0_r. }
  clearbody c1. assert (Hw1 : w32 c1) by (subst c1; by apply iter_w32).
  rewrite Z.shiftr_div_pow2 by lia. change (2 ^ 1) with 2.
  pose proof (Z.div_mod len2 2 ltac:(lia)) as D2. pose proof (Z.mod_pos_bound len2 2 ltac:(lia)).
  destruct (len2 / 2 =? 0) eqn:E1; zbool.
  { rewrite Hc1. do 3 f_equal. lia. }
  set (l2 := len2 / 2) in *. set (c2 := if Z.odd l2 then _ else _).
  assert (Hc2 : c2 = Nat.iter (8 * m * Z.to_nat (len2 mod 2 + 2 * (l2 mod 2))) shift1 crc1).
  { unfold c2. rewrite (Zmod_odd l2). destruct (Z.odd l2).
    - rewrite (times_matrix _ _ _ Ho Hw1), Hc1, <- Nat.iter_add. f_equal. lia.
    - rewrite Hc1. do 2 f_equal. lia. }
  clearbody c2. assert (Hw2 : w32 c2) by (subst c2; by apply iter_w32).
  rewrite Z.shiftr_div_pow2 by lia. change (2 ^ 1) with 2.
  pose proof (Z.div_mod l2 2 ltac:(lia)). pose proof (Z.mod_pos_bound l2 2 ltac:(lia)).
  assert (0 <= l2 / 2) by (apply Z.div_pos; lia).
  destruct (l2 / 2 =? 0) eqn:E2; zbool.
  { rewrite Hc2. do 3 f_equal. lia. }
  rewrite (IH (4 * m)%nat); [|by replace (4 * (4 * m))%nat with (2 * (2 * (4 * m)))%nat by lia|done|lia].
  rewrite Hc2, <- Nat.iter_add. do 2 f_equal.
  replace (Z.to_nat len2) with (4 * Z.to_nat (l2 / 2) + Z.to_nat (len2 mod 2 + 2 * (l2 mod 2)))%nat by lia.
  lia.
Qed.

(** The register after a string depends on its start only by shifts. *)
Lemma fold_crc_split l : forall c d,
  fold_left crc_step l (Z.lxor c d) =
  Z.lxor (Nat.iter (8 * length l) shift1 c) (fold_left crc_step l d).
Proof.
  induction l as [|x l IH]; intros c d; [done|]. cbn [fold_left length].
  assert (Hs : crc_step (Z.lxor c d) x = Z.lxor (Nat.iter 8 shift1 c) (crc_step d x)).
  { unfold crc_step. rewrite Z.lxor_assoc. apply (linear_iter shift1 8 shift1_linear). }
  rewrite Hs, IH, <- Nat.iter_add. f_equal. f_equal. lia.
Qed.

(** [crc32_combine] of the checksums of two strings is the checksum of their
    concatenation: squaring the matrix of one zero bit really gives the matrices
    of 2, 4, 8, ... zero bits, and the loop applies those of [8 * len2] bits and
    ends for every length that fits its type. *)
Theorem crc32_combine_concat crc l1 l2 :
  0 <= crc < 2 ^ 32 -> bytes_ok l1 -> bytes_ok l2 -> zlen l2 < 2 ^ 63 ->
  crc32_combine (crc_spec crc l1) (crc_spec 0 l2) (zlen l2) = Ok (crc_spec crc (l1 ++ l2)).
Proof.
  intros Hc H1 H2 Hl. unfold crc32_combine, crc32_combine_. pose proof (zlen_nonneg l2).
  destruct (zlen l2 =? 0) eqn:E; zbool.
  { destruct l2; [by rewrite app_nil_r|unfold zlen in E; cbn in E; lia]. }
  pose proof (square_iter _ _ (square_iter _ _ odd0_matrix)) as Ho.
  assert (Hw : w32 (crc_spec crc l1)) by (by apply not32_w32, crc_step_w32; [apply not32_w32|]).
  rewrite (combine_loop_spec 32 1); [|exact Ho|exact Hw|split; [lia|change (4 ^ Z.of_nat 32) with (2 ^ 64); lia]].
  cbn [mbind res_bind]. f_equal. unfold crc_spec. rewrite fold_left_app.
  replace (8 * 1 * Z.to_nat (zlen l2))%nat with (8 * length l2)%nat by (unfold zlen; lia).
  set (r := fold_left crc_step l1 (not32 crc)). unfold not32. rewrite Z.lxor_0_l.
  pose proof (fold_crc_split l2 r 0) as S1. rewrite Z.lxor_0_r in S1. rewrite S1.
  pose proof (fold_crc_split l2 4294967295 0) as S2. rewrite Z.lxor_0_r in S2. rewrite S2.
  rewrite (linear_iter shift1 (8 * length l2) shift1_linear). xor_bits.
Qed.

(** ** Concrete strings *)

Lemma crc32_is_shift_register_witness :
  crc32 false 3 0 (Some (str "123456789")) = 0xcbf43926.
Proof.
  destruct (crc32_is_shift_register false 3 0 (str "123456789")) as [H _].
  - lia.
  - repeat constructor; vm_compute; discriminate.
  - rewrite H. vm_compute. reflexivity.
Defined.

Lemma crc32_combine_concat_witness :
  crc32_combine (crc_spec 0 (str "1234")) (crc_spec 0 (str "56789")) 5 = Ok 0xcbf43926.
Proof.
  pose proof (crc32_combine_concat 0 (str "1234") (str "56789")) as H.
  change (zlen (str "56789")) with 5 in H. rewrite H.
  - vm_compute. reflexivity.
  - lia.
  - repeat constructor; vm_compute; discriminate.
  - repeat constructor; vm_compute; discriminate.
  - reflexivity.
Defined.

End Crc.
