(* ===== verification/AprBase64.v ===== *)
(** * AprBase64: base64 in apr-util

    apr-util/encoding/apr_base64.c on an ASCII machine.  A C string is the list of
    its characters without the terminating NUL; the functions that fill a buffer
    return what they wrote, with the terminator where they write one, and the
    value of the C function. *)

From S2P Require Import Prelude.

Module Base64.

Definition pr2six : list Z :=
  [64; 64; 64; 64; 64; 64; 64; 64; 64; 64; 64; 64; 64; 64; 64; 64;
   64; 64; 64; 64; 64; 64; 64; 64; 64; 64; 64; 64; 64; 64; 64; 64;
   64; 64; 64; 64; 64; 64; 64; 64; 64; 64; 64; 62; 64; 64; 64; 63;
   52; 53; 54; 55; 56; 57; 58; 59; 60; 61; 64; 64; 64; 64; 64; 64;
   64; 0; 1; 2; 3; 4; 5; 6; 7; 8; 9; 10; 11; 12; 13; 14;
   15; 16; 17; 18; 19; 20; 21; 22; 23; 24; 25; 64; 64; 64; 64; 64;
   64; 26; 27; 28; 29; 30; 31; 32; 33; 34; 35; 36; 37; 38; 39; 40;
   41; 42; 43; 44; 45; 46; 47; 48; 49; 50; 51; 64; 64; 64; 64; 64;
   64; 64; 64; 64; 64; 64; 64; 64; 64; 64; 64; 64; 64; 64; 64; 64;
   64; 64; 64; 64; 64; 64; 64; 64; 64; 64; 64; 64; 64; 64; 64; 64;
   64; 64; 64; 64; 64; 64; 64; 64; 64; 64; 64; 64; 64; 64; 64; 64;
   64; 64; 64; 64; 64; 64; 64; 64; 64; 64; 64; 64; 64; 64; 64; 64;
   64; 64; 64; 64; 64; 64; 64; 64; 64; 64; 64; 64; 64; 64; 64; 64;
   64; 64; 64; 64; 64; 64; 64; 64; 64; 64; 64; 64; 64; 64; 64; 64;
   64; 64; 64; 64; 64; 64; 64; 64; 64; 64; 64; 64; 64; 64; 64; 64;
   64; 64; 64; 64; 64; 64; 64; 64; 64; 64; 64; 64; 64; 64; 64; 64].

Definition basis_64 : list Z :=
  str "ABCDEFGHIJKLMNOPQRSTUVWXYZabcdefghijklmnopqrstuvwxyz0123456789+/".

Definition six (c : Z) : Z := znth 64 pr2six c.
Definition char64 (i : Z) : Z := znth 0 basis_64 i.

(** [while (pr2six[*(bufin++)] <= 63)]: the characters before the first that is
    not of the alphabet, the NUL at the latest. *)
Fixpoint coded_prefix (bufcoded : list Z) : list Z :=
  match bufcoded with
  | [] => []
  | c :: rest => if six c <=? 63 then c :: coded_prefix rest else []
  end.

Definition apr_base64_decode_len (bufcoded : list Z) : Z :=
  let nprbytes := zlen (coded_prefix bufcoded) in
  (nprbytes + 3) / 4 * 3 + 1.

Definition out0 (p : list Z) : Z :=
  u8 (Z.lor (Z.shiftl (six (znth 0 p 0)) 2) (Z.shiftr (six (znth 0 p 1)) 4)).
Definition out1 (p : list Z) : Z :=
  u8 (Z.lor (Z.shiftl (six (znth 0 p 1)) 4) (Z.shiftr (six (znth 0 p 2)) 2)).
Definition out2 (p : list Z) : Z :=
  u8 (Z.lor (Z.shiftl (six (znth 0 p 2)) 6) (six (znth 0 p 3))).

(** [while (nprbytes > 4)]: the bytes written and the characters left. *)
Fixpoint decode_loop (p : list Z) : list Z * list Z :=
  match p with
  | _ :: _ :: _ :: _ :: (_ :: _) as rest =>
      let '(out, rem) := decode_loop rest in
      (out0 p :: out1 p :: out2 p :: out, rem)
  | _ => ([], p)
  end.

Definition apr_base64_decode_binary (bufcoded : list Z) : list Z * Z :=
  let p := coded_prefix bufcoded in
  let nbytesdecoded := (zlen p + 3) / 4 * 3 in
  let '(out, p) := decode_loop p in
  let nprbytes := zlen p in
  let out := out ++ (if nprbytes >? 1 then [out0 p] else [])
                 ++ (if nprbytes >? 2 then [out1 p] else [])
                 ++ (if nprbytes >? 3 then [out2 p] else []) in
  (out, nbytesdecoded - Z.land (4 - nprbytes) 3).

Definition apr_base64_decode (bufcoded : list Z) : list Z * Z :=
  let '(out, len) := apr_base64_decode_binary bufcoded in
  (out ++ [0], len).

Definition apr_base64_encode_len (len : Z) : Z := (len + 2) / 3 * 4 + 1.

Definition pad : Z := 61.

(** [for (i = 0; i < len - 2; i += 3)] and the one or two bytes left. *)
Fixpoint encode_loop (s : list Z) : list Z :=
  match s with
  | a :: b :: c :: rest =>
      char64 (Z.land (Z.shiftr a 2) 63) ::
      char64 (Z.lor (Z.shiftl (Z.land a 3) 4) (Z.shiftr (Z.land b 240) 4)) ::
      char64 (Z.lor (Z.shiftl (Z.land b 15) 2) (Z.shiftr (Z.land c 192) 6)) ::
      char64 (Z.land c 63) :: encode_loop rest
  | [a; b] =>
      [char64 (Z.land (Z.shiftr a 2) 63);
       char64 (Z.lor (Z.shiftl (Z.land a 3) 4) (Z.shiftr (Z.land b 240) 4));
       char64 (Z.shiftl (Z.land b 15) 2); pad]
  | [a] => [char64 (Z.land (Z.shiftr a 2) 63); char64 (Z.shiftl (Z.land a 3) 4); pad; pad]
  | [] => []
  end.

Definition apr_base64_encode_binary (string : list Z) : list Z * Z :=
  let encoded := encode_loop string ++ [0] in
  (encoded, zlen encoded).

Definition apr_base64_encode (string : list Z) : list Z * Z := apr_base64_encode_binary string.

Example encode_man : fst (apr_base64_encode (str "Man")) = str "TWFu" ++ [0].
Proof. reflexivity. Qed.

(** ** The alphabet *)

Lemma six_char64 i : 0 <= i < 64 -> six (char64 i) = i.
Proof.
  intros Hi. rewrite <- (Z2Nat.id i) by lia. assert (Hn : (Z.to_nat i < 64)%nat) by lia.
  generalize dependent (Z.to_nat i). clear. intros n Hn.
  do 64 (destruct n as [|n]; [vm_compute; reflexivity|]). lia.
Qed.

Lemma land_mask a n : 0 <= n -> Z.land a (Z.ones n) = a mod 2 ^ n.
Proof. intros. by apply Z.land_ones. Qed.

(** The bits of a byte above position [n]. *)
Lemma land_high a n : is_u8 a -> 0 <= n <= 8 ->
  Z.shiftr (Z.land a (Z.shiftl (Z.ones (8 - n)) n)) n = a / 2 ^ n.
Proof.
  unfold is_u8. intros Ha Hn. rewrite Z.shiftr_land, Z.shiftr_shiftl_l by lia.
  rewrite Z.sub_diag, Z.shiftl_0_r, Z.shiftr_div_pow2, Z.land_ones by lia.
  apply Z.mod_small. split; [apply Z.div_pos; [lia|apply Z.pow_pos_nonneg; lia]|].
  apply Z.div_lt_upper_bound; [apply Z.pow_pos_nonneg; lia|].
  rewrite <- Z.pow_add_r by lia. replace (n + (8 - n)) with 8 by lia. lia.
Qed.

Lemma sextets a b c :
  is_u8 a -> is_u8 b -> is_u8 c ->
  Z.land (Z.shiftr a 2) 63 = a / 4 /\
  Z.lor (Z.shiftl (Z.land a 3) 4) (Z.shiftr (Z.land b 240) 4) = a mod 4 * 16 + b / 16 /\
  Z.lor (Z.shiftl (Z.land b 15) 2) (Z.shiftr (Z.land c 192) 6) = b mod 16 * 4 + c / 64 /\
  Z.land c 63 = c mod 64 /\
  Z.shiftl (Z.land a 3) 4 = a mod 4 * 16 /\ Z.shiftl (Z.land b 15) 2 = b mod 16 * 4.
Proof.
  intros Ha Hb Hc. change 240 with (Z.shiftl (Z.ones (8 - 4)) 4). change 192 with (Z.shiftl (Z.ones (8 - 6)) 6).
  rewrite (land_high b 4), (land_high c 6) by (done || lia).
  change 63 with (Z.ones 6). change 3 with (Z.ones 2). change 15 with (Z.ones 4).
  rewrite !Z.land_ones, Z.shiftr_div_pow2, !Z.shiftl_mul_pow2 by lia.
  unfold is_u8 in *.
  rewrite (lor_disjoint_add (a mod 2 ^ 2) (b / 2 ^ 4) 4) by (Z.div_mod_to_equations; lia).
  rewrite (lor_disjoint_add (b mod 2 ^ 4) (c / 2 ^ 6) 2) by (Z.div_mod_to_equations; lia).
  repeat split. rewrite Z.mod_small; [done|]. Z.div_mod_to_equations; lia.
Qed.

(** Four sextets give the three bytes back. *)
Lemma octets i0 i1 i2 i3 :
  0 <= i0 < 64 -> 0 <= i1 < 64 -> 0 <= i2 < 64 -> 0 <= i3 < 64 ->
  u8 (Z.lor (Z.shiftl i0 2) (Z.shiftr i1 4)) = (i0 * 4 + i1 / 16) mod 256 /\
  u8 (Z.lor (Z.shiftl i1 4) (Z.shiftr i2 2)) = (i1 * 16 + i2 / 4) mod 256 /\
  u8 (Z.lor (Z.shiftl i2 6) i3) = (i2 * 64 + i3) mod 256.
Proof.
  intros. rewrite !Z.shiftl_mul_pow2, !Z.shiftr_div_pow2 by lia. unfold u8.
  rewrite (lor_disjoint_add i0 (i1 / 2 ^ 4) 2) by (Z.div_mod_to_equations; lia).
  rewrite (lor_disjoint_add i1 (i2 / 2 ^ 2) 4) by (Z.div_mod_to_equations; lia).
  rewrite (lor_disjoint_add i2 i3 6) by lia. done.
Qed.

Lemma coded_prefix_app p q :
  Forall (fun c => six c <= 63) p -> coded_prefix (p ++ q) = p ++ coded_prefix q.
Proof.
  induction 1 as [|c p Hc _ IH]; [done|]. cbn [app coded_prefix].
  destruct (six c <=? 63) eqn:E; zbool; [by rewrite IH|lia].
Qed.

(** The characters of the alphabet in an encoding, without the padding. *)
Definition chars (s : list Z) : list Z := coded_prefix (encode_loop s).

(** Three bytes as their four characters. *)
Definition quad (a b c : Z) : list Z :=
  map char64 [a / 4; a mod 4 * 16 + b / 16; b mod 16 * 4 + c / 64; c mod 64].

Lemma quad_six a b c :
  is_u8 a -> is_u8 b -> is_u8 c ->
  map six (quad a b c) = [a / 4; a mod 4 * 16 + b / 16; b mod 16 * 4 + c / 64; c mod 64] /\
  Forall (fun c => six c <= 63) (quad a b c).
Proof.
  unfold is_u8. intros Ha Hb Hc. unfold quad. cbn [map].
  rewrite !six_char64 by (Z.div_mod_to_equations; lia). split; [done|].
  repeat constructor; rewrite six_char64; Z.div_mod_to_equations; lia.
Qed.

Lemma out_quad a b c rest :
  is_u8 a -> is_u8 b -> is_u8 c ->
  out0 (quad a b c ++ rest) = a /\ out1 (quad a b c ++ rest) = b /\ out2 (quad a b c ++ rest) = c.
Proof.
  intros Ha Hb Hc. unfold out0, out1, out2, quad. cbn [map app].
  destruct (octets (a / 4) (a mod 4 * 16 + b / 16) (b mod 16 * 4 + c / 64) (c mod 64)) as (E0 & E1 & E2);
    [unfold is_u8 in *; Z.div_mod_to_equations; lia..|].
  unfold znth. change (Z.to_nat 0) with 0%nat. change (Z.to_nat 1) with 1%nat.
  change (Z.to_nat 2) with 2%nat. change (Z.to_nat 3) with 3%nat. cbn [nth].
  rewrite !six_char64 by (unfold is_u8 in *; Z.div_mod_to_equations; lia).
  rewrite E0, E1, E2. unfold is_u8 in *. Z.div_mod_to_equations; lia.
Qed.

Lemma encode_three a b c rest :
  is_u8 a -> is_u8 b -> is_u8 c -> encode_loop (a :: b :: c :: rest) = quad a b c ++ encode_loop rest.
Proof.
  intros Ha Hb Hc. destruct (sextets a b c Ha Hb Hc) as (E0 & E1 & E2 & E3 & _).
  cbn [encode_loop]. by rewrite E0, E1, E2, E3.
Qed.

Lemma encode_two a b : is_u8 a -> is_u8 b -> encode_loop [a; b] = take 3 (quad a b 0) ++ [pad].
Proof.
  intros Ha Hb. destruct (sextets a b 0 Ha Hb) as (E0 & E1 & E2 & _ & _ & E5); [unfold is_u8; lia|].
  cbn [encode_loop]. rewrite E0, E1, E5. unfold quad. cbn [map take app]. by rewrite Z.add_0_r.
Qed.

Lemma encode_one a : is_u8 a -> encode_loop [a] = take 2 (quad a 0 0) ++ [pad; pad].
Proof.
  intros Ha. destruct (sextets a 0 0 Ha) as (E0 & _ & _ & _ & E4 & _); [unfold is_u8; lia..|].
  cbn [encode_loop]. rewrite E0, E4. unfold quad. cbn [map take app]. by rewrite Z.add_0_r.
Qed.

(** The last, possibly incomplete, group. *)
Definition tail_bytes (p : list Z) : list Z :=
  (if zlen p >? 1 then [out0 p] else []) ++ (if zlen p >? 2 then [out1 p] else []) ++
  (if zlen p >? 3 then [out2 p] else []).

Definition decoded (p : list Z) : list Z := let '(out, r) := decode_loop p in out ++ tail_bytes r.

Lemma decode_binary_fst l : fst (apr_base64_decode_binary l) = decoded (coded_prefix l).
Proof. unfold apr_base64_decode_binary, decoded, tail_bytes. by destruct (decode_loop _). Qed.

Lemma prefix_quad a b c n q :
  is_u8 a -> is_u8 b -> is_u8 c ->
  coded_prefix (take n (quad a b c) ++ q) = take n (quad a b c) ++ coded_prefix q.
Proof. intros Ha Hb Hc. apply coded_prefix_app, Forall_take. by apply quad_six. Qed.

Lemma chars_nonempty x s : bytes_ok (x :: s) -> exists y q, coded_prefix (encode_loop (x :: s)) = y :: q.
Proof.
  intros Hs. assert (H0 : is_u8 0) by (unfold is_u8; lia).
  destruct s as [|b [|c s]]; rewrite !Forall_cons in Hs.
  - rewrite encode_one by tauto. rewrite prefix_quad by tauto. by eexists _, _.
  - rewrite encode_two by tauto. rewrite prefix_quad by tauto. by eexists _, _.
  - rewrite encode_three by tauto. rewrite <- (take_ge (quad x b c) 4) by done.
    rewrite prefix_quad by tauto. by eexists _, _.
Qed.

Lemma decoded_chars n : forall s, (length s <= n)%nat -> bytes_ok s ->
  decoded (coded_prefix (encode_loop s)) = s.
Proof.
  assert (H0 : is_u8 0) by (unfold is_u8; lia).
  induction n as [|n IH]; intros s Hn Hs; [by destruct s; [|cbn in Hn; lia]|].
  destruct s as [|a [|b [|c s]]]; [done|..]; rewrite !Forall_cons in Hs.
  - destruct Hs as [Ha _]. rewrite encode_one, prefix_quad by done.
    destruct (out_quad a 0 0 [] Ha H0 H0) as (E & _).
    change (decoded _) with [out0 (quad a 0 0 ++ [])]. by rewrite E.
  - destruct Hs as (Ha & Hb & _). rewrite encode_two, prefix_quad by done.
    destruct (out_quad a b 0 [] Ha Hb H0) as (E0 & E1 & _).
    change (decoded _) with [out0 (quad a b 0 ++ []); out1 (quad a b 0 ++ [])]. by rewrite E0, E1.
  - destruct Hs as (Ha & Hb & Hc & Hs). rewrite encode_three by done.
    rewrite coded_prefix_app by (by apply quad_six). destruct s as [|x s].
    + destruct (out_quad a b c [] Ha Hb Hc) as (E0 & E1 & E2).
      change (decoded _) with
        [out0 (quad a b c ++ []); out1 (quad a b c ++ []); out2 (quad a b c ++ [])].
      by rewrite E0, E1, E2.
    + destruct (chars_nonempty x s Hs) as (y & q & Ey).
      assert (IHs := IH (x :: s) ltac:(cbn in *; lia) Hs). rewrite Ey in *.
      destruct (out_quad a b c (y :: q) Ha Hb Hc) as (E0 & E1 & E2).
      assert (Ed : decode_loop (quad a b c ++ y :: q) =
        let '(out, r) := decode_loop (y :: q) in
        (out0 (quad a b c ++ y :: q) :: out1 (quad a b c ++ y :: q) :: out2 (quad a b c ++ y :: q) :: out, r))
        by reflexivity.
      rewrite E0, E1, E2 in Ed. unfold decoded in *. rewrite Ed. destruct (decode_loop (y :: q)) as [out r].
      cbn [app]. by rewrite IHs.
Qed.

(** ** Lengths *)

Lemma decode_loop_len n : forall p out r, (length p <= n)%nat -> decode_loop p = (out, r) ->
  exists k, 0 <= k /\ zlen p = 4 * k + zlen r /\ zlen out = 3 * k /\ zlen r <= 4 /\ (zlen r = 0 -> k = 0).
Proof.
  unfold zlen. induction n as [|n IH]; intros p out r Hn E.
  { destruct p; [|cbn in Hn; lia]. cbn [decode_loop] in E. injection E as <- <-. exists 0. cbn. lia. }
  destruct p as [|a [|b [|c [|d [|e p]]]]];
    try (cbn [decode_loop] in E; injection E as <- <-; exists 0; cbn; lia).
  change (decode_loop (a :: b :: c :: d :: e :: p)) with (let '(o, q) := decode_loop (e :: p) in
    (out0 (a :: b :: c :: d :: e :: p) :: out1 (a :: b :: c :: d :: e :: p) ::
     out2 (a :: b :: c :: d :: e :: p) :: o, q)) in E.
  destruct (decode_loop (e :: p)) as [o q] eqn:Eq. injection E as <- <-.
  destruct (IH (e :: p) o q ltac:(cbn [length] in *; lia) Eq) as (k & Hk & H1 & H2 & H3 & H4).
  exists (k + 1). cbn [length] in *. lia.
Qed.

Lemma tail_bytes_len r : zlen r <= 4 -> zlen (tail_bytes r) = Z.max 0 (zlen r - 1).
Proof.
  intros Hr. unfold tail_bytes. pose proof (zlen_nonneg r). repeat zcase; unfold zlen in *; cbn [app length]; lia.
Qed.

Lemma decode_count l :
  snd (apr_base64_decode_binary l) = zlen (fst (apr_base64_decode_binary l)) /\
  zlen (fst (apr_base64_decode_binary l)) + 1 <= apr_base64_decode_len l.
Proof.
  rewrite decode_binary_fst. unfold apr_base64_decode_binary, apr_base64_decode_len, decoded.
  set (p := coded_prefix l). destruct (decode_loop p) as [out r] eqn:E. cbn [snd].
  destruct (decode_loop_len (length p) p out r ltac:(lia) E) as (k & Hk & H1 & H2 & H3 & H4).
  rewrite zlen_app, tail_bytes_len, H1, H2 by done. pose proof (zlen_nonneg r).
  change 3 with (Z.ones 2) at 3. rewrite Z.land_ones by lia. change (2 ^ 2) with 4.
  Z.div_mod_to_equations. lia.
Qed.

Lemma encode_len_spec n : forall s, (length s <= n)%nat ->
  zlen (encode_loop s) + 1 = apr_base64_encode_len (zlen s).
Proof.
  unfold apr_base64_encode_len, zlen.
  induction n as [|n IH]; intros s Hn; [by destruct s; [|cbn in Hn; lia]|].
  destruct s as [|a [|b [|c s]]]; try reflexivity. cbn [encode_loop length].
  specialize (IH s ltac:(cbn in Hn; lia)). Z.div_mod_to_equations. lia.
Qed.

(** Decoding inverts encoding.  For every byte string the encoder writes
    exactly [apr_base64_encode_len] characters with the terminator, and the
    decoder returns the string and its length from them. *)
Theorem base64_roundtrip s :
  bytes_ok s ->
  snd (apr_base64_encode_binary s) = apr_base64_encode_len (zlen s) /\
  apr_base64_decode_binary (encode_loop s) = (s, zlen s).
Proof.
  intros Hs. split.
  - unfold apr_base64_encode_binary. cbn [snd]. rewrite zlen_app. by apply (encode_len_spec (length s)).
  - assert (Hf : fst (apr_base64_decode_binary (encode_loop s)) = s)
      by (rewrite decode_binary_fst; by apply (decoded_chars (length s))).
    destruct (decode_count (encode_loop s)) as [Hc _]. rewrite Hf in Hc.
    rewrite (surjective_pairing (apr_base64_decode_binary _)). by rewrite Hf, Hc.
Qed.

(** The decoder stays in its buffer.  For any input string, well formed or
    not, it returns the number of bytes it wrote, and these with the terminating
    NUL fit into [apr_base64_decode_len] bytes. *)
Theorem base64_decode_fits l :
  let '(out, len) := apr_base64_decode l in
  zlen out = len + 1 /\ zlen out <= apr_base64_decode_len l.
Proof.
  destruct (decode_count l) as [H1 H2]. unfold apr_base64_decode.
  destruct (apr_base64_decode_binary l) as [out len]. cbn [fst snd] in *.
  rewrite zlen_app. change (zlen [0]) with 1. lia.
Qed.

Lemma base64_roundtrip_witness :
  apr_base64_decode_binary (encode_loop [0; 255; 128; 10]) = ([0; 255; 128; 10], 4).
Proof.
  destruct (base64_roundtrip [0; 255; 128; 10]) as [_ H].
  - repeat constructor; vm_compute; discriminate.
  - exact H.
Defined.

End Base64.
