(* ===== verification/DigestStream.v ===== *)
(** * DigestStream: iterated block digests

    What MD4, MD5, SHA-1 and SHA-2 have in common: a message is padded to whole
    blocks and folded with a compression function.  [absorb] is the fold over the
    whole blocks of a message; its laws are what the incremental implementations
    (an update function with a partial block) are proved with.  The class
    [StreamDigest] is the promise of such an implementation to its clients. *)

From S2P Require Import Prelude.

(** ** 32-bit words *)

Definition not32 (x : Z) : Z := Z.lxor x 4294967295.
Definition rotl32 (x n : Z) : Z := Z.lor (u32 (Z.shiftl x n)) (Z.shiftr x (32 - n)).
Definition add32 (x y : Z) : Z := u32 (x + y).

(** ** Whole blocks *)

Section Absorb.
Context {S : Type} (B : nat) (f : S -> list Z -> S).
Hypothesis HB : (0 < B)%nat.

Fixpoint absorb_n (n : nat) (s : S) (l : list Z) : S * list Z :=
  match n with
  | O => (s, l)
  | Datatypes.S n =>
      if (length l <? B)%nat then (s, l) else absorb_n n (f s (take B l)) (drop B l)
  end.

(** The state after the whole blocks of [l], and the bytes behind them. *)
Definition absorb (s : S) (l : list Z) : S * list Z := absorb_n (length l) s l.

Lemma absorb_n_enough n : forall m s l,
  (length l <= n)%nat -> (length l <= m)%nat -> absorb_n n s l = absorb_n m s l.
Proof using HB.
  induction n as [|n IH]; intros [|m] s l Hn Hm; try done.
  - destruct l; [|cbn in Hn; lia]. cbn [absorb_n length]. destruct (Nat.ltb_spec 0 B); [done|lia].
  - destruct l; [|cbn in Hm; lia]. cbn [absorb_n length]. destruct (Nat.ltb_spec 0 B); [done|lia].
  - cbn [absorb_n]. destruct (Nat.ltb_spec (length l) B); [done|].
    apply IH; rewrite length_drop; lia.
Qed.

Lemma absorb_short s l : (length l < B)%nat -> absorb s l = (s, l).
Proof using HB.
  intros Hl. unfold absorb. destruct (length l) eqn:E; [done|]. cbn [absorb_n]. rewrite E.
  destruct (Nat.ltb_spec (Datatypes.S n) B); [done|lia].
Qed.

Lemma absorb_long s l : (B <= length l)%nat -> absorb s l = absorb (f s (take B l)) (drop B l).
Proof using HB.
  intros Hl. unfold absorb at 1. destruct (length l) as [|n] eqn:E; [lia|]. cbn [absorb_n]. rewrite E.
  destruct (Nat.ltb_spec (Datatypes.S n) B); [lia|].
  apply absorb_n_enough; rewrite length_drop; lia.
Qed.

Lemma absorb_block s b l : length b = B -> absorb s (b ++ l) = absorb (f s b) l.
Proof using HB.
  intros Hb. rewrite absorb_long by (rewrite length_app; lia).
  rewrite <- Hb. by rewrite take_app_length, drop_app_length.
Qed.

(** Absorbing is a left action of concatenation. *)
Lemma absorb_app n : forall s l k, (length l <= n)%nat ->
  absorb s (l ++ k) = (let '(s', r) := absorb s l in absorb s' (r ++ k)).
Proof using HB.
  induction n as [|n IH]; intros s l k Hn.
  { destruct l; [done|cbn in Hn; lia]. }
  destruct (Nat.lt_ge_cases (length l) B) as [Hl|Hl]; [by rewrite (absorb_short s l Hl)|].
  rewrite (absorb_long s l Hl). rewrite <- (IH _ (drop B l)) by (rewrite length_drop; lia).
  rewrite <- (take_drop B l) at 1. rewrite <- app_assoc, absorb_block by (rewrite length_take; lia). done.
Qed.

Lemma absorb_snd_length n : forall s l, (length l <= n)%nat ->
  (length (snd (absorb s l)) < B)%nat /\
  exists q, length l = (q * B + length (snd (absorb s l)))%nat.
Proof using HB.
  induction n as [|n IH]; intros s l Hn.
  { destruct l; [|cbn in Hn; lia]. rewrite absorb_short by (cbn; lia). split; [cbn; lia|by exists 0%nat]. }
  destruct (Nat.lt_ge_cases (length l) B) as [Hl|Hl].
  { rewrite absorb_short by done. split; [done|]. by exists 0%nat. }
  rewrite absorb_long by done.
  destruct (IH (f s (take B l)) (drop B l)) as [H1 [q Hq]]; [rewrite length_drop; lia|].
  split; [done|]. exists (Datatypes.S q). rewrite length_drop in Hq. lia.
Qed.

(** The number of bytes in the partial block. *)
Lemma absorb_rest s l : zlen (snd (absorb s l)) = zlen l mod Z.of_nat B.
Proof using HB.
  destruct (absorb_snd_length (length l) s l ltac:(lia)) as [H1 [q Hq]]. unfold zlen. rewrite Hq at 1.
  rewrite Nat2Z.inj_add, Nat2Z.inj_mul, Z.add_comm, Z.mod_add, Z.mod_small by lia. done.
Qed.

Lemma absorb_rest_lt s l : (length (snd (absorb s l)) < B)%nat.
Proof using HB. by apply (absorb_snd_length (length l)). Qed.

Lemma absorb_cat s l k : absorb s (l ++ k) = absorb (fst (absorb s l)) (snd (absorb s l) ++ k).
Proof using HB. rewrite (absorb_app (length l)) by lia. by destruct (absorb s l). Qed.

(** The message digest: padding and one fold. *)
Definition digest_of (iv : S) (pad : Z -> list Z) (out : S -> list Z) (m : list Z) : list Z :=
  out (fst (absorb iv (m ++ pad (zlen m)))).

End Absorb.

(** ** The promise of an incremental implementation *)

Class StreamDigest (ctx : Type) := {
  sd_init : ctx;
  sd_update : ctx -> list Z -> ctx;
  sd_final : ctx -> list Z;
  sd_chunk : list Z -> Prop;        (** chunks the update function accepts *)
  sd_spec : list Z -> list Z;       (** the digest of a whole message *)
  sd_correct : forall chunks, Forall sd_chunk chunks ->
    sd_final (fold_left sd_update chunks sd_init) = sd_spec (concat chunks)
}.

(** A client may cut a message as it likes. *)
Lemma chunking_irrelevant {ctx} `{StreamDigest ctx} cs ds :
  Forall sd_chunk cs -> Forall sd_chunk ds -> concat cs = concat ds ->
  sd_final (fold_left sd_update cs sd_init) = sd_final (fold_left sd_update ds sd_init).
Proof. intros Hc Hd E. by rewrite !sd_correct, E. Qed.

(** ** Bytes of words *)

(** [Encode] of MD4 and MD5: words to bytes, least significant first. *)
Definition word_le (k : Z) : list Z :=
  [Z.land k 255; Z.land (Z.shiftr k 8) 255; Z.land (Z.shiftr k 16) 255; Z.land (Z.shiftr k 24) 255].

Definition word_be (k : Z) : list Z :=
  [Z.land (Z.shiftr k 24) 255; Z.land (Z.shiftr k 16) 255; Z.land (Z.shiftr k 8) 255; Z.land k 255].

(** The bit count of MD4, MD5 and SHA-1 in two 32-bit halves. *)
Definition count_update (lo hi len : Z) : Z * Z :=
  let n := u32 (Z.shiftl (u32 len) 3) in
  let lo' := u32 (lo + n) in
  let hi := if lo' <? n then u32 (hi + 1) else hi in
  (lo', u32 (hi + Z.shiftr (u32 len) 29)).

Lemma count_update_spec lo hi len total :
  lo + 4294967296 * hi = u64 (8 * total) -> 0 <= lo < 4294967296 -> 0 <= hi < 4294967296 ->
  0 <= len < 4294967296 ->
  let '(lo', hi') := count_update lo hi len in
  lo' + 4294967296 * hi' = u64 (8 * (total + len)) /\ 0 <= lo' < 4294967296 /\ 0 <= hi' < 4294967296.
Proof.
  intros Hc Hlo Hhi Hlen. unfold count_update. cbv zeta. rewrite (u32_small len) by done.
  rewrite Z.shiftl_mul_pow2, Z.shiftr_div_pow2 by lia. change (2 ^ 3) with 8. change (2 ^ 29) with 536870912.
  unfold u32, u64 in *. split; [|split; apply Z.mod_pos_bound; lia].
  destruct (_ <? _) eqn:E; zbool; Z.div_mod_to_equations; lia.
Qed.

(** The bytes of the partial block, from the low word of the bit count. *)
Lemma count_index lo hi total :
  0 <= total -> lo + 4294967296 * hi = u64 (8 * total) -> 0 <= lo < 4294967296 -> 0 <= hi < 4294967296 ->
  Z.land (Z.shiftr lo 3) 63 = total mod 64.
Proof.
  intros Ht Hc Hlo Hhi. change 63 with (Z.ones 6). rewrite Z.land_ones, Z.shiftr_div_pow2 by lia.
  change (2 ^ 3) with 8. change (2 ^ 6) with 64. unfold u64 in Hc. Z.div_mod_to_equations. lia.
Qed.
