(* ===== verification/AprMd.v ===== *)
(** * AprMd: MD4 and MD5 in apr-util

    apr-util/crypto/apr_md4.c and apr_md5.c, without character translation
    ([context->xlate] is NULL).  The two files share the text of [update],
    [final], [Encode] and [Decode]; they differ in the transformation.  Both are
    shown to compute the digests of RFC 1320 and RFC 1321 for every way of cutting
    the message into calls of [update]. *)

From S2P Require Import Prelude DigestStream.

(** ** What the two files have in common *)

Definition words4 : Type := Z * Z * Z * Z.

Record md_ctx := mkMd {
  state : words4;
  count0 : Z;
  count1 : Z;
  buffer : list Z
}.

Definition PADDING : list Z := 128 :: repeat 0 63.

(** [Encode] of a list of words *)
Definition Encode (input : list Z) : list Z := concat (map word_le input).

(** [Decode]: the [i]-th word of a block *)
Definition Decode (input : list Z) (i : Z) : Z :=
  Z.lor (Z.lor (Z.lor (znth 0 input (4 * i)) (Z.shiftl (znth 0 input (4 * i + 1)) 8))
    (Z.shiftl (znth 0 input (4 * i + 2)) 16)) (Z.shiftl (znth 0 input (4 * i + 3)) 24).

Definition md_init (buf : list Z) : md_ctx :=
  mkMd (0x67452301, 0xefcdab89, 0x98badcfe, 0x10325476) 0 0 buf.

Definition md_zero : md_ctx := mkMd (0, 0, 0, 0) 0 0 (repeat 0 64).

Section Common.
Context (Transform : words4 -> list Z -> words4).

(** [for (i = partLen; i + 63 < inputLen; i += 64)]; [i] is an unsigned int. *)
Fixpoint md_blocks (fuel : nat) (st : words4) (i : Z) (input : list Z) : words4 * Z :=
  match fuel with
  | O => (st, i)
  | S fuel =>
      if u32 (i + 63) <? zlen input
      then md_blocks fuel (Transform st (slice i 64 input)) (u32 (i + 64)) input
      else (st, i)
  end.

Definition md_update (context : md_ctx) (input : list Z) : md_ctx :=
  let idx := Z.land (Z.shiftr (count0 context) 3) 63 in
  let '(c0, c1) := count_update (count0 context) (count1 context) (zlen input) in
  let partLen := 64 - idx in
  if zlen input >=? partLen then
    let buf := splice idx (take (Z.to_nat partLen) input) (buffer context) in
    let st := Transform (state context) buf in
    let '(st, i) := md_blocks (length input) st partLen input in
    mkMd st c0 c1 (splice 0 (drop (Z.to_nat i) input) buf)
  else mkMd (state context) c0 c1 (splice idx input (buffer context)).

(** The digest, and the context wiped out. *)
Definition md_final (context : md_ctx) : list Z * md_ctx :=
  let bits := Encode [count0 context; count1 context] in
  let idx := Z.land (Z.shiftr (count0 context) 3) 63 in
  let padLen := if idx <? 56 then 56 - idx else 120 - idx in
  let context := md_update context (take (Z.to_nat padLen) PADDING) in
  let context := md_update context bits in
  let '(a, b, c, d) := state context in
  (Encode [a; b; c; d], md_zero).

End Common.

(** ** MD5 *)

Module Md5.

Definition S11 : Z := 7.
Definition S12 : Z := 12.
Definition S13 : Z := 17.
Definition S14 : Z := 22.
Definition S21 : Z := 5.
Definition S22 : Z := 9.
Definition S23 : Z := 14.
Definition S24 : Z := 20.
Definition S31 : Z := 4.
Definition S32 : Z := 11.
Definition S33 : Z := 16.
Definition S34 : Z := 23.
Definition S41 : Z := 6.
Definition S42 : Z := 10.
Definition S43 : Z := 15.
Definition S44 : Z := 21.

Definition F (x y z : Z) : Z := Z.lor (Z.land x y) (Z.land (not32 x) z).
Definition G (x y z : Z) : Z := Z.lor (Z.land x z) (Z.land y (not32 z)).
Definition H (x y z : Z) : Z := Z.lxor (Z.lxor x y) z.
Definition I (x y z : Z) : Z := Z.lxor y (Z.lor x (not32 z)).

Definition FF (a b c d x s ac : Z) : Z := add32 (rotl32 (u32 (a + F b c d + x + ac)) s) b.
Definition GG (a b c d x s ac : Z) : Z := add32 (rotl32 (u32 (a + G b c d + x + ac)) s) b.
Definition HH (a b c d x s ac : Z) : Z := add32 (rotl32 (u32 (a + H b c d + x + ac)) s) b.
Definition II (a b c d x s ac : Z) : Z := add32 (rotl32 (u32 (a + I b c d + x + ac)) s) b.

Definition MD5Transform (state : words4) (block : list Z) : words4 :=
  let '(a0, b0, c0, d0) := state in
  let a := a0 in let b := b0 in let c := c0 in let d := d0 in
  let x := Decode block in
  (* Round 1 *)
  let a := FF a b c d (x 0) S11 0xd76aa478 in
  let d := FF d a b c (x 1) S12 0xe8c7b756 in
  let c := FF c d a b (x 2) S13 0x242070db in
  let b := FF b c d a (x 3) S14 0xc1bdceee in
  let a := FF a b c d (x 4) S11 0xf57c0faf in
  let d := FF d a b c (x 5) S12 0x4787c62a in
  let c := FF c d a b (x 6) S13 0xa8304613 in
  let b := FF b c d a (x 7) S14 0xfd469501 in
  let a := FF a b c d (x 8) S11 0x698098d8 in
  let d := FF d a b c (x 9) S12 0x8b44f7af in
  let c := FF c d a b (x 10) S13 0xffff5bb1 in
  let b := FF b c d a (x 11) S14 0x895cd7be in
  let a := FF a b c d (x 12) S11 0x6b901122 in
  let d := FF d a b c (x 13) S12 0xfd987193 in
  let c := FF c d a b (x 14) S13 0xa679438e in
  let b := FF b c d a (x 15) S14 0x49b40821 in
  (* Round 2 *)
  let a := GG a b c d (x 1) S21 0xf61e2562 in
  let d := GG d a b c (x 6) S22 0xc040b340 in
  let c := GG c d a b (x 11) S23 0x265e5a51 in
  let b := GG b c d a (x 0) S24 0xe9b6c7aa in
  let a := GG a b c d (x 5) S21 0xd62f105d in
  let d := GG d a b c (x 10) S22 0x2441453 in
  let c := GG c d a b (x 15) S23 0xd8a1e681 in
  let b := GG b c d a (x 4) S24 0xe7d3fbc8 in
  let a := GG a b c d (x 9) S21 0x21e1cde6 in
  let d := GG d a b c (x 14) S22 0xc33707d6 in
  let c := GG c d a b (x 3) S23 0xf4d50d87 in
  let b := GG b c d a (x 8) S24 0x455a14ed in
  let a := GG a b c d (x 13) S21 0xa9e3e905 in
  let d := GG d a b c (x 2) S22 0xfcefa3f8 in
  let c := GG c d a b (x 7) S23 0x676f02d9 in
  let b := GG b c d a (x 12) S24 0x8d2a4c8a in
  (* Round 3 *)
  let a := HH a b c d (x 5) S31 0xfffa3942 in
  let d := HH d a b c (x 8) S32 0x8771f681 in
  let c := HH c d a b (x 11) S33 0x6d9d6122 in
  let b := HH b c d a (x 14) S34 0xfde5380c in
  let a := HH a b c d (x 1) S31 0xa4beea44 in
  let d := HH d a b c (x 4) S32 0x4bdecfa9 in
  let c := HH c d a b (x 7) S33 0xf6bb4b60 in
  let b := HH b c d a (x 10) S34 0xbebfbc70 in
  let a := HH a b c d (x 13) S31 0x289b7ec6 in
  let d := HH d a b c (x 0) S32 0xeaa127fa in
  let c := HH c d a b (x 3) S33 0xd4ef3085 in
  let b := HH b c d a (x 6) S34 0x4881d05 in
  let a := HH a b c d (x 9) S31 0xd9d4d039 in
  let d := HH d a b c (x 12) S32 0xe6db99e5 in
  let c := HH c d a b (x 15) S33 0x1fa27cf8 in
  let b := HH b c d a (x 2) S34 0xc4ac5665 in
  (* Round 4 *)
  let a := II a b c d (x 0) S41 0xf4292244 in
  let d := II d a b c (x 7) S42 0x432aff97 in
  let c := II c d a b (x 14) S43 0xab9423a7 in
  let b := II b c d a (x 5) S44 0xfc93a039 in
  let a := II a b c d (x 12) S41 0x655b59c3 in
  let d := II d a b c (x 3) S42 0x8f0ccc92 in
  let c := II c d a b (x 10) S43 0xffeff47d in
  let b := II b c d a (x 1) S44 0x85845dd1 in
  let a := II a b c d (x 8) S41 0x6fa87e4f in
  let d := II d a b c (x 15) S42 0xfe2ce6e0 in
  let c := II c d a b (x 6) S43 0xa3014314 in
  let b := II b c d a (x 13) S44 0x4e0811a1 in
  let a := II a b c d (x 4) S41 0xf7537e82 in
  let d := II d a b c (x 11) S42 0xbd3af235 in
  let c := II c d a b (x 2) S43 0x2ad7d2bb in
  let b := II b c d a (x 9) S44 0xeb86d391 in
  (add32 a0 a, add32 b0 b, add32 c0 c, add32 d0 d).

(** The buffer of a new context is not initialised. *)
Definition apr_md5_init (garbage : list Z) : md_ctx := md_init garbage.
Definition apr_md5_update : md_ctx -> list Z -> md_ctx := md_update MD5Transform.
Definition apr_md5_final : md_ctx -> list Z * md_ctx := md_final MD5Transform.

Definition apr_md5 (garbage input : list Z) : list Z :=
  fst (apr_md5_final (apr_md5_update (apr_md5_init garbage) input)).

Example md5_abc :
  apr_md5 (repeat 77 64) (str "abc") =
  [0x90; 0x01; 0x50; 0x98; 0x3c; 0xd2; 0x4f; 0xb0; 0xd6; 0x96; 0x3f; 0x7d; 0x28; 0xe1; 0x7f; 0x72].
Proof. vm_compute. reflexivity. Qed.

End Md5.

(** ** MD4 *)

Module Md4.

Definition S11 : Z := 3.
Definition S12 : Z := 7.
Definition S13 : Z := 11.
Definition S14 : Z := 19.
Definition S21 : Z := 3.
Definition S22 : Z := 5.
Definition S23 : Z := 9.
Definition S24 : Z := 13.
Definition S31 : Z := 3.
Definition S32 : Z := 9.
Definition S33 : Z := 11.
Definition S34 : Z := 15.

Definition F (x y z : Z) : Z := Z.lor (Z.land x y) (Z.land (not32 x) z).
Definition G (x y z : Z) : Z := Z.lor (Z.lor (Z.land x y) (Z.land x z)) (Z.land y z).
Definition H (x y z : Z) : Z := Z.lxor (Z.lxor x y) z.

Definition FF (a b c d x s : Z) : Z := rotl32 (u32 (a + F b c d + x)) s.
Definition GG (a b c d x s : Z) : Z := rotl32 (u32 (a + G b c d + x + 0x5a827999)) s.
Definition HH (a b c d x s : Z) : Z := rotl32 (u32 (a + H b c d + x + 0x6ed9eba1)) s.

Definition MD4Transform (state : words4) (block : list Z) : words4 :=
  let '(a0, b0, c0, d0) := state in
  let a := a0 in let b := b0 in let c := c0 in let d := d0 in
  let x := Decode block in
  (* Round 1 *)
  let a := FF a b c d (x 0) S11 in
  let d := FF d a b c (x 1) S12 in
  let c := FF c d a b (x 2) S13 in
  let b := FF b c d a (x 3) S14 in
  let a := FF a b c d (x 4) S11 in
  let d := FF d a b c (x 5) S12 in
  let c := FF c d a b (x 6) S13 in
  let b := FF b c d a (x 7) S14 in
  let a := FF a b c d (x 8) S11 in
  let d := FF d a b c (x 9) S12 in
  let c := FF c d a b (x 10) S13 in
  let b := FF b c d a (x 11) S14 in
  let a := FF a b c d (x 12) S11 in
  let d := FF d a b c (x 13) S12 in
  let c := FF c d a b (x 14) S13 in
  let b := FF b c d a (x 15) S14 in
  (* Round 2 *)
  let a := GG a b c d (x 0) S21 in
  let d := GG d a b c (x 4) S22 in
  let c := GG c d a b (x 8) S23 in
  let b := GG b c d a (x 12) S24 in
  let a := GG a b c d (x 1) S21 in
  let d := GG d a b c (x 5) S22 in
  let c := GG c d a b (x 9) S23 in
  let b := GG b c d a (x 13) S24 in
  let a := GG a b c d (x 2) S21 in
  let d := GG d a b c (x 6) S22 in
  let c := GG c d a b (x 10) S23 in
  let b := GG b c d a (x 14) S24 in
  let a := GG a b c d (x 3) S21 in
  let d := GG d a b c (x 7) S22 in
  let c := GG c d a b (x 11) S23 in
  let b := GG b c d a (x 15) S24 in
  (* Round 3 *)
  let a := HH a b c d (x 0) S31 in
  let d := HH d a b c (x 8) S32 in
  let c := HH c d a b (x 4) S33 in
  let b := HH b c d a (x 12) S34 in
  let a := HH a b c d (x 2) S31 in
  let d := HH d a b c (x 10) S32 in
  let c := HH c d a b (x 6) S33 in
  let b := HH b c d a (x 14) S34 in
  let a := HH a b c d (x 1) S31 in
  let d := HH d a b c (x 9) S32 in
  let c := HH c d a b (x 5) S33 in
  let b := HH b c d a (x 13) S34 in
  let a := HH a b c d (x 3) S31 in
  let d := HH d a b c (x 11) S32 in
  let c := HH c d a b (x 7) S33 in
  let b := HH b c d a (x 15) S34 in
  (add32 a0 a, add32 b0 b, add32 c0 c, add32 d0 d).

Definition apr_md4_init (garbage : list Z) : md_ctx := md_init garbage.
Definition apr_md4_update : md_ctx -> list Z -> md_ctx := md_update MD4Transform.
Definition apr_md4_final : md_ctx -> list Z * md_ctx := md_final MD4Transform.

Definition apr_md4 (garbage input : list Z) : list Z :=
  fst (apr_md4_final (apr_md4_update (apr_md4_init garbage) input)).

Example md4_abc :
  apr_md4 (repeat 77 64) (str "abc") =
  [0xa4; 0x48; 0x01; 0x7a; 0xaf; 0x21; 0xd8; 0x52; 0x5f; 0xc1; 0x0a; 0xe8; 0x7a; 0xa6; 0x72; 0x9d].
Proof. vm_compute. reflexivity. Qed.

End Md4.

(** ** Any chunking gives the digest of the RFC *)

(** A one bit, zeros up to 56 bytes modulo 64, the length in bits. *)
Definition le64 (v : Z) : list Z := word_le (u32 v) ++ word_le (u32 (v / 4294967296)).
Definition md_pad (n : Z) : list Z := 128 :: repeat 0 (Z.to_nat ((55 - n) mod 64)) ++ le64 (u64 (8 * n)).

Definition md_out (st : words4) : list Z := let '(a, b, c, d) := st in Encode [a; b; c; d].
Definition md_iv : words4 := (0x67452301, 0xefcdab89, 0x98badcfe, 0x10325476).

(** Lengths the 32-bit index of the loop can handle. *)
Definition md_chunk (d : list Z) : Prop := zlen d < 2 ^ 32 - 64.

Section Streaming.
Context (T : words4 -> list Z -> words4).

Definition md_spec (m : list Z) : list Z := digest_of 64 T md_iv md_pad md_out m.

(** The context after the bytes [m]. *)
Record md_inv (c : md_ctx) (m : list Z) : Prop := {
  inv_state : state c = fst (absorb 64 T md_iv m);
  inv_buffer : take (length (snd (absorb 64 T md_iv m))) (buffer c) = snd (absorb 64 T md_iv m);
  inv_len : length (buffer c) = 64%nat;
  inv_count : count0 c + 4294967296 * count1 c = u64 (8 * zlen m);
  inv_c0 : 0 <= count0 c < 4294967296;
  inv_c1 : 0 <= count1 c < 4294967296
}.

Lemma md_blocks_spec fuel : forall st i input,
  0 <= i <= zlen input -> zlen input < 2 ^ 32 - 64 -> (Z.to_nat (zlen input - i) <= fuel)%nat ->
  exists j, md_blocks T fuel st i input = (fst (absorb 64 T st (drop (Z.to_nat i) input)), j) /\
    drop (Z.to_nat j) input = snd (absorb 64 T st (drop (Z.to_nat i) input)).
Proof.
  induction fuel as [|fuel IH]; intros st i input Hi Hl Hf.
  { exists i. rewrite absorb_short by (rewrite ?length_drop; unfold zlen in *; lia). done. }
  cbn [md_blocks]. rewrite (u32_small (i + 63)) by lia. destruct (_ <? _) eqn:E; zbool.
  - rewrite u32_small by lia.
    destruct (IH (T st (slice i 64 input)) (i + 64) input) as (j & -> & Hj); [lia|lia|lia|].
    exists j. rewrite (absorb_long 64 T ltac:(lia) st (drop (Z.to_nat i) input))
      by (rewrite length_drop; unfold zlen in *; lia).
    unfold slice in *. change (Z.to_nat 64) with 64%nat in *.
    rewrite drop_drop. replace (Z.to_nat i + 64)%nat with (Z.to_nat (i + 64)) by lia. done.
  - exists i. rewrite absorb_short by (rewrite ?length_drop; unfold zlen in *; lia). done.
Qed.

Lemma splice_take_prefix {A} (n : nat) (d l r : list A) :
  take n l = r -> length r = n -> (n + length d <= length l)%nat ->
  take (n + length d) (splice (Z.of_nat n) d l) = r ++ d /\ length (splice (Z.of_nat n) d l) = length l.
Proof.
  intros Ht Hr Hl. unfold splice. rewrite Nat2Z.id, Ht, app_assoc. split.
  - rewrite <- Hr at 1. rewrite <- length_app. apply take_app_length.
  - rewrite !length_app, length_drop. lia.
Qed.

Lemma md_update_inv c m d : md_inv c m -> md_chunk d -> md_inv (md_update T c d) (m ++ d).
Proof.
  intros [H1 H2 H3 H4 H5 H6] Hd. unfold md_chunk in Hd. pose proof (zlen_nonneg d). pose proof (zlen_nonneg m).
  unfold md_update. rewrite (count_index _ (count1 c) (zlen m)) by done.
  pose proof (count_update_spec (count0 c) (count1 c) (zlen d) (zlen m) H4 H5 H6 ltac:(lia)) as Hc.
  destruct (count_update _ _ _) as [c0 c1]. destruct Hc as (Hc & Hc0 & Hc1).
  assert (HB : (0 < 64)%nat) by lia.
  pose proof (absorb_rest 64 T HB md_iv m) as Hr. change (Z.of_nat 64) with 64 in Hr.
  set (r := snd (absorb 64 T md_iv m)) in *. rewrite <- Hr.
  pose proof (absorb_rest_lt 64 T HB md_iv m) as Hlt. fold r in Hlt.
  assert (Hcat : absorb 64 T md_iv (m ++ d) = absorb 64 T (state c) (r ++ d))
    by (rewrite H1; by apply absorb_cat).
  change (zlen r) with (Z.of_nat (length r)). destruct (_ >=? _) eqn:E; zbool.
  - set (p := Z.to_nat (64 - Z.of_nat (length r))).
    assert (Hp : (p <= length d)%nat) by (unfold zlen in E; lia).
    destruct (splice_take_prefix (length r) (take p d) (buffer c) r H2 eq_refl) as [Ht Hsl];
      [rewrite length_take; lia|].
    set (buf := splice _ _ _) in *. rewrite length_take in Ht.
    assert (Hbuf : buf = r ++ take p d) by (rewrite <- Ht; symmetry; apply take_ge; lia).
    destruct (md_blocks_spec (length d) (T (state c) buf) (64 - Z.of_nat (length r)) d) as (j & -> & Hj);
      [unfold zlen in *; lia|lia|unfold zlen; lia|].
    fold p in Hj |- *.
    assert (Habs : absorb 64 T md_iv (m ++ d) = absorb 64 T (T (state c) buf) (drop p d)).
    { rewrite Hcat, <- (take_drop p d) at 1. rewrite app_assoc, <- Hbuf. apply absorb_block; lia. }
    rewrite <- Habs in Hj |- *.
    pose proof (absorb_rest_lt 64 T HB md_iv (m ++ d)) as Hlt2. rewrite <- Hj in Hlt2.
    assert (Hs0 : take (0 + length (drop (Z.to_nat j) d)) (splice (Z.of_nat 0) (drop (Z.to_nat j) d) buf)
                  = [] ++ drop (Z.to_nat j) d /\
                  length (splice (Z.of_nat 0) (drop (Z.to_nat j) d) buf) = length buf)
      by (apply splice_take_prefix; [done|done|lia]).
    destruct Hs0 as [Hs1 Hs2]. change (Z.of_nat 0) with 0 in *. cbn [app Nat.add] in Hs1.
    constructor; cbn [state buffer count0 count1]; try done; [by rewrite <- Hj|lia|by rewrite zlen_app].
  - assert (Hsh : absorb 64 T md_iv (m ++ d) = (state c, r ++ d))
      by (rewrite Hcat; apply absorb_short; rewrite ?length_app; unfold zlen in *; lia).
    destruct (splice_take_prefix (length r) d (buffer c) r H2 eq_refl) as [Ht Hsl];
      [unfold zlen in *; lia|].
    constructor; rewrite ?Hsh; cbn [state buffer count0 count1 fst snd]; try done;
      [by rewrite length_app|lia|by rewrite zlen_app].
Qed.

Lemma md_updates_inv ds : forall c m,
  md_inv c m -> Forall md_chunk ds -> md_inv (fold_left (md_update T) ds c) (m ++ concat ds).
Proof.
  induction ds as [|d ds IH]; intros c m Hi Hd; cbn [fold_left concat]; [by rewrite app_nil_r|].
  apply Forall_cons in Hd as [Hd Hds]. rewrite app_assoc. apply IH; [by apply md_update_inv|done].
Qed.

Lemma md_init_inv g : length g = 64%nat -> md_inv (md_init g) [].
Proof. intros Hg. constructor; try done. Qed.

(** The padding of [final] is that of the RFC. *)
Lemma md_pad_final c m :
  md_inv c m ->
  let idx := Z.land (Z.shiftr (count0 c) 3) 63 in
  let padLen := if idx <? 56 then 56 - idx else 120 - idx in
  take (Z.to_nat padLen) PADDING ++ Encode [count0 c; count1 c] = md_pad (zlen m) /\
  0 <= padLen <= 64.
Proof.
  intros [_ _ _ H4 H5 H6]. pose proof (zlen_nonneg m). cbv zeta.
  rewrite (count_index _ (count1 c) (zlen m)) by done.
  set (idx := zlen m mod 64). assert (Hidx : 0 <= idx < 64) by (apply Z.mod_pos_bound; lia).
  set (padLen := if idx <? 56 then _ else _).
  assert (Hp : 1 <= padLen <= 64) by (unfold padLen; zcase; lia). split; [|lia].
  assert (Hk : (55 - zlen m) mod 64 = padLen - 1).
  { unfold padLen, idx in *. zcase; Z.div_mod_to_equations; lia. }
  unfold md_pad. rewrite Hk. unfold PADDING.
  replace (Z.to_nat padLen) with (S (Z.to_nat (padLen - 1))) by lia. cbn [take app].
  f_equal. f_equal.
  - assert (Hrep : forall (n k : nat), (n <= k)%nat -> take n (repeat 0 k) = repeat 0 n).
    { induction n as [|n IHn]; intros [|k] Hnk; cbn; try done; [lia|]. f_equal. apply IHn. lia. }
    apply Hrep. lia.
  - unfold Encode, le64. cbn [map concat]. rewrite app_nil_r, <- H4.
    f_equal; [f_equal; unfold u32|f_equal; unfold u32]; Z.div_mod_to_equations; lia.
Qed.

Lemma md_final_spec c m : md_inv c m -> fst (md_final T c) = md_spec m.
Proof.
  intros Hi. destruct (md_pad_final c m Hi) as [Hpad Hrange]. unfold md_final.
  set (idx := Z.land _ _) in *. set (padLen := if idx <? 56 then _ else _) in *.
  assert (Hc1 : md_chunk (take (Z.to_nat padLen) PADDING)).
  { unfold md_chunk, zlen. rewrite length_take. cbn [PADDING length repeat]. lia. }
  assert (Hc2 : md_chunk (Encode [count0 c; count1 c])) by by vm_compute.
  pose proof (md_update_inv _ _ _ (md_update_inv _ _ _ Hi Hc1) Hc2) as Hf.
  rewrite <- app_assoc, Hpad in Hf. destruct Hf as [Hs _ _ _ _ _].
  unfold md_spec, digest_of. rewrite <- Hs. unfold md_out. by destruct (state _) as [[[a b] d] e].
Qed.

Lemma md_digest g ds :
  length g = 64%nat -> Forall md_chunk ds ->
  fst (md_final T (fold_left (md_update T) ds (md_init g))) = md_spec (concat ds).
Proof.
  intros Hg Hd. apply md_final_spec. change (concat ds) with ([] ++ concat ds).
  apply md_updates_inv; [by apply md_init_inv|done].
Qed.

End Streaming.

(** Both digests fulfil the promise of [StreamDigest], whatever the buffer of a
    new context holds. *)
Definition md5_stream (g : list Z) (Hg : length g = 64%nat) : StreamDigest md_ctx := {|
  sd_init := Md5.apr_md5_init g;
  sd_update := Md5.apr_md5_update;
  sd_final := fun c => fst (Md5.apr_md5_final c);
  sd_chunk := md_chunk;
  sd_spec := md_spec Md5.MD5Transform;
  sd_correct := fun ds => md_digest Md5.MD5Transform g ds Hg
|}.

Definition md4_stream (g : list Z) (Hg : length g = 64%nat) : StreamDigest md_ctx := {|
  sd_init := Md4.apr_md4_init g;
  sd_update := Md4.apr_md4_update;
  sd_final := fun c => fst (Md4.apr_md4_final c);
  sd_chunk := md_chunk;
  sd_spec := md_spec Md4.MD4Transform;
  sd_correct := fun ds => md_digest Md4.MD4Transform g ds Hg
|}.

(** MD5 and MD4 by pieces.  However a message is cut into calls of
    [apr_md5_update] or [apr_md4_update], and whatever the uninitialised buffer
    holds, the final functions return the digests of RFC 1321 and RFC 1320: the
    transformation folded over the message, padded with one bit, zeros and its
    64-bit length. *)
Theorem md_rfc g chunks :
  length g = 64%nat -> Forall md_chunk chunks ->
  fst (Md5.apr_md5_final (fold_left Md5.apr_md5_update chunks (Md5.apr_md5_init g))) =
  md_spec Md5.MD5Transform (concat chunks) /\
  fst (Md4.apr_md4_final (fold_left Md4.apr_md4_update chunks (Md4.apr_md4_init g))) =
  md_spec Md4.MD4Transform (concat chunks).
Proof.
  intros Hg Hc. split.
  - exact (@sd_correct md_ctx (md5_stream g Hg) chunks Hc).
  - exact (@sd_correct md_ctx (md4_stream g Hg) chunks Hc).
Qed.

Lemma md_rfc_witness :
  fst (Md5.apr_md5_final (fold_left Md5.apr_md5_update [str "message "; []; str "digest"]
    (Md5.apr_md5_init (repeat 9 64)))) = md_spec Md5.MD5Transform (str "message digest").
Proof.
  apply (md_rfc (repeat 9 64) [str "message "; []; str "digest"]).
  - reflexivity.
  - repeat constructor; vm_compute; reflexivity.
Defined.
