(* ===== verification/AprSha1.v ===== *)
(** * AprSha1: SHA-1 in apr-util

    apr-util/crypto/apr_sha1.c on an ASCII machine of either byte order: [little]
    is the result of [isLittleEndian].  The words of [data] share their memory
    with its bytes, which is what is modelled.  The digest is that of FIPS 180 for
    every way of cutting the message, on both kinds of machine. *)

From S2P Require Import Prelude DigestStream AprBase64.

Module Sha1.

Definition f1 (x y z : Z) : Z := Z.lor (Z.land x y) (Z.land (not32 x) z).
Definition f2 (x y z : Z) : Z := Z.lxor (Z.lxor x y) z.
Definition f3 (x y z : Z) : Z := Z.lor (Z.lor (Z.land x y) (Z.land x z)) (Z.land y z).
Definition f4 (x y z : Z) : Z := Z.lxor (Z.lxor x y) z.

Definition CONST1 : Z := 0x5a827999.
Definition CONST2 : Z := 0x6ed9eba1.
Definition CONST3 : Z := 0x8f1bbcdc.
Definition CONST4 : Z := 0xca62c1d6.

Definition SHA_BLOCKSIZE : Z := 64.

Definition words5 : Type := Z * Z * Z * Z * Z.

Record apr_sha1_ctx_t := mkSha1 {
  digest : words5;
  count_lo : Z;
  count_hi : Z;
  data : list Z;      (** the 64 bytes of the 16 words *)
  local : Z
}.

(** [FUNC (n, i)] *)
Definition FUNC (f : Z -> Z -> Z -> Z) (K : Z) (W : list Z) (st : words5) (i : nat) : words5 :=
  let '(A, B, C, D, E) := st in
  let temp := u32 (rotl32 A 5 + f B C D + E + nth i W 0 + K) in
  (temp, A, rotl32 B 30, C, D).

(** [W[i] = ROT32 (W[i-3] ^ W[i-8] ^ W[i-14] ^ W[i-16], 1)] *)
Definition expand (W : list Z) (i : nat) : list Z :=
  W ++ [rotl32 (Z.lxor (Z.lxor (Z.lxor (nth (i - 3) W 0) (nth (i - 8) W 0)) (nth (i - 14) W 0))
                  (nth (i - 16) W 0)) 1].

Section Machine.
Context (little : bool).

(** A word of memory, and a word written to memory. *)
Definition load (b : list Z) : Z :=
  let b := if little then b else reverse b in
  Z.lor (Z.lor (Z.lor (znth 0 b 0) (Z.shiftl (znth 0 b 1) 8)) (Z.shiftl (znth 0 b 2) 16))
    (Z.shiftl (znth 0 b 3) 24).
Definition store (k : Z) : list Z := if little then word_le k else word_be k.

Definition word_at (mem : list Z) (i : nat) : Z := load (take 4 (drop (4 * i) mem)).

Definition sha_transform (dg : words5) (mem : list Z) : words5 :=
  let W := map (word_at mem) (seq 0 16) in
  let W := fold_left expand (seq 16 64) W in
  let st := fold_left (FUNC f1 CONST1 W) (seq 0 20) dg in
  let st := fold_left (FUNC f2 CONST2 W) (seq 20 20) st in
  let st := fold_left (FUNC f3 CONST3 W) (seq 40 20) st in
  let st := fold_left (FUNC f4 CONST4 W) (seq 60 20) st in
  let '(A, B, C, D, E) := st in
  let '(d0, d1, d2, d3, d4) := dg in
  (add32 d0 A, add32 d1 B, add32 d2 C, add32 d3 D, add32 d4 E).

(** The bytes of every word swapped on a little-endian machine. *)
Fixpoint byte_reverse (mem : list Z) : list Z :=
  match mem with
  | a :: b :: c :: d :: rest => d :: c :: b :: a :: byte_reverse rest
  | _ => mem
  end.
Definition maybe_byte_reverse (mem : list Z) : list Z := if little then byte_reverse mem else mem.

Definition apr_sha1_init (garbage : list Z) : apr_sha1_ctx_t :=
  mkSha1 (0x67452301, 0xefcdab89, 0x98badcfe, 0x10325476, 0xc3d2e1f0) 0 0 garbage 0.

(** [while (count >= SHA_BLOCKSIZE)] *)
Fixpoint sha1_blocks (fuel : nat) (dg : words5) (mem buffer : list Z) : words5 * list Z * list Z :=
  match fuel with
  | O => (dg, mem, buffer)
  | S fuel =>
      if zlen buffer >=? SHA_BLOCKSIZE then
        let mem := maybe_byte_reverse (splice 0 (take 64 buffer) mem) in
        sha1_blocks fuel (sha_transform dg mem) mem (drop 64 buffer)
      else (dg, mem, buffer)
  end.

Definition sha1_rest (c : apr_sha1_ctx_t) (dg : words5) (mem buffer : list Z) : apr_sha1_ctx_t :=
  let '(dg, mem, buffer) := sha1_blocks (length buffer) dg mem buffer in
  mkSha1 dg (count_lo c) (count_hi c) (splice 0 buffer mem) (zlen buffer).

Definition sha1_count (c : apr_sha1_ctx_t) (count : Z) : apr_sha1_ctx_t :=
  let n := u32 (Z.shiftl (u32 count) 3) in
  let hi := if u32 (count_lo c + n) <? count_lo c then u32 (count_hi c + 1) else count_hi c in
  mkSha1 (digest c) (u32 (count_lo c + n)) (u32 (hi + Z.shiftr (u32 count) 29)) (data c) (local c).

Definition apr_sha1_update_binary (sha_info : apr_sha1_ctx_t) (buffer : list Z) : apr_sha1_ctx_t :=
  let c := sha1_count sha_info (zlen buffer) in
  if negb (local c =? 0) then
    let i := SHA_BLOCKSIZE - local c in
    let i := if i >? zlen buffer then zlen buffer else i in
    let mem := splice (local c) (take (Z.to_nat i) buffer) (data c) in
    let buffer := drop (Z.to_nat i) buffer in
    let loc := local c + i in
    if loc =? SHA_BLOCKSIZE then
      let mem := maybe_byte_reverse mem in
      sha1_rest c (sha_transform (digest c) mem) mem buffer
    else mkSha1 (digest c) (count_lo c) (count_hi c) mem loc
  else sha1_rest c (digest c) (data c) buffer.

Definition apr_sha1_update (c : apr_sha1_ctx_t) (buf : list Z) : apr_sha1_ctx_t :=
  apr_sha1_update_binary c buf.

Definition apr_sha1_final (sha_info : apr_sha1_ctx_t) : list Z :=
  let lo_bit_count := count_lo sha_info in
  let hi_bit_count := count_hi sha_info in
  let count := Z.land (Z.shiftr lo_bit_count 3) 63 in
  let mem := splice count [128] (data sha_info) in
  let count := count + 1 in
  let '(dg, mem) :=
    if count >? SHA_BLOCKSIZE - 8 then
      let mem := splice count (repeat 0 (Z.to_nat (SHA_BLOCKSIZE - count))) mem in
      let mem := maybe_byte_reverse mem in
      (sha_transform (digest sha_info) mem, splice 0 (repeat 0 56) mem)
    else (digest sha_info, splice count (repeat 0 (Z.to_nat (SHA_BLOCKSIZE - 8 - count))) mem) in
  let mem := maybe_byte_reverse mem in
  let mem := splice 56 (store hi_bit_count) mem in
  let mem := splice 60 (store lo_bit_count) mem in
  let '(a, b, c, d, e) := sha_transform dg mem in
  concat (map word_be [a; b; c; d; e]).

End Machine.

Example sha1_abc : forall little : bool,
  apr_sha1_final little (apr_sha1_update little (apr_sha1_init (repeat 3 64)) (str "abc")) =
  [0xa9; 0x99; 0x3e; 0x36; 0x47; 0x06; 0x81; 0x6a; 0xba; 0x3e; 0x25; 0x71; 0x78; 0x50; 0xc2; 0x6c;
   0x9c; 0xd0; 0xd8; 0x9d].
Proof. intros [|]; vm_compute; reflexivity. Qed.


(** ** The byte order of the machine does not matter *)

(** The transformation of a block as its bytes are: a big-endian machine. *)
Definition compress : words5 -> list Z -> words5 := sha_transform false.

Lemma byte_reverse_length n : forall mem, (length mem <= n)%nat -> length (byte_reverse mem) = length mem.
Proof.
  induction n as [|n IH]; intros mem Hn; [by destruct mem; [|cbn in Hn; lia]|].
  destruct mem as [|a [|b [|c [|d rest]]]]; try done. cbn [byte_reverse length] in *.
  rewrite IH by lia. done.
Qed.

Lemma byte_reverse_word i : forall mem, (4 * i + 4 <= length mem)%nat ->
  take 4 (drop (4 * i) (byte_reverse mem)) = reverse (take 4 (drop (4 * i) mem)).
Proof.
  induction i as [|i IH]; intros mem Hl; destruct mem as [|a [|b [|c [|d rest]]]]; cbn [length] in Hl; try lia.
  - done.
  - replace (4 * S i)%nat with (S (S (S (S (4 * i))))) by lia. cbn [byte_reverse drop]. apply IH. lia.
Qed.

Lemma word_at_reverse mem i : (4 * i + 4 <= length mem)%nat ->
  word_at true (byte_reverse mem) i = word_at false mem i.
Proof. intros Hl. unfold word_at. by rewrite byte_reverse_word. Qed.

Lemma transform_reversed little dg mem :
  length mem = 64%nat -> sha_transform little dg (maybe_byte_reverse little mem) = compress dg mem.
Proof.
  intros Hl. destruct little; [|done]. unfold compress, sha_transform, maybe_byte_reverse.
  assert (Hw : map (word_at true (byte_reverse mem)) (seq 0 16) = map (word_at false mem) (seq 0 16)).
  { apply map_ext_in. intros i Hi. apply in_seq in Hi. apply word_at_reverse. lia. }
  by rewrite Hw.
Qed.

Lemma byte_reverse_app n : forall a b, length a = (4 * n)%nat ->
  byte_reverse (a ++ b) = byte_reverse a ++ byte_reverse b.
Proof.
  induction n as [|n IH]; intros l b Hl; [by destruct l|].
  destruct l as [|x0 [|x1 [|x2 [|x3 rest]]]]; cbn [length] in Hl; try lia.
  cbn [app byte_reverse]. rewrite IH by lia. done.
Qed.

Lemma maybe_reverse_length little mem : length (maybe_byte_reverse little mem) = length mem.
Proof. unfold maybe_byte_reverse. destruct little; [by apply (byte_reverse_length (length mem))|done]. Qed.

Lemma final_block little hi lo mem :
  length mem = 64%nat ->
  splice 60 (store little lo) (splice 56 (store little hi) (maybe_byte_reverse little mem)) =
  maybe_byte_reverse little (take 56 mem ++ word_be hi ++ word_be lo).
Proof.
  intros Hl. assert (Hs : forall k, length (store little k) = 4%nat) by (intros; by destruct little).
  rewrite <- (take_drop 56 mem) at 1. assert (Ha : length (take 56 mem) = 56%nat) by (rewrite length_take; lia).
  assert (Hm : maybe_byte_reverse little (take 56 mem ++ drop 56 mem) =
    maybe_byte_reverse little (take 56 mem) ++ maybe_byte_reverse little (drop 56 mem))
    by (unfold maybe_byte_reverse; destruct little; [by apply (byte_reverse_app 14)|done]).
  assert (Hm2 : maybe_byte_reverse little (take 56 mem ++ word_be hi ++ word_be lo) =
    maybe_byte_reverse little (take 56 mem) ++ store little hi ++ store little lo)
    by (unfold maybe_byte_reverse; destruct little; [by rewrite (byte_reverse_app 14)|done]).
  rewrite Hm, Hm2. set (h := maybe_byte_reverse little (take 56 mem)).
  set (t := maybe_byte_reverse little (drop 56 mem)).
  assert (Hh : length h = 56%nat) by (unfold h; by rewrite maybe_reverse_length).
  assert (Ht : length t = 8%nat) by (unfold t; rewrite maybe_reverse_length, length_drop; lia).
  unfold splice. rewrite !Hs. change (Z.to_nat 56) with 56%nat. change (Z.to_nat 60) with 60%nat.
  rewrite (take_app_length' h t 56) by done. rewrite drop_app_ge by lia. rewrite Hh.
  replace (56 + 4 - 56)%nat with 4%nat by lia.
  rewrite (app_assoc h (store little hi) (drop 4 t)).
  rewrite (take_app_length' (h ++ store little hi) _ 60) by (rewrite length_app, Hs; lia).
  rewrite drop_app_ge by (rewrite length_app, Hs; lia). rewrite length_app, Hs, Hh.
  replace (60 + 4 - (56 + 4))%nat with 4%nat by lia.
  rewrite drop_drop, (drop_ge t) by lia. by rewrite app_nil_r, <- app_assoc.
Qed.

(** ** Any chunking gives the digest of FIPS 180 *)

Definition sha1_iv : words5 := (0x67452301, 0xefcdab89, 0x98badcfe, 0x10325476, 0xc3d2e1f0).

Definition be64 (v : Z) : list Z := word_be (u32 (v / 4294967296)) ++ word_be (u32 v).
Definition sha1_pad (n : Z) : list Z := 128 :: repeat 0 (Z.to_nat ((55 - n) mod 64)) ++ be64 (u64 (8 * n)).
Definition sha1_out (st : words5) : list Z :=
  let '(a, b, c, d, e) := st in concat (map word_be [a; b; c; d; e]).
Definition sha1_spec (m : list Z) : list Z := digest_of 64 compress sha1_iv sha1_pad sha1_out m.

(** The length is an unsigned int. *)
Definition sha1_chunk (d : list Z) : Prop := zlen d < 2 ^ 32.

Record sha1_inv (c : apr_sha1_ctx_t) (m : list Z) : Prop := {
  s1_digest : digest c = fst (absorb 64 compress sha1_iv m);
  s1_local : local c = zlen (snd (absorb 64 compress sha1_iv m));
  s1_data : take (Z.to_nat (local c)) (data c) = snd (absorb 64 compress sha1_iv m);
  s1_len : length (data c) = 64%nat;
  s1_count : count_lo c + 4294967296 * count_hi c = u64 (8 * zlen m);
  s1_lo : 0 <= count_lo c < 4294967296;
  s1_hi : 0 <= count_hi c < 4294967296
}.

Lemma sha1_count_update c n :
  0 <= count_lo c < 4294967296 -> 
  let '(lo, hi) := count_update (count_lo c) (count_hi c) n in
  sha1_count c n = mkSha1 (digest c) lo hi (data c) (local c).
Proof.
  intros Hlo. unfold count_update, sha1_count. cbv zeta.
  set (k := u32 (Z.shiftl (u32 n) 3)). assert (Hk : 0 <= k < 4294967296) by apply u32_range.
  assert (Hc : (u32 (count_lo c + k) <? count_lo c) = (u32 (count_lo c + k) <? k)).
  { unfold u32. apply eq_true_iff_eq. rewrite !Z.ltb_lt. Z.div_mod_to_equations. lia. }
  by rewrite Hc.
Qed.

Lemma splice0_take {A} (d l : list A) :
  (length d <= length l)%nat -> take (length d) (splice 0 d l) = d /\ length (splice 0 d l) = length l.
Proof.
  intros Hl. unfold splice. change (Z.to_nat 0) with 0%nat. rewrite take_0. cbn [app Nat.add]. split.
  - apply take_app_length.
  - rewrite length_app, length_drop. lia.
Qed.

Lemma sha1_blocks_spec little fuel : forall dg mem buffer,
  length mem = 64%nat -> (length buffer <= fuel)%nat ->
  exists mem', length mem' = 64%nat /\ sha1_blocks little fuel dg mem buffer =
    (fst (absorb 64 compress dg buffer), mem', snd (absorb 64 compress dg buffer)).
Proof.
  induction fuel as [|fuel IH]; intros dg mem buffer Hm Hf.
  { exists mem. destruct buffer; [done|cbn in Hf; lia]. }
  cbn [sha1_blocks]. destruct (_ >=? _) eqn:E; zbool; unfold zlen, SHA_BLOCKSIZE in E.
  - set (b := splice 0 (take 64 buffer) mem).
    assert (Hlt : length (take 64 buffer) = 64%nat) by (rewrite length_take; lia).
    assert (Hb : b = take 64 buffer).
    { unfold b, splice. change (Z.to_nat 0) with 0%nat. rewrite take_0. cbn [app Nat.add]. rewrite Hlt.
      rewrite drop_ge by lia. apply app_nil_r. }
    rewrite transform_reversed by (by rewrite Hb). rewrite Hb.
    rewrite (absorb_long 64 compress ltac:(lia) dg buffer) by lia.
    apply IH; [by rewrite maybe_reverse_length|rewrite length_drop; lia].
  - exists mem. rewrite absorb_short by lia. done.
Qed.

Lemma sha1_rest_inv little c dg mem buffer m :
  length mem = 64%nat -> absorb 64 compress dg buffer = absorb 64 compress sha1_iv m ->
  count_lo c + 4294967296 * count_hi c = u64 (8 * zlen m) ->
  0 <= count_lo c < 4294967296 -> 0 <= count_hi c < 4294967296 ->
  sha1_inv (sha1_rest little c dg mem buffer) m.
Proof.
  intros Hm Ha H1 H2 H3. unfold sha1_rest.
  destruct (sha1_blocks_spec little (length buffer) dg mem buffer Hm ltac:(lia)) as (mem' & Hm' & ->).
  rewrite Ha. pose proof (absorb_rest_lt 64 compress ltac:(lia) sha1_iv m) as Hlt.
  destruct (splice0_take (snd (absorb 64 compress sha1_iv m)) mem' ltac:(lia)) as [Ht Hl].
  constructor; cbn [digest local data count_lo count_hi]; try done; [|lia].
  unfold zlen. by rewrite Nat2Z.id.
Qed.

(** Filling the partial block. *)
Lemma splice_fill {A} (n : Z) (d l r : list A) :
  take (Z.to_nat n) l = r -> n = zlen r -> n + zlen d <= zlen l ->
  take (Z.to_nat (n + zlen d)) (splice n d l) = r ++ d /\ length (splice n d l) = length l.
Proof.
  intros Ht Hn Hl. pose proof (zlen_nonneg d). subst n. unfold zlen in *. rewrite Nat2Z.id in Ht.
  unfold splice. rewrite Nat2Z.id, Ht, app_assoc. split.
  - apply take_app_length'. rewrite length_app. lia.
  - rewrite !length_app, length_drop. lia.
Qed.

Lemma sha1_update_inv little c m d :
  sha1_inv c m -> sha1_chunk d -> sha1_inv (apr_sha1_update_binary little c d) (m ++ d).
Proof.
  intros [H1 H2 H3 H4 H5 H6 H7] Hd. unfold sha1_chunk in Hd. pose proof (zlen_nonneg d).
  unfold apr_sha1_update_binary. pose proof (sha1_count_update c (zlen d) H6) as Hcu.
  pose proof (count_update_spec (count_lo c) (count_hi c) (zlen d) (zlen m) H5 H6 H7 ltac:(lia)) as Hc.
  destruct (count_update _ _ _) as [lo hi]. destruct Hc as (Hc & Hlo & Hhi). rewrite Hcu.
  rewrite <- zlen_app in Hc. cbn [digest local data count_lo count_hi].
  assert (HB : (0 < 64)%nat) by lia.
  set (r := snd (absorb 64 compress sha1_iv m)) in *.
  pose proof (absorb_rest_lt 64 compress HB sha1_iv m) as Hlt. fold r in Hlt.
  assert (Hcat : absorb 64 compress sha1_iv (m ++ d) = absorb 64 compress (digest c) (r ++ d))
    by (rewrite H1; by apply absorb_cat).
  assert (Hzr : local c < 64) by (rewrite H2; unfold zlen; lia).
  destruct (local c =? 0) eqn:E0; cbn [negb]; zbool.
  { assert (r = []) as Hr by (apply length_zero_iff_nil; unfold zlen in *; lia). rewrite Hr in Hcat.
    apply (sha1_rest_inv little (mkSha1 (digest c) lo hi (data c) (local c))); try done. }
  set (i := if _ >? _ then _ else _).
  assert (Hi : i = Z.min (64 - local c) (zlen d)) by (unfold i, SHA_BLOCKSIZE; zcase; lia).
  assert (Hzi : zlen (take (Z.to_nat i) d) = i) by (unfold zlen in *; rewrite length_take; lia).
  destruct (splice_fill (local c) (take (Z.to_nat i) d) (data c) r H3 H2) as [Hf Hfl];
    [rewrite Hzi; unfold zlen in *; lia|]. rewrite Hzi in Hf. set (mem := splice _ _ _) in *.
  unfold SHA_BLOCKSIZE. destruct (_ =? 64) eqn:E1; zbool.
  - assert (Hmem : mem = r ++ take (Z.to_nat i) d).
    { rewrite <- Hf, E1. change (Z.to_nat 64) with 64%nat. symmetry. apply take_ge. lia. }
    rewrite transform_reversed by lia.
    apply (sha1_rest_inv little (mkSha1 (digest c) lo hi (data c) (local c))); try done.
    { rewrite maybe_reverse_length. lia. }
    assert (Hrd : r ++ d = mem ++ drop (Z.to_nat i) d) by (rewrite Hmem, <- app_assoc; by rewrite take_drop).
    rewrite Hcat, Hrd. symmetry. apply absorb_block; lia.
  - assert (Hd' : take (Z.to_nat i) d = d) by (apply take_ge; unfold zlen in *; lia).
    rewrite Hd' in *.
    assert (Hsh : absorb 64 compress sha1_iv (m ++ d) = (digest c, r ++ d)).
    { rewrite Hcat. apply absorb_short; [lia|]. rewrite length_app. unfold zlen in *. lia. }
    constructor; rewrite ?Hsh; cbn [digest local data count_lo count_hi fst snd]; try done; [|lia].
    rewrite zlen_app. lia.
Qed.

Lemma sha1_updates_inv little ds : forall c m,
  sha1_inv c m -> Forall sha1_chunk ds ->
  sha1_inv (fold_left (apr_sha1_update little) ds c) (m ++ concat ds).
Proof.
  induction ds as [|d ds IH]; intros c m Hi Hd; cbn [fold_left concat]; [by rewrite app_nil_r|].
  apply Forall_cons in Hd as [Hd Hds]. rewrite app_assoc. apply IH; [by apply sha1_update_inv|done].
Qed.

Lemma splice_app {A} (a b l : list A) :
  (length a + length b <= length l)%nat -> take (length a) l = a ->
  splice (zlen a) b l = a ++ b ++ drop (length a + length b) l.
Proof. intros Hl Ht. unfold splice, zlen. by rewrite Nat2Z.id, Ht. Qed.

(** The one bit and [k] zeros behind the partial block. *)
Lemma pad_block (r mem : list Z) k :
  take (length r) mem = r -> (length r + 1 + k <= length mem)%nat ->
  splice (zlen r + 1) (repeat 0 k) (splice (zlen r) [128] mem) =
  (r ++ 128 :: repeat 0 k) ++ drop (length r + 1 + k) mem.
Proof.
  intros Ht Hl. rewrite (splice_app r [128] mem) by (done || cbn [length]; lia).
  change (length [128]) with 1%nat. rewrite app_assoc.
  replace (zlen r + 1) with (zlen (r ++ [128])) by (rewrite zlen_app; done).
  rewrite splice_app; [|rewrite repeat_length, !length_app, length_drop; cbn [length]; lia|apply take_app_length].
  rewrite repeat_length, length_app. cbn [length].
  rewrite drop_app_ge by (rewrite length_app; cbn [length]; lia). rewrite length_app, drop_drop. cbn [length].
  rewrite <- !app_assoc. cbn [app]. do 4 f_equal. lia.
Qed.

(** The number of zeros of the padding, from the length of the partial block. *)
Lemma pad_zeros n r :
  0 <= n -> r = n mod 64 -> (55 - n) mod 64 = if r + 1 >? 56 then 119 - r else 55 - r.
Proof. intros Hn ->. zcase; Z.div_mod_to_equations; lia. Qed.

Lemma sha1_out_eq st : (let '(a, b, c, d, e) := st in concat (map word_be [a; b; c; d; e])) = sha1_out st.
Proof. by destruct st as [[[[? ?] ?] ?] ?]. Qed.

(** One block: the partial block, the padding and the length. *)
Lemma finish_short little dg (r mem : list Z) hi lo :
  take (length r) mem = r -> length mem = 64%nat -> (length r <= 55)%nat ->
  sha_transform little dg
    (splice 60 (store little lo) (splice 56 (store little hi) (maybe_byte_reverse little
      (splice (zlen r + 1) (repeat 0 (55 - length r)) (splice (zlen r) [128] mem))))) =
  fst (absorb 64 compress dg (r ++ 128 :: repeat 0 (55 - length r) ++ word_be hi ++ word_be lo)).
Proof.
  intros Ht Hl Hr. rewrite pad_block by (done || lia). set (b := r ++ 128 :: repeat 0 (55 - length r)).
  assert (Hb : length b = 56%nat) by (unfold b; rewrite length_app; cbn [length]; rewrite repeat_length; lia).
  rewrite final_block by (rewrite length_app, length_drop; lia).
  rewrite (take_app_length' b) by done.
  rewrite transform_reversed by (by rewrite !length_app, Hb).
  assert (Hc : r ++ 128 :: repeat 0 (55 - length r) ++ word_be hi ++ word_be lo =
    (b ++ word_be hi ++ word_be lo) ++ []) by (unfold b; rewrite app_nil_r, <- app_assoc; done).
  rewrite Hc, absorb_block by (lia || by rewrite !length_app, Hb). by rewrite absorb_short by (cbn; lia).
Qed.

(** Two blocks. *)
Lemma finish_long little dg (r mem : list Z) hi lo :
  take (length r) mem = r -> length mem = 64%nat -> (55 < length r < 64)%nat ->
  let m1 := maybe_byte_reverse little
    (splice (zlen r + 1) (repeat 0 (63 - length r)) (splice (zlen r) [128] mem)) in
  sha_transform little (sha_transform little dg m1)
    (splice 60 (store little lo) (splice 56 (store little hi)
      (maybe_byte_reverse little (splice 0 (repeat 0 56) m1)))) =
  fst (absorb 64 compress dg (r ++ 128 :: repeat 0 (119 - length r) ++ word_be hi ++ word_be lo)).
Proof.
  intros Ht Hl Hr m1. unfold m1. rewrite pad_block by (done || lia). rewrite (drop_ge mem), app_nil_r by lia.
  set (b := r ++ 128 :: repeat 0 (63 - length r)).
  assert (Hb : length b = 64%nat) by (unfold b; rewrite length_app; cbn [length]; rewrite repeat_length; lia).
  rewrite (transform_reversed little dg b) by done.
  destruct (splice0_take (repeat 0 56) (maybe_byte_reverse little b)) as [Hz Hzl];
    [rewrite maybe_reverse_length, Hb; cbn; lia|]. rewrite maybe_reverse_length, Hb in Hzl.
  rewrite final_block by done. rewrite repeat_length in Hz. rewrite Hz.
  rewrite transform_reversed by done.
  assert (Hc : r ++ 128 :: repeat 0 (119 - length r) ++ word_be hi ++ word_be lo =
    b ++ (repeat 0 56 ++ word_be hi ++ word_be lo) ++ []).
  { unfold b. replace (119 - length r)%nat with (63 - length r + 56)%nat by lia.
    rewrite repeat_app, app_nil_r, <- !app_assoc. done. }
  rewrite Hc, !absorb_block by (done || lia). by rewrite absorb_short by (cbn; lia).
Qed.

Lemma sha1_final_spec little c m : sha1_inv c m -> apr_sha1_final little c = sha1_spec m.
Proof.
  intros [H1 H2 H3 H4 H5 H6 H7]. pose proof (zlen_nonneg m). unfold apr_sha1_final.
  rewrite (count_index _ (count_hi c) (zlen m)) by done.
  assert (HB : (0 < 64)%nat) by lia.
  pose proof (absorb_rest 64 compress HB sha1_iv m) as Hr. change (Z.of_nat 64) with 64 in Hr.
  pose proof (absorb_rest_lt 64 compress HB sha1_iv m) as Hlt.
  set (r := snd (absorb 64 compress sha1_iv m)) in *. rewrite H2 in H3.
  assert (Hzr : Z.to_nat (zlen r) = length r) by (unfold zlen; lia). rewrite Hzr in H3.
  unfold sha1_spec, digest_of. rewrite (absorb_cat 64 compress HB), <- H1. fold r.
  assert (Hbe : be64 (u64 (8 * zlen m)) = word_be (count_hi c) ++ word_be (count_lo c)).
  { rewrite <- H5. unfold be64. f_equal; f_equal; unfold u32; Z.div_mod_to_equations; lia. }
  unfold sha1_pad, SHA_BLOCKSIZE.
  rewrite Hbe, <- Hr, (pad_zeros (zlen m) (zlen r)) by done. change (64 - 8) with 56.
  destruct (_ >? 56) eqn:E; zbool; rewrite sha1_out_eq; f_equal.
  - replace (Z.to_nat (119 - zlen r)) with (119 - length r)%nat by (unfold zlen; lia).
    replace (Z.to_nat (64 - (zlen r + 1))) with (63 - length r)%nat by (unfold zlen; lia).
    apply finish_long; try done. unfold zlen in *. lia.
  - replace (Z.to_nat (55 - zlen r)) with (55 - length r)%nat by (unfold zlen; lia).
    replace (Z.to_nat (56 - (zlen r + 1))) with (55 - length r)%nat by (unfold zlen; lia).
    apply finish_short; try done. unfold zlen in *. lia.
Qed.

Lemma sha1_digest little g ds :
  length g = 64%nat -> Forall sha1_chunk ds ->
  apr_sha1_final little (fold_left (apr_sha1_update little) ds (apr_sha1_init g)) = sha1_spec (concat ds).
Proof.
  intros Hg Hd. apply sha1_final_spec. change (concat ds) with ([] ++ concat ds).
  apply sha1_updates_inv; [|done]. by constructor.
Qed.

Definition sha1_stream (little : bool) (g : list Z) (Hg : length g = 64%nat) :
    StreamDigest apr_sha1_ctx_t := {|
  sd_init := apr_sha1_init g;
  sd_update := apr_sha1_update little;
  sd_final := apr_sha1_final little;
  sd_chunk := sha1_chunk;
  sd_spec := sha1_spec;
  sd_correct := fun ds => sha1_digest little g ds Hg
|}.

(** SHA-1 by pieces.  On a machine of either byte order and however a message
    is cut into calls of [apr_sha1_update], [apr_sha1_final] returns the digest of
    FIPS 180: the compression function folded over the padded message. *)
Theorem sha1_fips180 little g chunks :
  length g = 64%nat -> Forall sha1_chunk chunks ->
  apr_sha1_final little (fold_left (apr_sha1_update little) chunks (apr_sha1_init g)) =
  sha1_spec (concat chunks).
Proof. intros Hg. exact (@sd_correct apr_sha1_ctx_t (sha1_stream little g Hg) chunks). Qed.

Lemma sha1_fips180_witness :
  apr_sha1_final true (fold_left (apr_sha1_update true) [str "ab"; str "c"] (apr_sha1_init (repeat 9 64))) =
  sha1_spec (str "abc").
Proof.
  apply (sha1_fips180 true (repeat 9 64) [str "ab"; str "c"]).
  - reflexivity.
  - repeat constructor; vm_compute; reflexivity.
Defined.

End Sha1.
