(* ===== verification/AprSha2.v ===== *)
(** * AprSha2: SHA-256, SHA-384 and SHA-512 in apr

    apr/random/unix/sha2.c on a little-endian machine, with the loop form of the
    transformations ([SHA2_UNROLL_TRANSFORM] is not defined).  [W256] and [W512]
    live in the context's buffer, so that a transformation overwrites the buffer;
    the model returns both the state and the new buffer.  The digests are those
    of FIPS 180-2 for every way of cutting the message. *)

From Stdlib Require Import Btauto.
From S2P Require Import Prelude DigestStream.

Module Sha2.

Definition K256 : list Z := concat
  [[0x428a2f98; 0x71374491; 0xb5c0fbcf; 0xe9b5dba5];
   [0x3956c25b; 0x59f111f1; 0x923f82a4; 0xab1c5ed5];
   [0xd807aa98; 0x12835b01; 0x243185be; 0x550c7dc3];
   [0x72be5d74; 0x80deb1fe; 0x9bdc06a7; 0xc19bf174];
   [0xe49b69c1; 0xefbe4786; 0x0fc19dc6; 0x240ca1cc];
   [0x2de92c6f; 0x4a7484aa; 0x5cb0a9dc; 0x76f988da];
   [0x983e5152; 0xa831c66d; 0xb00327c8; 0xbf597fc7];
   [0xc6e00bf3; 0xd5a79147; 0x06ca6351; 0x14292967];
   [0x27b70a85; 0x2e1b2138; 0x4d2c6dfc; 0x53380d13];
   [0x650a7354; 0x766a0abb; 0x81c2c92e; 0x92722c85];
   [0xa2bfe8a1; 0xa81a664b; 0xc24b8b70; 0xc76c51a3];
   [0xd192e819; 0xd6990624; 0xf40e3585; 0x106aa070];
   [0x19a4c116; 0x1e376c08; 0x2748774c; 0x34b0bcb5];
   [0x391c0cb3; 0x4ed8aa4a; 0x5b9cca4f; 0x682e6ff3];
   [0x748f82ee; 0x78a5636f; 0x84c87814; 0x8cc70208];
   [0x90befffa; 0xa4506ceb; 0xbef9a3f7; 0xc67178f2]].

Definition sha256_initial_hash_value : list Z := concat
  [[0x6a09e667; 0xbb67ae85; 0x3c6ef372; 0xa54ff53a];
   [0x510e527f; 0x9b05688c; 0x1f83d9ab; 0x5be0cd19]].

Definition K512 : list Z :=
  [0x428a2f98d728ae22; 0x7137449123ef65cd; 0xb5c0fbcfec4d3b2f; 0xe9b5dba58189dbbc;
   0x3956c25bf348b538; 0x59f111f1b605d019; 0x923f82a4af194f9b; 0xab1c5ed5da6d8118;
   0xd807aa98a3030242; 0x12835b0145706fbe; 0x243185be4ee4b28c; 0x550c7dc3d5ffb4e2;
   0x72be5d74f27b896f; 0x80deb1fe3b1696b1; 0x9bdc06a725c71235; 0xc19bf174cf692694;
   0xe49b69c19ef14ad2; 0xefbe4786384f25e3; 0x0fc19dc68b8cd5b5; 0x240ca1cc77ac9c65;
   0x2de92c6f592b0275; 0x4a7484aa6ea6e483; 0x5cb0a9dcbd41fbd4; 0x76f988da831153b5;
   0x983e5152ee66dfab; 0xa831c66d2db43210; 0xb00327c898fb213f; 0xbf597fc7beef0ee4;
   0xc6e00bf33da88fc2; 0xd5a79147930aa725; 0x06ca6351e003826f; 0x142929670a0e6e70;
   0x27b70a8546d22ffc; 0x2e1b21385c26c926; 0x4d2c6dfc5ac42aed; 0x53380d139d95b3df;
   0x650a73548baf63de; 0x766a0abb3c77b2a8; 0x81c2c92e47edaee6; 0x92722c851482353b;
   0xa2bfe8a14cf10364; 0xa81a664bbc423001; 0xc24b8b70d0f89791; 0xc76c51a30654be30;
   0xd192e819d6ef5218; 0xd69906245565a910; 0xf40e35855771202a; 0x106aa07032bbd1b8;
   0x19a4c116b8d2d0c8; 0x1e376c085141ab53; 0x2748774cdf8eeb99; 0x34b0bcb5e19b48a8;
   0x391c0cb3c5c95a63; 0x4ed8aa4ae3418acb; 0x5b9cca4f7763e373; 0x682e6ff3d6b2b8a3;
   0x748f82ee5defb2fc; 0x78a5636f43172f60; 0x84c87814a1f0ab72; 0x8cc702081a6439ec;
   0x90befffa23631e28; 0xa4506cebde82bde9; 0xbef9a3f7b2c67915; 0xc67178f2e372532b;
   0xca273eceea26619c; 0xd186b8c721c0c207; 0xeada7dd6cde0eb1e; 0xf57d4f7fee6ed178;
   0x06f067aa72176fba; 0x0a637dc5a2c898a6; 0x113f9804bef90dae; 0x1b710b35131c471b;
   0x28db77f523047d84; 0x32caab7b40c72493; 0x3c9ebe0a15c9bebc; 0x431d67c49c100d4c;
   0x4cc5d4becb3e42b6; 0x597f299cfc657e2a; 0x5fcb6fab3ad6faec; 0x6c44198c4a475817].

Definition sha384_initial_hash_value : list Z :=
  [0xcbbb9d5dc1059ed8; 0x629a292a367cd507; 0x9159015a3070dd17; 0x152fecd8f70e5939;
   0x67332667ffc00b31; 0x8eb44a8768581511; 0xdb0c2e0d64f98fa7; 0x47b5481dbefa4fa4].

Definition sha512_initial_hash_value : list Z :=
  [0x6a09e667f3bcc908; 0xbb67ae8584caa73b; 0x3c6ef372fe94f82b; 0xa54ff53a5f1d36f1;
   0x510e527fade682d1; 0x9b05688c2b3e6c1f; 0x1f83d9abfb41bd6b; 0x5be0cd19137e2179].

(** ** Words of [w] bits *)

Definition wrap (w x : Z) : Z := x mod 2 ^ w.
Definition R (b x : Z) : Z := Z.shiftr x b.
Definition S32 (b x : Z) : Z := Z.lor (Z.shiftr x b) (wrap 32 (Z.shiftl x (32 - b))).
Definition S64 (b x : Z) : Z := Z.lor (Z.shiftr x b) (wrap 64 (Z.shiftl x (64 - b))).

(** [~x & z] keeps the width of [z]. *)
Definition Ch (x y z : Z) : Z := Z.lxor (Z.land x y) (Z.ldiff z x).
Definition Maj (x y z : Z) : Z := Z.lxor (Z.lxor (Z.land x y) (Z.land x z)) (Z.land y z).

Definition Sigma0_256 (x : Z) : Z := Z.lxor (Z.lxor (S32 2 x) (S32 13 x)) (S32 22 x).
Definition Sigma1_256 (x : Z) : Z := Z.lxor (Z.lxor (S32 6 x) (S32 11 x)) (S32 25 x).
Definition sigma0_256 (x : Z) : Z := Z.lxor (Z.lxor (S32 7 x) (S32 18 x)) (R 3 x).
Definition sigma1_256 (x : Z) : Z := Z.lxor (Z.lxor (S32 17 x) (S32 19 x)) (R 10 x).

Definition Sigma0_512 (x : Z) : Z := Z.lxor (Z.lxor (S64 28 x) (S64 34 x)) (S64 39 x).
Definition Sigma1_512 (x : Z) : Z := Z.lxor (Z.lxor (S64 14 x) (S64 18 x)) (S64 41 x).
Definition sigma0_512 (x : Z) : Z := Z.lxor (Z.lxor (S64 1 x) (S64 8 x)) (R 7 x).
Definition sigma1_512 (x : Z) : Z := Z.lxor (Z.lxor (S64 19 x) (S64 61 x)) (R 6 x).

Definition REVERSE32 (w : Z) : Z :=
  let tmp := Z.lor (Z.shiftr w 16) (wrap 32 (Z.shiftl w 16)) in
  Z.lor (Z.shiftr (Z.land tmp 0xff00ff00) 8) (Z.shiftl (Z.land tmp 0x00ff00ff) 8).

Definition REVERSE64 (w : Z) : Z :=
  let tmp := Z.lor (Z.shiftr w 32) (wrap 64 (Z.shiftl w 32)) in
  let tmp := Z.lor (Z.shiftr (Z.land tmp 0xff00ff00ff00ff00) 8) (Z.shiftl (Z.land tmp 0x00ff00ff00ff00ff) 8) in
  Z.lor (Z.shiftr (Z.land tmp 0xffff0000ffff0000) 16) (Z.shiftl (Z.land tmp 0x0000ffff0000ffff) 16).

(** A word of little-endian memory, and a word written to it. *)
Fixpoint load_le (b : list Z) : Z :=
  match b with [] => 0 | x :: b => Z.lor x (Z.shiftl (load_le b) 8) end.
Fixpoint store_le (n : nat) (v : Z) : list Z :=
  match n with O => [] | S n => Z.land v 255 :: store_le n (Z.shiftr v 8) end.
Fixpoint store_be (n : nat) (v : Z) : list Z :=
  match n with O => [] | S n => Z.land (Z.shiftr v (8 * Z.of_nat n)) 255 :: store_be n v end.

(** ** The transformation *)

Section Transform.
Context (w : Z) (nbytes : nat) (REVERSE : Z -> Z) (K : list Z).
Context (Sigma0 Sigma1 sigma0 sigma1 : Z -> Z).

(** The registers [a..h] and the sixteen words of [W]. *)
Definition regs : Type := list Z * list Z.

Definition compress_round (reg : list Z) (j : nat) (Wj : Z) : list Z :=
  match reg with
  | [a; b; c; d; e; f; g; h] =>
      let T1 := wrap w (h + Sigma1 e + Ch e f g + nth j K 0 + Wj) in
      let T2 := wrap w (Sigma0 a + Maj a b c) in
      [wrap w (T1 + T2); a; b; c; wrap w (d + T1); e; f; g]
  | _ => reg
  end.

(** Rounds 0 to 15: the data goes into [W]. *)
Definition round_load (data : list Z) (st : regs) (j : nat) : regs :=
  let '(reg, W) := st in
  let Wj := REVERSE (load_le (take nbytes (drop (nbytes * j) data))) in
  (compress_round reg j Wj, <[j := Wj]> W).

(** The later rounds: [W] is a ring of sixteen words. *)
Definition round_expand (st : regs) (j : nat) : regs :=
  let '(reg, W) := st in
  let at_ k := nth (Nat.land k 15) W 0 in
  let s0 := sigma0 (at_ (j + 1)%nat) in
  let s1 := sigma1 (at_ (j + 14)%nat) in
  let Wj := wrap w (at_ j + wrap w (s1 + at_ (j + 9)%nat + s0)) in
  (compress_round reg j Wj, <[Nat.land j 15 := Wj]> W).

(** The state and the buffer after it. *)
Definition Transform (rounds : nat) (state data : list Z) : list Z * list Z :=
  let W := repeat 0 16 in
  let st := fold_left (round_load data) (seq 0 16) (state, W) in
  let '(reg, W) := fold_left round_expand (seq 16 (rounds - 16)) st in
  (zip_with (fun x y => wrap w (x + y)) state reg, concat (map (store_le nbytes) W)).

End Transform.

Definition apr__SHA256_Transform : list Z -> list Z -> list Z * list Z :=
  Transform 32 4 REVERSE32 K256 Sigma0_256 Sigma1_256 sigma0_256 sigma1_256 64.
Definition apr__SHA512_Transform : list Z -> list Z -> list Z * list Z :=
  Transform 64 8 REVERSE64 K512 Sigma0_512 Sigma1_512 sigma0_512 sigma1_512 80.

(** ** Contexts *)

(** [bitcount] is one 64-bit word for SHA-256 and two for SHA-512. *)
Record ctx (cnt : Type) := mkCtx {
  state : list Z;
  bitcount : cnt;
  buffer : list Z
}.
Arguments mkCtx {cnt} _ _ _.
Arguments state {cnt} _.
Arguments bitcount {cnt} _.
Arguments buffer {cnt} _.

Definition add64 (c n : Z) : Z := wrap 64 (c + n).
Definition ADDINC128 (c : Z * Z) (n : Z) : Z * Z :=
  let w0 := wrap 64 (fst c + n) in
  (w0, if w0 <? n then wrap 64 (snd c + 1) else snd c).

(** *** The common text of [Update] and [Final] *)

Section Update.
Context {cnt : Type} (BLOCK_LENGTH SHORT_BLOCK_LENGTH : nat).
Context (Trans : list Z -> list Z -> list Z * list Z) (add : cnt -> Z -> cnt) (low : cnt -> Z).

Definition usedspace (c : ctx cnt) : nat :=
  Z.to_nat (Z.shiftr (low (bitcount c)) 3 mod Z.of_nat BLOCK_LENGTH).

(** [while (len >= BLOCK_LENGTH)] *)
Fixpoint update_blocks (fuel : nat) (c : ctx cnt) (data : list Z) : ctx cnt * list Z :=
  match fuel with
  | O => (c, data)
  | S fuel =>
      if (BLOCK_LENGTH <=? length data)%nat then
        let '(st, buf) := Trans (state c) (take BLOCK_LENGTH data) in
        update_blocks fuel (mkCtx st (add (bitcount c) (Z.of_nat BLOCK_LENGTH * 8)) buf)
          (drop BLOCK_LENGTH data)
      else (c, data)
  end.

(** The blocks and the left-overs. *)
Definition update_rest (c : ctx cnt) (data : list Z) : ctx cnt :=
  let '(c, data) := update_blocks (length data) c data in
  if (0 <? length data)%nat then
    mkCtx (state c) (add (bitcount c) (zlen data * 8)) (splice 0 data (buffer c))
  else c.

Definition Update (c : ctx cnt) (data : list Z) : ctx cnt :=
  if (length data =? 0)%nat then c
  else
    let used := usedspace c in
    if (0 <? used)%nat then
      let freespace := (BLOCK_LENGTH - used)%nat in
      if (freespace <=? length data)%nat then
        let buf := splice (Z.of_nat used) (take freespace data) (buffer c) in
        let '(st, buf) := Trans (state c) buf in
        update_rest (mkCtx st (add (bitcount c) (Z.of_nat freespace * 8)) buf) (drop freespace data)
      else mkCtx (state c) (add (bitcount c) (zlen data * 8)) (splice (Z.of_nat used) data (buffer c))
    else update_rest c data.

(** The padding and the last transformation; [count] is the bit count as it is
    written to memory, [zeroed] the number of bytes cleared for the last block. *)
Definition Last (zeroed : nat) (count : cnt -> list Z) (c : ctx cnt) : list Z :=
  let used := usedspace c in
  let '(st, buf) :=
    if (0 <? used)%nat then
      let buf := splice (Z.of_nat used) [128] (buffer c) in
      let used := S used in
      if (used <=? SHORT_BLOCK_LENGTH)%nat then
        (state c, splice (Z.of_nat used) (repeat 0 (SHORT_BLOCK_LENGTH - used)) buf)
      else
        let buf := if (used <? BLOCK_LENGTH)%nat
                   then splice (Z.of_nat used) (repeat 0 (BLOCK_LENGTH - used)) buf else buf in
        let '(st, buf) := Trans (state c) buf in
        (st, splice 0 (repeat 0 zeroed) buf)
    else
      (state c, splice 0 [128] (splice 0 (repeat 0 SHORT_BLOCK_LENGTH) (buffer c))) in
  fst (Trans st (splice (Z.of_nat SHORT_BLOCK_LENGTH) (count (bitcount c)) buf)).

End Update.

(** ** SHA-256 *)

Definition apr__SHA256_Init : ctx Z := mkCtx sha256_initial_hash_value 0 (repeat 0 64).
Definition apr__SHA256_Update : ctx Z -> list Z -> ctx Z :=
  Update 64 apr__SHA256_Transform add64 (fun c => c).
Definition apr__SHA256_Final (c : ctx Z) : list Z :=
  let st := Last 64 56 apr__SHA256_Transform (fun c => c) 56
              (fun c => store_le 8 (REVERSE64 c)) c in
  concat (map (fun x => store_le 4 (REVERSE32 x)) st).

(** ** SHA-512 and SHA-384 *)

Definition apr__SHA512_Init : ctx (Z * Z) := mkCtx sha512_initial_hash_value (0, 0) (repeat 0 128).
Definition apr__SHA512_Update : ctx (Z * Z) -> list Z -> ctx (Z * Z) :=
  Update 128 apr__SHA512_Transform ADDINC128 fst.
Definition apr__SHA512_Last (c : ctx (Z * Z)) : list Z :=
  Last 128 112 apr__SHA512_Transform fst (128 - 2)
    (fun c => store_le 8 (REVERSE64 (snd c)) ++ store_le 8 (REVERSE64 (fst c))) c.
Definition apr__SHA512_Final (c : ctx (Z * Z)) : list Z :=
  concat (map (fun x => store_le 8 (REVERSE64 x)) (apr__SHA512_Last c)).

Definition apr__SHA384_Init : ctx (Z * Z) := mkCtx sha384_initial_hash_value (0, 0) (repeat 0 128).
Definition apr__SHA384_Update : ctx (Z * Z) -> list Z -> ctx (Z * Z) := apr__SHA512_Update.
Definition apr__SHA384_Final (c : ctx (Z * Z)) : list Z :=
  concat (map (fun x => store_le 8 (REVERSE64 x)) (take 6 (apr__SHA512_Last c))).

(** The hexadecimal form of a digest. *)
Definition sha2_hex_digits : list Z := str "0123456789abcdef".
Definition hex (d : list Z) : list Z :=
  concat (map (fun x => [znth 0 sha2_hex_digits (Z.shiftr (Z.land x 240) 4);
                         znth 0 sha2_hex_digits (Z.land x 15)]) d).
Definition apr__SHA256_End (c : ctx Z) : list Z := hex (apr__SHA256_Final c) ++ [0].
Definition apr__SHA512_End (c : ctx (Z * Z)) : list Z := hex (apr__SHA512_Final c) ++ [0].
Definition apr__SHA384_End (c : ctx (Z * Z)) : list Z := hex (apr__SHA384_Final c) ++ [0].
Definition apr__SHA256_Data (data : list Z) : list Z :=
  apr__SHA256_End (apr__SHA256_Update apr__SHA256_Init data).
Definition apr__SHA512_Data (data : list Z) : list Z :=
  apr__SHA512_End (apr__SHA512_Update apr__SHA512_Init data).
Definition apr__SHA384_Data (data : list Z) : list Z :=
  apr__SHA384_End (apr__SHA384_Update apr__SHA384_Init data).

Example sha256_abc :
  apr__SHA256_Data (str "abc") =
  str "ba7816bf8f01cfea414140de5dae2223b00361a396177a9cb410ff61f20015ad" ++ [0].
Proof. vm_compute. reflexivity. Qed.

Example sha512_abc :
  take 32 (apr__SHA512_Data (str "abc")) = str "ddaf35a193617abacc417349ae204131".
Proof. vm_compute. reflexivity. Qed.

Example sha384_abc :
  take 32 (apr__SHA384_Data (str "abc")) = str "cb00753f45a35e8bb5a03d699ac65007".
Proof. vm_compute. reflexivity. Qed.


(** ** Any chunking gives the digest of FIPS 180-2 *)

(** Memory operations on a buffer. *)
Lemma splice_prefix {A} (n : nat) (d l : list A) :
  (n + length d <= length l)%nat ->
  splice (Z.of_nat n) d l = take n l ++ d ++ drop (n + length d) l /\
  length (splice (Z.of_nat n) d l) = length l.
Proof.
  intros Hl. unfold splice. rewrite Nat2Z.id. split; [done|].
  rewrite !length_app, length_take, length_drop. lia.
Qed.

Lemma splice_start {A} (d l : list A) :
  (length d <= length l)%nat ->
  splice 0 d l = d ++ drop (length d) l /\ length (splice 0 d l) = length l.
Proof. intros Hl. exact (splice_prefix 0 d l Hl). Qed.

(** What the common text needs of the transformation and of the counter. *)
Section Streaming.
Context {cnt : Type} (BL SL LEN : nat).
Context (Trans : list Z -> list Z -> list Z * list Z) (add : cnt -> Z -> cnt) (low : cnt -> Z).
Context (count : cnt -> list Z) (count_ok : cnt -> Z -> Prop).
Hypothesis HBL : (BL = SL + LEN)%nat.
Hypothesis HSL : (0 < SL)%nat.
Hypothesis Trans_length : forall s b, length (snd (Trans s b)) = BL.
Hypothesis count_add : forall c t n,
  count_ok c t -> 0 <= t -> 0 <= n <= Z.of_nat BL -> count_ok (add c (n * 8)) (t + n).
Hypothesis count_low : forall c t,
  count_ok c t -> 0 <= t -> Z.shiftr (low c) 3 mod Z.of_nat BL = t mod Z.of_nat BL.
Hypothesis count_bytes : forall c t,
  count_ok c t -> 0 <= t -> count c = store_be LEN (8 * t mod 2 ^ (8 * Z.of_nat LEN)).

Definition trans (s b : list Z) : list Z := fst (Trans s b).

Record ctx_inv (iv : list Z) (c : ctx cnt) (m : list Z) : Prop := {
  ci_state : state c = fst (absorb BL trans iv m);
  ci_buffer : take (length (snd (absorb BL trans iv m))) (buffer c) = snd (absorb BL trans iv m);
  ci_len : length (buffer c) = BL;
  ci_count : count_ok (bitcount c) (zlen m)
}.

Lemma BL_pos : (0 < BL)%nat.
Proof using HBL HSL. lia. Qed.

Lemma usedspace_spec iv c m :
  ctx_inv iv c m -> usedspace BL low c = length (snd (absorb BL trans iv m)).
Proof using HBL HSL count_low.
  intros [_ _ _ H4]. unfold usedspace. rewrite (count_low _ (zlen m)) by (done || apply zlen_nonneg).
  rewrite <- (absorb_rest BL trans BL_pos iv m). unfold zlen. apply Nat2Z.id.
Qed.

Lemma update_blocks_spec fuel : forall c data t,
  length (buffer c) = BL -> count_ok (bitcount c) t -> 0 <= t -> (length data <= fuel)%nat ->
  exists c', update_blocks BL Trans add fuel c data = (c', snd (absorb BL trans (state c) data)) /\
    state c' = fst (absorb BL trans (state c) data) /\ length (buffer c') = BL /\
    count_ok (bitcount c') (t + zlen data - zlen (snd (absorb BL trans (state c) data))).
Proof using HBL HSL Trans_length count_add.
  induction fuel as [|fuel IH]; intros c data t Hb Hc Ht Hf.
  { destruct data; [|cbn in Hf; lia]. exists c. rewrite absorb_short by (cbn; lia).
    repeat split; try done. cbn [snd]. by replace (t + zlen (@nil Z) - zlen (@nil Z)) with t by lia. }
  cbn [update_blocks]. destruct (Nat.leb_spec BL (length data)) as [Hl|Hl].
  - rewrite (absorb_long BL trans BL_pos) by done. pose proof (Trans_length (state c) (take BL data)) as HT.
    assert (HE : trans (state c) (take BL data) = fst (Trans (state c) (take BL data))) by done.
    destruct (Trans (state c) (take BL data)) as [st buf]. rewrite HE. cbn [fst snd] in *.
    destruct (IH (mkCtx st (add (bitcount c) (Z.of_nat BL * 8)) buf) (drop BL data) (t + Z.of_nat BL))
      as (c' & -> & H1 & H2 & H3); [done|apply count_add; [done|done|lia]|lia|rewrite length_drop; pose proof BL_pos; lia|].
    exists c'. cbn [state bitcount buffer] in *. repeat split; try done.
    assert (Hz : zlen (drop BL data) = zlen data - Z.of_nat BL) by (unfold zlen; rewrite length_drop; lia).
    rewrite Hz in H3. set (k := zlen (snd _)) in *.
    by replace (t + zlen data - k) with (t + Z.of_nat BL + (zlen data - Z.of_nat BL) - k) by lia.
  - rewrite absorb_short by (done || apply BL_pos). exists c. repeat split; try done. cbn [snd].
    by replace (t + zlen data - zlen data) with t by lia.
Qed.

Lemma update_rest_inv iv c data m t :
  length (buffer c) = BL -> count_ok (bitcount c) t -> 0 <= t -> t + zlen data = zlen m ->
  absorb BL trans (state c) data = absorb BL trans iv m ->
  ctx_inv iv (update_rest BL Trans add c data) m.
Proof using HBL HSL Trans_length count_add.
  intros Hb Hc Ht Hm Ha. unfold update_rest.
  destruct (update_blocks_spec (length data) c data t Hb Hc Ht ltac:(lia)) as (c' & -> & H1 & H2 & H3).
  rewrite Ha in *. set (r := snd (absorb BL trans iv m)) in *. rewrite Hm in H3.
  pose proof (absorb_rest_lt BL trans BL_pos iv m) as Hlt. fold r in Hlt. pose proof (zlen_nonneg m).
  assert (Hrm : zlen r <= zlen m) by (unfold r; rewrite (absorb_rest BL trans BL_pos iv m);
    apply Z.mod_le; [lia|pose proof BL_pos; lia]).
  destruct (Nat.ltb_spec 0 (length r)) as [Hr|Hr].
  - destruct (splice_start r (buffer c') ltac:(lia)) as [Hs Hsl].
    constructor; cbn [state buffer bitcount]; try done.
    + fold r. rewrite Hs. apply take_app_length.
    + lia.
    + replace (zlen m) with (zlen m - zlen r + zlen r) by lia. apply count_add; [done|lia|unfold zlen in *; lia].
  - assert (Hr0 : r = []) by (apply length_zero_iff_nil; lia). fold r in Hr0.
    constructor; try done; [fold r; rewrite Hr0; by rewrite take_0|].
    rewrite Hr0 in H3. change (zlen []) with 0 in H3. by rewrite Z.sub_0_r in H3.
Qed.

Lemma Update_inv iv c m d : ctx_inv iv c m -> ctx_inv iv (Update BL Trans add low c d) (m ++ d).
Proof using HBL HSL Trans_length count_add count_low.
  intros Hi. unfold Update. destruct (Nat.eqb_spec (length d) 0) as [Hd|Hd].
  { apply length_zero_iff_nil in Hd. subst d. by rewrite app_nil_r. }
  rewrite (usedspace_spec iv c m Hi). destruct Hi as [H1 H2 H3 H4].
  set (r := snd (absorb BL trans iv m)) in *. pose proof (zlen_nonneg m) as Hm0.
  pose proof (absorb_rest_lt BL trans BL_pos iv m) as Hlt. fold r in Hlt.
  assert (Hcat : absorb BL trans iv (m ++ d) = absorb BL trans (state c) (r ++ d))
    by (rewrite H1; apply absorb_cat, BL_pos).
  destruct (Nat.ltb_spec 0 (length r)) as [Hr|Hr].
  2: { assert (Hr0 : r = []) by (apply length_zero_iff_nil; lia). rewrite Hr0 in Hcat.
       apply (update_rest_inv iv c d (m ++ d) (zlen m)); try done. by rewrite zlen_app. }
  set (fs := (BL - length r)%nat). destruct (Nat.leb_spec fs (length d)) as [Hf|Hf].
  - destruct (splice_prefix (length r) (take fs d) (buffer c)) as [Hs Hsl]; [rewrite length_take; lia|].
    assert (Hbuf : splice (Z.of_nat (length r)) (take fs d) (buffer c) = r ++ take fs d).
    { rewrite Hs, H2. rewrite drop_ge by (rewrite length_take; lia). by rewrite app_nil_r. }
    rewrite Hbuf. pose proof (Trans_length (state c) (r ++ take fs d)) as HT.
    destruct (Trans (state c) (r ++ take fs d)) as [st buf] eqn:E. cbn [snd] in HT.
    apply (update_rest_inv iv _ _ _ (zlen m + Z.of_nat fs)); cbn [state buffer bitcount]; try done.
    + apply count_add; [done|done|lia].
    + lia.
    + rewrite zlen_app. unfold zlen. rewrite length_drop. lia.
    + assert (Hrd : r ++ d = (r ++ take fs d) ++ drop fs d) by (rewrite <- app_assoc; by rewrite take_drop).
      rewrite Hcat, Hrd, absorb_block by (apply BL_pos || (rewrite length_app, length_take; lia)).
      unfold trans at 3. by rewrite E.
  - assert (Hsh : absorb BL trans iv (m ++ d) = (state c, r ++ d)).
    { rewrite Hcat. apply absorb_short; [apply BL_pos|]. rewrite length_app. lia. }
    destruct (splice_prefix (length r) d (buffer c)) as [Hs Hsl]; [lia|].
    constructor; rewrite ?Hsh; cbn [state buffer bitcount fst snd]; try done.
    + rewrite Hs, H2, app_assoc. apply take_app_length.
    + lia.
    + rewrite zlen_app. apply count_add; [done|done|unfold zlen; lia].
Qed.

(** A one bit, zeros, and the length in bits. *)
Definition sha2_pad (n : Z) : list Z :=
  128 :: repeat 0 (Z.to_nat ((Z.of_nat SL - 1 - n) mod Z.of_nat BL)) ++
  store_be LEN (8 * n mod 2 ^ (8 * Z.of_nat LEN)).

Lemma store_be_length n v : length (store_be n v) = n.
Proof. induction n as [|n IH]; [done|]. cbn [store_be length]. by rewrite IH. Qed.

(** Writing the length closes a block. *)
Lemma close_block (buf cb : list Z) :
  length buf = BL -> length cb = LEN -> splice (Z.of_nat SL) cb buf = take SL buf ++ cb.
Proof using HBL HSL.
  intros Hb Hc. destruct (splice_prefix SL cb buf ltac:(lia)) as [-> _].
  rewrite (drop_ge buf), app_nil_r by lia. done.
Qed.

Lemma pad_zeros2 n r :
  0 <= n -> r = n mod Z.of_nat BL ->
  (Z.of_nat SL - 1 - n) mod Z.of_nat BL =
  if r + 1 <=? Z.of_nat SL then Z.of_nat SL - 1 - r else Z.of_nat SL - 1 - r + Z.of_nat BL.
Proof using HBL HSL.
  intros Hn ->. pose proof BL_pos as HB. set (B := Z.of_nat BL) in *. set (k := Z.of_nat SL) in *.
  assert (Hk : 0 < k <= B) by lia. pose proof (Z.div_mod n B ltac:(lia)) as Hd.
  pose proof (Z.mod_pos_bound n B ltac:(lia)) as Hm. symmetry. zcase.
  - apply (Z.mod_unique_pos _ _ (- (n / B))); lia.
  - apply (Z.mod_unique_pos _ _ (- (n / B) - 1)); lia.
Qed.

Lemma take_repeat0 n k : (n <= k)%nat -> take n (repeat 0 k) = repeat 0 n.
Proof.
  revert k. induction n as [|n IH]; intros [|k] Hk; try done; [lia|]. cbn [repeat take].
  f_equal. apply IH. lia.
Qed.

(** One last block behind the partial block [r]. *)
Lemma last_one s (r buf cb : list Z) :
  take (length r) buf = r -> length buf = BL -> length cb = LEN -> (length r < SL)%nat ->
  trans s (splice (Z.of_nat SL) cb (splice (Z.of_nat (S (length r))) (repeat 0 (SL - S (length r)))
    (splice (Z.of_nat (length r)) [128] buf))) =
  fst (absorb BL trans s (r ++ 128 :: repeat 0 (SL - S (length r)) ++ cb)).
Proof using HBL HSL.
  intros Ht Hb Hc Hr. destruct (splice_prefix (length r) [128] buf) as [E1 L1]; [cbn [length]; lia|].
  destruct (splice_prefix (S (length r)) (repeat 0 (SL - S (length r))) (splice (Z.of_nat (length r)) [128] buf))
    as [E2 L2]; [rewrite repeat_length; lia|].
  rewrite close_block by lia. rewrite E2. rewrite E1, Ht.
  assert (Ht1 : take (S (length r)) (r ++ [128] ++ drop (length r + length [128]) buf) = r ++ [128]).
  { rewrite app_assoc. apply take_app_length'. rewrite length_app. cbn [length]. lia. }
  rewrite Ht1.
  rewrite (app_assoc (r ++ [128])). rewrite (take_app_length' _ _ SL)
    by (rewrite !length_app, repeat_length; cbn [length]; lia).
  assert (Hcat : r ++ 128 :: repeat 0 (SL - S (length r)) ++ cb =
    (((r ++ [128]) ++ repeat 0 (SL - S (length r))) ++ cb) ++ [])
    by (rewrite app_nil_r, <- !app_assoc; done).
  rewrite Hcat, absorb_block; [|apply BL_pos|rewrite !length_app, repeat_length; cbn [length]; lia].
  by rewrite absorb_short by apply BL_pos.
Qed.

(** Two last blocks; the first is the partial block with the one bit. *)
Lemma last_two s (r b1 buf cb : list Z) zeroed :
  length buf = BL -> length cb = LEN -> (SL <= zeroed <= BL)%nat -> length b1 = BL ->
  b1 = r ++ 128 :: repeat 0 (BL - S (length r)) ->
  trans (trans s b1) (splice (Z.of_nat SL) cb (splice 0 (repeat 0 zeroed) buf)) =
  fst (absorb BL trans s (r ++ 128 :: repeat 0 (BL - S (length r) + SL) ++ cb)).
Proof using HBL HSL.
  intros Hb Hc Hz Hl1 Eb1. destruct (splice_start (repeat 0 zeroed) buf) as [E L]; [rewrite repeat_length; lia|].
  rewrite close_block by lia. rewrite E, take_app_le by (rewrite repeat_length; lia).
  rewrite take_repeat0 by lia.
  assert (Hcat : r ++ 128 :: repeat 0 (BL - S (length r) + SL) ++ cb = b1 ++ (repeat 0 SL ++ cb) ++ []).
  { rewrite Eb1, repeat_app, app_nil_r, <- !app_assoc. done. }
  rewrite Hcat, !absorb_block by (apply BL_pos || done || (rewrite length_app, repeat_length; lia)).
  by rewrite absorb_short by apply BL_pos.
Qed.

(** The first of two last blocks. *)
Lemma first_of_two (r buf : list Z) :
  take (length r) buf = r -> length buf = BL -> (length r < BL)%nat ->
  let buf1 := splice (Z.of_nat (length r)) [128] buf in
  (if (S (length r) <? BL)%nat
   then splice (Z.of_nat (S (length r))) (repeat 0 (BL - S (length r))) buf1 else buf1) =
  r ++ 128 :: repeat 0 (BL - S (length r)).
Proof using HBL HSL.
  intros Ht Hb Hr. cbv zeta. destruct (splice_prefix (length r) [128] buf) as [E1 L1]; [cbn [length]; lia|].
  rewrite Ht in E1. destruct (Nat.ltb_spec (S (length r)) BL).
  - destruct (splice_prefix (S (length r)) (repeat 0 (BL - S (length r))) (splice (Z.of_nat (length r)) [128] buf))
      as [E2 L2]; [rewrite repeat_length; lia|].
    rewrite E2. rewrite (drop_ge (splice _ _ _)) by (rewrite repeat_length; lia). rewrite app_nil_r, E1, app_assoc.
    rewrite (take_app_length' (r ++ [128])) by (rewrite length_app; cbn [length]; lia).
    rewrite <- app_assoc. done.
  - rewrite E1, (drop_ge buf) by (cbn [length]; lia). by replace (BL - S (length r))%nat with 0%nat by lia.
Qed.

Lemma Last_spec iv zeroed c m :
  ctx_inv iv c m -> (SL <= zeroed <= BL)%nat ->
  Last BL SL Trans low zeroed count c = fst (absorb BL trans iv (m ++ sha2_pad (zlen m))).
Proof using HBL HSL Trans_length count_low count_bytes.
  intros Hi Hz. unfold Last. rewrite (usedspace_spec iv c m Hi). destruct Hi as [H1 H2 H3 H4].
  pose proof (zlen_nonneg m) as Hm. rewrite (absorb_cat BL trans BL_pos), <- H1. unfold sha2_pad.
  rewrite (count_bytes _ _ H4 Hm). set (cb := store_be LEN _).
  assert (Hcb : length cb = LEN) by apply store_be_length.
  rewrite (pad_zeros2 (zlen m) (zlen (snd (absorb BL trans iv m)))) by (done || by apply absorb_rest, BL_pos).
  pose proof (absorb_rest_lt BL trans BL_pos iv m) as Hlt. set (r := snd (absorb BL trans iv m)) in *.
  fold trans. destruct (Nat.ltb_spec 0 (length r)) as [Hr|Hr].
  - destruct (Nat.leb_spec (S (length r)) SL) as [Hs|Hs],
      (Z.leb_spec (zlen r + 1) (Z.of_nat SL)) as [Hz2|Hz2]; try (unfold zlen in Hz2; lia).
    + replace (Z.to_nat (Z.of_nat SL - 1 - zlen r)) with (SL - S (length r))%nat by (unfold zlen; lia).
      by apply last_one.
    + replace (Z.to_nat (Z.of_nat SL - 1 - zlen r + Z.of_nat BL)) with (BL - S (length r) + SL)%nat
        by (unfold zlen; lia).
      rewrite (first_of_two r (buffer c)) by done.
      set (b1 := r ++ 128 :: repeat 0 (BL - S (length r))). pose proof (Trans_length (state c) b1) as HT.
      assert (HE : trans (state c) b1 = fst (Trans (state c) b1)) by done.
      destruct (Trans (state c) b1) as [st buf]. cbn [fst snd] in *. rewrite <- HE.
      apply (last_two (state c) r b1); try done.
      unfold b1. rewrite length_app. cbn [length]. rewrite repeat_length. lia.
  - assert (Hr0 : r = []) by (apply length_zero_iff_nil; lia). clearbody r. subst r.
    change (zlen []) with 0. destruct (Z.leb_spec (0 + 1) (Z.of_nat SL)); [|lia].
    replace (Z.to_nat (Z.of_nat SL - 1 - 0)) with (SL - 1)%nat by lia.
    destruct (splice_start (repeat 0 SL) (buffer c)) as [E1 L1]; [rewrite repeat_length; lia|].
    destruct (splice_start [128] (splice 0 (repeat 0 SL) (buffer c))) as [E2 L2]; [cbn [length]; lia|].
    change (fst (Trans (state c) ?x)) with (trans (state c) x).
    rewrite close_block by lia. rewrite E2, E1.
    assert (Ht : take SL ([128] ++ drop (length [128]) (repeat 0 SL ++ drop (length (repeat 0 SL)) (buffer c)))
      = 128 :: repeat 0 (SL - 1)).
    { clear -HSL. set (x := drop _ (buffer c)). clearbody x. destruct SL as [|sl]; [lia|].
      simpl. rewrite Nat.sub_0_r, drop_0. f_equal. apply take_app_length'. by rewrite repeat_length. }
    rewrite Ht. assert (Hc : [] ++ 128 :: repeat 0 (SL - 1) ++ cb = ((128 :: repeat 0 (SL - 1)) ++ cb) ++ [])
      by (by rewrite app_nil_r).
    rewrite Hc, absorb_block;
      [by rewrite absorb_short by apply BL_pos|apply BL_pos|rewrite length_app; cbn [length]; rewrite repeat_length; lia].
Qed.

Lemma updates_inv iv ds : forall c m,
  ctx_inv iv c m -> ctx_inv iv (fold_left (Update BL Trans add low) ds c) (m ++ concat ds).
Proof using HBL HSL Trans_length count_add count_low.
  induction ds as [|d ds IH]; intros c m Hi; cbn [fold_left concat]; [by rewrite app_nil_r|].
  rewrite app_assoc. by apply IH, Update_inv.
Qed.

End Streaming.

(** ** Byte order *)

Lemma testbit_high x w n : 0 <= w -> 0 <= x < 2 ^ w -> w <= n -> Z.testbit x n = false.
Proof.
  intros Hw Hx Hn. rewrite <- (Z.mod_small x (2 ^ w)) by done. by apply Z.mod_pow2_bits_high.
Qed.

(** Swapping the halves of a word. *)
Lemma swap_halves w s x p :
  0 <= s -> w = 2 * s -> 0 <= x < 2 ^ w -> 0 <= p < w ->
  Z.testbit (Z.lor (Z.shiftr x s) (wrap w (Z.shiftl x s))) p =
  if p <? s then Z.testbit x (p + s) else Z.testbit x (p - s).
Proof.
  intros Hs -> Hx Hp. unfold wrap.
  rewrite Z.lor_spec, Z.mod_pow2_bits_low, Z.shiftr_spec, Z.shiftl_spec by lia.
  destruct (p <? s) eqn:E; zbool.
  - rewrite (Z.testbit_neg_r x (p - s)) by lia. btauto.
  - rewrite (testbit_high x (2 * s) (p + s)) by lia. btauto.
Qed.

(** Swapping neighbours under two masks. *)
Lemma swap_masked t m1 m2 s p :
  0 <= s -> 0 <= p ->
  Z.testbit (Z.lor (Z.shiftr (Z.land t m1) s) (Z.shiftl (Z.land t m2) s)) p =
  (Z.testbit t (p + s) && Z.testbit m1 (p + s)) || (Z.testbit t (p - s) && Z.testbit m2 (p - s)).
Proof. intros. by rewrite Z.lor_spec, Z.shiftr_spec, Z.shiftl_spec, !Z.land_spec by lia. Qed.

Ltac eval_bits :=
  repeat match goal with
  | |- context [Z.testbit (Zpos ?m) ?n] =>
      let b := eval vm_compute in (Z.testbit (Zpos m) n) in change (Z.testbit (Zpos m) n) with b
  end; rewrite ?andb_true_r, ?andb_false_r, ?orb_false_l, ?orb_false_r.

Ltac each_bit i :=
  let H := fresh "Hbit" in
  assert (H : i = 0 \/ i = 1 \/ i = 2 \/ i = 3 \/ i = 4 \/ i = 5 \/ i = 6 \/ i = 7) by lia;
  destruct H as [->|[->|[->|[->|[->|[->|[->| ->]]]]]]].

Lemma same_byte x y j k :
  0 <= j -> 0 <= k -> (forall i, 0 <= i < 8 -> Z.testbit x (i + j) = Z.testbit y (i + k)) ->
  Z.land (Z.shiftr x j) 255 = Z.land (Z.shiftr y k) 255.
Proof.
  intros Hj Hk H. change 255 with (Z.ones 8). apply Z.bits_inj'. intros i Hi.
  rewrite !Z.land_spec. destruct (Z.lt_ge_cases i 8).
  - rewrite !Z.shiftr_spec by lia. by rewrite H.
  - rewrite Z.ones_spec_high by lia. btauto.
Qed.

Lemma REVERSE32_byte v j :
  0 <= v < 2 ^ 32 -> j = 0 \/ j = 8 \/ j = 16 \/ j = 24 ->
  Z.land (Z.shiftr (REVERSE32 v) j) 255 = Z.land (Z.shiftr v (24 - j)) 255.
Proof.
  intros Hv Hj. apply same_byte; [lia|lia|]. intros i Hi. unfold REVERSE32. cbv zeta.
  destruct Hj as [->|[->|[->| ->]]]; each_bit i; rewrite swap_masked by lia; eval_bits;
    rewrite (swap_halves 32) by (lia || done); reflexivity.
Qed.

Lemma REVERSE64_byte v j :
  0 <= v < 2 ^ 64 -> j = 0 \/ j = 8 \/ j = 16 \/ j = 24 \/ j = 32 \/ j = 40 \/ j = 48 \/ j = 56 ->
  Z.land (Z.shiftr (REVERSE64 v) j) 255 = Z.land (Z.shiftr v (56 - j)) 255.
Proof.
  intros Hv Hj. apply same_byte; [lia|lia|]. intros i Hi. unfold REVERSE64. cbv zeta.
  destruct Hj as [->|[->|[->|[->|[->|[->|[->| ->]]]]]]]; each_bit i; rewrite swap_masked by lia; eval_bits;
    rewrite swap_masked by lia; eval_bits; rewrite (swap_halves 64) by (lia || done); reflexivity.
Qed.

Lemma store_REVERSE32 v : 0 <= v < 2 ^ 32 -> store_le 4 (REVERSE32 v) = store_be 4 v.
Proof.
  intros Hv. cbn [store_le store_be]. rewrite !Z.shiftr_shiftr by lia.
  rewrite <- (Z.shiftr_0_r (REVERSE32 v)) at 1.
  rewrite (REVERSE32_byte v 0), (REVERSE32_byte v 8), (REVERSE32_byte v (8 + 8)),
    (REVERSE32_byte v (8 + 8 + 8)) by (done || lia). done.
Qed.

Lemma store_REVERSE64 v : 0 <= v < 2 ^ 64 -> store_le 8 (REVERSE64 v) = store_be 8 v.
Proof.
  intros Hv. cbn [store_le store_be]. rewrite !Z.shiftr_shiftr by lia.
  rewrite <- (Z.shiftr_0_r (REVERSE64 v)) at 1.
  rewrite (REVERSE64_byte v 0), (REVERSE64_byte v 8), (REVERSE64_byte v (8 + 8)),
    (REVERSE64_byte v (8 + 8 + 8)), (REVERSE64_byte v (8 + 8 + 8 + 8)),
    (REVERSE64_byte v (8 + 8 + 8 + 8 + 8)), (REVERSE64_byte v (8 + 8 + 8 + 8 + 8 + 8)),
    (REVERSE64_byte v (8 + 8 + 8 + 8 + 8 + 8 + 8)) by (done || lia). done.
Qed.

(** A number above [2^(8n)] does not change the low [n] bytes. *)
Lemma store_be_app n : forall hi lo, 0 <= lo < 2 ^ 64 -> 0 <= hi ->
  store_be (n + 8) (lo + 2 ^ 64 * hi) = store_be n hi ++ store_be 8 lo.
Proof.
  induction n as [|n IH]; intros hi lo Hlo Hhi; cbn [Nat.add app].
  - assert (Hb : forall j, 0 <= j <= 56 -> Z.land (Z.shiftr (lo + 2 ^ 64 * hi) j) 255 = Z.land (Z.shiftr lo j) 255).
    { intros j Hj. apply same_byte; [lia|lia|]. intros i Hi.
      rewrite <- (Z.mod_pow2_bits_low (lo + _) 64) by lia. rewrite Z.mul_comm, Z.mod_add, Z.mod_small by lia. done. }
    cbn [store_be]. rewrite !Hb by lia. done.
  - cbn [store_be app]. rewrite IH by done. f_equal.
    rewrite !Z.shiftr_div_pow2 by lia.
    replace (8 * Z.of_nat (n + 8)) with (64 + 8 * Z.of_nat n) by lia.
    rewrite Z.pow_add_r, <- Z.div_div by lia. rewrite (Z.mul_comm (2 ^ 64)), Z.div_add by lia.
    rewrite (Z.div_small lo) by done. done.
Qed.

(** ** The two transformations *)

Lemma fold_insert_length {X} (g : regs -> X -> regs) (l : list X) : forall st,
  (forall st x, length (snd (g st x)) = length (snd st)) ->
  length (snd (fold_left g l st)) = length (snd st).
Proof. induction l as [|x l IH]; intros st Hg; cbn [fold_left]; [done|]. by rewrite IH, Hg. Qed.

Lemma store_le_length n : forall v, length (store_le n v) = n.
Proof. induction n as [|n IH]; intros v; [done|]. cbn [store_le length]. by rewrite IH. Qed.

Lemma Transform_length w n REV K S0 S1 s0 s1 rounds st data :
  length (snd (Transform w n REV K S0 S1 s0 s1 rounds st data)) = (16 * n)%nat.
Proof.
  unfold Transform. set (st1 := fold_left (round_load _ _ _ _ _ _ _) _ _).
  pose proof (fold_insert_length (round_expand w K S0 S1 s0 s1) (seq 16 (rounds - 16)) st1) as H2.
  pose proof (fold_insert_length (round_load w n REV K S0 S1 data) (seq 0 16) (st, repeat 0 16)) as H1.
  fold st1 in H1. destruct (fold_left (round_expand _ _ _ _ _ _) _ _) as [reg W]. cbn [snd] in *.
  assert (Hc : forall l, length (concat (map (store_le n) l)) = (length l * n)%nat).
  { induction l as [|x l IH]; [done|]. cbn [map concat length]. rewrite length_app, store_le_length, IH. lia. }
  rewrite Hc. specialize (H2 ltac:(intros [? ?] ?; unfold round_expand; cbn [snd]; apply length_insert)).
  rewrite H2, H1 by (intros [? ?] ?; unfold round_load; cbn [snd]; apply length_insert). done.
Qed.

(** ** The compression function of FIPS 180-2

    The words of a block are big-endian and the message schedule is an array of
    all the words of the rounds; the code keeps the last sixteen in a ring. *)

Section Compression.
Context (w : Z) (n : nat) (REV : Z -> Z) (K : list Z) (S0 S1 s0 s1 : Z -> Z).

Definition load_be (b : list Z) : Z := load_le (reverse b).
Definition block_word (data : list Z) (j : nat) : Z := load_be (take n (drop (n * j) data)).

Definition schedule_step (W : list Z) (t : nat) : list Z :=
  W ++ [wrap w (s1 (nth (t - 2) W 0) + nth (t - 7) W 0 + s0 (nth (t - 15) W 0) + nth (t - 16) W 0)].
Definition schedule (rounds : nat) (data : list Z) : list Z :=
  fold_left schedule_step (seq 16 (rounds - 16)) (map (block_word data) (seq 0 16)).

Definition fips_compress (rounds : nat) (st data : list Z) : list Z :=
  let W := schedule rounds data in
  zip_with (fun x y => wrap w (x + y)) st
    (fold_left (fun reg t => compress_round w K S0 S1 reg t (nth t W 0)) (seq 0 rounds) st).

(** The ring holds the last sixteen words of the schedule. *)
Definition ring_of (ring W : list Z) : Prop :=
  length ring = 16%nat /\ (16 <= length W)%nat /\
  forall k, (length W - 16 <= k < length W)%nat -> nth (k mod 16) ring 0 = nth k W 0.

Lemma land15 k : Nat.land k 15 = (k mod 16)%nat.
Proof. exact (Nat.land_ones k 4). Qed.

Lemma ring_at ring W j k :
  ring_of ring W -> length W = j -> (k < 16)%nat ->
  nth (Nat.land (j + k) 15) ring 0 = nth (j + k - 16) W 0.
Proof.
  intros (_ & H16 & H) Hj Hk. rewrite land15, <- (H (j + k - 16)%nat) by lia. f_equal.
  rewrite <- (Nat.Div0.mod_add (j + k - 16) 1 16). f_equal. lia.
Qed.

Lemma mod16_same a b : (a mod 16 = b mod 16 -> a <= b < a + 16 -> a = b)%nat.
Proof.
  intros H Hr. pose proof (Nat.div_mod_eq a 16). pose proof (Nat.div_mod_eq b 16).
  assert (a / 16 = b / 16)%nat by lia. lia.
Qed.

Lemma nth_insert_eq (i : nat) (x : Z) : forall l, (i < length l)%nat -> nth i (<[i := x]> l) 0 = x.
Proof. intros l Hl. by rewrite nth_lookup, list_lookup_insert_eq. Qed.

Lemma nth_insert_ne (i j : nat) (x : Z) l : j <> i -> nth i (<[j := x]> l) 0 = nth i l 0.
Proof. intros Hne. by rewrite !nth_lookup, list_lookup_insert_ne. Qed.

Lemma ring_push ring W x :
  ring_of ring W -> ring_of (<[Nat.land (length W) 15 := x]> ring) (W ++ [x]).
Proof.
  intros (H1 & H2 & H3). unfold ring_of. rewrite length_insert, length_app, land15. cbn [length].
  split; [done|]. split; [lia|]. intros k Hk.
  assert (Hm : forall a, (a mod 16 < length ring)%nat) by (intros a; rewrite H1; by apply Nat.mod_upper_bound).
  destruct (decide (k = length W)) as [->|Hne].
  - rewrite app_nth2, Nat.sub_diag by lia. cbn [nth].
    apply nth_insert_eq, Hm.
  - rewrite app_nth1 by lia. rewrite nth_insert_ne; [apply H3; lia|].
    intros E. apply Hne. destruct (Nat.le_ge_cases k (length W)); [|lia].
    apply mod16_same; [done|lia].
Qed.

Lemma fold_left_ext_in {A B} (f g : A -> B -> A) l : forall a,
  (forall a x, In x l -> f a x = g a x) -> fold_left f l a = fold_left g l a.
Proof.
  induction l as [|x l IH]; intros a H; cbn [fold_left]; [done|].
  rewrite H by (by left). apply IH. intros. apply H. by right.
Qed.

Local Abbreviation rounds_with W := (fun reg t => compress_round w K S0 S1 reg t (nth t W 0)).

Lemma load_phase data st W k :
  (forall j, (j < 16)%nat -> REV (load_le (take n (drop (n * j) data))) = nth j W 0) ->
  (k <= 16)%nat ->
  fold_left (round_load w n REV K S0 S1 data) (seq 0 k) (st, repeat 0 16) =
  (fold_left (rounds_with W) (seq 0 k) st, map (fun j => nth j W 0) (seq 0 k) ++ repeat 0 (16 - k)).
Proof.
  intros HW. induction k as [|k IH]; intros Hk; [done|].
  rewrite seq_S, !fold_left_app, IH, map_app by lia. cbn [Nat.add fold_left map round_load].
  rewrite HW by lia. f_equal.
  rewrite insert_app_r_alt by (rewrite length_map, length_seq; lia).
  rewrite length_map, length_seq, Nat.sub_diag. replace (16 - k)%nat with (S (16 - S k)) by lia.
  rewrite <- app_assoc. done.
Qed.

Lemma schedule_length m W : length (fold_left schedule_step (seq 16 m) W) = (length W + m)%nat.
Proof.
  induction m as [|m IH]; [cbn; lia|]. rewrite seq_S, fold_left_app. cbn [fold_left].
  unfold schedule_step at 1. rewrite length_app, IH. cbn [length]. lia.
Qed.

Hypothesis Hw : 0 <= w.

Lemma wrap_add_r x y : wrap w (x + wrap w y) = wrap w (x + y).
Proof using Hw. unfold wrap. apply Z.add_mod_idemp_r. lia. Qed.

Lemma expand_phase m : forall reg0 ring0 W0,
  ring_of ring0 W0 -> length W0 = 16%nat ->
  let W := fold_left schedule_step (seq 16 m) W0 in
  let res := fold_left (round_expand w K S0 S1 s0 s1) (seq 16 m) (reg0, ring0) in
  fst res = fold_left (rounds_with W) (seq 16 m) reg0 /\ ring_of (snd res) W.
Proof using Hw.
  induction m as [|m IH]; intros reg0 ring0 W0 Hr HW0; [done|].
  destruct (IH reg0 ring0 W0 Hr HW0) as [H1 H2]. cbv zeta. rewrite seq_S, !fold_left_app. cbn [fold_left].
  pose proof (schedule_length m W0) as HL. rewrite HW0 in HL.
  set (W := fold_left schedule_step (seq 16 m) W0) in *.
  destruct (fold_left (round_expand w K S0 S1 s0 s1) (seq 16 m) (reg0, ring0)) as [reg ring]. cbn [fst snd] in *.
  assert (Hat : forall d, (d < 16)%nat -> nth (Nat.land (16 + m + d) 15) ring 0 = nth (m + d) W 0).
  { intros d Hd. rewrite (ring_at ring W (16 + m)) by done. f_equal. lia. }
  set (x := wrap w (s1 (nth (16 + m - 2) W 0) + nth (16 + m - 7) W 0 + s0 (nth (16 + m - 15) W 0)
              + nth (16 + m - 16) W 0)).
  assert (Hs : schedule_step W (16 + m) = W ++ [x]) by done.
  assert (Hx : round_expand w K S0 S1 s0 s1 (reg, ring) (16 + m) =
    (compress_round w K S0 S1 reg (16 + m) x, <[Nat.land (length W) 15 := x]> ring)).
  { pose proof (Hat 0%nat ltac:(lia)) as H0. rewrite Nat.add_0_r in H0.
    unfold round_expand. rewrite HL, H0, !Hat by lia.
    replace (m + 1)%nat with (16 + m - 15)%nat by lia. replace (m + 14)%nat with (16 + m - 2)%nat by lia.
    replace (m + 9)%nat with (16 + m - 7)%nat by lia. replace (m + 0)%nat with (16 + m - 16)%nat by lia.
    rewrite wrap_add_r, (Z.add_comm (nth (16 + m - 16) W 0)). done. }
  rewrite Hs, Hx. cbn [fst snd]. split; [|by apply ring_push].
  rewrite app_nth2, HL, Nat.sub_diag by lia. cbn [nth]. f_equal. rewrite H1.
  apply fold_left_ext_in. intros a t Ht. apply in_seq in Ht. by rewrite app_nth1 by lia.
Qed.

Lemma expand_prefix m : forall W t, (t < length W)%nat ->
  nth t (fold_left schedule_step (seq 16 m) W) 0 = nth t W 0.
Proof.
  induction m as [|m IH]; intros W t Ht; [done|]. rewrite seq_S, fold_left_app. cbn [fold_left].
  unfold schedule_step at 1. rewrite app_nth1; [by apply IH|]. rewrite schedule_length. lia.
Qed.

(** The transformation is the compression function. *)
Lemma Transform_fips rounds st data :
  (16 <= rounds)%nat ->
  (forall j, (j < 16)%nat -> REV (load_le (take n (drop (n * j) data))) = block_word data j) ->
  fst (Transform w n REV K S0 S1 s0 s1 rounds st data) = fips_compress rounds st data.
Proof using Hw.
  intros Hr HW. unfold Transform, fips_compress, schedule.
  set (W0 := map (block_word data) (seq 0 16)). assert (HW0 : length W0 = 16%nat) by done.
  assert (Hn0 : forall j, (j < 16)%nat -> nth j W0 0 = block_word data j).
  { intros j Hj. unfold W0. rewrite (nth_indep _ _ (block_word data 0)) by (rewrite length_map, length_seq; lia).
    rewrite map_nth, seq_nth by lia. done. }
  set (W := fold_left schedule_step (seq 16 (rounds - 16)) W0).
  assert (Hn : forall j, (j < 16)%nat -> nth j W 0 = block_word data j)
    by (intros j Hj; unfold W; rewrite expand_prefix by lia; by apply Hn0).
  rewrite (load_phase data st W 16) by (lia || (intros j Hj; rewrite Hn by lia; by apply HW)).
  assert (Hring : map (fun j => nth j W 0) (seq 0 16) ++ repeat 0 (16 - 16) = W0).
  { cbn [Nat.sub repeat]. rewrite app_nil_r. apply map_ext_in. intros j Hj. apply in_seq in Hj. apply Hn. lia. }
  rewrite Hring.
  assert (Hro : ring_of W0 W0).
  { split; [done|]. split; [lia|]. intros k Hk. rewrite Nat.mod_small by lia. done. }
  destruct (expand_phase (rounds - 16) (fold_left (rounds_with W) (seq 0 16) st) W0 W0 Hro HW0) as [H1 _].
  fold W in H1. destruct (fold_left (round_expand _ _ _ _ _ _) _ _) as [reg ring]. cbn [fst] in *.
  rewrite H1, <- fold_left_app, <- seq_app. by replace (16 + (rounds - 16))%nat with rounds by lia.
Qed.

End Compression.

(** *** Big-endian words *)

Lemma load_le_cons x l : is_u8 x -> load_le (x :: l) = x + 256 * load_le l.
Proof.
  intros Hx. cbn [load_le]. rewrite Z.lor_comm, Z.shiftl_mul_pow2 by lia.
  rewrite lor_disjoint_add by (lia || exact Hx). lia.
Qed.

Lemma load_le_range l : bytes_ok l -> 0 <= load_le l < 2 ^ (8 * zlen l).
Proof.
  induction 1 as [|x l Hx Hl IH]; [done|]. rewrite load_le_cons by done.
  replace (zlen (x :: l)) with (1 + zlen l) by (unfold zlen; cbn [length]; lia).
  replace (8 * (1 + zlen l)) with (8 + 8 * zlen l) by lia. pose proof (zlen_nonneg l).
  rewrite Z.pow_add_r by lia. unfold is_u8 in Hx. lia.
Qed.

Lemma store_load_le l : bytes_ok l -> store_le (length l) (load_le l) = l.
Proof.
  induction 1 as [|x l Hx Hl IH]; [done|]. rewrite load_le_cons by done. cbn [length store_le].
  unfold is_u8 in Hx. f_equal.
  - change 255 with (Z.ones 8). rewrite Z.land_ones by lia. change (2 ^ 8) with 256.
    rewrite Z.mul_comm, Z.mod_add, Z.mod_small by lia. done.
  - rewrite Z.shiftr_div_pow2 by lia. change (2 ^ 8) with 256.
    rewrite Z.mul_comm, Z.div_add, Z.div_small by lia. done.
Qed.

Lemma load_store_le n : forall v, 0 <= v < 2 ^ (8 * Z.of_nat n) -> load_le (store_le n v) = v.
Proof.
  induction n as [|n IH]; intros v Hv; [cbn in *; lia|]. cbn [store_le].
  change 255 with (Z.ones 8). rewrite Z.land_ones by lia. change (2 ^ 8) with 256.
  pose proof (Z.mod_pos_bound v 256 ltac:(lia)). rewrite load_le_cons by (unfold is_u8; lia).
  replace (8 * Z.of_nat (S n)) with (8 + 8 * Z.of_nat n) in Hv by lia. rewrite Z.pow_add_r in Hv by lia.
  rewrite Z.shiftr_div_pow2 by lia. change (2 ^ 8) with 256 in *.
  rewrite IH; [rewrite (Z.div_mod v 256) at 3 by lia; lia|].
  split; [apply Z.div_pos; lia|apply Z.div_lt_upper_bound; lia].
Qed.

Lemma store_be_reverse n : forall v, store_be n v = reverse (store_le n v).
Proof.
  assert (Hg : forall n v, store_le (S n) v = store_le n v ++ [Z.land (Z.shiftr v (8 * Z.of_nat n)) 255]).
  { clear. induction n as [|n IH]; intros v; [done|].
    change (store_le (S (S n)) v) with (Z.land v 255 :: store_le (S n) (Z.shiftr v 8)).
    rewrite IH. cbn [store_le app]. rewrite Z.shiftr_shiftr by lia.
    by replace (8 + 8 * Z.of_nat n) with (8 * Z.of_nat (S n)) by lia. }
  induction n as [|n IH]; intros v; [done|]. rewrite Hg, reverse_app, <- IH. done.
Qed.

(** A byte swap of a loaded word is the word in the other order. *)
Lemma swap_load n REV l :
  length l = n -> bytes_ok l ->
  (forall v, 0 <= v < 2 ^ (8 * Z.of_nat n) ->
     0 <= REV v < 2 ^ (8 * Z.of_nat n) /\ store_le n (REV v) = store_be n v) ->
  REV (load_le l) = load_be l.
Proof.
  intros Hl Hb HR. pose proof (load_le_range l Hb) as Hr. unfold zlen in Hr. rewrite Hl in Hr.
  destruct (HR _ Hr) as [H1 H2]. rewrite <- (load_store_le n (REV _) H1), H2, store_be_reverse.
  rewrite <- Hl, store_load_le by done. done.
Qed.

(** A swap of neighbours within [w] bits. *)
Lemma swap_masked_range w t m1 m2 s :
  0 <= s <= w -> 0 <= t -> 0 <= m1 < 2 ^ w -> 0 <= m2 < 2 ^ (w - s) ->
  0 <= Z.lor (Z.shiftr (Z.land t m1) s) (Z.shiftl (Z.land t m2) s) < 2 ^ w.
Proof.
  intros Hs Ht H1 H2. set (x := Z.lor _ _).
  assert (Hx : 0 <= x).
  { unfold x. apply Z.lor_nonneg. rewrite Z.shiftr_nonneg, Z.shiftl_nonneg, !Z.land_nonneg. tauto. }
  assert (Hm : x mod 2 ^ w = x).
  { apply Z.bits_inj'. intros p Hp. destruct (Z.lt_ge_cases p w) as [Hlt|Hge].
    { by apply Z.mod_pow2_bits_low. }
    rewrite Z.mod_pow2_bits_high by lia. unfold x. rewrite swap_masked by lia.
    rewrite (testbit_high m1 w), (testbit_high m2 (w - s)) by lia. btauto. }
  rewrite <- Hm. apply Z.mod_pos_bound. lia.
Qed.

Lemma swapped_halves_nonneg w s v : 0 <= v -> 0 <= w -> 0 <= Z.lor (Z.shiftr v s) (wrap w (Z.shiftl v s)).
Proof.
  intros Hv Hw. apply Z.lor_nonneg. rewrite Z.shiftr_nonneg. split; [done|].
  unfold wrap. apply Z.mod_pos_bound. lia.
Qed.

Lemma REVERSE32_swaps v :
  0 <= v < 2 ^ 32 -> 0 <= REVERSE32 v < 2 ^ 32 /\ store_le 4 (REVERSE32 v) = store_be 4 v.
Proof.
  intros Hv. split; [|by apply store_REVERSE32].
  apply (swap_masked_range 32); [lia|apply swapped_halves_nonneg; lia|lia|lia].
Qed.

Lemma REVERSE64_swaps v :
  0 <= v < 2 ^ 64 -> 0 <= REVERSE64 v < 2 ^ 64 /\ store_le 8 (REVERSE64 v) = store_be 8 v.
Proof.
  intros Hv. split; [|by apply store_REVERSE64].
  apply (swap_masked_range 64); [lia| |lia|lia].
  apply (swap_masked_range 64); [lia|apply swapped_halves_nonneg; lia|lia|lia].
Qed.

(** ** The three digests *)

Definition sha256_compress : list Z -> list Z -> list Z :=
  fips_compress 32 4 K256 Sigma0_256 Sigma1_256 sigma0_256 sigma1_256 64.
Definition sha512_compress : list Z -> list Z -> list Z :=
  fips_compress 64 8 K512 Sigma0_512 Sigma1_512 sigma0_512 sigma1_512 80.

Definition sha256_spec (m : list Z) : list Z :=
  digest_of 64 sha256_compress sha256_initial_hash_value (sha2_pad 64 56 8)
    (fun st => concat (map (store_be 4) st)) m.
Definition sha512_spec (m : list Z) : list Z :=
  digest_of 128 sha512_compress sha512_initial_hash_value (sha2_pad 128 112 16)
    (fun st => concat (map (store_be 8) st)) m.
Definition sha384_spec (m : list Z) : list Z :=
  digest_of 128 sha512_compress sha384_initial_hash_value (sha2_pad 128 112 16)
    (fun st => concat (map (store_be 8) (take 6 st))) m.

Lemma word_bytes n data j :
  bytes_ok data -> (n * j + n <= length data)%nat ->
  length (take n (drop (n * j) data)) = n /\ bytes_ok (take n (drop (n * j) data)).
Proof.
  intros Hb Hl. rewrite length_take, length_drop. split; [lia|]. by apply Forall_take, Forall_drop.
Qed.

Lemma Transform256_fips st b :
  length b = 64%nat -> bytes_ok b -> trans apr__SHA256_Transform st b = sha256_compress st b.
Proof.
  intros Hl Hb. apply Transform_fips; [lia|lia|]. intros j Hj.
  destruct (word_bytes 4 b j Hb ltac:(lia)) as [H1 H2].
  apply (swap_load 4); [done|done|]. intros v Hv. by apply REVERSE32_swaps.
Qed.

Lemma Transform512_fips st b :
  length b = 128%nat -> bytes_ok b -> trans apr__SHA512_Transform st b = sha512_compress st b.
Proof.
  intros Hl Hb. apply Transform_fips; [lia|lia|]. intros j Hj.
  destruct (word_bytes 8 b j Hb ltac:(lia)) as [H1 H2].
  apply (swap_load 8); [done|done|]. intros v Hv. by apply REVERSE64_swaps.
Qed.

Lemma absorb_ext B (f g : list Z -> list Z -> list Z) n :
  (0 < B)%nat -> (forall s b, length b = B -> bytes_ok b -> f s b = g s b) ->
  forall l s, (length l <= n)%nat -> bytes_ok l -> absorb B f s l = absorb B g s l.
Proof.
  intros HB H. induction n as [|n IH]; intros l s Hn Hl.
  { destruct l; [done|cbn in Hn; lia]. }
  destruct (Nat.lt_ge_cases (length l) B) as [Hs|Hs]; [by rewrite !absorb_short|].
  rewrite (absorb_long B f HB s l Hs), (absorb_long B g HB s l Hs).
  rewrite H by (rewrite ?length_take; (lia || by apply Forall_take)).
  apply IH; [rewrite length_drop; lia|by apply Forall_drop].
Qed.

Lemma store_be_bytes n v : bytes_ok (store_be n v).
Proof.
  induction n as [|n IH]; [constructor|]. cbn [store_be]. constructor; [|done].
  unfold is_u8. change 255 with (Z.ones 8). rewrite Z.land_ones by lia. by apply Z.mod_pos_bound.
Qed.

Lemma pad_bytes BL SL LEN n : bytes_ok (sha2_pad BL SL LEN n).
Proof.
  unfold sha2_pad. constructor; [done|]. apply Forall_app. split; [|apply store_be_bytes].
  apply Forall_forall. intros x Hx. apply list_elem_of_In, repeat_spec in Hx. subst. done.
Qed.

(** The words of a digest have their width. *)
Lemma absorb_last B (f : list Z -> list Z -> list Z) (P : list Z -> Prop) n :
  (0 < B)%nat -> (forall s b, P (f s b)) ->
  forall l s, (length l <= n)%nat -> (P s \/ (B <= length l)%nat) -> P (fst (absorb B f s l)).
Proof.
  intros HB H. induction n as [|n IH]; intros l s Hn Hl.
  { destruct Hl as [Hl|Hl]; [|lia]. by destruct l; [|cbn in Hn; lia]. }
  destruct (Nat.lt_ge_cases (length l) B) as [Hs|Hs].
  { rewrite absorb_short by done. destruct Hl; [done|lia]. }
  rewrite (absorb_long B) by done. apply IH; [rewrite length_drop; lia|]. left. apply H.
Qed.

Lemma trans_range w n REV K S0 S1 s0 s1 rounds st b :
  0 <= w -> Forall (fun x => 0 <= x < 2 ^ w) (trans (Transform w n REV K S0 S1 s0 s1 rounds) st b).
Proof.
  intros Hw. unfold trans, Transform. destruct (fold_left (round_expand _ _ _ _ _ _) _ _) as [reg W].
  cbn [fst]. apply Forall_forall. intros x Hx. apply elem_of_lookup_zip_with in Hx.
  destruct Hx as (i & y & z & -> & _). unfold wrap. apply Z.mod_pos_bound. lia.
Qed.

Lemma padded_one_block BL SL LEN m :
  (BL = SL + LEN)%nat -> (0 < SL)%nat -> (BL <= length (m ++ sha2_pad BL SL LEN (zlen m)))%nat.
Proof.
  intros HBL HSL. pose proof (pad_zeros2 BL SL LEN HBL HSL (zlen m) _ (zlen_nonneg m) eq_refl) as Hz.
  unfold sha2_pad. rewrite Hz, length_app. cbn [length]. rewrite length_app, repeat_length, store_be_length.
  pose proof (Z.mod_le (zlen m) (Z.of_nat BL) (zlen_nonneg m) ltac:(lia)) as Hle.
  pose proof (Z.mod_pos_bound (zlen m) (Z.of_nat BL) ltac:(lia)). unfold zlen in *. zcase; lia.
Qed.

(** What is common to the three digests: the invariant of the streaming section
    at the end, rewritten with the compression function and big-endian output. *)
Section Finish.
Context {cnt : Type} (BL SL LEN nb : nat) (w : Z).
Context (Trans : list Z -> list Z -> list Z * list Z) (comp : list Z -> list Z -> list Z) (REV : Z -> Z).
Context (low : cnt -> Z) (count : cnt -> list Z) (count_ok : cnt -> Z -> Prop).
Hypothesis HBL : (BL = SL + LEN)%nat.
Hypothesis HSL : (0 < SL)%nat.
Hypothesis Hcomp : forall s b, length b = BL -> bytes_ok b -> trans Trans s b = comp s b.
Hypothesis Hrange : forall s b, Forall (fun x => 0 <= x < 2 ^ w) (trans Trans s b).
Hypothesis HREV : forall v, 0 <= v < 2 ^ w -> store_le nb (REV v) = store_be nb v.

Lemma final_state iv m :
  bytes_ok m ->
  fst (absorb BL (trans Trans) iv (m ++ sha2_pad BL SL LEN (zlen m))) =
  fst (absorb BL comp iv (m ++ sha2_pad BL SL LEN (zlen m))).
Proof using HBL HSL Hcomp.
  intros Hm. rewrite (absorb_ext BL (trans Trans) comp (length (m ++ sha2_pad BL SL LEN (zlen m))));
    [done|lia|done|done|]. apply Forall_app. split; [done|apply pad_bytes].
Qed.

Lemma final_output iv m k :
  let st := fst (absorb BL (trans Trans) iv (m ++ sha2_pad BL SL LEN (zlen m))) in
  concat (map (fun x => store_le nb (REV x)) (take k st)) = concat (map (store_be nb) (take k st)).
Proof using HBL HSL HREV Hrange.
  cbv zeta. set (st := fst _). f_equal. apply map_ext_in. intros x Hx. apply HREV.
  assert (Hst : Forall (fun x => 0 <= x < 2 ^ w) st).
  { apply (absorb_last BL (trans Trans) _ (length (m ++ sha2_pad BL SL LEN (zlen m)))); [lia|done|done|].
    right. by apply padded_one_block. }
  apply (Forall_take _ k) in Hst. rewrite Forall_forall in Hst. by apply Hst, list_elem_of_In.
Qed.
End Finish.

(** *** The two counters *)

Definition count256_ok (c t : Z) : Prop := c = (8 * t) mod 2 ^ 64.
Definition count512_ok (c : Z * Z) (t : Z) : Prop :=
  0 <= fst c < 2 ^ 64 /\ 0 <= snd c < 2 ^ 64 /\ fst c + 2 ^ 64 * snd c = (8 * t) mod 2 ^ 128.

Lemma count256_add c t n :
  count256_ok c t -> 0 <= t -> 0 <= n <= 64 -> count256_ok (add64 c (n * 8)) (t + n).
Proof.
  unfold count256_ok, add64, wrap. intros -> Ht Hn. rewrite Z.add_mod_idemp_l by lia. f_equal. lia.
Qed.

Lemma count256_low c t : count256_ok c t -> 0 <= t -> Z.shiftr c 3 mod 64 = t mod 64.
Proof.
  unfold count256_ok. intros -> Ht. rewrite Z.shiftr_div_pow2 by lia. change (2 ^ 3) with 8.
  change (2 ^ 64) with 18446744073709551616. Z.div_mod_to_equations. lia.
Qed.

Lemma count256_bytes c t :
  count256_ok c t -> 0 <= t -> store_le 8 (REVERSE64 c) = store_be 8 ((8 * t) mod 2 ^ (8 * 8)).
Proof. unfold count256_ok. intros -> Ht. apply REVERSE64_swaps, Z.mod_pos_bound. lia. Qed.

Lemma count512_add c t n :
  count512_ok c t -> 0 <= t -> 0 <= n <= 128 -> count512_ok (ADDINC128 c (n * 8)) (t + n).
Proof.
  destruct c as [lo hi]. unfold count512_ok, ADDINC128, wrap. cbn [fst snd]. intros (H1 & H2 & H3) Ht Hn.
  change (2 ^ 128) with (18446744073709551616 * 18446744073709551616) in *.
  change (2 ^ 64) with 18446744073709551616 in *.
  pose proof (Z.mod_pos_bound (lo + n * 8) 18446744073709551616 ltac:(lia)) as Hlo.
  split; [done|]. split; [zcase; [apply Z.mod_pos_bound|]; lia|].
  replace (8 * (t + n)) with (8 * t + n * 8) by lia. rewrite <- (Z.add_mod_idemp_l (8 * t)), <- H3 by lia.
  zcase; Z.div_mod_to_equations; lia.
Qed.

Lemma count512_low c t : count512_ok c t -> 0 <= t -> Z.shiftr (fst c) 3 mod 128 = t mod 128.
Proof.
  destruct c as [lo hi]. unfold count512_ok. cbn [fst snd]. intros (H1 & H2 & H3) Ht.
  rewrite Z.shiftr_div_pow2 by lia. change (2 ^ 3) with 8.
  change (2 ^ 128) with (18446744073709551616 * 18446744073709551616) in *.
  change (2 ^ 64) with 18446744073709551616 in *. Z.div_mod_to_equations. lia.
Qed.

Lemma count512_bytes c t :
  count512_ok c t -> 0 <= t ->
  store_le 8 (REVERSE64 (snd c)) ++ store_le 8 (REVERSE64 (fst c)) = store_be 16 ((8 * t) mod 2 ^ (8 * 16)).
Proof.
  intros (H1 & H2 & H3) Ht. change (8 * 16) with 128. rewrite <- H3.
  rewrite (store_be_app 8) by lia. f_equal; by apply REVERSE64_swaps.
Qed.

Lemma init_inv {cnt} BL Trans (count_ok : cnt -> Z -> Prop) iv z :
  (0 < BL)%nat -> count_ok z 0 -> ctx_inv BL Trans count_ok iv (mkCtx iv z (repeat 0 BL)) [].
Proof.
  intros HB Hc. constructor; cbn [state buffer bitcount]; try rewrite absorb_short by done; try done.
  apply repeat_length.
Qed.

Lemma sha256_last iv ds :
  Last 64 56 apr__SHA256_Transform (fun c => c) 56 (fun c => store_le 8 (REVERSE64 c))
    (fold_left apr__SHA256_Update ds (mkCtx iv 0 (repeat 0 64))) =
  fst (absorb 64 (trans apr__SHA256_Transform) iv (concat ds ++ sha2_pad 64 56 8 (zlen (concat ds)))).
Proof.
  apply (Last_spec 64 56 8 apr__SHA256_Transform (fun c => c) _ count256_ok); try lia.
  - intros. apply Transform_length.
  - apply count256_low.
  - apply count256_bytes.
  - apply (updates_inv 64 56 8 apr__SHA256_Transform add64 (fun c => c) count256_ok) with (m := []); try lia;
      [intros; apply Transform_length|apply count256_add|apply count256_low|by apply init_inv; [lia|]].
Qed.

Lemma sha512_last iv ds :
  apr__SHA512_Last (fold_left apr__SHA512_Update ds (mkCtx iv (0, 0) (repeat 0 128))) =
  fst (absorb 128 (trans apr__SHA512_Transform) iv (concat ds ++ sha2_pad 128 112 16 (zlen (concat ds)))).
Proof.
  apply (Last_spec 128 112 16 apr__SHA512_Transform fst _ count512_ok); try lia.
  - intros. apply Transform_length.
  - apply count512_low.
  - apply count512_bytes.
  - apply (updates_inv 128 112 16 apr__SHA512_Transform ADDINC128 fst count512_ok) with (m := []); try lia;
      [intros; apply Transform_length|apply count512_add|apply count512_low|by apply init_inv; [lia|]].
Qed.

(** ** Correctness *)

(** SHA-256: the code keeps sixteen words of the schedule in the buffer it shares
    with the partial block and swaps bytes in place. *)
Lemma sha256_final chunks :
  bytes_ok (concat chunks) ->
  apr__SHA256_Final (fold_left apr__SHA256_Update chunks apr__SHA256_Init) = sha256_spec (concat chunks).
Proof.
  intros Hb. unfold apr__SHA256_Final, apr__SHA256_Init, sha256_spec, digest_of. rewrite sha256_last.
  rewrite <- (final_state 64 56 8 apr__SHA256_Transform sha256_compress)
    by (lia || done || intros; by apply Transform256_fips).
  pose proof (final_output 64 56 8 4 32 apr__SHA256_Transform REVERSE32 eq_refl ltac:(lia)
    (fun s b => trans_range 32 _ _ _ _ _ _ _ _ s b ltac:(lia)) store_REVERSE32
    sha256_initial_hash_value (concat chunks)) as Ho.
  specialize (Ho (length (fst (absorb 64 (trans apr__SHA256_Transform) sha256_initial_hash_value
    (concat chunks ++ sha2_pad 64 56 8 (zlen (concat chunks))))))). cbv zeta in Ho. by rewrite !take_ge in Ho.
Qed.

Lemma sha512_final chunks :
  bytes_ok (concat chunks) ->
  apr__SHA512_Final (fold_left apr__SHA512_Update chunks apr__SHA512_Init) = sha512_spec (concat chunks) /\
  apr__SHA384_Final (fold_left apr__SHA384_Update chunks apr__SHA384_Init) = sha384_spec (concat chunks).
Proof.
  intros Hb. unfold apr__SHA512_Final, apr__SHA384_Final, apr__SHA512_Init, apr__SHA384_Init, apr__SHA384_Update.
  unfold sha512_spec, sha384_spec, digest_of. rewrite !sha512_last.
  rewrite <- !(final_state 128 112 16 apr__SHA512_Transform sha512_compress)
    by (lia || done || intros; by apply Transform512_fips).
  pose proof (final_output 128 112 16 8 64 apr__SHA512_Transform REVERSE64 eq_refl ltac:(lia)
    (fun s b => trans_range 64 _ _ _ _ _ _ _ _ s b ltac:(lia)) store_REVERSE64) as Ho.
  split; [|apply Ho].
  specialize (Ho sha512_initial_hash_value (concat chunks) (length (fst (absorb 128 (trans apr__SHA512_Transform)
    sha512_initial_hash_value (concat chunks ++ sha2_pad 128 112 16 (zlen (concat chunks))))))).
  cbv zeta in Ho. by rewrite !take_ge in Ho.
Qed.

(** SHA-2 by pieces.  However a message is cut into calls of the update
    functions, the final functions return the digests of FIPS 180-2: the compression
    functions with their full message schedules folded over the padded message, for
    SHA-512 and SHA-384 with the 128-bit length, and for SHA-384 the first six words
    of its own chain. *)
Theorem sha2_fips180 chunks :
  bytes_ok (concat chunks) ->
  apr__SHA256_Final (fold_left apr__SHA256_Update chunks apr__SHA256_Init) = sha256_spec (concat chunks) /\
  apr__SHA512_Final (fold_left apr__SHA512_Update chunks apr__SHA512_Init) = sha512_spec (concat chunks) /\
  apr__SHA384_Final (fold_left apr__SHA384_Update chunks apr__SHA384_Init) = sha384_spec (concat chunks).
Proof. intros Hb. split; [by apply sha256_final|by apply sha512_final]. Qed.

Lemma sha2_fips180_witness :
  apr__SHA256_Final (fold_left apr__SHA256_Update [str "a"; []; str "bc"] apr__SHA256_Init) = sha256_spec (str "abc").
Proof.
  apply (sha2_fips180 [str "a"; []; str "bc"]). repeat (constructor; [split; reflexivity || lia|]). constructor.
Defined.

End Sha2.
