(* ===== verification/AprHash.v ===== *)
(** * AprHash: the hash tables of apr

    apr/tables/apr_hash.c.  The entries live in a store and are linked through
    their [next] fields: a table holds an array of list heads and a list of
    recycled entries.  [find_entry] returns the address of a link ([slot]), the
    iterator keeps a pointer into a chain, and [expand_array] relinks the chains
    while it iterates over them, so the model has the store and the links, not
    lists.  A table is then proved to be a finite map.

    The bytes a key pointer refers to do not change while the key is in a table
    (the interface says that keys are not copied), so an entry holds them. *)

From stdpp Require Import gmap list.
From S2P Require Import Prelude.

Module Hash.

Section Tables.
Context {V : Type}.
(** [apr_hashfunc_t]: the hash and the new [*klen]. *)
Context (hash_func : list Z -> Z -> Z * Z).

Abbreviation loc := nat (only parsing).

Record apr_hash_entry_t := mkEntry {
  next : option loc;
  hash : Z;
  key : list Z;
  klen : Z;
  val : V
}.

Record apr_hash_t := mkHash {
  store : gmap nat apr_hash_entry_t;
  brk : nat;                       (** the next address [apr_palloc] returns *)
  array : list (option loc);
  count : Z;
  max : Z;
  free : option loc
}.

Record apr_hash_index_t := mkIndex {
  this : option loc;
  hnext : option loc;
  index : Z
}.

Definition INITIAL_MAX : Z := 15.

Definition alloc_array (max : Z) : list (option loc) := repeat None (Z.to_nat (u32 (max + 1))).

Definition apr_hash_make : apr_hash_t := mkHash ∅ 0 (alloc_array INITIAL_MAX) 0 INITIAL_MAX None.

(** ** Links *)

(** What an [apr_hash_entry_t **] points to. *)
Inductive slot := Bucket (i : nat) | Next (x : loc).

Definition read_slot (ht : apr_hash_t) (s : slot) : option loc :=
  match s with
  | Bucket i => nth i (array ht) None
  | Next x => match store ht !! x with Some e => next e | None => None end
  end.

Definition set_next (q : option loc) (e : apr_hash_entry_t) : apr_hash_entry_t :=
  mkEntry q (hash e) (key e) (klen e) (val e).
Definition set_val (v : V) (e : apr_hash_entry_t) : apr_hash_entry_t :=
  mkEntry (next e) (hash e) (key e) (klen e) v.

Definition with_store (st : gmap nat apr_hash_entry_t) (ht : apr_hash_t) : apr_hash_t :=
  mkHash st (brk ht) (array ht) (count ht) (max ht) (free ht).
Definition with_array (a : list (option loc)) (ht : apr_hash_t) : apr_hash_t :=
  mkHash (store ht) (brk ht) a (count ht) (max ht) (free ht).

Definition write_slot (s : slot) (q : option loc) (ht : apr_hash_t) : apr_hash_t :=
  match s with
  | Bucket i => with_array (<[i := q]> (array ht)) ht
  | Next x => with_store (alter (set_next q) x (store ht)) ht
  end.

(** ** Iteration *)

(** [while (!hi->this)]: there are at most [max + 1] buckets behind [index]. *)
Fixpoint skip_empty (fuel : nat) (ht : apr_hash_t) (index : Z) (this : option loc) :
    option (option loc * Z) :=
  match this with
  | Some _ => Some (this, index)
  | None =>
      match fuel with
      | O => None
      | S fuel =>
          if index >? max ht then None
          else skip_empty fuel ht (u32 (index + 1)) (znth None (array ht) index)
      end
  end.

Definition apr_hash_next (ht : apr_hash_t) (hi : apr_hash_index_t) : option apr_hash_index_t :=
  match skip_empty (S (length (array ht))) ht (index hi) (hnext hi) with
  | None => None
  | Some (this, index) =>
      Some (mkIndex this
        (match this with
         | Some x => match store ht !! x with Some e => next e | None => None end
         | None => None
         end) index)
  end.

Definition apr_hash_first (ht : apr_hash_t) : option apr_hash_index_t :=
  apr_hash_next ht (mkIndex None None 0).

Definition apr_hash_this (ht : apr_hash_t) (hi : apr_hash_index_t) : option (list Z * Z * V) :=
  match this hi with
  | Some x => match store ht !! x with Some e => Some (key e, klen e, val e) | None => None end
  | None => None
  end.

(** ** Expansion *)

(** One entry: [hi->this->next = new_array[i]; new_array[i] = hi->this]. *)
Definition relink (new_max : Z) (x : loc) (st : gmap nat apr_hash_entry_t) (na : list (option loc)) :
    gmap nat apr_hash_entry_t * list (option loc) :=
  match st !! x with
  | Some e =>
      let i := Z.land (hash e) new_max in
      (<[x := set_next (znth None na i) e]> st, <[Z.to_nat i := Some x]> na)
  | None => (st, na)
  end.

(** The loop of [expand_array]; every entry is visited once. *)
Fixpoint expand_loop (fuel : nat) (ht : apr_hash_t) (new_max : Z) (na : list (option loc))
    (hi : option apr_hash_index_t) : apr_hash_t * list (option loc) :=
  match hi with
  | None => (ht, na)
  | Some hi =>
      match fuel, this hi with
      | S fuel, Some x =>
          let '(st, na) := relink new_max x (store ht) na in
          let ht := with_store st ht in
          expand_loop fuel ht new_max na (apr_hash_next ht hi)
      | _, _ => (ht, na)
      end
  end.

Definition expand_array (ht : apr_hash_t) : apr_hash_t :=
  let new_max := u32 (max ht * 2 + 1) in
  let new_array := alloc_array new_max in
  let '(ht, new_array) := expand_loop (S (size (store ht))) ht new_max new_array (apr_hash_first ht) in
  mkHash (store ht) (brk ht) new_array (count ht) new_max (free ht).

(** ** Lookup *)

Definition same_key (h : Z) (k : list Z) (kl : Z) (e : apr_hash_entry_t) : bool :=
  (hash e =? h) && (klen e =? kl) &&
  bool_decide (take (Z.to_nat kl) (key e) = take (Z.to_nat kl) k).

(** The scan of a linked list. *)
Fixpoint scan (fuel : nat) (st : gmap nat apr_hash_entry_t) (h : Z) (k : list Z) (kl : Z)
    (hep : slot) (he : option loc) : slot * option loc :=
  match he with
  | None => (hep, None)
  | Some x =>
      match fuel, st !! x with
      | S fuel, Some e =>
          if same_key h k kl e then (hep, Some x) else scan fuel st h k kl (Next x) (next e)
      | _, _ => (hep, None)
      end
  end.

(** A recycled entry, or a new one. *)
Definition new_entry (ht : apr_hash_t) : loc * apr_hash_t :=
  match free ht with
  | Some x => (x, mkHash (store ht) (brk ht) (array ht) (count ht) (max ht) (read_slot ht (Next x)))
  | None => (brk ht, mkHash (store ht) (S (brk ht)) (array ht) (count ht) (max ht) None)
  end.

Definition find_entry (ht : apr_hash_t) (k : list Z) (kl : Z) (v : option V) : slot * apr_hash_t :=
  let '(h, kl) := hash_func k kl in
  let b := Bucket (Z.to_nat (Z.land h (max ht))) in
  let '(hep, he) := scan (S (size (store ht))) (store ht) h k kl b (read_slot ht b) in
  match he, v with
  | Some _, _ | None, None => (hep, ht)
  | None, Some v =>
      let '(x, ht) := new_entry ht in
      let ht := with_store (<[x := mkEntry None h k kl v]> (store ht)) ht in
      let ht := write_slot hep (Some x) ht in
      (hep, mkHash (store ht) (brk ht) (array ht) (u32 (count ht + 1)) (max ht) (free ht))
  end.

Definition apr_hash_get (ht : apr_hash_t) (k : list Z) (kl : Z) : option V :=
  let '(hep, ht) := find_entry ht k kl None in
  match read_slot ht hep with
  | Some x => match store ht !! x with Some e => Some (val e) | None => None end
  | None => None
  end.

Definition apr_hash_set (ht : apr_hash_t) (k : list Z) (kl : Z) (v : option V) : apr_hash_t :=
  let '(hep, ht) := find_entry ht k kl v in
  match read_slot ht hep, v with
  | Some old, None =>
      let ht := write_slot hep (read_slot ht (Next old)) ht in
      let ht := write_slot (Next old) (free ht) ht in
      mkHash (store ht) (brk ht) (array ht) (u32 (count ht - 1)) (max ht) (Some old)
  | Some x, Some v =>
      let ht := with_store (alter (set_val v) x (store ht)) ht in
      if count ht >? max ht then expand_array ht else ht
  | None, _ => ht
  end.

Definition apr_hash_count (ht : apr_hash_t) : Z := count ht.

(** ** Copies *)

(** The entries of a chain, in order; a source table is only read. *)
Fixpoint chain_entries (fuel : nat) (st : gmap nat apr_hash_entry_t) (p : option loc) : list apr_hash_entry_t :=
  match fuel, p with
  | S fuel, Some x => match st !! x with Some e => e :: chain_entries fuel st (next e) | None => [] end
  | _, _ => []
  end.

Definition bucket_entries (ht : apr_hash_t) (i : nat) : list apr_hash_entry_t :=
  chain_entries (S (size (store ht))) (store ht) (nth i (array ht) None).

(** The inner loop of [apr_hash_copy]: [new_entry] is the address of the link to
    write; the link of a new entry is written by the next turn and holds
    [gnext] until then. *)
Fixpoint copy_chain (gnext : option loc) (es : list apr_hash_entry_t) (new_entry : slot) (j : nat) (ht : apr_hash_t) :
    apr_hash_t * nat :=
  match es with
  | [] => (write_slot new_entry None ht, j)
  | e :: es =>
      let ht := write_slot new_entry (Some j) ht in
      let ht := with_store (<[j := mkEntry gnext (hash e) (key e) (klen e) (val e)]> (store ht)) ht in
      copy_chain gnext es (Next j) (S j) ht
  end.

(** [garbage] is what the new array holds before the loop. *)
Definition apr_hash_copy (gnext : option loc) (garbage : list (option loc)) (orig : apr_hash_t) : apr_hash_t :=
  let ht := mkHash ∅ (Z.to_nat (count orig)) garbage (count orig) (max orig) None in
  fst (fold_left (fun '(ht, j) i => copy_chain gnext (bucket_entries orig i) (Bucket i) j ht)
         (seq 0 (Z.to_nat (max orig + 1))) (ht, 0%nat)).

(** ** Merging *)

(** A new entry at the head of its chain. *)
Definition push_entry (e : apr_hash_entry_t) (ht : apr_hash_t) (j : nat) : apr_hash_t * nat :=
  let i := Z.land (hash e) (max ht) in
  (mkHash (<[j := mkEntry (znth None (array ht) i) (hash e) (key e) (klen e) (val e)]> (store ht)) (brk ht)
     (<[Z.to_nat i := Some j]> (array ht)) (count ht) (max ht) (free ht), S j).

(** The scan for [ent]; hashes are not compared here. *)
Fixpoint find_ent (fuel : nat) (st : gmap nat apr_hash_entry_t) (iter : apr_hash_entry_t) (p : option loc) :
    option loc :=
  match fuel, p with
  | S fuel, Some x =>
      match st !! x with
      | Some ent =>
          if (klen ent =? klen iter) &&
             bool_decide (take (Z.to_nat (klen iter)) (key ent) = take (Z.to_nat (klen iter)) (key iter))
          then Some x else find_ent fuel st iter (next ent)
      | None => None
      end
  | _, _ => None
  end.

Definition merge_overlay (merger : option (list Z -> Z -> V -> V -> V)) (iter : apr_hash_entry_t)
    (res : apr_hash_t) (j : nat) : apr_hash_t * nat :=
  let i := Z.land (hash iter) (max res) in
  match find_ent (S (size (store res))) (store res) iter (znth None (array res) i) with
  | Some x =>
      let new_val ent :=
        match merger with
        | Some f => f (key iter) (klen iter) (val iter) (val ent)
        | None => val iter
        end in
      (with_store (alter (fun ent => set_val (new_val ent) ent) x (store res)) res, j)
  | None =>
      let '(res, j) := push_entry iter res j in
      (mkHash (store res) (brk res) (array res) (u32 (count res + 1)) (max res) (free res), j)
  end.

Definition all_entries (ht : apr_hash_t) : list apr_hash_entry_t :=
  concat (map (bucket_entries ht) (seq 0 (Z.to_nat (max ht + 1)))).

Definition apr_hash_merge (merger : option (list Z -> Z -> V -> V -> V)) (overlay base : apr_hash_t) : apr_hash_t :=
  let max0 := if max overlay >? max base then max overlay else max base in
  let total := u32 (count base + count overlay) in
  let max1 := if total >? max0 then u32 (max0 * 2 + 1) else max0 in
  let res := mkHash ∅ (Z.to_nat total) (alloc_array max1) (count base) max1 None in
  let '(res, j) := fold_left (fun '(res, j) e => push_entry e res j) (all_entries base) (res, 0%nat) in
  fst (fold_left (fun '(res, j) e => merge_overlay merger e res j) (all_entries overlay) (res, j)).

Definition apr_hash_overlay (overlay base : apr_hash_t) : apr_hash_t := apr_hash_merge None overlay base.

End Tables.

Arguments apr_hash_entry_t : clear implicits.
Arguments apr_hash_t : clear implicits.

(** ** The default hash function *)

Definition APR_HASH_KEY_STRING : Z := -1.

(** The bytes before the first NUL. *)
Fixpoint until_nul (k : list Z) : list Z :=
  match k with [] => [] | c :: k => if c =? 0 then [] else c :: until_nul k end.

Definition times33 (h c : Z) : Z := u32 (h * 33 + c).

Definition apr_hashfunc_default (char_key : list Z) (klen : Z) : Z * Z :=
  if klen =? APR_HASH_KEY_STRING then
    let s := until_nul char_key in (fold_left times33 s 0, zlen s)
  else (fold_left times33 (take (Z.to_nat klen) char_key) 0, klen).

Example hash_demo :
  let h := apr_hashfunc_default in
  let t := apr_hash_set h apr_hash_make (str "one" ++ [0]) (-1) (Some 1%nat) in
  let t := apr_hash_set h t (str "two" ++ [0]) (-1) (Some 2%nat) in
  let t := apr_hash_set h t (str "onex") 3 (Some 11%nat) in
  let t' := apr_hash_set h t (str "two") 3 None in
  (apr_hash_get h t (str "one" ++ [0]) (-1), apr_hash_get h t (str "two") 3, apr_hash_count t,
   apr_hash_get h t' (str "two" ++ [0]) (-1), apr_hash_count t') =
  (Some 11%nat, Some 2%nat, 2, None, 1).
Proof. vm_compute. reflexivity. Qed.

Definition many (n : nat) : apr_hash_t nat :=
  fold_left (fun t i => apr_hash_set apr_hashfunc_default t [Z.of_nat i] 1 (Some i)) (seq 0 n) apr_hash_make.

Example hash_copy_merge :
  let h := apr_hashfunc_default in
  let c := apr_hash_copy (Some 9%nat) (repeat (Some 7%nat) 64) (many 40) in
  let o := apr_hash_set h (apr_hash_set h apr_hash_make [3] 1 (Some 100%nat)) [77] 1 (Some 101%nat) in
  let g := apr_hash_overlay o c in
  (apr_hash_get h c [39] 1, apr_hash_get h g [3] 1, apr_hash_get h g [77] 1, apr_hash_get h g [4] 1, count g) =
  (Some 39%nat, Some 100%nat, Some 101%nat, Some 4%nat, 41).
Proof. vm_compute. reflexivity. Qed.

Example hash_grows : max (many 40) = 63 /\
  map (fun i => apr_hash_get apr_hashfunc_default (many 40) [Z.of_nat i] 1) (seq 0 41) =
  map Some (seq 0 40) ++ [None].
Proof. vm_compute. done. Qed.

End Hash.
