(* ===== verification/AprHashProps.v ===== *)
(** * AprHashProps: a hash table of apr is a finite map

    The chains of linked entries ([chain]), the invariant of a table ([wf]), what
    each operation of AprHash does to them, and the refinement: a table reached by
    [apr_hash_set], [apr_hash_copy] or [apr_hash_merge] represents a [gmap] from
    byte strings.  The client's side of the hash function is the class
    [HashFunc]; the default function is an instance. *)

From stdpp Require Import gmap list.
From S2P Require Import Prelude AprHash.
Import Hash.

(** ** Links and chains *)

Section Chains.
Context {V : Type}.
Implicit Types (st : gmap nat (apr_hash_entry_t V)) (ht : apr_hash_t V) (l fl : list nat).

(** The entries of [l] in the order of their links, from the pointer [p] to NULL. *)
Fixpoint chain st (p : option nat) l : Prop :=
  match l with
  | [] => p = None
  | x :: l => p = Some x /\ exists e, st !! x = Some e /\ chain st (next e) l
  end.

(** A store that keeps the links of the entries of [l] keeps the chain. *)
Lemma chain_frame st st' l : forall p,
  (forall x e, x ∈ l -> st !! x = Some e -> exists e', st' !! x = Some e' /\ next e' = next e) ->
  chain st p l -> chain st' p l.
Proof.
  induction l as [|x l IH]; intros p H Hc; [done|]. destruct Hc as [-> (e & He & Hc)].
  destruct (H x e) as (e' & He' & Hn); [left|done|]. split; [done|]. exists e'. split; [done|].
  rewrite Hn. apply IH; [|done]. intros y ey Hy. apply H. by right.
Qed.

Lemma chain_insert st l p x e : x ∉ l -> chain st p l -> chain (<[x := e]> st) p l.
Proof.
  intros Hx. apply chain_frame. intros y ey Hy Hey. exists ey. split; [|done].
  by rewrite lookup_insert_ne by congruence.
Qed.

Lemma chain_alter st l p x f : x ∉ l -> chain st p l -> chain (alter f x st) p l.
Proof.
  intros Hx. apply chain_frame. intros y ey Hy Hey. exists ey. split; [|done].
  by rewrite lookup_alter_ne by congruence.
Qed.

Lemma chain_set_val st l p x v : chain st p l -> chain (alter (set_val v) x st) p l.
Proof.
  apply chain_frame. intros y e Hy He. destruct (decide (y = x)) as [->|Hne].
  - exists (set_val v e). by rewrite lookup_alter_eq, He.
  - exists e. by rewrite lookup_alter_ne by congruence.
Qed.

Lemma chain_dom st l : forall p x, chain st p l -> x ∈ l -> is_Some (st !! x).
Proof.
  induction l as [|y l IH]; intros p x Hc Hx; [by apply elem_of_nil in Hx|].
  destruct Hc as [_ (e & He & Hc)]. apply elem_of_cons in Hx as [->|Hx]; [by exists e|by apply (IH (next e))].
Qed.

Lemma chain_head st p l : chain st p l -> p = head l.
Proof. destruct l; [done|]. by intros [-> _]. Qed.

Lemma chain_app_inv st l1 : forall p l2, chain st p (l1 ++ l2) ->
  exists q, chain st q l2.
Proof.
  induction l1 as [|x l1 IH]; intros p l2 Hc; [by exists p|]. destruct Hc as [_ (e & _ & Hc)]. by apply (IH (next e)).
Qed.

Lemma chain_tail st l1 : forall p x e l2,
  chain st p (l1 ++ x :: l2) -> st !! x = Some e -> chain st (next e) l2.
Proof.
  induction l1 as [|y l1 IH]; intros p x e l2 [_ (e' & He' & Hc)] He; [congruence|]. by apply (IH (next e') x).
Qed.

(** The address of the link behind the entries of [l]. *)
Fixpoint slot_after (s : slot) l : slot := match l with [] => s | x :: l => slot_after (Next x) l end.

Lemma scan_spec st h k kl l : forall fuel hep p,
  chain st p l -> (length l < fuel)%nat ->
  exists l1 l2, l = l1 ++ l2 /\ scan fuel st h k kl hep p = (slot_after hep l1, head l2) /\
    (forall x e, x ∈ l1 -> st !! x = Some e -> same_key h k kl e = false) /\
    (forall x, head l2 = Some x -> exists e, st !! x = Some e /\ same_key h k kl e = true).
Proof.
  induction l as [|x l IH]; intros fuel hep p Hc Hf.
  { exists [], []. cbn in Hc. subst p. split; [done|]. split; [by destruct fuel|]. split; [|done].
    intros x e Hx. by apply elem_of_nil in Hx. }
  destruct Hc as [-> (e & He & Hc)]. destruct fuel as [|fuel]; [cbn in Hf; lia|]. cbn [scan]. rewrite He.
  destruct (same_key h k kl e) eqn:E.
  - exists [], (x :: l). split; [done|]. split; [done|]. split.
    + intros y ey Hy. by apply elem_of_nil in Hy.
    + intros y Hy. cbn [head] in Hy. simplify_eq. by exists e.
  - destruct (IH fuel (Next x) (next e) Hc ltac:(cbn in Hf; lia)) as (l1 & l2 & -> & Hs & H1 & H2).
    exists (x :: l1), l2. split; [done|]. split; [done|]. split; [|done].
    intros y ey Hy Hey. apply elem_of_cons in Hy as [->|Hy]; [congruence|by apply (H1 y)].
Qed.

(** The table's heads point to the chains. *)
Abbreviation links st arr chains := (Forall2 (chain st) arr chains).

Lemma read_next_after st l1 : forall x e l2, st !! x = Some e -> chain st (next e) (l1 ++ l2) ->
  forall ht, store ht = st -> read_slot ht (slot_after (Next x) l1) = head l2.
Proof.
  induction l1 as [|y l1 IH]; intros x e l2 He Hc ht Hst; cbn [slot_after].
  - cbn [read_slot]. rewrite Hst, He. by apply (chain_head st).
  - destruct Hc as [_ (ey & Hey & Hc)]. by apply (IH y ey).
Qed.

Lemma read_slot_after ht chains i l1 l2 :
  links (store ht) (array ht) chains -> chains !! i = Some (l1 ++ l2) ->
  read_slot ht (slot_after (Bucket i) l1) = head l2.
Proof.
  intros Hl Hi. destruct (Forall2_lookup_r _ _ _ _ _ Hl Hi) as (p & Hp & Hc).
  destruct l1 as [|x l1]; cbn [slot_after app] in *.
  - cbn [read_slot]. rewrite nth_lookup, Hp. by apply (chain_head (store ht)).
  - destruct Hc as [_ (e & He & Hc)]. by apply (read_next_after (store ht) l1 x e).
Qed.

(** Writing a link replaces the rest of one chain. *)
Lemma chain_write st l1 : forall p y l2 l2' q,
  chain st p (l1 ++ y :: l2) -> NoDup (l1 ++ [y]) -> (forall x, x ∈ l2' -> x ∉ l1 ++ [y]) -> chain st q l2' ->
  chain (alter (set_next q) y st) p (l1 ++ y :: l2').
Proof.
  induction l1 as [|x l1 IH]; intros p y l2 l2' q Hc Hnd Hdis Hq.
  - destruct Hc as [-> (e & He & _)]. split; [done|]. exists (set_next q e).
    rewrite lookup_alter_eq, He. split; [done|]. cbn [next set_next]. apply chain_alter; [|done].
    intros Hy. apply (Hdis y Hy). by left.
  - destruct Hc as [-> (e & He & Hc)]. cbn [app] in Hnd. apply NoDup_cons in Hnd as [Hx Hnd]. split; [done|].
    exists e. rewrite lookup_alter_ne.
    + split; [done|]. apply (IH (next e) y l2); [done|done| |done]. intros z Hz Hzl. apply (Hdis z Hz). by right.
    + intros ->. apply Hx, elem_of_app. right. by left.
Qed.

(** The part of an entry that is not its link. *)
Definition data (e : apr_hash_entry_t V) : apr_hash_entry_t V := set_next None e.
Definition same_data st st' : Prop := forall x, data <$> st' !! x = data <$> st !! x.

Lemma same_data_refl st : same_data st st.
Proof. done. Qed.

Lemma same_data_trans st1 st2 st3 : same_data st1 st2 -> same_data st2 st3 -> same_data st1 st3.
Proof. intros H1 H2 x. by rewrite H2, H1. Qed.

Lemma same_data_set_next st x q : same_data st (alter (set_next q) x st).
Proof.
  intros y. destruct (decide (y = x)) as [->|Hne].
  - rewrite lookup_alter_eq. by destruct (st !! x).
  - by rewrite lookup_alter_ne by congruence.
Qed.

Lemma same_data_inv st st' x e' :
  same_data st st' -> st' !! x = Some e' -> exists e, st !! x = Some e /\ data e' = data e.
Proof.
  intros H He. specialize (H x). rewrite He in H. cbn in H. destruct (st !! x) as [e|]; [|done].
  exists e. split; [done|]. exact (f_equal (from_option id (data e')) H).
Qed.

Lemma slot_after_snoc s l y : slot_after s (l ++ [y]) = Next y.
Proof. revert s. induction l as [|x l IH]; intros s; [done|]. apply IH. Qed.

Lemma NoDup_concat_lookup (chains : list (list nat)) i l : NoDup (concat chains) -> chains !! i = Some l -> NoDup l.
Proof.
  revert i. induction chains as [|c chains IH]; intros i Hnd Hi; [done|]. cbn [concat] in Hnd.
  apply NoDup_app in Hnd as (H1 & _ & H2). destruct i; cbn in Hi; [by simplify_eq|by apply (IH i)].
Qed.

Lemma NoDup_concat_ne (chains : list (list nat)) i j l l' x : NoDup (concat chains) ->
  chains !! i = Some l -> chains !! j = Some l' -> x ∈ l -> x ∈ l' -> i = j.
Proof.
  revert i j. induction chains as [|c chains IH]; intros i j Hnd Hi Hj Hx Hx'; [done|]. cbn [concat] in Hnd.
  apply NoDup_app in Hnd as (_ & Hdis & H2).
  assert (Hin : forall k l, chains !! k = Some l -> forall y, y ∈ l -> y ∈ concat chains).
  { intros k l0 Hk y Hy. apply list_elem_of_In, in_concat. exists l0.
    split; apply list_elem_of_In; [by eapply list_elem_of_lookup_2|done]. }
  destruct i as [|i], j as [|j]; cbn in Hi, Hj; simplify_eq; [done| | |].
  - destruct (Hdis x Hx). by apply (Hin j l').
  - destruct (Hdis x Hx'). by apply (Hin i l).
  - f_equal. by apply IH.
Qed.

Lemma write_slot_links ht chains i l1 l2 l2' q :
  links (store ht) (array ht) chains -> chains !! i = Some (l1 ++ l2) -> NoDup (concat chains) ->
  (forall x, x ∈ l2' -> x ∉ l1) -> chain (store ht) q l2' ->
  let ht' := write_slot (slot_after (Bucket i) l1) q ht in
  links (store ht') (array ht') (<[i := l1 ++ l2']> chains) /\
  (forall fl p, (forall x, x ∈ fl -> x ∉ l1) -> chain (store ht) p fl -> chain (store ht') p fl) /\
  same_data (store ht) (store ht') /\
  brk ht' = brk ht /\ count ht' = count ht /\ max ht' = max ht /\ free ht' = free ht /\
  length (array ht') = length (array ht).
Proof.
  intros Hl Hi Hnd Hdis Hq. pose proof (Forall2_lookup_r _ _ _ _ _ Hl Hi) as (p & Hp & Hc).
  destruct l1 as [|y l1 _] using rev_ind.
  - cbn [slot_after write_slot with_array store array app brk count max free].
    split; [by apply Forall2_insert|]. split; [done|]. split; [done|]. by rewrite length_insert.
  - rewrite slot_after_snoc. cbn [write_slot with_store store array brk count max free].
    pose proof (NoDup_concat_lookup _ _ _ Hnd Hi) as Hndi.
    assert (Hnd1 : NoDup (l1 ++ [y])) by (by apply NoDup_app in Hndi as (? & _ & _)).
    assert (Hy : forall x, x ∈ [y] -> x ∈ l1 ++ [y]) by (intros; apply elem_of_app; by right).
    split.
    + apply Forall2_same_length_lookup_2.
      { rewrite length_insert. by apply (Forall2_length _ _ _ Hl). }
      intros j pj lj Hpj Hlj. destruct (decide (j = i)) as [->|Hne].
      * rewrite list_lookup_insert_eq in Hlj by (by eapply lookup_lt_Some). simplify_eq.
        rewrite <- !app_assoc in *. cbn [app] in *. by apply (chain_write _ _ _ _ l2).
      * rewrite list_lookup_insert_ne in Hlj by congruence. apply chain_alter; [|by eapply Forall2_lookup_lr].
        intros Hyj. apply Hne. eapply (NoDup_concat_ne chains j i); [done|done|done|done|].
        apply elem_of_app. left. apply Hy. by left.
    + split; [|split; [apply same_data_set_next|done]].
      intros fl p' Hfl Hcf. apply chain_alter; [|done]. intros Hyf. apply (Hfl y Hyf), Hy. by left.
Qed.

End Chains.

(** ** The promise of a hash function

    The hash is a function of the bytes of the key, whose number it stores into
    [*klen]; [hf_key_ok] says which arguments denote a key. *)
Class HashFunc (hash_func : list Z -> Z -> Z * Z) := {
  hf_key_ok : list Z -> Z -> Prop;
  hf_hash : list Z -> Z;
  hf_range : forall b, 0 <= hf_hash b < 2 ^ 32;
  hf_klen : forall k kl, hf_key_ok k kl -> 0 <= snd (hash_func k kl) <= zlen k;
  hf_spec : forall k kl, hf_key_ok k kl ->
    fst (hash_func k kl) = hf_hash (take (Z.to_nat (snd (hash_func k kl))) k)
}.

(** The bytes of the key that the arguments denote. *)
Definition kbytes (hash_func : list Z -> Z -> Z * Z) (k : list Z) (kl : Z) : list Z :=
  take (Z.to_nat (snd (hash_func k kl))) k.

(** *** One chain among many *)

Lemma concat_permutation {A} (c c' : list (list A)) : c ≡ₚ c' -> concat c ≡ₚ concat c'.
Proof.
  induction 1 as [|x c c' _ IH|x y c|c1 c2 c3 _ IH1 _ IH2]; cbn [concat]; [done|by rewrite IH| |by rewrite IH1].
  by rewrite !app_assoc, (Permutation_app_comm x y).
Qed.

Lemma concat_pick {A} (c : list (list A)) i a :
  c !! i = Some a -> concat c ≡ₚ a ++ concat (delete i c).
Proof.
  intros Hi. exact (concat_permutation _ _ (delete_Permutation c i a Hi)).
Qed.

Lemma concat_insert {A} (c : list (list A)) i a b :
  c !! i = Some a -> concat (<[i := b]> c) ≡ₚ b ++ concat (delete i c).
Proof.
  intros Hi. pose proof (lookup_lt_Some _ _ _ Hi) as Hlt.
  rewrite (concat_pick (<[i := b]> c) i b) by (by apply list_lookup_insert_eq).
  rewrite !delete_take_drop, take_insert_ge, drop_insert_lt by lia. done.
Qed.

Section Map.
Context {V : Type} (hash_func : list Z -> Z -> Z * Z) `{HF : HashFunc hash_func}.
Implicit Types (st : gmap nat (apr_hash_entry_t V)) (ht : apr_hash_t V) (l fl : list nat).
Abbreviation kb := (kbytes hash_func).

Definition ekey (e : apr_hash_entry_t V) : list Z := take (Z.to_nat (klen e)) (key e).

Definition entry_ok (e : apr_hash_entry_t V) : Prop :=
  0 <= klen e <= zlen (key e) /\ hash e = hf_hash (ekey e).

(** The comparison of [find_entry] is equality of keys. *)
Lemma same_key_spec k kl e :
  hf_key_ok k kl -> entry_ok e ->
  same_key (fst (hash_func k kl)) k (snd (hash_func k kl)) e = true <-> ekey e = kb k kl.
Proof.
  intros Hk [Hl Hh]. pose proof (hf_klen k kl Hk) as Hr. unfold same_key, kbytes, ekey in *.
  rewrite !andb_true_iff, !Z.eqb_eq, bool_decide_eq_true. split.
  - intros [[_ ->] H]. done.
  - intros H. assert (Hlen : klen e = snd (hash_func k kl)).
    { apply (f_equal length) in H. rewrite !length_take in H. unfold zlen in *. lia. }
    rewrite Hlen in *. split; [split; [|done]|done]. rewrite Hh, hf_spec by done. by rewrite H.
Qed.

Definition binding (e : apr_hash_entry_t V) : list Z * V := (ekey e, val e).
Definition bindings st l : list (list Z * V) := omap (fun x => binding <$> st !! x) l.

Record wf ht (chains : list (list nat)) fl : Prop := {
  wf_links : Forall2 (chain (store ht)) (array ht) chains;
  wf_free : chain (store ht) (free ht) fl;
  wf_nodup : NoDup (concat chains ++ fl);
  wf_max : exists n, 0 <= n <= 31 /\ max ht = 2 ^ n - 1;
  wf_len : Z.of_nat (length (array ht)) = max ht + 1;
  wf_bucket : forall i l x e, chains !! i = Some l -> x ∈ l -> store ht !! x = Some e ->
    entry_ok e /\ Z.land (hash e) (max ht) = Z.of_nat i;
  wf_brk : forall x, is_Some (store ht !! x) -> (x < brk ht)%nat;
  wf_count : count ht = zlen (concat chains) /\ count ht < 2 ^ 31;
  wf_keys : NoDup (bindings (store ht) (concat chains)).*1
}.

Definition represents ht (m : gmap (list Z) V) : Prop :=
  exists chains fl, wf ht chains fl /\ m = list_to_map (bindings (store ht) (concat chains)).

Lemma bindings_app st l1 l2 : bindings st (l1 ++ l2) = bindings st l1 ++ bindings st l2.
Proof. apply omap_app. Qed.

Lemma bindings_cons st x l e : st !! x = Some e -> bindings st (x :: l) = binding e :: bindings st l.
Proof. intros He. unfold bindings. cbn [omap list_omap]. by rewrite He. Qed.

Lemma bindings_ext st st' l :
  (forall x, x ∈ l -> binding <$> st' !! x = binding <$> st !! x) -> bindings st' l = bindings st l.
Proof.
  unfold bindings. induction l as [|x l IH]; intros H; [done|]. cbn [omap list_omap].
  rewrite (H x) by (by left). rewrite IH; [done|]. intros y Hy. apply H. by right.
Qed.

Lemma binding_data (e e' : apr_hash_entry_t V) : data e' = data e ->
  binding e' = binding e /\ hash e' = hash e /\ (entry_ok e -> entry_ok e').
Proof.
  unfold data, set_next, binding, entry_ok, ekey. destruct e, e'. cbn. intros H. by simplify_eq.
Qed.

Lemma bindings_same_data st st' l : same_data st st' -> bindings st' l = bindings st l.
Proof.
  intros H. apply bindings_ext. intros x _. specialize (H x).
  destruct (st !! x) as [e|] eqn:E, (st' !! x) as [e'|] eqn:E'; cbn in *; try done.
  f_equal. apply binding_data. exact (f_equal (from_option id (data e')) H).
Qed.

Lemma bindings_permutation st l l' : l ≡ₚ l' -> bindings st l ≡ₚ bindings st l'.
Proof. intros H. unfold bindings. by rewrite H. Qed.

Lemma elem_of_bindings st l x e : x ∈ l -> st !! x = Some e -> binding e ∈ bindings st l.
Proof. intros Hx He. apply list_elem_of_omap. exists x. by rewrite He. Qed.

(** *** Finding a key *)

Lemma land_max ht chains fl h : wf ht chains fl -> 0 <= Z.land h (max ht) <= max ht.
Proof.
  intros H. destruct (wf_max _ _ _ H) as (n & Hn & ->).
  replace (2 ^ n - 1) with (Z.ones n) by (rewrite Z.ones_equiv; lia). rewrite Z.land_ones by lia.
  pose proof (Z.mod_pos_bound h (2 ^ n) ltac:(lia)). rewrite Z.ones_equiv. lia.
Qed.

Lemma bucket_exists ht chains fl h : wf ht chains fl ->
  exists l, chains !! Z.to_nat (Z.land h (max ht)) = Some l.
Proof.
  intros H. pose proof (land_max _ _ _ h H) as Hr. pose proof (wf_len _ _ _ H) as Hl.
  rewrite (Forall2_length _ _ _ (wf_links _ _ _ H)) in Hl. apply lookup_lt_is_Some. lia.
Qed.

Lemma elem_of_chains (chains : list (list nat)) i l x : chains !! i = Some l -> x ∈ l -> x ∈ concat chains.
Proof.
  intros Hi Hx. apply list_elem_of_In, in_concat. exists l.
  split; apply list_elem_of_In; [by eapply list_elem_of_lookup_2|done].
Qed.

Lemma in_chains (chains : list (list nat)) x : x ∈ concat chains -> exists i l, chains !! i = Some l /\ x ∈ l.
Proof.
  intros Hx. apply list_elem_of_In, in_concat in Hx as (l & Hl & Hx). apply list_elem_of_In in Hl, Hx.
  apply list_elem_of_lookup_1 in Hl as [i Hi]. by exists i, l.
Qed.

Lemma chains_dom ht chains fl x : wf ht chains fl -> x ∈ concat chains ++ fl -> is_Some (store ht !! x).
Proof.
  intros H Hx. apply elem_of_app in Hx as [Hx|Hx]; [|exact (chain_dom _ _ _ _ (wf_free _ _ _ H) Hx)].
  apply in_chains in Hx as (i & l & Hi & Hx).
  destruct (Forall2_lookup_r _ _ _ _ _ (wf_links _ _ _ H) Hi) as (p & _ & Hc). by apply (chain_dom _ _ _ _ Hc).
Qed.

Lemma fuel_enough st l : NoDup l -> (forall x, x ∈ l -> is_Some (st !! x)) -> (length l < S (size st))%nat.
Proof.
  intros Hnd Hd. rewrite <- (size_dom (D := gset nat)), <- (size_list_to_set (C := gset nat)) by done.
  apply Nat.lt_succ_r, subseteq_size. intros x Hx. apply elem_of_list_to_set, Hd in Hx. by apply elem_of_dom.
Qed.

Lemma scan_wf ht chains fl k kl :
  wf ht chains fl -> hf_key_ok k kl ->
  let h := fst (hash_func k kl) in
  let i := Z.to_nat (Z.land h (max ht)) in
  exists l1 l2, chains !! i = Some (l1 ++ l2) /\
    scan (S (size (store ht))) (store ht) h k (snd (hash_func k kl)) (Bucket i) (read_slot ht (Bucket i)) =
      (slot_after (Bucket i) l1, head l2) /\
    match l2 with
    | [] => forall x e, x ∈ concat chains -> store ht !! x = Some e -> ekey e <> kb k kl
    | x :: _ => exists e, store ht !! x = Some e /\ ekey e = kb k kl
    end.
Proof.
  intros H Hk h i. destruct (bucket_exists ht chains fl h H) as [l Hl]. fold i in Hl.
  destruct (Forall2_lookup_r _ _ _ _ _ (wf_links _ _ _ H) Hl) as (p & Hp & Hc).
  assert (Hr : read_slot ht (Bucket i) = p) by (cbn [read_slot]; by rewrite nth_lookup, Hp).
  pose proof (wf_nodup _ _ _ H) as Hnd. apply NoDup_app in Hnd as (Hnd & _ & _).
  assert (Hf : (length l < S (size (store ht)))%nat)
    by (apply fuel_enough; [by apply (NoDup_concat_lookup chains i)|intros x; by apply (chain_dom _ _ p)]).
  rewrite Hr. destruct (scan_spec (store ht) h k (snd (hash_func k kl)) l _ (Bucket i) p Hc Hf)
    as (l1 & l2 & -> & -> & H1 & H2).
  exists l1, l2. split; [done|]. split; [done|]. destruct l2 as [|x l2].
  - rewrite app_nil_r in Hl. intros x e Hx He Hke. apply in_chains in Hx as (j & lj & Hj & Hx).
    destruct (wf_bucket _ _ _ H j lj x e Hj Hx He) as [Hok Hb].
    assert (Hij : i = j).
    { unfold i, h. rewrite hf_spec by done. change (take _ k) with (kb k kl). rewrite <- Hke.
      destruct Hok as [_ Hh]. rewrite <- Hh, Hb. apply Nat2Z.id. }
    subst j. rewrite Hl in Hj. simplify_eq.
    specialize (H1 x e Hx He). apply not_true_iff_false in H1. apply H1. by apply same_key_spec.
  - destruct (H2 x eq_refl) as (e & He & Hs). exists e. split; [done|]. apply same_key_spec; [done| |done].
    apply (wf_bucket _ _ _ H i (l1 ++ x :: l2) x e); [done| |done]. apply elem_of_app. right. by left.
Qed.

Lemma bindings_lookup st l x e :
  NoDup (bindings st l).*1 -> x ∈ l -> st !! x = Some e ->
  (list_to_map (bindings st l) : gmap (list Z) V) !! ekey e = Some (val e).
Proof.
  intros Hnd Hx He. apply elem_of_list_to_map_1; [done|]. exact (elem_of_bindings st l x e Hx He).
Qed.

Lemma bindings_absent st l k :
  (forall x e, x ∈ l -> st !! x = Some e -> ekey e <> k) ->
  (list_to_map (bindings st l) : gmap (list Z) V) !! k = None.
Proof.
  intros Hn. apply not_elem_of_list_to_map_1. intros Hin. apply list_elem_of_fmap in Hin as ([k' v] & -> & Hin).
  apply list_elem_of_omap in Hin as (x & Hx & Hb). destruct (st !! x) as [e|] eqn:He; [|done].
  unfold binding in Hb. cbn in Hb. simplify_eq. by apply (Hn x e).
Qed.

Lemma get_represents ht m k kl :
  represents ht m -> hf_key_ok k kl -> apr_hash_get hash_func ht k kl = m !! kb k kl.
Proof.
  intros (chains & fl & H & ->) Hk. destruct (scan_wf ht chains fl k kl H Hk) as (l1 & l2 & Hi & Hs & Hm).
  unfold apr_hash_get, find_entry. rewrite (surjective_pairing (hash_func k kl)). cbv zeta in *. rewrite Hs.
  destruct l2 as [|x l2]; cbn [head].
  - rewrite (read_slot_after ht chains _ l1 []) by (done || apply (wf_links _ _ _ H)).
    cbn [head]. symmetry. by apply bindings_absent.
  - rewrite (read_slot_after ht chains _ l1 (x :: l2)) by (done || apply (wf_links _ _ _ H)).
    destruct Hm as (e & He & <-). cbn [head]. rewrite He. symmetry.
    apply (bindings_lookup _ _ x); [apply (wf_keys _ _ _ H)| |done].
    eapply elem_of_chains; [done|]. apply elem_of_app. right. by left.
Qed.

(** *** Removing a key *)

Lemma list_to_map_bindings st l l' :
  NoDup (bindings st l).*1 -> l ≡ₚ l' ->
  NoDup (bindings st l').*1 /\ (list_to_map (bindings st l) : gmap (list Z) V) = list_to_map (bindings st l').
Proof.
  intros Hnd Hp. pose proof (bindings_permutation st _ _ Hp) as Hb. split.
  - by rewrite <- Hb.
  - by apply list_to_map_proper.
Qed.

(** The bindings without the entry [x]. *)
Lemma bindings_without st l x e l' :
  NoDup (bindings st l).*1 -> st !! x = Some e -> l ≡ₚ x :: l' ->
  NoDup (bindings st l').*1 /\
  list_to_map (bindings st l') = (delete (ekey e) (list_to_map (bindings st l)) : gmap (list Z) V).
Proof.
  intros Hnd He Hp. destruct (list_to_map_bindings st l _ Hnd Hp) as [Hnd' ->].
  rewrite (bindings_cons st x l' e He) in Hnd' |- *. cbn [fmap list_fmap] in Hnd'.
  apply NoDup_cons in Hnd' as [Hx Hnd']. split; [done|]. cbn [list_to_map foldr]. unfold binding. cbn [fst snd].
  rewrite delete_insert_eq, delete_id; [done|]. by apply not_elem_of_list_to_map_1.
Qed.

(** A chain with one entry taken out. *)
Lemma take_out (chains : list (list nat)) i l1 x l2 :
  chains !! i = Some (l1 ++ x :: l2) -> concat chains ≡ₚ x :: concat (<[i := l1 ++ l2]> chains).
Proof.
  intros Hi. rewrite (concat_pick chains i _ Hi), (concat_insert chains i _ (l1 ++ l2) Hi).
  by rewrite <- Permutation_middle.
Qed.

Lemma put_in (chains : list (list nat)) i l1 x :
  chains !! i = Some l1 -> concat (<[i := l1 ++ [x]]> chains) ≡ₚ x :: concat chains.
Proof.
  intros Hi. rewrite (concat_pick chains i _ Hi), (concat_insert chains i _ (l1 ++ [x]) Hi).
  rewrite <- app_assoc. cbn [app]. by rewrite <- Permutation_middle.
Qed.

Lemma links_alter_next st arr chains x q :
  x ∉ concat chains -> Forall2 (chain st) arr chains -> Forall2 (chain (alter (set_next q) x st)) arr chains.
Proof.
  intros Hx Hl. apply Forall2_same_length_lookup_2; [by eapply Forall2_length|].
  intros j p l Hp Hj. apply chain_alter; [|by eapply Forall2_lookup_lr].
  intros Hxl. apply Hx. by eapply elem_of_chains.
Qed.

(** Entries may move between chains of the same bucket numbers. *)
Lemma bucket_insert ht chains fl st' i l :
  wf ht chains fl -> same_data (store ht) st' -> (forall y, y ∈ l -> exists l', chains !! i = Some l' /\ y ∈ l') ->
  forall j lj y e, <[i := l]> chains !! j = Some lj -> y ∈ lj -> st' !! y = Some e ->
  entry_ok e /\ Z.land (hash e) (max ht) = Z.of_nat j.
Proof.
  intros H Hd Hl j lj y e Hj Hy He. destruct (same_data_inv _ _ _ _ Hd He) as (e0 & He0 & Hde).
  destruct (binding_data e0 e Hde) as (_ & -> & Hok).
  assert (Hc : exists l', chains !! j = Some l' /\ y ∈ l').
  { destruct (decide (j = i)) as [->|Hne].
    - pose proof (lookup_lt_Some _ _ _ Hj) as Hlt. rewrite length_insert in Hlt.
      rewrite list_lookup_insert_eq in Hj by done. simplify_eq. by apply Hl.
    - rewrite list_lookup_insert_ne in Hj by congruence. by exists lj. }
  destruct Hc as (l' & Hl' & Hy'). destruct (wf_bucket _ _ _ H j l' y e0 Hl' Hy' He0) as [H1 H2].
  split; [by apply Hok|done].
Qed.

Lemma delete_represents ht m k kl :
  represents ht m -> hf_key_ok k kl ->
  represents (apr_hash_set hash_func ht k kl None) (delete (kb k kl) m).
Proof.
  intros (chains & fl & H & ->) Hk. destruct (scan_wf ht chains fl k kl H Hk) as (l1 & l2 & Hi & Hs & Hm).
  unfold apr_hash_set, find_entry. rewrite (surjective_pairing (hash_func k kl)). cbv zeta in *. rewrite Hs.
  destruct l2 as [|x l2]; cbn [head].
  { rewrite (read_slot_after ht chains _ l1 []) by (done || apply (wf_links _ _ _ H)). cbn [head].
    exists chains, fl. split; [done|]. rewrite delete_id; [done|]. by apply bindings_absent. }
  rewrite (read_slot_after ht chains _ l1 (x :: l2)) by (done || apply (wf_links _ _ _ H)).
  destruct Hm as (e & He & Hke). cbn [head]. set (i := Z.to_nat _) in *.
  assert (Hn : read_slot ht (Next x) = next e) by (cbn [read_slot]; by rewrite He). rewrite Hn. clear Hs.
  destruct (Forall2_lookup_r _ _ _ _ _ (wf_links _ _ _ H) Hi) as (p & _ & Hc).
  pose proof (wf_nodup _ _ _ H) as Hnd. pose proof (take_out chains i l1 x l2 Hi) as Hto.
  assert (Hnd' : NoDup (concat (<[i := l1 ++ l2]> chains) ++ x :: fl)).
  { rewrite <- Permutation_middle. change (NoDup ((x :: concat (<[i := l1 ++ l2]> chains)) ++ fl)). by rewrite <- Hto. }
  apply NoDup_app in Hnd as (Hndc & Hdis & Hndf). pose proof (NoDup_concat_lookup _ _ _ Hndc Hi) as Hndi.
  apply NoDup_app in Hndi as (_ & Hd12 & _).
  destruct (write_slot_links ht chains i l1 (x :: l2) l2 (next e)) as (L1 & L2 & L3 & L4 & L5 & L6 & L7 & L8);
    [apply (wf_links _ _ _ H)|done|done|intros y Hy Hy1; apply (Hd12 y Hy1); by right|by apply (chain_tail _ l1 p x)|].
  set (ht1 := write_slot _ _ ht) in *. cbn [write_slot with_store store array brk count max free].
  apply NoDup_app in Hnd' as Hnd2. destruct Hnd2 as (_ & Hdis2 & _).
  assert (Hx : x ∉ concat (<[i := l1 ++ l2]> chains)) by (intros Hx; apply (Hdis2 x Hx); by left).
  assert (Hsd : same_data (store ht) (alter (set_next (free ht1)) x (store ht1)))
    by (eapply same_data_trans; [exact L3|apply same_data_set_next]).
  assert (Hx1 : exists e1, store ht1 !! x = Some e1).
  { specialize (L3 x). rewrite He in L3. destruct (store ht1 !! x) as [e1|]; [by exists e1|done]. }
  destruct Hx1 as [e1 He1].
  destruct (bindings_without (store ht) (concat chains) x e _ (wf_keys _ _ _ H) He Hto) as [Hk' Hm'].
  exists (<[i := l1 ++ l2]> chains), (x :: fl). split.
  - split; cbn [write_slot with_store store array brk count max free].
    + by apply links_alter_next.
    + split; [done|]. exists (set_next (free ht1) e1). rewrite lookup_alter_eq, He1. split; [done|].
      cbn [next set_next]. rewrite L7. apply chain_alter.
      { intros Hxf. apply (Hdis x); [|done]. rewrite Hto. by left. }
      apply L2; [|apply (wf_free _ _ _ H)]. intros y Hy Hy1. apply (Hdis y); [|done].
      eapply elem_of_chains; [exact Hi|]. apply elem_of_app. by left.
    + done.
    + rewrite L6. apply (wf_max _ _ _ H).
    + rewrite L8, L6. apply (wf_len _ _ _ H).
    + rewrite L6. apply (bucket_insert ht chains fl); [done|done|]. intros y Hy. exists (l1 ++ x :: l2).
      split; [done|]. apply elem_of_app in Hy as [Hy|Hy]; apply elem_of_app; [by left|right; by right].
    + intros y [ey Hy]. rewrite L4. apply (wf_brk _ _ _ H).
      destruct (same_data_inv _ _ _ _ Hsd Hy) as (e0 & He0 & _). by exists e0.
    + destruct (wf_count _ _ _ H) as [Hcn Hcb]. rewrite L5, Hcn in *. apply Permutation_length in Hto.
      unfold zlen in *. cbn [length] in Hto. rewrite u32_small by lia. lia.
    + by rewrite (bindings_same_data _ _ _ Hsd).
  - cbn [write_slot with_store store]. by rewrite (bindings_same_data _ _ _ Hsd), Hm', Hke.
Qed.

(** *** Adding a key *)

Lemma new_entry_spec ht chains fl :
  wf ht chains fl ->
  let '(x, ht1) := new_entry ht in
  exists fl', store ht1 = store ht /\ array ht1 = array ht /\ count ht1 = count ht /\ max ht1 = max ht /\
    chain (store ht) (free ht1) fl' /\ NoDup (concat chains ++ x :: fl') /\
    (x < brk ht1)%nat /\ (brk ht <= brk ht1)%nat.
Proof.
  intros H. pose proof (wf_free _ _ _ H) as Hf. pose proof (wf_nodup _ _ _ H) as Hnd.
  pose proof (wf_brk _ _ _ H) as Hb. pose proof (chains_dom _ _ _ (brk ht) H) as Hd. unfold new_entry.
  destruct fl as [|x fl]; cbn [chain] in Hf.
  - rewrite Hf. exists []. cbn [store array count max free brk]. repeat split; try done; [|lia|lia].
    rewrite <- Permutation_middle. apply NoDup_cons. split; [|done]. intros Hx. specialize (Hb _ (Hd Hx)). lia.
  - destruct Hf as [Hf (e & He & Hc)]. rewrite Hf. exists fl. cbn [store array count max free brk read_slot].
    rewrite He. repeat split; try done. apply Hb. by exists e.
Qed.

Lemma links_insert_entry st arr chains x e :
  x ∉ concat chains -> Forall2 (chain st) arr chains -> Forall2 (chain (<[x := e]> st)) arr chains.
Proof.
  intros Hx Hl. apply Forall2_same_length_lookup_2; [by eapply Forall2_length|].
  intros j p l Hp Hj. apply chain_insert; [|by eapply Forall2_lookup_lr].
  intros Hxl. apply Hx. by eapply elem_of_chains.
Qed.

(** The bindings after an entry was stored at a new address. *)
Lemma bindings_new st st' l x e :
  x ∉ l -> same_data (<[x := e]> st) st' ->
  bindings st' (x :: l) = binding e :: bindings st l.
Proof.
  intros Hx Hd. rewrite (bindings_same_data _ _ _ Hd).
  rewrite (bindings_cons _ x l e) by apply lookup_insert_eq. f_equal.
  apply bindings_ext. intros y Hy. by rewrite lookup_insert_ne by congruence.
Qed.

(** What [find_entry] with a value leaves: an entry of the key behind the slot. *)
Definition found ht' (hep : slot) (kb0 : list Z) (m : gmap (list Z) V) : Prop :=
  exists chains' fl' x e, wf ht' chains' fl' /\ read_slot ht' hep = Some x /\ x ∈ concat chains' /\
    store ht' !! x = Some e /\ ekey e = kb0 /\
    delete kb0 (list_to_map (bindings (store ht') (concat chains')) : gmap (list Z) V) = delete kb0 m.

Lemma bucket_add ht chains fl st' i l1 x e0 :
  wf ht chains fl -> same_data (<[x := e0]> (store ht)) st' -> x ∉ concat chains -> chains !! i = Some l1 ->
  entry_ok e0 -> Z.land (hash e0) (max ht) = Z.of_nat i ->
  forall j lj y e, <[i := l1 ++ [x]]> chains !! j = Some lj -> y ∈ lj -> st' !! y = Some e ->
  entry_ok e /\ Z.land (hash e) (max ht) = Z.of_nat j.
Proof.
  intros H Hd Hx Hi Hok0 Hb0 j lj y e Hj Hy He. destruct (same_data_inv _ _ _ _ Hd He) as (e1 & He1 & Hde).
  destruct (binding_data e1 e Hde) as (_ & -> & Hok).
  assert (Hold : forall l', chains !! j = Some l' -> y ∈ l' -> entry_ok e /\ Z.land (hash e1) (max ht) = Z.of_nat j).
  { intros l' Hl' Hy'. rewrite lookup_insert_ne in He1 by (intros ->; apply Hx; by eapply elem_of_chains).
    destruct (wf_bucket _ _ _ H j l' y e1 Hl' Hy' He1) as [H1 H2]. split; [by apply Hok|done]. }
  destruct (decide (j = i)) as [->|Hne].
  - rewrite list_lookup_insert_eq in Hj by (by eapply lookup_lt_Some). simplify_eq.
    apply elem_of_app in Hy as [Hy|Hy]; [by apply (Hold l1)|]. apply list_elem_of_singleton in Hy as ->.
    rewrite lookup_insert_eq in He1. simplify_eq. split; [by apply Hok|done].
  - rewrite list_lookup_insert_ne in Hj by congruence. by apply (Hold lj).
Qed.

Lemma add_entry ht chains fl i l1 k kl v m :
  wf ht chains fl -> hf_key_ok k kl -> zlen (concat chains) + 1 < 2 ^ 31 ->
  i = Z.to_nat (Z.land (fst (hash_func k kl)) (max ht)) -> chains !! i = Some l1 ->
  (forall x e, x ∈ concat chains -> store ht !! x = Some e -> ekey e <> kb k kl) ->
  m = list_to_map (bindings (store ht) (concat chains)) ->
  let '(x, ht1) := new_entry ht in
  let ht2 := with_store (<[x := mkEntry None (fst (hash_func k kl)) k (snd (hash_func k kl)) v]> (store ht1)) ht1 in
  let ht3 := write_slot (slot_after (Bucket i) l1) (Some x) ht2 in
  found (mkHash (store ht3) (brk ht3) (array ht3) (u32 (count ht3 + 1)) (max ht3) (free ht3))
    (slot_after (Bucket i) l1) (kb k kl) m.
Proof.
  intros H Hk Hcnt Hi Hl1 Hnew ->. pose proof (new_entry_spec ht chains fl H) as Hne.
  destruct (new_entry ht) as [x ht1]. destruct Hne as (fl' & E1 & E2 & E3 & E4 & Hfr & Hnd & Hxb & Hbb).
  set (e0 := mkEntry None _ k _ v). cbv zeta.
  assert (Hnx : (x ∉ concat chains) /\ x ∉ fl').
  { apply NoDup_app in Hnd as (_ & Hd & Hnd'). apply NoDup_cons in Hnd' as [Hx _]. split; [|done].
    intros Hc. apply (Hd x Hc). by left. }
  destruct Hnx as [Hxc Hxf]. rewrite E1. set (ht2 := with_store _ ht1).
  pose proof (wf_nodup _ _ _ H) as Hnd0. apply NoDup_app in Hnd0 as (Hndc & _ & _).
  assert (Hx2 : store ht2 !! x = Some e0) by apply lookup_insert_eq.
  destruct (write_slot_links ht2 chains i l1 [] [x] (Some x)) as (L1 & L2 & L3 & L4 & L5 & L6 & L7 & L8).
  { cbn [store array ht2 with_store]. rewrite E2. apply links_insert_entry; [done|apply (wf_links _ _ _ H)]. }
  { by rewrite app_nil_r. }
  { done. }
  { intros y ->%list_elem_of_singleton Hy. apply Hxc. by eapply elem_of_chains. }
  { split; [done|]. exists e0. done. }
  set (ht3 := write_slot _ _ ht2) in *. change (store ht2) with (<[x := e0]> (store ht)) in *.
  change (brk ht2) with (brk ht1) in *. change (count ht2) with (count ht1) in *.
  change (max ht2) with (max ht1) in *. change (free ht2) with (free ht1) in *.
  change (array ht2) with (array ht1) in *. pose proof (put_in chains i l1 x Hl1) as Hput.
  pose proof (bindings_new (store ht) (store ht3) (concat chains) x e0 Hxc L3) as Hbn.
  change (binding e0) with (kb k kl, v) in Hbn.
  assert (Hkeys : NoDup (bindings (store ht3) (x :: concat chains)).*1).
  { rewrite Hbn. cbn [fmap list_fmap fst]. apply NoDup_cons. split; [|apply (wf_keys _ _ _ H)].
    apply not_elem_of_list_to_map. by apply bindings_absent. }
  symmetry in Hput. destruct (list_to_map_bindings (store ht3) _ _ Hkeys Hput) as [Hk' Hm'].
  assert (Hx3 : exists e, store ht3 !! x = Some e /\ ekey e = kb k kl).
  { pose proof (L3 x) as Hd. rewrite lookup_insert_eq in Hd. destruct (store ht3 !! x) as [e|] eqn:E; [|done].
    exists e. split; [done|]. pose proof (f_equal (from_option id (data e)) Hd) as Hde. cbn in Hde.
    destruct (binding_data e0 e Hde) as [Hb _]. exact (f_equal fst Hb). }
  destruct Hx3 as (e & He & Hke).
  exists (<[i := l1 ++ [x]]> chains), fl', x, e. split; [|split; [|split; [|split; [done|split; [done|]]]]].
  - split; cbn [store array brk count max free]; [done| | | | | | | |done].
    + rewrite L7. apply L2; [|by apply chain_insert]. intros y Hy Hy1.
      apply NoDup_app in Hnd as (_ & Hd & _). apply (Hd y); [by eapply elem_of_chains|by right].
    + rewrite <- Hput. cbn [app]. by rewrite Permutation_middle.
    + rewrite L6, E4. apply (wf_max _ _ _ H).
    + rewrite L8, L6, E2, E4. apply (wf_len _ _ _ H).
    + rewrite L6, E4. apply (bucket_add ht chains fl _ i l1 x e0); try done.
      * split; [by apply hf_klen|by apply hf_spec].
      * rewrite Hi, Z2Nat.id; [done|]. by apply (land_max _ _ _ _ H).
    + intros y [ey Hy]. rewrite L4. destruct (same_data_inv _ _ _ _ L3 Hy) as (e1 & He1 & _).
      destruct (decide (y = x)) as [->|Hne]; [done|]. rewrite lookup_insert_ne in He1 by congruence.
      pose proof (wf_brk _ _ _ H y (mk_is_Some _ _ He1)). lia.
    + destruct (wf_count _ _ _ H) as [Hc1 Hc2]. rewrite L5, E3, Hc1. apply Permutation_length in Hput.
      unfold zlen in *. cbn [length] in Hput. rewrite u32_small by lia. lia.
  - apply (read_slot_after _ (<[i := l1 ++ [x]]> chains) i l1 [x]); [done|].
    apply list_lookup_insert_eq. by eapply lookup_lt_Some.
  - rewrite <- Hput. by left.
  - cbn [store]. rewrite <- Hm', Hbn. cbn [list_to_map foldr fst snd]. by rewrite delete_insert_eq.
Qed.

(** *** Iteration *)

(** The entries that an iterator has still to visit. *)
Definition iter_at ht (hi : apr_hash_index_t) (rest : list nat) : Prop :=
  0 <= index hi <= max ht + 1 /\
  exists l cs, chain (store ht) (hnext hi) l /\
    Forall2 (chain (store ht)) (drop (Z.to_nat (index hi)) (array ht)) cs /\ rest = l ++ concat cs.

(** The array has [max + 1] buckets, and an index fits into its type. *)
Definition sized ht : Prop := Z.of_nat (length (array ht)) = max ht + 1 /\ 0 <= max ht < 2 ^ 31.

Lemma wf_sized ht chains fl : wf ht chains fl -> sized ht.
Proof.
  intros H. split; [apply (wf_len _ _ _ H)|]. destruct (wf_max _ _ _ H) as (n & Hn & ->).
  assert (2 ^ n <= 2 ^ 31) by (apply Z.pow_le_mono_r; lia). assert (0 < 2 ^ n) by lia. lia.
Qed.

Lemma skip_spec ht fuel : sized ht -> forall idx p l cs,
  0 <= idx <= max ht + 1 -> chain (store ht) p l ->
  Forall2 (chain (store ht)) (drop (Z.to_nat idx) (array ht)) cs -> (length cs < fuel)%nat ->
  match l ++ concat cs with
  | [] => skip_empty fuel ht idx p = None
  | x :: rest => exists idx' e, skip_empty fuel ht idx p = Some (Some x, idx') /\ store ht !! x = Some e /\
      iter_at ht (mkIndex (Some x) (next e) idx') rest
  end.
Proof.
  intros [Hlen Hmax]. induction fuel as [|fuel IH]; intros idx p l cs Hi Hc Hcs Hf; [lia|].
  destruct l as [|x l]; cbn [app].
  2: { destruct Hc as [-> (e & He & Hc)]. exists idx, e. split; [done|]. split; [done|]. split; [done|].
       by exists l, cs. }
  cbn in Hc. subst p. cbn [skip_empty]. destruct (idx >? max ht) eqn:E; zbool.
  - rewrite drop_ge in Hcs by lia. by inversion Hcs.
  - destruct (drop (Z.to_nat idx) (array ht)) as [|q arr'] eqn:Ed.
    { apply (f_equal length) in Ed. rewrite length_drop in Ed. cbn in Ed. lia. }
    assert (Hq : znth None (array ht) idx = q).
    { unfold znth. rewrite nth_lookup. rewrite <- (Nat.add_0_r (Z.to_nat idx)), <- lookup_drop, Ed. done. }
    assert (Ed' : drop (Z.to_nat (idx + 1)) (array ht) = arr').
    { replace (Z.to_nat (idx + 1)) with (Z.to_nat idx + 1)%nat by lia. by rewrite <- drop_drop, Ed. }
    inversion Hcs as [|q' c arr'' cs' Hqc Hcs']; subst. rewrite u32_small by lia. cbn [concat].
    specialize (IH (idx + 1) (znth None (array ht) idx) c cs'). apply IH; [lia|done|done|cbn in Hf; lia].
Qed.

Lemma iter_next_spec ht hi rest :
  sized ht -> iter_at ht hi rest ->
  match rest with
  | [] => apr_hash_next ht hi = None
  | x :: rest' => exists hi', apr_hash_next ht hi = Some hi' /\ this hi' = Some x /\ iter_at ht hi' rest'
  end.
Proof.
  intros Hs (Hi & l & cs & Hc & Hcs & ->). unfold apr_hash_next.
  pose proof (Forall2_length _ _ _ Hcs) as Hl. rewrite length_drop in Hl.
  pose proof (skip_spec ht (S (length (array ht))) Hs (index hi) (hnext hi) l cs Hi Hc Hcs ltac:(lia)) as H.
  destruct (l ++ concat cs) as [|x rest]; [by rewrite H|]. destruct H as (idx' & e & -> & He & Hit).
  rewrite He. by exists (mkIndex (Some x) (next e) idx').
Qed.

Lemma first_iter ht chains fl : wf ht chains fl -> iter_at ht (mkIndex None None 0) (concat chains).
Proof.
  intros H. pose proof (wf_sized _ _ _ H) as [_ Hm]. split; [cbn; lia|]. exists [], chains. cbn [hnext index].
  rewrite drop_0. split; [done|]. split; [apply (wf_links _ _ _ H)|done].
Qed.

(** The entries a client of the iterator sees, in order. *)
Fixpoint traverse (fuel : nat) ht (hi : option apr_hash_index_t) : list (list Z * Z * V) :=
  match fuel, hi with
  | S fuel, Some hi => option_list (apr_hash_this ht hi) ++ traverse fuel ht (apr_hash_next ht hi)
  | _, _ => []
  end.

Definition seen (e : apr_hash_entry_t V) : list Z * Z * V := (key e, klen e, val e).

Lemma traverse_spec ht : sized ht -> forall rest fuel hi,
  (forall x, x ∈ rest -> is_Some (store ht !! x)) -> (length rest < fuel)%nat ->
  iter_at ht hi rest -> traverse fuel ht (apr_hash_next ht hi) = omap (fun x => seen <$> store ht !! x) rest.
Proof.
  intros Hs. induction rest as [|x rest IH]; intros fuel hi Hd Hf Hi; pose proof (iter_next_spec ht hi _ Hs Hi) as Hn.
  - rewrite Hn. by destruct fuel.
  - destruct Hn as (hi' & -> & Ht & Hi'). destruct fuel as [|fuel]; [cbn in Hf; lia|]. cbn [traverse].
    rewrite (IH fuel hi'); [|intros y Hy; apply Hd; by right|cbn in Hf; lia|done].
    unfold apr_hash_this. rewrite Ht. destruct (Hd x) as [e He]; [by left|].
    cbn [omap list_omap]. rewrite He. done.
Qed.

(** *** Expansion *)

Lemma push_front st na (nc : list (list nat)) i p li x e :
  Forall2 (chain st) na nc -> x ∉ concat nc -> na !! i = Some p -> nc !! i = Some li -> next e = p ->
  Forall2 (chain (<[x := e]> st)) (<[i := Some x]> na) (<[i := x :: li]> nc) /\
  concat (<[i := x :: li]> nc) ≡ₚ x :: concat nc.
Proof.
  intros Hl Hx Hp Hli Hn. split.
  - apply Forall2_insert; [by apply links_insert_entry|]. split; [done|]. exists e.
    split; [apply lookup_insert_eq|]. rewrite Hn. apply chain_insert; [|by eapply Forall2_lookup_lr].
    intros Hxl. apply Hx. by eapply elem_of_chains.
  - rewrite (concat_insert nc _ _ _ Hli). by rewrite (concat_pick nc _ _ Hli).
Qed.

Lemma relink_spec st na (nc : list (list nat)) new_max x e li :
  st !! x = Some e -> Forall2 (chain st) na nc -> x ∉ concat nc ->
  0 <= Z.land (hash e) new_max -> nc !! Z.to_nat (Z.land (hash e) new_max) = Some li ->
  let '(st', na') := relink new_max x st na in
  Forall2 (chain st') na' (<[Z.to_nat (Z.land (hash e) new_max) := x :: li]> nc) /\
  same_data st st' /\ (exists e', st' = <[x := e']> st) /\ length na' = length na.
Proof.
  intros He Hl Hx Hi Hli. unfold relink. rewrite He. set (i := Z.to_nat _) in *.
  destruct (Forall2_lookup_r _ _ _ _ _ Hl Hli) as (p & Hp & Hc).
  assert (Hz : znth None na (Z.land (hash e) new_max) = p) by (unfold znth; by rewrite nth_lookup; fold i; rewrite Hp).
  rewrite Hz. set (st' := <[x := set_next p e]> st).
  split; [|split; [|split; [by eexists|by rewrite length_insert]]].
  - by apply (push_front st na nc i p li x).
  - intros y. unfold st'. destruct (decide (y = x)) as [->|Hne].
    + rewrite lookup_insert_eq, He. done.
    + by rewrite lookup_insert_ne by congruence.
Qed.

Lemma iter_at_insert ht hi rest x e :
  x ∉ rest -> iter_at ht hi rest -> iter_at (with_store (<[x := e]> (store ht)) ht) hi rest.
Proof.
  intros Hx (Hi & l & cs & Hc & Hcs & ->). split; [done|]. exists l, cs. cbn [store array with_store].
  split; [apply chain_insert; [intros Hxl; apply Hx, elem_of_app; by left|done]|].
  split; [|done]. apply links_insert_entry; [intros Hxl; apply Hx, elem_of_app; by right|done].
Qed.

(** Every entry of [l] is in the bucket of its hash. *)
Definition in_buckets (new_max : Z) st (nc : list (list nat)) : Prop :=
  forall j lj y e, nc !! j = Some lj -> y ∈ lj -> st !! y = Some e -> Z.land (hash e) new_max = Z.of_nat j.

Lemma in_buckets_same_data new_max st st' nc :
  same_data st st' -> in_buckets new_max st nc -> in_buckets new_max st' nc.
Proof.
  intros Hd H j lj y e Hj Hy He. destruct (same_data_inv _ _ _ _ Hd He) as (e0 & He0 & Hde).
  destruct (binding_data e0 e Hde) as (_ & -> & _). by apply (H j lj y).
Qed.

Lemma in_buckets_push new_max st nc x e li :
  in_buckets new_max st nc -> st !! x = Some e -> 0 <= Z.land (hash e) new_max ->
  nc !! Z.to_nat (Z.land (hash e) new_max) = Some li ->
  in_buckets new_max st (<[Z.to_nat (Z.land (hash e) new_max) := x :: li]> nc).
Proof.
  intros H He Hp Hi j lj y ey Hj Hy Hey. destruct (decide (j = Z.to_nat (Z.land (hash e) new_max))) as [->|Hne].
  - rewrite list_lookup_insert_eq in Hj by (by eapply lookup_lt_Some). simplify_eq.
    apply elem_of_cons in Hy as [->|Hy]; [|by apply (H _ li y)]. simplify_eq. by rewrite Z2Nat.id.
  - rewrite list_lookup_insert_ne in Hj by congruence. by apply (H j lj y).
Qed.

(** The iterator [hi] stands at the head of [rem]. *)
Definition visiting ht (hi : option apr_hash_index_t) (rem : list nat) : Prop :=
  match rem with
  | [] => hi = None
  | x :: rest => exists hi', hi = Some hi' /\ this hi' = Some x /\ iter_at ht hi' rest
  end.

Lemma expand_loop_spec new_max : forall rem fuel ht na nc hi,
  sized ht -> visiting ht hi rem -> (length rem <= fuel)%nat -> NoDup (concat nc ++ rem) ->
  (forall h, 0 <= Z.land h new_max < Z.of_nat (length na)) ->
  (forall x, x ∈ rem -> is_Some (store ht !! x)) ->
  Forall2 (chain (store ht)) na nc -> in_buckets new_max (store ht) nc ->
  exists st' na' nc', expand_loop fuel ht new_max na hi = (with_store st' ht, na') /\
    Forall2 (chain st') na' nc' /\ concat nc' ≡ₚ concat nc ++ rem /\ same_data (store ht) st' /\
    (forall l p, (forall x, x ∈ l -> x ∉ rem) -> chain (store ht) p l -> chain st' p l) /\
    length na' = length na /\ in_buckets new_max st' nc'.
Proof.
  induction rem as [|x rem IH]; intros fuel ht na nc hi Hs Hv Hf Hnd Hb Hd Hl Hin.
  { cbn in Hv. subst hi. exists (store ht), na, nc. rewrite app_nil_r. destruct ht. by destruct fuel. }
  destruct Hv as (hi' & -> & Ht & Hit). destruct fuel as [|fuel]; [cbn in Hf; lia|]. cbn [expand_loop]. rewrite Ht.
  destruct (Hd x) as [e He]; [by left|].
  assert (Hx : (x ∉ concat nc) /\ x ∉ rem).
  { rewrite <- Permutation_middle in Hnd. apply NoDup_cons in Hnd as [Hx _].
    split; intros Hc; apply Hx, elem_of_app; tauto. }
  destruct Hx as [Hxn Hxr]. specialize (Hb (hash e)) as Hbe.
  assert (Hli : is_Some (nc !! Z.to_nat (Z.land (hash e) new_max))).
  { apply lookup_lt_is_Some. rewrite <- (Forall2_length _ _ _ Hl). lia. }
  destruct Hli as [li Hli]. pose proof (relink_spec (store ht) na nc new_max x e li He Hl Hxn ltac:(lia) Hli) as Hr.
  destruct (relink new_max x (store ht) na) as [st1 na1]. destruct Hr as (R1 & R2 & (e' & ->) & R4).
  set (ht1 := with_store (<[x := e']> (store ht)) ht).
  assert (Hit1 : iter_at ht1 hi' rem) by (by apply iter_at_insert).
  assert (Hp : concat (<[Z.to_nat (Z.land (hash e) new_max) := x :: li]> nc) ≡ₚ x :: concat nc).
  { rewrite (concat_insert nc _ _ _ Hli). by rewrite (concat_pick nc _ _ Hli). }
  destruct (IH fuel ht1 na1 (<[Z.to_nat (Z.land (hash e) new_max) := x :: li]> nc) (apr_hash_next ht1 hi'))
    as (st' & na' & nc' & I1 & I2 & I3 & I4 & I5 & I6 & I7).
  - done.
  - pose proof (iter_next_spec ht1 hi' rem Hs Hit1) as Hn. by destruct rem.
  - cbn in Hf. lia.
  - rewrite Hp. cbn [app]. by rewrite Permutation_middle.
  - by rewrite R4.
  - intros y Hy. cbn [store with_store ht1]. rewrite lookup_insert_ne by congruence. apply Hd. by right.
  - done.
  - eapply in_buckets_same_data; [exact R2|]. apply in_buckets_push; [done|done|lia|done].
  - exists st', na', nc'. split; [exact I1|]. split; [done|]. split.
    { rewrite I3, Hp. cbn [app]. by rewrite Permutation_middle. }
    split; [by eapply same_data_trans|]. split; [|split; [lia|done]].
    intros l p Hdis Hc. apply I5; [intros y Hy Hyr; apply (Hdis y Hy); by right|].
    apply chain_insert; [|done]. intros Hxl. apply (Hdis x Hxl). by left.
Qed.

Lemma alloc_array_spec (new_max : Z) st :
  0 <= new_max < 2 ^ 32 - 1 ->
  Z.of_nat (length (alloc_array new_max)) = new_max + 1 /\
  Forall2 (chain st) (alloc_array new_max) (repeat [] (length (alloc_array new_max))).
Proof.
  intros Hm. unfold alloc_array. rewrite u32_small, repeat_length by lia. split; [lia|].
  induction (Z.to_nat (new_max + 1)) as [|n IH]; constructor; done.
Qed.

Lemma concat_repeat_nil {A} n : concat (repeat ([] : list A) n) = [].
Proof. induction n as [|n IH]; [done|]. exact IH. Qed.

Lemma in_buckets_nil new_max st n : in_buckets new_max st (repeat [] n).
Proof.
  intros j lj y e Hj Hy. apply list_elem_of_lookup_2, list_elem_of_In, repeat_spec in Hj. subst.
  by apply elem_of_nil in Hy.
Qed.

Lemma land_ones_max n h : 0 <= n -> 0 <= Z.land h (2 ^ n - 1) < 2 ^ n.
Proof.
  intros Hn. replace (2 ^ n - 1) with (Z.ones n) by (rewrite Z.ones_equiv; lia). rewrite Z.land_ones by lia.
  apply Z.mod_pos_bound. lia.
Qed.

Lemma expand_represents ht m :
  represents ht m -> max ht < count ht -> represents (expand_array ht) m.
Proof.
  intros (chains & fl & H & ->) Hgt. destruct (wf_max _ _ _ H) as (n & Hn & Hmax).
  destruct (wf_count _ _ _ H) as [Hc1 Hc2].
  assert (Hn30 : n < 31) by (destruct (Z.eq_dec n 31) as [->|]; lia).
  assert (H2n : 2 ^ (n + 1) = 2 * 2 ^ n) by (rewrite Z.pow_add_r by lia; lia).
  assert (Hub : 2 ^ (n + 1) <= 2 ^ 31) by (apply Z.pow_le_mono_r; lia). assert (Hpos : 0 < 2 ^ n) by lia.
  unfold expand_array. assert (Hnm : u32 (max ht * 2 + 1) = 2 ^ (n + 1) - 1) by (rewrite u32_small; lia).
  rewrite Hnm. set (nm := 2 ^ (n + 1) - 1). destruct (alloc_array_spec nm (store ht)) as [Hal Hal2]; [lia|].
  pose proof (wf_nodup _ _ _ H) as Hnd. apply NoDup_app in Hnd as (Hndc & Hdis & _).
  set (na0 := alloc_array nm) in *.
  assert (Hdom : forall x, x ∈ concat chains -> is_Some (store ht !! x))
    by (intros x Hx; apply (chains_dom ht chains fl x H), elem_of_app; by left).
  destruct (expand_loop_spec nm (concat chains) (S (size (store ht))) ht na0 (repeat [] (length na0)) (apr_hash_first ht))
    as (st' & na' & nc' & -> & I2 & I3 & I4 & I5 & I6 & I7).
  - by apply (wf_sized _ chains fl).
  - pose proof (iter_next_spec ht _ _ (wf_sized _ _ _ H) (first_iter _ _ _ H)) as Hv. by destruct (concat chains).
  - pose proof (fuel_enough (store ht) _ Hndc Hdom). lia.
  - by rewrite concat_repeat_nil.
  - intros h. rewrite Hal. pose proof (land_ones_max (n + 1) h ltac:(lia)) as Hh. fold nm in Hh. lia.
  - done.
  - done.
  - apply in_buckets_nil.
  - rewrite concat_repeat_nil in I3. cbn [app] in I3. symmetry in I3.
    destruct (list_to_map_bindings (store ht) _ _ (wf_keys _ _ _ H) I3) as [Hk Hm].
    exists nc', fl. split; [|cbn [store with_store]; by rewrite (bindings_same_data _ _ _ I4)].
    split; cbn [store array brk count max free with_store]; try done.
    + apply I5; [|apply (wf_free _ _ _ H)]. intros x Hx Hxc. by apply (Hdis x).
    + rewrite <- I3. apply (wf_nodup _ _ _ H).
    + exists (n + 1). split; [lia|done].
    + rewrite I6. exact Hal.
    + intros j lj y e Hj Hy He. split; [|by apply (I7 j lj y)].
      destruct (same_data_inv _ _ _ _ I4 He) as (e0 & He0 & Hde). destruct (binding_data e0 e Hde) as (_ & _ & Hok).
      apply Hok. assert (Hyc : y ∈ concat chains) by (rewrite I3; by eapply elem_of_chains).
      apply in_chains in Hyc as (i & l & Hi & Hy'). by apply (wf_bucket _ _ _ H i l y).
    + intros y [e He]. destruct (same_data_inv _ _ _ _ I4 He) as (e0 & He0 & _). apply (wf_brk _ _ _ H). by exists e0.
    + unfold zlen. rewrite <- (Permutation_length I3). done.
    + by rewrite (bindings_same_data _ _ _ I4).
Qed.

(** *** Replacing a value *)

Lemma set_val_lookup st x v y :
  alter (set_val v) x st !! y = (if decide (y = x) then set_val v <$> st !! y else st !! y).
Proof.
  destruct (decide (y = x)) as [->|Hne]; [by rewrite lookup_alter_eq|by rewrite lookup_alter_ne by congruence].
Qed.

Lemma set_val_inv st x v y e' :
  alter (set_val v) x st !! y = Some e' ->
  exists e, st !! y = Some e /\ ekey e' = ekey e /\ hash e' = hash e /\ (entry_ok e -> entry_ok e').
Proof.
  rewrite set_val_lookup. destruct (decide (y = x)) as [->|Hne].
  - destruct (st !! x) as [e|]; [|done]. intros [= <-]. by exists e.
  - intros He. by exists e'.
Qed.

Lemma bindings_set_val st x v l : (bindings (alter (set_val v) x st) l).*1 = (bindings st l).*1.
Proof.
  unfold bindings. induction l as [|y l IH]; [done|]. cbn [omap list_omap]. rewrite set_val_lookup.
  destruct (decide (y = x)) as [->|]; destruct (st !! _) as [e|]; cbn; by rewrite IH.
Qed.

Lemma replace_represents ht chains fl x e v :
  wf ht chains fl -> x ∈ concat chains -> store ht !! x = Some e ->
  represents (with_store (alter (set_val v) x (store ht)) ht)
    (<[ekey e := v]> (list_to_map (bindings (store ht) (concat chains)))).
Proof.
  intros H Hx He. apply elem_of_Permutation in Hx as [rest Hrest].
  set (st' := alter (set_val v) x (store ht)).
  assert (Hk' : NoDup (bindings st' (concat chains)).*1) by (unfold st'; rewrite bindings_set_val; apply (wf_keys _ _ _ H)).
  exists chains, fl. split.
  - split; cbn [store array brk count max free with_store]; try apply H.
    + apply Forall2_same_length_lookup_2; [by eapply Forall2_length, wf_links|]. intros j p l Hp Hj.
      apply chain_set_val. by eapply Forall2_lookup_lr; [apply (wf_links _ _ _ H)|..].
    + apply chain_set_val, (wf_free _ _ _ H).
    + intros i l y ey Hi Hy Hey. destruct (set_val_inv _ _ _ _ _ Hey) as (e0 & He0 & _ & -> & Hok).
      destruct (wf_bucket _ _ _ H i l y e0 Hi Hy He0) as [H1 H2]. split; [by apply Hok|done].
    + intros y [ey Hey]. destruct (set_val_inv _ _ _ _ _ Hey) as (e0 & He0 & _). apply (wf_brk _ _ _ H). by exists e0.
    + done.
  - cbn [store with_store]. destruct (list_to_map_bindings st' _ _ Hk' Hrest) as [Hk2 ->].
    destruct (list_to_map_bindings (store ht) _ _ (wf_keys _ _ _ H) Hrest) as [_ ->].
    assert (Hxr : x ∉ rest).
    { pose proof (wf_nodup _ _ _ H) as Hnd. apply NoDup_app in Hnd as (Hnd & _ & _). rewrite Hrest in Hnd.
      by apply NoDup_cons in Hnd as [Hxr _]. }
    assert (Hx' : st' !! x = Some (set_val v e)) by (unfold st'; by rewrite lookup_alter_eq, He).
    rewrite (bindings_cons _ _ _ _ He), (bindings_cons _ _ _ _ Hx').
    rewrite (bindings_ext (store ht) st' rest) by
      (intros y Hy; unfold st'; by rewrite lookup_alter_ne by congruence).
    cbn [list_to_map foldr fst snd binding]. change (ekey (set_val v e)) with (ekey e). by rewrite insert_insert_eq.
Qed.

Lemma find_some ht chains fl k kl v :
  wf ht chains fl -> hf_key_ok k kl -> zlen (concat chains) + 1 < 2 ^ 31 ->
  let '(hep, ht') := find_entry hash_func ht k kl (Some v) in
  found ht' hep (kb k kl) (list_to_map (bindings (store ht) (concat chains))).
Proof.
  intros H Hk Hc. destruct (scan_wf ht chains fl k kl H Hk) as (l1 & l2 & Hi & Hs & Hm).
  unfold find_entry. rewrite (surjective_pairing (hash_func k kl)). cbv zeta in *. rewrite Hs.
  destruct l2 as [|x l2]; cbn [head].
  - rewrite app_nil_r in Hi.
    pose proof (add_entry ht chains fl _ l1 k kl v _ H Hk Hc eq_refl Hi Hm eq_refl) as Ha.
    destruct (new_entry ht) as [x ht1]. exact Ha.
  - destruct Hm as (e & He & Hke). exists chains, fl, x, e.
    split; [done|]. split; [exact (read_slot_after ht chains _ l1 (x :: l2) (wf_links _ _ _ H) Hi)|].
    split; [eapply elem_of_chains; [done|apply elem_of_app; right; by left]|done].
Qed.

Lemma bindings_length st l : (forall x, x ∈ l -> is_Some (st !! x)) -> length (bindings st l) = length l.
Proof.
  unfold bindings. induction l as [|x l IH]; intros Hd; [done|]. cbn [omap list_omap].
  destruct (Hd x) as [e He]; [by left|]. rewrite He. cbn. f_equal. apply IH. intros y Hy. apply Hd. by right.
Qed.

Lemma size_represents ht m : represents ht m -> Z.of_nat (size m) = count ht /\ count ht < 2 ^ 31.
Proof.
  intros (chains & fl & H & ->). destruct (wf_count _ _ _ H) as [Hc Hb]. split; [|done]. rewrite Hc.
  rewrite <- size_dom, dom_list_to_map_L, size_list_to_set by apply (wf_keys _ _ _ H). rewrite length_fmap.
  unfold zlen. f_equal. apply bindings_length. intros x Hx.
  apply (chains_dom ht chains fl x H), elem_of_app. by left.
Qed.

Lemma set_represents ht m k kl v :
  represents ht m -> hf_key_ok k kl -> Z.of_nat (size m) + 1 < 2 ^ 31 ->
  represents (apr_hash_set hash_func ht k kl (Some v)) (<[kb k kl := v]> m).
Proof.
  intros Hrep Hk Hsz. destruct (size_represents ht m Hrep) as [Hs _].
  destruct Hrep as (chains & fl & H & ->). destruct (wf_count _ _ _ H) as [Hc _].
  pose proof (find_some ht chains fl k kl v H Hk ltac:(lia)) as Hf. unfold apr_hash_set.
  destruct (find_entry hash_func ht k kl (Some v)) as [hep ht']. destruct Hf as (chains' & fl' & x & e & H' & -> & Hx & He & Hke & Hdel).
  pose proof (replace_represents ht' chains' fl' x e v H' Hx He) as Hr. rewrite Hke in Hr.
  assert (Hm : <[kb k kl := v]> (list_to_map (bindings (store ht') (concat chains'))) =
    <[kb k kl := v]> (list_to_map (bindings (store ht) (concat chains))) :> gmap (list Z) V).
  { rewrite <- (insert_delete_eq (list_to_map (bindings (store ht') _))), Hdel. by rewrite insert_delete_eq. }
  rewrite Hm in Hr. cbv zeta. destruct (_ >? _) eqn:E; zbool; [|done]. apply expand_represents; [done|lia].
Qed.

(** *** Copies *)

Lemma chain_entries_spec st l : forall p fuel, chain st p l -> (length l < fuel)%nat ->
  Forall2 (fun x e => st !! x = Some e) l (chain_entries fuel st p).
Proof.
  induction l as [|x l IH]; intros p fuel Hc Hf; (destruct fuel as [|fuel]; [cbn in Hf; lia|]).
  - cbn in Hc. subst p. constructor.
  - destruct Hc as [-> (e & He & Hc)]. cbn [chain_entries]. rewrite He. constructor; [done|].
    apply IH; [done|cbn in Hf; lia].
Qed.

Lemma bucket_entries_spec ht chains fl i l : wf ht chains fl -> chains !! i = Some l ->
  Forall2 (fun x e => store ht !! x = Some e) l (bucket_entries ht i).
Proof.
  intros H Hi. destruct (Forall2_lookup_r _ _ _ _ _ (wf_links _ _ _ H) Hi) as (p & Hp & Hc).
  unfold bucket_entries. rewrite nth_lookup, Hp. apply chain_entries_spec; [done|].
  pose proof (wf_nodup _ _ _ H) as Hnd. apply NoDup_app in Hnd as (Hnd & _ & _).
  apply fuel_enough; [by apply (NoDup_concat_lookup chains i)|intros x; by apply (chain_dom _ _ p)].
Qed.

Lemma all_entries_spec ht chains fl : wf ht chains fl ->
  Forall2 (fun x e => store ht !! x = Some e) (concat chains) (all_entries ht).
Proof.
  intros H. pose proof (wf_len _ _ _ H) as Hlen. rewrite (Forall2_length _ _ _ (wf_links _ _ _ H)) in Hlen.
  unfold all_entries. replace (Z.to_nat (max ht + 1)) with (length chains) by lia.
  pose proof (bucket_entries_spec ht chains fl) as Hb. specialize (fun i l => Hb i l H) as Hb'. clear Hb Hlen H fl.
  assert (Hg : forall n, (n <= length chains)%nat ->
    Forall2 (fun x e => store ht !! x = Some e) (concat (take n chains)) (concat (map (bucket_entries ht) (seq 0 n)))).
  { induction n as [|n IH]; intros Hn; [constructor|].
    destruct (lookup_lt_is_Some_2 chains n Hn) as [l Hl]. rewrite (take_S_r _ _ _ Hl), seq_S, map_app, !concat_app.
    apply Forall2_app; [apply IH; lia|]. cbn [map concat Nat.add]. rewrite !app_nil_r. by apply Hb'. }
  specialize (Hg (length chains) ltac:(lia)). by rewrite firstn_all in Hg.
Qed.

(** [x] is a copy of the entry [e]. *)
Definition copy_of st (x : nat) (e : apr_hash_entry_t V) : Prop :=
  exists e', st !! x = Some e' /\ data e' = data e.

Definition slot_ok ht (j : nat) (s : slot) : Prop :=
  match s with
  | Bucket i => (i < length (array ht))%nat
  | Next y => (y < j)%nat /\ is_Some (store ht !! y)
  end.

Record copied ht ht' (s : slot) (j : nat) (es : list (apr_hash_entry_t V)) : Prop := {
  cp_chain : chain (store ht') (read_slot ht' s) (seq j (length es));
  cp_old : forall z, (z < j)%nat -> s <> Next z -> store ht' !! z = store ht !! z;
  cp_link : forall y, s = Next y -> data <$> store ht' !! y = data <$> store ht !! y;
  cp_array : array ht' = match s with Bucket i => <[i := read_slot ht' s]> (array ht) | Next _ => array ht end;
  cp_copies : Forall2 (copy_of (store ht')) (seq j (length es)) es;
  cp_new : forall z, is_Some (store ht' !! z) -> is_Some (store ht !! z) \/ (z < j + length es)%nat;
  cp_same : brk ht' = brk ht /\ count ht' = count ht /\ max ht' = max ht /\ free ht' = free ht
}.

Lemma copied_nil ht j s : slot_ok ht j s -> copied ht (write_slot s None ht) s j [].
Proof.
  intros Hs. destruct s as [i|y]; cbn [slot_ok write_slot] in *.
  - split; cbn [with_array store array read_slot brk count max free seq length]; try done.
    + by rewrite nth_lookup, list_lookup_insert_eq.
    + by rewrite nth_lookup, list_lookup_insert_eq.
    + intros z Hz. by left.
  - destruct Hs as [Hy [ey Hey]].
    split; cbn [with_store store array read_slot brk count max free seq length]; try done.
    + by rewrite lookup_alter_eq, Hey.
    + intros z Hz Hne. by rewrite lookup_alter_ne by congruence.
    + intros z [= <-]. apply same_data_set_next.
    + intros z Hz. left. by apply lookup_alter_is_Some in Hz.
Qed.

(** A link written once, seen from the other addresses. *)
Lemma write_slot_other ht j s q z :
  slot_ok ht j s -> (s <> Next z -> store (write_slot s q ht) !! z = store ht !! z) /\
  data <$> store (write_slot s q ht) !! z = data <$> store ht !! z.
Proof.
  intros Hs. destruct s as [i|y]; cbn [write_slot with_array with_store store]; [done|]. split.
  - intros Hne. by rewrite lookup_alter_ne by congruence.
  - apply same_data_set_next.
Qed.

Lemma copied_cons gn ht ht' s j e es :
  slot_ok ht j s ->
  let ht1 := write_slot s (Some j) ht in
  let ht2 := with_store (<[j := mkEntry gn (hash e) (key e) (klen e) (val e)]> (store ht1)) ht1 in
  copied ht2 ht' (Next j) (S j) es -> copied ht ht' s j (e :: es).
Proof.
  intros Hs ht1 ht2 [C1 C2 C3 C4 C5 C6 C7].
  assert (Hold : forall z, (z < j)%nat -> store ht' !! z = store ht1 !! z).
  { intros z Hz. rewrite C2 by (lia || (intros [= ->]; lia)). cbn [ht2 with_store store].
    by rewrite lookup_insert_ne by lia. }
  specialize (C3 j eq_refl) as Hj. cbn [ht2 with_store store] in Hj. rewrite lookup_insert_eq in Hj.
  destruct (store ht' !! j) as [e'|] eqn:He'; [|done].
  pose proof (f_equal (from_option id (data e')) Hj) as Hde. cbn in Hde.
  assert (Hread : read_slot ht' s = Some j).
  { destruct s as [i|y]; cbn [read_slot slot_ok] in *.
    - rewrite C4. cbn [ht2 ht1 with_store write_slot with_array array].
      by rewrite nth_lookup, list_lookup_insert_eq.
    - destruct Hs as [Hy [ey Hey]]. rewrite Hold by done. cbn [ht1 write_slot with_store store].
      by rewrite lookup_alter_eq, Hey. }
  split; cbn [length seq].
  - rewrite Hread. split; [done|]. exists e'. split; [done|]. cbn [read_slot] in C1. by rewrite He' in C1.
  - intros z Hz Hne. rewrite Hold by done. by apply (write_slot_other ht j s (Some j) z).
  - intros y ->. destruct Hs as [Hy _]. rewrite Hold by done. apply same_data_set_next.
  - rewrite Hread, C4. by destruct s.
  - constructor; [by exists e'|done].
  - intros z Hz. destruct (C6 z Hz) as [Hz2|Hz2]; [|right; lia]. cbn [ht2 with_store store] in Hz2.
    destruct (decide (z = j)) as [->|Hne]; [right; lia|]. rewrite lookup_insert_ne in Hz2 by congruence. left.
    destruct (write_slot_other ht j s (Some j) z Hs) as [_ Hd]. fold ht1 in Hd.
    destruct Hz2 as [e2 He2]. rewrite He2 in Hd. by destruct (store ht !! z) as [e3|]; [by exists e3|].
  - destruct C7 as (-> & -> & -> & ->). by destruct s.
Qed.

Lemma copy_chain_spec gn es : forall s j ht, slot_ok ht j s ->
  exists ht', copy_chain gn es s j ht = (ht', (j + length es)%nat) /\ copied ht ht' s j es.
Proof.
  induction es as [|e es IH]; intros s j ht Hs; cbn [copy_chain length].
  - exists (write_slot s None ht). rewrite Nat.add_0_r. split; [done|]. by apply copied_nil.
  - set (ht2 := with_store _ _). destruct (IH (Next j) (S j) ht2) as (ht' & -> & Hc).
    { split; [lia|]. eexists. apply lookup_insert_eq. }
    exists ht'. split; [f_equal; lia|]. by apply (copied_cons gn).
Qed.

(** The outer loop: the buckets below [n] are done. *)
Record copying orig ht0 ht (n j : nat) (nc : list (list nat)) : Prop := {
  cg_links : Forall2 (chain (store ht)) (take n (array ht)) nc;
  cg_len : length (array ht) = length (array ht0);
  cg_seq : concat nc = seq 0 j;
  cg_copies : Forall2 (fun l i => Forall2 (copy_of (store ht)) l (bucket_entries orig i)) nc (seq 0 n);
  cg_dom : forall z, is_Some (store ht !! z) -> (z < j)%nat;
  cg_same : brk ht = brk ht0 /\ count ht = count ht0 /\ max ht = max ht0 /\ free ht = free ht0
}.

Lemma copying_step gn orig ht0 ht n j nc :
  (n < length (array ht0))%nat -> copying orig ht0 ht n j nc ->
  exists ht' nc', copy_chain gn (bucket_entries orig n) (Bucket n) j ht =
    (ht', (j + length (bucket_entries orig n))%nat) /\
    copying orig ht0 ht' (S n) (j + length (bucket_entries orig n)) nc'.
Proof.
  intros Hn [G1 G2 G3 G4 G5 G6]. set (es := bucket_entries orig n).
  destruct (copy_chain_spec gn es (Bucket n) j ht) as (ht' & -> & [C1 C2 C3 C4 C5 C6 C7]); [cbn; lia|].
  exists ht', (nc ++ [seq j (length es)]). split; [done|].
  assert (Hin : forall l x, l ∈ nc -> x ∈ l -> (x < j)%nat).
  { intros l x Hl Hx. apply list_elem_of_lookup_1 in Hl as [i Hi]. pose proof (elem_of_chains nc i l x Hi Hx) as Hc.
    rewrite G3 in Hc. apply elem_of_seq in Hc. lia. }
  split.
  - rewrite C4. rewrite (take_S_r _ n (read_slot ht' (Bucket n))) by (apply list_lookup_insert_eq; lia).
    rewrite take_insert_ge by lia. apply Forall2_app; [|by constructor].
    apply Forall2_same_length_lookup_2; [by eapply Forall2_length|]. intros i p l Hp Hl.
    eapply chain_frame; [|by eapply Forall2_lookup_lr]. intros x e Hx He. exists e. split; [|done].
    rewrite C2; [done| |done]. eapply Hin; [by eapply list_elem_of_lookup_2|done].
  - rewrite C4, length_insert. done.
  - rewrite concat_app, G3. cbn [concat]. by rewrite app_nil_r, <- seq_app.
  - rewrite seq_S. apply Forall2_app; [|by constructor]. apply Forall2_same_length_lookup_2; [by eapply Forall2_length|].
    intros i l b Hl Hb. pose proof (Forall2_lookup_lr _ _ _ _ _ _ G4 Hl Hb) as Hcp. cbv beta in Hcp |- *.
    apply Forall2_same_length_lookup_2; [by eapply Forall2_length|]. intros t x e Hx He.
    destruct (Forall2_lookup_lr _ _ _ _ _ _ Hcp Hx He) as (e' & He' & Hde). exists e'. split; [|done].
    rewrite C2; [done| |done]. eapply Hin; by eapply list_elem_of_lookup_2.
  - intros z Hz. destruct (C6 z Hz) as [Hz'|]; [|done]. specialize (G5 z Hz'). lia.
  - destruct C7 as (-> & -> & -> & ->). done.
Qed.

Lemma bindings_copies st l es : Forall2 (copy_of st) l es -> bindings st l = map binding es.
Proof.
  induction 1 as [|x e l es (e' & He' & Hd) _ IH]; [done|]. rewrite (bindings_cons _ _ _ _ He').
  destruct (binding_data e e' Hd) as [-> _]. cbn [map]. by rewrite IH.
Qed.

Lemma lookups_copies st l es : Forall2 (fun x e => st !! x = Some e) l es -> Forall2 (copy_of st) l es.
Proof. intros H. eapply Forall2_impl; [exact H|]. intros x e He. by exists e. Qed.

Lemma concat_copies st (nc : list (list nat)) (ess : list (list (apr_hash_entry_t V))) :
  Forall2 (Forall2 (copy_of st)) nc ess -> Forall2 (copy_of st) (concat nc) (concat ess).
Proof. induction 1; [constructor|]. cbn [concat]. by apply Forall2_app. Qed.

Lemma copy_fold gn orig ht0 n : store ht0 = ∅ -> (n <= length (array ht0))%nat ->
  exists ht j nc, fold_left (fun '(ht, j) i => copy_chain gn (bucket_entries orig i) (Bucket i) j ht)
    (seq 0 n) (ht0, 0%nat) = (ht, j) /\ copying orig ht0 ht n j nc.
Proof.
  intros Hst. induction n as [|n IH]; intros Hn.
  { exists ht0, 0%nat, []. split; [done|]. split; try done.
    intros z Hz. rewrite Hst in Hz. by apply is_Some_None in Hz. }
  destruct IH as (ht & j & nc & Hf & Hg); [lia|]. rewrite seq_S, fold_left_app, Hf. cbn [fold_left Nat.add].
  destruct (copying_step gn orig ht0 ht n j nc ltac:(lia) Hg) as (ht' & nc' & -> & Hg'). eauto.
Qed.

Lemma copy_represents gn garbage ht m :
  represents ht m -> zlen garbage = max ht + 1 -> represents (apr_hash_copy gn garbage ht) m.
Proof.
  intros (chains & fl & H & ->) Hg. unfold apr_hash_copy, zlen in *.
  set (ht0 := mkHash ∅ _ garbage _ _ None). set (n := Z.to_nat (max ht + 1)).
  destruct (copy_fold gn ht ht0 n) as (ht' & j & nc & -> & [G1 G2 G3 G4 G5 G6]); [done|cbn; lia|].
  cbn [fst]. pose proof (all_entries_spec ht chains fl H) as Ha.
  assert (Hcp : Forall2 (copy_of (store ht')) (concat nc) (all_entries ht)).
  { apply concat_copies. by apply Forall2_fmap_r. }
  assert (Hbind : bindings (store ht') (concat nc) = bindings (store ht) (concat chains)).
  { rewrite (bindings_copies _ _ _ Hcp). symmetry. by apply bindings_copies, lookups_copies. }
  assert (Hj : length (concat chains) = j).
  { rewrite (Forall2_length _ _ _ Ha), <- (Forall2_length _ _ _ Hcp), G3. apply length_seq. }
  destruct (wf_count _ _ _ H) as [Hc1 Hc2]. destruct G6 as (B1 & B2 & B3 & B4). cbn in B1, B2, B3, B4, G2.
  exists nc, []. split; [|by rewrite Hbind]. split.
  - rewrite <- (firstn_all (array ht')). by replace (length (array ht')) with n by lia.
  - by rewrite B4.
  - rewrite app_nil_r, G3. apply NoDup_seq.
  - rewrite B3. apply (wf_max _ _ _ H).
  - rewrite B3. lia.
  - intros i l x e Hi Hx He. rewrite B3.
    destruct (Forall2_lookup_l _ _ _ _ _ G4 Hi) as (i' & Hi' & Hcpi). apply lookup_seq in Hi' as [-> Hin].
    apply list_elem_of_lookup_1 in Hx as [t Ht]. destruct (Forall2_lookup_l _ _ _ _ _ Hcpi Ht) as (e0 & He0 & e1 & He1 & Hde).
    rewrite He in He1. injection He1 as <-. destruct (lookup_lt_is_Some_2 chains i) as [li Hli].
    { rewrite <- (Forall2_length _ _ _ (wf_links _ _ _ H)). pose proof (wf_len _ _ _ H). lia. }
    destruct (Forall2_lookup_r _ _ _ _ _ (bucket_entries_spec ht chains fl i li H Hli) He0) as (y & Hy & Hye).
    destruct (binding_data e0 e Hde) as (_ & -> & Hok).
    destruct (wf_bucket _ _ _ H i li y e0 Hli ltac:(by eapply list_elem_of_lookup_2) Hye) as [W1 W2].
    split; [by apply Hok|done].
  - intros x Hx. rewrite B1. specialize (G5 x Hx). unfold zlen in *. lia.
  - rewrite B2. unfold zlen in *. rewrite G3, length_seq. lia.
  - rewrite Hbind. apply (wf_keys _ _ _ H).
Qed.

(** *** Merging *)

Lemma same_ekey (ent iter : apr_hash_entry_t V) :
  entry_ok ent -> entry_ok iter ->
  (klen ent =? klen iter) &&
    bool_decide (take (Z.to_nat (klen iter)) (key ent) = take (Z.to_nat (klen iter)) (key iter)) = true <->
  ekey ent = ekey iter.
Proof.
  intros [H1 _] [H2 _]. rewrite andb_true_iff, Z.eqb_eq, bool_decide_eq_true. unfold ekey. split.
  - intros [-> H]. done.
  - intros H. assert (Hl : klen ent = klen iter).
    { apply (f_equal length) in H. rewrite !length_take in H. unfold zlen in *. lia. }
    split; [done|]. by rewrite <- Hl at 1.
Qed.

Lemma find_ent_spec st iter l : entry_ok iter -> forall p fuel,
  chain st p l -> (length l < fuel)%nat -> (forall x e, x ∈ l -> st !! x = Some e -> entry_ok e) ->
  match find_ent fuel st iter p with
  | Some x => x ∈ l /\ exists e, st !! x = Some e /\ ekey e = ekey iter
  | None => forall x e, x ∈ l -> st !! x = Some e -> ekey e <> ekey iter
  end.
Proof.
  intros Hit. induction l as [|x l IH]; intros p fuel Hc Hf Hok; (destruct fuel as [|fuel]; [cbn in Hf; lia|]).
  { cbn in Hc. subst p. intros x e Hx. by apply elem_of_nil in Hx. }
  destruct Hc as [-> (e & He & Hc)]. cbn [find_ent]. rewrite He.
  pose proof (same_ekey e iter (Hok x e ltac:(by left) He) Hit) as Hk. destruct (_ && _) eqn:E.
  - split; [by left|]. exists e. split; [done|]. by apply Hk.
  - assert (Hok' : forall y ey, y ∈ l -> st !! y = Some ey -> entry_ok ey) by (intros y ey Hy; apply Hok; by right).
    specialize (IH (next e) fuel Hc ltac:(cbn in Hf; lia) Hok'). destruct (find_ent fuel st iter (next e)) as [y|].
    + destruct IH as [Hy Hey]. split; [by right|done].
    + intros y ey Hy Hey. apply elem_of_cons in Hy as [->|Hy]; [|by apply (IH y)].
      simplify_eq. intros Heq. apply Hk in Heq. congruence.
Qed.

(** The table under construction: [j] entries are in use. *)
Definition under_construction (res : apr_hash_t V) (j : nat) (m : gmap (list Z) V) : Prop :=
  represents (mkHash (store res) j (array res) (Z.of_nat (size m)) (max res) None) m.

Lemma bucket_push ht chains fl i li x e0 :
  wf ht chains fl -> x ∉ concat chains -> chains !! i = Some li -> entry_ok e0 ->
  Z.land (hash e0) (max ht) = Z.of_nat i ->
  forall t lt y e, <[i := x :: li]> chains !! t = Some lt -> y ∈ lt -> <[x := e0]> (store ht) !! y = Some e ->
  entry_ok e /\ Z.land (hash e) (max ht) = Z.of_nat t.
Proof.
  intros H Hx Hi Hok0 Hb0 t lt y e Ht Hy He.
  assert (Hold : forall l', chains !! t = Some l' -> y ∈ l' -> entry_ok e /\ Z.land (hash e) (max ht) = Z.of_nat t).
  { intros l' Hl' Hy'. rewrite lookup_insert_ne in He by (intros ->; apply Hx; by eapply elem_of_chains).
    by apply (wf_bucket _ _ _ H t l' y e). }
  destruct (decide (t = i)) as [->|Hne].
  - rewrite list_lookup_insert_eq in Ht by (by eapply lookup_lt_Some). injection Ht as <-.
    apply elem_of_cons in Hy as [->|Hy]; [|by apply (Hold li)].
    rewrite lookup_insert_eq in He. injection He as <-. done.
  - rewrite list_lookup_insert_ne in Ht by congruence. by apply (Hold lt).
Qed.

Lemma push_represents e res j m :
  under_construction res j m -> entry_ok e -> m !! ekey e = None -> Z.of_nat (size m) + 1 < 2 ^ 31 ->
  under_construction (fst (push_entry e res j)) (snd (push_entry e res j)) (<[ekey e := val e]> m).
Proof.
  intros (chains & fl & H & Hm) Hok Hnew Hsz. unfold under_construction. rewrite map_size_insert_None by done.
  pose proof (wf_free _ _ _ H) as Hfl. cbn [free] in Hfl. destruct fl as [|? fl]; [|by destruct Hfl].
  set (ht := mkHash _ j _ _ _ _) in *. unfold push_entry. cbn [fst snd store array max].
  destruct (bucket_exists ht chains [] (hash e) H) as [li Hli]. cbn [max ht] in Hli.
  set (i := Z.to_nat (Z.land (hash e) (max res))) in *.
  destruct (Forall2_lookup_r _ _ _ _ _ (wf_links _ _ _ H) Hli) as (p & Hp & Hc). cbn [array ht] in Hp.
  assert (Hz : znth None (array res) (Z.land (hash e) (max res)) = p) by (unfold znth; by rewrite nth_lookup; fold i; rewrite Hp).
  rewrite Hz. set (e' := mkEntry p _ _ _ _).
  assert (Hj : j ∉ concat chains).
  { intros Hj. pose proof (wf_brk _ _ _ H j) as Hb. cbn [brk ht] in Hb.
    specialize (Hb (chains_dom ht chains [] j H ltac:(apply elem_of_app; by left))). lia. }
  destruct (push_front (store res) (array res) chains i p li j e' (wf_links _ _ _ H) Hj Hp Hli eq_refl) as [Hl Hpm].
  pose proof (bindings_new (store res) (<[j := e']> (store res)) (concat chains) j e' Hj (same_data_refl _)) as Hbn.
  change (binding e') with (ekey e, val e) in Hbn.
  assert (Hkeys : NoDup (bindings (<[j := e']> (store res)) (j :: concat chains)).*1).
  { rewrite Hbn. cbn [fmap list_fmap fst]. apply NoDup_cons. split; [|apply (wf_keys _ _ _ H)].
    apply not_elem_of_list_to_map. cbn [store ht] in Hm. by rewrite <- Hm. }
  symmetry in Hpm. destruct (list_to_map_bindings _ _ _ Hkeys Hpm) as [Hk' Hm'].
  exists (<[i := j :: li]> chains), []. split.
  - split; cbn [store array brk count max free]; try done.
    + rewrite app_nil_r, <- Hpm. apply NoDup_cons. split; [done|].
      pose proof (wf_nodup _ _ _ H) as Hnd. by rewrite app_nil_r in Hnd.
    + apply (wf_max _ _ _ H).
    + rewrite length_insert. apply (wf_len _ _ _ H).
    + apply (bucket_push ht chains [] i li j e'); try done. cbn [hash e' max ht].
      unfold i. rewrite Z2Nat.id; [done|]. exact (proj1 (land_max ht chains [] (hash e) H)).
    + intros y [ey Hey]. destruct (decide (y = j)) as [->|Hne]; [lia|].
      rewrite lookup_insert_ne in Hey by congruence. pose proof (wf_brk _ _ _ H y (mk_is_Some _ _ Hey)) as Hb.
      cbn [brk ht] in Hb. lia.
    + destruct (wf_count _ _ _ H) as [Hc1 _]. cbn [count ht] in Hc1. apply Permutation_length in Hpm.
      unfold zlen in *. cbn [length] in Hpm. lia.
  - cbn [store]. by rewrite <- Hm', Hbn, Hm.
Qed.

Lemma push_fold es : forall res j m,
  under_construction res j m -> Forall entry_ok es -> NoDup (map ekey es) ->
  (forall e, e ∈ es -> m !! ekey e = None) -> Z.of_nat (size m) + zlen es < 2 ^ 31 ->
  exists res' m', fold_left (fun '(res, j) e => push_entry e res j) es (res, j) = (res', (j + length es)%nat) /\
    under_construction res' (j + length es) m' /\ size m' = (size m + length es)%nat /\
    (forall k, m' !! k = match (list_to_map (map binding es) : gmap (list Z) V) !! k with Some v => Some v | None => m !! k end) /\
    (brk res', count res', max res', free res') = (brk res, count res, max res, free res).
Proof.
  induction es as [|e es IH]; intros res j m Hu Hok Hnd Hdis Hsz.
  { exists res, m. cbn [fold_left length]. rewrite !Nat.add_0_r. repeat split; try done. }
  apply Forall_cons in Hok as [Hoke Hok]. cbn [map] in Hnd. apply NoDup_cons in Hnd as [Hke Hnd].
  unfold zlen in Hsz. cbn [length] in Hsz. assert (Hne : m !! ekey e = None) by (apply Hdis; by left).
  pose proof (push_represents e res j m Hu Hoke Hne ltac:(lia)) as Hp. cbn [fold_left].
  destruct (push_entry e res j) as [res1 j1] eqn:Ep. cbn [fst snd] in Hp.
  assert (Hj1 : j1 = S j /\ (brk res1, count res1, max res1, free res1) = (brk res, count res, max res, free res))
    by (unfold push_entry in Ep; by injection Ep as <- <-). destruct Hj1 as [-> Hsame].
  destruct (IH res1 (S j) (<[ekey e := val e]> m)) as (res' & m' & -> & Hu' & Hs' & Hl' & Hf'); [done|done|done| | |].
  { intros e1 He1. rewrite lookup_insert_ne; [apply Hdis; by right|]. intros Heq. apply Hke. rewrite Heq.
    apply list_elem_of_In, in_map, list_elem_of_In. done. }
  { rewrite map_size_insert_None by done. unfold zlen. lia. }
  exists res', m'. replace (j + length (e :: es))%nat with (S j + length es)%nat by (cbn; lia).
  rewrite map_size_insert_None in Hs' by done. split; [done|]. split; [done|]. split; [cbn [length]; lia|].
  split; [|congruence]. intros k. rewrite Hl'. cbn [map list_to_map foldr binding fst snd].
  destruct (decide (k = ekey e)) as [->|Hk].
  - rewrite !lookup_insert_eq. rewrite not_elem_of_list_to_map_1; [done|].
    change ((map binding es).*1) with (map fst (map binding es)). by rewrite map_map.
  - by rewrite !lookup_insert_ne by congruence.
Qed.

(** The value a key of the overlay gets. *)
Definition overlaid (f : option (list Z -> V -> V -> V)) (k : list Z) (ov : V) (bv : option V) : V :=
  match f, bv with Some f, Some bv => f k ov bv | _, _ => ov end.

(** A merger that reads the [klen] bytes of the key. *)
Definition c_merger (f : list Z -> V -> V -> V) (k : list Z) (kl : Z) : V -> V -> V := f (take (Z.to_nat kl) k).

Lemma overlay_represents f e res j m :
  under_construction res j m -> entry_ok e -> Z.of_nat (size m) + 1 < 2 ^ 31 -> count res = Z.of_nat (size m) ->
  let '(res', j') := merge_overlay (c_merger <$> f) e res j in
  let m' := <[ekey e := overlaid f (ekey e) (val e) (m !! ekey e)]> m in
  under_construction res' j' m' /\ (j <= j' <= S j)%nat /\ count res' = Z.of_nat (size m') /\
  (brk res', max res', free res') = (brk res, max res, free res).
Proof.
  intros Hu Hok Hsz Hcnt. pose proof Hu as (chains & fl & H & Hm). set (ht := mkHash _ j _ _ _ _) in *.
  destruct (bucket_exists ht chains fl (hash e) H) as [l Hl]. cbn [max ht] in Hl.
  destruct (Forall2_lookup_r _ _ _ _ _ (wf_links _ _ _ H) Hl) as (p & Hp & Hc). cbn [array ht] in Hp.
  assert (Hz : znth None (array res) (Z.land (hash e) (max res)) = p) by (unfold znth; by rewrite nth_lookup, Hp).
  pose proof (wf_nodup _ _ _ H) as Hnd. apply NoDup_app in Hnd as (Hnd & _ & _).
  assert (Hf : (length l < S (size (store res)))%nat).
  { apply fuel_enough; [by eapply NoDup_concat_lookup|]. intros x. by apply (chain_dom _ _ p). }
  unfold merge_overlay. rewrite Hz.
  pose proof (find_ent_spec (store res) e l Hok p _ Hc Hf) as Hfe.
  specialize (Hfe (fun x ex Hx Hex => proj1 (wf_bucket _ _ _ H _ l x ex Hl Hx Hex))).
  destruct (find_ent _ _ e p) as [x|].
  - destruct Hfe as [Hx (ex & Hex & Hke)]. assert (Hxc : x ∈ concat chains) by (by eapply elem_of_chains).
    assert (Hlook : m !! ekey e = Some (val ex)).
    { rewrite Hm, <- Hke. apply (bindings_lookup _ _ x); [apply (wf_keys _ _ _ H)|done|done]. }
    rewrite Hlook. set (v := overlaid f (ekey e) (val e) (Some (val ex))).
    assert (Hsize : size (<[ekey e := v]> m) = size m) by (by apply map_size_insert_Some).
    cbv zeta. split; [|split; [lia|split; [by rewrite Hsize|done]]].
    unfold under_construction. rewrite Hsize. cbn [store array max with_store].
    pose proof (replace_represents ht chains fl x ex v H Hxc Hex) as Hr. rewrite <- Hm, Hke in Hr.
    assert (Hal : alter (fun ent => set_val
      match c_merger <$> f with Some g => g (key e) (klen e) (val e) (val ent) | None => val e end ent) x (store res) =
      alter (set_val v) x (store res)).
    { apply map_eq. intros y. destruct (decide (y = x)) as [->|Hne].
      - rewrite !lookup_alter_eq, Hex. by destruct f.
      - by rewrite !lookup_alter_ne by congruence. }
    rewrite Hal. exact Hr.
  - assert (Hlook : m !! ekey e = None).
    { rewrite Hm. apply bindings_absent. intros x ex Hx Hex Hke. apply in_chains in Hx as (t & lt & Ht & Hx).
      destruct (wf_bucket _ _ _ H t lt x ex Ht Hx Hex) as [[_ Hh] Hb]. cbn [max ht] in Hb.
      assert (t = Z.to_nat (Z.land (hash e) (max res))) as ->.
      { destruct Hok as [_ ->]. rewrite <- Hke, <- Hh, Hb. by rewrite Nat2Z.id. }
      rewrite Hl in Ht. injection Ht as <-. by apply (Hfe x ex). }
    rewrite Hlook. assert (Hov : overlaid f (ekey e) (val e) None = val e) by (by destruct f). rewrite Hov.
    pose proof (push_represents e res j m Hu Hok Hlook Hsz) as Hpr. cbv zeta.
    destruct (push_entry e res j) as [res1 j1] eqn:Ep. cbn [fst snd] in Hpr.
    unfold push_entry in Ep. injection Ep as <- <-. cbn [store brk array count max free] in *.
    split; [exact Hpr|]. split; [lia|]. split; [|done]. rewrite map_size_insert_None by done.
    rewrite Hcnt, u32_small by lia. lia.
Qed.

Lemma overlay_fold f es : forall res j m,
  under_construction res j m -> Forall entry_ok es -> NoDup (map ekey es) ->
  Z.of_nat (size m) + zlen es < 2 ^ 31 -> count res = Z.of_nat (size m) ->
  exists res' j' m',
    fold_left (fun '(res, j) e => merge_overlay (c_merger <$> f) e res j) es (res, j) = (res', j') /\
    under_construction res' j' m' /\ (j' <= j + length es)%nat /\ count res' = Z.of_nat (size m') /\
    (forall k, m' !! k = match (list_to_map (map binding es) : gmap (list Z) V) !! k with
                         | Some v => Some (overlaid f k v (m !! k)) | None => m !! k end) /\
    (brk res', max res', free res') = (brk res, max res, free res).
Proof.
  induction es as [|e es IH]; intros res j m Hu Hok Hnd Hsz Hcnt.
  { exists res, j, m. cbn [fold_left length]. repeat split; try done. lia. }
  apply Forall_cons in Hok as [Hoke Hok]. cbn [map] in Hnd. apply NoDup_cons in Hnd as [Hke Hnd].
  unfold zlen in Hsz. cbn [length] in Hsz. cbn [fold_left].
  pose proof (overlay_represents f e res j m Hu Hoke ltac:(lia) Hcnt) as Ho.
  destruct (merge_overlay (c_merger <$> f) e res j) as [res1 j1]. destruct Ho as (Hu1 & Hj1 & Hc1 & Hs1).
  set (m1 := <[ekey e := _]> m) in *.
  assert (Hs : (size m1 <= S (size m))%nat).
  { unfold m1. destruct (m !! ekey e) as [v|] eqn:E; [rewrite map_size_insert_Some by done; lia|].
    rewrite map_size_insert_None by done. lia. }
  destruct (IH res1 j1 m1 Hu1 Hok Hnd ltac:(unfold zlen; lia) Hc1) as (res' & j' & m' & -> & Hu' & Hj' & Hc' & Hl' & Hf').
  exists res', j', m'. split; [done|]. split; [done|]. split; [cbn [length]; lia|]. split; [done|].
  split; [|congruence]. intros k. rewrite Hl'. cbn [map list_to_map foldr binding fst snd]. unfold m1.
  destruct (decide (k = ekey e)) as [->|Hk].
  - rewrite !lookup_insert_eq. rewrite not_elem_of_list_to_map_1; [done|].
    change ((map binding es).*1) with (map fst (map binding es)). by rewrite map_map.
  - by rewrite !lookup_insert_ne by congruence.
Qed.

(** The map of a merge: the overlay's keys first, the merger where both have the key. *)
Definition merged (f : option (list Z -> V -> V -> V)) (mo mb : gmap (list Z) V) : gmap (list Z) V :=
  map_imap (fun k ov => Some (overlaid f k ov (mb !! k))) mo ∪ mb.

Lemma entries_facts ht chains fl : wf ht chains fl ->
  Forall entry_ok (all_entries ht) /\ NoDup (map ekey (all_entries ht)) /\
  map binding (all_entries ht) = bindings (store ht) (concat chains) /\
  length (all_entries ht) = length (concat chains).
Proof.
  intros H. pose proof (all_entries_spec ht chains fl H) as Ha. split; [|split; [|split]].
  - apply Forall_forall. intros e He. apply list_elem_of_lookup_1 in He as [t Ht].
    destruct (Forall2_lookup_r _ _ _ _ _ Ha Ht) as (x & Hx & Hxe). apply list_elem_of_lookup_2, in_chains in Hx as (i & l & Hi & Hx).
    by apply (wf_bucket _ _ _ H i l x).
  - pose proof (wf_keys _ _ _ H) as Hk. rewrite (bindings_copies _ _ _ (lookups_copies _ _ _ Ha)) in Hk.
    change ((map binding (all_entries ht)).*1) with (map fst (map binding (all_entries ht))) in Hk.
    by rewrite map_map in Hk.
  - symmetry. by apply bindings_copies, lookups_copies.
  - by rewrite (Forall2_length _ _ _ Ha).
Qed.

Lemma empty_construction max1 n brk0 cnt :
  0 <= n <= 31 -> max1 = 2 ^ n - 1 -> under_construction (mkHash ∅ brk0 (alloc_array max1) cnt max1 None) 0 ∅.
Proof.
  intros Hn ->. assert (H2 : 0 < 2 ^ n <= 2 ^ 31) by (split; [lia|apply Z.pow_le_mono_r; lia]).
  destruct (alloc_array_spec (2 ^ n - 1) ∅) as [Hl Hc]; [lia|].
  exists (repeat [] (length (alloc_array (2 ^ n - 1)))), []. rewrite concat_repeat_nil.
  split; [|done]. split; cbn [store array brk count max free]; try done.
  - rewrite concat_repeat_nil. constructor.
  - by exists n.
  - intros x Hx. rewrite lookup_empty in Hx. by apply is_Some_None in Hx.
  - by rewrite concat_repeat_nil, map_size_empty.
  - rewrite concat_repeat_nil. constructor.
Qed.

Lemma construction_done res j m :
  under_construction res j m -> (j <= brk res)%nat -> count res = Z.of_nat (size m) -> free res = None ->
  represents res m.
Proof.
  intros (chains & fl & H & Hm) Hj Hc Hf. exists chains, fl. split; [|exact Hm].
  destruct H as [H1 H2 H3 H4 H5 H6 H7 H8 H9]. split; try done.
  - by rewrite Hf.
  - intros x Hx. specialize (H7 x Hx). cbn [brk] in H7. lia.
  - by rewrite Hc.
Qed.

Lemma merge_represents f o b mo mb :
  represents o mo -> represents b mb -> Z.of_nat (size mo) + Z.of_nat (size mb) < 2 ^ 31 ->
  represents (apr_hash_merge (c_merger <$> f) o b) (merged f mo mb).
Proof.
  intros Ho Hb Hsz. destruct (size_represents o mo Ho) as [So _], (size_represents b mb Hb) as [Sb _].
  destruct Ho as (co & fo & Wo & Mo), Hb as (cb & fb & Wb & Mb).
  destruct (entries_facts o co fo Wo) as (Oo & No & Bo & Lo), (entries_facts b cb fb Wb) as (Ob & Nb & Bb & Lb).
  destruct (wf_count _ _ _ Wo) as [Co _], (wf_count _ _ _ Wb) as [Cb _].
  unfold apr_hash_merge. set (max0 := if max o >? max b then _ else _). set (total := u32 (count b + _)).
  set (max1 := if total >? max0 then _ else _).
  assert (Htot : total = count b + count o) by (unfold total; rewrite u32_small; lia).
  assert (Hmax : exists n, 0 <= n <= 31 /\ max1 = 2 ^ n - 1).
  { assert (H0 : exists n, 0 <= n <= 31 /\ max0 = 2 ^ n - 1)
      by (unfold max0; destruct (_ >? _); [apply (wf_max _ _ _ Wo)|apply (wf_max _ _ _ Wb)]).
    destruct H0 as (n & Hn & H0). unfold max1. destruct (total >? max0) eqn:E; zbool; [|by exists n].
    assert (Hn30 : n < 31) by (destruct (Z.eq_dec n 31) as [->|]; lia). exists (n + 1). split; [lia|].
    rewrite H0, Z.pow_add_r by lia. assert (0 < 2 ^ n <= 2 ^ 30) by (split; [lia|apply Z.pow_le_mono_r; lia]).
    rewrite u32_small by lia. lia. }
  destruct Hmax as (n & Hn & Hmax).
  destruct (push_fold (all_entries b) (mkHash ∅ (Z.to_nat total) (alloc_array max1) (count b) max1 None) 0 ∅
    (empty_construction max1 n _ _ Hn Hmax) Ob Nb) as (res1 & m1 & -> & U1 & S1 & K1 & F1).
  { intros e _. apply lookup_empty. }
  { rewrite map_size_empty. unfold zlen in *. lia. }
  rewrite map_size_empty in S1. cbn [Nat.add] in S1. injection F1 as F11 F12 F13 F14.
  assert (Hm1 : m1 = mb).
  { apply map_eq. intros k. rewrite K1, Bb, <- Mb, lookup_empty. by destruct (mb !! k). }
  subst m1. cbn [Nat.add].
  destruct (overlay_fold f (all_entries o) res1 (length (all_entries b)) mb U1 Oo No) as (res2 & j2 & m2 & -> & U2 & J2 & C2 & K2 & F2).
  { unfold zlen in *. lia. }
  { rewrite F12. lia. }
  injection F2 as F21 F22 F23. cbn [fst].
  assert (Hm2 : m2 = merged f mo mb).
  { apply map_eq. intros k. rewrite K2, Bo, <- Mo. unfold merged. rewrite lookup_union, map_lookup_imap.
    destruct (mo !! k), (mb !! k); done. }
  rewrite <- Hm2. apply (construction_done res2 j2); [done| |done|congruence].
  rewrite F21, F11. unfold zlen in *. lia.
Qed.

(** *** Sequences of operations *)

Definition op : Type := list Z * Z * option V.
Definition run_set ht (o : op) : apr_hash_t V := let '(k, kl, v) := o in apr_hash_set hash_func ht k kl v.
Definition map_set (m : gmap (list Z) V) (o : op) : gmap (list Z) V :=
  let '(k, kl, v) := o in
  match v with Some v => <[kb k kl := v]> m | None => delete (kb k kl) m end.

Lemma make_represents : represents apr_hash_make ∅.
Proof. exact (empty_construction 15 4 0 0 ltac:(lia) eq_refl). Qed.

Lemma sets_represent (ops : list op) : forall ht m,
  represents ht m -> Forall (fun '(k, kl, _) => hf_key_ok k kl) ops ->
  Z.of_nat (size m) + zlen ops < 2 ^ 31 ->
  represents (fold_left run_set ops ht) (fold_left map_set ops m).
Proof.
  induction ops as [|[[k kl] v] ops IH]; intros ht m Hr Hok Hsz; [done|].
  apply Forall_cons in Hok as [Hk Hok]. unfold zlen in Hsz. cbn [length] in Hsz. cbn [fold_left run_set map_set].
  destruct v as [v|].
  - apply IH; [by apply set_represents; [..|lia]|done|].
    destruct (m !! kb k kl) as [v0|] eqn:E.
    + rewrite map_size_insert_Some by done. unfold zlen. lia.
    + rewrite map_size_insert_None by done. unfold zlen. lia.
  - apply IH; [by apply delete_represents|done|].
    rewrite map_size_delete. unfold zlen. destruct (m !! kb k kl); cbn; lia.
Qed.

Lemma map_sets_size (ops : list op) : forall m, (size (fold_left map_set ops m) <= size m + length ops)%nat.
Proof.
  induction ops as [|[[k kl] v] ops IH]; intros m; cbn [fold_left length]; [lia|].
  specialize (IH (map_set m (k, kl, v))). assert (size (map_set m (k, kl, v)) <= S (size m))%nat; [|lia].
  cbn [map_set]. destruct v as [v|].
  - rewrite map_size_insert. destruct (m !! kb k kl); cbn; lia.
  - rewrite map_size_delete. destruct (m !! kb k kl); cbn; lia.
Qed.

(** What a client sees through the iterator. *)
Definition contents ht : list (list Z * V) :=
  map (fun '(k, kl, v) => (take (Z.to_nat kl) k, v)) (traverse (S (size (store ht))) ht (apr_hash_first ht)).

Lemma contents_represents ht m : represents ht m -> contents ht ≡ₚ map_to_list m.
Proof.
  intros (chains & fl & H & ->). rewrite map_to_list_to_map by apply (wf_keys _ _ _ H).
  pose proof (wf_nodup _ _ _ H) as Hnd. apply NoDup_app in Hnd as (Hnd & _ & _).
  assert (Hd : forall x, x ∈ concat chains -> is_Some (store ht !! x))
    by (intros x Hx; apply (chains_dom ht chains fl x H), elem_of_app; by left).
  unfold contents, apr_hash_first.
  rewrite (traverse_spec ht (wf_sized _ _ _ H) (concat chains)); [|done|by apply fuel_enough|by apply (first_iter _ _ fl)].
  assert (He : map (fun '(k, kl, v) => (take (Z.to_nat kl) k, v)) (omap (fun x => seen <$> store ht !! x) (concat chains)) =
    bindings (store ht) (concat chains)); [|by rewrite He].
  unfold bindings. clear -Hd. induction (concat chains) as [|x l IH]; [done|]. cbn [omap list_omap].
  destruct (Hd x) as [e He]; [by left|]. rewrite He. cbn. f_equal. apply IH. intros y Hy. apply Hd. by right.
Qed.

(** A hash table is a map.  After any sequence of [apr_hash_set] calls on a
    new table, with insertions, replacements, deletions, recycled entries and
    expansions in any order, [apr_hash_get] returns what a finite map from byte
    strings returns, [apr_hash_count] is the number of its keys, and a walk with
    [apr_hash_first] and [apr_hash_next] visits every binding exactly once. *)
Theorem hash_table_is_map (ops : list op) k kl :
  Forall (fun '(k, kl, _) => hf_key_ok k kl) ops -> hf_key_ok k kl -> zlen ops < 2 ^ 31 ->
  let ht := fold_left run_set ops apr_hash_make in
  let m := fold_left map_set ops ∅ in
  apr_hash_get hash_func ht k kl = m !! kb k kl /\
  apr_hash_count ht = Z.of_nat (size m) /\
  contents ht ≡ₚ map_to_list m.
Proof.
  intros Hops Hk Hn ht m.
  assert (Hr : represents ht m) by (apply sets_represent; [exact make_represents|done|rewrite map_size_empty; lia]).
  split; [by apply get_represents|]. split; [|by apply contents_represents].
  symmetry. by apply (size_represents ht m).
Qed.

(** Copies and merges of hash tables.  [apr_hash_copy] gives a table with the
    same map whatever the new memory holds, and [apr_hash_merge] the map with the
    keys of both tables, the overlay's value where only it has the key or there
    is no merger, and the merger's result where both have it. *)
Theorem hash_copy_merge_maps f gn garbage (ops1 ops2 : list op) k kl :
  Forall (fun '(k, kl, _) => hf_key_ok k kl) ops1 -> Forall (fun '(k, kl, _) => hf_key_ok k kl) ops2 ->
  hf_key_ok k kl -> zlen ops1 + zlen ops2 < 2 ^ 31 ->
  let o := fold_left run_set ops1 apr_hash_make in
  let b := fold_left run_set ops2 apr_hash_make in
  zlen garbage = max b + 1 ->
  let mo := fold_left map_set ops1 ∅ in
  let mb := fold_left map_set ops2 ∅ in
  apr_hash_get hash_func (apr_hash_copy gn garbage b) k kl = mb !! kb k kl /\
  apr_hash_get hash_func (apr_hash_merge (c_merger <$> f) o b) k kl = merged f mo mb !! kb k kl.
Proof.
  intros H1 H2 Hk Hn o b Hg mo mb. pose proof (zlen_nonneg ops1). pose proof (zlen_nonneg ops2).
  assert (Ro : represents o mo) by (apply sets_represent; [exact make_represents|done|rewrite map_size_empty; lia]).
  assert (Rb : represents b mb) by (apply sets_represent; [exact make_represents|done|rewrite map_size_empty; lia]).
  pose proof (map_sets_size ops1 ∅) as Z1. pose proof (map_sets_size ops2 ∅) as Z2. rewrite map_size_empty in Z1, Z2.
  split; apply get_represents; [by apply copy_represents|done| |done].
  apply merge_represents; [done|done|]. unfold zlen in Hn. fold mo in Z1. fold mb in Z2. lia.
Qed.

End Map.

(** ** The default hash function keeps the promise *)

Lemma until_nul_prefix k : take (length (until_nul k)) k = until_nul k /\ (length (until_nul k) <= length k)%nat.
Proof.
  induction k as [|c k [IH1 IH2]]; [done|]. cbn [until_nul]. destruct (c =? 0); cbn [length take]; [split; [done|lia]|].
  rewrite IH1. split; [done|lia].
Qed.

Lemma times33_range b : forall h, 0 <= h < 2 ^ 32 -> 0 <= fold_left times33 b h < 2 ^ 32.
Proof. induction b as [|c b IH]; intros h Hh; [done|]. cbn [fold_left]. apply IH, u32_range. Qed.

#[export] Instance default_hashfunc : HashFunc apr_hashfunc_default.
Proof.
  refine {| hf_key_ok := fun k kl => (kl = APR_HASH_KEY_STRING /\ In 0 k) \/ 0 <= kl <= zlen k;
            hf_hash := fun b => fold_left times33 b 0 |}.
  - intros b. by apply times33_range.
  - intros k kl [[-> _]|Hk]; unfold apr_hashfunc_default.
    + cbn [Z.eqb APR_HASH_KEY_STRING Pos.eqb snd]. destruct (until_nul_prefix k). unfold zlen. lia.
    + destruct (kl =? APR_HASH_KEY_STRING) eqn:E; zbool; [unfold APR_HASH_KEY_STRING in E; lia|done].
  - intros k kl [[-> _]|Hk]; unfold apr_hashfunc_default.
    + cbn [Z.eqb APR_HASH_KEY_STRING Pos.eqb fst snd]. unfold zlen. rewrite Nat2Z.id.
      by rewrite (proj1 (until_nul_prefix k)).
    + by destruct (kl =? APR_HASH_KEY_STRING) eqn:E; zbool; [unfold APR_HASH_KEY_STRING in E; lia|].
Defined.

Definition demo_ops : list (op (V := nat)) :=
  [(str "one" ++ [0], -1, Some 1%nat); (str "two", 3, Some 2%nat); (str "one!", 3, Some 3%nat); (str "two" ++ [0], -1, None)].

Lemma demo_ops_ok : Forall (fun '(k, kl, _) => hf_key_ok (HashFunc := default_hashfunc) k kl) demo_ops.
Proof.
  unfold demo_ops. apply Forall_cons; split; [left; split; [done|do 3 right; by left]|]. apply Forall_cons; split; [right; done|].
  apply Forall_cons; split; [right; done|]. apply Forall_cons; split; [left; split; [done|do 3 right; by left]|]. constructor.
Qed.

Lemma hash_table_is_map_witness :
  apr_hash_get apr_hashfunc_default (fold_left (run_set apr_hashfunc_default) demo_ops apr_hash_make) (str "one") 3 = Some 3%nat.
Proof.
  pose proof (hash_table_is_map apr_hashfunc_default demo_ops (str "one") 3 demo_ops_ok) as H.
  cbv zeta in H. destruct H as [H _]; [right; vm_compute; split; discriminate|reflexivity|].
  rewrite H. vm_compute. reflexivity.
Defined.

Lemma hash_copy_merge_maps_witness :
  apr_hash_get apr_hashfunc_default
    (apr_hash_merge (c_merger <$> Some (fun _ ov bv => (10 * ov + bv)%nat))
       (fold_left (run_set apr_hashfunc_default) demo_ops apr_hash_make)
       (fold_left (run_set apr_hashfunc_default) (take 2 demo_ops) apr_hash_make)) (str "one") 3 = Some 31%nat.
Proof.
  pose proof (hash_copy_merge_maps apr_hashfunc_default (Some (fun _ ov bv => (10 * ov + bv)%nat)) None
    (repeat None 16) demo_ops (take 2 demo_ops) (str "one") 3 demo_ops_ok (Forall_take _ _ _ demo_ops_ok)) as H.
  cbv zeta in H. destruct H as [_ H]; [right; vm_compute; split; discriminate|reflexivity|reflexivity|].
  rewrite H. vm_compute. reflexivity.
Defined.
