(* ===== verification/SftpPath.v ===== *)
(** * SftpPath: the paths of the SFTP subsystem

    [Path], [SFTPFilePath] and [SFTPFilePathFactory] of shiesh/sftp-server.cpp and
    shiesh/sftp.h, compiled with [MATT_PATHES] and [PREPEND_SLASH_TO_CLIENT].  A
    wide string is a list of code units.  The factory is what keeps a client in
    its home directory: every path handed to Windows comes out of [create_path].

    [assert] aborts the process unless the build defines NDEBUG; both builds are
    covered by the parameter [ndebug].  The conversions between UTF-8 and wide
    strings are Win32 functions and parameters of the model. *)

From S2P Require Import Prelude SshBuffer CxxMonad.

Module Paths.

Definition BSL : Z := 92.
Definition SLASH : Z := 47.
Definition COLON : Z := 58.
Definition QUEST : Z := 63.
Definition DOT : Z := 46.
Abbreviation wstring := (list Z).

(** [std::tolower] in the "C" locale. *)
Definition tolower (c : Z) : Z := if (65 <=? c) && (c <=? 90) then c + 32 else c.

Record Path := mkPath {
  path : list wstring;
  drive : Z;
  isRelative : bool
}.

Definition has_drive (d : Z) : bool := negb (d =? QUEST).
Definition has_drive_letter (p : Path) : bool := has_drive (drive p).
Definition nDirs (p : Path) : nat := length (path p).

Section Build.
Context (ndebug : bool).

Definition assert (c : bool) : exc unit := if ndebug || c then Ret tt else Throw AssertFailed.

(** ** Parsing *)

Definition is_sep (c : Z) : bool := (c =? BSL) || (c =? COLON).

(** [find_first_of (L"\\:", from)]: what is before the separator, and what is
    behind it. *)
Fixpoint find_first_of (s : wstring) : wstring * option wstring :=
  match s with
  | [] => ([], None)
  | c :: s =>
      if is_sep c then ([], Some s)
      else let '(tok, rest) := find_first_of s in (c :: tok, rest)
  end.

(** The loop of [parse_path] on the string from [from] on. *)
Fixpoint parse_loop (fuel : nat) (s : wstring) (firstIsDrive : bool) (dr : Z) (p : list wstring) :
    exc (list wstring * Z) :=
  match fuel, s with
  | S fuel, _ :: _ =>
      match find_first_of s with
      | (tok, None) => Ret (p ++ [tok], dr)
      | ([], Some rest) => parse_loop fuel rest firstIsDrive dr p
      | (c :: tok, Some rest) =>
          if firstIsDrive then
            _ ← assert (length (c :: tok) =? 1)%nat;
            parse_loop fuel rest false (tolower c) p
          else parse_loop fuel rest false dr (p ++ [c :: tok])
      end
  | _, _ => Ret (p, dr)
  end.

Definition parse_path (pathStr : wstring) (dr : Z) : exc (list wstring * Z) :=
  parse_loop (length pathStr) pathStr (has_drive dr) dr [].

Fixpoint find_double (s : wstring) : bool :=
  match s with
  | a :: (b :: _) as s' => ((a =? BSL) && (b =? BSL)) || find_double s'
  | _ => false
  end.

Definition init (pathStr : wstring) : exc Path :=
  if find_double pathStr then Throw InvalidPath
  else if existsb (Z.eqb COLON) (drop 2 pathStr) then Throw InvalidPath
  else
    let dr := if (2 <=? length pathStr)%nat && (znth 0 pathStr 1 =? COLON) then znth 0 pathStr 0 else QUEST in
    let rel := negb (((1 <=? length pathStr)%nat && (znth 0 pathStr 0 =? BSL))
                     || ((3 <=? length pathStr)%nat && has_drive dr && (znth 0 pathStr 2 =? BSL))) in
    if negb rel && negb (has_drive dr) then Throw InvalidPath
    else
      '(p, dr) ← parse_path pathStr dr;
      _ ← assert (rel || (1 <=? length p)%nat || has_drive dr);
      Ret (mkPath p dr rel).

(** ** Printing *)

Fixpoint join (separator : Z) (l : list wstring) : wstring :=
  match l with
  | [] => []
  | [s] => s
  | s :: l => s ++ separator :: join separator l
  end.

Definition to_string_generic (p : Path) (separator : Z) : exc wstring :=
  _ ← assert (isRelative p || (1 <=? length (path p))%nat || has_drive_letter p);
  let s := join separator (path p) in
  Ret (if negb (isRelative p) && has_drive_letter p then drive p :: COLON :: separator :: s else s).

Definition to_string (p : Path) : exc wstring := to_string_generic p BSL.

Definition to_string_end (p : Path) (endWithSlash : bool) : exc wstring :=
  if (if endWithSlash then isRelative p && (length (path p) =? 0)%nat
      else negb (isRelative p) && (length (path p) =? 0)%nat)
  then (_ ← to_string p; Throw InvalidPath)
  else
    s ← to_string p;
    if negb endWithSlash then Ret s
    else Ret (if znth 0 s (zlen s - 1) =? BSL then s else s ++ [BSL]).

Definition unix_form (p : Path) : exc wstring :=
  s ← to_string_generic p SLASH;
  Ret (SLASH :: s).

Definition is_root_dir (p : Path) : bool := negb (isRelative p) && (length (path p) =? 0)%nat.

(** ** Normalisation *)

Definition point : wstring := [DOT].
Definition point2 : wstring := [DOT; DOT].

Definition normalize_step (st : list wstring * bool) (c : wstring) : list wstring * bool :=
  let '(res, normalized) := st in
  if bool_decide (c = point) then (res, normalized)
  else if bool_decide (c = point2) then
    if (0 <? length res)%nat && negb (bool_decide (last res = Some point2))
    then (removelast res, normalized)
    else (res ++ [point2], false)
  else (res ++ [c], normalized).

Definition normalize (p : Path) : Path * bool :=
  let '(res, normalized) := fold_left normalize_step (path p) ([], true) in
  (mkPath res (drive p) (isRelative p), normalized).

Definition n_first_dirs (p : Path) (n : nat) : exc Path :=
  if (nDirs p <? n)%nat then Throw out_of_range
  else Ret (mkPath (take n (path p)) (drive p) (isRelative p)).

(** [operator+] *)
Definition path_plus (prefix suffix : Path) : exc Path :=
  if negb (isRelative suffix) then (_ ← to_string suffix; Throw InvalidPath)
  else if has_drive_letter suffix && (negb (has_drive_letter prefix) || negb (drive suffix =? drive prefix))
  then (_ ← to_string prefix; _ ← to_string suffix; Throw InvalidPath)
  else Ret (mkPath (path prefix ++ path suffix) (drive prefix) (isRelative prefix)).

(** ** Comparison ignoring case *)

Definition is_equal_ignore_case (a b : wstring) : bool := bool_decide (map tolower a = map tolower b).

Fixpoint all2 {A} (f : A -> A -> bool) (l k : list A) : bool :=
  match l, k with
  | [], [] => true
  | x :: l, y :: k => f x y && all2 f l k
  | _, _ => false
  end.

Definition path_eq (a b : Path) : bool :=
  Bool.eqb (isRelative a) (isRelative b) && (drive a =? drive b) && all2 is_equal_ignore_case (path a) (path b).

(** ** Paths of the client *)

Record SFTPFilePath := mkFilePath {
  base : Path;
  nUserHomePos : nat
}.

Definition sftp_file_path (p : Path) (n : nat) : exc SFTPFilePath :=
  if isRelative p then (_ ← to_string p; Throw InvalidPath) else Ret (mkFilePath p n).

Definition longPrefix : wstring := [BSL; BSL; QUEST; BSL].

Definition get_for_call (f : SFTPFilePath) : exc wstring :=
  _ ← assert (negb (isRelative (base f)));
  s ← to_string (base f);
  Ret (longPrefix ++ s).

Definition STAR : Z := 42.

Definition get_mask_for_dir_search (f : SFTPFilePath) : exc wstring :=
  _ ← assert (negb (isRelative (base f)));
  s ← to_string_end (base f) true;
  Ret (longPrefix ++ s ++ [STAR]).

(** [SFTPFilePath::n_first_dirs] *)
Definition file_n_first_dirs (f : SFTPFilePath) (n : nat) : exc SFTPFilePath :=
  p ← n_first_dirs (base f) n;
  sftp_file_path p (nUserHomePos f).

Definition get_standard_form (sshPath : wstring) : exc wstring :=
  if (length sshPath <? 1)%nat || negb (znth 0 sshPath 0 =? BSL) then Throw InvalidPath
  else Ret (drop 1 sshPath).

Definition ShieSSHPath (s : wstring) : exc Path :=
  s ← get_standard_form s;
  p ← init s;
  Ret (mkPath (path p) (drive p) (negb (has_drive_letter p))).

Definition replace_slashes (s : wstring) : wstring := map (fun c => if c =? SLASH then BSL else c) s.

(** The loop that leaves one backslash of a run. *)
Fixpoint collapse (s : wstring) (last_was_slash : bool) : wstring :=
  match s with
  | [] => []
  | c :: s =>
      if c =? BSL then if last_was_slash then collapse s true else c :: collapse s true
      else c :: collapse s false
  end.

Section Factory.
(** [fromUTF8] *)
Context (fromUTF8 : list Z -> wstring).

(** The constructor; the home directory must be absolute.  The message of the
    first exception is built from [userHomeDir], which is still NULL. *)
Definition make_factory (home_dir : list Z) : exc SFTPFilePath :=
  home ← init (fromUTF8 home_dir);
  if isRelative home then Throw InvalidPath
  else
    let '(home, normalized) := normalize home in
    if negb normalized then (_ ← to_string home; Throw InvalidPath)
    else sftp_file_path home (nDirs home).

Definition create_path (userHomeDir : SFTPFilePath) (utf8_path : list Z) : exc SFTPFilePath :=
  let pathStr := replace_slashes (fromUTF8 utf8_path) in
  let pathStrRem := collapse pathStr false in
  let pathStr2 := if (length pathStrRem =? 0)%nat || negb (znth 0 pathStrRem 0 =? BSL)
                  then BSL :: pathStrRem else pathStrRem in
  path ← ShieSSHPath pathStr2;
  let '(path, normalized) := normalize path in
  if negb normalized then (_ ← to_string path; Throw InvalidPath)
  else if isRelative path then
    p ← path_plus (base userHomeDir) path;
    sftp_file_path p (nDirs (base userHomeDir))
  else
    let valid :=
      match n_first_dirs path (nDirs (base userHomeDir)) with
      | Ret h => path_eq h (base userHomeDir) &&
                 (negb (has_drive_letter path) || (drive path =? drive (base userHomeDir)))
      | Throw _ => false
      end in
    if negb valid then (_ ← to_string path; Throw InvalidPath)
    else sftp_file_path path (nDirs (base userHomeDir)).

End Factory.
End Build.

Definition utf8_id (s : list Z) : list Z := s.

(** What a client can see of it. *)
Definition realpath (ndebug : bool) (home s : string) : exc (list Z) :=
  h ← make_factory ndebug utf8_id (str home);
  p ← create_path ndebug utf8_id h (str s);
  unix_form ndebug (base p).

Example realpath_relative : realpath false "C:\users\joe" "/docs/./a/../b" = Ret (str "/c:/users/joe/docs/b").
Proof. vm_compute. reflexivity. Qed.
Example realpath_absolute : realpath false "C:\users\joe" "/c:/Users//JOE/x" = Ret (str "/c:/Users/JOE/x").
Proof. vm_compute. reflexivity. Qed.
Example realpath_above : realpath false "C:\users\joe" "/../mary" = Throw InvalidPath.
Proof. vm_compute. reflexivity. Qed.
Example realpath_outside : realpath false "C:\users\joe" "/c:/users/joe/../mary" = Throw InvalidPath.
Proof. vm_compute. reflexivity. Qed.
Example realpath_assert : realpath false "C:\users\joe" "/::abc/x" = Throw AssertFailed.
Proof. vm_compute. reflexivity. Qed.


(** ** Components *)

Definition no_sep (s : wstring) : Prop := Forall (fun c => is_sep c = false) s.
Definition component (s : wstring) : Prop := s <> [] /\ no_sep s.

(** A component that is a name: neither [.] nor [..]. *)
Definition clean (s : wstring) : Prop := component s /\ s <> point /\ s <> point2.

Lemma find_first_of_spec s :
  let '(tok, r) := find_first_of s in
  no_sep tok /\ match r with None => s = tok | Some rest => exists c, is_sep c = true /\ s = tok ++ c :: rest end.
Proof.
  induction s as [|c s IH]; cbn [find_first_of]; [split; [constructor|done]|].
  destruct (is_sep c) eqn:E; [split; [constructor|by exists c]|].
  destruct (find_first_of s) as [tok [rest|]]; destruct IH as [IH1 IH2].
  - destruct IH2 as (x & Hx & ->). split; [by constructor|by exists x].
  - split; [by constructor|congruence].
Qed.

Section Proofs.
Context (ndebug : bool).

Lemma parse_loop_components fuel : forall s first dr p p' dr',
  Forall component p -> parse_loop ndebug fuel s first dr p = Ret (p', dr') -> Forall component p'.
Proof.
  induction fuel as [|fuel IH]; intros s first dr p p' dr' Hp H; [by injection H as -> ->|].
  destruct s as [|c0 s]; [by injection H as -> ->|]. cbn [parse_loop] in H.
  pose proof (find_first_of_spec (c0 :: s)) as Hf. destruct (find_first_of (c0 :: s)) as [tok [rest|]].
  - destruct Hf as [Hn _]. destruct tok as [|c tok]; [by eapply IH|]. destruct first.
    + destruct (assert _ _) as [[]|]; [|done]. by eapply IH.
    + eapply IH; [|exact H]. apply Forall_app. split; [done|]. apply Forall_singleton. by split.
  - destruct Hf as [Hn Hs]. assert (H' : p' = p ++ [tok]) by (destruct tok; by injection H). subst p'.
    apply Forall_app. split; [done|]. apply Forall_singleton. split; [by rewrite <- Hs|done].
Qed.

Lemma init_components s p : init ndebug s = Ret p -> Forall component (path p).
Proof.
  unfold init. destruct (find_double s); [done|]. destruct (existsb _ _); [done|].
  set (dr := if (2 <=? length s)%nat && _ then _ else QUEST). destruct (negb _ && negb _); [done|].
  destruct (parse_path ndebug s dr) as [[q d]|] eqn:E; [|done]. cbn [mbind exc_bind].
  destruct (assert _ _) as [[]|]; [|done]. intros [= <-]. cbn [path].
  eapply parse_loop_components; [|exact E]. constructor.
Qed.

(** *** Normalised paths *)

Definition norm_inv (st : list wstring * bool) : Prop :=
  Forall (fun c => component c /\ c <> point) (fst st) /\
  (snd st = true -> Forall (fun c => c <> point2) (fst st)).

Lemma Forall_removelast {A} (P : A -> Prop) l : Forall P l -> Forall P (removelast l).
Proof.
  intros H. induction l as [|x l IH]; [done|]. apply Forall_cons in H as [Hx H]. cbn [removelast].
  destruct l; [constructor|]. constructor; [done|by apply IH].
Qed.

Lemma normalize_step_inv st c : component c -> norm_inv st -> norm_inv (normalize_step st c).
Proof.
  destruct st as [res flag]. intros Hc [H1 H2]. unfold normalize_step. cbn [fst snd] in *.
  case_bool_decide as E1; [done|]. case_bool_decide as E2.
  - destruct (_ && _); split; cbn [fst snd].
    + by apply Forall_removelast.
    + intros Hf. by apply Forall_removelast, H2.
    + apply Forall_app. split; [done|]. apply Forall_singleton. by subst c.
    + done.
  - split; cbn [fst snd].
    + apply Forall_app. split; [done|]. by apply Forall_singleton.
    + intros Hf. apply Forall_app. split; [by apply H2|]. by apply Forall_singleton.
Qed.

Lemma normalize_clean p p' : Forall component (path p) -> normalize p = (p', true) ->
  Forall clean (path p') /\ drive p' = drive p /\ isRelative p' = isRelative p.
Proof.
  intros Hp. unfold normalize.
  assert (Hg : forall l st, Forall component l -> norm_inv st -> norm_inv (fold_left normalize_step l st)).
  { induction l as [|c l IH]; intros st Hl Hs; [done|]. apply Forall_cons in Hl as [Hc Hl].
    cbn [fold_left]. by apply IH, normalize_step_inv. }
  specialize (Hg (path p) ([], true) Hp ltac:(split; [constructor|intros; constructor])).
  destruct (fold_left normalize_step (path p) ([], true)) as [res flag]. intros [= <- ->]. cbn [path drive isRelative].
  destruct Hg as [H1 H2]. specialize (H2 eq_refl). cbn [fst] in *. split; [|done].
  rewrite Forall_forall in *. intros c Hc. destruct (H1 c Hc). by split; [|split; [|apply H2]].
Qed.

(** ** Confinement *)

Record confined (home f : SFTPFilePath) : Prop := {
  cf_absolute : isRelative (base f) = false;
  cf_drive : drive (base f) = drive (base home);
  cf_home : all2 is_equal_ignore_case (take (nDirs (base home)) (path (base f))) (path (base home)) = true;
  cf_names : Forall clean (path (base f));
  cf_pos : nUserHomePos f = nDirs (base home)
}.

Lemma all2_refl {A} (f : A -> A -> bool) l : (forall x, f x x = true) -> all2 f l l = true.
Proof. intros Hf. induction l as [|x l IH]; [done|]. cbn. by rewrite Hf, IH. Qed.

Lemma eq_ci_refl a : is_equal_ignore_case a a = true.
Proof. by apply bool_decide_eq_true. Qed.

Lemma factory_clean fromUTF8 d h : make_factory ndebug fromUTF8 d = Ret h ->
  isRelative (base h) = false /\ Forall clean (path (base h)) /\ nUserHomePos h = nDirs (base h).
Proof.
  unfold make_factory. destruct (init ndebug (fromUTF8 d)) as [home|] eqn:E; [|done]. cbn [mbind exc_bind].
  destruct (isRelative home) eqn:Er; [done|]. destruct (normalize home) as [hn b] eqn:En.
  destruct b; cbn [negb]; [|destruct (to_string ndebug hn); done].
  destruct (normalize_clean home hn (init_components _ _ E) En) as (H1 & H2 & H3).
  unfold sftp_file_path. rewrite H3, Er. intros [= <-]. cbn [base nUserHomePos]. by rewrite H3.
Qed.

Lemma sftp_file_path_inv p n f : sftp_file_path ndebug p n = Ret f ->
  f = mkFilePath p n /\ isRelative p = false.
Proof.
  unfold sftp_file_path. destruct (isRelative p); [by destruct (to_string ndebug p)|]. by intros [= <-].
Qed.

Lemma create_path_confined fromUTF8 d h s f :
  make_factory ndebug fromUTF8 d = Ret h -> create_path ndebug fromUTF8 h s = Ret f -> confined h f.
Proof.
  intros Hh H. destruct (factory_clean _ _ _ Hh) as (Ha & Hc & Hn). unfold create_path in H.
  destruct (ShieSSHPath ndebug _) as [p|] eqn:Ep; [|done]. cbn [mbind exc_bind] in H.
  assert (Hcomp : Forall component (path p)).
  { unfold ShieSSHPath in Ep. destruct (get_standard_form _) as [s'|]; [|done]. cbn [mbind exc_bind] in Ep.
    destruct (init ndebug s') as [q|] eqn:Eq; [|done]. injection Ep as <-. cbn [path]. by apply (init_components s'). }
  destruct (normalize p) as [pn b] eqn:En. destruct b; cbn [negb] in H; [|by destruct (to_string ndebug pn)].
  destruct (normalize_clean p pn Hcomp En) as (H1 & H2 & H3). destruct (isRelative pn) eqn:Er.
  - unfold path_plus in H. rewrite Er in H. cbn [negb] in H.
    destruct (_ && _); [by destruct (to_string ndebug (base h)), (to_string ndebug pn)|]. cbn [mbind exc_bind] in H.
    apply sftp_file_path_inv in H as [-> Hr]. cbn [isRelative] in Hr. split; cbn [base path drive isRelative nUserHomePos]; try done.
    + rewrite take_app_length' by done. by apply all2_refl, eq_ci_refl.
    + by apply Forall_app.
  - destruct (n_first_dirs pn (nDirs (base h))) as [hd|] eqn:Ef; cbn [negb] in H; [|by destruct (to_string ndebug pn)].
    destruct (path_eq hd (base h) && _) eqn:Ev; cbn [negb] in H; [|by destruct (to_string ndebug pn)].
    apply sftp_file_path_inv in H as [-> Hr]. unfold n_first_dirs in Ef. destruct (_ <? _)%nat; [done|]. injection Ef as <-.
    apply andb_true_iff in Ev as [Ev _]. unfold path_eq in Ev. rewrite !andb_true_iff in Ev. cbn [path drive isRelative] in Ev.
    destruct Ev as [[_ Ed] Ec]. apply Z.eqb_eq in Ed. by split.
Qed.

Lemma drive_prefix p : has_drive_letter p = true -> isRelative p = false ->
  to_string ndebug p = Ret (drive p :: COLON :: BSL :: join BSL (path p)).
Proof.
  intros Hd Hr. unfold to_string, to_string_generic, assert. rewrite Hd, Hr, !orb_true_r. done.
Qed.

(** No escape from the home directory.  Every path that [create_path] returns
    for a client, whatever the client sent, is absolute, on the drive of the home
    directory, starts with its directories (ignoring case), and consists of names
    only: no [.], no [..], no separator inside a component.  The string handed to
    Windows is exactly these components behind the drive and the long prefix. *)
Theorem sftp_paths_confined fromUTF8 home_dir h utf8_path f :
  make_factory ndebug fromUTF8 home_dir = Ret h -> has_drive_letter (base h) = true ->
  create_path ndebug fromUTF8 h utf8_path = Ret f ->
  confined h f /\
  get_for_call ndebug f = Ret (longPrefix ++ drive (base h) :: COLON :: BSL :: join BSL (path (base f))).
Proof.
  intros Hh Hd Hf. pose proof (create_path_confined _ _ _ _ _ Hh Hf) as [C1 C2 C3 C4 C5].
  split; [done|]. unfold get_for_call, assert. rewrite C1, orb_true_r. cbn [mbind exc_bind].
  rewrite drive_prefix; [by rewrite C2| |done]. unfold has_drive_letter in *. by rewrite C2.
Qed.

(** ** The path reported to the client *)

(** The characters of the components are characters of the string. *)
Lemma parse_loop_chars (P : Z -> Prop) fuel : forall s first dr p p' dr',
  Forall P s -> Forall (Forall P) p -> parse_loop ndebug fuel s first dr p = Ret (p', dr') -> Forall (Forall P) p'.
Proof.
  induction fuel as [|fuel IH]; intros s first dr p p' dr' Hs Hp H; [by injection H as -> ->|].
  destruct s as [|c0 s]; [by injection H as -> ->|]. cbn [parse_loop] in H.
  pose proof (find_first_of_spec (c0 :: s)) as Hf. destruct (find_first_of (c0 :: s)) as [tok [rest|]].
  - destruct Hf as [_ (x & _ & Hx)]. rewrite Hx in Hs. apply Forall_app in Hs as [Ht Hs]. apply Forall_cons in Hs as [_ Hs].
    destruct tok as [|c tok]; [by eapply IH|]. destruct first.
    + destruct (assert _ _) as [[]|]; [|done]. by eapply IH.
    + eapply IH; [done| |exact H]. apply Forall_app. split; [done|]. by apply Forall_singleton.
  - destruct Hf as [_ Ht]. assert (H' : p' = p ++ [tok]) by (destruct tok; by injection H). subst p'.
    apply Forall_app. split; [done|]. apply Forall_singleton. by rewrite <- Ht.
Qed.

Lemma normalize_chars (P : list Z -> Prop) p : Forall P (path p) -> P point2 -> Forall P (path (fst (normalize p))).
Proof.
  intros Hp H2. unfold normalize.
  assert (Hg : forall l st, Forall P l -> Forall P (fst st) -> Forall P (fst (fold_left normalize_step l st))).
  { induction l as [|c l IH]; intros [res b] Hl Hs; [done|]. apply Forall_cons in Hl as [Hc Hl].
    cbn [fold_left]. apply IH; [done|]. unfold normalize_step. cbn [fst] in Hs.
    case_bool_decide; [done|]. case_bool_decide; [destruct (_ && _)|]; cbn [fst].
    - by apply Forall_removelast.
    - apply Forall_app. split; [done|]. by apply Forall_singleton.
    - apply Forall_app. split; [done|]. by apply Forall_singleton. }
  specialize (Hg (path p) ([], true) Hp ltac:(constructor)).
  by destruct (fold_left normalize_step (path p) ([], true)).
Qed.

Definition no_slash (s : wstring) : Prop := Forall (fun c => c <> SLASH) s.

Lemma create_path_no_slash fromUTF8 h s f :
  Forall no_slash (path (base h)) -> create_path ndebug fromUTF8 h s = Ret f -> Forall no_slash (path (base f)).
Proof.
  intros Hh H. unfold create_path in H. set (s1 := replace_slashes (fromUTF8 s)) in H.
  assert (Hs1 : no_slash s1).
  { unfold s1, replace_slashes. apply Forall_fmap, Forall_forall. intros c _. unfold compose. zcase; unfold BSL, SLASH in *; lia. }
  assert (Hc : forall t b, no_slash t -> no_slash (collapse t b)).
  { clear. induction t as [|c t IH]; intros b Ht; [done|]. apply Forall_cons in Ht as [Hc Ht]. cbn [collapse].
    destruct (c =? BSL); [destruct b|]; try (by apply IH); constructor; try done; by apply IH. }
  set (s2 := if _ || _ then _ else _) in H.
  assert (Hs2 : no_slash s2) by (unfold s2; destruct (_ || _); [constructor; [done|]|]; by apply Hc).
  destruct (ShieSSHPath ndebug s2) as [p|] eqn:Ep; [|done]. cbn [mbind exc_bind] in H.
  assert (Hp : Forall no_slash (path p)).
  { unfold ShieSSHPath in Ep. destruct (get_standard_form s2) as [s3|] eqn:E3; [|done]. cbn [mbind exc_bind] in Ep.
    unfold get_standard_form in E3. destruct ((length s2 <? 1)%nat || _); [done|]. injection E3 as <-.
    destruct (init ndebug (drop 1 s2)) as [q|] eqn:Eq; [|done]. injection Ep as <-. cbn [path].
    unfold init in Eq. destruct (find_double _); [done|]. destruct (existsb _ _); [done|].
    destruct (negb _ && negb _); [done|]. destruct (parse_path ndebug (drop 1 s2) _) as [[r d]|] eqn:Er; [|done].
    cbn [mbind exc_bind] in Eq. destruct (assert _ _) as [[]|]; [|done]. injection Eq as <-. cbn [path].
    eapply parse_loop_chars; [|constructor|exact Er]. by apply Forall_drop. }
  pose proof (normalize_chars no_slash p Hp ltac:(by repeat constructor)) as Hn.
  destruct (normalize p) as [pn b]. cbn [fst] in Hn. destruct b; cbn [negb] in H; [|by destruct (to_string ndebug pn)].
  destruct (isRelative pn) eqn:Er.
  - unfold path_plus in H. rewrite Er in H. cbn [negb] in H.
    destruct (has_drive_letter pn && _); [by destruct (to_string ndebug (base h)), (to_string ndebug pn)|].
    cbn [mbind exc_bind] in H. apply sftp_file_path_inv in H as [-> _]. cbn [base path]. by apply Forall_app.
  - destruct (n_first_dirs pn (nDirs (base h))) as [hd|]; cbn [negb] in H; [|by destruct (to_string ndebug pn)].
    destruct (path_eq hd (base h) && _); cbn [negb] in H; [|by destruct (to_string ndebug pn)].
    by apply sftp_file_path_inv in H as [-> _].
Qed.

(** A client path as [unix_form] prints it, read again. *)

Lemma component_cons c : component c -> exists x t, c = x :: t /\ is_sep x = false /\ no_sep t.
Proof. intros [Hn Hs]. destruct c as [|x t]; [done|]. apply Forall_cons in Hs as [? ?]. by exists x, t. Qed.

Lemma find_first_of_app tok c rest : no_sep tok -> is_sep c = true ->
  find_first_of (tok ++ c :: rest) = (tok, Some rest).
Proof.
  intros Ht Hc. induction Ht as [|x tok Hx Ht IH]; cbn [find_first_of app]; [by rewrite Hc|]. by rewrite Hx, IH.
Qed.

Lemma find_first_of_all tok : no_sep tok -> find_first_of tok = (tok, None).
Proof. intros Ht. induction Ht as [|x tok Hx Ht IH]; [done|]. cbn [find_first_of]. by rewrite Hx, IH. Qed.

Lemma parse_join cs : Forall component cs -> forall fuel dr p, (length (join BSL cs) <= fuel)%nat ->
  parse_loop ndebug fuel (join BSL cs) false dr p = Ret (p ++ cs, dr).
Proof.
  induction 1 as [|c cs Hc Hcs IH]; intros fuel dr p Hf.
  - rewrite app_nil_r. by destruct fuel.
  - destruct (component_cons c Hc) as (x & t & -> & Hx & Ht).
    assert (Hn : no_sep (x :: t)) by by constructor.
    destruct cs as [|c2 cs].
    + destruct fuel as [|fuel]; [cbn in Hf; lia|]. cbn [join parse_loop].
      by rewrite (find_first_of_all _ Hn).
    + change (join BSL ((x :: t) :: c2 :: cs)) with ((x :: t) ++ BSL :: join BSL (c2 :: cs)) in *.
      rewrite length_app in Hf. cbn [length] in Hf.
      destruct fuel as [|fuel]; [lia|]. cbn [parse_loop app].
      rewrite app_comm_cons, (find_first_of_app _ BSL _ Hn eq_refl), IH by lia. by rewrite <- app_assoc.
Qed.

Lemma find_double_cons c s : c <> BSL -> find_double (c :: s) = find_double s.
Proof. intros Hc. cbn [find_double]. destruct s as [|b s]; [done|]. by rewrite (proj2 (Z.eqb_neq c BSL) Hc). Qed.

Lemma not_sep c : is_sep c = false -> c <> BSL /\ c <> COLON.
Proof. unfold is_sep. intros H. apply orb_false_iff in H as [H1 H2]. zbool. done. Qed.

Lemma find_double_app s t : no_sep s -> find_double (s ++ t) = find_double t.
Proof.
  induction 1 as [|c s Hc Hs IH]; [done|]. cbn [app]. rewrite find_double_cons; [done|]. by destruct (not_sep _ Hc).
Qed.

Lemma find_double_join cs : Forall component cs -> find_double (BSL :: join BSL cs) = false.
Proof.
  induction 1 as [|c cs Hc Hcs IH]; [done|]. destruct (component_cons c Hc) as (x & t & -> & Hx & Ht).
  assert (Hn : no_sep (x :: t)) by by constructor.
  assert (Hj : forall r, find_double r = false -> find_double (BSL :: (x :: t) ++ r) = false).
  { intros r Hr. change (((BSL =? BSL) && (x =? BSL)) || find_double ((x :: t) ++ r) = false).
    rewrite (find_double_app _ _ Hn), Hr, (proj2 (Z.eqb_neq x BSL)); [done|]. by destruct (not_sep _ Hx). }
  destruct cs as [|c2 cs].
  - specialize (Hj [] eq_refl). by rewrite app_nil_r in Hj.
  - exact (Hj (BSL :: join BSL (c2 :: cs)) IH).
Qed.

Lemma collapse_id s : forall b, find_double s = false -> (b = true -> head s <> Some BSL) -> collapse s b = s.
Proof.
  induction s as [|c s IH]; intros b Hf Hb; [done|]. cbn [collapse]. destruct (c =? BSL) eqn:E.
  - apply Z.eqb_eq in E as ->. destruct b; [by specialize (Hb eq_refl)|]. f_equal. destruct s as [|d s]; [done|].
    cbn [find_double] in Hf. apply orb_false_iff in Hf as [H1 H2]. apply IH; [done|]. intros _ [= ->]. done.
  - apply Z.eqb_neq in E. rewrite find_double_cons in Hf by done. f_equal. by apply IH.
Qed.

Lemma normalize_id p : Forall clean (path p) -> normalize p = (p, true).
Proof.
  intros Hc. unfold normalize.
  assert (Hg : forall l res, Forall clean l -> fold_left normalize_step l (res, true) = (res ++ l, true)).
  { induction l as [|c l IH]; intros res Hl; [by rewrite app_nil_r|]. apply Forall_cons in Hl as [(H1 & H2 & H3) Hl].
    cbn [fold_left]. unfold normalize_step at 2. rewrite !bool_decide_eq_false_2, IH by done. by rewrite <- app_assoc. }
  rewrite Hg by done. by destruct p.
Qed.

Lemma replace_join cs : Forall no_slash cs -> replace_slashes (join SLASH cs) = join BSL cs.
Proof.
  assert (Hr : forall c, no_slash c -> replace_slashes c = c).
  { induction 1 as [|x c Hx Hc IH]; [done|]. unfold replace_slashes in *. cbn [map].
    by rewrite (proj2 (Z.eqb_neq x SLASH) Hx), IH. }
  induction 1 as [|c cs Hc Hcs IH]; [done|]. destruct cs as [|c2 cs]; [by apply Hr|].
  change (join SLASH (c :: c2 :: cs)) with (c ++ SLASH :: join SLASH (c2 :: cs)).
  unfold replace_slashes in *. rewrite map_app. cbn [map]. by rewrite IH, Hr.
Qed.

Lemma join_no_colon cs : Forall component cs -> existsb (Z.eqb COLON) (join BSL cs) = false.
Proof.
  assert (Hc : forall c, no_sep c -> existsb (Z.eqb COLON) c = false).
  { induction 1 as [|x c Hx Hs IH]; [done|]. cbn [existsb]. apply not_sep in Hx as [_ Hx].
    by rewrite IH, (proj2 (Z.eqb_neq COLON x)). }
  induction 1 as [|c cs [_ Hs] Hcs IH]; [done|]. destruct cs as [|c2 cs]; [by apply Hc|].
  change (join BSL (c :: c2 :: cs)) with (c ++ BSL :: join BSL (c2 :: cs)).
  rewrite existsb_app, Hc by done. by cbn [existsb orb].
Qed.

Definition lower_letter (d : Z) : Prop := 97 <= d <= 122.

Lemma parse_drive fuel d dr s : is_sep d = false ->
  parse_loop ndebug (S (S fuel)) (d :: COLON :: BSL :: s) true dr [] = parse_loop ndebug fuel s false (tolower d) [].
Proof.
  intros Hd. assert (Hf : find_first_of (d :: COLON :: BSL :: s) = ([d], Some (BSL :: s))).
  { cbn [find_first_of]. by rewrite Hd. }
  remember (S fuel) as n eqn:En. cbn [parse_loop]. rewrite Hf. unfold assert. cbn [length Nat.eqb].
  rewrite orb_true_r. cbn [mbind exc_bind]. by subst n.
Qed.

Lemma init_absolute d cs : lower_letter d -> Forall component cs ->
  init ndebug (d :: COLON :: BSL :: join BSL cs) = Ret (mkPath cs d false).
Proof.
  unfold lower_letter. intros Hd Hcs.
  assert (Hsep : is_sep d = false) by (unfold is_sep, BSL, COLON; apply orb_false_iff; split; apply Z.eqb_neq; lia).
  assert (Hdr : has_drive d = true) by (unfold has_drive, QUEST; apply negb_true_iff, Z.eqb_neq; lia).
  assert (Hlow : tolower d = d) by (unfold tolower; zcase; lia).
  set (w := d :: COLON :: BSL :: join BSL cs).
  assert (Hfd : find_double w = false).
  { unfold w. rewrite find_double_cons by (by destruct (not_sep _ Hsep)). rewrite find_double_cons by done. by apply find_double_join. }
  assert (Hcol : existsb (Z.eqb COLON) (drop 2 w) = false) by exact (join_no_colon cs Hcs).
  assert (Hl : (3 <= length w)%nat) by (unfold w; cbn [length]; lia).
  unfold init. rewrite Hfd, Hcol. change (znth 0 w 1 =? COLON) with true. change (znth 0 w 0) with d.
  change (znth 0 w 2 =? BSL) with true. rewrite !(proj2 (Nat.leb_le _ _)) by lia. cbn [andb]. rewrite Hdr.
  rewrite orb_true_r. cbn [negb andb]. unfold parse_path, w. rewrite Hdr. cbn [length]. rewrite (parse_drive _ _ _ _ Hsep), parse_join by (try done; cbn [length]; lia).
  cbn [mbind exc_bind app]. unfold assert. by rewrite Hlow, Hdr, !orb_true_r.
Qed.

Lemma all2_length {A} (f : A -> A -> bool) l k : all2 f l k = true -> length l = length k.
Proof.
  revert k. induction l as [|x l IH]; intros [|y k] H; try done. cbn in H |- *. apply andb_true_iff in H as [_ H]. f_equal. by apply IH.
Qed.

Lemma create_path_absolute fromUTF8 h f u :
  lower_letter (drive (base h)) -> isRelative (base h) = false -> confined h f -> Forall no_slash (path (base f)) ->
  fromUTF8 u = SLASH :: drive (base h) :: COLON :: SLASH :: join SLASH (path (base f)) ->
  create_path ndebug fromUTF8 h u = Ret f.
Proof.
  intros Hd Hr [C1 C2 C3 C4 C5] Hns Hu. unfold create_path. rewrite Hu.
  set (d := drive (base h)) in *. set (cs := path (base f)) in *.
  assert (Hcs : Forall component cs) by (eapply Forall_impl; [exact C4|by intros ? []]).
  assert (Hrep : replace_slashes (SLASH :: d :: COLON :: SLASH :: join SLASH cs) = BSL :: d :: COLON :: BSL :: join BSL cs).
  { unfold lower_letter in Hd. pose proof (replace_join cs Hns) as Hj. unfold replace_slashes in *. cbn [map].
    rewrite (proj2 (Z.eqb_neq d SLASH)), Hj by (unfold SLASH; lia). done. }
  assert (Hsep : is_sep d = false).
  { unfold lower_letter in Hd. unfold is_sep, BSL, COLON. apply orb_false_iff. split; apply Z.eqb_neq; lia. }
  rewrite Hrep, collapse_id; [| |done].
  2: { cbn [find_double]. rewrite (proj2 (Z.eqb_neq d BSL)) by (by destruct (not_sep _ Hsep)).
       pose proof (find_double_join cs Hcs) as Hfd. cbn [andb orb]. rewrite andb_false_r. exact Hfd. }
  change (_ || negb (znth 0 (BSL :: _) 0 =? BSL)) with false. cbn iota.
  unfold ShieSSHPath. change (get_standard_form (BSL :: ?s)) with (Ret s). cbn [mbind exc_bind].
  rewrite init_absolute by done. cbn [mbind exc_bind path drive].
  assert (Hdr : has_drive d = true).
  { unfold lower_letter in Hd. unfold has_drive, QUEST. apply negb_true_iff, Z.eqb_neq. lia. }
  unfold has_drive_letter at 1. cbn [drive]. rewrite Hdr. cbn [negb].
  rewrite normalize_id by done. cbn [negb isRelative].
  assert (Hlen : (nDirs (base h) <= length cs)%nat).
  { apply all2_length in C3. rewrite length_take in C3. unfold nDirs in *. fold cs in C3. lia. }
  unfold n_first_dirs. cbn [nDirs path]. unfold nDirs at 1. cbn [path].
  rewrite (proj2 (Nat.ltb_ge _ _) Hlen). unfold path_eq. cbn [isRelative drive path]. rewrite Hr, Z.eqb_refl, C3.
  fold d. rewrite Z.eqb_refl, orb_true_r. cbn [negb andb Bool.eqb]. unfold sftp_file_path. cbn [isRelative].
  rewrite <- C5. destruct f as [[p dd r] n]. cbn in *. by subst.
Qed.

(** C28: [SSH_FXP_REALPATH] is a retraction.  The path reported for any accepted
    client path, sent back by the client, is accepted and denotes the same file:
    canonicalising twice is canonicalising once. *)
Theorem realpath_stable fromUTF8 toUTF8 home_dir h utf8_path f u :
  make_factory ndebug fromUTF8 home_dir = Ret h -> lower_letter (drive (base h)) ->
  Forall no_slash (path (base h)) ->
  create_path ndebug fromUTF8 h utf8_path = Ret f ->
  unix_form ndebug (base f) = Ret u -> fromUTF8 (toUTF8 u) = u ->
  create_path ndebug fromUTF8 h (toUTF8 u) = Ret f.
Proof.
  intros Hh Hd Hns Hf Hu Hutf. destruct (factory_clean _ _ _ Hh) as (Ha & _ & _).
  pose proof (create_path_confined _ _ _ _ _ Hh Hf) as Hc. pose proof (create_path_no_slash _ _ _ _ Hns Hf) as Hs.
  apply create_path_absolute; try done. rewrite Hutf.
  destruct Hc as [C1 C2 C3 C4 C5]. unfold unix_form, to_string_generic, has_drive_letter in Hu. rewrite C1, C2 in Hu.
  assert (Hdr : has_drive (drive (base h)) = true).
  { unfold lower_letter in Hd. unfold has_drive, QUEST. apply negb_true_iff, Z.eqb_neq. lia. }
  rewrite Hdr, orb_true_r in Hu. unfold assert in Hu. rewrite orb_true_r in Hu. by injection Hu as <-.
Qed.

(** ** What can be thrown *)

(** [InvalidPath], and failed assertions in a build that has them. *)
Definition path_error (e : exn) : Prop := e = InvalidPath \/ (ndebug = false /\ e = AssertFailed).
Definition raises {A} (m : exc A) : Prop := match m with Ret _ => True | Throw e => path_error e end.

Lemma raises_bind {A B} (m : exc A) (f : A -> exc B) : raises m -> (forall a, raises (f a)) -> raises (m ≫= f).
Proof. intros Hm Hf. destruct m; [apply Hf|done]. Qed.

Lemma raises_assert c : raises (assert ndebug c).
Proof. unfold assert. destruct ndebug eqn:E, c; try done. right. done. Qed.

Lemma raises_invalid {A} : raises (Throw InvalidPath : exc A).
Proof. by left. Qed.

Lemma raises_generic p sep : raises (to_string_generic ndebug p sep).
Proof. apply raises_bind; [apply raises_assert|done]. Qed.

Lemma raises_to_string p : raises (to_string ndebug p).
Proof. apply raises_generic. Qed.

Lemma raises_to_string_end p b : raises (to_string_end ndebug p b).
Proof.
  unfold to_string_end. destruct (if b then _ else _).
  - apply raises_bind; [apply raises_to_string|]. intros _. apply raises_invalid.
  - apply raises_bind; [apply raises_to_string|]. intros s. by destruct (negb b).
Qed.

Lemma raises_parse fuel : forall s first dr p, raises (parse_loop ndebug fuel s first dr p).
Proof.
  induction fuel as [|fuel IH]; intros s first dr p; [done|]. destruct s as [|c s]; [done|]. cbn [parse_loop].
  destruct (find_first_of (c :: s)) as [[|d tok] [rest|]]; [apply IH|done| |done].
  destruct first; [|apply IH]. apply raises_bind; [apply raises_assert|]. intros _. apply IH.
Qed.

Lemma raises_init s : raises (init ndebug s).
Proof.
  unfold init. destruct (find_double s); [apply raises_invalid|]. destruct (existsb _ _); [apply raises_invalid|].
  set (dr := if (2 <=? length s)%nat && _ then _ else QUEST). destruct (negb _ && negb _); [apply raises_invalid|].
  apply raises_bind; [apply raises_parse|]. intros [p d]. apply raises_bind; [apply raises_assert|done].
Qed.

Lemma raises_file_path p n : raises (sftp_file_path ndebug p n).
Proof.
  unfold sftp_file_path. destruct (isRelative p); [|done].
  apply raises_bind; [apply raises_to_string|]. intros _. apply raises_invalid.
Qed.

Lemma raises_create_path fromUTF8 h s : raises (create_path ndebug fromUTF8 h s).
Proof.
  unfold create_path. set (s2 := if _ || _ then _ else _). clearbody s2.
  apply raises_bind.
  { unfold ShieSSHPath, get_standard_form. apply raises_bind.
    - destruct ((length s2 <? 1)%nat || _); [apply raises_invalid|done].
    - intros t. apply raises_bind; [apply raises_init|done]. }
  intros p. destruct (normalize p) as [pn ok]. destruct ok; cbn [negb].
  2: { apply raises_bind; [apply raises_to_string|]. intros _. apply raises_invalid. }
  destruct (isRelative pn).
  - apply raises_bind; [|intros; apply raises_file_path]. unfold path_plus.
    destruct (negb _); [apply raises_bind; [apply raises_to_string|intros; apply raises_invalid]|].
    destruct (has_drive_letter pn && _); [|done].
    do 2 (apply raises_bind; [apply raises_to_string|intros _]). apply raises_invalid.
  - match goal with |- raises (if negb ?v then _ else _) => destruct v end; cbn [negb]; [apply raises_file_path|].
    apply raises_bind; [apply raises_to_string|]. intros _. apply raises_invalid.
Qed.

Lemma raises_for_call f : raises (get_for_call ndebug f).
Proof. apply raises_bind; [apply raises_assert|]. intros _. apply raises_bind; [apply raises_to_string|done]. Qed.

Lemma raises_mask f : raises (get_mask_for_dir_search ndebug f).
Proof. apply raises_bind; [apply raises_assert|]. intros _. apply raises_bind; [apply raises_to_string_end|done]. Qed.

Lemma raises_unix p : raises (unix_form ndebug p).
Proof. apply raises_bind; [apply raises_generic|done]. Qed.

(** ** The strings of a confined path *)

Lemma confined_name home f : has_drive_letter (base home) = true -> confined home f ->
  to_string ndebug (base f) = Ret (drive (base home) :: COLON :: BSL :: join BSL (path (base f))).
Proof.
  intros Hd [C1 C2 _ _ _]. rewrite drive_prefix; [by rewrite C2| |done]. unfold has_drive_letter in *. by rewrite C2.
Qed.

Lemma confined_for_call home f : has_drive_letter (base home) = true -> confined home f ->
  get_for_call ndebug f = Ret (longPrefix ++ drive (base home) :: COLON :: BSL :: join BSL (path (base f))).
Proof.
  intros Hd Hc. unfold get_for_call, assert. rewrite (cf_absolute _ _ Hc), orb_true_r. cbn [mbind exc_bind].
  by rewrite (confined_name home).
Qed.

(** The first directories of a confined path, if the home is among them. *)
Lemma confined_first_dirs home f k : confined home f -> (nDirs (base home) <= k <= nDirs (base f))%nat ->
  exists g, file_n_first_dirs ndebug f k = Ret g /\ confined home g.
Proof.
  intros [C1 C2 C3 C4 C5] Hk. unfold file_n_first_dirs, n_first_dirs.
  rewrite (proj2 (Nat.ltb_ge _ _)) by lia. cbn [mbind exc_bind]. unfold sftp_file_path. cbn [isRelative]. rewrite C1.
  eexists. split; [done|]. split; cbn [base isRelative drive path nUserHomePos]; try done.
  - rewrite take_take, Nat.min_l by lia. done.
  - by apply Forall_take.
Qed.

End Proofs.

Lemma sftp_paths_confined_witness :
  exists h f, make_factory false utf8_id (str "C:\users\joe") = Ret h /\
    create_path false utf8_id h (str "/c:/USERS/joe/./x") = Ret f /\ confined h f.
Proof.
  do 2 eexists. split; [vm_compute; reflexivity|]. split; [vm_compute; reflexivity|].
  eapply (sftp_paths_confined false utf8_id (str "C:\users\joe") _ (str "/c:/USERS/joe/./x"));
    vm_compute; reflexivity.
Defined.

Lemma realpath_stable_witness :
  exists h f u, make_factory true utf8_id (str "C:\users\joe") = Ret h /\
    create_path true utf8_id h (str "x/../y/./z") = Ret f /\ unix_form true (base f) = Ret u /\
    u = str "/c:/users/joe/y/z" /\ create_path true utf8_id h (utf8_id u) = Ret f.
Proof.
  do 3 eexists. split; [vm_compute; reflexivity|]. split; [vm_compute; reflexivity|].
  split; [vm_compute; reflexivity|]. split; [vm_compute; reflexivity|].
  eapply (realpath_stable true utf8_id utf8_id (str "C:\users\joe") _ (str "x/../y/./z"));
    try (vm_compute; reflexivity).
  - vm_compute. by split.
  - repeat (apply Forall_cons; split; [unfold no_slash, SLASH; repeat (apply Forall_cons; split; [lia|]); apply Forall_nil; done|]).
    apply Forall_nil. done.
Defined.

End Paths.
