(* ===== verification/SftpAttrib.v ===== *)
(** * SftpAttrib: file attributes of the SFTP protocol

    shiesh/sftp-common.cpp, shiesh/strmode.cpp and the time conversions of
    Concurrenc++/SCommon.cpp: the attribute block of draft-ietf-secsh-filexfer and
    its translation to and from the structures of Windows.

    The readers work on the input queue of the subsystem: [SE Buffer], because a
    field that is missing makes [fatal] throw with the fields before it consumed. *)

From S2P Require Import Prelude SshBuffer CxxMonad.

Module Attribs.

(** ** Attributes *)

Definition SSH2_FILEXFER_ATTR_SIZE : Z := 0x00000001.
Definition SSH2_FILEXFER_ATTR_UIDGID : Z := 0x00000002.
Definition SSH2_FILEXFER_ATTR_PERMISSIONS : Z := 0x00000004.
Definition SSH2_FILEXFER_ATTR_ACMODTIME : Z := 0x00000008.
Definition SSH2_FILEXFER_ATTR_EXTENDED : Z := 0x80000000.

(** [flags & bit] as a condition. *)
Definition has (flags bit : Z) : bool := negb (Z.land flags bit =? 0).

Record Attrib := mkAttrib {
  flags : Z;
  size : Z;
  uid : Z;
  gid : Z;
  perm : Z;
  atime : Z;
  mtime : Z
}.

Definition attrib_clear : Attrib := mkAttrib 0 0 0 0 0 0 0.

(** ** Permissions *)

Definition FILE_ATTRIBUTE_READONLY : Z := 0x1.
Definition FILE_ATTRIBUTE_DIRECTORY : Z := 0x10.
Definition FILE_ATTRIBUTE_NORMAL : Z := 0x80.
Definition S_IFMT : Z := 0xF000.
Definition S_IFDIR : Z := 0x4000.
Definition S_IFCHR : Z := 0x2000.
Definition S_IFIFO : Z := 0x1000.
Definition S_IFREG : Z := 0x8000.
Definition S_IREAD : Z := 0x100.
Definition S_IWRITE : Z := 0x80.
Definition S_IEXEC : Z := 0x40.

(** 0444 is 292, 0222 is 146, 0111 is 73. *)
Definition toPOSIXFilePerm (wPerm : Z) : Z :=
  Z.lor (Z.lor 292 (if has wPerm FILE_ATTRIBUTE_READONLY then 0 else 146))
        (if has wPerm FILE_ATTRIBUTE_DIRECTORY then Z.lor S_IFDIR 73 else S_IFREG).

Definition toWindowsFilePerm (pPerm : Z) : Z :=
  let wPerm := if has pPerm 146 then 0 else FILE_ATTRIBUTE_READONLY in
  let wPerm := if has pPerm S_IFDIR then Z.lor wPerm FILE_ATTRIBUTE_DIRECTORY else wPerm in
  if wPerm =? 0 then FILE_ATTRIBUTE_NORMAL else wPerm.

(** ** Times *)

Record FILETIME := mkFileTime { dwLowDateTime : Z; dwHighDateTime : Z }.

Definition TIME_ADJUST_32_64 : Z := 116444736000000000.

(** The signed 64-bit value of a [LARGE_INTEGER]. *)
Definition s64 (z : Z) : Z := (z + 9223372036854775808) mod 18446744073709551616 - 9223372036854775808.
Definition QuadPart (low high : Z) : Z := s64 (high * 4294967296 + low).

(** [Int32x32To64] takes the low 32 bits of its arguments as signed. *)
Definition TimetToFileTime (t : Z) : FILETIME :=
  let ll := s64 (s32 t * 10000000 + TIME_ADJUST_32_64) in
  mkFileTime (u32 ll) (u32 (Z.shiftr ll 32)).

(** The division of C++ truncates. *)
Definition FileTimeToTimet (ft : FILETIME) : Z :=
  Z.quot (s64 (QuadPart (dwLowDateTime ft) (dwHighDateTime ft) - TIME_ADJUST_32_64)) 10000000.

(** ** Structures of Windows *)

(** The fields the code uses of [BY_HANDLE_FILE_INFORMATION] and
    [WIN32_FILE_ATTRIBUTE_DATA]. *)
Record FILE_INFO := mkInfo {
  dwFileAttributes : Z;
  ftCreationTime : FILETIME;
  ftLastAccessTime : FILETIME;
  ftLastWriteTime : FILETIME;
  nFileSizeHigh : Z;
  nFileSizeLow : Z
}.

Record WIN32_FIND_DATA := mkFind {
  fd_info : FILE_INFO;
  cFileName : list Z
}.

Definition stat_to_attrib (st : FILE_INFO) : Attrib :=
  let at_ := u32 (FileTimeToTimet (ftLastAccessTime st)) in
  let mt := u32 (FileTimeToTimet (ftLastAccessTime st)) in
  let fl := Z.lor (Z.lor 0 SSH2_FILEXFER_ATTR_SIZE) SSH2_FILEXFER_ATTR_PERMISSIONS in
  mkAttrib
    (if negb (at_ =? 0) && negb (mt =? 0) then Z.lor fl SSH2_FILEXFER_ATTR_ACMODTIME else fl)
    (u64 (QuadPart (nFileSizeLow st) (nFileSizeHigh st)))
    0 0 (toPOSIXFilePerm (dwFileAttributes st)) at_ mt.

Definition zero_time : FILETIME := mkFileTime 0 0.

Definition attrib_to_stat (a : Attrib) : FILE_INFO :=
  let f := flags a in
  mkInfo
    (if has f SSH2_FILEXFER_ATTR_PERMISSIONS then toWindowsFilePerm f else 0)
    zero_time
    (if has f SSH2_FILEXFER_ATTR_ACMODTIME then TimetToFileTime (atime a) else zero_time)
    (if has f SSH2_FILEXFER_ATTR_ACMODTIME then TimetToFileTime (mtime a) else zero_time)
    (if has f SSH2_FILEXFER_ATTR_SIZE then u32 (Z.shiftr (s64 (size a)) 32) else 0)
    (if has f SSH2_FILEXFER_ATTR_SIZE then u32 (size a) else 0).

(** ** The wire format *)

Definition when {M} `{MRet M} {A} (c : bool) (d : A) (m : M A) : M A := if c then m else mret d.

(** The vendor extensions: [count] pairs of strings that are dropped.  Every pair
    takes at least eight bytes of the queue, so the length of the queue bounds the
    loop. *)
Fixpoint skip_extensions (fuel : nat) (i count : Z) : SE Buffer unit :=
  match fuel with
  | O => throw Diverges
  | S fuel =>
      if i <? count then
        _ ← get_string;
        _ ← get_string;
        skip_extensions fuel (i + 1) count
      else mret tt
  end.

Definition decode_attrib : SE Buffer Attrib :=
  f ← get_int;
  sz ← when (has f SSH2_FILEXFER_ATTR_SIZE) 0 get_int64;
  u ← when (has f SSH2_FILEXFER_ATTR_UIDGID) 0 get_int;
  g ← when (has f SSH2_FILEXFER_ATTR_UIDGID) 0 get_int;
  p ← when (has f SSH2_FILEXFER_ATTR_PERMISSIONS) 0 get_int;
  at_ ← when (has f SSH2_FILEXFER_ATTR_ACMODTIME) 0 get_int;
  mt ← when (has f SSH2_FILEXFER_ATTR_ACMODTIME) 0 get_int;
  _ ← when (has f SSH2_FILEXFER_ATTR_EXTENDED) tt
        (count ← get_int;
         n ← gets buffer_len;
         skip_extensions (S (Z.to_nat n)) 0 (s32 count));
  mret (mkAttrib f sz u g p at_ mt).

Definition encode_attrib (b : Buffer) (a : Attrib) : res Buffer :=
  let f := flags a in
  b ← buffer_put_int b f;
  b ← (if has f SSH2_FILEXFER_ATTR_SIZE then buffer_put_int64 b (size a) else Ok b);
  b ← (if has f SSH2_FILEXFER_ATTR_UIDGID then buffer_put_int b (uid a) else Ok b);
  b ← (if has f SSH2_FILEXFER_ATTR_UIDGID then buffer_put_int b (gid a) else Ok b);
  b ← (if has f SSH2_FILEXFER_ATTR_PERMISSIONS then buffer_put_int b (perm a) else Ok b);
  b ← (if has f SSH2_FILEXFER_ATTR_ACMODTIME then buffer_put_int b (atime a) else Ok b);
  (if has f SSH2_FILEXFER_ATTR_ACMODTIME then buffer_put_int b (mtime a) else Ok b).

Definition fx2txt (status : Z) : string :=
  match status with
  | 0 => "No error"
  | 1 => "End of file"
  | 2 => "No such file or directory"
  | 3 => "Permission denied"
  | 4 => "Failure"
  | 5 => "Bad message"
  | 6 => "No connection"
  | 7 => "Connection lost"
  | 8 => "Operation unsupported"
  | _ => "Unknown status"
  end%string.

(** ** The long listing *)

Definition strmode (mode : Z) : list Z :=
  let fmt := Z.land mode S_IFMT in
  (if fmt =? S_IFDIR then str "d"
   else if fmt =? S_IFCHR then str "c"
   else if fmt =? S_IFREG then str "-"
   else if fmt =? S_IFIFO then str "p"
   else str "?")
  ++ concat (replicate 3
       ((if has mode (Z.lor S_IREAD S_IWRITE) then str "r" else str "-")
        ++ (if has mode S_IWRITE then str "w" else str "-")
        ++ (if has mode S_IEXEC then str "x" else str "-")))
  ++ str " ".

Definition pad_left (w : nat) (s : list Z) : list Z := replicate (w - length s) 32 ++ s.
Definition pad_right (w : nat) (s : list Z) : list Z := s ++ replicate (w - length s) 32.

Section Ls.
(** [FileTimeToSystemTime] and [wcsftime] with ["%Y %b %d %H:%M"]; empty when they fail. *)
Context (ftime : FILETIME -> list Z).

(** [buf] holds 1024 wide characters; a file name has at most 260, so [_snwprintf]
    does not truncate. *)
Definition ls_file (name : list Z) (st : FILE_INFO) : list Z :=
  let mode := strmode (toPOSIXFilePerm (dwFileAttributes st)) in
  mode ++ str " " ++ pad_right 8 (str "user") ++ str " " ++ pad_right 8 (str "group") ++ str " "
  ++ pad_left 8 (dec (u64 (QuadPart (nFileSizeLow st) (nFileSizeHigh st)))) ++ str " "
  ++ ftime (ftLastWriteTime st) ++ str " " ++ name.
End Ls.

Example ls_file_dir :
  ls_file (fun _ => str "2011 Apr 01 10:00") (str "docs")
    (mkInfo 0x10 zero_time zero_time zero_time 0 4096)
  = str "drwxrwxrwx  user     group        4096 2011 Apr 01 10:00 docs".
Proof. vm_compute. reflexivity. Qed.

(** ** The attribute block round trip *)

(** A getter at the front of a queue that holds [d] and then [rest]. *)
Definition reads {A} (n : Z) (m : SE Buffer A) (d : list Z) (v : A) : Prop :=
  forall b rest, capped n b -> contents b = d ++ rest ->
    wp m (fun x b' => x = v /\ capped n b' /\ contents b' = rest) (fun _ _ => False) b.

Lemma reads_int n v : 0 <= v < 2 ^ 32 -> reads n get_int (put_u32 v) v.
Proof.
  intros Hv b rest Hc Hb. unfold wp, get_int, get_or_fatal, buffer_get_int_ret.
  destruct (buffer_get_ret_app n b _ rest Hc Hb) as (b' & E & Hc' & Hr).
  change (zlen (put_u32 v)) with 4 in E. rewrite E. cbn. by rewrite get_put_u32.
Qed.

Lemma reads_int64 n v : 0 <= v < 2 ^ 64 -> reads n get_int64 (put_u64 v) v.
Proof.
  intros Hv b rest Hc Hb. unfold wp, get_int64, get_or_fatal, buffer_get_int64_ret.
  destruct (buffer_get_ret_app n b _ rest Hc Hb) as (b' & E & Hc' & Hr).
  change (zlen (put_u64 v)) with 8 in E. rewrite E. cbn. by rewrite get_put_u64.
Qed.

Lemma reads_string n s : zlen s <= 256 * 1024 -> reads n get_string (put_u32 (zlen s) ++ s) s.
Proof.
  intros Hs b rest Hc Hb. rewrite <- app_assoc in Hb. unfold wp, get_string.
  destruct (buffer_get_string_app n b s rest Hc Hs Hb) as (b' & E & Hc' & Hr).
  unfold buffer_get_string in E. destruct (buffer_get_string_ret b) as [[[x|] b1]| |]; try done.
  cbn in E. by injection E as -> ->.
Qed.

Lemma reads_when {A} n c (m : SE Buffer A) d v dflt :
  (c = true -> reads n m d v) -> (c = false -> v = dflt) ->
  reads n (when c dflt m) (if c then d else []) v.
Proof.
  intros Ht Hf. destruct c; [by apply Ht|]. intros b rest Hc Hb. by rewrite (Hf eq_refl).
Qed.

Lemma reads_bind {A B} n (m : SE Buffer A) (f : A -> SE Buffer B) d1 d2 v w :
  reads n m d1 v -> reads n (f v) d2 w -> reads n (m ≫= f) (d1 ++ d2) w.
Proof.
  intros Hm Hf b rest Hc Hb. rewrite <- app_assoc in Hb. apply wp_bind.
  eapply wp_mono; [by apply Hm|..|done]. cbn. intros a b1 (-> & Hc1 & Hb1). by apply Hf.
Qed.

Lemma reads_ret {A} n (v : A) : reads n (mret v) [] v.
Proof. intros b rest Hc Hb. by apply wp_ret. Qed.

Definition attrib_fields (a : Attrib) : list field :=
  let f := flags a in
  [FInt f] ++ (if has f SSH2_FILEXFER_ATTR_SIZE then [FInt64 (size a)] else [])
  ++ (if has f SSH2_FILEXFER_ATTR_UIDGID then [FInt (uid a); FInt (gid a)] else [])
  ++ (if has f SSH2_FILEXFER_ATTR_PERMISSIONS then [FInt (perm a)] else [])
  ++ (if has f SSH2_FILEXFER_ATTR_ACMODTIME then [FInt (atime a); FInt (mtime a)] else []).

Lemma res_bind_Ok {A} (m : res A) : m ≫= Ok = m.
Proof. by destruct m. Qed.

Lemma encode_attrib_fields b a : encode_attrib b a = put_fields b (attrib_fields a).
Proof.
  unfold encode_attrib, attrib_fields.
  destruct (has _ SSH2_FILEXFER_ATTR_SIZE), (has _ SSH2_FILEXFER_ATTR_UIDGID),
    (has _ SSH2_FILEXFER_ATTR_PERMISSIONS), (has _ SSH2_FILEXFER_ATTR_ACMODTIME);
    cbn [app put_fields put_field];
    repeat (match goal with |- (?m ≫= _) = (?m ≫= _) => destruct m; [|done..] end;
            cbn [mbind res_bind]); by rewrite ?res_bind_Ok.
Qed.

(** An attribute block in memory: every field in its width, those the flags do
    not announce zero, no vendor extension. *)
Record attrib_ok (a : Attrib) : Prop := {
  ao_flags : 0 <= flags a < 2 ^ 32;
  ao_size : 0 <= size a < 2 ^ 64;
  ao_words : Forall (fun v => 0 <= v < 2 ^ 32) [uid a; gid a; perm a; atime a; mtime a];
  ao_no_size : has (flags a) SSH2_FILEXFER_ATTR_SIZE = false -> size a = 0;
  ao_no_ids : has (flags a) SSH2_FILEXFER_ATTR_UIDGID = false -> uid a = 0 /\ gid a = 0;
  ao_no_perm : has (flags a) SSH2_FILEXFER_ATTR_PERMISSIONS = false -> perm a = 0;
  ao_no_times : has (flags a) SSH2_FILEXFER_ATTR_ACMODTIME = false -> atime a = 0 /\ mtime a = 0;
  ao_plain : has (flags a) SSH2_FILEXFER_ATTR_EXTENDED = false
}.

Lemma attrib_fields_ok a : attrib_ok a -> Forall field_ok (attrib_fields a).
Proof.
  intros [H1 H2 H3 _ _ _ _ _]. rewrite !Forall_cons in H3. destruct H3 as (? & ? & ? & ? & ? & _).
  unfold attrib_fields. repeat (apply Forall_app; split); try (destruct (has _ _));
    repeat (apply Forall_cons; split); try apply Forall_nil; done.
Qed.

Lemma attrib_bytes a : fields_bytes (attrib_fields a) =
  let f := flags a in
  put_u32 f ++ (if has f SSH2_FILEXFER_ATTR_SIZE then put_u64 (size a) else [])
  ++ (if has f SSH2_FILEXFER_ATTR_UIDGID then put_u32 (uid a) else [])
  ++ (if has f SSH2_FILEXFER_ATTR_UIDGID then put_u32 (gid a) else [])
  ++ (if has f SSH2_FILEXFER_ATTR_PERMISSIONS then put_u32 (perm a) else [])
  ++ (if has f SSH2_FILEXFER_ATTR_ACMODTIME then put_u32 (atime a) else [])
  ++ (if has f SSH2_FILEXFER_ATTR_ACMODTIME then put_u32 (mtime a) else []) ++ [].
Proof.
  unfold attrib_fields, fields_bytes. cbv zeta.
  destruct (has _ SSH2_FILEXFER_ATTR_SIZE), (has _ SSH2_FILEXFER_ATTR_UIDGID),
    (has _ SSH2_FILEXFER_ATTR_PERMISSIONS), (has _ SSH2_FILEXFER_ATTR_ACMODTIME); done.
Qed.

Lemma decode_reads n a : attrib_ok a -> reads n decode_attrib (fields_bytes (attrib_fields a)) a.
Proof.
  intros [H1 H2 H3 N1 N2 N3 N4 Hx]. rewrite !Forall_cons in H3. destruct H3 as (? & ? & ? & ? & ? & _).
  rewrite attrib_bytes. cbv zeta. unfold decode_attrib.
  apply reads_bind with (v := flags a); [by apply reads_int|].
  apply reads_bind with (v := size a); [apply reads_when; [by intros; apply reads_int64|done]|].
  apply reads_bind with (v := uid a); [apply reads_when; [by intros; apply reads_int|intros E; by destruct (N2 E)]|].
  apply reads_bind with (v := gid a); [apply reads_when; [by intros; apply reads_int|intros E; by destruct (N2 E)]|].
  apply reads_bind with (v := perm a); [apply reads_when; [by intros; apply reads_int|done]|].
  apply reads_bind with (v := atime a); [apply reads_when; [by intros; apply reads_int|intros E; by destruct (N4 E)]|].
  apply reads_bind with (v := mtime a); [apply reads_when; [by intros; apply reads_int|intros E; by destruct (N4 E)]|].
  rewrite Hx. cbn [when]. destruct a. by apply (reads_ret n).
Qed.

(** The attribute block round trip.  A block written behind the data of a
    buffer is read back unchanged, and what follows it on the wire is left in the
    queue. *)
Theorem attrib_roundtrip a n b :
  attrib_ok a -> capped n b -> contents b = [] -> fits n (fields_bytes (attrib_fields a)) ->
  exists b1, encode_attrib b a = Ok b1 /\
    forall b2 rest m, capped m b2 -> contents b2 = contents b1 ++ rest ->
      exists b3, decode_attrib b2 = (Ret a, b3) /\ contents b3 = rest.
Proof.
  intros Ha Hc Hb Hf. rewrite encode_attrib_fields.
  destruct (put_fields_fits _ n b Hc (attrib_fields_ok a Ha) Hf) as (b1 & E & _ & Hb1).
  rewrite Hb in Hb1. exists b1. split; [done|]. intros b2 rest m Hc2 Hb2. rewrite Hb1 in Hb2.
  pose proof (decode_reads m a Ha b2 rest Hc2 Hb2) as H. unfold wp in H.
  destruct (decode_attrib b2) as [[x|] b3]; [|done]. destruct H as (-> & _ & H). by exists b3.
Qed.

(** ** The extension loop ends *)

Lemma skip_extensions_getter fuel : forall i count b, queue_ok b -> zlen (contents b) < Z.of_nat fuel ->
  wp (skip_extensions fuel i count) (fun _ b' => drained 0 b b') (fun e b' => e = ShuttingDown /\ drained 0 b b') b.
Proof.
  induction fuel as [|fuel IH]; intros i count b Hb Hf; [pose proof (zlen_nonneg (contents b)); lia|].
  cbn [skip_extensions]. destruct (i <? count); [|apply wp_ret; by apply drained_refl].
  apply wp_bind. eapply wp_mono; [by apply getter_string|..]; cbn; [|done]. intros _ b1 H1.
  apply wp_bind. eapply wp_mono; [apply getter_string; by destruct H1|..]; cbn.
  2: { intros e b2 [-> H2]. split; [done|]. eapply drained_le, drained_trans; [|exact H1|exact H2]. lia. }
  intros _ b2 H2. pose proof (drained_trans _ _ _ _ _ H1 H2) as H12.
  eapply wp_mono; [apply IH; destruct H12; [done|lia]|..]; cbn.
  - intros _ b3 H3. eapply drained_le, drained_trans; [|exact H12|exact H3]. lia.
  - intros e b3 [-> H3]. split; [done|]. eapply drained_le, drained_trans; [|exact H12|exact H3]. lia.
Qed.

Lemma getter_when {A} k c (d : A) (m : SE Buffer A) : 0 <= k -> getter k m -> getter 0 (when c d m).
Proof. intros Hk Hm. destruct c; [by eapply getter_le|apply getter_ret]. Qed.

Lemma getter_decode : getter 0 decode_attrib.
Proof.
  unfold decode_attrib. eapply getter_seq; [|apply getter_int|]; [lia|]. intros f.
  do 6 (eapply (getter_seq 0); [lia|eapply getter_when; [|auto with sftp]; lia|intros ?]).
  eapply (getter_seq 0); [lia| |intros; apply getter_ret].
  eapply (getter_when 0); [lia|]. eapply getter_seq; [|apply getter_int|]; [lia|]. intros count b Hb.
  apply wp_bind, wp_gets. apply skip_extensions_getter; [done|].
  rewrite (buffer_len_contents b) by (by destruct Hb). pose proof (zlen_nonneg (contents b)). lia.
Qed.
#[export] Hint Resolve getter_decode : sftp.

(** ** Translation to and from Windows *)

Lemma QuadPart_split v : - 2 ^ 63 <= v < 2 ^ 63 -> QuadPart (u32 v) (u32 (Z.shiftr v 32)) = v.
Proof.
  intros Hv. unfold QuadPart, u32, s64. rewrite Z.shiftr_div_pow2 by lia.
  change (2 ^ 63) with 9223372036854775808 in Hv. change (2 ^ 32) with 4294967296. Z.div_mod_to_equations. lia.
Qed.

Lemma filetime_value t : FileTimeToTimet (TimetToFileTime t) = s32 t.
Proof.
  unfold FileTimeToTimet, TimetToFileTime. cbn [dwLowDateTime dwHighDateTime].
  assert (Hs : - 2147483648 <= s32 t < 2147483648) by (unfold s32; Z.div_mod_to_equations; lia).
  assert (H64 : s64 (s32 t * 10000000 + TIME_ADJUST_32_64) = s32 t * 10000000 + TIME_ADJUST_32_64).
  { unfold s64, TIME_ADJUST_32_64. rewrite Z.mod_small; lia. }
  rewrite H64, QuadPart_split by (unfold TIME_ADJUST_32_64; lia).
  replace (s32 t * 10000000 + TIME_ADJUST_32_64 - TIME_ADJUST_32_64) with (s32 t * 10000000) by lia.
  unfold s64. rewrite Z.mod_small by lia.
  replace (s32 t * 10000000 + 9223372036854775808 - 9223372036854775808) with (s32 t * 10000000) by lia.
  apply Z.quot_mul. lia.
Qed.

(** What reaches the file of the attributes a client asks for.  Times up to
    January 2038 survive the translation to a [FILETIME] and back, later ones come
    back 2^32 seconds earlier; the permission bits have no effect at all, and a
    request that sets only the permissions marks the file read-only. *)
Theorem attrib_to_windows t a p :
  0 <= t < 2 ^ 32 ->
  FileTimeToTimet (TimetToFileTime t) = (if t <? 2 ^ 31 then t else t - 2 ^ 32) /\
  attrib_to_stat (mkAttrib (flags a) (size a) (uid a) (gid a) p (atime a) (mtime a)) = attrib_to_stat a /\
  (flags a = SSH2_FILEXFER_ATTR_PERMISSIONS -> dwFileAttributes (attrib_to_stat a) = FILE_ATTRIBUTE_READONLY).
Proof.
  intros Ht. split; [|split].
  - rewrite filetime_value. unfold s32. zcase; change (2 ^ 31) with 2147483648 in *; change (2 ^ 32) with 4294967296 in *;
      Z.div_mod_to_equations; lia.
  - done.
  - intros Hf. unfold attrib_to_stat. rewrite Hf. done.
Qed.

Lemma attrib_to_windows_witness :
  FileTimeToTimet (TimetToFileTime 4000000000) = -294967296 /\
  dwFileAttributes (attrib_to_stat (mkAttrib 4 0 0 0 438 0 0)) = 1.
Proof.
  destruct (attrib_to_windows 4000000000 (mkAttrib 4 0 0 0 438 0 0) 0 ltac:(lia)) as (H1 & _ & H2).
  split; [exact H1|exact (H2 eq_refl)].
Defined.

Lemma attrib_roundtrip_witness :
  exists b1, encode_attrib buffer_init (mkAttrib 13 70000 0 0 420 1300000000 1300000001) = Ok b1 /\
    forall b2 rest m, capped m b2 -> contents b2 = contents b1 ++ rest ->
      exists b3, decode_attrib b2 = (Ret (mkAttrib 13 70000 0 0 420 1300000000 1300000001), b3) /\ contents b3 = rest.
Proof.
  apply (attrib_roundtrip (mkAttrib 13 70000 0 0 420 1300000000 1300000001) 0 buffer_init).
  - split; cbn [flags size uid gid perm atime mtime]; [lia|lia| |done|done|done|done|done].
    repeat (apply Forall_cons; split; [lia|]). by apply Forall_nil.
  - apply buffer_init_capped.
  - reflexivity.
  - vm_compute. congruence.
Defined.

End Attribs.
