(* ===== verification/SftpServer.v ===== *)
(** * SftpServer: the SFTP subsystem

    shiesh/sftp-server.cpp from [errno_to_portable] on, and class [SFTP] of
    shiesh/sftp.h: the handle table, the replies, one handler per request, the
    dispatch [process] and the loop [run] of the subsystem thread.

    The functions of Windows are events [winE] answered by the [Platform], which
    also gives the conversions between UTF-8 and wide strings and what C++ leaves
    indeterminate.  [calls] records the events in order; logging is not modelled,
    but the arguments of a log call that can throw are evaluated. *)

From S2P Require Import Prelude SshBuffer CxxMonad SftpPath SftpAttrib.
Import Paths Attribs.

(** ** The functions of Windows *)

Record FILE_BASIC_INFO := mkBasic {
  CreationTime : FILETIME;
  LastAccessTime : FILETIME;
  LastWriteTime : FILETIME;
  ChangeTime : FILETIME;
  FileAttributes : Z
}.

(** An answer [false] or [None] is the failure whose reason [GetLastError] gives. *)
Inductive winE : Type -> Type :=
| CreateFileW (name : wstring) (access share disposition attributes : Z) : winE Z
| CloseHandle (h : Z) : winE bool
| SetFilePointerEx (h off : Z) : winE bool
| SetEndOfFile (h : Z) : winE bool
| ReadFile (h len : Z) : winE (option (list Z))
| WriteFile (h : Z) (data : list Z) : winE (option Z)
| GetFileAttributesExW (name : wstring) : winE (option FILE_INFO)
| GetFileInformationByHandle (h : Z) : winE (option FILE_INFO)
| SetFileInformationByHandle (h : Z) (info : FILE_BASIC_INFO) : winE bool
| SetFileAttributesW (name : wstring) (attributes : Z) : winE bool
| GetFileAttributes (name : wstring) : winE Z
| FindFirstFile (mask : wstring) : winE Z
| FindNextFileW (h : Z) : winE (option WIN32_FIND_DATA)
| FindClose (h : Z) : winE bool
| DeleteFileW (name : wstring) : winE bool
| CreateDirectoryW (name : wstring) : winE bool
| RemoveDirectoryW (name : wstring) : winE bool
| CreateHardLink (newname oldname : wstring) : winE bool
| MoveFileExW (oldname newname : wstring) (mode : Z) : winE bool
| GetSystemTime : winE (list Z)
| SystemTimeToFileTime (t : list Z) : winE FILETIME
| GetLastError : winE Z
| SetLastError (e : Z) : winE unit.

Inductive call :=
| Call (A : Type) (e : winE A).
Arguments Call {A} e.

Class Platform (W : Type) := {
  sys : forall {A}, winE A -> W -> A * W;
  fromUTF8 : list Z -> wstring;
  toUTF8 : wstring -> list Z;
  (** [FileTimeToSystemTime] and [wcsftime] *)
  ftime : FILETIME -> wstring;
  (** NDEBUG and _DEBUG *)
  ndebug : bool;
  dbg : bool;
  (** an uninitialised [u_int32_t]; whether an uninitialised pointer is not null;
      the [int] a failed [operator>>] leaves *)
  uninit : Z;
  stale_ptr : bool;
  bad_int : list Z -> Z
}.

Definition INVALID_HANDLE_VALUE : Z := -1.
Definition GENERIC_READ : Z := 0x80000000.
Definition GENERIC_WRITE : Z := 0x40000000.
Definition FILE_SHARE_READ : Z := 1.
Definition CREATE_NEW : Z := 1.
Definition CREATE_ALWAYS : Z := 2.
Definition OPEN_EXISTING : Z := 3.
Definition OPEN_ALWAYS : Z := 4.
Definition FILE_FLAG_BACKUP_SEMANTICS : Z := 0x02000000.
Definition INVALID_FILE_ATTRIBUTES : Z := 0xFFFFFFFF.
Definition MOVEFILE_COPY_ALLOWED : Z := 2.
Definition MOVEFILE_WRITE_THROUGH : Z := 8.
Definition ERROR_FILE_NOT_FOUND : Z := 2.
Definition ERROR_PATH_NOT_FOUND : Z := 3.
Definition ERROR_ACCESS_DENIED : Z := 5.
Definition ERROR_INVALID_HANDLE : Z := 6.
Definition ERROR_INVALID_ACCESS : Z := 12.
Definition ERROR_INVALID_DRIVE : Z := 15.
Definition ERROR_WRITE_PROTECT : Z := 19.
Definition ERROR_BAD_LENGTH : Z := 24.

(** ** Constants of the protocol *)

Definition SSH2_FILEXFER_VERSION : Z := 3.
Definition SSH2_FXP_VERSION : Z := 2.
Definition SSH2_FXP_STATUS : Z := 101.
Definition SSH2_FXP_HANDLE : Z := 102.
Definition SSH2_FXP_DATA : Z := 103.
Definition SSH2_FXP_NAME : Z := 104.
Definition SSH2_FXP_ATTRS : Z := 105.
Definition SSH2_FXF_READ : Z := 1.
Definition SSH2_FXF_WRITE : Z := 2.
Definition SSH2_FXF_CREAT : Z := 8.
Definition SSH2_FXF_TRUNC : Z := 16.
Definition SSH2_FXF_EXCL : Z := 32.
Definition SSH2_FX_OK : Z := 0.
Definition SSH2_FX_EOF : Z := 1.
Definition SSH2_FX_NO_SUCH_FILE : Z := 2.
Definition SSH2_FX_PERMISSION_DENIED : Z := 3.
Definition SSH2_FX_FAILURE : Z := 4.
Definition SSH2_FX_BAD_MESSAGE : Z := 5.
Definition SSH2_FX_OP_UNSUPPORTED : Z := 8.
Definition SSH2_FX_MAX : Z := 8.

(** The requests, by their number on the wire. *)
Inductive fxp :=
| FXP_INIT | FXP_OPEN | FXP_CLOSE | FXP_READ | FXP_WRITE | FXP_LSTAT | FXP_FSTAT
| FXP_SETSTAT | FXP_FSETSTAT | FXP_OPENDIR | FXP_READDIR | FXP_REMOVE | FXP_MKDIR
| FXP_RMDIR | FXP_REALPATH | FXP_STAT | FXP_RENAME | FXP_READLINK | FXP_SYMLINK
| FXP_EXTENDED.

Definition fxp_of (type : Z) : option fxp :=
  match type with
  | 1 => Some FXP_INIT | 3 => Some FXP_OPEN | 4 => Some FXP_CLOSE | 5 => Some FXP_READ
  | 6 => Some FXP_WRITE | 7 => Some FXP_LSTAT | 8 => Some FXP_FSTAT | 9 => Some FXP_SETSTAT
  | 10 => Some FXP_FSETSTAT | 11 => Some FXP_OPENDIR | 12 => Some FXP_READDIR
  | 13 => Some FXP_REMOVE | 14 => Some FXP_MKDIR | 15 => Some FXP_RMDIR
  | 16 => Some FXP_REALPATH | 17 => Some FXP_STAT | 18 => Some FXP_RENAME
  | 19 => Some FXP_READLINK | 20 => Some FXP_SYMLINK | 200 => Some FXP_EXTENDED
  | _ => None
  end.

(** ** Translations *)

Definition errno_to_portable (err : Z) : Z :=
  if err =? 0 then SSH2_FX_OK
  else if (err =? ERROR_FILE_NOT_FOUND) || (err =? ERROR_PATH_NOT_FOUND)
          || (err =? ERROR_INVALID_HANDLE) || (err =? ERROR_INVALID_DRIVE)
  then SSH2_FX_NO_SUCH_FILE
  else if (err =? ERROR_ACCESS_DENIED) || (err =? ERROR_INVALID_ACCESS) || (err =? ERROR_WRITE_PROTECT)
  then SSH2_FX_PERMISSION_DENIED
  else if err =? ERROR_BAD_LENGTH then SSH2_FX_BAD_MESSAGE
  else SSH2_FX_FAILURE.

Definition flags_from_portable (pflags : Z) : Z :=
  Z.lor (if has pflags SSH2_FXF_READ then GENERIC_READ else 0)
        (if has pflags SSH2_FXF_WRITE then GENERIC_WRITE else 0).

Definition creation_disposition (pflags : Z) : Z :=
  if has pflags SSH2_FXF_CREAT then
    if has pflags SSH2_FXF_EXCL then CREATE_NEW
    else if has pflags SSH2_FXF_TRUNC then CREATE_ALWAYS
    else OPEN_ALWAYS
  else OPEN_EXISTING.

Definition status_messages : list string :=
  ["Success"; "End of file"; "No such file"; "Permission denied"; "Failure"; "Bad message";
   "No connection"; "Connection lost"; "Operation unsupported"; "Unknown error"]%string.

Definition status_to_message (status : Z) : list Z :=
  str (nth (Z.to_nat (Z.min status SSH2_FX_MAX)) status_messages EmptyString).

(** [strs >> val] for an [int]: white space, a sign, digits.  [None] when there is
    no number or it is not an [int]. *)
Definition is_digit (c : Z) : bool := (48 <=? c) && (c <=? 57).
Definition is_space (c : Z) : bool := (c =? 32) || ((9 <=? c) && (c <=? 13)).
Fixpoint skip_space (s : list Z) : list Z :=
  match s with c :: s' => if is_space c then skip_space s' else s | [] => [] end.
Fixpoint take_digits (s : list Z) (n : Z) : Z :=
  match s with
  | c :: s => if is_digit c then take_digits s (n * 10 + (c - 48)) else n
  | [] => n
  end.
Definition number (neg : bool) (s : list Z) : option Z :=
  match s with
  | c :: _ =>
      if is_digit c then
        let n := take_digits s 0 in
        let v := if neg then - n else n in
        if (-2147483648 <=? v) && (v <=? 2147483647) then Some v else None
      else None
  | [] => None
  end.
Definition read_int (s : list Z) : option Z :=
  match skip_space s with
  | 45 :: s => number true s
  | 43 :: s => number false s
  | s => number false s
  end.

(** ** The state of the object *)

Inductive HandleUseType := HANDLE_UNUSED | HANDLE_DIR | HANDLE_FILE.

#[global] Instance HandleUseType_eq_dec : EqDecision HandleUseType.
Proof. solve_decision. Defined.

Record Handle := mkHandle {
  use : HandleUseType;
  dirp : Z;
  fileHandle : Z;
  searchHandle : Z;
  searchDone : bool;
  hpath : SFTPFilePath;
  bytes_read : Z;
  bytes_write : Z
}.

Record SFTP (W : Type) := mkSFTP {
  iqueue : Buffer;
  userHomeDir : SFTPFilePath;
  handles : list Handle;
  unusedHandles : list Z;      (** [std::set<int>]: ascending *)
  version : Z;
  toChannel : list (list Z);   (** the messages put so far *)
  calls : list call;
  world : W
}.
Arguments mkSFTP {W}. Arguments iqueue {W}. Arguments userHomeDir {W}. Arguments handles {W}.
Arguments unusedHandles {W}. Arguments version {W}. Arguments toChannel {W}. Arguments calls {W}.
Arguments world {W}.

Definition set_iqueue {W} (b : Buffer) (s : SFTP W) : SFTP W :=
  mkSFTP b (userHomeDir s) (handles s) (unusedHandles s) (version s) (toChannel s) (calls s) (world s).
Definition set_handles {W} (h : list Handle) (s : SFTP W) : SFTP W :=
  mkSFTP (iqueue s) (userHomeDir s) h (unusedHandles s) (version s) (toChannel s) (calls s) (world s).
Definition set_unused {W} (u : list Z) (s : SFTP W) : SFTP W :=
  mkSFTP (iqueue s) (userHomeDir s) (handles s) u (version s) (toChannel s) (calls s) (world s).
Definition set_version {W} (v : Z) (s : SFTP W) : SFTP W :=
  mkSFTP (iqueue s) (userHomeDir s) (handles s) (unusedHandles s) v (toChannel s) (calls s) (world s).
Definition put_msg {W} (m : list Z) (s : SFTP W) : SFTP W :=
  mkSFTP (iqueue s) (userHomeDir s) (handles s) (unusedHandles s) (version s) (toChannel s ++ [m]) (calls s) (world s).

(** The constructor of [SFTP]; [version] is assigned by the first request. *)
Definition initial {W} (home : SFTPFilePath) (v : Z) (w : W) : SFTP W :=
  mkSFTP buffer_init home [] [] v [] [] w.

Fixpoint set_insert (i : Z) (l : list Z) : list Z :=
  match l with
  | [] => [i]
  | x :: l' => if i <? x then i :: l else if i =? x then l else x :: set_insert i l'
  end.

Section Server.
Context {W : Type} `{Platform W}.
Abbreviation M := (SE (SFTP W)).

Definition win {A} (e : winE A) : M A := fun s =>
  let '(a, w) := sys e (world s) in
  (Ret a, mkSFTP (iqueue s) (userHomeDir s) (handles s) (unusedHandles s) (version s) (toChannel s)
            (calls s ++ [Call e]) w).

Definition queue {A} (m : SE Buffer A) : M A := zoom iqueue set_iqueue m.

Definition assert_ (c : bool) : M unit := lift (assert ndebug c).

(** ** Handles *)

Definition handle_unused (i : Z) : M unit :=
  modify (fun s =>
    set_unused (set_insert i (unusedHandles s))
      (set_handles (alter (fun h => mkHandle HANDLE_UNUSED (dirp h) (fileHandle h) (searchHandle h)
                                      (searchDone h) (hpath h) (bytes_read h) (bytes_write h))
                      (Z.to_nat (u32 i)) (handles s)) s)).

Definition handle_new (use : HandleUseType) (path : SFTPFilePath) (fh dirp : Z) : M Z :=
  fun s =>
    if s32 (zlen (handles s) + 1) <? 0 then (Ret (-1), s)
    else
      let newHandle := mkHandle use dirp fh INVALID_HANDLE_VALUE false path 0 0 in
      match unusedHandles s with
      | [] => (Ret (zlen (handles s)), set_handles (handles s ++ [newHandle]) s)
      | i :: u => (Ret i, set_unused u (set_handles (<[Z.to_nat (u32 i) := newHandle]> (handles s)) s))
      end.

(** The [int] argument becomes a [size_type]. *)
Definition handle_is_ok (s : SFTP W) (i : Z) (type : HandleUseType) : bool :=
  match handles s !! Z.to_nat (u32 i) with
  | Some h => bool_decide (use h = type)
  | None => false
  end.

Definition handle_at (i : Z) (f : Handle -> bool) : M Handle := fun s =>
  match handles s !! Z.to_nat (u32 i) with
  | Some h => if f h then (Ret h, s) else (Throw (NoSuchHandle i), s)
  | None => (Throw (NoSuchHandle i), s)
  end.

Definition is_open (h : Handle) : bool := bool_decide (use h <> HANDLE_UNUSED).
Definition is_file (h : Handle) : bool := bool_decide (use h = HANDLE_FILE).
Definition is_dir (h : Handle) : bool := bool_decide (use h = HANDLE_DIR).

Definition handle_to_string (handle : Z) : list Z :=
  (if handle <? 0 then 45 :: dec (- handle) else dec handle) ++ [0].

Definition handle_from_string (handle : list Z) : M Z :=
  if zlen handle =? 0 then mret (-1)
  else
    let val := match read_int (c_str handle) with Some v => v | None => s32 (bad_int handle) end in
    _ ← handle_at val is_open; mret val.

Definition handle_to_name (handle : Z) : M wstring :=
  h ← handle_at handle is_open; lift (to_string ndebug (base (hpath h))).
Definition handle_to_path (handle : Z) : M SFTPFilePath :=
  h ← handle_at handle is_open; mret (hpath h).
Definition handle_to_dir (handle : Z) : M Z :=
  h ← handle_at handle is_dir; mret (dirp h).
Definition handle_to_fh (handle : Z) : M Z :=
  h ← handle_at handle is_file; mret (fileHandle h).
Definition handle_bytes_read (handle : Z) : M Z :=
  h ← handle_at handle is_file; mret (bytes_read h).
Definition handle_bytes_write (handle : Z) : M Z :=
  h ← handle_at handle is_file; mret (bytes_write h).

Definition alter_handle (i : Z) (f : Handle -> Handle) : M unit :=
  modify (fun s => set_handles (alter f (Z.to_nat (u32 i)) (handles s)) s).

Definition handle_update_read (handle bytes : Z) : M unit := fun s =>
  if handle_is_ok s handle HANDLE_FILE && (0 <? bytes) then
    alter_handle handle (fun h => mkHandle (use h) (dirp h) (fileHandle h) (searchHandle h) (searchDone h)
                                    (hpath h) (u64 (bytes_read h + bytes)) (bytes_write h)) s
  else (Ret tt, s).

Definition handle_update_write (handle bytes : Z) : M unit := fun s =>
  if handle_is_ok s handle HANDLE_FILE && (0 <? bytes) then
    alter_handle handle (fun h => mkHandle (use h) (dirp h) (fileHandle h) (searchHandle h) (searchDone h)
                                    (hpath h) (bytes_read h) (u64 (bytes_write h + bytes))) s
  else (Ret tt, s).

Definition handle_close (handle : Z) : M bool := fun s =>
  match handles s !! Z.to_nat (u32 handle) with
  | Some h =>
      if is_file h then (ret ← win (CloseHandle (fileHandle h)); _ ← handle_unused handle; mret ret) s
      else if is_dir h then (ret ← win (CloseHandle (dirp h)); _ ← handle_unused handle; mret ret) s
      else (_ ← win (SetLastError ERROR_FILE_NOT_FOUND); mret false) s
  | None => (_ ← win (SetLastError ERROR_FILE_NOT_FOUND); mret false) s
  end.

(** What the log line evaluates. *)
Definition handle_log_close (handle : Z) : M unit := fun s =>
  if handle_is_ok s handle HANDLE_FILE then
    (_ ← handle_to_name handle; _ ← handle_bytes_read handle; _ ← handle_bytes_write handle; mret tt) s
  else (_ ← handle_to_name handle; mret tt) s.

Definition get_handle : M Z :=
  handle ← queue get_string;
  if zlen handle <? 256 then handle_from_string handle else mret (-1).

(** ** Directories *)

(** The loop from [k] on; [n] is the number of turns left. *)
Fixpoint create_directories (n : nat) (k : nat) (path : SFTPFilePath) : M bool :=
  match n with
  | O => mret true
  | S n =>
      p2 ← lift (file_n_first_dirs ndebug path k);
      name ← lift (get_for_call ndebug p2);
      st ← win (GetFileAttributesExW name);
      match st with
      | Some _ => create_directories n (S k) path
      | None =>
          name ← lift (get_for_call ndebug p2);
          ok ← win (CreateDirectoryW name);
          if (ok : bool) then create_directories n (S k) path else mret false
      end
  end.

Definition create_directory_path (path : SFTPFilePath) : M bool :=
  create_directories (nDirs (base path) - nUserHomePos path) (S (nUserHomePos path)) path.

(** ** Replies *)

(** [send_msg] on the message that was built; a field that does not fit is [fatal]. *)
Definition send_msg (m : res Buffer) : M unit := fun s =>
  match m with
  | Ok b => (Ret tt, put_msg (buffer_ptr b) s)
  | Fatal _ => (Throw ShuttingDown, s)
  | OutOfFuel => (Throw Diverges, s)
  end.

Definition send_status (id status : Z) : M unit := fun s =>
  send_msg
    (b ← buffer_put_char buffer_init SSH2_FXP_STATUS;
     b ← buffer_put_int b id;
     b ← buffer_put_int b status;
     if 3 <=? version s then
       b ← buffer_put_cstring b (Some (status_to_message status));
       buffer_put_cstring b (Some [])
     else Ok b) s.

Definition send_data_or_handle (type id : Z) (data : list Z) : M unit :=
  send_msg
    (b ← buffer_put_char buffer_init type;
     b ← buffer_put_int b id;
     buffer_put_string b data).

Definition send_data (id : Z) (data : list Z) : M unit := send_data_or_handle SSH2_FXP_DATA id data.
Definition send_handle (id handle : Z) : M unit :=
  send_data_or_handle SSH2_FXP_HANDLE id (handle_to_string handle).

Record Stat := mkStat { name : list Z; long_name : list Z; attrib : Attrib }.

Fixpoint put_names (b : Buffer) (stats : list Stat) : res Buffer :=
  match stats with
  | [] => Ok b
  | st :: stats =>
      b ← buffer_put_cstring b (Some (name st));
      b ← buffer_put_cstring b (Some (long_name st));
      b ← encode_attrib b (attrib st);
      put_names b stats
  end.

Definition send_names (id : Z) (stats : list Stat) : M unit :=
  send_msg
    (b ← buffer_put_char buffer_init SSH2_FXP_NAME;
     b ← buffer_put_int b id;
     b ← buffer_put_int b (zlen stats);
     put_names b stats).

Definition send_attrib (id : Z) (a : Attrib) : M unit :=
  send_msg
    (b ← buffer_put_char buffer_init SSH2_FXP_ATTRS;
     b ← buffer_put_int b id;
     encode_attrib b a).

(** ** Requests *)

Definition create_path_for (utf8 : list Z) : M SFTPFilePath :=
  home ← gets userHomeDir;
  lift (create_path ndebug fromUTF8 home (c_str utf8)).

Definition call_name (path : SFTPFilePath) : M wstring := lift (get_for_call ndebug path).

(** [errno_to_portable (GetLastError ())] *)
Definition last_status : M Z := e ← win GetLastError; mret (errno_to_portable e).

(** [ok ? SSH2_FX_OK : errno_to_portable (GetLastError ())] *)
Definition status_of (ok : bool) : M Z := if (ok : bool) then mret SSH2_FX_OK else last_status.

(** A [try] block whose first statement reads [id] and whose handlers set the
    status to SSH2_FX_FAILURE; [finish] is what follows it. *)
Definition guarded (c : exn -> bool) (body : Z -> M Z) (finish : Z -> Z -> M unit) : M unit :=
  r ← try_catch c (id ← queue get_int; mret (Some id)) (mret None);
  match r with
  | None => finish uninit SSH2_FX_FAILURE
  | Some id =>
      status ← try_catch c (body id) (mret SSH2_FX_FAILURE);
      finish id status
  end.

(** [if (status != SSH2_FX_OK) send_status (id, status)] *)
Definition reply_error (id status : Z) : M unit :=
  if negb (status =? SSH2_FX_OK) then send_status id status else mret tt.

Definition process_init : M unit :=
  v ← queue get_int;
  _ ← modify (set_version (s32 v));
  send_msg
    (b ← buffer_put_char buffer_init SSH2_FXP_VERSION;
     buffer_put_int b SSH2_FILEXFER_VERSION).

(** A new handle for an open file or directory, and its reply. *)
Definition new_handle_reply (id : Z) (type : HandleUseType) (path : SFTPFilePath) (opened fh dp : Z) : M Z :=
  if opened =? INVALID_HANDLE_VALUE then last_status
  else
    handle ← handle_new type path fh dp;
    if handle <? 0 then
      _ ← win (CloseHandle opened); mret SSH2_FX_FAILURE
    else
      _ ← send_handle id handle; mret SSH2_FX_OK.

(** In a debug build the handlers let the exception of a shutdown pass. *)
Definition open_catches (e : exn) : bool :=
  match e with ShuttingDown => negb dbg | _ => catchable e end.

Definition stop_name : list Z := str "/2stop_sftp_subsystem".

Definition process_open : M unit :=
  guarded open_catches
    (fun id =>
       utf8_name ← queue get_string;
       pflags ← queue get_int;
       _ ← (if dbg && bool_decide (c_str utf8_name = stop_name) then throw ShuttingDown else mret tt);
       _ ← queue decode_attrib;
       path ← create_path_for utf8_name;
       nm ← call_name path;
       fh ← win (CreateFileW nm (flags_from_portable pflags) FILE_SHARE_READ
                   (creation_disposition pflags) FILE_ATTRIBUTE_NORMAL);
       new_handle_reply id HANDLE_FILE path fh fh 0)
    reply_error.

Definition process_close : M unit :=
  id ← queue get_int;
  handle ← get_handle;
  _ ← handle_log_close handle;
  ret ← handle_close handle;
  status ← status_of ret;
  send_status id status.

Definition process_read : M unit :=
  id ← queue get_int;
  handle ← get_handle;
  off ← queue get_int64;
  len ← queue get_int;
  let len := if len >? 64 * 1024 then 64 * 1024 else len in
  fh ← handle_to_fh handle;
  status ←
    (if fh =? INVALID_HANDLE_VALUE then mret SSH2_FX_FAILURE
     else
       ok ← win (SetFilePointerEx fh (s64 off));
       if negb ok then
         err ← win GetLastError;
         mret (if err =? 0 then SSH2_FX_EOF else errno_to_portable err)
       else
         r ← win (ReadFile fh len);
         match r with
         | None => last_status
         | Some buf =>
             if zlen buf =? 0 then mret SSH2_FX_EOF
             else
               _ ← send_data id buf;
               _ ← handle_update_read handle (zlen buf);
               mret SSH2_FX_OK
         end);
  reply_error id status.

Definition process_write : M unit :=
  id ← queue get_int;
  handle ← get_handle;
  off ← queue get_int64;
  data ← queue get_string;
  fh ← handle_to_fh handle;
  status ←
    (if fh =? INVALID_HANDLE_VALUE then mret SSH2_FX_FAILURE
     else
       ok ← win (SetFilePointerEx fh (s64 off));
       if negb ok then last_status
       else
         r ← win (WriteFile fh data);
         match r with
         | None =>
             err ← win GetLastError;
             mret (if negb (err =? 0) then errno_to_portable err else SSH2_FX_FAILURE)
         | Some n =>
             if n =? zlen data then
               _ ← handle_update_write handle n; mret SSH2_FX_OK
             else mret SSH2_FX_FAILURE
         end);
  send_status id status.

Definition process_do_stat : M unit :=
  guarded catchable
    (fun id =>
       utf8_name ← queue get_string;
       path ← create_path_for utf8_name;
       nm ← call_name path;
       st ← win (GetFileAttributesExW nm);
       match st with
       | None => last_status
       | Some st => _ ← send_attrib id (stat_to_attrib st); mret SSH2_FX_OK
       end)
    reply_error.

Definition process_stat : M unit := process_do_stat.
Definition process_lstat : M unit := process_do_stat.

Definition process_fstat : M unit :=
  id ← queue get_int;
  handle ← get_handle;
  _ ← handle_to_name handle;
  fh ← handle_to_fh handle;
  status ←
    (if fh =? INVALID_HANDLE_VALUE then mret SSH2_FX_FAILURE
     else
       st ← win (GetFileInformationByHandle fh);
       match st with
       | None => last_status
       | Some st => _ ← send_attrib id (stat_to_attrib st); mret SSH2_FX_OK
       end);
  reply_error id status.

(** [utf8_name] has no initial value, and is freed when it is not null. *)
Definition free_unset (r : option (list Z)) : M unit :=
  match r with
  | Some _ => mret tt
  | None => if stale_ptr then throw BadFree else mret tt
  end.

Definition setstat_body (utf8_name : list Z) : M Z :=
  a ← queue decode_attrib;
  path ← create_path_for utf8_name;
  let st := attrib_to_stat a in
  if has (flags a) SSH2_FILEXFER_ATTR_SIZE then mret SSH2_FX_OP_UNSUPPORTED
  else if has (flags a) SSH2_FILEXFER_ATTR_ACMODTIME then mret SSH2_FX_OP_UNSUPPORTED
  else if has (flags a) SSH2_FILEXFER_ATTR_UIDGID then mret SSH2_FX_OP_UNSUPPORTED
  else if has (flags a) SSH2_FILEXFER_ATTR_PERMISSIONS then
    nm ← call_name path;
    ok ← win (SetFileAttributesW nm (dwFileAttributes st));
    status_of ok
  else mret SSH2_FX_OK.

Definition process_setstat : M unit :=
  r ← try_catch catchable (id ← queue get_int; mret (Some id)) (mret None);
  match r with
  | None => _ ← send_status uninit SSH2_FX_FAILURE; free_unset None
  | Some id =>
      n ← try_catch catchable (s ← queue get_string; mret (Some s)) (mret None);
      status ← match n with
               | None => mret SSH2_FX_FAILURE
               | Some utf8_name => try_catch catchable (setstat_body utf8_name) (mret SSH2_FX_FAILURE)
               end;
      _ ← send_status id status;
      free_unset n
  end.

(** The basic information written back: what the request names, and the rest as
    it was. *)
Definition basic_info (a : Attrib) (before : FILE_INFO) (now : FILETIME) : FILE_BASIC_INFO :=
  let requested := attrib_to_stat a in
  let times := has (flags a) SSH2_FILEXFER_ATTR_ACMODTIME in
  mkBasic (ftCreationTime before)
    (if times then ftLastAccessTime requested else ftLastAccessTime before)
    (if times then ftLastWriteTime requested else ftLastWriteTime before)
    now
    (if has (flags a) SSH2_FILEXFER_ATTR_PERMISSIONS
     then dwFileAttributes requested else dwFileAttributes before).

Definition set_size (fh sz : Z) : M bool :=
  ok ← win (SetFilePointerEx fh (s64 sz));
  if (ok : bool) then win (SetEndOfFile fh) else mret false.

Definition process_fsetstat : M unit :=
  id ← queue get_int;
  handle ← get_handle;
  a ← queue decode_attrib;
  fh ← handle_to_fh handle;
  status ←
    (if fh =? INVALID_HANDLE_VALUE then mret SSH2_FX_FAILURE
     else
       let status := if has (flags a) SSH2_FILEXFER_ATTR_UIDGID then SSH2_FX_OP_UNSUPPORTED else SSH2_FX_OK in
       status ← (if has (flags a) SSH2_FILEXFER_ATTR_SIZE then
                   ok ← set_size fh (size a);
                   if (ok : bool) then mret status else last_status
                 else mret status);
       if status =? SSH2_FX_OK then
         st ← win (GetFileInformationByHandle fh);
         match st with
         | Some before =>
             t ← win GetSystemTime;
             now ← win (SystemTimeToFileTime t);
             ok ← win (SetFileInformationByHandle fh (basic_info a before now));
             if (ok : bool) then mret status else last_status
         | None => last_status
         end
       else mret status);
  send_status id status.

Definition process_opendir : M unit :=
  guarded catchable
    (fun id =>
       utf8_path ← queue get_string;
       path ← create_path_for utf8_path;
       nm ← call_name path;
       fh ← win (CreateFileW nm (Z.lor GENERIC_READ GENERIC_WRITE) FILE_SHARE_READ OPEN_EXISTING
                   FILE_FLAG_BACKUP_SEMANTICS);
       new_handle_reply id HANDLE_DIR path fh 0 fh)
    reply_error.

(** *** Reading a directory *)

Definition stat_entry (st : WIN32_FIND_DATA) : Stat :=
  mkStat (toUTF8 (cFileName st)) (toUTF8 (ls_file ftime (cFileName st) (fd_info st)))
         (stat_to_attrib (fd_info st)).

(** At most [n] more entries, and whether the search ran out. *)
Fixpoint read_entries (n : nat) (searchHandle : Z) : M (list Stat * bool) :=
  match n with
  | O => mret ([], false)
  | S n =>
      r ← win (FindNextFileW searchHandle);
      match r with
      | None => mret ([], true)
      | Some st => '(l, d) ← read_entries n searchHandle; mret (stat_entry st :: l, d)
      end
  end.

Definition set_search (handle sh : Z) (d : bool) : M unit :=
  alter_handle handle (fun h => mkHandle (use h) (dirp h) (fileHandle h) sh d (hpath h) (bytes_read h) (bytes_write h)).

Definition readdir_batch : nat := 100.

(** The next batch of a directory, and its reply. *)
Definition list_directory (id handle : Z) (dirPath : SFTPFilePath) : M unit :=
  h ← handle_at handle is_open;
  sh ← (if negb (searchDone h) && (searchHandle h =? INVALID_HANDLE_VALUE) then
          mask ← lift (get_mask_for_dir_search ndebug dirPath);
          sh ← win (FindFirstFile mask);
          _ ← set_search handle sh (searchDone h);
          mret sh
        else mret (searchHandle h));
  '(stats, done_) ← (if negb (searchDone h) && negb (sh =? INVALID_HANDLE_VALUE) then
                       '(l, d) ← read_entries readdir_batch sh;
                       _ ← set_search handle sh d;
                       mret (l, d)
                     else mret ([], searchDone h));
  _ ← (if done_ && negb (sh =? INVALID_HANDLE_VALUE) then
         _ ← win (FindClose sh);
         set_search handle 0 done_
       else mret tt);
  if 0 <? zlen stats then send_names id stats
  else
    _ ← set_search handle INVALID_HANDLE_VALUE false;
    send_status id SSH2_FX_EOF.

Definition process_readdir : M unit :=
  id ← queue get_int;
  handle ← get_handle;
  _ ← handle_to_name handle;
  dh ← handle_to_dir handle;
  dirPath ← handle_to_path handle;
  s ← lift (to_string ndebug (base dirPath));
  if (dh =? INVALID_HANDLE_VALUE) || (zlen s =? 0) then send_status id SSH2_FX_FAILURE
  else list_directory id handle dirPath.

(** *** Names *)

Definition process_remove : M unit :=
  id ← queue get_int;
  utf8_name ← queue get_string;
  path ← create_path_for utf8_name;
  nm ← call_name path;
  res ← win (DeleteFileW nm);
  status ← status_of res;
  send_status id status.

Definition process_mkdir : M unit :=
  id ← queue get_int;
  utf8_name ← queue get_string;
  _ ← queue decode_attrib;
  path ← create_path_for utf8_name;
  nm ← call_name path;
  res ← win (CreateDirectoryW nm);
  err ← win GetLastError;
  '(res, err) ← (if err =? ERROR_PATH_NOT_FOUND then
                   res ← create_directory_path path;
                   if (res : bool) then mret (res, err) else err ← win GetLastError; mret (res, err)
                 else mret (res, err));
  send_status id (if negb res then errno_to_portable err else SSH2_FX_OK).

Definition process_rmdir : M unit :=
  id ← queue get_int;
  utf8_name ← queue get_string;
  path ← create_path_for utf8_name;
  nm ← call_name path;
  res ← win (RemoveDirectoryW nm);
  status ← status_of res;
  send_status id status.

Definition process_realpath : M unit :=
  guarded catchable
    (fun id =>
       utf8_path ← queue get_string;
       path ← create_path_for utf8_path;
       u ← lift (unix_form ndebug (base path));
       _ ← send_names id [mkStat (toUTF8 u) (toUTF8 u) attrib_clear];
       mret SSH2_FX_OK)
    reply_error.

(** [MoveFileExW], when there is no new file yet. *)
Definition move_if_absent (oldPath newPath : SFTPFilePath) : M Z :=
  newn ← call_name newPath;
  attrs ← win (GetFileAttributes newn);
  if attrs =? INVALID_FILE_ATTRIBUTES then
    oldn ← call_name oldPath;
    newn ← call_name newPath;
    ok ← win (MoveFileExW oldn newn (Z.lor MOVEFILE_COPY_ALLOWED MOVEFILE_WRITE_THROUGH));
    status_of ok
  else mret SSH2_FX_FAILURE.

Definition process_rename : M unit :=
  id ← queue get_int;
  utf8_oldpath ← queue get_string;
  utf8_newpath ← queue get_string;
  oldPath ← create_path_for utf8_oldpath;
  newPath ← create_path_for utf8_newpath;
  oldn ← call_name oldPath;
  oldFileAttrs ← win (GetFileAttributes oldn);
  status ←
    (if oldFileAttrs =? INVALID_FILE_ATTRIBUTES then last_status
     else if has oldFileAttrs FILE_ATTRIBUTE_NORMAL then
       newn ← call_name newPath;
       oldn ← call_name oldPath;
       linked ← win (CreateHardLink newn oldn);
       if negb linked then move_if_absent oldPath newPath
       else
         oldn ← call_name oldPath;
         deleted ← win (DeleteFileW oldn);
         if negb deleted then
           status ← last_status;
           newn ← call_name newPath;
           _ ← win (DeleteFileW newn);
           mret status
         else mret SSH2_FX_OK
     else move_if_absent oldPath newPath);
  send_status id status.

Definition process_readlink : M unit :=
  id ← queue get_int;
  _ ← queue get_string;
  send_status id SSH2_FX_OP_UNSUPPORTED.

Definition process_symlink : M unit :=
  id ← queue get_int;
  _ ← queue get_string;
  _ ← queue get_string;
  send_status id SSH2_FX_OP_UNSUPPORTED.

Definition process_extended : M unit :=
  id ← queue get_int;
  _ ← queue get_string;
  send_status id SSH2_FX_OP_UNSUPPORTED.

(** ** Dispatch *)

Definition handler (r : fxp) : M unit :=
  match r with
  | FXP_INIT => process_init
  | FXP_OPEN => process_open
  | FXP_CLOSE => process_close
  | FXP_READ => process_read
  | FXP_WRITE => process_write
  | FXP_LSTAT => process_lstat
  | FXP_FSTAT => process_fstat
  | FXP_SETSTAT => process_setstat
  | FXP_FSETSTAT => process_fsetstat
  | FXP_OPENDIR => process_opendir
  | FXP_READDIR => process_readdir
  | FXP_REMOVE => process_remove
  | FXP_MKDIR => process_mkdir
  | FXP_RMDIR => process_rmdir
  | FXP_REALPATH => process_realpath
  | FXP_STAT => process_stat
  | FXP_RENAME => process_rename
  | FXP_READLINK => process_readlink
  | FXP_SYMLINK => process_symlink
  | FXP_EXTENDED => process_extended
  end.

(** Discard what the handler left of the packet. *)
Definition discard_rest (msg_len : Z) : M unit :=
  len ← gets (fun s => buffer_len (iqueue s));
  if msg_len <? len then throw ShuttingDown
  else
    let consumed := u32 (msg_len - len) in
    if msg_len <? consumed then throw ShuttingDown
    else if msg_len >? consumed then
      queue (get_or_fatal (fun b => (pair tt) <$> buffer_consume_ret b (u32 (msg_len - consumed))))
    else mret tt.

Definition process : M unit :=
  msg_len ← queue get_int;
  type ← queue get_char;
  _ ← match fxp_of type with Some r => handler r | None => mret tt end;
  discard_rest msg_len.

(** [buffer_put_string (&iqueue, inputMsg, inputMsgLen)] *)
Definition receive (msg : list Z) : M unit := fun s =>
  match buffer_put_string (iqueue s) msg with
  | Ok b => (Ret tt, set_iqueue b s)
  | Fatal _ => (Throw ShuttingDown, s)
  | OutOfFuel => (Throw Diverges, s)
  end.

(** The loop of the thread over the messages it gets, each with the number of
    messages that are still in the buffer then.  [true]: the thread returned;
    [false]: it waits for more. *)
Fixpoint run (input : list (list Z * Z)) : M bool :=
  match input with
  | [] => mret false
  | (msg, pending) :: input =>
      if zlen msg =? 0 then
        _ ← assert_ (pending =? 0);
        if negb (pending =? 0) then run input else mret true
      else
        _ ← receive msg;
        _ ← process;
        run input
  end.

End Server.
