(* ===== verification/SftpServerProps.v ===== *)
(** * SftpServerProps: what the SFTP subsystem guarantees

    One invariant [Inv] holds before and after every request, whether the handler
    ends normally or throws: every name handed to Windows so far lies in the home
    directory of the user, the free list describes the unused entries of the handle
    table, and the input queue only shrinks.  [safe] is the corresponding Hoare
    triple, proved for every operation from the invariant's lemmas. *)

From stdpp Require Import sorting sets.
From S2P Require Import Prelude SshBuffer CxxMonad SftpPath SftpAttrib SftpServer.
Import Paths Attribs.

(** ** Names handed to Windows *)

(** The components name a file in or below [home]. *)
Record below (home : SFTPFilePath) (cs : list wstring) : Prop := {
  be_home : all2 is_equal_ignore_case (take (nDirs (base home)) cs) (path (base home)) = true;
  be_names : Forall clean cs
}.

Definition call_prefix (home : SFTPFilePath) : wstring := longPrefix ++ [drive (base home); COLON; BSL].

Definition within (home : SFTPFilePath) (n : wstring) : Prop :=
  exists cs, below home cs /\ n = call_prefix home ++ join BSL cs.

(** A search mask: everything in one directory. *)
Definition mask_within (home : SFTPFilePath) (n : wstring) : Prop :=
  exists d, within home d /\ (n = d ++ [STAR] \/ n = d ++ [BSL; STAR]).

Definition call_ok (home : SFTPFilePath) (c : call) : Prop :=
  match c with
  | Call e =>
      match e with
      | CreateFileW n _ _ _ _ => within home n
      | GetFileAttributesExW n => within home n
      | SetFileAttributesW n _ => within home n
      | GetFileAttributes n => within home n
      | FindFirstFile m => mask_within home m
      | DeleteFileW n => within home n
      | CreateDirectoryW n => within home n
      | RemoveDirectoryW n => within home n
      | CreateHardLink n o => within home n /\ within home o
      | MoveFileExW o n _ => within home o /\ within home n
      | _ => True
      end
  end.

(** ** The handle table *)

Definition entry {W} (s : SFTP W) (i : Z) : option Handle :=
  if 0 <=? i then handles s !! Z.to_nat i else None.

(** The handles a client can use. *)
Definition open_at {W} (s : SFTP W) (i : Z) : option Handle :=
  match entry s i with
  | Some h => if bool_decide (use h = HANDLE_UNUSED) then None else Some h
  | None => None
  end.

Record table_ok {W} (s : SFTP W) : Prop := {
  to_len : zlen (handles s) < 2 ^ 31;
  to_sorted : StronglySorted Z.lt (unusedHandles s);
  to_unused : forall i, i ∈ unusedHandles s <-> exists h, entry s i = Some h /\ use h = HANDLE_UNUSED
}.

Lemma table_ok_ext {W} (s s' : SFTP W) :
  handles s' = handles s -> unusedHandles s' = unusedHandles s -> table_ok s -> table_ok s'.
Proof. intros Hh Hu []. split; unfold entry; by rewrite ?Hh, ?Hu. Qed.

Lemma set_insert_elem i l x : x ∈ set_insert i l <-> x = i \/ x ∈ l.
Proof.
  induction l as [|y l IH]; cbn [set_insert]; [by rewrite elem_of_cons|].
  destruct (i <? y) eqn:E; [by rewrite elem_of_cons|].
  destruct (i =? y) eqn:E2; zbool; [subst y|]; rewrite ?elem_of_cons, ?IH; tauto.
Qed.

Lemma set_insert_sorted i l : StronglySorted Z.lt l -> StronglySorted Z.lt (set_insert i l).
Proof.
  induction 1 as [|y l Hs IH Hf]; cbn [set_insert]; [by repeat constructor|].
  destruct (i <? y) eqn:E; zbool.
  - constructor; [by constructor|]. constructor; [done|]. eapply Forall_impl; [exact Hf|]. intros; lia.
  - destruct (i =? y) eqn:E2; zbool; [by constructor|]. constructor; [done|].
    apply Forall_forall. intros x Hx. apply set_insert_elem in Hx as [->|Hx]; [lia|].
    rewrite Forall_forall in Hf. by apply Hf.
Qed.

Definition int_range (v : Z) : Prop := -2147483648 <= v <= 2147483647.

Section Safe.
Context {W : Type} `{Platform W}.
Context (home : SFTPFilePath) (b0 : Buffer) (bf : Prop).
Abbreviation M := (SE (SFTP W)).
Implicit Type s : SFTP W.

Record Inv (s : SFTP W) : Prop := {
  in_home : userHomeDir s = home;
  in_calls : Forall (call_ok home) (calls s);
  in_paths : Forall (fun h => confined home (hpath h)) (handles s);
  in_table : table_ok s;
  in_queue : drained 0 b0 (iqueue s)
}.

(** The exceptions of a handler; [bf] says whether the one that frees an unset
    pointer is among them. *)
Definition ok_exn (e : exn) : Prop :=
  match e with
  | InvalidPath | NoSuchHandle _ | ShuttingDown => True
  | AssertFailed => ndebug = false
  | BadFree => bf
  | out_of_range | soci_error | SocketError | SException | BadRead | Diverges => False
  end.

Definition safe {A} (m : M A) (Q : A -> Prop) : Prop := forall s, Inv s ->
  wp m (fun a s' => Inv s' /\ Q a) (fun e s' => Inv s' /\ ok_exn e) s.

Definition any {A} (a : A) : Prop := True.

Lemma safe_ret {A} (a : A) (Q : A -> Prop) : Q a -> safe (mret a) Q.
Proof. intros Hq s Hs. by apply wp_ret. Qed.

Lemma safe_throw {A} e (Q : A -> Prop) : ok_exn e -> safe (throw e) Q.
Proof. intros He s Hs. by apply wp_throw. Qed.

Lemma safe_bind {A B} (m : M A) (f : A -> M B) Q R :
  safe m Q -> (forall a, Q a -> safe (f a) R) -> safe (m ≫= f) R.
Proof.
  intros Hm Hf s Hs. apply wp_bind. eapply wp_mono; [by apply Hm|..|done]. cbn.
  intros a s' [Hs' Hq]. by apply Hf.
Qed.

Lemma safe_mono {A} (m : M A) (Q R : A -> Prop) : safe m Q -> (forall a, Q a -> R a) -> safe m R.
Proof. intros Hm Hr s Hs. eapply wp_mono; [by apply Hm|..|done]. cbn. intros a s' []. auto. Qed.

Lemma safe_any {A} (m : M A) Q : safe m Q -> safe m any.
Proof. intros Hm. by eapply safe_mono. Qed.

Lemma safe_try {A} c (m h : M A) Q : safe m Q -> safe h Q -> safe (try_catch c m h) Q.
Proof.
  intros Hm Hh s Hs. apply wp_try. eapply wp_mono; [by apply Hm|done|]. cbn.
  intros e s' [Hs' He]. destruct (c e); [by apply Hh|done].
Qed.

Lemma safe_lift {A} (m : exc A) (Q : A -> Prop) :
  match m with Ret a => Q a | Throw e => ok_exn e end -> safe (lift m) Q.
Proof. intros Hm s Hs. apply wp_lift. by destruct m. Qed.

(** *** The input queue *)

Lemma Inv_queue s b : Inv s -> drained 0 (iqueue s) b -> Inv (set_iqueue b s).
Proof.
  intros [] Hd. split; try done; [by apply (table_ok_ext s)|]. eapply drained_le, drained_trans; [|done|done]. lia.
Qed.

Lemma safe_queue {A} k (m : SE Buffer A) : 0 <= k -> getter k m -> safe (queue m) any.
Proof.
  intros Hk Hm s Hs. apply wp_zoom. eapply wp_mono; [apply (getter_le k 0 m Hk Hm)|..]; cbn.
  - by destruct (in_queue _ Hs).
  - intros a b Hb. split; [by apply Inv_queue|done].
  - intros e b [-> Hb]. split; [by apply Inv_queue|done].
Qed.

(** *** System calls *)

Lemma safe_win {A} (e : winE A) : call_ok home (Call e) -> safe (win e) any.
Proof.
  intros Hc s [H1 H2 H3 H4 H5]. unfold wp, win. destruct (sys e (world s)) as [a w].
  split; [|done]. split; try done; [|by apply (table_ok_ext s)]. cbn [calls]. apply Forall_app. split; [done|]. by apply Forall_singleton.
Qed.

(** *** Replies *)

Lemma safe_send m : m <> OutOfFuel -> safe (send_msg m) any.
Proof.
  intros Hm s [H1 H2 H3 H4 H5]. unfold wp, send_msg.
  destruct m; [|by split|done]. split; [|done]. split; try done. by apply (table_ok_ext s).
Qed.

(** *** Building replies *)

Definition built (m : res Buffer) : Prop :=
  match m with Ok b => buffer_ok b | Fatal _ => True | OutOfFuel => False end.

Lemma built_append b d : buffer_ok b -> built (buffer_append b d).
Proof. intros Hb. destruct (buffer_append_cases b d Hb) as [(b' & -> & ? & _)|(m & -> & _)]; done. Qed.

Lemma built_bind m f : built m -> (forall b, buffer_ok b -> built (f b)) -> built (m ≫= f).
Proof. intros Hm Hf. destruct m; [by apply Hf|done|done]. Qed.

Lemma built_string b d : buffer_ok b -> built (buffer_put_string b d).
Proof. intros Hb. apply built_bind; [by apply built_append|]. intros. by apply built_append. Qed.

Lemma built_cstring b d : buffer_ok b -> built (buffer_put_cstring b (Some d)).
Proof. apply built_string. Qed.

Lemma built_fields fs : forall b, buffer_ok b -> built (put_fields b fs).
Proof.
  induction fs as [|f fs IH]; intros b Hb; [done|]. cbn [put_fields]. apply built_bind; [|done].
  destruct f; [by apply built_append..|by apply built_string].
Qed.

Lemma built_attrib b a : buffer_ok b -> built (encode_attrib b a).
Proof. rewrite encode_attrib_fields. apply built_fields. Qed.

Lemma built_names l : forall b, buffer_ok b -> built (put_names b l).
Proof.
  induction l as [|x l IH]; intros b Hb; [done|]. cbn [put_names].
  apply built_bind; [by apply built_cstring|]. intros b1 H1.
  apply built_bind; [by apply built_cstring|]. intros b2 H2.
  apply built_bind; [by apply built_attrib|]. done.
Qed.

Lemma built_head (type id : Z) (f : Buffer -> res Buffer) : (forall b, buffer_ok b -> built (f b)) ->
  built (b ← buffer_put_char buffer_init type; b ← buffer_put_int b id; f b).
Proof.
  intros Hf. apply built_bind; [apply built_append, buffer_init_ok|]. intros b1 H1.
  apply built_bind; [by apply built_append|done].
Qed.

Lemma safe_built m : built m -> safe (send_msg m) any.
Proof. intros Hm. apply safe_send. by destruct m. Qed.

Lemma safe_status id st : safe (send_status id st) any.
Proof.
  intros s Hs. unfold send_status. apply safe_built; [|done]. apply built_head. intros b Hb.
  apply built_bind; [by apply built_append|]. intros b1 H1. destruct (3 <=? version s); [|done].
  apply built_bind; [by apply built_cstring|]. intros. by apply built_cstring.
Qed.

Lemma safe_send_handle id i : safe (send_handle id i) any.
Proof. apply safe_built, built_head. intros. by apply built_string. Qed.
Lemma safe_send_data id d : safe (send_data id d) any.
Proof. apply safe_built, built_head. intros. by apply built_string. Qed.
Lemma safe_send_attrib id a : safe (send_attrib id a) any.
Proof. apply safe_built, built_head. intros. by apply built_attrib. Qed.
Lemma safe_send_names id l : safe (send_names id l) any.
Proof.
  apply safe_built, built_head. intros b Hb. apply built_bind; [by apply built_append|]. apply built_names.
Qed.

(** *** The handle table *)

Lemma u32_nonneg_int i : int_range i -> 0 <= i -> u32 i = i.
Proof. unfold int_range. intros. apply u32_small. lia. Qed.

(** An index that hits the table is a non-negative [int]. *)
Lemma lookup_int (l : list Handle) i h : zlen l < 2 ^ 31 -> int_range i ->
  l !! Z.to_nat (u32 i) = Some h -> 0 <= i /\ u32 i = i.
Proof.
  intros Hl Hi Hh. apply lookup_lt_Some in Hh. pose proof (u32_range i). unfold zlen in Hl.
  assert (0 <= i); [|split; [done|by apply u32_nonneg_int]].
  destruct (Z.lt_ge_cases i 0); [|lia]. unfold int_range, u32 in *. exfalso.
  revert Hh. replace (i mod 4294967296) with (i + 4294967296) by (apply (Zmod_unique _ _ (-1)); lia). lia.
Qed.

Lemma handle_at_spec i f s : Inv s ->
  wp (handle_at i f) (fun h s' => s' = s /\ handles s !! Z.to_nat (u32 i) = Some h /\ f h = true)
     (fun e s' => s' = s /\ e = NoSuchHandle i) s.
Proof.
  intros Hs. unfold wp, handle_at. destruct (handles s !! _) as [h|] eqn:E; [|done]. by destruct (f h) eqn:F.
Qed.

Lemma safe_handle_at i f : safe (handle_at i f) (fun h => confined home (hpath h)).
Proof.
  intros s Hs. eapply wp_mono; [by apply handle_at_spec|..]; cbn.
  - intros h s' (-> & Hh & _). split; [done|]. pose proof (in_paths _ Hs) as Hp.
    rewrite Forall_lookup in Hp. by eapply Hp.
  - by intros e s' [-> ->].
Qed.

Lemma alter_cases {A} (f : A -> A) i (l : list A) (j : nat) x : alter f i l !! j = Some x ->
  (i = j /\ exists y, l !! j = Some y /\ x = f y) \/ (i <> j /\ l !! j = Some x).
Proof.
  rewrite list_lookup_alter. case_decide as E; [|by right]. subst i. destruct (l !! j) as [y|]; [|done].
  intros [= <-]. left. eauto.
Qed.

(** Changing an entry without opening or closing it. *)
Lemma safe_alter i f : (forall h, use (f h) = use h /\ hpath (f h) = hpath h) -> safe (alter_handle i f) any.
Proof.
  intros Hf s [H1 H2 H3 [T1 T2 T3] H5]. apply wp_modify. split; [|done]. split; try done; cbn [handles set_handles].
  - rewrite Forall_lookup in *. intros j h Hj. apply alter_cases in Hj as [(_ & h' & Hh & ->)|[_ Hj]].
    + rewrite (proj2 (Hf h')). by eapply H3.
    + by eapply H3.
  - split; cbn [handles unusedHandles set_handles]; [by unfold zlen in *; rewrite length_alter|done|].
    intros k. rewrite T3. unfold entry. cbn [handles set_handles]. destruct (0 <=? k); [|by split; intros (? & ? & _)].
    destruct (decide (Z.to_nat (u32 i) = Z.to_nat k)) as [E|E].
    + rewrite E, list_lookup_alter_eq. split.
      * intros (h & -> & Hu). exists (f h). split; [done|]. by rewrite (proj1 (Hf h)).
      * intros (h & Hh & Hu). destruct (handles s !! Z.to_nat k) as [h'|]; [|done]. injection Hh as <-.
        exists h'. split; [done|]. by rewrite <- (proj1 (Hf h')).
    + by rewrite list_lookup_alter_ne.
Qed.

Lemma safe_update_read i n : safe (handle_update_read i n) any.
Proof.
  intros s Hs. unfold wp, handle_update_read. destruct (_ && _); [|done]. by apply safe_alter.
Qed.
Lemma safe_update_write i n : safe (handle_update_write i n) any.
Proof.
  intros s Hs. unfold wp, handle_update_write. destruct (_ && _); [|done]. by apply safe_alter.
Qed.
Lemma safe_set_search i sh d : safe (set_search i sh d) any.
Proof. by apply safe_alter. Qed.

(** The table after [handle_new]: a free number, or the next one. *)
Definition new_handle (type : HandleUseType) (p : SFTPFilePath) (fh dp : Z) : Handle :=
  mkHandle type dp fh INVALID_HANDLE_VALUE false p 0 0.

Record added (s : SFTP W) (i : Z) (h : Handle) (s' : SFTP W) : Prop := {
  ad_int : 0 <= i /\ int_range i;
  ad_fresh : open_at s i = None;
  ad_entry : entry s' i = Some h;
  ad_others : forall j, j <> i -> entry s' j = entry s j;
  ad_inv : Inv s';
  ad_rest : toChannel s' = toChannel s /\ world s' = world s /\ version s' = version s /\ calls s' = calls s
}.

Lemma entry_some s i h : entry s i = Some h -> 0 <= i /\ handles s !! Z.to_nat i = Some h.
Proof. unfold entry. zcase; done. Qed.

Lemma entry_insert s l i h j : 0 <= i -> (Z.to_nat i < length (handles s))%nat ->
  l = <[Z.to_nat i := h]> (handles s) ->
  entry (set_handles l s) j = if j =? i then Some h else entry s j.
Proof.
  intros Hi Hl ->. unfold entry. cbn [handles set_handles]. destruct (j =? i) eqn:E; zbool.
  - subst j. rewrite (proj2 (Z.leb_le 0 i) Hi). by rewrite list_lookup_insert_eq.
  - destruct (0 <=? j) eqn:E0; [|done]. zbool. rewrite list_lookup_insert_ne by lia. done.
Qed.

Lemma entry_append s h j :
  entry (set_handles (handles s ++ [h]) s) j = if j =? zlen (handles s) then Some h else entry s j.
Proof.
  unfold entry, zlen. cbn [handles set_handles]. destruct (j =? _) eqn:E; zbool.
  - subst j. rewrite (proj2 (Z.leb_le _ _)) by lia. rewrite Nat2Z.id, lookup_app_r, Nat.sub_diag by lia. done.
  - destruct (0 <=? j) eqn:E0; [|done]. zbool. destruct (decide (Z.to_nat j < length (handles s))%nat).
    + by rewrite lookup_app_l.
    + rewrite (lookup_ge_None_2 (handles s)) by lia. apply lookup_ge_None_2. rewrite length_app. cbn. lia.
Qed.

Lemma table_push s h : table_ok s -> use h <> HANDLE_UNUSED -> unusedHandles s = [] ->
  zlen (handles s) + 1 < 2 ^ 31 -> table_ok (set_handles (handles s ++ [h]) s).
Proof.
  intros [T1 T2 T3] Hu Hn Hl. split; cbn [unusedHandles set_handles handles]; [rewrite zlen_app; change (zlen [h]) with 1; lia|done|].
  intros k. rewrite T3, entry_append. destruct (k =? _) eqn:E; zbool; [|done]. split.
  - intros (x & Hx & _). apply entry_some in Hx as [_ Hx]. apply lookup_lt_Some in Hx. unfold zlen in E. lia.
  - intros (x & [= <-] & Hx). done.
Qed.

Lemma table_reuse s i u h : table_ok s -> use h <> HANDLE_UNUSED -> unusedHandles s = i :: u ->
  table_ok (set_unused u (set_handles (<[Z.to_nat i := h]> (handles s)) s)) /\
  exists h0, entry s i = Some h0 /\ use h0 = HANDLE_UNUSED.
Proof.
  intros [T1 T2 T3] Hu Hn. rewrite Hn in T2.
  destruct (proj1 (T3 i)) as (h0 & Hh0 & Hu0); [rewrite Hn; left|]. pose proof (entry_some _ _ _ Hh0) as [Hi Hlk].
  pose proof (lookup_lt_Some _ _ _ Hlk) as Hlt. apply StronglySorted_inv in T2 as [T2 Tf].
  split; [|by exists h0]. split; cbn [unusedHandles set_handles set_unused handles]; [unfold zlen in *; by rewrite length_insert|done|].
  intros k. change (entry (set_unused u ?x) k) with (entry x k). rewrite (entry_insert s _ i h k Hi Hlt eq_refl).
  assert (Hki : k ∈ u -> k <> i).
  { intros Hk ->. rewrite Forall_forall in Tf. specialize (Tf i Hk). lia. }
  destruct (k =? i) eqn:E; zbool.
  - split; [intros Hk; by destruct (Hki Hk)|]. by intros (x & [= <-] & Hx).
  - rewrite <- T3, Hn, elem_of_cons. split; [by right|]. by intros [->|].
Qed.

Lemma handle_new_spec type p fh dp s : Inv s -> type <> HANDLE_UNUSED -> confined home p ->
  wp (handle_new type p fh dp)
     (fun i s' => (i = -1 /\ s' = s /\ 2 ^ 31 <= zlen (handles s) + 1) \/ added s i (new_handle type p fh dp) s')
     (fun _ _ => False) s.
Proof.
  intros Hs Ht Hp. pose proof Hs as [H1 H2 H3 H4 H5]. pose proof H4 as [T1 T2 T3]. pose proof (zlen_nonneg (handles s)).
  unfold wp, handle_new. destruct (s32 _ <? 0) eqn:E; zbool.
  { left. split; [done|]. split; [done|]. revert E. unfold s32. change (2 ^ 31) with 2147483648 in *. Z.div_mod_to_equations. lia. }
  assert (Hl : zlen (handles s) + 1 < 2 ^ 31).
  { revert E. unfold s32. change (2 ^ 31) with 2147483648 in *. Z.div_mod_to_equations. lia. }
  destruct (unusedHandles s) as [|i u] eqn:Eu; right.
  - split; [unfold int_range; lia| |by rewrite entry_append, Z.eqb_refl| | |done].
    + unfold open_at, entry. destruct (0 <=? _); [|done]. by rewrite lookup_ge_None_2 by (unfold zlen; lia).
    + intros j Hj. rewrite entry_append. by rewrite (proj2 (Z.eqb_neq j _)).
    + split; try done; [|by apply table_push]. cbn [handles set_handles]. apply Forall_app. split; [done|]. by apply Forall_singleton.
  - destruct (table_reuse s i u (new_handle type p fh dp) H4 Ht Eu) as (Htab & h0 & Hh0 & Hu0).
    pose proof (entry_some _ _ _ Hh0) as [Hi Hlk]. pose proof (lookup_lt_Some _ _ _ Hlk) as Hlt. unfold zlen in *.
    rewrite u32_small by lia.
    split; [unfold int_range; lia| | | | |done].
    + unfold open_at. rewrite Hh0, bool_decide_eq_true_2; done.
    + change (entry (set_unused u ?x) i) with (entry x i). by rewrite (entry_insert s _ i _ i Hi Hlt eq_refl), Z.eqb_refl.
    + intros j Hj. change (entry (set_unused u ?x) j) with (entry x j).
      rewrite (entry_insert s _ i _ j Hi Hlt eq_refl). by rewrite (proj2 (Z.eqb_neq j i)).
    + split; try done. cbn [handles set_handles set_unused]. by apply Forall_insert.
Qed.

(** *** Closing *)

Definition retired (h : Handle) : Handle :=
  mkHandle HANDLE_UNUSED (dirp h) (fileHandle h) (searchHandle h) (searchDone h) (hpath h) (bytes_read h) (bytes_write h).

Definition retire (s : SFTP W) (i : Z) : SFTP W :=
  set_unused (set_insert i (unusedHandles s)) (set_handles (alter retired (Z.to_nat (u32 i)) (handles s)) s).

Lemma retire_entry s i h j : entry s i = Some h -> u32 i = i ->
  entry (retire s i) j = if j =? i then Some (retired h) else entry s j.
Proof.
  intros Hh Hi. apply entry_some in Hh as [H0 Hlk]. unfold retire, entry. rewrite Hi. cbn [handles set_unused set_handles].
  destruct (j =? i) eqn:E; zbool.
  - subst j. rewrite (proj2 (Z.leb_le 0 i) H0), list_lookup_alter_eq. by rewrite Hlk.
  - destruct (0 <=? j) eqn:E0; [|done]. zbool. by rewrite list_lookup_alter_ne by lia.
Qed.

Lemma Inv_retire s i h : Inv s -> entry s i = Some h -> u32 i = i -> Inv (retire s i).
Proof.
  intros [H1 H2 H3 [T1 T2 T3] H5] Hh Hi. split; try done; cbn [handles retire set_unused set_handles].
  - rewrite Forall_lookup in *. intros j x Hx. apply alter_cases in Hx as [(_ & y & Hy & ->)|[_ Hx]]; [exact (H3 _ _ Hy)|by eapply H3].
  - split; cbn [unusedHandles retire set_unused handles set_handles].
    + unfold zlen in *. by rewrite length_alter.
    + by apply set_insert_sorted.
    + intros k. rewrite set_insert_elem, T3, (retire_entry s i h k Hh Hi). destruct (k =? i) eqn:E; zbool.
      * subst k. split; [intros _; by exists (retired h)|by left].
      * split; [by intros [->|]|by right].
Qed.

(** What [handle_close] does to a table whose entry [i] is open. *)
Lemma win_state {A} (e : winE A) s a s' : win e s = (Ret a, s') ->
  handles s' = handles s /\ unusedHandles s' = unusedHandles s.
Proof. unfold win. destruct (sys e (world s)). by intros [= _ <-]. Qed.

Lemma safe_close i : int_range i -> safe (handle_close i) any.
Proof.
  intros Hi s Hs. unfold wp, handle_close. destruct (handles s !! Z.to_nat (u32 i)) as [h|] eqn:Eh.
  2: { apply (safe_bind _ _ any); [by apply safe_win|intros; by apply safe_ret|done]. }
  destruct (lookup_int _ _ _ (to_len _ (in_table _ Hs)) Hi Eh) as [H0 Hu].
  assert (Hclose : forall (e : winE bool), call_ok home (Call e) ->
    wp (ret ← win e; _ ← handle_unused i; mret ret) (fun a s' => Inv s' /\ any a) (fun ex s' => Inv s' /\ ok_exn ex) s).
  { intros e He. apply wp_bind. pose proof (safe_win e He s Hs) as Hw. unfold wp in *.
    destruct (win e s) as [[a|ex] s'] eqn:Ew; [|done]. destruct Hw as [Hs' _]. split; [|done].
    destruct (win_state _ _ _ _ Ew) as [Eh' Eu']. apply (Inv_retire s' i h Hs'); [|done].
    unfold entry. rewrite (proj2 (Z.leb_le 0 i) H0), Eh', <- Hu. done. }
  destruct (is_file h); [by apply Hclose|]. destruct (is_dir h); [by apply Hclose|].
  apply (safe_bind _ _ any); [by apply safe_win|intros; by apply safe_ret|done].
Qed.

(** *** Reading handles *)

Lemma s32_int v : int_range (s32 v).
Proof. unfold int_range, s32. pose proof (Z.mod_pos_bound (v + 2147483648) 4294967296). lia. Qed.

Lemma read_int_range l v : read_int l = Some v -> int_range v.
Proof.
  assert (Hn : forall neg t, number neg t = Some v -> int_range v).
  { intros neg t. unfold number. destruct t as [|c t]; [done|]. destruct (is_digit c); [|done].
    set (x := if neg then _ else _). destruct (_ && _) eqn:E; [|done]. intros [= <-]. zbool. by split. }
  unfold read_int. destruct (skip_space l) as [|c t]; [apply Hn|].
  destruct c as [|p|p]; [apply Hn| |apply Hn].
  repeat (apply Hn || destruct p as [p|p|]).
Qed.

Lemma safe_from_string l : safe (handle_from_string l) int_range.
Proof.
  unfold handle_from_string. destruct (zlen l =? 0); [apply safe_ret; by split|].
  eapply safe_bind; [apply safe_handle_at|]. intros h _. apply safe_ret.
  destruct (read_int (c_str l)) as [v|] eqn:E; [by eapply read_int_range|apply s32_int].
Qed.

Lemma safe_get_handle : safe get_handle int_range.
Proof.
  unfold get_handle. eapply safe_bind; [apply (safe_queue 4), getter_string; lia|]. intros l _.
  destruct (zlen l <? 256); [apply safe_from_string|apply safe_ret; by split].
Qed.

End Safe.

(** ** Every request keeps the invariant *)

Section Handlers.
Context {W : Type} `{Platform W}.
Context (home : SFTPFilePath) (home_dir : list Z) (b0 : Buffer) (bf : Prop).
Hypothesis Hhome : make_factory ndebug fromUTF8 home_dir = Ret home.
Hypothesis Hdrive : has_drive_letter (base home) = true.
Abbreviation M := (SE (SFTP W)).
Abbreviation safe := (safe (W := W) home b0 bf).

Lemma raises_safe {A} (m : exc A) (Q : A -> Prop) :
  raises ndebug m -> (forall a, m = Ret a -> Q a) -> safe (lift m) Q.
Proof.
  intros Hr Hq. apply safe_lift. destruct m; [by apply Hq|]. by destruct Hr as [->|[Hn ->]].
Qed.

Lemma safe_q_char : safe (queue get_char) any.
Proof. apply (safe_queue home b0 bf 1); [lia|apply getter_char]. Qed.
Lemma safe_q_int : safe (queue get_int) any.
Proof. apply (safe_queue home b0 bf 4); [lia|apply getter_int]. Qed.
Lemma safe_q_int64 : safe (queue get_int64) any.
Proof. apply (safe_queue home b0 bf 8); [lia|apply getter_int64]. Qed.
Lemma safe_q_string : safe (queue get_string) any.
Proof. apply (safe_queue home b0 bf 4); [lia|apply getter_string]. Qed.
Lemma safe_q_attrib : safe (queue decode_attrib) any.
Proof. apply (safe_queue home b0 bf 0); [lia|apply getter_decode]. Qed.

Lemma safe_path l : safe (create_path_for l) (confined home).
Proof.
  intros s Hs. unfold create_path_for. apply wp_bind, wp_gets. rewrite (in_home _ _ _ Hs).
  apply raises_safe; [apply raises_create_path| |done]. intros p Hp. by eapply create_path_confined.
Qed.

Lemma confined_below p : confined home p -> below home (path (base p)).
Proof. by intros []. Qed.

Lemma safe_call_name p : confined home p -> safe (call_name p) (within home).
Proof.
  intros Hp. apply raises_safe; [apply raises_for_call|]. intros n Hn.
  rewrite (confined_for_call _ home) in Hn by done. injection Hn as <-. exists (path (base p)).
  split; [by apply confined_below|]. unfold call_prefix. by rewrite <- app_assoc.
Qed.

Lemma safe_mask p : confined home p -> safe (lift (get_mask_for_dir_search ndebug p)) (mask_within home).
Proof.
  intros Hp. apply raises_safe; [apply raises_mask|]. intros n Hn. unfold get_mask_for_dir_search in Hn.
  destruct (assert _ _) as [[]|]; [|done]. cbn [mbind exc_bind] in Hn. unfold to_string_end in Hn.
  rewrite (cf_absolute _ _ Hp), (confined_name _ home) in Hn by done. cbn [andb] in Hn. cbn [mbind exc_bind negb] in Hn.
  set (d := drive (base home) :: COLON :: BSL :: join BSL (path (base p))) in *.
  exists (longPrefix ++ d). split.
  - exists (path (base p)). split; [by apply confined_below|]. unfold call_prefix. by rewrite <- app_assoc.
  - destruct (znth 0 d _ =? BSL); injection Hn as <-; [left|right]; by rewrite <- !app_assoc.
Qed.

Lemma safe_to_name i : safe (handle_to_name i) any.
Proof.
  eapply safe_bind; [apply safe_handle_at|]. intros h _. apply raises_safe; [apply raises_to_string|done].
Qed.
Lemma safe_to_path i : safe (handle_to_path i) (confined home).
Proof. eapply safe_bind; [apply safe_handle_at|]. intros h Hh. by apply safe_ret. Qed.
Lemma safe_to_string p : safe (lift (to_string ndebug p)) any.
Proof. apply raises_safe; [apply raises_to_string|done]. Qed.
Lemma safe_unix p : safe (lift (unix_form ndebug p)) any.
Proof. apply raises_safe; [apply raises_unix|done]. Qed.

Lemma safe_field {A} i f (g : Handle -> A) : safe (h ← handle_at i f; mret (g h)) any.
Proof. eapply safe_bind; [apply safe_handle_at|]. intros h _. by apply safe_ret. Qed.
Lemma safe_to_dir i : safe (handle_to_dir i) any.
Proof. apply safe_field. Qed.
Lemma safe_to_fh i : safe (handle_to_fh i) any.
Proof. apply safe_field. Qed.
Lemma safe_bytes_read i : safe (handle_bytes_read i) any.
Proof. apply safe_field. Qed.
Lemma safe_bytes_write i : safe (handle_bytes_write i) any.
Proof. apply safe_field. Qed.

Lemma safe_event {A} (e : winE A) : call_ok home (Call e) -> safe (win e) any.
Proof. apply safe_win. Qed.

Lemma safe_new type p fh dp : type <> HANDLE_UNUSED -> confined home p -> safe (handle_new type p fh dp) any.
Proof.
  intros Ht Hp s Hs. eapply wp_mono; [by apply (handle_new_spec home b0)|..|done]; cbn.
  intros i s' [(_ & -> & _)|[]]; done.
Qed.

Lemma safe_version v : safe (modify (set_version v)) any.
Proof.
  intros s [H1 H2 H3 H4 H5]. apply wp_modify. split; [|done]. split; try done. by apply (table_ok_ext s).
Qed.

End Handlers.

#[export] Hint Resolve safe_q_char safe_q_int safe_q_int64 safe_q_string safe_q_attrib safe_path safe_call_name
  safe_mask safe_to_name safe_to_path safe_to_string safe_unix safe_to_dir safe_to_fh safe_bytes_read
  safe_bytes_write safe_get_handle safe_new safe_version safe_status safe_send_handle safe_send_data
  safe_send_attrib safe_send_names safe_update_read safe_update_write safe_set_search safe_close
  safe_handle_at : sftp.
#[export] Hint Extern 1 (safe _ _ _ (win _) _) => apply safe_event; cbn; tauto : sftp.

Ltac safe_step :=
  match goal with
  | |- safe _ _ _ (mret _) _ => by apply safe_ret
  | |- safe _ _ _ (throw _) _ => by apply safe_throw
  | |- safe _ _ _ (_ ≫= _) _ =>
      first [ eapply safe_bind; [solve [eauto with sftp]|cbn beta; intros ? ?]
            | eapply (safe_bind _ _ _ _ _ any); [|cbn beta; intros ? ?] ]
  | |- safe _ _ _ (try_catch _ _ _) _ => apply safe_try
  | |- safe _ _ _ (if ?b then _ else _) _ => destruct b
  | |- safe _ _ _ (match ?x with _ => _ end) _ => destruct x
  | |- safe _ _ _ _ _ => solve [eauto with sftp]
  end.
Ltac safe_all := repeat safe_step.

Section Requests.
Context {W : Type} `{Platform W}.
Context (home : SFTPFilePath) (home_dir : list Z) (b0 : Buffer) (bf : Prop).
Hypothesis Hhome : make_factory ndebug fromUTF8 home_dir = Ret home.
Hypothesis Hdrive : has_drive_letter (base home) = true.
Abbreviation M := (SE (SFTP W)).
Abbreviation safe := (safe (W := W) home b0 bf).

Lemma safe_last_status : safe last_status any.
Proof. unfold last_status. safe_all. Qed.
Hint Resolve safe_last_status : sftp.

Lemma safe_status_of b : safe (status_of b) any.
Proof. unfold status_of. safe_all. Qed.
Hint Resolve safe_status_of : sftp.

Lemma safe_reply_error id st : safe (reply_error id st) any.
Proof. unfold reply_error. safe_all. Qed.
Hint Resolve safe_reply_error : sftp.

Lemma safe_guarded c body finish : (forall id, safe (body id) any) ->
  (forall id st, safe (finish id st) any) -> safe (guarded c body finish) any.
Proof. intros Hb Hf. unfold guarded. safe_all; auto. Qed.

Lemma safe_new_handle_reply id type p x fh dp : type <> HANDLE_UNUSED -> confined home p ->
  safe (new_handle_reply id type p x fh dp) any.
Proof. intros Ht Hp. unfold new_handle_reply. safe_all. Qed.
Hint Resolve safe_new_handle_reply : sftp.

Lemma safe_log_close i : safe (handle_log_close i) any.
Proof.
  intros s Hs. unfold wp, handle_log_close.
  destruct (handle_is_ok s i HANDLE_FILE);
    match goal with |- match ?m s with _ => _ end => assert (Hm : safe m any) by safe_all; exact (Hm s Hs) end.
Qed.
Hint Resolve safe_log_close : sftp.

Lemma safe_open : safe process_open any.
Proof. apply safe_guarded; [|intros; auto with sftp]. intros id. safe_all. Qed.

Lemma safe_do_stat : safe process_do_stat any.
Proof. apply safe_guarded; [|intros; auto with sftp]. intros id. safe_all. Qed.

Lemma safe_opendir : safe process_opendir any.
Proof. apply safe_guarded; [|intros; auto with sftp]. intros id. safe_all. Qed.

Lemma safe_realpath : safe process_realpath any.
Proof. apply safe_guarded; [|intros; auto with sftp]. intros id. safe_all. Qed.

Lemma safe_free_unset r : bf -> safe (free_unset r) any.
Proof. intros Hbf. unfold free_unset. safe_all. Qed.
Hint Resolve safe_free_unset : sftp.

Lemma safe_setstat_body n : safe (setstat_body n) any.
Proof. unfold setstat_body. safe_all. Qed.
Hint Resolve safe_setstat_body : sftp.

Lemma safe_set_size fh n : safe (set_size fh n) any.
Proof. unfold set_size. safe_all. Qed.
Hint Resolve safe_set_size : sftp.

Lemma safe_entries n sh : safe (read_entries n sh) any.
Proof. induction n as [|n IH]; cbn [read_entries]; safe_all. Qed.
Hint Resolve safe_entries : sftp.

Lemma safe_move o n : confined home o -> confined home n -> safe (move_if_absent o n) any.
Proof. intros Ho Hn. unfold move_if_absent. safe_all. Qed.
Hint Resolve safe_move : sftp.

(** Every directory [create_directory_path] makes is at or below the home. *)
Lemma safe_directories p : confined home p -> forall n k,
  (nDirs (base home) <= k)%nat -> (k + n <= S (nDirs (base p)))%nat -> safe (create_directories n k p) any.
Proof.
  intros Hp. induction n as [|n IH]; intros k Hk Hn; cbn [create_directories]; [safe_all|].
  destruct (confined_first_dirs ndebug home p k Hp ltac:(lia)) as (g & -> & Hg).
  eapply (safe_bind _ _ _ _ _ (confined home)); [by apply safe_lift|]. intros g' Hg'.
  eapply safe_bind; [by apply safe_call_name|]. intros nm Hnm.
  eapply safe_bind; [auto with sftp|]. intros st _. destruct st; [apply IH; lia|].
  eapply safe_bind; [by apply safe_call_name|]. intros nm' Hnm'.
  eapply safe_bind; [auto with sftp|]. intros ok _. destruct ok; [apply IH; lia|by apply safe_ret].
Qed.

Lemma safe_directory_path p : confined home p -> safe (create_directory_path p) any.
Proof.
  intros Hp. unfold create_directory_path. pose proof (cf_pos _ _ Hp).
  destruct (decide (nDirs (base p) <= nUserHomePos p)%nat).
  - replace (nDirs (base p) - nUserHomePos p)%nat with 0%nat by lia. by apply safe_ret.
  - apply safe_directories; [done|lia|lia].
Qed.
Hint Resolve safe_directory_path : sftp.

Lemma safe_handler r : bf -> safe (handler r) any.
Proof.
  intros Hbf. destruct r; cbn [handler]; try apply safe_open; try apply safe_do_stat; try apply safe_opendir; try apply safe_realpath.
  - unfold process_init. safe_all. apply safe_built, built_bind; [apply built_append, buffer_init_ok|].
    intros. by apply built_append.
  - unfold process_close. safe_all.
  - unfold process_read. safe_all.
  - unfold process_write. safe_all.
  - unfold process_fstat. safe_all.
  - unfold process_setstat. safe_all.
  - unfold process_fsetstat. safe_all.
  - unfold process_readdir, list_directory. safe_all.
  - unfold process_remove. safe_all.
  - unfold process_mkdir. safe_all.
  - unfold process_rmdir. safe_all.
  - unfold process_rename. safe_all.
  - unfold process_readlink. safe_all.
  - unfold process_symlink. safe_all.
  - unfold process_extended. safe_all.
Qed.

End Requests.

(** ** The session *)

Section Session.
Context {W : Type} `{Platform W}.
Context (home : SFTPFilePath) (home_dir : list Z).
Hypothesis Hhome : make_factory ndebug fromUTF8 home_dir = Ret home.
Hypothesis Hdrive : has_drive_letter (base home) = true.
Implicit Type s : SFTP W.

(** Between two requests. *)
Record Idle s : Prop := {
  id_inv : Inv home (iqueue s) s;
  id_empty : contents (iqueue s) = []
}.

Lemma Inv_rebase b0 s : Inv home b0 s -> Inv home (iqueue s) s.
Proof. intros [H1 H2 H3 H4 H5]. split; try done. apply drained_refl. by destruct H5. Qed.

Lemma consume_getter n : 0 <= n ->
  getter n (get_or_fatal (fun b => (pair tt) <$> buffer_consume_ret b n)).
Proof.
  intros Hn. apply (getter_fatal n _ (fun _ => tt)); [done|]. intros b. rewrite buffer_consume_ret_get.
  by destruct (buffer_get_ret b n) as [[d b']|].
Qed.

Lemma discard_rest_spec b0 s L : Inv home b0 s -> zlen (contents (iqueue s)) <= L < 2 ^ 32 ->
  wp (discard_rest L) (fun _ s' => Idle s' /\ toChannel s' = toChannel s) (fun _ _ => False) s.
Proof.
  intros Hs HL. pose proof (in_queue _ _ _ Hs) as [[Hok Hb] _ _ _]. pose proof (zlen_nonneg (contents (iqueue s))).
  unfold discard_rest. apply wp_bind, wp_gets. rewrite buffer_len_contents by done.
  set (n := zlen (contents (iqueue s))) in *. destruct (L <? n) eqn:E1; zbool; [lia|].
  rewrite (u32_small (L - n)) by lia. destruct (L <? L - n) eqn:E2; zbool; [lia|].
  destruct (L >? L - n) eqn:E3; zbool.
  - replace (u32 (L - (L - n))) with n by (rewrite u32_small; lia). apply wp_zoom.
    pose proof (consume_getter n ltac:(lia) (iqueue s) (conj Hok Hb)) as Hg. unfold wp, get_or_fatal in *.
    rewrite buffer_consume_ret_get in *. pose proof (buffer_get_ret_spec (iqueue s) n Hok ltac:(lia)) as Hsp.
    destruct (buffer_get_ret (iqueue s) n) as [[d b']|]; cbn in Hg |- *; [|lia].
    destruct Hsp as (_ & _ & Hc & _). split; [|done]. split.
    + apply (Inv_rebase b0), Inv_queue; [done|]. eapply drained_le; [|exact Hg]. lia.
    + cbn [iqueue set_iqueue]. rewrite Hc. apply drop_ge. unfold n, zlen. lia.
  - apply wp_ret. split; [|done]. split; [by apply (Inv_rebase b0)|]. destruct (contents (iqueue s)); [done|].
    subst n. unfold zlen in *. cbn in *. lia.
Qed.

(** The queue with one packet in it. *)
Definition loaded (msg : list Z) s : Prop := contents (iqueue s) = put_u32 (zlen msg) ++ msg.

Lemma msg_len_spec b0 s msg : Inv home b0 s -> loaded msg s -> zlen msg < 2 ^ 32 ->
  wp (queue get_int) (fun L s' => L = zlen msg /\ Inv home b0 s' /\ toChannel s' = toChannel s /\
                                 contents (iqueue s') = msg)
     (fun _ _ => False) s.
Proof.
  intros Hs Hl Hm. pose proof (in_queue _ _ _ Hs) as [[Hok Hb] _ _ _].
  set (n := Z.max (end_ (iqueue s)) (alloc (iqueue s))).
  assert (Hcap : capped n (iqueue s)).
  { split; [done|]. pose proof (ok_offset _ Hok). pose proof (ok_end _ Hok). unfold n, BUFFER_ALLOCSZ. lia. }
  pose proof (zlen_nonneg msg).
  pose proof (wp_and _ _ _ _ _ _ (reads_int n (zlen msg) ltac:(lia) (iqueue s) msg Hcap Hl)
    (getter_int (iqueue s) (conj Hok Hb))) as Hw.
  apply wp_zoom. eapply wp_mono; [exact Hw|..]; cbn.
  - intros L b [(-> & _ & Hc) Hd]. split; [done|]. split; [|done]. apply Inv_queue; [done|].
    eapply drained_le; [|exact Hd]. lia.
  - by intros e b [[] _].
Qed.

Definition requests_ok (m : list Z) : Prop := bytes_ok m /\ zlen m < 2 ^ 32.

Lemma process_spec b0 s msg : Inv home b0 s -> loaded msg s -> zlen msg < 2 ^ 32 ->
  wp process (fun _ s' => Idle s') (fun e s' => Inv home (iqueue s') s' /\ ok_exn True e) s.
Proof.
  intros Hs Hl Hm. unfold process. apply wp_bind. eapply wp_mono; [by eapply msg_len_spec|..]; cbn; [|done].
  intros L s1 (-> & Hs1 & _ & Hc). apply Inv_rebase in Hs1.
  assert (Hexn : forall e s', Inv home (iqueue s1) s' /\ ok_exn True e -> Inv home (iqueue s') s' /\ ok_exn True e).
  { intros e s' [Hi He]. split; [by eapply Inv_rebase|done]. }
  apply wp_bind. eapply wp_mono; [by apply (safe_q_char home (iqueue s1) True)|..]; cbn; [|done].
  intros type s2 [Hs2 _]. apply wp_bind.
  assert (Hh : safe home (iqueue s1) True (match fxp_of type with Some r => handler r | None => mret tt end) any).
  { destruct (fxp_of type); [by eapply safe_handler|by apply safe_ret]. }
  eapply wp_mono; [by apply Hh|..]; cbn; [|done]. intros _ s3 [Hs3 _].
  eapply wp_mono; [eapply discard_rest_spec; [exact Hs3|]|..|done]; cbn.
  - pose proof (in_queue _ _ _ Hs3) as [_ Hlen _ _]. rewrite Hc in Hlen. lia.
  - by intros _ s4 [].
Qed.

Lemma packet_received s msg : Idle s -> bytes_ok msg ->
  wp (receive msg) (fun _ s' => Inv home (iqueue s') s' /\ loaded msg s' /\ toChannel s' = toChannel s)
     (fun e s' => s' = s /\ ok_exn True e) s.
Proof.
  intros [Hs He] Hb. pose proof Hs as [H1 H2 H3 H4 [[Hok _] _ _ _]]. unfold wp, receive, buffer_put_string, buffer_put_int.
  destruct (buffer_append_cases (iqueue s) (put_u32 (zlen msg)) Hok) as [(b1 & -> & Hok1 & Hc1 & _)|(m & -> & _)]; [|done].
  cbn [mbind res_bind].
  destruct (buffer_append_cases b1 msg Hok1) as [(b2 & -> & Hok2 & Hc2 & _)|(m & -> & _)]; [|done].
  rewrite Hc1, He in Hc2. split; [|done]. split; try done; [by apply (table_ok_ext s)|].
  apply drained_refl. split; [done|]. cbn [iqueue set_iqueue]. rewrite Hc2. apply Forall_app. split; [apply put_u32_ok|done].
Qed.

Lemma run_spec input : Forall (fun m => requests_ok (fst m)) input -> forall s, Idle s ->
  wp (run input) (fun _ s' => Idle s') (fun e s' => Inv home (iqueue s') s' /\ ok_exn True e) s.
Proof.
  induction 1 as [|[msg pending] input [Hb Hl] Hi IH]; intros s Hs; [done|]. cbn [run].
  destruct (zlen msg =? 0).
  - apply wp_bind, wp_lift. unfold assert. destruct (ndebug || (pending =? 0)) eqn:En.
    + destruct (negb _); [by apply IH|by apply wp_ret].
    + apply orb_false_iff in En as [En _]. by destruct Hs.
  - apply wp_bind. eapply wp_mono; [by apply packet_received|..]; cbn.
    + intros _ s1 (Hs1 & Hld & _). apply wp_bind. eapply wp_mono; [by eapply process_spec|..|done]; cbn.
      intros _ s2 Hs2. by apply IH.
    + intros e s1 [-> He]. by destruct Hs.
Qed.

Lemma initial_idle v w : Idle (initial home v w).
Proof.
  split; [|done]. split; [done|constructor|constructor| |].
  - split; [done|constructor|]. intros i. unfold entry. cbn. rewrite elem_of_nil. split; [done|].
    intros (h & Hh & _). by destruct (0 <=? i).
  - apply drained_refl. split; [apply buffer_init_ok|]. constructor.
Qed.

Lemma session_inv v w input : Forall (fun m => requests_ok (fst m)) input ->
  let '(r, s) := run input (initial home v w) in
  Inv home (iqueue s) s /\ (forall e, r = Throw e -> ok_exn True e) /\ (forall b, r = Ret b -> contents (iqueue s) = []).
Proof.
  intros Hi. pose proof (run_spec input Hi _ (initial_idle v w)) as Hr. unfold wp in Hr.
  destruct (run input (initial home v w)) as [[b|e] s].
  - destruct Hr as [Hr He]. by split.
  - destruct Hr as [Hr He]. split; [done|]. by split; [intros ? [= <-]|].
Qed.

Lemma close_opened b0 s i h : Inv home b0 s -> int_range i -> open_at s i = Some h ->
  exists ret s', handle_close i s = (Ret ret, s') /\ open_at s' i = None /\
    (forall j, j <> i -> entry s' j = entry s j) /\ i ∈ unusedHandles s'.
Proof.
  intros Hs Hi Ho. unfold open_at in Ho. destruct (entry s i) as [x|] eqn:Ee; [|done].
  destruct (bool_decide _) eqn:Eu in Ho; [done|]. injection Ho as ->. apply bool_decide_eq_false in Eu.
  pose proof (entry_some _ _ _ Ee) as [H0 Hlk]. pose proof (u32_nonneg_int i Hi H0) as Hu.
  unfold handle_close. rewrite Hu, Hlk.
  assert (Hc : forall (e : winE bool), exists ret s',
    (ret ← win e; _ ← handle_unused i; mret ret) s = (Ret ret, s') /\ open_at s' i = None /\
    (forall j, j <> i -> entry s' j = entry s j) /\ i ∈ unusedHandles s').
  { intros e. unfold mbind, SE_bind. destruct (win e s) as [[a|ex] s1] eqn:Ew.
    2: { unfold win in Ew. by destruct (sys e (world s)). }
    destruct (win_state _ _ _ _ Ew) as [Eh Eun]. assert (Ee1 : entry s1 i = Some h) by (unfold entry in *; by rewrite Eh).
    exists a, (retire s1 i). split; [done|].
    split; [unfold open_at; rewrite (retire_entry s1 i h i Ee1 Hu), Z.eqb_refl; done|]. split.
    - intros j Hj. rewrite (retire_entry s1 i h j Ee1 Hu), (proj2 (Z.eqb_neq j i) Hj). unfold entry. by rewrite Eh.
    - cbn [unusedHandles retire set_unused]. apply set_insert_elem. by left. }
  unfold is_file, is_dir. destruct (use h) eqn:Eh; [done|apply Hc|apply Hc].
Qed.

(** C19: a session stays in the home directory.  Whatever packets a client sends,
    and whatever Windows answers, every file name, search mask and link target the
    subsystem ever hands to Windows names something in or below the home directory
    of the user, also when a request ends the session with an exception. *)
Theorem sftp_session_confined v w input :
  Forall (fun m => requests_ok (fst m)) input ->
  Forall (call_ok home) (calls (snd (run input (initial home v w)))).
Proof.
  intros Hi. pose proof (session_inv v w input Hi) as Hs.
  destruct (run input (initial home v w)) as [r s]. by destruct Hs as [[] _].
Qed.

(** C26: the handle table.  At any point of a session the free list holds exactly
    the unused entries, in ascending order; a new handle gets a number no open
    handle has and changes no other entry (or, with 2^31 - 1 entries, none is
    given and nothing changes), and closing a handle frees its number and nothing
    else. *)
Theorem sftp_handle_table v w input :
  Forall (fun m => requests_ok (fst m)) input ->
  let s := snd (run input (initial home v w)) in
  table_ok s /\
  (forall type p fh dp, type <> HANDLE_UNUSED -> confined home p ->
     exists i s', handle_new type p fh dp s = (Ret i, s') /\
       ((i = -1 /\ s' = s /\ 2 ^ 31 <= zlen (handles s) + 1) \/
        added home (iqueue s) s i (new_handle type p fh dp) s')) /\
  (forall i h, int_range i -> open_at s i = Some h ->
     exists ret s', handle_close i s = (Ret ret, s') /\ open_at s' i = None /\
       (forall j, j <> i -> entry s' j = entry s j) /\ i ∈ unusedHandles s').
Proof.
  intros Hi. pose proof (session_inv v w input Hi) as Hs.
  destruct (run input (initial home v w)) as [r s]. destruct Hs as [Hs _]. cbn [snd].
  split; [by destruct Hs|]. split.
  - intros type p fh dp Ht Hp. pose proof (handle_new_spec home (iqueue s) type p fh dp s Hs Ht Hp) as Hn.
    unfold wp in Hn. destruct (handle_new type p fh dp s) as [[i|] s']; [|done]. by exists i, s'.
  - intros i h Hr Ho. by eapply close_opened.
Qed.

(** C27: How a session can end.  No loop of a handler runs for ever; besides the
    end of the input, only [InvalidPath], [NoSuchHandle] and the shutdown that a
    malformed packet causes end a session (and, in a build that has them, a failed
    assertion; and the unset pointer that SETSTAT frees).  A request that ends
    normally leaves the input queue empty whatever its packet held, so the next
    request is read from its own packet. *)
Theorem sftp_session_end v w input :
  Forall (fun m => requests_ok (fst m)) input ->
  (forall e, fst (run input (initial home v w)) = Throw e -> ok_exn True e) /\
  (forall b, fst (run input (initial home v w)) = Ret b ->
     contents (iqueue (snd (run input (initial home v w)))) = []).
Proof.
  intros Hi. pose proof (session_inv v w input Hi) as Hs.
  destruct (run input (initial home v w)) as [r s]. by destruct Hs as [_ Hs].
Qed.

End Session.

(** ** A small Windows *)

(** A machine with one existing file; the world is the last error. *)
Definition demo_sys (A : Type) (e : winE A) (w : Z) : A * Z :=
  match e in winE T return T * Z with
  | CreateFileW n _ _ _ _ => if bool_decide (n = str "\\?\c:\users\joe\x") then (7, w) else (-1, 2)
  | CloseHandle _ => (true, w)
  | SetFilePointerEx _ _ => (true, w)
  | SetEndOfFile _ => (true, w)
  | ReadFile _ _ => (Some (str "hello"), w)
  | WriteFile _ d => (Some (zlen d), w)
  | GetFileAttributesExW _ => (None, 2)
  | GetFileInformationByHandle _ => (None, 6)
  | SetFileInformationByHandle _ _ => (false, 6)
  | SetFileAttributesW _ _ => (true, w)
  | GetFileAttributes _ => (0xFFFFFFFF, 2)
  | FindFirstFile _ => (-1, 2)
  | FindNextFileW _ => (None, 18)
  | FindClose _ => (true, w)
  | DeleteFileW _ => (true, w)
  | CreateDirectoryW _ => (true, w)
  | RemoveDirectoryW _ => (true, w)
  | CreateHardLink _ _ => (true, w)
  | MoveFileExW _ _ _ => (true, w)
  | GetSystemTime => ([], w)
  | SystemTimeToFileTime _ => (zero_time, w)
  | GetLastError => (w, w)
  | SetLastError e => (tt, e)
  end.

#[global] Instance demo : Platform Z := {|
  sys := demo_sys; fromUTF8 := utf8_id; toUTF8 := utf8_id; ftime := fun _ => [];
  ndebug := true; dbg := false; uninit := 0; stale_ptr := true; bad_int := fun _ => 0
|}.

Definition demo_home : SFTPFilePath :=
  mkFilePath (mkPath [str "users"; str "joe"] 99 false) 2.

Definition fx_string (l : list Z) : list Z := put_u32 (zlen l) ++ l.

(** INIT, OPEN "x" for reading, READ 5 bytes, CLOSE. *)
Definition demo_input : list (list Z * Z) :=
  [([1] ++ put_u32 3, 3);
   ([3] ++ put_u32 10 ++ fx_string (str "x") ++ put_u32 1 ++ put_u32 0, 2);
   ([5] ++ put_u32 11 ++ fx_string (str "0" ++ [0]) ++ put_u64 0 ++ put_u32 5, 1);
   ([4] ++ put_u32 12 ++ fx_string (str "0" ++ [0]), 0);
   ([], 0)].

Example demo_session :
  let '(r, s) := run demo_input (initial demo_home 0 0) in
  r = Ret true /\ toChannel s =
    [[2] ++ put_u32 3;
     [102] ++ put_u32 10 ++ fx_string (str "0" ++ [0]);
     [103] ++ put_u32 11 ++ fx_string (str "hello");
     [101] ++ put_u32 12 ++ put_u32 0 ++ fx_string (str "Success") ++ fx_string []] /\
  unusedHandles s = [0].
Proof. vm_compute. auto. Qed.

Definition request_okb (m : list Z * Z) : bool :=
  forallb (fun z => (0 <=? z) && (z <? 256)) (fst m) && (zlen (fst m) <? 2 ^ 32).

Lemma requests_okb input : forallb request_okb input = true -> Forall (fun m => requests_ok (fst m)) input.
Proof.
  intros H. rewrite forallb_forall in H. apply Forall_forall. intros [m p] Hm. apply list_elem_of_In in Hm.
  specialize (H _ Hm). unfold request_okb in H. cbn [fst] in H |- *. zbool. split; [|done].
  apply Forall_forall. intros z Hz. apply list_elem_of_In in Hz.
  match goal with Hf : forallb _ _ = true |- _ => rewrite forallb_forall in Hf; specialize (Hf z Hz) end.
  zbool. by split.
Qed.

Lemma sftp_session_confined_witness :
  Forall (call_ok demo_home) (calls (snd (run demo_input (initial demo_home 0 0)))).
Proof.
  apply (sftp_session_confined demo_home (str "C:\users\joe")).
  - vm_compute. reflexivity.
  - reflexivity.
  - apply requests_okb. vm_compute. reflexivity.
Defined.

Lemma sftp_handle_table_witness : table_ok (snd (run demo_input (initial demo_home 0 0))).
Proof.
  apply (sftp_handle_table demo_home (str "C:\users\joe")).
  - vm_compute. reflexivity.
  - reflexivity.
  - apply requests_okb. vm_compute. reflexivity.
Defined.

Lemma sftp_session_end_witness : contents (iqueue (snd (run demo_input (initial demo_home 0 0)))) = [].
Proof.
  assert (Hhome : make_factory ndebug fromUTF8 (str "C:\users\joe") = Ret demo_home) by (vm_compute; reflexivity).
  assert (Hin : Forall (fun m => requests_ok (fst m)) demo_input) by (apply requests_okb; vm_compute; reflexivity).
  apply (proj2 (sftp_session_end demo_home (str "C:\users\joe") Hhome eq_refl 0 0 demo_input Hin) true).
  vm_compute. reflexivity.
Defined.
