(* ===== verification/SftpReplies.v ===== *)
(** * SftpReplies: requests and their replies

    Every request is answered by exactly one message that carries its id.  [quiet]
    operations send nothing, [one] is an operation that sends one reply, [st_at]
    the body of a handler that answers itself when its status is SSH2_FX_OK and
    leaves the answer to its caller otherwise. *)

From S2P Require Import Prelude SshBuffer CxxMonad SftpPath SftpAttrib SftpServer SftpServerProps.
Import Paths Attribs.

(** ** What Windows promises about errors *)

(** The answer by which a function reports its failure. *)
Definition failed {A} (e : winE A) : A -> Prop :=
  match e in winE T return T -> Prop with
  | CreateFileW _ _ _ _ _ => fun a => a = INVALID_HANDLE_VALUE
  | GetFileAttributesExW _ => fun a => a = None
  | GetFileInformationByHandle _ => fun a => a = None
  | ReadFile _ _ => fun a => a = None
  | _ => fun _ => False
  end.

Class ErrorLaws (W : Type) `{Platform W} := {
  (** a function that fails sets the last error *)
  error_set : forall A (e : winE A) w a w',
    sys e w = (a, w') -> failed e a -> fst (sys GetLastError w') <> 0
}.

Section Replies.
Context {W : Type} `{Platform W}.
Abbreviation M := (SE (SFTP W)).
Implicit Type s : SFTP W.

Definition reply_to (id : Z) (m : list Z) : Prop := exists type rest, m = type :: put_u32 id ++ rest.

Definition silent s s' : Prop := toChannel s' = toChannel s.
Definition answered (id : Z) s s' : Prop := exists m, reply_to id m /\ toChannel s' = toChannel s ++ [m].

(** ** Operations that send nothing *)

Definition quiet {A} (m : M A) : Prop := forall s, wp m (fun _ s' => silent s s') (fun _ s' => silent s s') s.

Lemma quiet_ret {A} (a : A) : quiet (mret a).
Proof. done. Qed.
Lemma quiet_throw {A} e : quiet (throw e : M A).
Proof. done. Qed.
Lemma quiet_lift {A} (m : exc A) : quiet (lift m).
Proof. intros s. apply wp_lift. by destruct m. Qed.
Lemma quiet_gets {A} (f : SFTP W -> A) : quiet (gets f).
Proof. done. Qed.

Lemma quiet_bind {A B} (m : M A) (f : A -> M B) : quiet m -> (forall a, quiet (f a)) -> quiet (m ≫= f).
Proof.
  intros Hm Hf s. apply wp_bind. eapply wp_mono; [apply Hm|..|done]; cbn. intros a s1 H1.
  eapply wp_mono; [apply Hf|..]; cbn; unfold silent in *; intros; congruence.
Qed.

Lemma quiet_try {A} c (m h : M A) : quiet m -> quiet h -> quiet (try_catch c m h).
Proof.
  intros Hm Hh s. apply wp_try. eapply wp_mono; [apply Hm|done|]; cbn. intros e s1 H1. destruct (c e); [|done].
  eapply wp_mono; [apply Hh|..]; cbn; unfold silent in *; intros; congruence.
Qed.

Lemma quiet_queue {A} (m : SE Buffer A) : quiet (queue m).
Proof. intros s. apply wp_zoom. unfold wp. by destruct (m (iqueue s)) as [[a|e] b]. Qed.

Lemma quiet_win {A} (e : winE A) : quiet (win e).
Proof. intros s. unfold wp, win. by destruct (sys e (world s)). Qed.

Lemma quiet_handle_at i f : quiet (handle_at i f).
Proof. intros s. unfold wp, handle_at. destruct (handles s !! _) as [h|]; [|done]. by destruct (f h). Qed.

Lemma quiet_alter i f : quiet (alter_handle i f).
Proof. done. Qed.

Lemma quiet_update_read i n : quiet (handle_update_read i n).
Proof. intros s. unfold wp, handle_update_read. by destruct (_ && _). Qed.
Lemma quiet_update_write i n : quiet (handle_update_write i n).
Proof. intros s. unfold wp, handle_update_write. by destruct (_ && _). Qed.

Lemma quiet_handle_new t p fh dp : quiet (handle_new t p fh dp).
Proof. intros s. unfold wp, handle_new. destruct (_ <? _); [done|]. by destruct (unusedHandles s). Qed.

End Replies.

#[export] Hint Resolve quiet_ret quiet_throw quiet_lift quiet_gets quiet_queue quiet_win quiet_handle_at quiet_alter
  quiet_update_read quiet_update_write quiet_handle_new : sftp.

Ltac quiet_step :=
  match goal with
  | |- quiet (_ ≫= _) => apply quiet_bind; [|intros ?]
  | |- quiet (try_catch _ _ _) => apply quiet_try
  | |- quiet (if ?b then _ else _) => destruct b
  | |- quiet (match ?x with _ => _ end) => destruct x
  | |- quiet _ => solve [auto with sftp]
  end.
Ltac quiet_all := repeat quiet_step.

Section Quiet.
Context {W : Type} `{Platform W}.
Implicit Type s : SFTP W.

Lemma quiet_get_handle : quiet (W := W) get_handle.
Proof. unfold get_handle, handle_from_string. quiet_all. Qed.
Lemma quiet_to_name i : quiet (W := W) (handle_to_name i).
Proof. unfold handle_to_name. quiet_all. Qed.
Lemma quiet_to_path i : quiet (W := W) (handle_to_path i).
Proof. unfold handle_to_path. quiet_all. Qed.
Lemma quiet_to_dir i : quiet (W := W) (handle_to_dir i).
Proof. unfold handle_to_dir. quiet_all. Qed.
Lemma quiet_to_fh i : quiet (W := W) (handle_to_fh i).
Proof. unfold handle_to_fh. quiet_all. Qed.

Lemma quiet_log_close i : quiet (W := W) (handle_log_close i).
Proof.
  intros s. unfold wp, handle_log_close.
  destruct (handle_is_ok s i HANDLE_FILE);
    match goal with |- match ?m s with _ => _ end =>
      assert (Hm : quiet m) by (unfold handle_to_name, handle_bytes_read, handle_bytes_write; quiet_all); exact (Hm s) end.
Qed.

Lemma quiet_unused i : quiet (W := W) (handle_unused i).
Proof. done. Qed.

Lemma quiet_close i : quiet (W := W) (handle_close i).
Proof.
  intros s. unfold wp, handle_close. destruct (handles s !! _) as [h|]; [destruct (is_file h); [|destruct (is_dir h)]|];
    match goal with |- match ?m s with _ => _ end =>
      assert (Hm : quiet m) by (pose proof quiet_unused; quiet_all); exact (Hm s) end.
Qed.

Lemma quiet_path l : quiet (W := W) (create_path_for l).
Proof. unfold create_path_for. quiet_all. Qed.
Lemma quiet_call_name p : quiet (W := W) (call_name p).
Proof. apply quiet_lift. Qed.
Lemma quiet_last_status : quiet (W := W) last_status.
Proof. unfold last_status. quiet_all. Qed.
End Quiet.

#[export] Hint Resolve quiet_get_handle quiet_to_name quiet_to_path quiet_to_dir quiet_to_fh quiet_log_close quiet_close
  quiet_path quiet_call_name quiet_last_status : sftp.

(** ** Replies *)

(** A message under construction only grows. *)
Definition grows (b : Buffer) (m : res Buffer) : Prop :=
  match m with
  | Ok b' => buffer_ok b' /\ exists d, contents b' = contents b ++ d
  | _ => True
  end.

Lemma grows_ok b : buffer_ok b -> grows b (Ok b).
Proof. intros Hb. split; [done|]. exists []. by rewrite app_nil_r. Qed.

Lemma grows_append b d : buffer_ok b -> grows b (buffer_append b d).
Proof.
  intros Hb. destruct (buffer_append_cases b d Hb) as [(b' & -> & Hok & Hc & _)|(m & -> & _)]; [|done].
  split; [done|]. by exists d.
Qed.

Lemma grows_bind b m f : grows b m -> (forall b', buffer_ok b' -> grows b' (f b')) -> grows b (m ≫= f).
Proof.
  intros Hm Hf. destruct m as [b'|msg|]; [|done|done]. destruct Hm as [Hok (d & Hd)]. cbn [mbind res_bind].
  specialize (Hf b' Hok). destruct (f b') as [b2|msg|]; [|done|done]. destruct Hf as [Hok2 (d2 & Hd2)].
  split; [done|]. exists (d ++ d2). by rewrite Hd2, Hd, app_assoc.
Qed.

Lemma grows_string b d : buffer_ok b -> grows b (buffer_put_string b d).
Proof. intros Hb. apply grows_bind; [by apply grows_append|]. intros. by apply grows_append. Qed.

Lemma grows_cstring b d : buffer_ok b -> grows b (buffer_put_cstring b (Some d)).
Proof. apply grows_string. Qed.

Lemma grows_fields fs : forall b, buffer_ok b -> grows b (put_fields b fs).
Proof.
  induction fs as [|f fs IH]; intros b Hb; [by apply grows_ok|]. cbn [put_fields]. apply grows_bind; [|done].
  destruct f; [by apply grows_append..|by apply grows_string].
Qed.

Lemma grows_attrib b a : buffer_ok b -> grows b (encode_attrib b a).
Proof. rewrite encode_attrib_fields. apply grows_fields. Qed.

Lemma grows_names l : forall b, buffer_ok b -> grows b (put_names b l).
Proof.
  induction l as [|x l IH]; intros b Hb; [by apply grows_ok|]. cbn [put_names].
  apply grows_bind; [by apply grows_cstring|]. intros b1 H1.
  apply grows_bind; [by apply grows_cstring|]. intros b2 H2.
  apply grows_bind; [by apply grows_attrib|]. done.
Qed.

Section One.
Context {W : Type} `{Platform W}.
Abbreviation M := (SE (SFTP W)).
Implicit Type s : SFTP W.

Definition one {A} (id : Z) (m : M A) : Prop := forall s,
  wp m (fun _ s' => answered id s s') (fun _ s' => silent s s') s.

Lemma one_bind {A B} id (m : M A) (f : A -> M B) : quiet m -> (forall a, one id (f a)) -> one id (m ≫= f).
Proof.
  intros Hm Hf s. apply wp_bind. eapply wp_mono; [apply Hm|..|done]; cbn. intros a s1 H1.
  unfold silent, answered in *. eapply wp_mono; [apply Hf|..]; cbn; unfold silent, answered; rewrite H1; done.
Qed.

Lemma answered_silent id s0 s s' : silent s0 s -> answered id s s' -> answered id s0 s'.
Proof. unfold silent, answered. by intros ->. Qed.

Lemma silent_answered id s0 s s' : answered id s0 s -> silent s s' -> answered id s0 s'.
Proof. unfold silent, answered. by intros ? ->. Qed.

Lemma silent_trans s0 s s' : silent s0 s -> silent s s' -> silent s0 s'.
Proof. unfold silent. by intros -> ->. Qed.

Lemma one_head type id (f : Buffer -> res Buffer) : (forall b, buffer_ok b -> grows b (f b)) ->
  one id (send_msg (b ← buffer_put_char buffer_init type; b ← buffer_put_int b id; f b)).
Proof.
  intros Hf s. unfold wp, send_msg, buffer_put_char, buffer_put_int.
  destruct (buffer_append_cases buffer_init [u8 type] buffer_init_ok) as [(b1 & -> & Hok1 & Hc1 & _)|(m & -> & _)]; [|done].
  cbn [mbind res_bind].
  destruct (buffer_append_cases b1 (put_u32 id) Hok1) as [(b2 & -> & Hok2 & Hc2 & _)|(m & -> & _)]; [|done].
  cbn [mbind res_bind]. specialize (Hf b2 Hok2). destruct (f b2) as [b3|m|]; [|done|done].
  destruct Hf as [Hok3 (d & Hd)]. exists (buffer_ptr b3). split; [|done]. exists (u8 type), d.
  by rewrite buffer_ptr_contents, Hd, Hc2, Hc1, buffer_init_contents by done.
Qed.

Lemma one_status id st : one id (send_status id st).
Proof.
  intros s. unfold wp, send_status.
  match goal with |- match send_msg ?m s with _ => _ end => assert (Hm : one id (send_msg m)); [|exact (Hm s)] end.
  apply one_head. intros b Hb. apply grows_bind; [by apply grows_append|]. intros b1 H1.
  destruct (3 <=? version s); [|by apply grows_ok].
  apply grows_bind; [by apply grows_cstring|]. intros. by apply grows_cstring.
Qed.
Lemma one_handle id i : one id (send_handle id i).
Proof. apply one_head. intros. by apply grows_string. Qed.
Lemma one_data id d : one id (send_data id d).
Proof. apply one_head. intros. by apply grows_string. Qed.
Lemma one_attrib id a : one id (send_attrib id a).
Proof. apply one_head. intros. by apply grows_attrib. Qed.
Lemma one_names id l : one id (send_names id l).
Proof. apply one_head. intros b Hb. apply grows_bind; [by apply grows_append|]. intros. by apply grows_names. Qed.

(** *** A status reply always fits *)

Lemma digits_length fuel : forall n acc, (length (digits fuel n acc) <= fuel + length acc)%nat.
Proof.
  induction fuel as [|fuel IH]; intros n acc; cbn [digits]; [lia|]. destruct (n <? 10); [cbn; lia|].
  specialize (IH (n / 10) ((48 + n mod 10) :: acc)). cbn [length] in IH. lia.
Qed.

Lemma status_message_length st : zlen (c_str (status_to_message st)) <= 32.
Proof.
  unfold status_to_message. assert (Hn : (Z.to_nat (Z.min st SSH2_FX_MAX) <= 8)%nat) by (unfold SSH2_FX_MAX; lia).
  revert Hn. generalize (Z.to_nat (Z.min st SSH2_FX_MAX)). intros n Hn.
  do 9 (destruct n as [|n]; [vm_compute; congruence|]). lia.
Qed.

Definition cap_le (k : Z) (b : Buffer) : Prop := exists n, 0 <= n <= k /\ capped n b.

Lemma append_small k b d : cap_le k b -> k <= 65536 -> zlen d <= 1024 ->
  exists b', buffer_append b d = Ok b' /\ cap_le (k + 1024) b'.
Proof.
  intros (n & Hn & Hc) Hk Hd. pose proof (zlen_nonneg d).
  destruct (buffer_append_fits n b d Hc) as (b' & E & Hc' & _); [unfold fits, BUFFER_ALLOCSZ, BUFFER_MAX_LEN; lia| |].
  - unfold BUFFER_MAX_CHUNK. lia.
  - exists b'. split; [done|]. exists (n + zlen d). split; [lia|done].
Qed.

(** The next append of a chain of small ones succeeds. *)
Ltac append_next Hc :=
  match type of Hc with cap_le ?k ?b =>
    match goal with
    | |- context [buffer_append b ?d] =>
        let b' := fresh "b" in let Hc' := fresh "Hc" in
        destruct (append_small k b d Hc) as (b' & -> & Hc');
          [lia|first [done|lia]|]; cbn [mbind res_bind]; clear Hc; rename Hc' into Hc
    end
  end.

Lemma status_fits id st v :
  exists b, (b ← buffer_put_char buffer_init SSH2_FXP_STATUS;
     b ← buffer_put_int b id;
     b ← buffer_put_int b st;
     if 3 <=? v then
       b ← buffer_put_cstring b (Some (status_to_message st));
       buffer_put_cstring b (Some [])
     else Ok b) = Ok b.
Proof.
  pose proof (status_message_length st) as Hl. pose proof (zlen_nonneg (c_str (status_to_message st))).
  unfold buffer_put_char, buffer_put_int, buffer_put_cstring, buffer_put_string, buffer_put_int.
  assert (Hc : cap_le 0 buffer_init) by (exists 0; split; [lia|apply buffer_init_capped]).
  do 3 append_next Hc. destruct (3 <=? v); [|by eexists]. do 4 append_next Hc. by eexists.
Qed.

Lemma status_sent id st s : exists s', send_status id st s = (Ret tt, s') /\ answered id s s'.
Proof.
  pose proof (one_status id st s) as Ho. unfold wp, send_status in *.
  destruct (status_fits id st (version s)) as [b Hb]. rewrite Hb in *. cbn [send_msg] in *. eexists. split; [done|]. exact Ho.
Qed.

End One.

#[export] Hint Resolve one_status one_handle one_data one_attrib one_names : sftp.

(** ** Bodies that answer when they succeed *)

Section Status.
Context {W : Type} `{ErrorLaws W}.
Abbreviation M := (SE (SFTP W)).
Implicit Type s : SFTP W.

Definition errno_set s : Prop := fst (sys GetLastError (world s)) <> 0.

(** The body that started in [s0] has reached [s] without a reply. *)
Definition st_at (id : Z) s0 (m : M Z) s : Prop := silent s0 s ->
  wp m (fun st s' => if st =? SSH2_FX_OK then answered id s0 s' else silent s0 s') (fun _ s' => silent s0 s') s.

Lemma st_quiet {A} id s0 (m : M A) (f : A -> M Z) s :
  quiet m -> (forall a s', st_at id s0 (f a) s') -> st_at id s0 (m ≫= f) s.
Proof.
  intros Hm Hf Hs. apply wp_bind. eapply wp_mono; [apply Hm|..]; cbn beta.
  - intros a s1 H1. apply Hf. by eapply silent_trans.
  - intros e s1 H1. by eapply silent_trans.
Qed.

Lemma st_win {A} id s0 (e : winE A) (f : A -> M Z) s :
  (forall a s', (failed e a -> errno_set s') -> st_at id s0 (f a) s') -> st_at id s0 (win e ≫= f) s.
Proof.
  intros Hf Hs. apply wp_bind. unfold wp at 1, win. destruct (sys e (world s)) as [a w] eqn:E.
  apply Hf; [|done]. intros Hfail. unfold errno_set. cbn [world]. by eapply error_set.
Qed.

Lemma errno_nonzero err : err <> 0 -> (errno_to_portable err =? SSH2_FX_OK) = false.
Proof.
  intros He. unfold errno_to_portable. rewrite (proj2 (Z.eqb_neq err 0) He).
  repeat match goal with |- context [if ?b then _ else _] => destruct b end; done.
Qed.

Lemma st_last id s0 s : errno_set s -> st_at id s0 last_status s.
Proof.
  unfold errno_set. intros He Hs. unfold last_status. apply wp_bind. unfold wp, win.
  destruct (sys GetLastError (world s)) as [err w]. cbn [fst] in He. cbn [mret SE_ret]. by rewrite errno_nonzero.
Qed.

Lemma st_ret id s0 st s : (st =? SSH2_FX_OK) = false -> st_at id s0 (mret st) s.
Proof. intros Hst Hs. apply wp_ret. by rewrite Hst. Qed.

Lemma st_send {A} id s0 (m : M A) s : one id m -> st_at id s0 (_ ← m; mret SSH2_FX_OK) s.
Proof.
  intros Hm Hs. apply wp_bind. eapply wp_mono; [apply Hm|..]; cbn beta.
  - intros a s1 H1. apply wp_ret. exact (answered_silent id s0 s s1 Hs H1).
  - intros e s1 H1. by eapply silent_trans.
Qed.

Lemma st_new_handle id s0 t p x fh dp s :
  (x = INVALID_HANDLE_VALUE -> errno_set s) -> st_at id s0 (new_handle_reply id t p x fh dp) s.
Proof.
  intros Hx. unfold new_handle_reply. destruct (x =? INVALID_HANDLE_VALUE) eqn:E; zbool; [by apply st_last, Hx|].
  apply st_quiet; [auto with sftp|]. intros i s1. destruct (i <? 0).
  - apply st_quiet; [auto with sftp|]. intros _ s2. by apply st_ret.
  - apply st_send. auto with sftp.
Qed.

Lemma one_error id st s0 s : (if st =? SSH2_FX_OK then answered id s0 s else silent s0 s) ->
  exists s', reply_error id st s = (Ret tt, s') /\ answered id s0 s'.
Proof.
  unfold reply_error. destruct (st =? SSH2_FX_OK); cbn [negb]; [by exists s|]. intros Hs.
  destruct (status_sent id st s) as (s' & E & Ha). exists s'. split; [done|]. by eapply answered_silent.
Qed.

(** [status ← body; reply_error id status] *)
Lemma one_of_st id (m : M Z) : (forall s, st_at id s m s) -> one id (st ← m; reply_error id st).
Proof.
  intros Hm s. apply wp_bind. eapply wp_mono; [by apply Hm|..|done]; cbn beta. intros st s1 H1.
  unfold wp. by destruct (one_error id st s s1 H1) as (s2 & -> & Ha).
Qed.

(** The id at the front of the packet. *)
Definition request_id s : Z :=
  match get_int (iqueue s) with (Ret id, _) => id | (Throw _, _) => uninit end.

(** A handler that reads its id first, outside of any [try]. *)
Definition replies {A} (m : M A) : Prop := forall s,
  wp m (fun _ s' => answered (request_id s) s s') (fun _ s' => silent s s') s.

Lemma replies_id {A} (f : Z -> M A) : (forall id, one id (f id)) -> replies (queue get_int ≫= f).
Proof.
  intros Hf s. apply wp_bind, wp_zoom. unfold wp at 1, request_id.
  destruct (get_int (iqueue s)) as [[id|e] b] eqn:E; [|done].
  eapply wp_mono; [apply Hf|..]; done.
Qed.

Lemma replies_guarded c body : (forall id s, st_at id s (body id) s) -> replies (guarded c body reply_error).
Proof.
  intros Hb s. unfold guarded. apply wp_bind, wp_try, wp_bind, wp_zoom. unfold wp at 1, request_id.
  destruct (get_int (iqueue s)) as [[id|e] b] eqn:E.
  - apply wp_ret, wp_bind, wp_try. eapply wp_mono; [by apply (Hb id)|..]; cbn beta.
    + intros st s1 H1. unfold wp. by destruct (one_error id st s s1 H1) as (s2 & -> & Ha).
    + intros ex s1 H1. destruct (c ex); [|done]. apply wp_ret. unfold wp.
      by destruct (one_error id SSH2_FX_FAILURE s s1 H1) as (s2 & -> & Ha).
  - destruct (c e); [|done]. apply wp_ret. unfold wp.
    by destruct (one_error uninit SSH2_FX_FAILURE s (set_iqueue b s) eq_refl) as (s2 & -> & Ha).
Qed.

End Status.

#[export] Hint Resolve st_ret st_last : sftp.

Ltac one_step :=
  match goal with
  | |- one _ (_ ≫= _) => first [ solve [auto with sftp] | apply one_bind; [solve [quiet_all]|intros ?] ]
  | |- one _ (if ?b then _ else _) => destruct b
  | |- one _ (match ?x with _ => _ end) => destruct x
  | |- one _ _ => solve [auto with sftp]
  end.
Ltac one_all := repeat one_step.

Ltac st_step :=
  match goal with
  | |- st_at _ _ (win _ ≫= _) _ => apply st_win; intros ? ? ?
  | |- st_at _ _ (_ ≫= _) _ => first [ apply st_send; solve [auto with sftp] | apply st_quiet; [solve [quiet_all]|intros ? ?] ]
  | |- st_at _ _ (mret _) _ => by apply st_ret
  | |- st_at _ _ last_status _ =>
      apply st_last; match goal with Hf : failed _ _ -> _ |- _ => apply Hf; reflexivity end
  | |- st_at _ _ (new_handle_reply _ _ _ _ _ _) _ => by apply st_new_handle
  | |- st_at _ _ (if ?b then _ else _) _ => destruct b
  | |- st_at _ _ (match ?x with _ => _ end) _ => destruct x
  end.
Ltac st_all := repeat st_step.

Section Requests.
Context {W : Type} `{ErrorLaws W}.
Abbreviation M := (SE (SFTP W)).
Implicit Type s : SFTP W.

Lemma replies_open : replies process_open.
Proof. apply replies_guarded. intros id s. cbn beta. st_all. Qed.
Lemma replies_do_stat : replies process_do_stat.
Proof. apply replies_guarded. intros id s. st_all. Qed.
Lemma replies_opendir : replies process_opendir.
Proof. apply replies_guarded. intros id s. st_all. Qed.
Lemma replies_realpath : replies process_realpath.
Proof. apply replies_guarded. intros id s. st_all. Qed.

Lemma one_read id (handle off len fh : Z) :
  one id (status ←
    (if fh =? INVALID_HANDLE_VALUE then mret SSH2_FX_FAILURE
     else
       ok ← win (SetFilePointerEx fh (s64 off));
       if negb ok then
         err ← win GetLastError;
         mret (if err =? 0 then SSH2_FX_EOF else errno_to_portable err)
       else
         r ← win (ReadFile fh len);
         match r with
         | None => last_status
         | Some buf =>
             if zlen buf =? 0 then mret SSH2_FX_EOF
             else
               _ ← send_data id buf;
               _ ← handle_update_read handle (zlen buf);
               mret SSH2_FX_OK
         end);
  reply_error id status : M unit).
Proof.
  apply one_of_st. intros s. destruct (fh =? _); [by apply st_ret|]. apply st_win. intros ok s1 _.
  destruct (negb ok).
  { apply st_quiet; [auto with sftp|]. intros err s2. apply st_ret. destruct (err =? 0) eqn:E; zbool; [done|].
    by apply errno_nonzero. }
  apply st_win. intros r s2 Hr. destruct r as [buf|]; [|by apply st_last, Hr].
  destruct (zlen buf =? 0); [by apply st_ret|]. intros Hs. apply wp_bind.
  eapply wp_mono; [apply one_data|..]; cbn beta.
  - intros _ s3 H3. apply wp_bind. unfold wp at 1, handle_update_read.
    destruct (_ && _); apply wp_ret; by eapply answered_silent.
  - intros e s3 H3. by eapply silent_trans.
Qed.

(** [free] of the pointer that SETSTAT never set. *)
Definition bad_free (e : exn) : Prop := e = BadFree /\ stale_ptr = true.

Lemma replies_setstat s :
  wp process_setstat (fun _ s' => answered (request_id s) s s')
     (fun e s' => silent s s' \/ (bad_free e /\ answered (request_id s) s s')) s.
Proof.
  assert (Hsend : forall id st n s0 s1, silent s0 s1 ->
    wp (_ ← send_status id st; free_unset n) (fun _ s' => answered id s0 s')
       (fun e s' => silent s0 s' \/ (bad_free e /\ answered id s0 s')) s1).
  { intros id st n s0 s1 Hs. apply wp_bind. destruct (status_sent id st s1) as (s2 & E & Ha). unfold wp at 1. rewrite E.
    assert (answered id s0 s2) by by eapply answered_silent.
    destruct n; [done|]. cbn [free_unset]. destruct stale_ptr eqn:Es; [right; by repeat split|done]. }
  unfold process_setstat, request_id. apply wp_bind, wp_try, wp_bind, wp_zoom. unfold wp at 1.
  destruct (get_int (iqueue s)) as [[id|e] b] eqn:E.
  2: { destruct (catchable e); [|by left]. apply wp_ret. by apply Hsend. }
  apply wp_ret, wp_bind, wp_try, wp_bind. eapply wp_mono; [apply quiet_queue|..]; cbn beta.
  - intros nm s1 H1. apply wp_ret, wp_bind, wp_try.
    eapply wp_mono; [assert (Hq : quiet (W := W) (setstat_body nm)) by (unfold setstat_body, status_of; quiet_all); apply Hq|..]; cbn beta.
    + intros st s2 H2. apply Hsend. exact (silent_trans s s1 s2 H1 H2).
    + intros ex s2 H2. destruct (catchable ex); [|left; exact (silent_trans s s1 s2 H1 H2)].
      apply wp_ret, Hsend. exact (silent_trans s s1 s2 H1 H2).
  - intros ex s1 H1. destruct (catchable ex); [|by left]. apply wp_ret, wp_bind, wp_ret. by apply Hsend.
Qed.

Lemma replies_readdir : replies process_readdir.
Proof.
  apply replies_id. intros id.
  assert (Hq : forall n sh, quiet (W := W) (read_entries n sh)).
  { induction n as [|n IH]; intros sh; cbn [read_entries]; quiet_all. }
  assert (Hs : forall i sh d, quiet (W := W) (set_search i sh d)) by done.
  unfold list_directory. one_all.
Qed.

Lemma quiet_directories n : forall k p, quiet (W := W) (create_directories n k p).
Proof. induction n as [|n IH]; intros k p; cbn [create_directories]; quiet_all. Qed.

Lemma handler_replies r s : r <> FXP_INIT ->
  wp (handler r) (fun _ s' => answered (request_id s) s s')
     (fun e s' => silent s s' \/ (r = FXP_SETSTAT /\ bad_free e /\ answered (request_id s) s s')) s.
Proof.
  intros Hr. assert (Hgen : forall m : M unit, replies m -> wp m (fun _ s' => answered (request_id s) s s')
     (fun e s' => silent s s' \/ (r = FXP_SETSTAT /\ bad_free e /\ answered (request_id s) s s')) s).
  { intros m Hm. eapply wp_mono; [apply Hm|done|]. by left. }
  destruct r; cbn [handler]; try done; try (eapply wp_mono; [apply replies_setstat|done|]; cbn beta; intros e s' [Hq|[? ?]]; [by left|by right]); apply Hgen; try apply replies_open;
    try apply replies_do_stat; try apply replies_opendir; try apply replies_realpath; try apply replies_readdir;
    apply replies_id; intros id.
  - unfold status_of. one_all.
  - do 3 one_step. cbv zeta. one_step. apply one_read.
  - one_all.
  - one_all. apply one_of_st. intros s1. st_all.
  - unfold set_size. one_all.
  - unfold status_of. one_all.
  - pose proof quiet_directories. unfold create_directory_path. one_all.
  - unfold status_of. one_all.
  - unfold move_if_absent, status_of. one_all.
  - one_all.
  - one_all.
  - one_all.
Qed.

End Requests.

(** ** The theorems *)

Section Theorems.
Context {W : Type} `{ErrorLaws W}.
Context (home : SFTPFilePath) (home_dir : list Z) (b0 : Buffer).
Hypothesis Hhome : make_factory ndebug fromUTF8 home_dir = Ret home.
Hypothesis Hdrive : has_drive_letter (base home) = true.
Implicit Type s : SFTP W.

(** The id behind the type byte, or what the uninitialised variable holds. *)
Definition id_of (body : list Z) : Z := if 4 <=? zlen body then get_u32 (take 4 body) else uninit.

Lemma request_id_of s body : queue_ok (iqueue s) -> contents (iqueue s) = body -> request_id s = id_of body.
Proof.
  intros [Hok _] Hc. unfold request_id, id_of, get_int, get_or_fatal, buffer_get_int_ret.
  pose proof (buffer_get_ret_spec (iqueue s) 4 Hok ltac:(lia)) as Hg. rewrite Hc in Hg.
  destruct (buffer_get_ret (iqueue s) 4) as [[d b]|]; cbn.
  - destruct Hg as (Hl & -> & _). by rewrite (proj2 (Z.leb_le _ _) Hl).
  - by rewrite (proj2 (Z.leb_gt _ _) Hg).
Qed.

Lemma get_char_front s type rest : queue_ok (iqueue s) -> contents (iqueue s) = type :: rest ->
  exists b, get_char (iqueue s) = (Ret type, b) /\ contents b = rest /\ queue_ok b.
Proof.
  intros [Hok Hb] Hc. unfold get_char, get_or_fatal, buffer_get_char_ret.
  pose proof (buffer_get_ret_spec (iqueue s) 1 Hok ltac:(lia)) as Hg. rewrite Hc in Hg.
  destruct (buffer_get_ret (iqueue s) 1) as [[d b]|]; cbn.
  - destruct Hg as (_ & -> & Hr & Hok' & _). exists b. split; [done|]. split; [done|]. split; [done|].
    rewrite Hr. rewrite Hc in Hb. apply Forall_cons in Hb. by destruct Hb.
  - unfold zlen in Hg. cbn in Hg. lia.
Qed.

(** The reply to INIT *)
Definition version_msg : list Z := SSH2_FXP_VERSION :: put_u32 SSH2_FILEXFER_VERSION.

Lemma init_replies s :
  wp process_init (fun _ s' => toChannel s' = toChannel s ++ [version_msg]) (fun _ s' => silent s s') s.
Proof.
  unfold process_init. apply wp_bind. eapply wp_mono; [apply quiet_queue|..]; cbn beta; [|done].
  intros v s1 H1. apply wp_bind. unfold wp at 1, modify. unfold wp, send_msg.
  replace (b ← buffer_put_char buffer_init SSH2_FXP_VERSION; buffer_put_int b SSH2_FILEXFER_VERSION) with
    (buffer_append buffer_init version_msg) by (vm_compute; reflexivity).
  destruct (buffer_append_cases buffer_init version_msg buffer_init_ok) as [(b & -> & Hok & Hc & _)|(m & -> & _)]; [|exact H1].
  cbn. rewrite buffer_ptr_contents, Hc, buffer_init_contents, H1 by done. done.
Qed.

(** What a packet of type [type] gets when it is processed to its end, and when an
    exception ends the session in it. *)
Definition replied (type : Z) (rest : list Z) s s' : Prop :=
  match fxp_of type with
  | None => silent s s'
  | Some FXP_INIT => toChannel s' = toChannel s ++ [version_msg]
  | Some _ => answered (id_of rest) s s'
  end.

Definition cut_off (type : Z) (rest : list Z) (e : exn) s s' : Prop :=
  silent s s' \/ (fxp_of type = Some FXP_SETSTAT /\ bad_free e /\ answered (id_of rest) s s').

#[export] Instance fxp_eq_dec : EqDecision fxp.
Proof. solve_decision. Defined.

Lemma handler_outcome type rest s : queue_ok (iqueue s) -> contents (iqueue s) = rest ->
  wp (match fxp_of type with Some r => handler r | None => mret tt end)
     (fun _ s' => replied type rest s s') (fun e s' => cut_off type rest e s s') s.
Proof.
  intros Hq Hc. unfold replied, cut_off. pose proof (request_id_of s rest Hq Hc) as Hid.
  destruct (fxp_of type) as [r|]; [|done]. destruct (decide (r = FXP_INIT)) as [->|Hr].
  - eapply wp_mono; [apply init_replies|done|]. cbn beta. intros e s' H'. by left.
  - eapply wp_mono; [by apply (handler_replies r s)|..]; cbn beta; rewrite Hid.
    + intros _ s' Ha. by destruct r.
    + intros e s' [Hs|(-> & Hb & Ha)]; [by left|by right].
Qed.

Lemma replied_silent type rest s0 s1 s2 s3 : silent s0 s1 -> replied type rest s1 s2 -> silent s2 s3 -> replied type rest s0 s3.
Proof. unfold replied, answered, silent. intros H1 H2 H3. destruct (fxp_of type) as [[]|]; rewrite H3, <- H1; done. Qed.


(** The requests whose handler catches every exception. *)
Definition catching (r : fxp) : bool :=
  match r with
  | FXP_OPEN | FXP_LSTAT | FXP_STAT | FXP_OPENDIR | FXP_REALPATH => true
  | _ => false
  end.

Lemma safe_catching r s : catching r = true -> Inv home b0 s ->
  wp (handler r) (fun _ _ => True) (fun e _ => ok_exn False e) s.
Proof.
  intros Hr Hs.
  assert (Hm : forall m : SE (SFTP W) unit, safe home b0 False m any -> wp m (fun _ _ => True) (fun e _ => ok_exn False e) s).
  { intros m Hm. eapply wp_mono; [by apply Hm|done|]. by intros e s' []. }
  destruct r; try done; apply Hm; cbn [handler].
  - by apply (safe_open home home_dir).
  - by apply (safe_do_stat home home_dir).
  - by apply (safe_opendir home home_dir).
  - by apply (safe_realpath home home_dir).
  - by apply (safe_do_stat home home_dir).
Qed.

(** [guarded] lets only what it does not catch pass. *)
Lemma guarded_throws c body s : wp (guarded c body reply_error) (fun _ _ => True) (fun e _ => c e = false) s.
Proof.
  assert (Hre : forall id st s1, wp (reply_error id st : SE (SFTP W) unit) (fun _ _ => True) (fun e _ => c e = false) s1).
  { intros id st s1. unfold reply_error. destruct (negb _); [|done]. unfold wp.
    by destruct (status_sent id st s1) as (s2 & -> & _). }
  unfold guarded. apply wp_bind, wp_try. apply wp_bind. unfold wp at 1.
  destruct (queue get_int s) as [[id|e] s1].
  - apply wp_ret, wp_bind, wp_try. unfold wp at 1. destruct (body id s1) as [[st|ex] s2]; [apply Hre|].
    destruct (c ex) eqn:E; [apply wp_ret, Hre|done].
  - destruct (c e) eqn:E; [apply wp_ret, Hre|done].
Qed.

(** Requests that are always answered.  In a release build an OPEN, LSTAT,
    STAT, OPENDIR or REALPATH request never ends the session: whatever its packet
    holds and whatever Windows answers, the handler returns and exactly one reply
    with the id of the packet has been sent. *)
Theorem sftp_always_answered s r :
  Inv home b0 s -> ndebug = true -> dbg = false -> catching r = true ->
  exists s', handler r s = (Ret tt, s') /\ answered (request_id s) s s'.
Proof.
  intros Hs Hnd Hdbg Hr.
  assert (Hthrow : wp (handler r) (fun _ _ => True) (fun e _ => catchable e = false) s).
  { destruct r; try done; cbn [handler]; unfold process_lstat, process_stat;
      try (eapply wp_mono; [apply guarded_throws|done|]; cbn beta; unfold open_catches; rewrite Hdbg; by intros [] ?);
      apply guarded_throws. }
  pose proof (wp_and _ _ _ _ _ _ Hthrow (wp_and _ _ _ _ _ _ (safe_catching r s Hr Hs)
    (handler_replies r s ltac:(by destruct r)))) as Hw. unfold wp in Hw.
  destruct (handler r s) as [[[]|e] s'].
  - exists s'. split; [done|]. by destruct Hw as (_ & _ & Ha).
  - exfalso. destruct Hw as (He & Hok & _). destruct e; cbn in *; congruence.
Qed.

End Theorems.

(** ** Witnesses *)

#[global] Instance demo_laws : ErrorLaws Z.
Proof.
  split. intros A e w a w' He Hf. destruct e; cbn in *; try done.
  - destruct (bool_decide _); injection He as <- <-; [by discriminate Hf|done].
  - by injection He as <- <-.
  - by injection He as _ <-.
  - by injection He as _ <-.
Qed.

(** OPEN "x". *)
Definition demo_open : list Z := [3] ++ put_u32 10 ++ fx_string (str "x") ++ put_u32 1 ++ put_u32 0.
Definition demo_state : SFTP Z := snd (receive demo_open (initial demo_home 3 0)).

Lemma demo_loaded : Inv demo_home (iqueue demo_state) demo_state /\ loaded demo_open demo_state.
Proof.
  assert (Hok : bytes_ok demo_open).
  { assert (Hf : Forall (fun m => requests_ok (fst m)) [(demo_open, 0)]) by (apply requests_okb; vm_compute; done).
    apply Forall_cons in Hf as [[Hf _] _]. exact Hf. }
  pose proof (packet_received demo_home (initial demo_home 3 0) demo_open (initial_idle demo_home 3 0) Hok) as Hr.
  unfold wp in Hr. unfold demo_state. destruct (receive demo_open (initial demo_home 3 0)) as [[[]|e] s] eqn:E; cbn [snd].
  - by destruct Hr as (H1 & H2 & _).
  - exfalso. assert (Hne : match fst (receive demo_open (initial demo_home 3 0)) with Ret _ => true | Throw _ => false end = true)
      by (vm_compute; done). by rewrite E in Hne.
Qed.


Lemma sftp_always_answered_witness :
  exists s', handler FXP_STAT demo_state = (Ret tt, s') /\ answered (request_id demo_state) demo_state s'.
Proof.
  destruct demo_loaded as [H1 _].
  assert (Hhome : make_factory ndebug fromUTF8 (str "C:\users\joe") = Ret demo_home) by (vm_compute; reflexivity).
  apply (sftp_always_answered demo_home (str "C:\users\joe") (iqueue demo_state) Hhome eq_refl
           demo_state FXP_STAT H1); reflexivity.
Defined.
