(* ===== verification/SftpDirectory.v ===== *)
(** * SftpDirectory: handles on the wire and directory listings

    The decimal string a client gets for a handle leads back to that handle, and
    successive READDIR requests walk a search to its end in batches of 100. *)

From S2P Require Import Prelude SshBuffer CxxMonad SftpPath SftpAttrib SftpServer SftpServerProps SftpReplies.
Import Paths Attribs.

(** ** Decimal strings *)

Lemma take_digits_digits fuel : forall n acc, 0 <= n < 10 ^ Z.of_nat (S fuel) ->
  take_digits (digits (S fuel) n acc) 0 = take_digits acc n.
Proof.
  assert (Hd : forall k, 0 <= k < 10 -> is_digit (48 + k) = true).
  { intros k Hk. unfold is_digit. rewrite !(proj2 (Z.leb_le _ _)) by lia. done. }
  induction fuel as [|fuel IH]; intros n acc Hn.
  - change (10 ^ Z.of_nat 1) with 10 in Hn. cbn [digits]. rewrite (proj2 (Z.ltb_lt n 10)) by lia. cbn [take_digits].
    rewrite Hd by lia. f_equal. lia.
  - remember (S fuel) as k eqn:Ek. cbn [digits]. destruct (n <? 10) eqn:E; zbool.
    + cbn [take_digits]. rewrite Hd by lia. f_equal. lia.
    + subst k. rewrite IH.
      * cbn [take_digits]. pose proof (Z.mod_pos_bound n 10). rewrite Hd by lia. f_equal.
        pose proof (Z.div_mod n 10). lia.
      * replace (Z.of_nat (S (S fuel))) with (Z.of_nat (S fuel) + 1) in Hn by lia. rewrite Z.pow_add_r in Hn by lia.
        split; [apply Z.div_pos; lia|]. apply Z.div_lt_upper_bound; lia.
Qed.

Lemma digits_are_digits fuel : forall n acc, 0 <= n -> Forall (fun c => is_digit c = true) acc ->
  Forall (fun c => is_digit c = true) (digits fuel n acc).
Proof.
  assert (Hd : forall k, 0 <= k < 10 -> is_digit (48 + k) = true).
  { intros k Hk. unfold is_digit. rewrite !(proj2 (Z.leb_le _ _)) by lia. done. }
  induction fuel as [|fuel IH]; intros n acc Hn Ha; [done|]. cbn [digits]. destruct (n <? 10) eqn:E; zbool.
  - apply Forall_cons. split; [apply Hd; lia|done].
  - apply IH; [apply Z.div_pos; lia|]. apply Forall_cons. split; [apply Hd, Z.mod_pos_bound; lia|done].
Qed.

Lemma digits_nonempty fuel : forall n acc, digits (S fuel) n acc <> [].
Proof.
  induction fuel as [|fuel IH]; intros n acc; [cbn [digits]; by destruct (n <? 10)|].
  remember (S fuel) as k. cbn [digits]. destruct (n <? 10); [done|]. subst k. apply IH.
Qed.

Lemma read_int_dec n : 0 <= n <= 2147483647 -> read_int (dec n) = Some n.
Proof.
  intros Hn. unfold dec. pose proof (digits_are_digits 20 n [] ltac:(lia) ltac:(constructor)) as Hd.
  pose proof (take_digits_digits 19 n [] ltac:(change (10 ^ Z.of_nat 20) with 100000000000000000000; lia)) as Ht.
  pose proof (digits_nonempty 19 n []) as Hne. destruct (digits 20 n []) as [|c l]; [done|].
  apply Forall_cons in Hd as [Hc _]. unfold read_int.
  assert (Hsp : skip_space (c :: l) = c :: l).
  { cbn [skip_space]. unfold is_digit in Hc. zbool. unfold is_space.
    rewrite (proj2 (Z.eqb_neq c 32)), (proj2 (Z.leb_gt c 13)), andb_false_r by lia. done. }
  assert (Hnum : number false (c :: l) = Some n).
  { unfold number. rewrite Hc, Ht. cbn [take_digits]. rewrite !(proj2 (Z.leb_le _ _)) by lia. done. }
  rewrite Hsp. unfold is_digit in Hc. zbool. destruct c as [|p|p]; try done.
  repeat (done || exact Hnum || destruct p as [p|p|]).
Qed.

Lemma c_str_digits l : Forall (fun c => is_digit c = true) l -> c_str (l ++ [0]) = l.
Proof.
  induction 1 as [|c l Hc Hl IH]; [done|]. cbn [app c_str]. unfold is_digit in Hc. zbool.
  rewrite (proj2 (Z.eqb_neq c 0)) by lia. by rewrite IH.
Qed.

Lemma handle_string i : 0 <= i <= 2147483647 -> read_int (c_str (handle_to_string i)) = Some i.
Proof.
  intros Hi. unfold handle_to_string. rewrite (proj2 (Z.ltb_ge i 0)) by lia.
  rewrite c_str_digits by (apply digits_are_digits; [lia|constructor]). by apply read_int_dec.
Qed.

Lemma handle_string_length i : 0 <= i -> 0 < zlen (handle_to_string i) <= 21.
Proof.
  intros Hi. unfold handle_to_string. rewrite (proj2 (Z.ltb_ge i 0)) by lia. rewrite zlen_app. change (zlen [0]) with 1.
  pose proof (digits_length 20 i []) as Hl. fold (dec i) in Hl. cbn [length] in Hl. unfold zlen. lia.
Qed.

Section Directory.
Context {W : Type} `{Platform W}.
Implicit Type s : SFTP W.

(** Handles round trip.  The string a HANDLE reply carries for a handle, sent
    back by the client in any later request while the handle is open, is taken for
    exactly that handle, and the rest of the request stays in the queue. *)
Theorem handle_roundtrip n s i h rest :
  int_range i -> open_at s i = Some h -> capped n (iqueue s) ->
  contents (iqueue s) = put_u32 (zlen (handle_to_string i)) ++ handle_to_string i ++ rest ->
  exists b, get_handle s = (Ret i, set_iqueue b s) /\ contents b = rest.
Proof.
  intros Hi Ho Hc Hq. unfold open_at in Ho. destruct (entry s i) as [x|] eqn:Ee; [|done].
  destruct (bool_decide _) eqn:Eu in Ho; [done|]. injection Ho as ->. apply bool_decide_eq_false in Eu.
  pose proof (entry_some _ _ _ Ee) as [H0 Hlk]. pose proof (u32_nonneg_int i Hi H0) as Hu.
  pose proof (handle_string_length i H0) as Hl. unfold int_range in Hi.
  pose proof (reads_string n (handle_to_string i) ltac:(lia) (iqueue s) rest Hc) as Hr.
  rewrite <- app_assoc in Hr. specialize (Hr Hq). unfold wp in Hr.
  destruct (get_string (iqueue s)) as [[l|e] b] eqn:El; [|done]. destruct Hr as (-> & _ & Hb).
  exists b. split; [|done]. unfold get_handle, mbind, SE_bind, queue, zoom. rewrite El.
  rewrite (proj2 (Z.ltb_lt _ 256)) by lia. unfold handle_from_string. rewrite (proj2 (Z.eqb_neq _ 0)) by lia.
  rewrite handle_string by lia. unfold mbind, SE_bind, handle_at. cbn [handles set_iqueue]. rewrite Hu, Hlk.
  unfold is_open. by rewrite bool_decide_eq_true_2.
Qed.

(** ** Directory searches *)

(** [FindNextFileW] walks a list that is fixed for the search. *)
Class SearchLaws := {
  entries : W -> Z -> list WIN32_FIND_DATA;
  find_next : forall w sh,
    match entries w sh with
    | [] => fst (sys (FindNextFileW sh) w) = None /\ entries (snd (sys (FindNextFileW sh) w)) sh = []
    | e :: l => fst (sys (FindNextFileW sh) w) = Some e /\ entries (snd (sys (FindNextFileW sh) w)) sh = l
    end
}.

Context `{SearchLaws}.

(** A state that differs from [s] in the world and the record of calls. *)
Definition moved s s' : Prop :=
  iqueue s' = iqueue s /\ userHomeDir s' = userHomeDir s /\ handles s' = handles s /\
  unusedHandles s' = unusedHandles s /\ version s' = version s /\ toChannel s' = toChannel s.

(** The calls for at most [n] entries of [k]: the one that finds nothing counts. *)
Definition next_calls (n k : nat) (sh : Z) : list call := replicate (Nat.min n (S k)) (Call (FindNextFileW sh)).

Lemma read_entries_spec n : forall sh s, exists s',
  read_entries n sh s =
    (Ret (stat_entry <$> take n (entries (world s) sh), (length (entries (world s) sh) <? n)%nat), s') /\
  entries (world s') sh = drop n (entries (world s) sh) /\ moved s s' /\
  calls s' = calls s ++ next_calls n (length (entries (world s) sh)) sh.
Proof.
  unfold next_calls. induction n as [|n IH]; intros sh s.
  - exists s. split; [done|]. rewrite drop_0. split; [done|]. split; [done|]. cbn. by rewrite app_nil_r.
  - cbn [read_entries]. unfold mbind, SE_bind, win. pose proof (find_next (world s) sh) as Hf.
    destruct (sys (FindNextFileW sh) (world s)) as [r w]. cbn [fst snd] in Hf.
    destruct (entries (world s) sh) as [|e l].
    + destruct Hf as [-> Hf]. eexists. split; [done|]. split; [done|]. split; [done|]. by destruct n.
    + destruct Hf as [-> Hf].
      match goal with |- context [read_entries n sh ?s1] => destruct (IH sh s1) as (s2 & E & He & Hm & Hca) end.
      cbn [world calls] in E, He, Hca. rewrite Hf in E, He, Hca. rewrite E. exists s2. split; [done|]. split; [done|]. split; [done|].
      rewrite Hca. cbn [length Nat.min replicate]. by rewrite <- app_assoc.
Qed.

(** The entry of a directory handle. *)
Definition with_search (h : Handle) (sh : Z) (d : bool) : Handle :=
  mkHandle (use h) (dirp h) (fileHandle h) sh d (hpath h) (bytes_read h) (bytes_write h).

Lemma set_search_spec i sh d s h : handles s !! Z.to_nat (u32 i) = Some h ->
  exists s', set_search i sh d s = (Ret tt, s') /\ handles s' !! Z.to_nat (u32 i) = Some (with_search h sh d) /\
    world s' = world s /\ toChannel s' = toChannel s /\ calls s' = calls s.
Proof.
  intros Hh. eexists. split; [done|]. cbn [handles set_handles]. rewrite list_lookup_alter_eq, Hh. done.
Qed.

(** What a READDIR request does with a directory handle: the calls it makes, the entries
    it answers, the fields it leaves in the handle, and the entries that are then left. *)
Record batch := mkBatch { b_calls : list call; b_names : list WIN32_FIND_DATA; b_search : Z * bool; b_left : list WIN32_FIND_DATA }.

(** On a search handle, in the world [w]. *)
Definition next_batch (first : list call) (sh : Z) (w : W) : batch :=
  let es := entries w sh in
  let calls := first ++ next_calls 100 (length es) sh in
  if (length es <? 100)%nat
  then mkBatch (calls ++ [Call (FindClose sh)]) es (if bool_decide (es = []) then (INVALID_HANDLE_VALUE, false) else (0, true)) []
  else mkBatch calls (take 100 es) (sh, false) (drop 100 es).

Definition readdir_spec (h : Handle) (mask : list Z) (w : W) : batch :=
  let reset := (INVALID_HANDLE_VALUE, false) in
  if searchDone h then
    mkBatch (if searchHandle h =? INVALID_HANDLE_VALUE then [] else [Call (FindClose (searchHandle h))]) [] reset []
  else if searchHandle h =? INVALID_HANDLE_VALUE then
    let '(sh, w) := sys (FindFirstFile mask) w in
    let first := [Call (FindFirstFile mask)] in
    if sh =? INVALID_HANDLE_VALUE then mkBatch first [] reset [] else next_batch first sh w
  else next_batch [] (searchHandle h) w.

(** The state in which a request replies. *)
Definition replies_in (id i : Z) (p : SFTPFilePath) (h : Handle) s s' (b : batch) : Prop :=
  list_directory id i p s =
    (if bool_decide (b_names b = []) then send_status id SSH2_FX_EOF s' else send_names id (stat_entry <$> b_names b) s') /\
  toChannel s' = toChannel s /\ calls s' = calls s ++ b_calls b /\
  handles s' !! Z.to_nat (u32 i) = Some (with_search h (b_search b).1 (b_search b).2) /\
  ((b_search b).2 = false -> (b_search b).1 <> INVALID_HANDLE_VALUE -> entries (world s') (b_search b).1 = b_left b).

Lemma names_positive (l : list WIN32_FIND_DATA) : (0 <? zlen (stat_entry <$> l)) = negb (bool_decide (l = [])).
Proof. unfold zlen. rewrite length_fmap. destruct l; [done|]. rewrite bool_decide_false by done. apply Z.ltb_lt. cbn. lia. Qed.

(** The rest of [list_directory], from the loop on. *)
Definition search_rest (id i sh : Z) (done_ : bool) : SE (SFTP W) unit :=
  '(stats, done_) ← (if negb done_ && negb (sh =? INVALID_HANDLE_VALUE) then
                       '(l, d) ← read_entries readdir_batch sh;
                       _ ← set_search i sh d;
                       mret (l, d)
                     else mret ([], done_));
  _ ← (if done_ && negb (sh =? INVALID_HANDLE_VALUE) then
         _ ← win (FindClose sh);
         set_search i 0 done_
       else mret tt);
  if 0 <? zlen stats then send_names id stats
  else
    _ ← set_search i INVALID_HANDLE_VALUE false;
    send_status id SSH2_FX_EOF.

Lemma search_rest_spec s id i h sh first : handles s !! Z.to_nat (u32 i) = Some h -> sh <> INVALID_HANDLE_VALUE ->
  let b := next_batch first sh (world s) in
  exists s', search_rest id i sh false s =
    (if bool_decide (b_names b = []) then send_status id SSH2_FX_EOF s' else send_names id (stat_entry <$> b_names b) s') /\
  toChannel s' = toChannel s /\ calls s' = calls s ++ drop (length first) (b_calls b) /\
  handles s' !! Z.to_nat (u32 i) = Some (with_search h (b_search b).1 (b_search b).2) /\
  ((b_search b).2 = false -> (b_search b).1 <> INVALID_HANDLE_VALUE -> entries (world s') (b_search b).1 = b_left b).
Proof.
  intros Hh Hsh b. apply Z.eqb_neq in Hsh. unfold search_rest. rewrite Hsh. cbn [negb andb]. unfold mbind, SE_bind, mret, SE_ret.
  destruct (read_entries_spec readdir_batch sh s) as (s1 & E1 & He1 & Hm1 & Hc1). rewrite E1.
  destruct Hm1 as (_ & _ & Hh1 & _ & _ & Ht1). rewrite <- Hh1 in Hh. unfold b, next_batch. clear b.
  set (es := entries (world s) sh) in *. change readdir_batch with 100%nat in *.
  destruct (set_search_spec i sh (length es <? 100)%nat s1 h Hh) as (s2 & E2 & H2 & Hw2 & Ht2 & Hc2). rewrite E2. cbn beta iota.
  rewrite andb_true_r, names_positive. destruct (length es <? 100)%nat eqn:El; cbn beta iota; cbn [b_calls b_names b_search b_left].
  - apply Nat.ltb_lt in El. destruct (sys (FindClose sh) (world s2)) as [r w] eqn:Ew.
    set (s3 := mkSFTP (iqueue s2) (userHomeDir s2) (handles s2) (unusedHandles s2) (version s2) (toChannel s2)
                 (calls s2 ++ [Call (FindClose sh)]) w).
    assert (Ewin : win (FindClose sh) s2 = (Ret r, s3)) by (unfold win; by rewrite Ew). rewrite Ewin.
    destruct (set_search_spec i 0 true s3 (with_search h sh true) H2) as (s4 & E4 & H4 & Hw4 & Ht4 & Hc4). rewrite E4.
    cbn [toChannel calls s3] in Ht4, Hc4. rewrite take_ge by lia. rewrite <- app_assoc, drop_app_length.
    rewrite Hc2, Hc1 in Hc4. destruct (bool_decide (es = [])) eqn:Ee; cbn [negb].
    + destruct (set_search_spec i INVALID_HANDLE_VALUE false s4 _ H4) as (s5 & E5 & H5 & _ & Ht5 & Hc5). exists s5. rewrite E5.
      split; [done|]. split; [congruence|]. split; [by rewrite Hc5, Hc4, <- !app_assoc|]. split; [exact H5|done].
    + exists s4. split; [done|]. split; [congruence|]. split; [by rewrite Hc4, <- !app_assoc|]. split; [exact H4|done].
  - apply Nat.ltb_ge in El. rewrite drop_app_length.
    assert (take 100 es <> []) as Hne by (destruct es; [cbn in El; lia|done]). rewrite (bool_decide_false (take 100 es = [])) by done. cbn [negb].
    exists s2. split; [done|]. split; [congruence|]. split; [by rewrite Hc2, Hc1|]. split; [exact H2|]. intros _ _. cbn [fst]. by rewrite Hw2.
Qed.

(** C29: READDIR walks the directory.  A request on a directory handle whose search is not
    begun starts one with FindFirstFile; on a search, begun now or before, it answers the
    next entries, at most 100 of them, in order and each once, with one FindNextFile for
    each and one more when they run out.  When 100 were sent, the search stays open and the
    rest of the entries is left in it; when fewer were left, the request closes the search
    with one FindClose and marks the handle as done; when none was left, it closes it, replies
    EOF, and the next request starts over.  On a handle that is done it replies EOF and the
    next request starts over; it closes the handle 0 that was left there. *)
Theorem readdir_batches s id i h p mask :
  handles s !! Z.to_nat (u32 i) = Some h -> use h <> HANDLE_UNUSED -> get_mask_for_dir_search ndebug p = Ret mask ->
  exists s', replies_in id i p h s s' (readdir_spec h mask (world s)).
Proof.
  intros Hh Hu Hmask. unfold replies_in, readdir_spec.
  assert (Ho : handle_at i is_open s = (Ret h, s)).
  { unfold handle_at. rewrite Hh. unfold is_open. by rewrite bool_decide_eq_true_2. }
  assert (Hl : list_directory id i p s =
    (sh ← (if negb (searchDone h) && (searchHandle h =? INVALID_HANDLE_VALUE) then
          mask ← lift (get_mask_for_dir_search ndebug p);
          sh ← win (FindFirstFile mask);
          _ ← set_search i sh (searchDone h);
          mret sh
        else mret (searchHandle h)); search_rest id i sh (searchDone h)) s)
    by (unfold list_directory; unfold mbind at 1, SE_bind at 1; by rewrite Ho).
  rewrite Hl. clear Hl Ho. destruct (searchDone h) eqn:Ed; cbn [negb andb].
  { unfold search_rest, mbind, SE_bind, mret, SE_ret. cbn [negb andb]. destruct (searchHandle h =? INVALID_HANDLE_VALUE) eqn:Es; cbn [negb].
    - destruct (set_search_spec i INVALID_HANDLE_VALUE false s h Hh) as (s1 & E1 & H1 & Hw1 & Ht1 & Hc1).
      exists s1. cbn [b_names b_calls b_search b_left]. change (0 <? zlen []) with false. cbn beta iota. rewrite E1. split; [done|]. split; [done|].
      split; [by rewrite app_nil_r|]. by split.
    - destruct (sys (FindClose (searchHandle h)) (world s)) as [r w] eqn:Ew.
      set (s1 := mkSFTP (iqueue s) (userHomeDir s) (handles s) (unusedHandles s) (version s) (toChannel s)
                   (calls s ++ [Call (FindClose (searchHandle h))]) w).
      assert (Ewin : win (FindClose (searchHandle h)) s = (Ret r, s1)) by (unfold win; by rewrite Ew). rewrite Ewin.
      destruct (set_search_spec i 0 true s1 h Hh) as (s2 & E2 & H2 & Hw2 & Ht2 & Hc2). rewrite E2. change (0 <? zlen []) with false. cbn beta iota.
      destruct (set_search_spec i INVALID_HANDLE_VALUE false s2 _ H2) as (s3 & E3 & H3 & Hw3 & Ht3 & Hc3). rewrite E3.
      exists s3. cbn [b_names b_calls b_search b_left]. split; [done|]. split; [by rewrite Ht3, Ht2|]. split; [by rewrite Hc3, Hc2|]. by split. }
  destruct (searchHandle h =? INVALID_HANDLE_VALUE) eqn:Es.
  2: { apply Z.eqb_neq in Es. destruct (search_rest_spec s id i h (searchHandle h) [] Hh Es) as (s' & E & Hrest). by exists s'. }
  unfold lift. rewrite Hmask. unfold mbind at 1 2 3, SE_bind at 1 2 3. unfold win at 1, mret, SE_ret.
  destruct (sys (FindFirstFile mask) (world s)) as [sh w] eqn:Ew.
  set (s1 := mkSFTP (iqueue s) (userHomeDir s) (handles s) (unusedHandles s) (version s) (toChannel s) (calls s ++ [Call (FindFirstFile mask)]) w).
  destruct (set_search_spec i sh false s1 h Hh) as (s2 & E2 & H2 & Hw2 & Ht2 & Hc2).
  unfold mbind at 1, SE_bind at 1. rewrite E2. destruct (sh =? INVALID_HANDLE_VALUE) eqn:Esh.
  - unfold search_rest, mbind, SE_bind, mret, SE_ret. rewrite Esh. cbn [negb andb]. change (0 <? zlen []) with false. cbn beta iota.
    destruct (set_search_spec i INVALID_HANDLE_VALUE false s2 _ H2) as (s3 & E3 & H3 & Hw3 & Ht3 & Hc3). rewrite E3.
    exists s3. cbn [b_names b_calls b_search b_left]. split; [done|]. split; [by rewrite Ht3, Ht2|]. split; [by rewrite Hc3, Hc2|]. by split.
  - apply Z.eqb_neq in Esh. destruct (search_rest_spec s2 id i _ sh [Call (FindFirstFile mask)] H2 Esh) as (s' & E & Ht & Hc & Hh' & He).
    rewrite Hw2 in E, Hc, Hh', He. cbn [world s1] in E, Hc, Hh', He. exists s'. split; [exact E|]. split; [by rewrite Ht, Ht2|]. split.
    + rewrite Hc, Hc2. cbn [calls s1]. unfold next_batch. destruct (length (entries w sh) <? 100)%nat; cbn [b_calls]; by rewrite <- !app_assoc.
    + split; [exact Hh'|exact He].
Qed.

End Directory.

(** ** Witnesses *)

(** A machine whose world is what is left of a directory search. *)
Definition dir_sys (A : Type) (e : winE A) (w : list WIN32_FIND_DATA) : A * list WIN32_FIND_DATA :=
  match e in winE T return T * list WIN32_FIND_DATA with
  | CreateFileW _ _ _ _ _ => (7, w)
  | ReadFile _ _ => (None, w)
  | WriteFile _ _ => (None, w)
  | GetFileAttributesExW _ => (None, w)
  | GetFileInformationByHandle _ => (None, w)
  | GetFileAttributes _ => (0xFFFFFFFF, w)
  | FindFirstFile _ => (5, w)
  | FindNextFileW _ => match w with [] => (None, []) | e :: l => (Some e, l) end
  | GetSystemTime => ([], w)
  | SystemTimeToFileTime _ => (zero_time, w)
  | GetLastError => (2, w)
  | SetLastError _ => (tt, w)
  | CloseHandle _ | SetFilePointerEx _ _ | SetEndOfFile _ | SetFileInformationByHandle _ _
  | SetFileAttributesW _ _ | FindClose _ | DeleteFileW _ | CreateDirectoryW _ | RemoveDirectoryW _
  | CreateHardLink _ _ | MoveFileExW _ _ _ => (true, w)
  end.

#[global] Instance demo_dir : Platform (list WIN32_FIND_DATA) := {|
  sys := dir_sys; fromUTF8 := utf8_id; toUTF8 := utf8_id; ftime := fun _ => [];
  ndebug := true; dbg := false; uninit := 0; stale_ptr := true; bad_int := fun _ => 0
|}.

#[global] Instance demo_search : SearchLaws (W := list WIN32_FIND_DATA).
Proof. refine {| entries := fun w _ => w |}. intros w sh. cbn. by destruct w. Defined.

Definition demo_entry (n : string) : WIN32_FIND_DATA := mkFind (mkInfo 0x20 zero_time zero_time zero_time 0 5) (str n).
Definition demo_searching : Handle := mkHandle HANDLE_DIR 7 0 5 false demo_home 0 0.
Definition demo_dir_state : SFTP (list WIN32_FIND_DATA) :=
  mkSFTP buffer_init demo_home [demo_searching] [] 3 [] [] [demo_entry ".."; demo_entry "a"].

Definition demo_fresh : Handle := mkHandle HANDLE_DIR 7 0 INVALID_HANDLE_VALUE false demo_home 0 0.
Definition demo_fresh_state : SFTP (list WIN32_FIND_DATA) :=
  mkSFTP buffer_init demo_home [demo_fresh] [] 3 [] [] [demo_entry ".."; demo_entry "a"].

(** A first request: the whole directory, and the search is closed. *)
Lemma readdir_batches_witness :
  exists mask s', list_directory 9 0 demo_home demo_fresh_state =
    send_names 9 [stat_entry (demo_entry ".."); stat_entry (demo_entry "a")] s' /\
    calls s' = [Call (FindFirstFile mask); Call (FindNextFileW 5); Call (FindNextFileW 5); Call (FindNextFileW 5); Call (FindClose 5)].
Proof.
  destruct (get_mask_for_dir_search ndebug demo_home) as [mask|e] eqn:Em; [|vm_compute in Em; discriminate].
  destruct (readdir_batches demo_fresh_state 9 0 demo_fresh demo_home mask) as (s' & Hl & _ & Hc & _).
  - reflexivity.
  - discriminate.
  - exact Em.
  - exists mask, s'.
    assert (E : readdir_spec demo_fresh mask (world demo_fresh_state) =
      mkBatch ([Call (FindFirstFile mask)] ++ replicate 3 (Call (FindNextFileW 5)) ++ [Call (FindClose 5)])
        [demo_entry ".."; demo_entry "a"] (0, true) []) by reflexivity.
    rewrite E in Hl, Hc. cbn [b_names b_calls] in Hl, Hc. rewrite bool_decide_false in Hl by discriminate.
    split; [exact Hl|exact Hc].
Defined.

Definition demo_queue : Buffer :=
  match buffer_put_string buffer_init (handle_to_string 0) with Ok b => b | _ => buffer_init end.

Lemma demo_queue_spec : capped 100 demo_queue /\
  contents demo_queue = put_u32 (zlen (handle_to_string 0)) ++ handle_to_string 0 ++ [].
Proof.
  destruct (buffer_put_string_fits 0 buffer_init (handle_to_string 0) buffer_init_capped) as (b & E & Hc & Hb).
  - vm_compute. congruence.
  - vm_compute. congruence.
  - unfold demo_queue. rewrite E. split; [|done]. eapply capped_mono; [|exact Hc]. vm_compute. congruence.
Qed.

Lemma handle_roundtrip_witness :
  exists b, get_handle (mkSFTP demo_queue demo_home [demo_searching] [] 3 [] [] ([] : list WIN32_FIND_DATA))
    = (Ret 0, set_iqueue b (mkSFTP demo_queue demo_home [demo_searching] [] 3 [] [] [])) /\ contents b = [].
Proof.
  destruct demo_queue_spec as [Hc Hq].
  apply (handle_roundtrip 100 (mkSFTP demo_queue demo_home [demo_searching] [] 3 [] [] []) 0 demo_searching []).
  - unfold int_range. lia.
  - reflexivity.
  - exact Hc.
  - exact Hq.
Defined.
