(* ===== verification/SshUmac.v ===== *)
(** * SshUmac: the message authentication code of shiesh/umac.cpp

    UMAC with tags of 64 bits: key derivation and the pad function on AES, the NH hash
    with its buffer of 64 bytes, the polynomial and the inner-product hash, and the
    incremental interface that mac.cpp calls.  AES belongs to OpenSSL: the class [Aes].

    The program runs on a little-endian processor: an array that the code reads as words
    is a list of words here, as such a processor loads them from the bytes, and
    [endian_convert] makes words from bytes.  Theorems: [SshUmacProps]. *)

From S2P Require Import Prelude SshBuffer.

Class Aes := {
  aes_key : Type;
  (** [AES_set_encrypt_key] *)
  aes_key_setup : list Z -> aes_key;
  (** [AES_encrypt] of a block *)
  aes_encryption : aes_key -> list Z -> list Z
}.

(** What is relied on of AES. *)
Definition block (b : list Z) : Prop := length b = 16%nat /\ bytes_ok b.

Class AesLaws {AE : Aes} := {
  aes_length : forall k b, length (aes_encryption k b) = 16%nat;
  aes_block : forall key b, block key -> block b -> block (aes_encryption (aes_key_setup key) b)
}.

Definition UMAC_OUTPUT_LEN : Z := 8.
Definition UMAC_KEY_LEN : nat := 16.
Definition AES_BLOCK_LEN : nat := 16.
Definition STREAMS : nat := 2.
Definition L1_KEY_LEN : Z := 1024.
Definition L1_KEY_SHIFT : Z := 16.
Definition L1_PAD_BOUNDARY : Z := 32.
Definition HASH_BUF_BYTES : Z := 64.
(** [sizeof (hc->nh_key)] *)
Definition NH_KEY_BYTES : nat := 1040.

(** ** Words *)

Definition MUL64 (a b : Z) : Z := u64 (u32 a * u32 b).

(** The word at [p], as the processor loads it. *)
Definition load32 (p : list Z) : Z :=
  znth 0 p 0 + znth 0 p 1 * 2 ^ 8 + znth 0 p 2 * 2 ^ 16 + znth 0 p 3 * 2 ^ 24.
Definition store32 (v : Z) : list Z := [v mod 256; v / 2 ^ 8 mod 256; v / 2 ^ 16 mod 256; v / 2 ^ 24 mod 256].

Definition swap32 (temp : Z) : Z :=
  Z.lor (Z.lor (Z.lor (Z.shiftr temp 24) (Z.shiftr (Z.land temp 16711680) 8)) (Z.shiftl (Z.land temp 65280) 8))
    (u32 (Z.shiftl temp 24)).

Definition LOAD_UINT32_REVERSED (p : list Z) : Z := swap32 (load32 p).
Definition LOAD_UINT32_LITTLE (p : list Z) : Z := load32 p.
Definition STORE_UINT32_BIG (x : Z) : list Z := store32 (swap32 x).

(** [endian_convert] of [iters] words of 4 and of 8 bytes *)
Fixpoint endian_convert4 (buf : list Z) (iters : nat) : list Z :=
  match iters with
  | O => []
  | S n => LOAD_UINT32_REVERSED buf :: endian_convert4 (drop 4 buf) n
  end.

Fixpoint endian_convert8 (buf : list Z) (iters : nat) : list Z :=
  match iters with
  | O => []
  | S n =>
      let t := LOAD_UINT32_REVERSED (drop 4 buf) in
      t + LOAD_UINT32_REVERSED buf * 2 ^ 32 :: endian_convert8 (drop 8 buf) n
  end.

Section Umac.
Context {AE : Aes}.

(** ** Key derivation and pad *)

Definition kdf_in (ndx i : Z) : list Z := replicate 7 0 ++ [ndx] ++ replicate 7 0 ++ [u8 i].

(** The whole blocks, and the counter behind them. *)
Fixpoint kdf_loop (n : nat) (key : aes_key) (ndx i : Z) : list Z * Z :=
  match n with
  | O => ([], i)
  | S n =>
      let out_buf := aes_encryption key (kdf_in ndx i) in
      let '(rest, j) := kdf_loop n key ndx (i + 1) in
      (take AES_BLOCK_LEN out_buf ++ rest, j)
  end.

Definition kdf (key : aes_key) (ndx : Z) (nbytes : nat) : list Z :=
  let '(out, i) := kdf_loop (nbytes / AES_BLOCK_LEN) key ndx 1 in
  let nbytes := (nbytes mod AES_BLOCK_LEN)%nat in
  if (nbytes =? 0)%nat then out else out ++ take nbytes (aes_encryption key (kdf_in ndx i)).

Record pdf_ctx := mkPdf { cache : list Z; nonce : list Z; prf_key : aes_key }.

Definition pdf_init (prf_key : aes_key) : pdf_ctx :=
  let k := aes_key_setup (kdf prf_key 0 UMAC_KEY_LEN) in
  let nonce := replicate AES_BLOCK_LEN 0 in
  mkPdf (aes_encryption k nonce) nonce k.

Definition LOW_BIT_MASK : Z := 1.

Definition xor_bytes (a b : list Z) : list Z := zip_with Z.lxor a b.

(** [n] is the nonce of 8 bytes, [buf] the hash of 8 bytes. *)
Definition pdf_gen_xor (pc : pdf_ctx) (n buf : list Z) : list Z * pdf_ctx :=
  let ndx := Z.land (znth 0 n 7) LOW_BIT_MASK in
  let tmp_nonce_lo := slice 4 3 n ++ [Z.land (znth 0 n 7) (255 - LOW_BIT_MASK)] in
  let pc :=
    if bool_decide (tmp_nonce_lo <> slice 4 4 (nonce pc)) || bool_decide (slice 0 4 n <> slice 0 4 (nonce pc)) then
      let nonce := slice 0 4 n ++ tmp_nonce_lo ++ drop 8 (nonce pc) in
      mkPdf (aes_encryption (prf_key pc) nonce) nonce (prf_key pc)
    else pc in
  (xor_bytes buf (slice (8 * ndx) 8 (cache pc)), pc).

(** ** NH *)

Record nh_ctx := mkNh {
  nh_key : list Z;           (** words *)
  data : list Z;
  next_data_empty : Z;
  bytes_hashed : Z;
  state : Z * Z
}.

Abbreviation word k i := (nth i k 0).

(** The loop of [nh_aux]; four words of the key are kept from the turn before. *)
Fixpoint nh_loop (c : nat) (k0 k1 k2 k3 : Z) (k d : list Z) (h : Z * Z) : Z * Z :=
  match c with
  | O => h
  | S c =>
      let d0 := LOAD_UINT32_LITTLE d in
      let d1 := LOAD_UINT32_LITTLE (drop 4 d) in
      let d2 := LOAD_UINT32_LITTLE (drop 8 d) in
      let d3 := LOAD_UINT32_LITTLE (drop 12 d) in
      let d4 := LOAD_UINT32_LITTLE (drop 16 d) in
      let d5 := LOAD_UINT32_LITTLE (drop 20 d) in
      let d6 := LOAD_UINT32_LITTLE (drop 24 d) in
      let d7 := LOAD_UINT32_LITTLE (drop 28 d) in
      let k4 := word k 4 in let k5 := word k 5 in let k6 := word k 6 in let k7 := word k 7 in
      let k8 := word k 8 in let k9 := word k 9 in let k10 := word k 10 in let k11 := word k 11 in
      let '(h1, h2) := h in
      let h1 := u64 (h1 + MUL64 (k0 + d0) (k4 + d4)) in
      let h2 := u64 (h2 + MUL64 (k4 + d0) (k8 + d4)) in
      let h1 := u64 (h1 + MUL64 (k1 + d1) (k5 + d5)) in
      let h2 := u64 (h2 + MUL64 (k5 + d1) (k9 + d5)) in
      let h1 := u64 (h1 + MUL64 (k2 + d2) (k6 + d6)) in
      let h2 := u64 (h2 + MUL64 (k6 + d2) (k10 + d6)) in
      let h1 := u64 (h1 + MUL64 (k3 + d3) (k7 + d7)) in
      let h2 := u64 (h2 + MUL64 (k7 + d3) (k11 + d7)) in
      nh_loop c k8 k9 k10 k11 (drop 8 k) (drop 32 d) (h1, h2)
  end.

(** The loop runs once at least, and with a count of 0 until it wraps around. *)
Definition nh_aux (k d : list Z) (h : Z * Z) (dlen : Z) : Z * Z :=
  let c := dlen / 32 in
  nh_loop (Z.to_nat (if c =? 0 then 2 ^ 32 else c)) (word k 0) (word k 1) (word k 2) (word k 3) k d h.

Definition nh_transform (hc : nh_ctx) (buf : list Z) (nbytes : Z) : Z * Z :=
  nh_aux (drop (Z.to_nat (bytes_hashed hc / 4)) (nh_key hc)) buf (state hc) nbytes.

Definition nh_reset (hc : nh_ctx) : nh_ctx := mkNh (nh_key hc) (data hc) 0 0 (0, 0).

(** The context was zeroed before. *)
Definition nh_init (prf_key : aes_key) : nh_ctx :=
  nh_reset (mkNh (endian_convert4 (kdf prf_key 1 NH_KEY_BYTES) (NH_KEY_BYTES / 4)) (replicate 64 0) 0 0 (0, 0)).

Definition nh_hashed (hc : nh_ctx) (h : Z * Z) (n : Z) : nh_ctx :=
  mkNh (nh_key hc) (data hc) (next_data_empty hc) (bytes_hashed hc + n) h.
Definition set_data (hc : nh_ctx) (d : list Z) : nh_ctx :=
  mkNh (nh_key hc) d (next_data_empty hc) (bytes_hashed hc) (state hc).
Definition set_empty (hc : nh_ctx) (n : Z) : nh_ctx := mkNh (nh_key hc) (data hc) n (bytes_hashed hc) (state hc).

(** [nbytes] is the length of [buf]. *)
Definition nh_update (hc : nh_ctx) (buf : list Z) : nh_ctx :=
  let j := next_data_empty hc in
  let '(hc, buf, j) :=
    if j + zlen buf >=? HASH_BUF_BYTES then
      let '(hc, buf) :=
        if negb (j =? 0) then
          let i := HASH_BUF_BYTES - j in
          let hc := set_data hc (splice j (take (Z.to_nat i) buf) (data hc)) in
          (nh_hashed hc (nh_transform hc (data hc) HASH_BUF_BYTES) HASH_BUF_BYTES, drop (Z.to_nat i) buf)
        else (hc, buf) in
      let '(hc, buf) :=
        if zlen buf >=? HASH_BUF_BYTES then
          let i := Z.land (zlen buf) (u32 (Z.lnot (HASH_BUF_BYTES - 1))) in
          (nh_hashed hc (nh_transform hc buf i) i, drop (Z.to_nat i) buf)
        else (hc, buf) in
      (hc, buf, 0)
    else (hc, buf, j) in
  set_empty (set_data hc (splice j buf (data hc))) (j + zlen buf).

(** Three loops: to a word boundary, words, and the bytes that are left. *)
Definition zero_pad (p nbytes : Z) : list Z :=
  let '(out, nbytes) :=
    if nbytes >=? 4 then
      let a := (- p) mod 4 in
      let words := (nbytes - a) / 4 in
      (replicate (Z.to_nat a) 0 ++ replicate (Z.to_nat (4 * words)) 0, nbytes - a - 4 * words)
    else ([], nbytes) in
  out ++ replicate (Z.to_nat nbytes) 0.

Definition add_bits (h : Z * Z) (nbits : Z) : Z * Z := (u64 (h.1 + nbits), u64 (h.2 + nbits)).

Definition nh_final (hc : nh_ctx) : (Z * Z) * nh_ctx :=
  let n := next_data_empty hc in
  let hc :=
    if negb (n =? 0) then
      let nh_len := Z.land (n + (L1_PAD_BOUNDARY - 1)) (Z.lnot (L1_PAD_BOUNDARY - 1)) in
      let hc := set_data hc (splice n (zero_pad n (nh_len - n)) (data hc)) in
      nh_hashed hc (nh_transform hc (data hc) nh_len) n
    else if bytes_hashed hc =? 0 then
      let hc := set_data hc (splice 0 (zero_pad 0 L1_PAD_BOUNDARY) (data hc)) in
      nh_hashed hc (nh_transform hc (data hc) L1_PAD_BOUNDARY) 0
    else hc in
  (add_bits (state hc) (Z.shiftl (bytes_hashed hc) 3), nh_reset hc).

Definition nh (hc : nh_ctx) (buf : list Z) (padded_len unpadded_len : Z) : Z * Z :=
  let nbits := u32 (Z.shiftl unpadded_len 3) in
  nh_aux (nh_key hc) buf (nbits, nbits) padded_len.

(** ** The polynomial and the inner-product hash *)

Definition p36 : Z := 68719476731.
Definition p64 : Z := 18446744073709551557.
Definition m36 : Z := 68719476735.

Record uhash_ctx := mkUhash {
  hash : nh_ctx;
  poly_key_8 : list Z;
  poly_accum : list Z;
  ip_keys : list Z;
  ip_trans : list Z;
  msg_len : Z
}.

Definition poly64 (cur key data : Z) : Z :=
  let key_hi := u32 (Z.shiftr key 32) in
  let key_lo := u32 key in
  let cur_hi := u32 (Z.shiftr cur 32) in
  let cur_lo := u32 cur in
  let X := u64 (MUL64 key_hi cur_lo + MUL64 cur_hi key_lo) in
  let x_lo := u32 X in
  let x_hi := u32 (Z.shiftr X 32) in
  let res := u64 (u64 (u64 (MUL64 key_hi cur_hi + x_hi) * 59) + MUL64 key_lo cur_lo) in
  let T := u64 (Z.shiftl x_lo 32) in
  let res := u64 (res + T) in
  let res := if res <? T then u64 (res + 59) else res in
  let res := u64 (res + data) in
  if res <? data then u64 (res + 59) else res.

Definition streams : list nat := seq 0 STREAMS.

Definition set_accum (hc : uhash_ctx) (a : list Z) : uhash_ctx :=
  mkUhash (hash hc) (poly_key_8 hc) a (ip_keys hc) (ip_trans hc) (msg_len hc).

Definition poly_hash (hc : uhash_ctx) (data_in : Z * Z) : uhash_ctx :=
  let data := [data_in.1; data_in.2] in
  set_accum hc (map (fun i =>
    let a := word (poly_accum hc) i in
    let k := word (poly_key_8 hc) i in
    let d := word data i in
    if u32 (Z.shiftr d 32) =? 4294967295 then poly64 (poly64 a k (p64 - 1)) k (u64 (d - 59))
    else poly64 a k d) streams).

Definition ip_aux (t : Z) (ipkp : list Z) (data : Z) : Z :=
  let t := u64 (t + u64 (word ipkp 0 * u16 (Z.shiftr data 48))) in
  let t := u64 (t + u64 (word ipkp 1 * u16 (Z.shiftr data 32))) in
  let t := u64 (t + u64 (word ipkp 2 * u16 (Z.shiftr data 16))) in
  u64 (t + u64 (word ipkp 3 * u16 data)).

Definition ip_reduce_p36 (t : Z) : Z :=
  let ret := u64 (Z.land t m36 + u64 (5 * Z.shiftr t 36)) in
  u32 (if ret >=? p36 then u64 (ret - p36) else ret).

(** The word of the result for stream [i]. *)
Definition ip_word (ahc : uhash_ctx) (i : nat) (d : Z) : list Z :=
  STORE_UINT32_BIG (Z.lxor (ip_reduce_p36 (ip_aux 0 (drop (4 * i) (ip_keys ahc)) d)) (word (ip_trans ahc) i)).

Definition ip_short (ahc : uhash_ctx) (nh_res : Z * Z) : list Z :=
  ip_word ahc 0 nh_res.1 ++ ip_word ahc 1 nh_res.2.

Definition ip_long (ahc : uhash_ctx) : list Z :=
  concat (map (fun i =>
    let a := word (poly_accum ahc) i in
    ip_word ahc i (if a >=? p64 then u64 (a - p64) else a)) streams).

(** ** UHASH *)

Definition uhash_reset (pc : uhash_ctx) : uhash_ctx :=
  mkUhash (nh_reset (hash pc)) (poly_key_8 pc) [1; 1] (ip_keys pc) (ip_trans pc) 0.

(** [sizeof (buf)] *)
Definition UHASH_BUF : nat := 160.

Definition uhash_init (prf_key : aes_key) : uhash_ctx :=
  let buf := kdf prf_key 2 UHASH_BUF in
  let poly_key_8 := map (fun i =>
    Z.land (word (endian_convert8 (take 8 (drop (24 * i) buf)) 1) 0) (Z.shiftl 33554431 32 + 33554431)) streams in
  let buf := kdf prf_key 3 UHASH_BUF in
  let ip_keys := concat (map (fun i => take 32 (drop ((8 * i + 4) * 8) buf)) streams) in
  let ip_keys := map (fun k => k mod p36) (endian_convert8 ip_keys (STREAMS * 4)) in
  let ip_trans := endian_convert4 (kdf prf_key 4 (STREAMS * 4)) STREAMS in
  mkUhash (nh_init prf_key) poly_key_8 [1; 1] ip_keys ip_trans 0.

Definition set_hash (ctx : uhash_ctx) (h : nh_ctx) (n : Z) : uhash_ctx :=
  mkUhash h (poly_key_8 ctx) (poly_accum ctx) (ip_keys ctx) (ip_trans ctx) (u32 (msg_len ctx + n)).

(** Hash directly from the input; [fuel] is enough when it is the length of the input. *)
Fixpoint uhash_blocks (fuel : nat) (ctx : uhash_ctx) (input : list Z) : uhash_ctx * list Z :=
  match fuel with
  | O => (ctx, input)
  | S fuel =>
      if zlen input >=? L1_KEY_LEN then
        let r := nh (hash ctx) input L1_KEY_LEN L1_KEY_LEN in
        uhash_blocks fuel (poly_hash (set_hash ctx (hash ctx) L1_KEY_LEN) r) (drop 1024 input)
      else (ctx, input)
  end.

Definition uhash_update (ctx : uhash_ctx) (input : list Z) : uhash_ctx :=
  let len := zlen input in
  if u32 (msg_len ctx + len) <=? L1_KEY_LEN then set_hash ctx (nh_update (hash ctx) input) len
  else
    let bytes_hashed := if msg_len ctx =? L1_KEY_LEN then L1_KEY_LEN else msg_len ctx mod L1_KEY_LEN in
    let '(ctx, input) :=
      if u32 (bytes_hashed + len) >=? L1_KEY_LEN then
        let '(ctx, input) :=
          if negb (bytes_hashed =? 0) then
            let bytes_remaining := L1_KEY_LEN - bytes_hashed in
            let '(r, h) := nh_final (nh_update (hash ctx) (take (Z.to_nat bytes_remaining) input)) in
            (poly_hash (set_hash ctx h bytes_remaining) r, drop (Z.to_nat bytes_remaining) input)
          else (ctx, input) in
        uhash_blocks (length input) ctx input
      else (ctx, input) in
    if negb (zlen input =? 0) then set_hash ctx (nh_update (hash ctx) input) (zlen input) else ctx.

Definition uhash_final (ctx : uhash_ctx) : list Z * uhash_ctx :=
  if msg_len ctx >? L1_KEY_LEN then
    let ctx :=
      if negb (msg_len ctx mod L1_KEY_LEN =? 0) then
        let '(r, h) := nh_final (hash ctx) in poly_hash (set_hash ctx h 0) r
      else ctx in
    (ip_long ctx, uhash_reset ctx)
  else
    let '(r, h) := nh_final (hash ctx) in
    let ctx := set_hash ctx h 0 in
    (ip_short ctx r, uhash_reset ctx).

(** ** UMAC *)

Record umac_ctx := mkUmac { uhash : uhash_ctx; pdf : pdf_ctx }.

Definition umac_new (key : list Z) : umac_ctx :=
  let prf_key := aes_key_setup (take UMAC_KEY_LEN key) in
  mkUmac (uhash_init prf_key) (pdf_init prf_key).

Definition umac_update (ctx : umac_ctx) (input : list Z) : umac_ctx :=
  mkUmac (uhash_update (uhash ctx) input) (pdf ctx).

Definition umac_final (ctx : umac_ctx) (nonce : list Z) : list Z * umac_ctx :=
  let '(tag, h) := uhash_final (uhash ctx) in
  let '(tag, p) := pdf_gen_xor (pdf ctx) nonce tag in
  (tag, mkUmac h p).

End Umac.
