(* ===== verification/SshAes.v ===== *)
(** * SshAes: AES as FIPS 197 defines it

    An instance of [SshUmac.Aes] for runs: encryption with keys of 128 bits.  The program
    takes AES from OpenSSL; examples are computed with this one, and it shows that what
    the theorems assume of AES can hold. *)

From S2P Require Import Prelude SshBuffer SshUmac.

Lemma lxor_range n x y : 0 < n -> 0 <= x < 2 ^ n -> 0 <= y < 2 ^ n -> 0 <= Z.lxor x y < 2 ^ n.
Proof.
  intros Hn Hx Hy. split; [apply Z.lxor_nonneg; lia|]. destruct (Z.eq_dec (Z.lxor x y) 0) as [-> |H0]; [lia|].
  assert (0 <= Z.lxor x y) by (apply Z.lxor_nonneg; lia). apply Z.log2_lt_pow2; [lia|].
  eapply Z.le_lt_trans; [apply Z.log2_lxor; lia|].
  apply Z.max_lub_lt; [destruct (Z.eq_dec x 0) as [-> |]|destruct (Z.eq_dec y 0) as [-> |]]; try (cbn; lia); apply Z.log2_lt_pow2; lia.
Qed.

Module Fips197.

Definition sbox : list Z :=
  [99; 124; 119; 123; 242; 107; 111; 197; 48; 1; 103; 43; 254; 215; 171; 118;
   202; 130; 201; 125; 250; 89; 71; 240; 173; 212; 162; 175; 156; 164; 114; 192;
   183; 253; 147; 38; 54; 63; 247; 204; 52; 165; 229; 241; 113; 216; 49; 21;
   4; 199; 35; 195; 24; 150; 5; 154; 7; 18; 128; 226; 235; 39; 178; 117;
   9; 131; 44; 26; 27; 110; 90; 160; 82; 59; 214; 179; 41; 227; 47; 132;
   83; 209; 0; 237; 32; 252; 177; 91; 106; 203; 190; 57; 74; 76; 88; 207;
   208; 239; 170; 251; 67; 77; 51; 133; 69; 249; 2; 127; 80; 60; 159; 168;
   81; 163; 64; 143; 146; 157; 56; 245; 188; 182; 218; 33; 16; 255; 243; 210;
   205; 12; 19; 236; 95; 151; 68; 23; 196; 167; 126; 61; 100; 93; 25; 115;
   96; 129; 79; 220; 34; 42; 144; 136; 70; 238; 184; 20; 222; 94; 11; 219;
   224; 50; 58; 10; 73; 6; 36; 92; 194; 211; 172; 98; 145; 149; 228; 121;
   231; 200; 55; 109; 141; 213; 78; 169; 108; 86; 244; 234; 101; 122; 174; 8;
   186; 120; 37; 46; 28; 166; 180; 198; 232; 221; 116; 31; 75; 189; 139; 138;
   112; 62; 181; 102; 72; 3; 246; 14; 97; 53; 87; 185; 134; 193; 29; 158;
   225; 248; 152; 17; 105; 217; 142; 148; 155; 30; 135; 233; 206; 85; 40; 223;
   140; 161; 137; 13; 191; 230; 66; 104; 65; 153; 45; 15; 176; 84; 187; 22].

Definition sub (b : Z) : Z := nth (Z.to_nat b) sbox 0.

(** Multiplication by x. *)
Definition xtime (b : Z) : Z := Z.lxor (Z.land (2 * b) 255) (if 128 <=? b then 27 else 0).

(** The bytes of a block stand in columns of four. *)
Definition shift_rows (s : list Z) : list Z :=
  map (fun i => nth i s 0) [0; 5; 10; 15; 4; 9; 14; 3; 8; 13; 2; 7; 12; 1; 6; 11]%nat.

Definition mix_column (a b c d : Z) : list Z :=
  let t := Z.lxor (Z.lxor a b) (Z.lxor c d) in
  [Z.lxor (Z.lxor a t) (xtime (Z.lxor a b)); Z.lxor (Z.lxor b t) (xtime (Z.lxor b c));
   Z.lxor (Z.lxor c t) (xtime (Z.lxor c d)); Z.lxor (Z.lxor d t) (xtime (Z.lxor d a))].

Fixpoint mix_columns (s : list Z) : list Z :=
  match s with
  | a :: b :: c :: d :: s => mix_column a b c d ++ mix_columns s
  | _ => []
  end.

Definition add_key (k s : list Z) : list Z := zip_with Z.lxor k s.

(** The next round key; [rcon] is the round constant. *)
Definition next_key (rcon : Z) (k : list Z) : list Z :=
  let w i := take 4 (drop (4 * i) k) in
  let g := match w 3%nat with
           | [a; b; c; d] => [Z.lxor (sub b) rcon; sub c; sub d; sub a]
           | l => l
           end in
  let w0 := add_key (w 0%nat) g in
  let w1 := add_key (w 1%nat) w0 in
  let w2 := add_key (w 2%nat) w1 in
  w0 ++ w1 ++ w2 ++ add_key (w 3%nat) w2.

Fixpoint key_schedule (rounds : nat) (rcon : Z) (k : list Z) : list (list Z) :=
  match rounds with
  | O => []
  | S n => let k := next_key rcon k in k :: key_schedule n (xtime rcon) k
  end.

Definition key_setup (key : list Z) : list Z * list (list Z) := (key, key_schedule 10 1 key).

Fixpoint rounds (ks : list (list Z)) (s : list Z) : list Z :=
  match ks with
  | [] => s
  | [k] => add_key k (shift_rows (map sub s))
  | k :: ks => rounds ks (add_key k (mix_columns (shift_rows (map sub s))))
  end.

(** A block is written, whatever lists are given. *)
Definition encrypt (key : list Z * list (list Z)) (block : list Z) : list Z :=
  take 16 (rounds key.2 (add_key key.1 block) ++ replicate 16 0).

#[export] Instance aes : Aes := {|
  aes_key := list Z * list (list Z); aes_key_setup := key_setup; aes_encryption := encrypt |}.

(** It maps blocks to blocks. *)

Lemma lxor_is_u8 a b : is_u8 a -> is_u8 b -> is_u8 (Z.lxor a b).
Proof. apply (lxor_range 8). lia. Qed.

Lemma sub_u8 b : is_u8 (sub b).
Proof.
  unfold sub. destruct (nth_in_or_default (Z.to_nat b) sbox 0) as [H| ->]; [|unfold is_u8; lia].
  assert (forallb (fun x => (0 <=? x) && (x <? 256)) sbox = true) as Hs by (vm_compute; reflexivity).
  rewrite forallb_forall in Hs. apply Hs in H. unfold is_u8. apply andb_prop in H as [H1 H2]. zbool. lia.
Qed.

Lemma xtime_u8 b : is_u8 (xtime b).
Proof.
  apply lxor_is_u8; [|unfold is_u8; destruct (128 <=? b); lia]. change 255 with (Z.ones 8). rewrite Z.land_ones by lia.
  apply Z.mod_pos_bound. lia.
Qed.

Lemma add_key_block k s : block k -> block s -> block (add_key k s).
Proof.
  intros [Ek Hk] [Es Hs]. split; [unfold add_key; rewrite length_zip_with; lia|]. unfold add_key. clear Ek Es. revert s Hs.
  induction Hk as [|a k Ha Hk IH]; intros s Hs; [by destruct s|]. destruct Hs as [|b s Hb Hs]; [done|].
  cbn [zip_with]. apply Forall_cons_2; [by apply lxor_is_u8|by apply IH].
Qed.

Ltac each_u8 := repeat first [apply Forall_cons_2 | apply Forall_nil_2 | apply xtime_u8 | apply sub_u8 | apply lxor_is_u8 | assumption].

(** A block by its bytes. *)
Ltac sixteen H := destruct H as [Elen Hbytes]; revert Elen Hbytes;
  match goal with |- length ?s = _ -> _ => do 16 (destruct s as [|? s]; [done|]); destruct s; [|done] end;
  intros _ Hbytes; rewrite !Forall_cons in Hbytes; destruct_and! Hbytes.

Lemma shift_rows_block s : block s -> block (shift_rows (map sub s)).
Proof. intros H. sixteen H. split; [done|]. cbn [map shift_rows nth]. unfold shift_rows. cbn [map nth]. each_u8. Qed.

Lemma mix_columns_block s : block s -> block (mix_columns s).
Proof. intros H. sixteen H. split; [done|]. cbn [mix_columns mix_column app]. unfold mix_column. cbv zeta. cbn [app]. each_u8. Qed.

Lemma next_key_block rcon k : is_u8 rcon -> block k -> block (next_key rcon k).
Proof. intros Hr H. sixteen H. split; [done|]. unfold next_key, add_key. cbn [take drop Nat.mul Nat.add zip_with app]. each_u8. Qed.

Lemma key_schedule_block n : forall rcon k, is_u8 rcon -> block k -> Forall block (key_schedule n rcon k).
Proof.
  induction n as [|n IH]; intros rcon k Hr Hk; [constructor|]. cbn [key_schedule].
  assert (block (next_key rcon k)) by (by apply next_key_block). apply Forall_cons_2; [done|]. apply IH; [apply xtime_u8|done].
Qed.

Lemma rounds_block ks : forall s, Forall block ks -> block s -> block (rounds ks s).
Proof.
  induction ks as [|k ks IH]; intros s Hks Hs; [done|]. apply Forall_cons in Hks as [Hk Hks]. cbn [rounds].
  destruct ks as [|k' ks]; [apply add_key_block; [done|by apply shift_rows_block]|].
  apply IH; [done|]. apply add_key_block; [done|]. by apply mix_columns_block, shift_rows_block.
Qed.

#[export] Instance aes_laws : AesLaws (AE := aes).
Proof.
  constructor; [intros k b; change (length (encrypt k b) = 16%nat); unfold encrypt; rewrite length_take, length_app, length_replicate; lia|].
  intros key b Hk Hb. change (block (encrypt (key_setup key) b)). unfold encrypt.
  assert (block (rounds (key_setup key).2 (add_key (key_setup key).1 b))) as H; [|rewrite take_app_le, take_ge by (destruct H; lia); exact H].
  apply rounds_block; [apply key_schedule_block; [unfold is_u8; lia|done]|]. by apply add_key_block.
Qed.

Definition upto16 (f : nat -> nat) : list Z := map (fun i => Z.of_nat (f i)) (seq 0 16).

(** FIPS 197, appendix C.1 *)
Example fips197_c1 :
  aes_encryption (aes_key_setup (upto16 (fun i => i))) (upto16 (fun i => 17 * i)%nat) =
  [105; 196; 224; 216; 106; 123; 4; 48; 216; 205; 183; 128; 112; 180; 197; 90].
Proof. vm_compute. reflexivity. Qed.

(** RFC 4418, appendix: the tags of 64 bits for the key abcdefghijklmnop and the nonce bcdefghi. *)
Definition tag (chunks : list (list Z)) : list Z :=
  (umac_final (foldl umac_update (umac_new (str "abcdefghijklmnop")) chunks) (str "bcdefghi")).1.

Example rfc4418_empty : tag [] = [110; 21; 95; 173; 38; 144; 11; 225].
Proof. vm_compute. reflexivity. Qed.
Example rfc4418_aaa : tag [str "a"; str "aa"] = [68; 181; 203; 84; 47; 34; 1; 4].
Proof. vm_compute. reflexivity. Qed.
Example rfc4418_1024 : tag [replicate 1024 97] = [38; 191; 47; 93; 96; 17; 139; 217].
Proof. vm_compute. reflexivity. Qed.
Example rfc4418_32768 : tag [replicate 1000 97; replicate 768 97; replicate (31 * 1000) 97] = [39; 248; 239; 100; 59; 13; 17; 141].
Proof. vm_compute. reflexivity. Qed.
Example rfc4418_abc : tag [str "abc"] = [212; 215; 185; 246; 189; 79; 191; 207].
Proof. vm_compute. reflexivity. Qed.
Example rfc4418_abc500 : tag [concat (replicate 500 (str "abc"))] = [212; 207; 38; 221; 239; 213; 192; 26].
Proof. vm_compute. reflexivity. Qed.

End Fips197.
