(* ===== verification/SshUmacProps.v ===== *)
(** * SshUmacProps: umac.cpp computes the UMAC of RFC 4418

    The reference is written from the RFC ([Rfc4418]); the theorem is that the tag of the
    incremental interface is the tag of the RFC, however the message is cut and whatever
    tags were made before, up to the 16 megabytes that the implementation states as its
    limit. *)

From S2P Require Import Prelude SshBuffer SshUmac SshAes.

(** ** The definition of the RFC *)

Module Rfc4418.
Section Rfc.
Context {AE : Aes}.

Definition str2uint (s : list Z) : Z := foldl (fun v b => v * 256 + b) 0 s.

Definition ENCIPHER (K block : list Z) : list Z := aes_encryption (aes_key_setup K) block.

Definition KDF (K : list Z) (index : Z) (numbytes : nat) : list Z :=
  take numbytes (concat (map (fun i => ENCIPHER K (put_u64 index ++ put_u64 (Z.of_nat i)))
    (seq 1 (S (numbytes / 16))))).

(** For tags of 8 bytes. *)
Definition PDF (K nonce : list Z) : list Z :=
  let index := str2uint nonce mod 2 in
  let nonce := put_u64 (str2uint nonce - index) in
  let T := ENCIPHER (KDF K 0 16) (nonce ++ replicate 8 0) in
  take 8 (drop (Z.to_nat (8 * index)) T).

(** The words of a string, with the first byte of a word as its first or its last digit. *)
Definition big_word (s : list Z) (i : nat) : Z := str2uint (take 4 (drop (4 * i) s)).
Definition little_word (s : list Z) (i : nat) : Z := str2uint (rev (take 4 (drop (4 * i) s))).

(** Addition of 32 bits, multiplication and sum of 64. *)
Definition NH (K M : list Z) : Z :=
  let pair (i : nat) := (little_word M i + big_word K i) mod 2 ^ 32 * ((little_word M (i + 4)%nat + big_word K (i + 4)%nat) mod 2 ^ 32) in
  foldr Z.add 0 (map (fun b => pair (8 * b)%nat + pair (8 * b + 1)%nat + pair (8 * b + 2)%nat + pair (8 * b + 3)%nat)
    (seq 0 (length M / 32))) mod 2 ^ 64.

(** Zeros up to a multiple of 32, and 32 of them for the empty string. *)
Definition zeropad (M : list Z) : list Z :=
  M ++ replicate (if (length M =? 0)%nat then 32 else Z.to_nat ((- zlen M) mod 32)) 0.

Definition chunk_hash (K M : list Z) : Z := (NH K (zeropad M) + zlen M * 8) mod 2 ^ 64.

(** Chunks of 1024 bytes; the last is not empty unless the message is. *)
Fixpoint chunks (fuel : nat) (M : list Z) : list (list Z) :=
  match fuel with
  | O => [M]
  | S fuel => if (length M <=? 1024)%nat then [M] else take 1024 M :: chunks fuel (drop 1024 M)
  end.

Definition L1_HASH (K M : list Z) : list Z := map (chunk_hash K) (chunks (length M) M).

Definition p64 : Z := 2 ^ 64 - 59.
Definition p36 : Z := 2 ^ 36 - 5.

Definition poly_step (k y m : Z) : Z :=
  if 2 ^ 64 - 2 ^ 32 <=? m then (k * ((k * y + (p64 - 1)) mod p64) + (m - 59)) mod p64
  else (k * y + m) mod p64.

Definition POLY (k : Z) (M : list Z) : Z := foldl (poly_step k) 1 M.

Definition L2_HASH (K : list Z) (M : list Z) (A : list Z) : Z :=
  let k64 := Z.land (str2uint (take 8 K)) (str2uint [1; 255; 255; 255; 1; 255; 255; 255]) in
  if (length M <=? 1024)%nat then hd 0 A else POLY k64 A.

(** The string of 16 bytes that is hashed has 8 zeros in front. *)
Definition L3_HASH (K1 K2 : list Z) (v : Z) : list Z :=
  let s := replicate 8 0 ++ put_u64 v in
  let m i := str2uint (take 2 (drop (2 * i) s)) in
  let k i := str2uint (take 8 (drop (8 * i) K1)) mod p36 in
  let y := foldr Z.add 0 (map (fun i => m i * k i) (seq 0 8)) mod p36 mod 2 ^ 32 in
  xor_bytes (put_u32 y) K2.

Definition UHASH (K M : list Z) : list Z :=
  let L1Key := KDF K 1 1040 in
  let L2Key := KDF K 2 48 in
  let L3Key1 := KDF K 3 128 in
  let L3Key2 := KDF K 4 8 in
  concat (map (fun i =>
    let A := L1_HASH (take 1024 (drop (16 * i) L1Key)) M in
    let B := L2_HASH (take 24 (drop (24 * i) L2Key)) M A in
    L3_HASH (take 64 (drop (64 * i) L3Key1)) (take 4 (drop (4 * i) L3Key2)) B) (seq 0 2)).

Definition UMAC (K M nonce : list Z) : list Z := xor_bytes (UHASH K M) (PDF K nonce).

End Rfc.
End Rfc4418.

Import Rfc4418.

(** ** Words and bytes *)

Lemma land_low_mask x n k : 0 <= n -> 0 <= k -> Z.land x (Z.ones n * 2 ^ k) = x / 2 ^ k mod 2 ^ n * 2 ^ k.
Proof.
  intros Hn Hk. rewrite <- !Z.shiftl_mul_pow2, <- Z.land_ones, <- Z.shiftr_div_pow2 by lia.
  apply Z.bits_inj'. intros i Hi. rewrite Z.land_spec, !Z.shiftl_spec, Z.land_spec by lia.
  destruct (Z.lt_ge_cases i k) as [Hik|Hik].
  - by rewrite !(Z.testbit_neg_r _ (i - k)), !andb_false_r by lia.
  - rewrite Z.shiftr_spec by lia. by replace (i - k + k) with i by lia.
Qed.

Lemma swap32_eq x : 0 <= x < 2 ^ 32 ->
  swap32 x = x mod 256 * 2 ^ 24 + x / 2 ^ 8 mod 256 * 2 ^ 16 + x / 2 ^ 16 mod 256 * 2 ^ 8 + x / 2 ^ 24.
Proof.
  intros Hx. unfold swap32. change 16711680 with (Z.ones 8 * 2 ^ 16). change 65280 with (Z.ones 8 * 2 ^ 8).
  rewrite !land_low_mask by lia. rewrite Z.shiftr_div_pow2, (Z.shiftr_div_pow2 (_ * _)), !Z.shiftl_mul_pow2 by lia.
  change (2 ^ 8) with 256. change (2 ^ 16) with 65536. change (2 ^ 24) with 16777216. unfold u32.
  replace (x / 65536 mod 256 * 65536 / 256) with (x / 65536 mod 256 * 256) by (Z.div_mod_to_equations; lia).
  replace (x * 16777216 mod 4294967296) with (x mod 256 * 16777216) by (Z.div_mod_to_equations; lia).
  assert (0 <= x / 16777216 < 256) by (Z.div_mod_to_equations; lia).
  pose proof (Z.mod_pos_bound (x / 65536) 256 ltac:(lia)). pose proof (Z.mod_pos_bound (x / 256) 256 ltac:(lia)).
  pose proof (Z.mod_pos_bound x 256 ltac:(lia)).
  rewrite (Z.lor_comm (x / 16777216)), (lor_disjoint_add _ _ 8) by lia.
  replace (x / 256 mod 256 * 256 * 256) with (x / 256 mod 256 * 2 ^ 16) by lia.
  rewrite (Z.lor_comm _ (x / 256 mod 256 * 2 ^ 16)), (lor_disjoint_add _ _ 16) by lia.
  rewrite (Z.lor_comm _ (x mod 256 * 16777216)), (lor_disjoint_add _ _ 24) by lia. lia.
Qed.

Lemma swap32_range x : 0 <= x < 2 ^ 32 -> 0 <= swap32 x < 2 ^ 32.
Proof. intros Hx. rewrite swap32_eq by done. Z.div_mod_to_equations. lia. Qed.

Lemma four_block_bytes a b c d : is_u8 a -> is_u8 b -> is_u8 c -> is_u8 d ->
  let x := a + b * 2 ^ 8 + c * 2 ^ 16 + d * 2 ^ 24 in
  0 <= x < 2 ^ 32 /\ x mod 256 = a /\ x / 2 ^ 8 mod 256 = b /\ x / 2 ^ 16 mod 256 = c /\ x / 2 ^ 24 = d.
Proof. unfold is_u8. cbv zeta. intros Ha Hb Hc Hd. repeat split; Z.div_mod_to_equations; lia. Qed.

(** Four bytes, or what is left of them: a missing byte is read as 0 only in lists that are
    too short, which do not occur. *)
Lemma load_big p : bytes_ok p -> (4 <= length p)%nat -> LOAD_UINT32_REVERSED p = str2uint (take 4 p).
Proof.
  intros Hp Hl. destruct p as [|a [|b [|c [|d p]]]]; cbn in Hl; try lia.
  apply Forall_cons in Hp as [Ha Hp]. apply Forall_cons in Hp as [Hb Hp]. apply Forall_cons in Hp as [Hc Hp].
  apply Forall_cons in Hp as [Hd _]. unfold LOAD_UINT32_REVERSED.
  change (load32 (a :: b :: c :: d :: p)) with (a + b * 2 ^ 8 + c * 2 ^ 16 + d * 2 ^ 24).
  destruct (four_block_bytes a b c d Ha Hb Hc Hd) as (Hx & E1 & E2 & E3 & E4). rewrite swap32_eq, E1, E2, E3, E4 by done.
  change (str2uint (take 4 (a :: b :: c :: d :: p))) with ((((0 * 256 + a) * 256 + b) * 256 + c) * 256 + d). lia.
Qed.

Lemma load_little p : (4 <= length p)%nat -> load32 p = str2uint (rev (take 4 p)).
Proof.
  intros Hl. destruct p as [|a [|b [|c [|d p]]]]; cbn in Hl; try lia.
  change (load32 (a :: b :: c :: d :: p)) with (a + b * 2 ^ 8 + c * 2 ^ 16 + d * 2 ^ 24).
  change (str2uint (rev (take 4 (a :: b :: c :: d :: p)))) with ((((0 * 256 + d) * 256 + c) * 256 + b) * 256 + a). lia.
Qed.

Lemma load32_range p : bytes_ok p -> 0 <= load32 p < 2 ^ 32.
Proof.
  intros Hp. assert (forall i, 0 <= znth 0 p i < 256) as H.
  { intros i. unfold znth. destruct (nth_in_or_default (Z.to_nat i) p 0) as [Hi| ->]; [|lia].
    rewrite Forall_forall in Hp. by apply Hp, list_elem_of_In. }
  unfold load32. pose proof (H 0). pose proof (H 1). pose proof (H 2). pose proof (H 3). lia.
Qed.

Lemma store_big x : 0 <= x < 2 ^ 32 -> STORE_UINT32_BIG x = put_u32 x.
Proof.
  intros Hx. unfold STORE_UINT32_BIG, store32. rewrite put_u32_bytes, swap32_eq by done.
  pose proof (four_block_bytes (x / 2 ^ 24 mod 256) (x / 2 ^ 16 mod 256) (x / 2 ^ 8 mod 256) (x mod 256)) as H.
  unfold is_u8 in H. destruct H as (_ & E1 & E2 & E3 & E4); [apply Z.mod_pos_bound; lia..|].
  rewrite (Z.mod_small (x / 2 ^ 24)) in E1, E2, E3, E4 |- * by (Z.div_mod_to_equations; lia).
  set (s := _ + x / 2 ^ 24). replace s with (x / 2 ^ 24 + x / 2 ^ 16 mod 256 * 2 ^ 8 + x / 2 ^ 8 mod 256 * 2 ^ 16 + x mod 256 * 2 ^ 24)
    by (unfold s; lia).
  rewrite E1, E2, E3, E4. by rewrite Z.mod_mod by lia.
Qed.

(** ** The polynomial hash *)

Lemma MUL64_eq a b : 0 <= a < 2 ^ 32 -> 0 <= b < 2 ^ 32 -> MUL64 a b = a * b.
Proof. intros Ha Hb. unfold MUL64. rewrite !u32_small by lia. apply u64_small. nia. Qed.

(** A sum that wraps around is corrected by 59, which is 2^64 modulo p64. *)
Definition carry (a b : Z) : Z := let r := u64 (a + b) in if r <? b then u64 (r + 59) else r.

Lemma carry_spec a b : 0 <= a < 2 ^ 64 -> 0 <= b < 2 ^ 64 -> a + b < 2 ^ 65 - 59 -> 0 <= carry a b < 2 ^ 64 /\
  exists q, carry a b = a + b - q * p64.
Proof.
  intros Ha Hb Hab. unfold carry, u64, p64. destruct (Z.lt_ge_cases (a + b) (2 ^ 64)) as [H|H].
  - rewrite Z.mod_small by lia. destruct (a + b <? b) eqn:E; zbool; [lia|]. split; [lia|]. exists 0. lia.
  - replace ((a + b) mod 18446744073709551616) with (a + b - 2 ^ 64) by (Z.div_mod_to_equations; lia).
    destruct (_ <? b) eqn:E; zbool; [|lia]. rewrite Z.mod_small by lia. split; [lia|]. exists 1. lia.
Qed.

(** The keys of the polynomial hash. *)
Definition poly_key (k : Z) : Prop := 0 <= k / 2 ^ 32 < 2 ^ 25 /\ 0 <= k mod 2 ^ 32 < 2 ^ 25.

Lemma poly64_spec cur key data : 0 <= cur < 2 ^ 64 -> poly_key key -> 0 <= data < p64 ->
  0 <= poly64 cur key data < 2 ^ 64 /\ poly64 cur key data mod p64 = (key * cur + data) mod p64.
Proof.
  intros Hc [Hkh Hkl] Hd. pose proof (Z.div_mod key (2 ^ 32) ltac:(lia)) as Ek.
  pose proof (Z.div_mod cur (2 ^ 32) ltac:(lia)) as Ec. pose proof (Z.mod_pos_bound cur (2 ^ 32) ltac:(lia)) as Hcl.
  assert (0 <= cur / 2 ^ 32 < 2 ^ 32) as Hch by (Z.div_mod_to_equations; lia).
  unfold poly64. rewrite !Z.shiftr_div_pow2, !Z.shiftl_mul_pow2 by lia. rewrite (u32_small (key / _)), (u32_small (cur / _)) by lia.
  change (u32 key) with (key mod 2 ^ 32). change (u32 cur) with (cur mod 2 ^ 32).
  set (kh := key / 2 ^ 32) in *. set (kl := key mod 2 ^ 32) in *. set (ch := cur / 2 ^ 32) in *. set (cl := cur mod 2 ^ 32) in *.
  rewrite !MUL64_eq by lia. set (X := kh * cl + ch * kl).
  assert (0 <= X < 2 ^ 58) as HX by (unfold X; nia). rewrite (u64_small X) by lia.
  change (u32 X) with (X mod 2 ^ 32). pose proof (Z.div_mod X (2 ^ 32) ltac:(lia)) as EX.
  pose proof (Z.mod_pos_bound X (2 ^ 32) ltac:(lia)) as Hxl. assert (0 <= X / 2 ^ 32 < 2 ^ 26) as Hxh by (Z.div_mod_to_equations; lia).
  rewrite (u32_small (X / _)) by lia. set (xh := X / 2 ^ 32) in *. set (xl := X mod 2 ^ 32) in *.
  assert (0 <= kh * ch < 2 ^ 57) by nia. assert (0 <= kl * cl < 2 ^ 57) by nia.
  rewrite (u64_small (kh * ch + xh)), (u64_small (_ * 59)), (u64_small (_ + kl * cl)), (u64_small (xl * _)) by lia.
  set (res := (kh * ch + xh) * 59 + kl * cl).
  change (if u64 (res + xl * 2 ^ 32) <? xl * 2 ^ 32 then u64 (u64 (res + xl * 2 ^ 32) + 59) else u64 (res + xl * 2 ^ 32))
    with (carry res (xl * 2 ^ 32)).
  destruct (carry_spec res (xl * 2 ^ 32)) as (H1 & q1 & E1); [unfold res; lia|lia|unfold res; lia|].
  set (r1 := carry res (xl * 2 ^ 32)) in *.
  change (if u64 (r1 + data) <? data then u64 (u64 (r1 + data) + 59) else u64 (r1 + data)) with (carry r1 data).
  unfold p64 in Hd. destruct (carry_spec r1 data) as (H2 & q2 & E2); [lia|lia|lia|]. split; [done|]. rewrite E2, E1.
  rewrite <- (Z_mod_plus_full _ (q1 + q2 + (kh * ch + xh))). f_equal. unfold res, p64.
  assert (key * cur = kh * ch * 2 ^ 64 + (2 ^ 32 * xh + xl) * 2 ^ 32 + kl * cl) as -> by (rewrite <- EX; unfold X; rewrite Ek, Ec at 1; ring).
  ring.
Qed.

Lemma horner_mod k a x : (k * (a mod p64) + x) mod p64 = (k * a + x) mod p64.
Proof. by rewrite <- Z.add_mod_idemp_l, Z.mul_mod_idemp_r, Z.add_mod_idemp_l. Qed.

(** One stream of [poly_hash]. *)
Definition poly_word (a k d : Z) : Z :=
  if u32 (Z.shiftr d 32) =? 4294967295 then poly64 (poly64 a k (SshUmac.p64 - 1)) k (u64 (d - 59)) else poly64 a k d.

Lemma poly_word_spec a k d y : 0 <= a < 2 ^ 64 -> poly_key k -> 0 <= d < 2 ^ 64 -> a mod p64 = y ->
  0 <= poly_word a k d < 2 ^ 64 /\ poly_word a k d mod p64 = poly_step k y d.
Proof.
  intros Ha Hk Hd <-. unfold poly_word, poly_step. rewrite Z.shiftr_div_pow2, u32_small by (Z.div_mod_to_equations; lia).
  assert ((d / 2 ^ 32 =? 4294967295) = (2 ^ 64 - 2 ^ 32 <=? d)) as -> by (destruct (_ =? _) eqn:E1, (_ <=? d) eqn:E2; zbool; Z.div_mod_to_equations; lia).
  destruct (_ <=? d) eqn:E; zbool.
  - destruct (poly64_spec a k (SshUmac.p64 - 1)) as [H1 E1]; [done..|unfold SshUmac.p64, p64; lia|].
    destruct (poly64_spec (poly64 a k (SshUmac.p64 - 1)) k (u64 (d - 59))) as [H2 E2]; [done..|rewrite u64_small; unfold p64; lia|].
    split; [done|]. rewrite E2, u64_small, <- horner_mod, E1 by (unfold p64; lia). by rewrite (horner_mod k a).
  - destruct (poly64_spec a k d) as [H1 E1]; [done..|unfold p64; lia|]. split; [done|]. by rewrite E1, horner_mod.
Qed.

(** ** The inner-product hash *)

Lemma ip_sum k0 k1 k2 k3 l d : 0 <= d < 2 ^ 64 -> Forall (fun k => 0 <= k < p36) [k0; k1; k2; k3] ->
  let t := k0 * (d / 2 ^ 48) + k1 * (d / 2 ^ 32 mod 2 ^ 16) + k2 * (d / 2 ^ 16 mod 2 ^ 16) + k3 * (d mod 2 ^ 16) in
  ip_aux 0 (k0 :: k1 :: k2 :: k3 :: l) d = t /\ 0 <= t < 2 ^ 54.
Proof.
  intros Hd Hk. rewrite !Forall_cons in Hk. destruct Hk as (H0 & H1 & H2 & H3 & _). unfold p36 in *. unfold ip_aux. cbn [nth].
  rewrite !Z.shiftr_div_pow2 by lia. unfold u16. change 65536 with (2 ^ 16).
  assert (0 <= d / 2 ^ 48 < 2 ^ 16) as D0 by (Z.div_mod_to_equations; lia). rewrite (Z.mod_small (d / 2 ^ 48)) by done.
  pose proof (Z.mod_pos_bound (d / 2 ^ 32) (2 ^ 16) ltac:(lia)) as D1. pose proof (Z.mod_pos_bound (d / 2 ^ 16) (2 ^ 16) ltac:(lia)) as D2.
  pose proof (Z.mod_pos_bound d (2 ^ 16) ltac:(lia)) as D3.
  set (d0 := d / 2 ^ 48) in *. set (d1 := d / 2 ^ 32 mod 2 ^ 16) in *. set (d2 := d / 2 ^ 16 mod 2 ^ 16) in *. set (d3 := d mod 2 ^ 16) in *.
  assert (0 <= k0 * d0 < 2 ^ 52) by nia. assert (0 <= k1 * d1 < 2 ^ 52) by nia.
  assert (0 <= k2 * d2 < 2 ^ 52) by nia. assert (0 <= k3 * d3 < 2 ^ 52) by nia. cbv zeta. split; [|lia].
  rewrite (u64_small (k0 * d0)), (u64_small (k1 * d1)), (u64_small (k2 * d2)), (u64_small (k3 * d3)), Z.add_0_l by lia.
  by rewrite (u64_small (k0 * d0)), (u64_small (k0 * d0 + k1 * d1)), (u64_small (k0 * d0 + k1 * d1 + k2 * d2)), u64_small by lia.
Qed.

Lemma ip_reduce t : 0 <= t < 2 ^ 54 -> ip_reduce_p36 t = t mod p36 mod 2 ^ 32.
Proof.
  intros Ht. unfold ip_reduce_p36, p36, SshUmac.p36. change m36 with (Z.ones 36). rewrite Z.land_ones, Z.shiftr_div_pow2 by lia.
  rewrite (u64_small (5 * _)), (u64_small (_ + _)) by (Z.div_mod_to_equations; lia).
  assert (t mod (2 ^ 36 - 5) = let ret := t mod 2 ^ 36 + 5 * (t / 2 ^ 36) in if ret >=? 68719476731 then ret - 68719476731 else ret) as ->.
  { symmetry. cbv zeta. set (ret := t mod 2 ^ 36 + 5 * (t / 2 ^ 36)).
    assert (0 <= ret < 2 * (2 ^ 36 - 5)) by (unfold ret; Z.div_mod_to_equations; lia).
    pose proof (Z.div_mod t (2 ^ 36) ltac:(lia)) as E.
    destruct (ret >=? _) eqn:E1; zbool.
    - apply (Zmod_unique_full _ _ (t / 2 ^ 36 + 1)); [left; lia|]. unfold ret. lia.
    - apply (Zmod_unique_full _ _ (t / 2 ^ 36)); [left; lia|]. unfold ret. lia. }
  cbv zeta. set (ret := t mod 2 ^ 36 + 5 * (t / 2 ^ 36)). assert (0 <= ret < 2 ^ 37) by (unfold ret; Z.div_mod_to_equations; lia).
  destruct (ret >=? _) eqn:E; zbool; [|done]. by rewrite u64_small by lia.
Qed.

(** ** Words of keys *)

Lemma window {A} a b n (l : list A) : (a + b <= n)%nat -> take a (drop b (take n l)) = take a (drop b l).
Proof. intros H. rewrite skipn_firstn_comm, take_take. f_equal. lia. Qed.

Lemma str2uint_acc s : forall v, foldl (fun v b => v * 256 + b) v s = v * 256 ^ zlen s + str2uint s.
Proof.
  induction s as [|b s IH]; intros v; [change (v = v * 256 ^ 0 + 0); lia|].
  unfold str2uint. cbn [foldl]. rewrite IH, (IH (0 * 256 + b)).
  replace (zlen (b :: s)) with (zlen s + 1) by (unfold zlen; cbn [length]; lia). rewrite Z.pow_add_r by (unfold zlen; lia). ring.
Qed.

Lemma str2uint_app a b : str2uint (a ++ b) = str2uint a * 256 ^ zlen b + str2uint b.
Proof. unfold str2uint. rewrite foldl_app. apply str2uint_acc. Qed.

Lemma str2uint_range s : bytes_ok s -> 0 <= str2uint s < 256 ^ zlen s.
Proof.
  induction s as [|b s IH] using rev_ind; intros Hs; [change (0 <= 0 < 256 ^ 0); lia|].
  apply Forall_app in Hs as [Hs Hb]. apply Forall_cons in Hb as [Hb _]. unfold is_u8 in Hb. specialize (IH Hs).
  rewrite str2uint_app, zlen_app. rewrite Z.pow_add_r by (unfold zlen; lia).
  change (256 ^ zlen [b]) with 256. change (str2uint [b]) with (0 * 256 + b). lia.
Qed.

Lemma big_word_range s i : bytes_ok s -> 0 <= big_word s i < 2 ^ 32.
Proof.
  intros Hs. assert (bytes_ok (take 4 (drop (4 * i) s))) as H by (by apply Forall_take, Forall_drop).
  pose proof (str2uint_range _ H) as Hr. unfold big_word. split; [apply Hr|].
  eapply Z.lt_le_trans; [apply Hr|]. change (2 ^ 32) with (256 ^ 4). apply Z.pow_le_mono_r; [lia|].
  unfold zlen. rewrite length_take. lia.
Qed.

Lemma convert4_word n : forall buf i, bytes_ok buf -> (4 * n <= length buf)%nat -> (i < n)%nat ->
  nth i (endian_convert4 buf n) 0 = big_word buf i.
Proof.
  induction n as [|n IH]; intros buf i Hb Hl Hi; [lia|]. cbn [endian_convert4]. destruct i as [|i]; cbn [nth].
  - rewrite load_big by (try done; lia). done.
  - rewrite IH by (try (by apply Forall_drop); try rewrite length_drop; lia). unfold big_word. rewrite drop_drop. do 3 f_equal. lia.
Qed.

Lemma convert4_length n : forall buf, length (endian_convert4 buf n) = n.
Proof. induction n as [|n IH]; intros buf; [done|]. cbn [endian_convert4 length]. by rewrite IH. Qed.

Definition big_word8 (s : list Z) (i : nat) : Z := str2uint (take 8 (drop (8 * i) s)).

Lemma convert8_word n : forall buf i, bytes_ok buf -> (8 * n <= length buf)%nat -> (i < n)%nat ->
  nth i (endian_convert8 buf n) 0 = big_word8 buf i.
Proof.
  induction n as [|n IH]; intros buf i Hb Hl Hi; [lia|]. cbn [endian_convert8]. destruct i as [|i]; cbn [nth].
  - rewrite !load_big by (try (by apply Forall_drop); try done; try rewrite length_drop; lia).
    unfold big_word8. rewrite drop_0. replace (take 8 buf) with (take 4 buf ++ take 4 (drop 4 buf)) by (by rewrite take_take_drop).
    rewrite str2uint_app. replace (zlen (take 4 (drop 4 buf))) with 4 by (unfold zlen; rewrite length_take, length_drop; lia).
    change (256 ^ 4) with (2 ^ 32). lia.
  - rewrite IH by (try (by apply Forall_drop); try rewrite length_drop; lia). unfold big_word8. rewrite drop_drop. do 3 f_equal. lia.
Qed.

Lemma convert8_length n : forall buf, length (endian_convert8 buf n) = n.
Proof. induction n as [|n IH]; intros buf; [done|]. cbn [endian_convert8 length]. by rewrite IH. Qed.

Lemma words_of4 buf n : bytes_ok buf -> (4 * n <= length buf)%nat -> endian_convert4 buf n = map (big_word buf) (seq 0 n).
Proof.
  intros Hb Hl. apply (nth_ext _ _ 0 0); [by rewrite convert4_length, length_map, length_seq|].
  rewrite convert4_length. intros i Hi. rewrite convert4_word by done.
  rewrite (nth_indep _ _ (big_word buf 0)) by (rewrite length_map, length_seq; done). rewrite map_nth, seq_nth by done. done.
Qed.

Lemma words_of8 buf n : bytes_ok buf -> (8 * n <= length buf)%nat -> endian_convert8 buf n = map (big_word8 buf) (seq 0 n).
Proof.
  intros Hb Hl. apply (nth_ext _ _ 0 0); [by rewrite convert8_length, length_map, length_seq|].
  rewrite convert8_length. intros i Hi. rewrite convert8_word by done.
  rewrite (nth_indep _ _ (big_word8 buf 0)) by (rewrite length_map, length_seq; done). rewrite map_nth, seq_nth by done. done.
Qed.

(** ** Key derivation *)

Section Keys.
Context {AE : Aes} {AL : AesLaws} (key : list Z).
Hypothesis Hkey : block key.

Lemma put_u64_small v : 0 <= v < 256 -> put_u64 v = replicate 7 0 ++ [v].
Proof.
  intros Hv. rewrite put_u64_split, !put_u32_bytes, (Z.div_small v (2 ^ 32)), (Z.mod_small v (2 ^ 32)) by lia.
  rewrite (Z.div_small v (2 ^ 24)), (Z.div_small v (2 ^ 16)), (Z.div_small v (2 ^ 8)), (Z.mod_small v 256) by lia. done.
Qed.

Lemma kdf_in_eq ndx i : 0 <= ndx < 256 -> 0 <= i < 256 -> kdf_in ndx i = put_u64 ndx ++ put_u64 i.
Proof. intros Hn Hi. unfold kdf_in. rewrite !put_u64_small, u8_small by done. by rewrite <- app_assoc. Qed.

Lemma kdf_in_block ndx i : 0 <= ndx < 256 -> block (kdf_in ndx i).
Proof.
  intros Hn. split; [done|]. unfold kdf_in. rewrite !Forall_app. repeat split; try (apply Forall_replicate; unfold is_u8; lia);
  (apply Forall_cons; split; [|done]); [done|apply u8_range].
Qed.

(** The blocks of a derived key. *)
Definition kdf_block (ndx : Z) (i : nat) : list Z := ENCIPHER key (put_u64 ndx ++ put_u64 (Z.of_nat i)).
Definition kdf_blocks (ndx : Z) (i n : nat) : list Z := concat (map (kdf_block ndx) (seq i n)).

Lemma kdf_block_ok ndx i : 0 <= ndx < 256 -> (i < 256)%nat -> block (kdf_block ndx i).
Proof using AL Hkey. intros Hn Hi. apply aes_block; [done|]. rewrite <- kdf_in_eq by lia. by apply kdf_in_block. Qed.

Lemma kdf_blocks_ok ndx n : forall i, 0 <= ndx < 256 -> (i + n <= 256)%nat ->
  length (kdf_blocks ndx i n) = (16 * n)%nat /\ bytes_ok (kdf_blocks ndx i n).
Proof using AL Hkey.
  induction n as [|n IH]; intros i Hn Hi; [done|]. unfold kdf_blocks. cbn [seq map concat].
  destruct (kdf_block_ok ndx i) as [E1 H1]; [lia..|]. destruct (IH (S i)) as [E2 H2]; [lia..|]. unfold kdf_blocks in *.
  rewrite length_app, E1, E2. split; [lia|by apply Forall_app].
Qed.

Lemma kdf_loop_eq ndx n : forall i, 0 <= ndx < 256 -> (i + n <= 256)%nat ->
  kdf_loop n (aes_key_setup key) ndx (Z.of_nat i) = (kdf_blocks ndx i n, Z.of_nat (i + n)).
Proof using AL Hkey.
  induction n as [|n IH]; intros i Hn Hi; [by rewrite Nat.add_0_r|]. cbn [kdf_loop].
  replace (Z.of_nat i + 1) with (Z.of_nat (S i)) by lia. rewrite IH by lia. rewrite kdf_in_eq by lia.
  change (aes_encryption _ _) with (kdf_block ndx i). destruct (kdf_block_ok ndx i) as [E1 H1]; [lia..|].
  unfold AES_BLOCK_LEN. rewrite take_ge by lia. f_equal. lia.
Qed.

Lemma kdf_blocks_split ndx i n m : kdf_blocks ndx i (n + m) = kdf_blocks ndx i n ++ kdf_blocks ndx (i + n) m.
Proof. unfold kdf_blocks. by rewrite seq_app, map_app, concat_app. Qed.

(** The RFC takes the bytes from the front of the blocks. *)
Lemma KDF_blocks ndx nbytes n : 0 <= ndx < 256 -> (nbytes <= 16 * n)%nat -> (n <= 128)%nat ->
  KDF key ndx nbytes = take nbytes (kdf_blocks ndx 1 n).
Proof using AL Hkey.
  intros Hn Hb Hm. unfold KDF. change (concat _) with (kdf_blocks ndx 1 (S (nbytes / 16))).
  pose proof (Nat.div_mod nbytes 16 ltac:(lia)). pose proof (Nat.mod_upper_bound nbytes 16 ltac:(lia)).
  destruct (Nat.le_ge_cases n (S (nbytes / 16))) as [H1|H1].
  - rewrite <- (Nat.sub_add _ _ H1), Nat.add_comm, kdf_blocks_split.
    rewrite take_app_le; [done|]. destruct (kdf_blocks_ok ndx n 1) as [-> _]; lia.
  - rewrite <- (Nat.sub_add _ _ H1) at 1. rewrite Nat.add_comm, kdf_blocks_split.
    rewrite take_app_le; [done|]. destruct (kdf_blocks_ok ndx (S (nbytes / 16)) 1) as [-> _]; lia.
Qed.

Lemma kdf_eq ndx nbytes : 0 <= ndx < 256 -> (nbytes <= 2032)%nat -> kdf (aes_key_setup key) ndx nbytes = KDF key ndx nbytes.
Proof using AL Hkey.
  intros Hn Hb. pose proof (Nat.div_mod nbytes 16 ltac:(lia)) as E. pose proof (Nat.mod_upper_bound nbytes 16 ltac:(lia)) as Hm.
  unfold kdf, AES_BLOCK_LEN in *. change 1 with (Z.of_nat 1). rewrite kdf_loop_eq by lia.
  rewrite (KDF_blocks _ _ (nbytes / 16 + 1)) by lia. rewrite kdf_blocks_split.
  destruct (kdf_blocks_ok ndx (nbytes / 16) 1) as [E1 _]; [lia..|]. rewrite take_app, E1, (take_ge (kdf_blocks _ _ _)) by lia.
  replace (nbytes - _)%nat with (nbytes mod 16)%nat by lia. destruct (Nat.eqb_spec (nbytes mod 16) 0) as [-> |Hne].
  - by rewrite take_0, app_nil_r.
  - unfold kdf_blocks. cbn [seq map concat]. rewrite app_nil_r. f_equal. f_equal.
    rewrite kdf_in_eq by lia. done.
Qed.

Lemma KDF_ok ndx nbytes : 0 <= ndx < 256 -> (nbytes <= 2032)%nat ->
  length (KDF key ndx nbytes) = nbytes /\ bytes_ok (KDF key ndx nbytes).
Proof using AL Hkey.
  intros Hn Hb. rewrite (KDF_blocks _ _ 127) by lia. destruct (kdf_blocks_ok ndx 127 1) as [E H]; [lia..|].
  split; [rewrite length_take; lia|by apply Forall_take].
Qed.

Lemma KDF_take ndx n m : 0 <= ndx < 256 -> (n <= m)%nat -> (m <= 2032)%nat -> KDF key ndx n = take n (KDF key ndx m).
Proof using AL Hkey. intros Hn H1 H2. rewrite !(KDF_blocks _ _ 127) by lia. rewrite take_take. f_equal. lia. Qed.

End Keys.

(** ** The last layer *)

Lemma land255_lxor a b n : 0 <= n ->
  Z.land (u8 (Z.shiftr (Z.lxor a b) n)) 255 = Z.lxor (Z.land (u8 (Z.shiftr a n)) 255) (Z.land (u8 (Z.shiftr b n)) 255).
Proof.
  intros Hn. unfold u8. change 256 with (2 ^ 8). change 255 with (Z.ones 8). rewrite <- !Z.land_ones by lia.
  apply Z.bits_inj'. intros i Hi. rewrite !Z.lxor_spec, !Z.land_spec, !Z.shiftr_spec, Z.lxor_spec by lia.
  by destruct (Z.testbit a _), (Z.testbit b _), (Z.testbit (Z.ones 8) i).
Qed.

Lemma put_u32_lxor a b : put_u32 (Z.lxor a b) = xor_bytes (put_u32 a) (put_u32 b).
Proof.
  unfold put_u32, xor_bytes. cbn [zip_with]. rewrite !land255_lxor by lia.
  pose proof (land255_lxor a b 0 ltac:(lia)) as E. rewrite !Z.shiftr_0_r in E. by rewrite E.
Qed.

Lemma put_str2uint l : bytes_ok l -> length l = 4%nat -> put_u32 (str2uint l) = l.
Proof.
  intros Hl E. destruct l as [|a [|b [|c [|d [|]]]]]; try done. rewrite !Forall_cons in Hl. destruct Hl as (Ha & Hb & Hc & Hd & _).
  unfold is_u8 in *. change (str2uint [a; b; c; d]) with ((((0 * 256 + a) * 256 + b) * 256 + c) * 256 + d).
  rewrite put_u32_bytes. repeat f_equal; Z.div_mod_to_equations; lia.
Qed.

Lemma put_u64_bytes v : put_u64 v =
  [v / 2 ^ 56 mod 256; v / 2 ^ 48 mod 256; v / 2 ^ 40 mod 256; v / 2 ^ 32 mod 256;
   v / 2 ^ 24 mod 256; v / 2 ^ 16 mod 256; v / 2 ^ 8 mod 256; v mod 256].
Proof. unfold put_u64. rewrite !land_255_u8, !u8_shiftr by lia. done. Qed.

(** The sum of the RFC has 8 terms, the first four of them 0. *)
Definition l3_sum (k : nat -> Z) (d : Z) : Z :=
  k 4%nat * (d / 2 ^ 48) + k 5%nat * (d / 2 ^ 32 mod 2 ^ 16) + k 6%nat * (d / 2 ^ 16 mod 2 ^ 16) + k 7%nat * (d mod 2 ^ 16).

Lemma L3_sum K1 K2 d : 0 <= d < 2 ^ 64 ->
  L3_HASH K1 K2 d = xor_bytes (put_u32 (l3_sum (fun i => str2uint (take 8 (drop (8 * i) K1)) mod p36) d mod p36 mod 2 ^ 32)) K2.
Proof.
  intros Hd. unfold L3_HASH. cbv zeta. set (k := fun i => str2uint (take 8 (drop (8 * i) K1)) mod p36).
  rewrite put_u64_bytes. do 5 f_equal. unfold l3_sum. cbn [map seq foldr].
  change (str2uint (take 2 (drop (2 * 0) _))) with 0. change (str2uint (take 2 (drop (2 * 1) _))) with 0.
  change (str2uint (take 2 (drop (2 * 2) _))) with 0. change (str2uint (take 2 (drop (2 * 3) _))) with 0.
  change (str2uint (take 2 (drop (2 * 4) _))) with ((0 * 256 + d / 2 ^ 56 mod 256) * 256 + d / 2 ^ 48 mod 256).
  change (str2uint (take 2 (drop (2 * 5) _))) with ((0 * 256 + d / 2 ^ 40 mod 256) * 256 + d / 2 ^ 32 mod 256).
  change (str2uint (take 2 (drop (2 * 6) _))) with ((0 * 256 + d / 2 ^ 24 mod 256) * 256 + d / 2 ^ 16 mod 256).
  change (str2uint (take 2 (drop (2 * 7) _))) with ((0 * 256 + d / 2 ^ 8 mod 256) * 256 + d mod 256).
  replace ((0 * 256 + d / 2 ^ 56 mod 256) * 256 + d / 2 ^ 48 mod 256) with (d / 2 ^ 48) by (Z.div_mod_to_equations; lia).
  replace ((0 * 256 + d / 2 ^ 40 mod 256) * 256 + d / 2 ^ 32 mod 256) with (d / 2 ^ 32 mod 2 ^ 16) by (Z.div_mod_to_equations; lia).
  replace ((0 * 256 + d / 2 ^ 24 mod 256) * 256 + d / 2 ^ 16 mod 256) with (d / 2 ^ 16 mod 2 ^ 16) by (Z.div_mod_to_equations; lia).
  replace ((0 * 256 + d / 2 ^ 8 mod 256) * 256 + d mod 256) with (d mod 2 ^ 16) by (Z.div_mod_to_equations; lia).
  subst k. cbv beta. ring.
Qed.

(** ** The keys of a context *)

Section Context_keys.
Context {AE : Aes} {AL : AesLaws} (key : list Z).
Hypothesis Hkey : block key.

Abbreviation L1Key := (KDF key 1 1040).
Abbreviation L3Key1 i := (take 64 (drop (64 * i) (KDF key 3 128))).
Abbreviation L3Key2 i := (take 4 (drop (4 * i) (KDF key 4 8))).
Definition k64 (i : nat) : Z :=
  Z.land (str2uint (take 8 (take 24 (drop (24 * i) (KDF key 2 48))))) (str2uint [1; 255; 255; 255; 1; 255; 255; 255]).
Definition l3_key (i j : nat) : Z := str2uint (take 8 (drop (8 * j) (L3Key1 i))) mod p36.

Record keys_ok (hc : uhash_ctx) : Prop := {
  nh_words : nh_key (hash hc) = map (big_word L1Key) (seq 0 260);
  poly_words : poly_key_8 hc = map k64 streams;
  ip_words : ip_keys hc = concat (map (fun i => map (l3_key i) (seq 4 4)) streams);
  trans_words : ip_trans hc = map (fun i => str2uint (L3Key2 i)) streams
}.

Lemma k64_key i : (i < 2)%nat -> poly_key (k64 i).
Proof using AL Hkey.
  intros Hi. unfold k64. set (s := take 8 _). assert (bytes_ok s /\ length s = 8%nat) as [Hs El].
  { destruct (KDF_ok key Hkey 2 48) as [E H]; [lia..|]. split; [by apply Forall_take, Forall_take, Forall_drop|].
    unfold s. rewrite !length_take, length_drop. lia. }
  pose proof (str2uint_range s Hs) as Hr. unfold zlen in Hr. rewrite El in Hr. change (256 ^ Z.of_nat 8) with (2 ^ 64) in Hr.
  change (str2uint [1; 255; 255; 255; 1; 255; 255; 255]) with (Z.shiftl (Z.ones 25) 32 + Z.ones 25).
  assert (Z.land (str2uint s) (Z.shiftl (Z.ones 25) 32 + Z.ones 25) = str2uint s / 2 ^ 32 mod 2 ^ 25 * 2 ^ 32 + str2uint s mod 2 ^ 25) as ->.
  { change (Z.shiftl (Z.ones 25) 32 + Z.ones 25) with (Z.lor (Z.ones 25 * 2 ^ 32) (Z.ones 25)).
    rewrite Z.land_lor_distr_r, Z.land_ones, land_low_mask by lia.
    pose proof (Z.mod_pos_bound (str2uint s) (2 ^ 25) ltac:(lia)). apply lor_disjoint_add; lia. }
  unfold poly_key. pose proof (Z.mod_pos_bound (str2uint s) (2 ^ 25) ltac:(lia)). pose proof (Z.mod_pos_bound (str2uint s / 2 ^ 32) (2 ^ 25) ltac:(lia)).
  set (q := _ mod 2 ^ 25) in *. set (r := _ mod 2 ^ 25) in *. clearbody q r. Z.div_mod_to_equations. lia.
Qed.

Lemma l3_key_range i j : 0 <= l3_key i j < p36.
Proof. apply Z.mod_pos_bound. done. Qed.

Lemma ip_window (l : list Z) i j : (i < 2)%nat -> (j < 4)%nat -> (128 <= length l)%nat ->
  take 8 (drop (8 * (4 * i + j)) (concat (map (fun i => take 32 (drop ((8 * i + 4) * 8) l)) streams))) =
  take 8 (drop (64 * i + 8 * (4 + j)) l).
Proof.
  intros Hi Hj Hl. change (concat _) with (take 32 (drop 32 l) ++ take 32 (drop 96 l) ++ []). rewrite app_nil_r.
  assert (length (take 32 (drop 32 l)) = 32%nat) as E by (rewrite length_take, length_drop; lia). destruct i as [|[|]]; [| |lia].
  - rewrite drop_app_le, take_app_le by (rewrite ?length_drop, E; lia). rewrite window, drop_drop by lia. do 2 f_equal. lia.
  - rewrite drop_app_ge, E by (rewrite E; lia). rewrite window, drop_drop by lia. do 2 f_equal. lia.
Qed.

Lemma uhash_init_keys : keys_ok (uhash_init (aes_key_setup key)).
Proof using AL Hkey.
  unfold uhash_init. destruct (KDF_ok key Hkey 1 1040) as [E1 H1]; [lia..|]. destruct (KDF_ok key Hkey 2 160) as [E2 H2]; [lia..|].
  destruct (KDF_ok key Hkey 3 160) as [E3 H3]; [lia..|]. destruct (KDF_ok key Hkey 4 8) as [E4 H4]; [lia..|].
  split; cbn -[kdf KDF endian_convert4 endian_convert8 seq map Nat.mul Nat.add].
  - unfold NH_KEY_BYTES. rewrite (kdf_eq key Hkey) by lia. apply words_of4; [done|]. rewrite E1. cbn. lia.
  - unfold UHASH_BUF. rewrite (kdf_eq key Hkey) by lia. apply map_ext_in. intros i Hi%in_seq. unfold STREAMS in Hi. unfold k64.
    rewrite convert8_word; [|by apply Forall_take, Forall_drop|rewrite length_take, length_drop; lia|lia].
    f_equal. unfold big_word8. rewrite drop_0, !take_take, (KDF_take key Hkey 2 48 160), window by lia. done.
  - unfold UHASH_BUF. rewrite (kdf_eq key Hkey) by lia. set (buf := concat _).
    assert (length buf = 64%nat /\ bytes_ok buf) as [El Hb].
    { split; [|repeat apply Forall_app_2; try done; by apply Forall_take, Forall_drop].
      unfold buf. cbn [concat map streams seq STREAMS]. rewrite !length_app, !length_take, !length_drop, E3. done. }
    change (STREAMS * 4)%nat with 8%nat. rewrite words_of8, map_map by (try done; lia).
    assert (forall i j, (i < 2)%nat -> (j < 4)%nat -> big_word8 buf (4 * i + j) mod p36 = l3_key i (4 + j)) as Hw.
    { intros i j Hi Hj. unfold l3_key, big_word8. f_equal. f_equal. rewrite (KDF_take key Hkey 3 128 160), (window (8 : nat)) by lia.
      rewrite drop_drop, window by lia. unfold buf. apply ip_window; [lia..|rewrite E3; lia]. }
    change (concat _) with (map (fun n => l3_key (n / 4) (4 + n mod 4)) (seq 0 8)). apply map_ext_in. intros n Hn%in_seq.
    pose proof (Nat.mod_upper_bound n 4 ltac:(lia)). pose proof (Nat.div_mod n 4 ltac:(lia)) as E. rewrite <- Hw, <- E by lia. done.
  - rewrite (kdf_eq key Hkey) by (unfold STREAMS; lia). change (STREAMS * 4)%nat with 8%nat. apply words_of4; [done|]. rewrite E4. done.
Qed.
(** ** The layers of a context *)

Lemma ip_word_eq hc i d : keys_ok hc -> (i < 2)%nat -> 0 <= d < 2 ^ 64 -> ip_word hc i d = L3_HASH (L3Key1 i) (L3Key2 i) d.
Proof using AL Hkey.
  intros Hc Hi Hd. rewrite L3_sum by done. unfold ip_word.
  assert (exists l, drop (4 * i) (ip_keys hc) = l3_key i 4 :: l3_key i 5 :: l3_key i 6 :: l3_key i 7 :: l) as [l El].
  { rewrite (ip_words hc Hc). destruct i as [|[|]]; [| |lia]; by eexists. }
  rewrite El. destruct (ip_sum (l3_key i 4) (l3_key i 5) (l3_key i 6) (l3_key i 7) l d Hd) as [-> Hr];
    [repeat apply Forall_cons_2; try done; apply l3_key_range|].
  rewrite ip_reduce by done. change (_ + _) with (l3_sum (l3_key i) d) in *.
  assert (nth i (ip_trans hc) 0 = str2uint (L3Key2 i)) as -> by (rewrite (trans_words hc Hc); destruct i as [|[|]]; [done..|lia]).
  destruct (KDF_ok key Hkey 4 8) as [E4 H4]; [lia..|].
  assert (bytes_ok (L3Key2 i)) as Hb by (by apply Forall_take, Forall_drop).
  assert (length (L3Key2 i) = 4%nat) as E by (rewrite length_take, length_drop; lia).
  pose proof (str2uint_range _ Hb) as Hs. unfold zlen in Hs. rewrite E in Hs.
  rewrite store_big by (apply (lxor_range 32); [lia|apply Z.mod_pos_bound; lia|done]).
  by rewrite put_u32_lxor, put_str2uint.
Qed.

(** The accumulators of the polynomial hash stand for the values [ys]. *)
Definition accum_ok (hc : uhash_ctx) (y : nat -> Z) : Prop :=
  exists a0 a1, poly_accum hc = [a0; a1] /\ 0 <= a0 < 2 ^ 64 /\ 0 <= a1 < 2 ^ 64 /\ a0 mod p64 = y 0%nat /\ a1 mod p64 = y 1%nat.

Lemma poly_hash_accum hc y d : keys_ok hc -> accum_ok hc y -> 0 <= d.1 < 2 ^ 64 -> 0 <= d.2 < 2 ^ 64 ->
  accum_ok (poly_hash hc d) (fun i => poly_step (k64 i) (y i) (if (i =? 0)%nat then d.1 else d.2)).
Proof using AL Hkey.
  intros Hc (a0 & a1 & Ea & H0 & H1 & E0 & E1) Hd0 Hd1. unfold poly_hash. rewrite (poly_words hc Hc), Ea.
  exists (poly_word a0 (k64 0) d.1), (poly_word a1 (k64 1) d.2). split; [done|].
  pose proof (poly_word_spec _ _ _ _ H0 (k64_key 0 ltac:(lia)) Hd0 E0). pose proof (poly_word_spec _ _ _ _ H1 (k64_key 1 ltac:(lia)) Hd1 E1).
  tauto.
Qed.

Lemma poly_hash_keys hc d : keys_ok hc -> keys_ok (poly_hash hc d).
Proof. by intros []. Qed.

Lemma ip_long_eq hc y : keys_ok hc -> accum_ok hc y ->
  ip_long hc = L3_HASH (L3Key1 0) (L3Key2 0) (y 0%nat) ++ L3_HASH (L3Key1 1) (L3Key2 1) (y 1%nat).
Proof using AL Hkey.
  intros Hc (a0 & a1 & Ea & H0 & H1 & E0 & E1).
  assert (forall a, 0 <= a < 2 ^ 64 -> (if a >=? SshUmac.p64 then u64 (a - SshUmac.p64) else a) = a mod p64 /\ 0 <= a mod p64 < 2 ^ 64) as Hr.
  { intros a Ha. pose proof (Z.mod_pos_bound a p64 ltac:(done)). unfold p64, SshUmac.p64 in *. split; [|lia].
    destruct (a >=? _) eqn:E; zbool; [rewrite u64_small by lia|]; Z.div_mod_to_equations; lia. }
  unfold ip_long. cbn [map concat streams seq STREAMS]. rewrite Ea. cbn [nth]. rewrite app_nil_r.
  destruct (Hr a0 H0) as [-> ?], (Hr a1 H1) as [-> ?]. rewrite !ip_word_eq by (done || lia). by rewrite E0, E1.
Qed.

End Context_keys.

(** ** The pad *)

Lemma put_u64_str2uint l : bytes_ok l -> length l = 8%nat -> put_u64 (str2uint l) = l.
Proof.
  intros Hl E. rewrite <- (take_drop 4 l) at 1. rewrite str2uint_app.
  assert (bytes_ok (drop 4 l)) as Hd by (by apply Forall_drop). assert (length (drop 4 l) = 4%nat) as Ed by (rewrite length_drop; lia).
  pose proof (str2uint_range _ Hd) as Hr. unfold zlen in *. rewrite Ed in *. change (256 ^ Z.of_nat 4) with (2 ^ 32) in *.
  rewrite put_u64_split, Z.div_add_l, (Z.div_small (str2uint _)), Z.add_0_r, (Z.add_comm (_ * _)), Z_mod_plus_full, Z.mod_small by lia.
  rewrite !put_str2uint by (try (by apply Forall_take); try rewrite length_take; try done; lia). apply take_drop.
Qed.

(** The nonce without its last bit. *)
Lemma nonce_even n : bytes_ok n -> length n = 8%nat ->
  slice 0 4 n ++ slice 4 3 n ++ [Z.land (znth 0 n 7) (255 - LOW_BIT_MASK)] = put_u64 (str2uint n - str2uint n mod 2) /\
  Z.land (znth 0 n 7) LOW_BIT_MASK = str2uint n mod 2.
Proof.
  intros Hn En. destruct n as [|a [|b [|c [|d [|e [|f [|g [|h [|]]]]]]]]]; try done.
  set (l := [a; b; c; d; e; f; g]). assert ([a; b; c; d; e; f; g; h] = l ++ [h]) as El by done. rewrite El in *.
  apply Forall_app in Hn as [Hl Hh]. apply Forall_cons in Hh as [Hh _]. unfold is_u8 in Hh.
  change (znth 0 (l ++ [h]) 7) with h. change (slice 0 4 (l ++ [h]) ++ slice 4 3 (l ++ [h]) ++ [Z.land h (255 - LOW_BIT_MASK)]) with (l ++ [Z.land h 254]).
  rewrite str2uint_app. change (zlen [h]) with 1. change (str2uint [h]) with (0 * 256 + h). unfold LOW_BIT_MASK.
  change 1 with (Z.ones 1) at 3. rewrite Z.land_ones by lia. change (2 ^ 1) with 2. change 254 with (Z.ones 7 * 2 ^ 1).
  assert ((str2uint l * 256 ^ 1 + (0 * 256 + h)) mod 2 = h mod 2) as -> by (Z.div_mod_to_equations; lia). split; [|done].
  rewrite land_low_mask by lia. assert (h / 2 ^ 1 mod 2 ^ 7 * 2 ^ 1 = h - h mod 2) as -> by (Z.div_mod_to_equations; lia).
  rewrite <- (put_u64_str2uint (l ++ [h - h mod 2])); [|apply Forall_app_2; [done|]; apply Forall_cons; split; [|done]; unfold is_u8; Z.div_mod_to_equations; lia|done].
  f_equal. rewrite str2uint_app. change (zlen [h - h mod 2]) with 1. change (str2uint [h - h mod 2]) with (0 * 256 + (h - h mod 2)). lia.
Qed.

Section Pad.
Context {AE : Aes} {AL : AesLaws} (key : list Z).
Hypothesis Hkey : block key.

(** The cache holds the pad of the nonce that is kept. *)
Definition pdf_ok (pc : pdf_ctx) : Prop :=
  prf_key pc = aes_key_setup (KDF key 0 16) /\ cache pc = aes_encryption (prf_key pc) (nonce pc) /\
  exists n, nonce pc = n ++ replicate 8 0 /\ length n = 8%nat.

Lemma pdf_init_ok : pdf_ok (pdf_init (aes_key_setup key)).
Proof using AL Hkey.
  unfold pdf_init, UMAC_KEY_LEN. rewrite (kdf_eq key Hkey) by lia. split; [done|]. split; [done|]. by exists (replicate 8 0).
Qed.

Lemma pdf_cache pc n (e := slice 4 3 n ++ [Z.land (znth 0 n 7) (255 - LOW_BIT_MASK)]) :
  pdf_ok pc -> length n = 8%nat ->
  let pc' := (if bool_decide (e <> slice 4 4 (nonce pc)) || bool_decide (slice 0 4 n <> slice 0 4 (nonce pc)) then
      mkPdf (aes_encryption (prf_key pc) (slice 0 4 n ++ e ++ drop 8 (nonce pc))) (slice 0 4 n ++ e ++ drop 8 (nonce pc)) (prf_key pc)
    else pc) in
  pdf_ok pc' /\ nonce pc' = slice 0 4 n ++ e ++ replicate 8 0.
Proof.
  intros (Ek & Ec & n0 & En & El) Hn. cbv zeta.
  assert (length e = 4%nat) as Ee by (unfold e, slice; rewrite length_app, length_take, length_drop; cbn -[Nat.sub]; lia).
  assert (length (slice 0 4 n) = 4%nat) as Ef by (unfold slice; rewrite length_take, length_drop; cbn -[Nat.sub]; lia).
  assert (drop 8 (nonce pc) = replicate 8 0) as -> by (rewrite En; by rewrite <- El, drop_app_length).
  destruct (bool_decide (e <> _)) eqn:E1; cbn [orb].
  { split; [|done]. split; [done|]. split; [done|]. exists (slice 0 4 n ++ e). rewrite length_app, <- app_assoc. split; [done|]. cbn [length] in *. lia. }
  destruct (bool_decide (slice 0 4 n <> _)) eqn:E2.
  { split; [|done]. split; [done|]. split; [done|]. exists (slice 0 4 n ++ e). rewrite length_app, <- app_assoc. split; [done|]. cbn [length] in *. lia. }
  apply bool_decide_eq_false_1 in E1, E2. apply dec_stable in E1, E2. split; [split; [done|split; [done|by exists n0]]|].
  rewrite E1, E2, En. destruct n0 as [|a [|b [|c [|d [|e0 [|f [|g [|h [|]]]]]]]]]; done.
Qed.

Lemma pdf_gen_xor_eq pc n buf : pdf_ok pc -> bytes_ok n -> length n = 8%nat ->
  (pdf_gen_xor pc n buf).1 = xor_bytes buf (PDF key n) /\ pdf_ok (pdf_gen_xor pc n buf).2.
Proof.
  intros Hp Hn En. unfold pdf_gen_xor. destruct (pdf_cache pc n Hp En) as [Hok Hno]. cbv zeta in *.
  set (pc' := if _ || _ then _ else pc) in *. split; [|done]. cbn [fst]. destruct Hok as (Ek & Ec & _).
  destruct (nonce_even n Hn En) as [Ev ->].
  rewrite Ec, Hno, Ek. unfold PDF. cbv zeta. rewrite <- Ev, <- !app_assoc. done.
Qed.

End Pad.

(** ** NH *)

Definition nh_pair (k d : list Z) (i : nat) : Z :=
  u32 (nth i k 0 + load32 (drop (4 * i) d)) * u32 (nth (i + 4) k 0 + load32 (drop (4 * (i + 4)) d)).

Definition nh_block (k d : list Z) : Z := nh_pair k d 0 + nh_pair k d 1 + nh_pair k d 2 + nh_pair k d 3.

(** The sum over [c] blocks of 32 bytes. *)
Fixpoint nh_sum (c : nat) (k d : list Z) : Z :=
  match c with
  | O => 0
  | S c => nh_block k d + nh_sum c (drop 8 k) (drop 32 d)
  end.

Lemma u64_add_l a b : u64 (u64 a + b) = u64 (a + b).
Proof. unfold u64. by rewrite Z.add_mod_idemp_l. Qed.
Lemma u64_add_r a b : u64 (a + u64 b) = u64 (a + b).
Proof. unfold u64. by rewrite Z.add_mod_idemp_r. Qed.
Lemma u64_u64 a : u64 (u64 a) = u64 a.
Proof. unfold u64. by rewrite Z.mod_mod. Qed.

Lemma u64_sum4 h a b c d : u64 (u64 (u64 (u64 (u64 h + u64 a) + u64 b) + u64 c) + u64 d) = u64 (h + (a + b + c + d)).
Proof. unfold u64. Z.div_mod_to_equations. lia. Qed.

(** Both streams: the second uses the key from its fifth word on. *)
Lemma nh_loop_eq c : forall k d h1 h2,
  nh_loop c (nth 0 k 0) (nth 1 k 0) (nth 2 k 0) (nth 3 k 0) k d (u64 h1, u64 h2) =
  (u64 (h1 + nh_sum c k d), u64 (h2 + nh_sum c (drop 4 k) d)).
Proof.
  induction c as [|c IH]; intros k d h1 h2; cbn [nh_loop nh_sum]; [by rewrite !Z.add_0_r|].
  unfold MUL64, LOAD_UINT32_LITTLE. rewrite !u64_sum4.
  pose proof (IH (drop 8 k) (drop 32 d)) as E. rewrite !nth_skipn in E. cbn [Nat.add] in E. rewrite E.
  rewrite !drop_drop. unfold nh_block, nh_pair. rewrite !nth_skipn. cbn [Nat.add Nat.mul]. by rewrite !Z.add_assoc, drop_0.
Qed.

Lemma nh_sum_split a : forall b k d, nh_sum (a + b) k d = nh_sum a k d + nh_sum b (drop (8 * a) k) (drop (32 * a) d).
Proof.
  induction a as [|a IH]; intros b k d; [done|]. cbn [nh_sum Nat.add]. rewrite IH, !drop_drop.
  replace (8 + 8 * a)%nat with (8 * S a)%nat by lia. replace (32 + 32 * a)%nat with (32 * S a)%nat by lia. ring.
Qed.

Lemma load32_take n p : (4 <= n)%nat -> load32 (take n p) = load32 p.
Proof. intros Hn. unfold load32, znth. do 4 (destruct n as [|n]; [lia|]). destruct p as [|a [|b [|c [|d p]]]]; done. Qed.

(** A sum depends on the bytes of its blocks only. *)
Lemma nh_sum_take c : forall k n d, (32 * c <= n)%nat -> nh_sum c k (take n d) = nh_sum c k d.
Proof.
  induction c as [|c IH]; intros k n d Hn; [done|]. cbn [nh_sum]. rewrite skipn_firstn_comm, IH by lia. f_equal.
  unfold nh_block, nh_pair. rewrite !skipn_firstn_comm, !load32_take by lia. done.
Qed.

Lemma nh_sum_app c k d e : (32 * c <= length d)%nat -> nh_sum c k (d ++ e) = nh_sum c k d.
Proof. intros Hc. rewrite <- (nh_sum_take c k (length d) (d ++ e)) by lia. by rewrite take_app_length. Qed.

Lemma nh_aux_eq k d h1 h2 c : (0 < c)%nat ->
  nh_aux k d (u64 h1, u64 h2) (32 * Z.of_nat c) = (u64 (h1 + nh_sum c k d), u64 (h2 + nh_sum c (drop 4 k) d)).
Proof.
  intros Hc. unfold nh_aux. replace (32 * Z.of_nat c / 32) with (Z.of_nat c) by (Z.div_mod_to_equations; lia).
  destruct (_ =? 0) eqn:E; zbool; [lia|]. rewrite Nat2Z.id. apply nh_loop_eq.
Qed.

Lemma nh_pair_drop k d i : nh_pair (drop 8 k) (drop 32 d) i = nh_pair k d (8 + i).
Proof.
  unfold nh_pair. rewrite !nth_skipn, !drop_drop.
  replace (32 + 4 * i)%nat with (4 * (8 + i))%nat by lia. replace (32 + 4 * (i + 4))%nat with (4 * (8 + i + 4))%nat by lia. done.
Qed.

Lemma nh_sum_index c : forall k d, nh_sum c k d = foldr Z.add 0 (map (fun b =>
  nh_pair k d (8 * b) + nh_pair k d (8 * b + 1) + nh_pair k d (8 * b + 2) + nh_pair k d (8 * b + 3)) (seq 0 c)).
Proof.
  induction c as [|c IH]; intros k d; [done|]. cbn [nh_sum]. rewrite IH. cbn [seq map foldr]. f_equal.
  rewrite <- seq_shift, map_map. f_equal. apply map_ext. intros b. rewrite !nh_pair_drop.
  replace (8 + 8 * b)%nat with (8 * S b)%nat by lia. rewrite !Nat.add_assoc. by replace (8 + 8 * b)%nat with (8 * S b)%nat by lia.
Qed.

Lemma NH_sum K M k c : length M = (32 * c)%nat -> (forall w, (w < 8 * c)%nat -> nth w k 0 = big_word K w) ->
  NH K M = u64 (nh_sum c k M).
Proof.
  intros El Hk. unfold NH. cbv zeta. rewrite El, Nat.mul_comm, Nat.div_mul, nh_sum_index by lia. unfold u64. f_equal. f_equal.
  apply map_ext_in. intros b Hb%in_seq.
  assert (forall i, (i + 4 < 8 * c)%nat -> (little_word M i + big_word K i) mod 2 ^ 32 *
    ((little_word M (i + 4) + big_word K (i + 4)) mod 2 ^ 32) = nh_pair k M i) as Hp.
  { intros i Hi. unfold nh_pair. rewrite !Hk by lia. rewrite !load_little by (rewrite length_drop; lia).
    unfold little_word, u32. by rewrite !(Z.add_comm (big_word _ _)). }
  by rewrite !Hp by lia.
Qed.

Lemma zeropad_length M : (length (zeropad M) = 32 * (if (length M =? 0)%nat then 1 else (length M + 31) / 32))%nat.
Proof.
  unfold zeropad. rewrite length_app, length_replicate. destruct (Nat.eqb_spec (length M) 0) as [->|H]; [done|].
  unfold zlen. pose proof (Nat.div_mod (length M + 31) 32 ltac:(lia)). pose proof (Nat.mod_upper_bound (length M + 31) 32 ltac:(lia)).
  pose proof (Z.mod_pos_bound (- Z.of_nat (length M)) 32 ltac:(lia)). pose proof (Z.div_mod (- Z.of_nat (length M)) 32 ltac:(lia)). lia.
Qed.

(** ** The context of NH *)

(** The sums of both streams over [c] blocks. *)
Definition nh_state (c : nat) (k x : list Z) : Z * Z := (u64 (nh_sum c k x), u64 (nh_sum c (drop 4 k) x)).

(** Whole buffers of 64 bytes were hashed. *)
Definition nh_core (hc : nh_ctx) (x : list Z) : Prop := exists q,
  length x = (64 * q)%nat /\ bytes_hashed hc = 64 * Z.of_nat q /\ length (data hc) = 64%nat /\ state hc = nh_state (2 * q) (nh_key hc) x.

(** [x] was put in since the context was reset: the end of it is in the buffer. *)
Definition nh_rep (hc : nh_ctx) (x : list Z) : Prop := exists x0 t,
  x = x0 ++ t /\ nh_core hc x0 /\ (length t < 64)%nat /\ next_data_empty hc = zlen t /\ take (length t) (data hc) = t.

Lemma nh_transform_eq hc x q b c : length x = (64 * q)%nat -> bytes_hashed hc = 64 * Z.of_nat q ->
  state hc = nh_state (2 * q) (nh_key hc) x -> (0 < c)%nat -> (32 * c <= length b)%nat ->
  nh_transform hc b (32 * Z.of_nat c) = nh_state (2 * q + c) (nh_key hc) (x ++ take (32 * c) b).
Proof.
  intros El Eb Es Hc Hb. unfold nh_transform. rewrite Es, Eb. unfold nh_state. rewrite nh_aux_eq by done.
  replace (Z.to_nat (64 * Z.of_nat q / 4)) with (8 * (2 * q))%nat by (Z.div_mod_to_equations; lia).
  assert (forall k, nh_sum (2 * q + c) k (x ++ take (32 * c) b) = nh_sum (2 * q) k x + nh_sum c (drop (8 * (2 * q)) k) b) as Hs.
  { intros k. rewrite nh_sum_split, nh_sum_app by lia. replace (32 * (2 * q))%nat with (length x) by lia.
    by rewrite drop_app_length, nh_sum_take by lia. }
  rewrite !Hs, !drop_drop, (Nat.add_comm 4). done.
Qed.

Lemma nh_core_add hc x b m : nh_core hc x -> (0 < m)%nat -> (64 * m <= length b)%nat ->
  nh_core (nh_hashed hc (nh_transform hc b (64 * Z.of_nat m)) (64 * Z.of_nat m)) (x ++ take (64 * m) b).
Proof.
  intros (q & El & Eb & Ed & Es) Hm Hb. exists (q + m)%nat. rewrite length_app, length_take. cbn [bytes_hashed data state nh_key nh_hashed].
  split; [lia|]. split; [lia|]. split; [done|]. replace (64 * Z.of_nat m) with (32 * Z.of_nat (2 * m)) by lia.
  rewrite (nh_transform_eq hc x q) by (done || lia). replace (32 * (2 * m))%nat with (64 * m)%nat by lia. by replace (2 * (q + m))%nat with (2 * q + 2 * m)%nat by lia.
Qed.

Lemma take_splice {A} (t b l : list A) : take (length t) l = t -> (length t + length b <= length l)%nat ->
  take (length t + length b) (splice (zlen t) b l) = t ++ b /\ length (splice (zlen t) b l) = length l.
Proof.
  intros Ht Hl. unfold splice, zlen. rewrite Nat2Z.id, Ht. split.
  - rewrite app_assoc, <- length_app. apply take_app_length.
  - rewrite !length_app, length_drop. lia.
Qed.

Lemma nh_core_data hc x d : nh_core hc x -> length d = 64%nat -> nh_core (set_data hc d) x.
Proof. intros (q & El & Eb & Ed & Es) Hd. by exists q. Qed.

(** The end of [nh_update]: what is left is put in the buffer. *)
Lemma nh_rep_tail hc x t b : nh_core hc x -> take (length t) (data hc) = t -> (length t + length b < 64)%nat ->
  nh_rep (set_empty (set_data hc (splice (zlen t) b (data hc))) (zlen t + zlen b)) (x ++ t ++ b).
Proof.
  intros Hc Ht Hl. destruct Hc as (q & El & Eb & Ed & Es). destruct (take_splice t b (data hc) Ht) as [E1 E2]; [lia|].
  exists x, (t ++ b). rewrite length_app, zlen_app. split; [done|]. split; [|done]. exists q. cbn [data set_empty set_data]. by rewrite E2.
Qed.

Lemma land_not63 n : 0 <= n < 2 ^ 32 -> Z.land n (u32 (Z.lnot (HASH_BUF_BYTES - 1))) = 64 * (n / 64).
Proof.
  intros Hn. change (u32 _) with (Z.ones 26 * 2 ^ 6). rewrite land_low_mask by lia. change (2 ^ 6) with 64.
  rewrite Z.mod_small by (Z.div_mod_to_equations; lia). lia.
Qed.

(** The two parts of [nh_update] on a whole buffer. *)
Definition nh_fill (hc : nh_ctx) (buf : list Z) (j : Z) : nh_ctx * list Z :=
  if negb (j =? 0) then
    let i := HASH_BUF_BYTES - j in
    let hc := set_data hc (splice j (take (Z.to_nat i) buf) (data hc)) in
    (nh_hashed hc (nh_transform hc (data hc) HASH_BUF_BYTES) HASH_BUF_BYTES, drop (Z.to_nat i) buf)
  else (hc, buf).

Definition nh_bulk (hc : nh_ctx) (buf : list Z) : nh_ctx * list Z :=
  if zlen buf >=? HASH_BUF_BYTES then
    let i := Z.land (zlen buf) (u32 (Z.lnot (HASH_BUF_BYTES - 1))) in
    (nh_hashed hc (nh_transform hc buf i) i, drop (Z.to_nat i) buf)
  else (hc, buf).

Lemma nh_update_unfold hc buf : nh_update hc buf =
  let j := next_data_empty hc in
  let '(hc, buf, j) :=
    if j + zlen buf >=? HASH_BUF_BYTES then
      let '(hc, buf) := nh_fill hc buf j in let '(hc, buf) := nh_bulk hc buf in (hc, buf, 0)
    else (hc, buf, j) in
  set_empty (set_data hc (splice j buf (data hc))) (j + zlen buf).
Proof. done. Qed.

Lemma nh_fill_core hc x t buf : nh_core hc x -> take (length t) (data hc) = t -> (length t < 64)%nat -> 64 <= zlen t + zlen buf ->
  exists b r, buf = b ++ r /\ (nh_fill hc buf (zlen t)).2 = r /\ nh_core (nh_fill hc buf (zlen t)).1 (x ++ t ++ b).
Proof.
  intros Hc Ht Hl Hb. unfold nh_fill, HASH_BUF_BYTES, zlen in *. destruct (_ =? 0) eqn:E; zbool; cbn [negb].
  - exists [], buf. destruct t; [|cbn in E; lia]. by rewrite app_nil_r.
  - replace (Z.to_nat (64 - Z.of_nat (length t))) with (64 - length t)%nat by lia. set (b := take _ buf).
    assert (length b = 64 - length t)%nat as El by (unfold b; rewrite length_take; lia).
    exists b, (drop (64 - length t) buf). split; [symmetry; apply take_drop|]. split; [done|]. cbn [fst].
    destruct Hc as (q & Hc). pose proof Hc as (_ & _ & Ed & _).
    destruct (take_splice t b (data hc) Ht) as [E1 E2]; [lia|]. unfold zlen in E1, E2. rewrite El in E1. replace (length t + (64 - length t))%nat with 64%nat in E1 by lia.
    rewrite <- E1. apply (nh_core_add (set_data hc _) x _ 1); [|lia|cbn [data set_data]; rewrite E2; lia].
    apply nh_core_data; [by exists q|]. by rewrite E2.
Qed.

Lemma nh_bulk_core hc x buf : nh_core hc x -> zlen buf < 2 ^ 32 ->
  exists b r, buf = b ++ r /\ (nh_bulk hc buf).2 = r /\ (length r < 64)%nat /\ nh_core (nh_bulk hc buf).1 (x ++ b).
Proof.
  intros Hc Hb. unfold nh_bulk. destruct (_ >=? _) eqn:E; unfold HASH_BUF_BYTES in E; zbool.
  - rewrite land_not63 by (unfold zlen in *; lia). set (m := Z.to_nat (zlen buf / 64)).
    assert (0 < zlen buf / 64) by (Z.div_mod_to_equations; lia). replace (64 * (zlen buf / 64)) with (64 * Z.of_nat m) by lia.
    replace (Z.to_nat (64 * Z.of_nat m)) with (64 * m)%nat by lia. unfold zlen in *.
    assert (64 * m <= length buf < 64 * m + 64)%nat by (Z.div_mod_to_equations; lia).
    exists (take (64 * m) buf), (drop (64 * m) buf). split; [by rewrite take_drop|]. split; [done|].
    split; [rewrite length_drop; lia|]. apply nh_core_add; [done|lia..].
  - exists [], buf. rewrite app_nil_r. unfold zlen in E. repeat split; try done. lia.
Qed.

Lemma nh_update_rep hc x buf : nh_rep hc x -> zlen buf < 2 ^ 32 -> nh_rep (nh_update hc buf) (x ++ buf).
Proof.
  intros (x0 & t & -> & Hc & Ht & Ej & Ed) Hb. rewrite nh_update_unfold. cbv zeta. rewrite Ej.
  destruct (_ >=? _) eqn:E; unfold HASH_BUF_BYTES in E; zbool.
  - destruct (nh_fill_core hc x0 t buf) as (b & r & -> & E1 & Hc1); [done..|]. destruct (nh_fill _ _ _) as [hc1 buf1]. cbn [fst snd] in *. subst buf1.
    destruct (nh_bulk_core hc1 (x0 ++ t ++ b) r) as (b' & r' & -> & E2 & Hl & Hc2); [done|rewrite zlen_app in *; unfold zlen in *; lia|].
    destruct (nh_bulk _ _) as [hc2 buf2]. cbn [fst snd] in *. subst buf2.
    pose proof (nh_rep_tail hc2 _ [] r' Hc2 eq_refl Hl) as Hr. cbn [app] in Hr. by rewrite <- !app_assoc in *.
  - rewrite <- app_assoc. apply nh_rep_tail; [done..|]. unfold zlen in *. lia.
Qed.

Lemma nh_update_key hc buf : nh_key (nh_update hc buf) = nh_key hc.
Proof. rewrite nh_update_unfold. unfold nh_fill, nh_bulk. destruct (_ >=? _); [|done]. destruct (negb _); destruct (_ >=? _); done. Qed.

Lemma nh_reset_rep hc : length (data hc) = 64%nat -> nh_rep (nh_reset hc) [].
Proof. intros Hd. exists [], []. repeat split; try done; [|cbn; lia]. by exists 0%nat. Qed.

Lemma nh_rep_data hc x : nh_rep hc x -> length (data hc) = 64%nat.
Proof. by intros (x0 & t & _ & (q & _ & _ & Hd & _) & _). Qed.

Lemma zero_pad_eq p n : 0 <= n -> zero_pad p n = replicate (Z.to_nat n) 0.
Proof.
  intros Hn. unfold zero_pad. destruct (n >=? 4) eqn:E; zbool; [|done].
  pose proof (Z.mod_pos_bound (- p) 4 ltac:(lia)). rewrite <- !replicate_add. f_equal. Z.div_mod_to_equations. lia.
Qed.

(** The NH hashes of a chunk, with its length. *)
Definition nh_chunk (k x : list Z) : Z * Z := add_bits (nh_state (length (zeropad x) / 32) k (zeropad x)) (zlen x * 8).

Lemma nh_final_tail hc x t : nh_core hc x -> (0 < length t < 64)%nat -> take (length t) (data hc) = t ->
  let n := zlen t in let nh_len := Z.land (n + (L1_PAD_BOUNDARY - 1)) (Z.lnot (L1_PAD_BOUNDARY - 1)) in
  let hc' := set_data hc (splice n (zero_pad n (nh_len - n)) (data hc)) in
  length (data hc') = 64%nat /\ bytes_hashed hc + n = zlen (x ++ t) /\
  nh_transform hc' (data hc') nh_len = nh_state (length (zeropad (x ++ t)) / 32) (nh_key hc) (zeropad (x ++ t)).
Proof.
  intros (q & El & Eb & Ed & Es) Ht Htk. cbv zeta. set (c := ((length t + 31) / 32)%nat).
  pose proof (Nat.div_mod (length t + 31) 32 ltac:(lia)) as Hdm. pose proof (Nat.mod_upper_bound (length t + 31) 32 ltac:(lia)) as Hmb. fold c in Hdm.
  assert (Z.land (zlen t + (L1_PAD_BOUNDARY - 1)) (Z.lnot (L1_PAD_BOUNDARY - 1)) = 32 * Z.of_nat c) as ->.
  { change (Z.lnot (L1_PAD_BOUNDARY - 1)) with (Z.lnot (Z.ones 5)). rewrite <- Z.ldiff_land, Z.ldiff_ones_r, Z.shiftr_div_pow2, Z.shiftl_mul_pow2 by lia.
    unfold zlen, L1_PAD_BOUNDARY, c. rewrite Nat2Z.inj_div, Nat2Z.inj_add. change (2 ^ 5) with 32. change (Z.of_nat 31) with (32 - 1). change (Z.of_nat 32) with 32. lia. }
  rewrite zero_pad_eq by (unfold zlen; lia). set (z := replicate (Z.to_nat (32 * Z.of_nat c - zlen t)) 0).
  assert (length z = (32 * c - length t)%nat) as Ez by (unfold z, zlen; rewrite length_replicate; lia).
  destruct (take_splice t z (data hc) Htk) as [E1 E2]; [lia|]. cbn [data set_data]. split; [lia|]. split; [rewrite zlen_app; unfold zlen; lia|].
  rewrite (nh_transform_eq _ x q) by (done || lia). cbn [nh_key set_data].
  replace (32 * c)%nat with (length t + length z)%nat by lia. rewrite E1.
  assert (zeropad (x ++ t) = x ++ t ++ z) as ->.
  { unfold zeropad. rewrite <- app_assoc. do 3 f_equal. rewrite length_app, zlen_app. unfold zlen. destruct (Nat.eqb_spec (length x + length t) 0); [lia|].
    rewrite El. f_equal. Z.div_mod_to_equations. lia. }
  f_equal. rewrite !length_app, El, Ez. replace (64 * q + _)%nat with ((2 * q + c) * 32)%nat by lia. by rewrite Nat.div_mul.
Qed.

Lemma nh_final_empty hc : length (data hc) = 64%nat -> bytes_hashed hc = 0 -> state hc = (0, 0) ->
  let hc' := set_data hc (splice 0 (zero_pad 0 L1_PAD_BOUNDARY) (data hc)) in
  length (data hc') = 64%nat /\ nh_transform hc' (data hc') L1_PAD_BOUNDARY = nh_state 1 (nh_key hc) (replicate 32 0).
Proof.
  intros Hd Hb Hs. cbv zeta. change (splice 0 _ (data hc)) with (replicate 32 0 ++ drop 32 (data hc)). cbn [data set_data].
  assert (length (replicate 32 0 ++ drop 32 (data hc)) = 64%nat) as El by (rewrite length_app, length_replicate, length_drop; lia).
  split; [done|]. change L1_PAD_BOUNDARY with (32 * Z.of_nat 1). rewrite (nh_transform_eq _ [] 0) by (done || lia). done.
Qed.

Lemma nh_final_eq hc x : nh_rep hc x ->
  (nh_final hc).1 = nh_chunk (nh_key hc) x /\ nh_rep (nh_final hc).2 [] /\ nh_key (nh_final hc).2 = nh_key hc.
Proof.
  intros Hr. pose proof (nh_rep_data _ _ Hr) as Hd. destruct Hr as (x0 & t & -> & Hc & Ht & Ej & Ed). unfold nh_final, nh_chunk. rewrite Ej, !Z.shiftl_mul_pow2 by lia.
  destruct (zlen t =? 0) eqn:E; unfold zlen in E; zbool; cbn [negb].
  - assert (t = []) as -> by (by destruct t). rewrite app_nil_r. destruct Hc as (q & El & Eb & _ & Es). rewrite Eb.
    destruct (_ =? 0) eqn:E0; zbool.
    + assert (x0 = []) as -> by (destruct x0; [done|cbn in El; lia]). assert (q = 0%nat) as -> by lia.
      destruct (nh_final_empty hc) as (H1 & H2); [done..|]. cbv zeta in *. split; [|split; [by apply nh_reset_rep|done]].
      cbn [fst bytes_hashed nh_hashed state set_data]. by rewrite H2, Eb.
    + split; [|split; [by apply nh_reset_rep|done]]. cbn [fst]. rewrite Es, Eb.
      assert (zeropad x0 = x0) as -> by (unfold zeropad; destruct (Nat.eqb_spec (length x0) 0); [lia|]; unfold zlen; rewrite El;
        replace (Z.to_nat _) with 0%nat by (Z.div_mod_to_equations; lia); by rewrite app_nil_r).
      unfold zlen. rewrite El. replace (64 * q)%nat with (2 * q * 32)%nat by lia. rewrite Nat.div_mul by lia. f_equal. lia.
  - destruct (nh_final_tail hc x0 t) as (H1 & H2 & H3); [done|lia|done|]. cbv zeta in *.
    split; [|split; [by apply nh_reset_rep|done]]. cbn [fst bytes_hashed nh_hashed state set_data]. rewrite H2, H3. f_equal.
Qed.

Lemma nh_direct hc buf : (1024 <= length buf)%nat -> nh hc buf L1_KEY_LEN L1_KEY_LEN = nh_chunk (nh_key hc) (take 1024 buf).
Proof.
  intros Hl. unfold nh_chunk. change (nh _ _ _ _) with (nh_aux (nh_key hc) buf (u64 8192, u64 8192) (32 * Z.of_nat 32)).
  rewrite nh_aux_eq by lia. assert (length (take 1024 buf) = 1024%nat) as El by (rewrite length_take; lia).
  assert (zeropad (take 1024 buf) = take 1024 buf) as -> by (unfold zeropad, zlen; rewrite El; cbn -[take]; by rewrite app_nil_r).
  unfold zlen. rewrite El. change (1024 / 32)%nat with 32%nat. unfold add_bits, nh_state. cbn [fst snd]. rewrite !u64_add_l, !nh_sum_take by lia.
  by rewrite !(Z.add_comm 8192).
Qed.

(** ** UHASH *)

Lemma chunks_eq l bs : forall fuel, Forall (fun b => length b = 1024%nat) bs -> (0 < length l <= 1024)%nat ->
  (length bs <= fuel)%nat -> chunks fuel (concat bs ++ l) = bs ++ [l].
Proof.
  induction bs as [|b bs IH]; intros fuel Hb Hl Hf; cbn [concat app].
  - destruct fuel; cbn [chunks]; [done|]. destruct (Nat.leb_spec (length l) 1024); [done|lia].
  - apply Forall_cons in Hb as [Eb Hb]. destruct fuel as [|fuel]; [cbn in Hf; lia|]. cbn [chunks]. rewrite <- app_assoc.
    rewrite !length_app, Eb. destruct (Nat.leb_spec (1024 + (length (concat bs) + length l)) 1024); [lia|].
    rewrite <- Eb, take_app_length, drop_app_length, IH by (done || (cbn in Hf; lia)). done.
Qed.

Section Uhash.
Context {AE : Aes} {AL : AesLaws} (key : list Z).
Hypothesis Hkey : block key.

Abbreviation K1 i := (take 1024 (drop (16 * i) (KDF key 1 1040))).

Lemma nh_chunk_hash k x : k = map (big_word (KDF key 1 1040)) (seq 0 260) -> (length x <= 1024)%nat ->
  nh_chunk k x = (chunk_hash (K1 0) x, chunk_hash (K1 1) x).
Proof using AL Hkey.
  intros -> Hx. unfold nh_chunk, add_bits, nh_state. cbn [fst snd]. change (chunk_hash ?K x) with (u64 (NH K (zeropad x) + zlen x * 8)). destruct (KDF_ok key Hkey 1 1040) as [E H]; [lia..|].
  pose proof (zeropad_length x) as Ez. set (c := (if (length x =? 0)%nat then 1%nat else ((length x + 31) / 32)%nat)) in Ez.
  assert (c <= 32)%nat as Hc by (unfold c; destruct (_ =? _)%nat; [lia|]; apply Nat.lt_succ_r, Nat.Div0.div_lt_upper_bound; lia).
  replace (length (zeropad x) / 32)%nat with c by (by rewrite Ez, Nat.mul_comm, Nat.div_mul).
  assert (forall i w, (i < 2)%nat -> (w < 8 * c)%nat -> nth w (drop (4 * i) (map (big_word (KDF key 1 1040)) (seq 0 260))) 0 = big_word (K1 i) w) as Hk.
  { intros i w Hi Hw. rewrite nth_skipn, (nth_indep _ _ (big_word (KDF key 1 1040) 0)) by (rewrite length_map, length_seq; lia).
    rewrite map_nth, seq_nth by lia. unfold big_word. rewrite window, drop_drop by lia. do 3 f_equal. lia. }
  rewrite (NH_sum (K1 0) (zeropad x) _ c Ez (fun w => Hk 0%nat w ltac:(lia))), (NH_sum (K1 1) (zeropad x) _ c Ez (fun w => Hk 1%nat w ltac:(lia))). done.
Qed.

(** The polynomial hash of the chunks [bs] in both streams. *)
Definition polys (bs : list (list Z)) (i : nat) : Z := POLY (k64 key i) (map (chunk_hash (K1 i)) bs).

(** The chunks [bs] went through the polynomial hash and [tail] into NH. *)
Record uhash_rep (hc : uhash_ctx) (bs : list (list Z)) (tail : list Z) : Prop := {
  rep_keys : keys_ok key hc;
  rep_len : msg_len hc = zlen (concat bs ++ tail);
  rep_chunks : Forall (fun b => length b = 1024%nat) bs;
  rep_nh : nh_rep (hash hc) tail;
  rep_poly : accum_ok hc (polys bs)
}.

Lemma polys_snoc bs b i : polys (bs ++ [b]) i = poly_step (k64 key i) (polys bs i) (chunk_hash (K1 i) b).
Proof. unfold polys, POLY. by rewrite map_app, foldl_app. Qed.

Lemma accum_ok_ext hc y y' : (forall i, (i < 2)%nat -> y i = y' i) -> accum_ok hc y -> accum_ok hc y'.
Proof. intros E (a0 & a1 & ? & ? & ? & ? & ?). exists a0, a1. rewrite <- !E by lia. done. Qed.

Lemma keys_set_hash hc h n : keys_ok key hc -> nh_key h = nh_key (hash hc) -> keys_ok key (set_hash hc h n).
Proof. intros [] E. split; try done. cbn [hash set_hash]. by rewrite E. Qed.

Lemma chunk_hash_range K x : 0 <= chunk_hash K x < 2 ^ 64.
Proof. apply Z.mod_pos_bound. lia. Qed.

(** A chunk of at most 1024 bytes goes through the polynomial hash. *)
Lemma poly_chunk hc bs b : keys_ok key hc -> accum_ok hc (polys bs) -> (length b <= 1024)%nat ->
  accum_ok (poly_hash hc (nh_chunk (nh_key (hash hc)) b)) (polys (bs ++ [b])).
Proof using AL Hkey.
  intros Hk Ha Hb. rewrite (nh_chunk_hash _ _ (nh_words key hc Hk) Hb).
  eapply accum_ok_ext; [|apply (poly_hash_accum key Hkey _ _ _ Hk Ha); apply chunk_hash_range].
  intros i Hi. cbv beta. rewrite polys_snoc. destruct i as [|[|]]; [done..|lia].
Qed.

Lemma uhash_rep_tail hc bs tail b : uhash_rep hc bs tail -> zlen (concat bs ++ tail ++ b) < 2 ^ 32 ->
  uhash_rep (set_hash hc (nh_update (hash hc) b) (zlen b)) bs (tail ++ b).
Proof.
  intros [Hk El Hc Hn Hp] Hl. rewrite !zlen_app in Hl. pose proof (zlen_nonneg (concat bs)). pose proof (zlen_nonneg tail). pose proof (zlen_nonneg b). split.
  - apply keys_set_hash; [done|]. apply nh_update_key.
  - cbn [msg_len set_hash]. rewrite El, !zlen_app. rewrite u32_small; lia.
  - done.
  - apply nh_update_rep; [done|lia].
  - done.
Qed.

(** NH is closed with a whole chunk. *)
Lemma uhash_rep_close hc bs tail b n : uhash_rep hc bs tail -> length (tail ++ b) = 1024%nat -> n = zlen b ->
  zlen (concat bs ++ tail ++ b) < 2 ^ 32 ->
  let '(r, h) := nh_final (nh_update (hash hc) b) in uhash_rep (poly_hash (set_hash hc h n) r) (bs ++ [tail ++ b]) [].
Proof using AL Hkey.
  intros Hr El -> Hl. pose proof (uhash_rep_tail _ _ _ _ Hr Hl) as Ht. destruct Hr as [Hk _ _ _ _].
  destruct (nh_final_eq _ _ (rep_nh _ _ _ Ht)) as (E1 & H2 & E3). cbn [hash set_hash] in *. rewrite nh_update_key in *.
  destruct (nh_final _) as [r h]. cbn [fst snd] in *. subst r. destruct Ht as [Hk' El' Hc Hn Hp].
  assert (keys_ok key (set_hash hc h (zlen b))) as Hkh by (by apply keys_set_hash). split.
  - by apply poly_hash_keys.
  - cbn [msg_len poly_hash set_accum set_hash] in *. rewrite El'. rewrite concat_app. cbn [concat]. by rewrite !app_nil_r.
  - apply Forall_app_2; [done|]. by apply Forall_cons_2.
  - done.
  - replace (nh_key (hash hc)) with (nh_key (hash (set_hash hc h (zlen b)))) by done. apply poly_chunk; [done|exact Hp|lia].
Qed.

Lemma uhash_blocks_rep fuel : forall hc bs input, uhash_rep hc bs [] -> (length input <= fuel)%nat -> zlen (concat bs ++ input) < 2 ^ 32 ->
  exists cs r, input = concat cs ++ r /\ Forall (fun b => length b = 1024%nat) cs /\ (length r < 1024)%nat /\
    (uhash_blocks fuel hc input).2 = r /\ uhash_rep (uhash_blocks fuel hc input).1 (bs ++ cs) [].
Proof using AL Hkey.
  induction fuel as [|fuel IH]; intros hc bs input Hr Hf Hl; cbn [uhash_blocks].
  { exists [], input. rewrite app_nil_r. repeat split; try done; try lia; apply Hr. }
  destruct (_ >=? _) eqn:E; unfold L1_KEY_LEN, zlen in E; zbool.
  2: { exists [], input. rewrite app_nil_r. repeat split; try done; try lia; apply Hr. }
  rewrite nh_direct by lia. set (b := take 1024 input). assert (length b = 1024%nat) as Eb by (unfold b; rewrite length_take; lia).
  assert (input = b ++ drop 1024 input) as Ei by (symmetry; apply take_drop).
  assert (zlen input = 1024 + zlen (drop 1024 input)) as Ezl by (rewrite Ei at 1; rewrite zlen_app; unfold zlen; rewrite Eb; lia).
  rewrite zlen_app in Hl. pose proof (zlen_nonneg (concat bs)). pose proof (zlen_nonneg (drop 1024 input)).
  set (hc' := poly_hash _ _). assert (uhash_rep hc' (bs ++ [b]) []) as Hr'.
  { destruct Hr as [Hk El Hc Hn Hp]. assert (keys_ok key (set_hash hc (hash hc) L1_KEY_LEN)) as Hkh by (by apply keys_set_hash). split.
    - by apply poly_hash_keys.
    - cbn [hc' msg_len poly_hash set_accum set_hash]. rewrite El, concat_app, !zlen_app. cbn [concat]. rewrite app_nil_r.
      unfold L1_KEY_LEN. change (zlen []) with 0. replace (zlen b) with 1024 by (unfold zlen; lia). rewrite u32_small; lia.
    - apply Forall_app_2; [done|]. by apply Forall_cons_2.
    - done.
    - apply (poly_chunk (set_hash hc (hash hc) L1_KEY_LEN)); [done|exact Hp|lia]. }
  destruct (IH hc' (bs ++ [b]) (drop 1024 input) Hr') as (cs & r & E1 & Hc & Hlr & E2 & Hr2);
    [rewrite length_drop; lia|rewrite concat_app, !zlen_app; cbn [concat]; rewrite app_nil_r; unfold zlen in *; lia|].
  exists (b :: cs), r. split; [rewrite Ei at 1; rewrite E1 at 1; cbn [concat]; by rewrite app_assoc|].
  split; [by apply Forall_cons_2|]. split; [done|]. split; [done|]. by rewrite <- app_assoc in Hr2.
Qed.

(** What is known between calls: [m] was put in. *)
Definition uhash_holds (hc : uhash_ctx) (m : list Z) : Prop := exists bs tail,
  m = concat bs ++ tail /\ uhash_rep hc bs tail /\
  ((length m <= 1024)%nat /\ bs = [] \/ (1024 < length m)%nat /\ (length tail < 1024)%nat).

Lemma concat_length_chunks (bs : list (list Z)) : Forall (fun b => length b = 1024%nat) bs -> zlen (concat bs) = 1024 * zlen bs.
Proof.
  induction bs as [|b bs IH]; intros Hb; [done|]. apply Forall_cons in Hb as [Eb Hb]. cbn [concat]. rewrite zlen_app, IH by done.
  unfold zlen. cbn [length]. rewrite Eb. lia.
Qed.

(** [bytes_hashed] of [uhash_update] is the length of what is in NH. *)
Lemma bytes_in_nh (bs : list (list Z)) tail : Forall (fun b => length b = 1024%nat) bs -> let m := concat bs ++ tail in
  (length m <= 1024)%nat /\ bs = [] \/ (1024 < length m)%nat /\ (length tail < 1024)%nat ->
  (if zlen m =? L1_KEY_LEN then L1_KEY_LEN else zlen m mod L1_KEY_LEN) = zlen tail.
Proof.
  intros Hb m Hm. pose proof (concat_length_chunks bs Hb) as E. assert (zlen m = 1024 * zlen bs + zlen tail) as Em by (unfold m; rewrite zlen_app; lia).
  unfold L1_KEY_LEN, zlen in *. destruct Hm as [[Hm ->]|[Hm Ht]].
  - cbn [length] in *. destruct (_ =? 1024) eqn:E1; zbool; [lia|]. rewrite Z.mod_small; lia.
  - destruct (_ =? 1024) eqn:E1; zbool; [lia|]. rewrite Em. Z.div_mod_to_equations. lia.
Qed.

(** The chunk in NH is completed and the whole chunks of the input are hashed. *)
Definition uhash_fill (ctx : uhash_ctx) (input : list Z) (n : Z) : uhash_ctx * list Z :=
  if negb (n =? 0) then
    let bytes_remaining := L1_KEY_LEN - n in
    let '(r, h) := nh_final (nh_update (hash ctx) (take (Z.to_nat bytes_remaining) input)) in
    (poly_hash (set_hash ctx h bytes_remaining) r, drop (Z.to_nat bytes_remaining) input)
  else (ctx, input).

Lemma uhash_fill_rep hc bs tail input : uhash_rep hc bs tail -> (length tail <= 1024)%nat -> 1024 <= zlen tail + zlen input ->
  zlen (concat bs ++ tail ++ input) < 2 ^ 32 ->
  exists cs r, concat bs ++ tail ++ input = concat cs ++ r /\ (uhash_fill hc input (zlen tail)).2 = r /\
    uhash_rep (uhash_fill hc input (zlen tail)).1 cs [].
Proof using AL Hkey.
  intros Hr Ht Hi Hl. unfold uhash_fill. destruct (_ =? 0) eqn:E; zbool; cbn [negb].
  { assert (tail = []) as -> by (destruct tail; [done|unfold zlen in E; cbn in E; lia]). by exists bs, input. }
  unfold L1_KEY_LEN. unfold zlen in Hi, E. replace (Z.to_nat (1024 - zlen tail)) with (1024 - length tail)%nat by (unfold zlen; lia).
  set (b := take _ input). assert (length b = 1024 - length tail)%nat as El by (unfold b; rewrite length_take; lia).
  assert (input = b ++ drop (1024 - length tail) input) as Ei by (symmetry; apply take_drop). rewrite Ei in Hl at 1.
  pose proof (uhash_rep_close hc bs tail b (1024 - zlen tail) Hr) as H. destruct (nh_final _) as [r h].
  exists (bs ++ [tail ++ b]), (drop (1024 - length tail) input). split; [rewrite Ei at 1; rewrite concat_app; cbn [concat]; by rewrite app_nil_r, <- !app_assoc|].
  split; [done|]. apply H; [rewrite length_app; lia|unfold zlen; lia|]. rewrite !zlen_app in Hl. rewrite !zlen_app.
  pose proof (zlen_nonneg (drop (1024 - length tail) input)). lia.
Qed.

Lemma uhash_update_unfold hc input : uhash_update hc input =
  if u32 (msg_len hc + zlen input) <=? L1_KEY_LEN then set_hash hc (nh_update (hash hc) input) (zlen input)
  else
    let n := if msg_len hc =? L1_KEY_LEN then L1_KEY_LEN else msg_len hc mod L1_KEY_LEN in
    let '(ctx, input) :=
      if u32 (n + zlen input) >=? L1_KEY_LEN then
        let '(ctx, input) := uhash_fill hc input n in uhash_blocks (length input) ctx input
      else (hc, input) in
    if negb (zlen input =? 0) then set_hash ctx (nh_update (hash ctx) input) (zlen input) else ctx.
Proof. done. Qed.

(** What is left of the input goes into NH. *)
Lemma uhash_rest hc bs tail input : uhash_rep hc bs tail -> zlen (concat bs ++ tail ++ input) < 2 ^ 32 ->
  uhash_rep (if negb (zlen input =? 0) then set_hash hc (nh_update (hash hc) input) (zlen input) else hc) bs (tail ++ input).
Proof.
  intros Hr Hl. destruct (_ =? 0) eqn:E; zbool; cbn [negb].
  - assert (input = []) as -> by (destruct input; [done|unfold zlen in E; cbn in E; lia]). by rewrite app_nil_r.
  - by apply uhash_rep_tail.
Qed.

Lemma uhash_update_holds hc m input : uhash_holds hc m -> zlen (m ++ input) < 2 ^ 32 -> uhash_holds (uhash_update hc input) (m ++ input).
Proof using AL Hkey.
  intros (bs & tail & -> & Hr & Hm) Hl. pose proof (bytes_in_nh bs tail (rep_chunks _ _ _ Hr) Hm) as Eb.
  rewrite uhash_update_unfold. cbv zeta. rewrite (rep_len _ _ _ Hr), Eb. rewrite <- app_assoc in *.
  pose proof (zlen_nonneg (concat bs)). pose proof (zlen_nonneg input). pose proof (zlen_nonneg tail).
  rewrite !u32_small by (rewrite !zlen_app in *; lia).
  destruct (_ <=? _) eqn:E1; unfold L1_KEY_LEN in *; zbool.
  { exists bs, (tail ++ input). split; [done|]. split; [by apply uhash_rep_tail|left].
    rewrite !length_app, !zlen_app in *. unfold zlen in *. destruct Hm as [[Hm Ebs]|[Hm _]]; [split; [lia|done]|lia]. }
  assert (1024 < length (concat bs ++ tail ++ input))%nat as Hlong by (rewrite !length_app, !zlen_app in *; unfold zlen in *; lia).
  destruct (_ >=? _) eqn:E2; zbool.
  - destruct (uhash_fill_rep hc bs tail input Hr) as (cs & r & Ec & Er & Hr1); [destruct Hm as [[Hm _]|[_ Hm]]; rewrite ?length_app in Hm; lia|lia|done|].
    destruct (uhash_fill _ _ _) as [hc1 in1]. cbn [fst snd] in *. subst in1. rewrite Ec in *.
    destruct (uhash_blocks_rep (length r) hc1 cs r Hr1 ltac:(lia) Hl) as (ds & t & -> & Hds & Ht & Et & Hr2).
    destruct (uhash_blocks _ _ _) as [hc2 in2]. cbn [fst snd] in *. subst in2. rewrite app_assoc, <- concat_app in *.
    exists (cs ++ ds), t. split; [done|]. split; [exact (uhash_rest hc2 _ [] t Hr2 Hl)|by right].
  - exists bs, (tail ++ input). split; [done|]. split; [by apply uhash_rest|right]. split; [done|]. rewrite length_app. unfold zlen in *. lia.
Qed.

(** ** The tag *)

Lemma uhash_reset_holds hc tail : keys_ok key hc -> nh_rep (hash hc) tail -> uhash_holds (uhash_reset hc) [].
Proof.
  intros Hk Hn. exists [], []. split; [done|]. split; [|left; cbn; split; [lia|done]]. split; try done.
  - by destruct Hk.
  - apply nh_reset_rep. by apply nh_rep_data in Hn.
  - by exists 1, 1.
Qed.

Lemma UHASH_streams M : UHASH key M =
  L3_HASH (take 64 (drop (64 * 0) (KDF key 3 128))) (take 4 (drop (4 * 0) (KDF key 4 8)))
    (if (length M <=? 1024)%nat then hd 0 (L1_HASH (K1 0) M) else POLY (k64 key 0) (L1_HASH (K1 0) M)) ++
  L3_HASH (take 64 (drop (64 * 1) (KDF key 3 128))) (take 4 (drop (4 * 1) (KDF key 4 8)))
    (if (length M <=? 1024)%nat then hd 0 (L1_HASH (K1 1) M) else POLY (k64 key 1) (L1_HASH (K1 1) M)).
Proof. unfold UHASH. cbv zeta. cbn [map seq concat]. by rewrite app_nil_r. Qed.

(** The last chunk is closed; what the accumulators hold then is the second layer of the RFC. *)
Lemma uhash_close hc bs tail : uhash_rep hc bs tail -> (1024 < length (concat bs ++ tail))%nat -> (length tail < 1024)%nat ->
  let hc' := if negb (msg_len hc mod L1_KEY_LEN =? 0) then let '(r, h) := nh_final (hash hc) in poly_hash (set_hash hc h 0) r else hc in
  keys_ok key hc' /\ (exists t, nh_rep (hash hc') t) /\
  accum_ok hc' (fun i => POLY (k64 key i) (L1_HASH (K1 i) (concat bs ++ tail))).
Proof using AL Hkey.
  intros Hr Hm Ht. pose proof (concat_length_chunks bs (rep_chunks _ _ _ Hr)) as Ec. rewrite (rep_len _ _ _ Hr), zlen_app.
  destruct Hr as [Hk _ Hb Hn Hp]. cbv zeta. unfold L1_HASH.
  assert (forall l cs, (0 < length l <= 1024)%nat -> Forall (fun b => length b = 1024%nat) cs -> chunks (length (concat cs ++ l)) (concat cs ++ l) = cs ++ [l]) as Hch.
  { intros l cs Hl Hcs. apply chunks_eq; [done..|]. pose proof (concat_length_chunks cs Hcs). rewrite length_app. unfold zlen in *. lia. }
  destruct (_ =? 0) eqn:E; unfold L1_KEY_LEN in E; zbool; cbn [negb].
  - assert (tail = []) as -> by (rewrite Ec in E; destruct tail; [done|]; unfold zlen in E; cbn [length] in *; Z.div_mod_to_equations; lia).
    split; [done|]. split; [by exists []|]. eapply accum_ok_ext; [|exact Hp]. intros i Hi. unfold polys. do 2 f_equal.
    rewrite app_nil_r in *. destruct (exists_last (l := bs)) as (cs & l & ->); [intros ->; cbn in Hm; lia|].
    apply Forall_app in Hb as [Hcs Hl]. apply Forall_cons in Hl as [Hl _]. rewrite concat_app. cbn [concat]. rewrite app_nil_r. symmetry. apply Hch; [lia|done].
  - destruct (nh_final_eq _ _ Hn) as (E1 & H2 & E3). destruct (nh_final _) as [r h]. cbn [fst snd] in *. subst r.
    assert (keys_ok key (set_hash hc h 0)) as Hkh by (by apply keys_set_hash). split; [by apply poly_hash_keys|].
    split; [by exists []|]. eapply accum_ok_ext; [|rewrite <- E3; apply (poly_chunk (set_hash hc h 0) bs tail Hkh); [exact Hp|lia]].
    intros i Hi. unfold polys. do 2 f_equal. symmetry. apply Hch; [|done]. destruct tail; [|cbn; cbn in Ht; lia].
    rewrite Ec in E. unfold zlen in E. cbn [length] in E. Z.div_mod_to_equations. lia.
Qed.

Lemma uhash_final_eq hc m : uhash_holds hc m -> (uhash_final hc).1 = UHASH key m /\ uhash_holds (uhash_final hc).2 [].
Proof using AL Hkey.
  intros (bs & tail & -> & Hr & Hm). rewrite UHASH_streams. unfold uhash_final. rewrite (rep_len _ _ _ Hr).
  set (m := concat bs ++ tail) in *. destruct (_ >? _) eqn:E; unfold L1_KEY_LEN, zlen in E; zbool.
  - destruct (Nat.leb_spec (length m) 1024); [lia|]. destruct Hm as [[Hm _]|[_ Ht]]; [lia|].
    destruct (uhash_close hc bs tail Hr) as (Hk & (t & Hn) & Ha); [done..|]. cbv zeta in Hk, Hn, Ha. rewrite (rep_len _ _ _ Hr) in Hk, Hn, Ha. fold m in Hk, Hn, Ha.
    set (hc' := if negb _ then _ else _) in *. split; [|by apply (uhash_reset_holds hc' t)]. exact (ip_long_eq key Hkey hc' _ Hk Ha).
  - destruct (Nat.leb_spec (length m) 1024); [|lia]. destruct Hm as [[_ ->]|[Hm _]]; [|lia]. cbn [concat app] in m. destruct Hr as [Hk _ _ Hn _].
    destruct (nh_final_eq _ _ Hn) as (E1 & H2 & E3). destruct (nh_final _) as [r h]. cbn [fst snd] in *. subst r.
    assert (keys_ok key (set_hash hc h 0)) as Hkh by (by apply keys_set_hash). split; [|by apply (uhash_reset_holds _ [])].
    assert (forall K, hd 0 (L1_HASH K m) = chunk_hash K m) as Hh.
    { intros K. unfold L1_HASH. destruct (length m) as [|n] eqn:El; cbn [chunks]; [done|]. rewrite El. by destruct (Nat.leb_spec (S n) 1024); [|lia]. }
    rewrite !Hh, (nh_chunk_hash _ _ (nh_words key hc Hk)) by done. unfold ip_short. cbn [fst snd].
    by rewrite !(ip_word_eq key Hkey _ _ _ Hkh) by (lia || apply chunk_hash_range).
Qed.

End Uhash.

(** ** UMAC *)

(** Messages, each in the chunks in which it comes, and nonces, through one context. *)
Fixpoint umac_run {AE : Aes} (ctx : umac_ctx) (msgs : list (list (list Z) * list Z)) : list (list Z) :=
  match msgs with
  | [] => []
  | (cs, nonce) :: msgs =>
      let '(tag, ctx) := umac_final (foldl umac_update ctx cs) nonce in
      tag :: umac_run ctx msgs
  end.

Section Tags.
Context {AE : Aes} {AL : AesLaws} (key : list Z).
Hypothesis Hkey : block key.

(** What is known of a context in which [m] was put. *)
Definition umac_holds (ctx : umac_ctx) (m : list Z) : Prop := uhash_holds key (uhash ctx) m /\ pdf_ok key (pdf ctx).

Lemma umac_new_holds : umac_holds (umac_new key) [].
Proof using AL Hkey.
  unfold umac_new, UMAC_KEY_LEN. rewrite take_ge by (destruct Hkey; lia). split; [|by apply pdf_init_ok]. cbn [uhash].
  exists [], []. split; [done|]. split; [|left; cbn; split; [lia|done]]. split; try done.
  - by apply uhash_init_keys.
  - by apply nh_reset_rep.
  - by exists 1, 1.
Qed.

Lemma umac_update_holds cs : forall ctx m, umac_holds ctx m -> zlen (m ++ concat cs) < 2 ^ 32 ->
  umac_holds (foldl umac_update ctx cs) (m ++ concat cs).
Proof using AL Hkey.
  induction cs as [|c cs IH]; intros ctx m [Hu Hp] Hl; [cbn; rewrite app_nil_r; by split|].
  cbn [concat foldl] in *. rewrite app_assoc in *. apply IH; [|done]. split; [|done]. apply uhash_update_holds; [done..|].
  rewrite zlen_app in Hl. pose proof (zlen_nonneg (concat cs)). lia.
Qed.

Lemma umac_final_eq ctx m nonce : umac_holds ctx m -> bytes_ok nonce -> length nonce = 8%nat ->
  (umac_final ctx nonce).1 = UMAC key m nonce /\ umac_holds (umac_final ctx nonce).2 [].
Proof using AL Hkey.
  intros [Hu Hp] Hn En. unfold umac_final. destruct (uhash_final_eq key Hkey _ _ Hu) as [E H]. destruct (uhash_final _) as [tag h]. cbn [fst snd] in *.
  destruct (pdf_gen_xor_eq key _ _ tag Hp Hn En) as [E1 H1]. destruct (pdf_gen_xor _ _ _) as [tag' p]. cbn [fst snd] in *.
  subst. done.
Qed.

(** C9: the tags that one context makes, for any number of messages one after the other,
    each put in with any number of calls of [umac_update], are the tags of RFC 4418 for the
    key, the whole message and the nonce, for messages of up to 16 megabytes (the RFC
    hashes the rest of a longer message in another way, which is not implemented). *)
Theorem umac_rfc4418 msgs :
  Forall (fun '(cs, nonce) => zlen (concat cs) <= 2 ^ 24 /\ bytes_ok nonce /\ length nonce = 8%nat) msgs ->
  umac_run (umac_new key) msgs = map (fun '(cs, nonce) => UMAC key (concat cs) nonce) msgs.
Proof using AL Hkey.
  generalize umac_new_holds. generalize (umac_new key). induction msgs as [|[cs nonce] msgs IH]; intros ctx Hc Hm; [done|].
  apply Forall_cons in Hm as [(Hl & Hn & En) Hm]. cbn [umac_run map].
  destruct (umac_final_eq _ _ nonce (umac_update_holds cs ctx [] Hc ltac:(cbn [app]; lia)) Hn En) as [E H].
  destruct (umac_final _ _) as [tag ctx']. cbn [fst snd] in *. by rewrite E, IH.
Qed.
End Tags.

(** Two messages, the first in two pieces, with AES. *)
Lemma umac_rfc4418_witness :
  let key := str "abcdefghijklmnop" in
  let msgs := [([str "a"; str "aa"], str "bcdefghi"); ([], str "bcdefghj"); ([replicate 1500 97], str "bcdefghi")] in
  umac_run (AE := Fips197.aes) (umac_new (AE := Fips197.aes) key) msgs =
  map (fun '(cs, nonce) => UMAC (AE := Fips197.aes) key (concat cs) nonce) msgs.
Proof.
  apply (umac_rfc4418 (AE := Fips197.aes) (AL := Fips197.aes_laws) (str "abcdefghijklmnop")).
  - split; [done|]. repeat (apply Forall_cons_2; [unfold is_u8; cbn; lia|]). apply Forall_nil_2.
  - repeat apply Forall_cons_2; [..|apply Forall_nil_2]; (split; [vm_compute; congruence|split; [|done]]);
      repeat (apply Forall_cons_2; [unfold is_u8; cbn; lia|]); apply Forall_nil_2.
Defined.
