(* ===== verification/SshCtr.v ===== *)
(** * SshCtr: the counter mode of shiesh/cipher-ctr.cpp

    The cipher that is registered with OpenSSL for aes128-ctr, aes192-ctr and aes256-ctr:
    the functions of the [EVP_CIPHER] structure, on the part of an [EVP_CIPHER_CTX] that
    they use.  AES is the class [SshUmac.Aes].  The theorem: the output of a sequence of
    calls on whole blocks is the one of the SDCTR mode of RFC 4344. *)

From S2P Require Import Prelude SshBuffer SshUmac SshAes SshUmacProps.

Definition AES_BLOCK_SIZE : nat := 16.

(** ** The counter *)

(** The loop from the last byte; [i] bytes are in front of and at the place. *)
Fixpoint ctr_inc_loop (i : nat) (ctr : list Z) : list Z :=
  match i with
  | O => ctr
  | S j =>
      let b := u8 (nth j ctr 0 + 1) in
      let ctr := <[j := b]> ctr in
      if b =? 0 then ctr_inc_loop j ctr else ctr
  end.

Definition ssh_ctr_inc (ctr : list Z) (len : nat) : list Z := ctr_inc_loop len ctr.

Section Ctr.
Context {AE : Aes}.

Record ssh_aes_ctr_ctx := mkCtr { aes_ctx : aes_key; aes_counter : list Z }.

(** What the functions use of an [EVP_CIPHER_CTX]. *)
Record evp_cipher_ctx := mkEvp { app_data : option ssh_aes_ctr_ctx; key_length : Z }.

Definition set_app_data (ctx : evp_cipher_ctx) (c : option ssh_aes_ctr_ctx) : evp_cipher_ctx := mkEvp c (key_length ctx).

(** The loop of [ssh_aes_ctr]: the output, and the context, [n] and [buf] behind it. *)
Fixpoint ctr_bytes (c : ssh_aes_ctr_ctx) (n : nat) (buf src : list Z) : list Z * (ssh_aes_ctr_ctx * nat * list Z) :=
  match src with
  | [] => ([], (c, n, buf))
  | s :: src =>
      let '(c, buf) :=
        if (n =? 0)%nat then
          (mkCtr (aes_ctx c) (ssh_ctr_inc (aes_counter c) AES_BLOCK_SIZE), aes_encryption (aes_ctx c) (aes_counter c))
        else (c, buf) in
      let '(dest, st) := ctr_bytes c ((n + 1) mod AES_BLOCK_SIZE)%nat buf src in
      (Z.lxor s (nth n buf 0) :: dest, st)
  end.

(** [None] is the return value 0; [buf] is not initialised. *)
Definition ssh_aes_ctr (ctx : evp_cipher_ctx) (src : list Z) : option (list Z * evp_cipher_ctx) :=
  if (length src =? 0)%nat then Some ([], ctx)
  else
    match app_data ctx with
    | None => None
    | Some c =>
        let '(dest, (c, _, _)) := ctr_bytes c 0 [] src in
        Some (dest, set_app_data ctx (Some c))
    end.

(** [mem] is what the allocated memory holds. *)
Definition ssh_aes_ctr_init (mem : ssh_aes_ctr_ctx) (ctx : evp_cipher_ctx) (key iv : option (list Z)) : evp_cipher_ctx :=
  let c := match app_data ctx with Some c => c | None => mem end in
  let c := match key with
           | Some key => mkCtr (aes_key_setup (take (Z.to_nat (key_length ctx)) key)) (aes_counter c)
           | None => c
           end in
  let c := match iv with Some iv => mkCtr (aes_ctx c) (take AES_BLOCK_SIZE iv) | None => c end in
  set_app_data ctx (Some c).

Definition ssh_aes_ctr_cleanup (ctx : evp_cipher_ctx) : evp_cipher_ctx :=
  match app_data ctx with Some _ => set_app_data ctx None | None => ctx end.

(** The context and the bytes at [iv] behind the call. *)
Definition ssh_aes_ctr_iv (evp : evp_cipher_ctx) (doset : bool) (iv : list Z) (len : nat) : res (evp_cipher_ctx * list Z) :=
  match app_data evp with
  | None => Fatal "ssh_aes_ctr_iv: no context"
  | Some c =>
      if doset then Ok (set_app_data evp (Some (mkCtr (aes_ctx c) (splice 0 (take len iv) (aes_counter c)))), iv)
      else Ok (evp, splice 0 (take len (aes_counter c)) iv)
  end.

Record EVP_CIPHER := mkEvpCipher { block_size : Z; iv_len : Z; key_len : Z }.

(** The sizes in the static [aes_ctr]; its functions are the ones above, [nid] and [flags] are read by OpenSSL only. *)
Definition aes_ctr : EVP_CIPHER := mkEvpCipher 16 16 16.

End Ctr.

(** ** The counter counts *)

Lemma ctr_inc_app i : forall ctr l, length ctr = i -> ctr_inc_loop i (ctr ++ l) = ctr_inc_loop i ctr ++ l.
Proof.
  induction i as [|i IH]; intros ctr l El; cbn [ctr_inc_loop]; [done|].
  destruct (exists_last (l := ctr)) as (ctr' & b & ->); [by intros ->|].
  rewrite length_app in El. cbn in El. assert (i = length ctr') as -> by lia.
  rewrite <- app_assoc. cbn [app].
  rewrite !nth_middle, !insert_app_r_alt, !Nat.sub_diag by lia. cbn [insert list_insert].
  change ([u8 (b + 1)] ++ l) with (u8 (b + 1) :: l).
  destruct (_ =? 0); [|by rewrite <- app_assoc].
  rewrite !IH by done. by rewrite <- app_assoc.
Qed.

Lemma ctr_inc_snoc ctr b : ssh_ctr_inc (ctr ++ [b]) (length (ctr ++ [b])) =
  if u8 (b + 1) =? 0 then ssh_ctr_inc ctr (length ctr) ++ [0] else ctr ++ [u8 (b + 1)].
Proof.
  unfold ssh_ctr_inc. rewrite length_app, Nat.add_1_r. cbn [ctr_inc_loop]. rewrite nth_middle, insert_app_r_alt, Nat.sub_diag by lia.
  cbn [insert list_insert]. destruct (_ =? 0) eqn:E; [|done]. zbool. rewrite E. by apply ctr_inc_app.
Qed.

(** A counter in network byte order is increased by one, and wraps around. *)
Lemma ctr_inc_value ctr : bytes_ok ctr ->
  Rfc4418.str2uint (ssh_ctr_inc ctr (length ctr)) = (Rfc4418.str2uint ctr + 1) mod 256 ^ zlen ctr /\
  length (ssh_ctr_inc ctr (length ctr)) = length ctr /\ bytes_ok (ssh_ctr_inc ctr (length ctr)).
Proof.
  induction ctr as [|b ctr IH] using rev_ind; intros Hc; [done|]. apply Forall_app in Hc as [Hc Hb].
  apply Forall_cons in Hb as [Hb _]. unfold is_u8 in Hb. destruct (IH Hc) as (E & El & Hok). rewrite ctr_inc_snoc.
  pose proof (str2uint_range ctr Hc) as Hr. rewrite zlen_app, Z.pow_add_r by (unfold zlen; lia). change (256 ^ zlen [b]) with 256.
  rewrite (str2uint_app ctr). change (256 ^ zlen [b]) with 256. change (Rfc4418.str2uint [b]) with (0 * 256 + b).
  set (v := Rfc4418.str2uint ctr) in *. set (n := 256 ^ zlen ctr) in *. destruct (_ =? 0) eqn:E0; unfold u8 in E0; zbool.
  - assert (b = 255) as -> by (Z.div_mod_to_equations; lia). rewrite !length_app, El. split; [|split; [done|by apply Forall_app_2; [|apply Forall_cons_2]]].
    rewrite str2uint_app, E. change (256 ^ zlen [0]) with 256. change (Rfc4418.str2uint [0]) with 0.
    replace (v * 256 + (0 * 256 + 255) + 1) with ((v + 1) * 256) by lia. rewrite Z.mul_mod_distr_r by lia. lia.
  - assert (b <> 255) by (intros ->; done). unfold u8. rewrite !Z.mod_small by lia. rewrite !length_app.
    split; [|split; [done|apply Forall_app_2; [done|apply Forall_cons_2; [unfold is_u8; lia|done]]]].
    rewrite str2uint_app. change (256 ^ zlen [b + 1]) with 256. change (Rfc4418.str2uint [b + 1]) with (0 * 256 + (b + 1)). lia.
Qed.

(** ** RFC 4344 *)

Module Rfc4344.
Section Sdctr.
Context {AE : Aes}.

(** A number of 128 bits in network byte order. *)
Definition counter_block (x : Z) : list Z := put_u64 (x / 2 ^ 64) ++ put_u64 (x mod 2 ^ 64).

(** The key stream from the counter value [x] on, [n] blocks. *)
Definition keystream (key : list Z) (x : Z) (n : nat) : list Z :=
  concat (map (fun i => aes_encryption (aes_key_setup key) (counter_block ((x + Z.of_nat i) mod 2 ^ 128))) (seq 0 n)).

(** The cipher on a message of whole blocks. *)
Definition SDCTR (key iv m : list Z) : list Z := zip_with Z.lxor m (keystream key (Rfc4418.str2uint iv) (length m / 16)).

End Sdctr.
End Rfc4344.

Import Rfc4344.

Lemma counter_block_value ctr : block ctr -> counter_block (Rfc4418.str2uint ctr) = ctr.
Proof.
  intros [El Hc]. rewrite <- (take_drop 8 ctr) at 1. rewrite str2uint_app.
  assert (length (take 8 ctr) = 8%nat) as E1 by (rewrite length_take; lia). assert (length (drop 8 ctr) = 8%nat) as E2 by (rewrite length_drop; lia).
  assert (bytes_ok (take 8 ctr)) as H1 by (by apply Forall_take). assert (bytes_ok (drop 8 ctr)) as H2 by (by apply Forall_drop).
  pose proof (str2uint_range _ H2) as Hr. unfold zlen in *. rewrite E2 in *. change (256 ^ Z.of_nat 8) with (2 ^ 64) in *.
  unfold counter_block. rewrite Z.div_add_l, (Z.div_small (Rfc4418.str2uint (drop 8 ctr))), Z.add_0_r by lia.
  rewrite Z.add_comm, Z_mod_plus_full, Z.mod_small, !put_u64_str2uint by done. apply take_drop.
Qed.

Section CtrProps.
Context {AE : Aes}.

(** The loop may be cut anywhere. *)
Lemma ctr_bytes_app p : forall c n buf q, ctr_bytes c n buf (p ++ q) =
  let '(o1, (c1, n1, buf1)) := ctr_bytes c n buf p in let '(o2, st) := ctr_bytes c1 n1 buf1 q in (o1 ++ o2, st).
Proof.
  induction p as [|s p IH]; intros c n buf q; cbn [ctr_bytes app]; [by destruct (ctr_bytes c n buf q)|].
  destruct (n =? 0)%nat.
  - rewrite IH. destruct (ctr_bytes _ _ _ p) as [o1 [[c1 n1] buf1]]. by destruct (ctr_bytes c1 n1 buf1 q).
  - rewrite IH. destruct (ctr_bytes _ _ _ p) as [o1 [[c1 n1] buf1]]. by destruct (ctr_bytes c1 n1 buf1 q).
Qed.

(** It is its own inverse. *)
Lemma ctr_bytes_inv p : forall c n buf o st, ctr_bytes c n buf p = (o, st) -> ctr_bytes c n buf o = (p, st).
Proof.
  induction p as [|s p IH]; intros c n buf o st E; cbn [ctr_bytes] in E; [by invc E|].
  destruct (n =? 0)%nat eqn:En; destruct (ctr_bytes _ _ _ p) as [d st'] eqn:Ed; invc E; cbn [ctr_bytes]; rewrite En, (IH _ _ _ _ _ Ed);
    by rewrite Z.lxor_assoc, Z.lxor_nilpotent, Z.lxor_0_r.
Qed.

Lemma ctr_bytes_length p : forall c n buf, length (ctr_bytes c n buf p).1 = length p.
Proof.
  induction p as [|s p IH]; intros c n buf; cbn [ctr_bytes]; [done|]. destruct (n =? 0)%nat.
  - specialize (IH (mkCtr (aes_ctx c) (ssh_ctr_inc (aes_counter c) AES_BLOCK_SIZE)) ((n + 1) mod AES_BLOCK_SIZE)%nat (aes_encryption (aes_ctx c) (aes_counter c))).
    destruct (ctr_bytes _ _ _ p). cbn in *. by rewrite IH.
  - specialize (IH c ((n + 1) mod AES_BLOCK_SIZE)%nat buf). destruct (ctr_bytes _ _ _ p). cbn in *. by rewrite IH.
Qed.

Lemma ctr_bytes_pos p : forall c n buf, (n < 16)%nat -> (ctr_bytes c n buf p).2.1.2 = ((n + length p) mod 16)%nat.
Proof.
  induction p as [|s p IH]; intros c n buf Hn; cbn [ctr_bytes length]; [cbn [fst snd]; by rewrite Nat.add_0_r, Nat.mod_small|].
  assert (forall c buf, (let '(dest, st) := ctr_bytes c ((n + 1) mod AES_BLOCK_SIZE)%nat buf p in (Z.lxor s (nth n buf 0) :: dest, st)).2.1.2 = ((n + S (length p)) mod 16)%nat) as H.
  { intros c' buf'. specialize (IH c' ((n + 1) mod AES_BLOCK_SIZE)%nat buf' ltac:(apply Nat.mod_upper_bound; done)).
    destruct (ctr_bytes _ _ _ p) as [d st]. cbn [snd] in *. rewrite IH. unfold AES_BLOCK_SIZE. rewrite Nat.Div0.add_mod_idemp_l. f_equal. lia. }
  destruct (n =? 0)%nat; apply H.
Qed.

(** The buffer is not looked at where a block begins. *)
Lemma ctr_bytes_buf c buf buf' p : p <> [] -> ctr_bytes c 0 buf p = ctr_bytes c 0 buf' p.
Proof. by destruct p. Qed.

Lemma drop_nth n : forall buf : list Z, (n < length buf)%nat -> drop n buf = nth n buf 0 :: drop (S n) buf.
Proof. induction n as [|n IH]; intros [|b buf] Hn; cbn in Hn; try lia; [done|]. cbn [drop nth]. apply IH. lia. Qed.

(** On one block. *)
Lemma ctr_within a : forall c n buf, (0 < n)%nat -> (n + length a = 16)%nat -> (length buf = 16)%nat ->
  ctr_bytes c (n mod 16)%nat buf a = (zip_with Z.lxor a (drop n buf), (c, 0%nat, buf)).
Proof.
  induction a as [|s a IH]; intros c n buf Hn Hl Hb.
  - cbn in Hl. assert (n = 16%nat) as -> by lia. done.
  - cbn [length] in Hl. rewrite Nat.mod_small by lia. cbn [ctr_bytes]. destruct (Nat.eqb_spec n 0); [lia|]. unfold AES_BLOCK_SIZE.
    rewrite IH by lia. rewrite (drop_nth n buf) by lia. cbn [zip_with]. by rewrite Nat.add_1_r.
Qed.

Context {AL : AesLaws}.

Definition next_ctr (c : ssh_aes_ctr_ctx) : ssh_aes_ctr_ctx := mkCtr (aes_ctx c) (ssh_ctr_inc (aes_counter c) AES_BLOCK_SIZE).

Lemma ctr_one_block c b : length b = 16%nat ->
  exists buf, ctr_bytes c 0 [] b = (zip_with Z.lxor b (aes_encryption (aes_ctx c) (aes_counter c)), (next_ctr c, 0%nat, buf)).
Proof using AL.
  intros El. destruct b as [|s b]; [done|]. cbn in El. exists (aes_encryption (aes_ctx c) (aes_counter c)). cbn [ctr_bytes Nat.eqb].
  pose proof (aes_length (aes_ctx c) (aes_counter c)) as Hl. unfold AES_BLOCK_SIZE. change (0 + 1)%nat with 1%nat.
  rewrite (ctr_within b (next_ctr c) 1) by lia. set (E := aes_encryption _ _) in *.
  f_equal. rewrite <- (drop_0 E) at 3. rewrite (drop_nth 0 E) by lia. done.
Qed.

Lemma keystream_split key x a b : keystream key x (a + b) = keystream key x a ++ keystream key ((x + Z.of_nat a) mod 2 ^ 128) b.
Proof.
  unfold keystream. rewrite seq_app, map_app, concat_app. f_equal. f_equal. rewrite <- (Nat.add_0_r (0 + a)) at 1.
  rewrite <- fmap_add_seq. cbn [Nat.add]. rewrite list_fmap_compose || rewrite map_map.
  apply map_ext. intros i. do 2 f_equal. rewrite Z.add_mod_idemp_l by lia. f_equal. lia.
Qed.

Lemma zip_app (a b c d : list Z) : length a = length c -> zip_with Z.lxor (a ++ b) (c ++ d) = zip_with Z.lxor a c ++ zip_with Z.lxor b d.
Proof. intros E. by apply zip_with_app. Qed.

Lemma keystream_length key x n : length (keystream key x n) = (16 * n)%nat.
Proof using AL.
  revert x. induction n as [|n IH]; intros x; [done|]. rewrite <- Nat.add_1_l, keystream_split, length_app, IH.
  unfold keystream. cbn [seq map concat]. rewrite app_nil_r, aes_length. lia.
Qed.

(** The context stands at the counter value [x]. *)
Definition ctr_at (c : ssh_aes_ctr_ctx) (key : list Z) (x : Z) : Prop :=
  aes_ctx c = aes_key_setup key /\ block (aes_counter c) /\ Rfc4418.str2uint (aes_counter c) = x.

Lemma ctr_at_range c key x : ctr_at c key x -> 0 <= x < 2 ^ 128.
Proof. intros (_ & [El Hb] & <-). pose proof (str2uint_range _ Hb) as Hr. unfold zlen in Hr. by rewrite El in Hr. Qed.

Lemma next_ctr_at c key x : ctr_at c key x -> ctr_at (next_ctr c) key ((x + 1) mod 2 ^ 128).
Proof.
  intros (Ek & [El Hb] & <-). split; [done|]. unfold next_ctr, AES_BLOCK_SIZE. cbn [aes_counter].
  destruct (ctr_inc_value _ Hb) as (E1 & E2 & E3). unfold zlen in E1. rewrite El in E1, E2, E3. by split.
Qed.

(** Whole blocks. *)
Lemma ctr_stream n : forall c key x src, ctr_at c key x -> length src = (16 * n)%nat ->
  exists c' buf, ctr_bytes c 0 [] src = (zip_with Z.lxor src (keystream key x n), (c', 0%nat, buf)) /\
    ctr_at c' key ((x + Z.of_nat n) mod 2 ^ 128).
Proof using AL.
  induction n as [|n IH]; intros c key x src Hc El.
  { destruct src; [|done]. exists c, []. split; [done|]. rewrite Z.add_0_r, Z.mod_small by (by apply ctr_at_range in Hc). done. }
  rewrite <- (take_drop 16 src). rewrite ctr_bytes_app. assert (length (take 16 src) = 16%nat) as E16 by (rewrite length_take; lia).
  destruct (ctr_one_block c (take 16 src) E16) as [buf ->].
  assert (ctr_bytes (next_ctr c) 0 buf (drop 16 src) = ctr_bytes (next_ctr c) 0 [] (drop 16 src) \/ drop 16 src = []) as Hbuf
    by (destruct (drop 16 src); [by right|left; by apply ctr_bytes_buf]).
  destruct (IH (next_ctr c) key ((x + 1) mod 2 ^ 128) (drop 16 src)) as (c' & buf' & E & Hc'); [by apply next_ctr_at|rewrite length_drop; lia|].
  rewrite Z.add_mod_idemp_l in Hc' by lia. replace (x + 1 + Z.of_nat n) with (x + Z.of_nat (S n)) in Hc' by lia.
  rewrite <- (Nat.add_1_l n), keystream_split, zip_app by (rewrite keystream_length; lia).
  assert (aes_encryption (aes_ctx c) (aes_counter c) = keystream key x 1) as ->.
  { destruct Hc as (Ek & Hb & Ex). pose proof (ctr_at_range c key x (conj Ek (conj Hb Ex))). unfold keystream. cbn [seq map concat]. rewrite app_nil_r, Z.add_0_r, Z.mod_small by done.
    by rewrite <- Ex, counter_block_value, Ek. }
  destruct Hbuf as [-> |Hnil]; [rewrite E; by exists c', buf'|].
  rewrite Hnil in *. cbn [ctr_bytes] in *. invc E. exists (next_ctr c), buf. cbn [zip_with]. by rewrite app_nil_r.
Qed.

(** Calls one after the other. *)
Fixpoint ctr_calls (ctx : evp_cipher_ctx) (srcs : list (list Z)) : option (list Z * evp_cipher_ctx) :=
  match srcs with
  | [] => Some ([], ctx)
  | src :: srcs =>
      '(out, ctx) ← ssh_aes_ctr ctx src;
      '(outs, ctx) ← ctr_calls ctx srcs;
      Some (out ++ outs, ctx)
  end.

Lemma ctr_call ctx c key x src n : app_data ctx = Some c -> ctr_at c key x -> length src = (16 * n)%nat ->
  exists ctx' c', ssh_aes_ctr ctx src = Some (zip_with Z.lxor src (keystream key x n), ctx') /\
    app_data ctx' = Some c' /\ ctr_at c' key ((x + Z.of_nat n) mod 2 ^ 128).
Proof using AL.
  intros Ea Hc El. unfold ssh_aes_ctr. destruct (Nat.eqb_spec (length src) 0) as [E0|E0].
  - destruct src; [|done]. assert (n = 0%nat) as -> by (cbn in El; lia). exists ctx, c. split; [done|]. split; [done|].
    rewrite Z.add_0_r, Z.mod_small by (by apply ctr_at_range in Hc). done.
  - rewrite Ea. destruct (ctr_stream n c key x src Hc El) as (c' & buf & -> & Hc'). by eexists _, c'.
Qed.

Lemma ctr_calls_stream srcs : forall ctx c key x, app_data ctx = Some c -> ctr_at c key x -> Forall (fun src => (16 | zlen src)) srcs ->
  exists ctx', ctr_calls ctx srcs = Some (zip_with Z.lxor (concat srcs) (keystream key x (length (concat srcs) / 16)), ctx').
Proof using AL.
  induction srcs as [|src srcs IH]; intros ctx c key x Ea Hc Hs; [by exists ctx|]. apply Forall_cons in Hs as [[n Hn] Hs].
  assert (length src = (16 * Z.to_nat n)%nat) as El by (unfold zlen in Hn; lia). cbn [ctr_calls concat].
  destruct (ctr_call ctx c key x src _ Ea Hc El) as (ctx1 & c1 & -> & Ea1 & Hc1). cbn [mbind option_bind].
  destruct (IH ctx1 c1 key _ Ea1 Hc1 Hs) as (ctx2 & ->). cbn [mbind option_bind]. exists ctx2. rewrite length_app, El.
  replace ((16 * Z.to_nat n + length (concat srcs)) / 16)%nat with (Z.to_nat n + length (concat srcs) / 16)%nat
    by (by rewrite Nat.mul_comm, Nat.div_add_l).
  by rewrite keystream_split, zip_app by (rewrite keystream_length; lia).
Qed.

End CtrProps.

(** The calls of cipher.cpp: with the IV, then with the key. *)
Definition ctr_start {AE : Aes} (mem : ssh_aes_ctr_ctx) (key iv : list Z) : evp_cipher_ctx :=
  ssh_aes_ctr_init mem (ssh_aes_ctr_init mem (mkEvp None (zlen key)) None (Some iv)) (Some key) None.

(** What the counter mode makes of messages of whole blocks, in any number of calls and
    with any key, is what RFC 4344 defines for the IV; whatever the memory held before. *)
Lemma ctr_rfc4344 {AE : Aes} {AL : AesLaws} mem key iv srcs :
  block iv -> Forall (fun src => (16 | zlen src)) srcs ->
  exists ctx, ctr_calls (ctr_start mem key iv) srcs = Some (SDCTR key iv (concat srcs), ctx).
Proof.
  intros [El Hiv] Hs. unfold SDCTR. eapply ctr_calls_stream; [done| |done].
  split; [cbn; unfold zlen; by rewrite Nat2Z.id, take_ge|].
  change (aes_counter _) with (take 16 iv). rewrite take_ge by lia. done.
Qed.

(** NIST SP 800-38A, F.5.1, its first block, cut from a message of two. *)
Example sp800_38a_f51 :
  let key := [43; 126; 21; 22; 40; 174; 210; 166; 171; 247; 21; 136; 9; 207; 79; 60] in
  let iv := Fips197.upto16 (fun i => 240 + i)%nat in
  let p := [107; 193; 190; 226; 46; 64; 159; 150; 233; 61; 126; 17; 115; 147; 23; 42] in
  option_map (fun r => take 16 r.1) (ctr_calls (ctr_start (AE := Fips197.aes) (mkCtr (aes_key_setup []) []) key iv) [p; p]) =
  Some [135; 77; 97; 145; 182; 32; 227; 38; 27; 239; 104; 100; 153; 13; 182; 206].
Proof. vm_compute. reflexivity. Qed.

(** A counter wraps around. *)
Example ctr_wraps : ssh_ctr_inc (replicate 16 255) 16 = replicate 16 0.
Proof. reflexivity. Qed.
