(* ===== verification/SshAlgorithms.v ===== *)
(** * SshAlgorithms: the program's own algorithms behind the packet layer

    The packet layer is proved for any algorithms that keep [SshCipher.CryptoLaws].  Two of
    the algorithms are code of the program: the counter mode ([SshCtr]) and UMAC
    ([SshUmac]).  Here they are put in the place of OpenSSL's: [own_crypto] takes them and
    leaves the other ciphers and HMAC to a given [Crypto], and [own_laws] proves the laws.
    What mac.cpp and cipher.cpp then compute is given by the RFCs. *)

From S2P Require Import Prelude SshBuffer SshMatch SshCipher SshPacket SshTransport SshUmac SshAes SshUmacProps SshCtr.

Section Own.
Context {C : Crypto} {AE : Aes} {AL : AesLaws} (mem : ssh_aes_ctr_ctx).

(** The calls of [cipher_init] for the counter mode: the IV, the length of the key, the key. *)
Definition ctr_cipher_init (key : list Z) (iv : option (list Z)) : evp_cipher_ctx :=
  let ctx := ssh_aes_ctr_init mem (mkEvp None (key_len aes_ctr)) None iv in
  let ctx := mkEvp (app_data ctx) (zlen key) in
  ssh_aes_ctr_init mem ctx (Some key) None.

(** A context of UMAC: the pad it keeps is a block. *)
Definition umac_own : Type := { ctx : SshUmac.umac_ctx | length (cache (pdf ctx)) = 16%nat }.

Lemma umac_new_cache key : length (cache (pdf (SshUmac.umac_new key))) = 16%nat.
Proof using AL. apply aes_length. Qed.

Lemma umac_final_cache ctx nonce : length (cache (pdf ctx)) = 16%nat -> length (cache (pdf (umac_final ctx nonce).2)) = 16%nat.
Proof using AL.
  intros H. unfold umac_final. destruct (uhash_final _) as [tag h]. unfold pdf_gen_xor. cbn [snd pdf].
  destruct (_ || _); [apply aes_length|done].
Qed.

(** [umac_update] and [umac_final] of [mac_compute] *)
Definition umac_both (ctx : SshUmac.umac_ctx) (data nonce : list Z) : list Z * SshUmac.umac_ctx := umac_final (umac_update ctx data) nonce.

Definition umac_step (ctx : umac_own) (data nonce : list Z) : list Z * umac_own :=
  ((umac_both (`ctx) data nonce).1, exist _ (umac_both (`ctx) data nonce).2 (umac_final_cache (umac_update (`ctx) data) nonce (proj2_sig ctx))).

Definition own_crypto : Crypto := {|
  evp_ctx := evp_ctx + evp_cipher_ctx;
  EVP_CipherInit := fun t key iv enc =>
    match t with
    | evp_aes_128_ctr => Some (inr (ctr_cipher_init key iv))
    | _ => option_map inl (EVP_CipherInit t key iv enc)
    end;
  EVP_Cipher := fun ctx p =>
    match ctx with
    | inl ctx => option_map (fun r => (r.1, inl r.2)) (EVP_Cipher ctx p)
    | inr ctx => option_map (fun r => (r.1, inr r.2)) (ssh_aes_ctr ctx p)
    end;
  EVP_MD_size := EVP_MD_size;
  HMAC := HMAC;
  SshCipher.umac_ctx := umac_own;
  SshCipher.umac_new := fun key => exist _ (SshUmac.umac_new key) (umac_new_cache key);
  SshCipher.umac := umac_step
|}.

(** ** The laws *)

Lemma uhash_tag_length h : length (uhash_final h).1 = 8%nat.
Proof.
  unfold uhash_final. destruct (_ >? _).
  - cbn [fst]. unfold ip_long. cbn [map concat streams seq STREAMS]. by rewrite app_nil_r.
  - by destruct (nh_final _) as [r h'].
Qed.

Lemma umac_tag_length ctx data nonce : length (cache (pdf ctx)) = 16%nat -> length (umac_both ctx data nonce).1 = 8%nat.
Proof using AL.
  intros Hc. unfold umac_both, umac_final. pose proof (uhash_tag_length (uhash (umac_update ctx data))) as Ht.
  pose proof (umac_final_cache (umac_update ctx data) nonce Hc) as Hc'. unfold umac_final in Hc'.
  destruct (uhash_final _) as [tag h]. unfold pdf_gen_xor in *. cbn [fst snd pdf] in *.
  set (pc := if _ || _ then _ else _) in *. unfold xor_bytes. rewrite length_zip_with, Ht. unfold slice. rewrite length_take, length_drop, Hc'.
  change LOW_BIT_MASK with (Z.ones 1). rewrite Z.land_ones by lia. pose proof (Z.mod_pos_bound (znth 0 nonce 7) (2 ^ 1) ltac:(lia)). lia.
Qed.

Lemma ctr_round e p o e' : ssh_aes_ctr e p = Some (o, e') -> forall d, app_data d = app_data e ->
  exists d', ssh_aes_ctr d o = Some (p, d') /\ app_data d' = app_data e'.
Proof.
  unfold ssh_aes_ctr. intros E d Hd. destruct (Nat.eqb_spec (length p) 0) as [E0|E0].
  - invc E. destruct p; [|done]. by exists d.
  - destruct (app_data e) as [c|] eqn:Ec; [|done]. destruct (ctr_bytes c 0 [] p) as [o1 [[c1 n1] b1]] eqn:Eb. invc E.
    pose proof (ctr_bytes_length p c 0 []) as El. rewrite Eb in El. cbn [fst] in El. rewrite El. destruct (Nat.eqb_spec (length p) 0); [done|].
    rewrite Hd, (ctr_bytes_inv _ _ _ _ _ _ Eb). by eexists.
Qed.

Lemma ctr_cut e p q o e' : (16 | zlen p) -> ssh_aes_ctr e (p ++ q) = Some (o, e') ->
  exists o1 e1 o2, ssh_aes_ctr e p = Some (o1, e1) /\ ssh_aes_ctr e1 q = Some (o2, e') /\ o = o1 ++ o2.
Proof.
  intros [n Hn] E. destruct (Nat.eqb_spec (length p) 0) as [E0|E0]; [destruct p; [|done]; by exists [], e, o|].
  unfold ssh_aes_ctr in *. rewrite length_app in E. destruct (Nat.eqb_spec (length p) 0); [done|].
  destruct (Nat.eqb_spec (length p + length q) 0); [lia|]. destruct (app_data e) as [c|]; [|done]. rewrite ctr_bytes_app in E.
  pose proof (ctr_bytes_pos p c 0 [] ltac:(lia)) as Hp. destruct (ctr_bytes c 0 [] p) as [o1 [[c1 k1] b1]]. cbn [fst snd] in Hp.
  assert (k1 = 0%nat) as -> by (unfold zlen in Hn; rewrite Hp; cbn [Nat.add]; apply Nat2Z.inj; rewrite Nat2Z.inj_mod, Hn; apply Z.mod_mul; lia).
  exists o1, (set_app_data e (Some c1)). destruct (Nat.eqb_spec (length q) 0) as [Eq|Eq].
  - destruct q; [|done]. cbn in E. invc E. by exists [].
  - rewrite (ctr_bytes_buf c1 b1 []) in E by (by intros ->). cbn [app_data set_app_data].
    destruct (ctr_bytes c1 0 [] q) as [o2 [[c2 n2] b2]]. invc E. by exists o2.
Qed.

Lemma ctr_length e p o e' : ssh_aes_ctr e p = Some (o, e') -> length o = length p.
Proof.
  unfold ssh_aes_ctr. destruct (Nat.eqb_spec (length p) 0) as [E0|E0]; [intros E; invc E; by destruct p|].
  destruct (app_data e) as [c|]; [|done]. pose proof (ctr_bytes_length p c 0 []) as El. destruct (ctr_bytes _ _ _ _) as [o1 [[c1 n1] b1]].
  intros E. by invc E.
Qed.

Lemma ctr_keeps e p o e' : ssh_aes_ctr e p = Some (o, e') -> app_data e <> None -> app_data e' <> None.
Proof.
  unfold ssh_aes_ctr. destruct (_ =? _)%nat; [intros E; by invc E|]. destruct (app_data e); [|done].
  destruct (ctr_bytes _ _ _ _) as [o1 [[c1 n1] b1]]. intros E _. by invc E.
Qed.

(** The promise to the packet layer is kept. *)
Definition own_laws (CL : CryptoLaws) : @CryptoLaws own_crypto.
Proof.
  refine (@Build_CryptoLaws own_crypto
    (fun e d => match e, d with
                | inl e, inl d => in_sync e d
                | inr e, inr d => app_data d = app_data e /\ app_data e <> None
                | _, _ => False
                end)
    (fun x => match x with inl x => evp_block x | inr _ => 16 end) _ _ _ _ _ _ _ _); cbn [SshCipher.evp_ctx own_crypto EVP_Cipher HMAC SshCipher.umac EVP_MD_size].
  - intros [e|e] [d|d] H; try done. by apply sync_block.
  - intros [x|x] p c x' E; [|by destruct (ssh_aes_ctr x p); invc E].
    destruct (EVP_Cipher x p) as [[o y]|] eqn:Ex; [|done]; injection E as <- <-. by apply cipher_block in Ex.
  - intros [x|x] p c x' E.
    + destruct (EVP_Cipher x p) as [[o y]|] eqn:Ex; [|done]; injection E as <- <-. by apply cipher_length in Ex.
    + destruct (ssh_aes_ctr x p) as [[o y]|] eqn:Ex; [|done]; injection E as <- <-. by apply ctr_length in Ex.
  - intros [e|e] [d|d] p H Hb; try done.
    + destruct (cipher_total e d p H Hb) as (c & e' & E). rewrite E. by eexists _, _.
    + destruct H as [_ He]. unfold ssh_aes_ctr. destruct (_ =? _)%nat; [by eexists _, _|]. destruct (app_data e) as [c|]; [|done].
      destruct (ctr_bytes _ _ _ _) as [o [[c1 n1] b1]]. by eexists _, _.
  - intros [e|e] [d|d] p c e' H Hb E; try done.
    + destruct (EVP_Cipher e p) as [[o y]|] eqn:Ex; [|done]; injection E as <- <-. destruct (decrypt_encrypt e d p o y H Hb Ex) as (d' & Ed & Hd).
      exists (inl d'). by rewrite Ed.
    + destruct (ssh_aes_ctr e p) as [[o y]|] eqn:Ex; [|done]; injection E as <- <-. destruct H as [H He]. destruct (ctr_round e p o y Ex d H) as (d' & Ed & Hd).
      exists (inr d'). cbn [option_map]. rewrite Ed. split; [done|]. split; [done|]. by apply (ctr_keeps e p o y).
  - intros [x|x] p q out x' Hp Hq E.
    + destruct (EVP_Cipher x (p ++ q)) as [[o y]|] eqn:Ex; [|done]; injection E as <- <-. destruct (cipher_chunks x p q o y Hp Hq Ex) as (o1 & x1 & o2 & E1 & E2 & ->).
      exists o1, (inl x1), o2. by rewrite E1, E2.
    + destruct (ssh_aes_ctr x (p ++ q)) as [[o y]|] eqn:Ex; [|done]; injection E as <- <-. destruct (ctr_cut x p q o y Hp Ex) as (o1 & x1 & o2 & E1 & E2 & ->).
      exists o1, (inr x1), o2. by rewrite E1, E2.
  - intros. apply hmac_length.
  - intros ctx data nonce. cbn. unfold zlen. rewrite umac_tag_length; [done|]. apply (proj2_sig ctx).
Defined.

(** ** mac.cpp with UMAC *)

#[local] Existing Instance own_crypto.

Definition set_mac_key (m : Mac) (key : list Z) : Mac :=
  mkMac (mac_name m) (mac_enabled m) (mac_len m) (Some key) (mac_key_len m) (mac_type m) (mac_evp_md m) (mac_evp_ctx m) (mac_umac_ctx m).

(** The tags of packets, one after the other. *)
Fixpoint mac_run (m : Mac) (pkts : list (Z * list Z)) : res (list (list Z)) :=
  match pkts with
  | [] => Ok []
  | (seqno, data) :: pkts =>
      '(tag, m) ← mac_compute m seqno data EVP_MAX_MD_SIZE;
      tags ← mac_run m pkts;
      Ok (tag :: tags)
  end.

Lemma put_u64_ok v : bytes_ok (put_u64 v) /\ length (put_u64 v) = 8%nat.
Proof. rewrite put_u64_split. split; [apply Forall_app_2; apply put_u32_ok|done]. Qed.

Lemma umac_run_mac key pkts : block key -> Forall (fun p => zlen p.2 <= 2 ^ 24) pkts ->
  forall m (ctx : umac_own), mac_type m = SSH_UMAC -> mac_len m = 8 -> mac_umac_ctx m = Some ctx -> umac_holds key (`ctx) [] ->
  mac_run m pkts = Ok (map (fun '(seqno, data) => Rfc4418.UMAC key data (put_u64 seqno)) pkts).
Proof.
  intros Hk Hp. induction Hp as [|[seqno data] pkts Hd Hp IH]; intros m ctx Et El Ec Hc; [done|].
  cbn [mac_run map]. unfold mac_compute. rewrite El, Et, Ec. cbn [snd] in Hd. destruct (put_u64_ok seqno) as [Hb H8].
  pose proof (umac_update_holds key Hk [data] (`ctx) [] Hc) as Hu. cbn [app concat foldl] in Hu. rewrite app_nil_r in Hu. specialize (Hu ltac:(lia)).
  destruct (umac_final_eq key Hk _ _ (put_u64 seqno) Hu Hb H8) as [E H].
  change (8 >? EVP_MAX_MD_SIZE) with false. change (SSH_UMAC =? SSH_EVP) with false. change (SSH_UMAC =? SSH_UMAC) with true. cbv iota.
  change (@SshCipher.umac own_crypto ctx data (put_u64 seqno)) with (umac_step ctx data (put_u64 seqno)). unfold umac_step. cbn [mbind res_bind].
  erewrite IH by (try done). cbn [mbind res_bind]. unfold umac_both. by rewrite E.
Qed.

(** C11: a MAC that is set up for umac-64@openssh.com and initialised with a key of at least
    16 bytes gives every packet the tag of RFC 4418 for the first 16 bytes of the key, the
    packet and its sequence number as a nonce of 8 bytes, one packet after the other. *)
Theorem own_mac_rfc4418 m key pkts :
  (16 <= length key)%nat -> bytes_ok key -> Forall (fun p => zlen p.2 <= 2 ^ 24) pkts ->
  exists m1 m2, mac_setup m (str "umac-64@openssh.com") = Ok (Some m1) /\ mac_init (set_mac_key m1 key) = Ok (true, m2) /\
    mac_run m2 pkts = Ok (map (fun '(seqno, data) => Rfc4418.UMAC (take 16 key) data (put_u64 seqno)) pkts).
Proof.
  intros Hl Hb Hp. eexists _, _. split; [done|]. split; [done|].
  assert (block (take 16 key)) as Hk by (split; [rewrite length_take; lia|by apply Forall_take]).
  eapply (umac_run_mac (take 16 key)); [done..|].
  change (umac_holds (take 16 key) (SshUmac.umac_new key) []).
  replace (SshUmac.umac_new key) with (SshUmac.umac_new (take 16 key)) by (unfold SshUmac.umac_new, UMAC_KEY_LEN; by rewrite take_take).
  by apply umac_new_holds.
Qed.

(** ** cipher.cpp with the counter mode *)

Fixpoint crypt_run (cc : CipherContext) (srcs : list (list Z)) : res (list Z * CipherContext) :=
  match srcs with
  | [] => Ok ([], cc)
  | src :: srcs =>
      '(out, cc) ← cipher_crypt cc src;
      '(outs, cc) ← crypt_run cc srcs;
      Ok (out ++ outs, cc)
  end.

Lemma crypt_run_ctr srcs : forall cc ctx, evp cc = inr ctx -> c_block_size (cc_cipher cc) = 16 -> Forall (fun src => (16 | zlen src)) srcs ->
  forall out ctx', ctr_calls ctx srcs = Some (out, ctx') -> exists cc', crypt_run cc srcs = Ok (out, cc').
Proof.
  induction srcs as [|src srcs IH]; intros cc ctx Ee Eb Hs out ctx' E; [invc E; by exists cc|].
  apply Forall_cons in Hs as [Hd Hs]. cbn [ctr_calls crypt_run] in *. unfold cipher_crypt. rewrite Eb.
  destruct (zlen src mod 16 =? 0) eqn:E0; zbool; [|apply Z.mod_divide in Hd; lia]. cbn [negb]. rewrite Ee.
  cbn [EVP_Cipher own_crypto]. destruct (ssh_aes_ctr ctx src) as [[o ctx1]|]; [|done]. cbn [mbind option_bind] in E.
  destruct (ctr_calls ctx1 srcs) as [[os ctx2]|] eqn:E2; [|done]. cbn [mbind option_bind] in E. invc E.
  cbn [option_map or_fatal mbind res_bind fst snd].
  destruct (IH (@mkCC own_crypto (plaintext cc) (@inr (@evp_ctx C) _ ctx1) (cc_cipher cc)) ctx1 eq_refl Eb Hs _ _ E2) as [cc' ->]. by exists cc'.
Qed.

(** C10: a context that is initialised for aes128-ctr, aes192-ctr or aes256-ctr turns the
    texts that are put through it, each of whole blocks, into what RFC 4344 defines for
    the key, the IV and all of them together; the same for both directions. *)
Theorem own_cipher_rfc4344 c key iv enc srcs :
  In c ciphers -> c_evptype c = evp_aes_128_ctr -> c_key_len c <= zlen key -> block iv -> Forall (fun src => (16 | zlen src)) srcs ->
  exists cc cc', cipher_init c key (Some iv) enc = Ok cc /\ crypt_run cc srcs = Ok (Rfc4344.SDCTR key iv (concat srcs), cc').
Proof.
  intros Hc Et Hk [El Hiv] Hs.
  assert (c_number c = SSH_CIPHER_SSH2 /\ c_block_size c = 16 /\ c_discard_len c = 0) as (En & Eb & Ed)
    by (cbn in Hc; repeat destruct Hc as [<-|Hc]; done).
  unfold cipher_init. rewrite En, Eb, Ed, Et. change (SSH_CIPHER_SSH2 =? SSH_CIPHER_DES) with false. cbv iota.
  destruct (_ <? c_key_len c) eqn:E1; zbool; [lia|]. replace (zlen iv <? 16) with false by (unfold zlen; rewrite El; done).
  cbn [EVP_CipherInit own_crypto or_fatal mbind res_bind]. change (0 >? 0) with false. cbv iota.
  replace (take (Z.to_nat (zlen key)) key) with key by (unfold zlen; by rewrite Nat2Z.id, take_ge).
  destruct (ctr_calls_stream srcs (ctr_cipher_init key (Some iv)) (mkCtr (aes_key_setup key) iv) key (Rfc4418.str2uint iv)) as [ctx' E]; [| |done|].
  - unfold ctr_cipher_init, ssh_aes_ctr_init. cbn [app_data set_app_data key_length aes_counter aes_ctx]. unfold AES_BLOCK_SIZE, zlen. by rewrite Nat2Z.id, !take_ge by lia.
  - by split.
  - destruct (crypt_run_ctr srcs (@mkCC own_crypto (SSH_CIPHER_SSH2 =? SSH_CIPHER_NONE) (@inr (@evp_ctx C) _ (ctr_cipher_init key (Some iv))) c) _ eq_refl Eb Hs _ _ E) as [cc' Er].
    by eexists _, cc'.
Qed.

End Own.

(** ** With AES *)

Definition zero_ctr : ssh_aes_ctr_ctx (AE := Fips197.aes) := mkCtr (aes_key_setup (Aes := Fips197.aes) (replicate 16 0)) (replicate 16 0).

Definition aes_crypto : Crypto := own_crypto (C := Toy.toy_crypto) (AE := Fips197.aes) (AL := Fips197.aes_laws) zero_ctr.

Definition new_mac : @Mac aes_crypto := @mkMac aes_crypto [] true 0 None 0 0 None None None.

Lemma own_mac_rfc4418_witness :
  exists m1 m2, @mac_setup aes_crypto new_mac (str "umac-64@openssh.com") = Ok (Some m1) /\
    @mac_init aes_crypto (set_mac_key (AL := Fips197.aes_laws) zero_ctr m1 (str "abcdefghijklmnopqrst")) = Ok (true, m2) /\
    mac_run (AL := Fips197.aes_laws) zero_ctr m2 [(7, str "packet"); (8, replicate 1500 5)] =
      Ok (map (fun '(seqno, data) => Rfc4418.UMAC (AE := Fips197.aes) (take 16 (str "abcdefghijklmnopqrst")) data (put_u64 seqno))
           [(7, str "packet"); (8, replicate 1500 5)]).
Proof.
  apply (own_mac_rfc4418 (C := Toy.toy_crypto) (AE := Fips197.aes) (AL := Fips197.aes_laws) zero_ctr new_mac (str "abcdefghijklmnopqrst")).
  - vm_compute. repeat constructor.
  - repeat (apply Forall_cons_2; [unfold is_u8; cbn; lia|]). apply Forall_nil_2.
  - repeat apply Forall_cons_2; [vm_compute; congruence..|apply Forall_nil_2].
Defined.

Lemma own_cipher_rfc4344_witness :
  let c := mkCipher (str "aes128-ctr") SSH_CIPHER_SSH2 16 16 0 evp_aes_128_ctr in
  let iv := Fips197.upto16 (fun i => 240 + i)%nat in
  exists cc cc', @cipher_init aes_crypto c (str "abcdefghijklmnop") (Some iv) true = Ok cc /\
    crypt_run (AL := Fips197.aes_laws) zero_ctr cc [replicate 16 1; replicate 48 2] =
      Ok (Rfc4344.SDCTR (AE := Fips197.aes) (str "abcdefghijklmnop") iv (concat [replicate 16 1; replicate 48 2]), cc').
Proof.
  apply (own_cipher_rfc4344 (C := Toy.toy_crypto) (AE := Fips197.aes) (AL := Fips197.aes_laws) zero_ctr).
  - cbn. tauto.
  - reflexivity.
  - vm_compute. congruence.
  - split; [reflexivity|]. unfold Fips197.upto16. repeat (apply Forall_cons_2; [unfold is_u8; cbn; lia|]). apply Forall_nil_2.
  - apply Forall_cons_2; [by exists 1|]. apply Forall_cons_2; [by exists 3|]. apply Forall_nil_2.
Defined.
