(* ===== verification/SshBase64.v ===== *)
(** * SshBase64: base64.cpp and uuencode.cpp

    Encoding and decoding of base64 as key files use it.  A C string is the list of its
    characters without the terminating NUL.  The theorem is exact: the decoder accepts a
    text if and only if it is, apart from white space, the encoding of some data. *)

From S2P Require Import Prelude SshBuffer.

Definition Base64 : list Z := str "ABCDEFGHIJKLMNOPQRSTUVWXYZabcdefghijklmnopqrstuvwxyz0123456789+/".
Definition Pad64 : Z := 61.

(** ** Encoding *)

(** The string at [target]; [None] for -1.  [datalength] characters were written before. *)
Fixpoint ntop_loop (src : list Z) (datalength targsize : Z) : option (list Z) :=
  match src with
  | i0 :: i1 :: i2 :: src =>
      let o0 := Z.shiftr i0 2 in
      let o1 := Z.shiftl (Z.land i0 3) 4 + Z.shiftr i1 4 in
      let o2 := Z.shiftl (Z.land i1 15) 2 + Z.shiftr i2 6 in
      let o3 := Z.land i2 63 in
      if datalength + 4 >? targsize then None
      else
        rest ← ntop_loop src (datalength + 4) targsize;
        Some (znth 0 Base64 o0 :: znth 0 Base64 o1 :: znth 0 Base64 o2 :: znth 0 Base64 o3 :: rest)
  | [] => if datalength >=? targsize then None else Some []
  | i0 :: rest =>
      let i1 := match rest with i1 :: _ => i1 | [] => 0 end in
      let o0 := Z.shiftr i0 2 in
      let o1 := Z.shiftl (Z.land i0 3) 4 + Z.shiftr i1 4 in
      let o2 := Z.shiftl (Z.land i1 15) 2 + Z.shiftr 0 6 in
      if datalength + 4 >? targsize then None
      else if datalength + 4 >=? targsize then None
      else Some [znth 0 Base64 o0; znth 0 Base64 o1;
                 match rest with [] => Pad64 | _ => znth 0 Base64 o2 end; Pad64]
  end.

Definition b64_ntop (src : list Z) (targsize : Z) : option (list Z) := ntop_loop src 0 targsize.

(** ** Decoding *)

(** In the C locale; what is behind ASCII is negative, and no space. *)
Definition isspace (ch : Z) : bool := (ch =? 32) || ((9 <=? ch) && (ch <=? 13)).

(** [strchr]: the place in the string. *)
Fixpoint strchr_pos (s : list Z) (ch : Z) (i : Z) : option Z :=
  match s with
  | [] => None
  | c :: s => if c =? ch then Some i else strchr_pos s ch (i + 1)
  end.

Definition pos64 (ch : Z) : option Z := strchr_pos Base64 ch 0.

Definition store (t : list Z) (i v : Z) : list Z := <[Z.to_nat i := u8 v]> t.

(** The switch in the loop: [target], [tarindex] and [state] behind it, [None] for -1. *)
Definition pton_char (target : option (list Z)) (targsize tarindex state pos : Z) : res (option (option (list Z) * Z * Z)) :=
  let at_ i := match target with Some t => znth 0 t i | None => 0 end in
  let store_ i v t := match t with Some t => Some (store t i v) | None => None end in
  let small := match target with Some _ => true | None => false end in
  if state =? 0 then
    if small && (tarindex >=? targsize) then Ok None
    else Ok (Some (store_ tarindex (Z.shiftl pos 2) target, tarindex, 1))
  else if state =? 1 then
    if small && (tarindex + 1 >=? targsize) then Ok None
    else
      let target := store_ tarindex (Z.lor (at_ tarindex) (Z.shiftr pos 4)) target in
      let target := store_ (tarindex + 1) (Z.shiftl (Z.land pos 15) 4) target in
      Ok (Some (target, tarindex + 1, 2))
  else if state =? 2 then
    if small && (tarindex + 1 >=? targsize) then Ok None
    else
      let target := store_ tarindex (Z.lor (at_ tarindex) (Z.shiftr pos 2)) target in
      let target := store_ (tarindex + 1) (Z.shiftl (Z.land pos 3) 6) target in
      Ok (Some (target, tarindex + 1, 3))
  else if state =? 3 then
    if small && (tarindex >=? targsize) then Ok None
    else Ok (Some (store_ tarindex (Z.lor (at_ tarindex) pos) target, tarindex + 1, 0))
  else Fatal "abort".

(** [for (; ch != '\0'; ch = *src++) if (!isspace(ch)) break;] *)
Fixpoint skip_spaces (src : list Z) : list Z :=
  match src with
  | [] => []
  | ch :: rest => if isspace ch then skip_spaces rest else src
  end.

(** What is behind the loop when a pad was seen; [src] is behind the pad. *)
Definition pton_pad (src : list Z) (target : option (list Z)) (tarindex state : Z) : option (Z * option (list Z)) :=
  let trailing src :=
    match skip_spaces src with
    | _ :: _ => None
    | [] => match target with
            | Some t => if negb (znth 0 t tarindex =? 0) then None else Some (tarindex, target)
            | None => Some (tarindex, target)
            end
    end in
  if (state =? 0) || (state =? 1) then None
  else if state =? 2 then
    match skip_spaces src with
    | ch :: src => if negb (ch =? Pad64) then None else trailing src
    | [] => None
    end
  else trailing src.

(** The number of bytes and what [target] holds; [None] for -1. *)
Fixpoint pton_loop (src : list Z) (target : option (list Z)) (targsize tarindex state : Z) : res (option (Z * option (list Z))) :=
  match src with
  | [] => Ok (if negb (state =? 0) then None else Some (tarindex, target))
  | ch :: src =>
      if isspace ch then pton_loop src target targsize tarindex state
      else if ch =? Pad64 then Ok (pton_pad src target tarindex state)
      else
        match pos64 ch with
        | None => Ok None
        | Some pos =>
            o ← pton_char target targsize tarindex state pos;
            match o with
            | None => Ok None
            | Some (target, tarindex, state) => pton_loop src target targsize tarindex state
            end
        end
  end.

Definition b64_pton (src : list Z) (target : option (list Z)) (targsize : Z) : res (option (Z * option (list Z))) :=
  pton_loop src target targsize 0 0.

(** ** uuencode.cpp *)

Definition uuencode (src : list Z) (targsize : Z) : option (list Z) := b64_ntop src targsize.

Definition is_blank (c : Z) : bool := (c =? 32) || (c =? 9).

Fixpoint skip_blanks (p : list Z) : list Z :=
  match p with
  | [] => []
  | c :: rest => if is_blank c then skip_blanks rest else p
  end.

(** Up to the next blank, and what is behind. *)
Fixpoint token (p : list Z) : list Z * list Z :=
  match p with
  | [] => ([], [])
  | c :: rest => if is_blank c then ([], p) else let '(t, r) := token rest in (c :: t, r)
  end.

(** The NUL goes behind the first word, in front of which blanks stay. *)
Definition uudecode (src : list Z) (target : option (list Z)) (targsize : Z) : res (option (Z * option (list Z))) :=
  let blanks := take (length src - length (skip_blanks src)) src in
  b64_pton (blanks ++ (token (skip_blanks src)).1) target targsize.

(** The characters printed. *)
Definition dump_base64 (data : list Z) : list Z :=
  let len := zlen data in
  if len >? 65536 then str "dump_base64: len > 65536" ++ [10]
  else
    match uuencode data (2 * len) with
    | Some buf =>
        concat (imap (fun i c => c :: (if (i mod 70 =? 69)%nat then [10] else [])) buf) ++
        (if negb (zlen buf mod 70 =? 69) then [10] else [])
    | None => [10]    (** nothing is printed in the loop; [i] is 0 *)
    end.

Example ntop_man : b64_ntop (str "Man") 5 = Some (str "TWFu").
Proof. reflexivity. Qed.
Example pton_ma : b64_pton (str " TW E = ") (Some (replicate 8 7)) 8 = Ok (Some (2, Some (str "Ma" ++ [0; 7; 7; 7; 7; 7]))).
Proof. reflexivity. Qed.

(** ** The definition of RFC 4648 *)

Module Rfc4648.

(** The characters of sextets. *)
Definition ch64 (i : Z) : Z := znth 0 Base64 i.

Fixpoint encode (s : list Z) : list Z :=
  match s with
  | a :: b :: c :: s => map ch64 [a / 4; a mod 4 * 16 + b / 16; b mod 16 * 4 + c / 64; c mod 64] ++ encode s
  | [a; b] => map ch64 [a / 4; a mod 4 * 16 + b / 16; b mod 16 * 4] ++ [Pad64]
  | [a] => map ch64 [a / 4; a mod 4 * 16] ++ [Pad64; Pad64]
  | [] => []
  end.

End Rfc4648.

Import Rfc4648.

(** ** The alphabet *)

Lemma strchr_pos_spec s : forall ch i k, strchr_pos s ch i = Some k -> i <= k < i + zlen s /\ znth 0 s (k - i) = ch.
Proof.
  induction s as [|c s IH]; intros ch i k E; [done|]. cbn [strchr_pos] in E. replace (zlen (c :: s)) with (1 + zlen s) by (unfold zlen; cbn [length]; lia).
  pose proof (zlen_nonneg s). destruct (c =? ch) eqn:Ec; zbool.
  - invc E. rewrite Z.sub_diag. split; [lia|done].
  - destruct (IH _ _ _ E) as [H1 H2]. split; [lia|]. unfold znth in *.
    replace (Z.to_nat (k - i)) with (S (Z.to_nat (k - (i + 1)))) by lia. done.
Qed.

Lemma pos64_ch ch i : pos64 ch = Some i -> 0 <= i < 64 /\ ch64 i = ch.
Proof. intros E. apply strchr_pos_spec in E as [H1 H2]. rewrite Z.sub_0_r in H2. split; [exact H1|exact H2]. Qed.

Lemma ch64_pos i : 0 <= i < 64 -> pos64 (ch64 i) = Some i /\ isspace (ch64 i) = false /\ (ch64 i =? Pad64) = false.
Proof.
  intros Hi. assert (forallb (fun n => let c := ch64 (Z.of_nat n) in
    bool_decide (pos64 c = Some (Z.of_nat n)) && negb (isspace c) && negb (c =? Pad64)) (seq 0 64) = true) as H by (vm_compute; reflexivity).
  rewrite forallb_forall in H. specialize (H (Z.to_nat i) ltac:(apply in_seq; lia)). cbv zeta in H. rewrite Z2Nat.id in H by lia.
  apply andb_prop in H as [H H3]. apply andb_prop in H as [H1 H2]. apply bool_decide_eq_true_1 in H1. by apply negb_true_iff in H2, H3.
Qed.

Lemma pos64_pad ch : pos64 ch <> None -> isspace ch = false /\ (ch =? Pad64) = false.
Proof. destruct (pos64 ch) as [i|] eqn:E; [|done]. intros _. apply pos64_ch in E as [Hi <-]. by apply ch64_pos. Qed.

(** ** The encoder *)

Lemma sextet_bits a b : is_u8 a -> is_u8 b ->
  Z.shiftr a 2 = a / 4 /\ Z.shiftl (Z.land a 3) 4 + Z.shiftr b 4 = a mod 4 * 16 + b / 16 /\
  Z.shiftl (Z.land a 15) 2 + Z.shiftr b 6 = a mod 16 * 4 + b / 64 /\ Z.land a 63 = a mod 64.
Proof.
  intros _ _. change 3 with (Z.ones 2). change 15 with (Z.ones 4). change 63 with (Z.ones 6).
  rewrite !Z.land_ones, !Z.shiftr_div_pow2, !Z.shiftl_mul_pow2 by lia. done.
Qed.

Lemma encode_length s : zlen (encode s) = 4 * ((zlen s + 2) / 3).
Proof.
  remember (length s) as n eqn:En. revert s En. induction n as [n IH] using lt_wf_ind. intros s En.
  destruct s as [|a [|b [|c s]]]; [done..|]. change (encode (a :: b :: c :: s)) with
    (map ch64 [a / 4; a mod 4 * 16 + b / 16; b mod 16 * 4 + c / 64; c mod 64] ++ encode s).
  rewrite zlen_app, (IH (length s)) by (done || (cbn in En; lia)). unfold zlen. cbn [length map].
  rewrite !Nat2Z.inj_succ. Z.div_mod_to_equations. lia.
Qed.

(** It gives the encoding if there is room for it and the NUL, and -1 otherwise. *)
Lemma ntop_spec s : forall d n, bytes_ok s -> ntop_loop s d n = if d + zlen (encode s) <? n then Some (encode s) else None.
Proof.
  remember (length s) as k eqn:Ek. revert s Ek. induction k as [k IH] using lt_wf_ind. intros s Ek d n Hs.
  assert (H0 : is_u8 0) by (unfold is_u8; lia).
  destruct s as [|a [|b [|c s]]]; cbn [ntop_loop]; rewrite ?Forall_cons in Hs.
  - change (zlen (encode [])) with 0. destruct (d >=? n) eqn:E1, (d + 0 <? n) eqn:E2; zbool; try lia; done.
  - destruct (sextet_bits a 0) as (E0 & E1 & _); [tauto..|]. rewrite E0, E1. change (zlen (encode [a])) with 4.
    rewrite Z.add_0_r. destruct (d + 4 >? n) eqn:F1, (d + 4 >=? n) eqn:F2, (d + 4 <? n) eqn:F3; zbool; try lia; done.
  - destruct (sextet_bits a b) as (E0 & E1 & _); [tauto..|]. destruct (sextet_bits b 0) as (_ & _ & E2 & _); [tauto..|]. rewrite E0, E1, E2.
    change (zlen (encode [a; b])) with 4. rewrite Z.add_0_r. destruct (d + 4 >? n) eqn:F1, (d + 4 >=? n) eqn:F2, (d + 4 <? n) eqn:F3; zbool; try lia; done.
  - destruct (sextet_bits a b) as (E0 & E1 & _); [tauto..|]. destruct (sextet_bits b c) as (_ & _ & E2 & _); [tauto..|].
    destruct (sextet_bits c c) as (_ & _ & _ & E3); [tauto..|]. rewrite E0, E1, E2, E3.
    rewrite (IH (length s)) by ((cbn in Ek; lia) || tauto). set (q := map ch64 [a / 4; a mod 4 * 16 + b / 16; b mod 16 * 4 + c / 64; c mod 64]).
    change (encode (a :: b :: c :: s)) with (q ++ encode s). rewrite zlen_app. change (zlen q) with 4. pose proof (zlen_nonneg (encode s)).
    rewrite Z.add_assoc. destruct (d + 4 >? n) eqn:F1, (d + 4 + zlen (encode s) <? n) eqn:F2; zbool; try lia; done.
Qed.

(** ** The decoder on text without white space *)

(** Groups of four characters. *)
Fixpoint decode (txt : list Z) : option (list Z) :=
  match txt with
  | [] => Some []
  | a :: b :: c :: d :: rest =>
      p ← pos64 a; q ← pos64 b;
      if c =? Pad64 then
        if (d =? Pad64) && bool_decide (rest = []) && (q mod 16 =? 0) then Some [p * 4 + q / 16] else None
      else
        r ← pos64 c;
        if d =? Pad64 then
          if bool_decide (rest = []) && (r mod 4 =? 0) then Some [p * 4 + q / 16; q mod 16 * 16 + r / 4] else None
        else
          s ← pos64 d;
          l ← decode rest;
          Some (p * 4 + q / 16 :: q mod 16 * 16 + r / 4 :: r mod 4 * 64 + s :: l)
  | _ => None
  end.

Lemma decode_encode s : bytes_ok s -> decode (encode s) = Some s.
Proof.
  remember (length s) as k eqn:Ek. revert s Ek. induction k as [k IH] using lt_wf_ind. intros s Ek Hs.
  destruct s as [|a [|b [|c s]]]; [done|..]; rewrite ?Forall_cons in Hs; unfold is_u8 in Hs; cbn [encode map app decode].
  - destruct (ch64_pos (a / 4)) as (-> & _); [Z.div_mod_to_equations; lia|]. destruct (ch64_pos (a mod 4 * 16)) as (-> & _); [Z.div_mod_to_equations; lia|].
    cbn [mbind option_bind]. rewrite Z.eqb_refl. rewrite Z.mod_mul, Z.eqb_refl, Z.div_mul by lia. cbn [andb bool_decide].
    rewrite bool_decide_true by done. do 2 f_equal. Z.div_mod_to_equations; lia.
  - destruct (ch64_pos (a / 4)) as (-> & _); [Z.div_mod_to_equations; lia|]. destruct (ch64_pos (a mod 4 * 16 + b / 16)) as (-> & _); [Z.div_mod_to_equations; lia|].
    cbn [mbind option_bind]. destruct (ch64_pos (b mod 16 * 4)) as (-> & _ & ->); [Z.div_mod_to_equations; lia|].
    cbn [mbind option_bind]. rewrite Z.eqb_refl. rewrite Z.mod_mul, Z.eqb_refl, Z.div_mul, bool_decide_true by (done || lia). cbn [andb].
    repeat f_equal; Z.div_mod_to_equations; lia.
  - destruct (ch64_pos (a / 4)) as (-> & _); [Z.div_mod_to_equations; lia|]. destruct (ch64_pos (a mod 4 * 16 + b / 16)) as (-> & _); [Z.div_mod_to_equations; lia|].
    cbn [mbind option_bind]. destruct (ch64_pos (b mod 16 * 4 + c / 64)) as (-> & _ & ->); [Z.div_mod_to_equations; lia|].
    cbn [mbind option_bind]. destruct (ch64_pos (c mod 64)) as (-> & _ & ->); [Z.div_mod_to_equations; lia|]. cbn [mbind option_bind].
    rewrite (IH (length s)) by ((cbn in Ek; lia) || tauto). cbn [mbind option_bind]. repeat f_equal; Z.div_mod_to_equations; lia.
Qed.

Lemma encode_decode txt s : decode txt = Some s -> bytes_ok s /\ txt = encode s.
Proof.
  remember (length txt) as k eqn:Ek. revert txt s Ek. induction k as [k IH] using lt_wf_ind. intros txt s Ek E.
  destruct txt as [|a [|b [|c [|d rest]]]]; try done; [by invc E|]. cbn [decode] in E.
  destruct (pos64 a) as [p|] eqn:Ea; [|done]. destruct (pos64 b) as [q|] eqn:Eb; [|done]. cbn [mbind option_bind] in E.
  apply pos64_ch in Ea as [Hp <-], Eb as [Hq <-]. destruct (c =? Pad64) eqn:Ec.
  - destruct (_ && _) eqn:E1; [|done]. apply andb_prop in E1 as [E1 E2]. apply andb_prop in E1 as [E1 E3]. apply bool_decide_eq_true_1 in E3. zbool. subst. invc E.
    split; [apply Forall_cons_2; [unfold is_u8; Z.div_mod_to_equations; lia|done]|]. cbn [encode map app]. repeat f_equal; Z.div_mod_to_equations; lia.
  - destruct (pos64 c) as [r|] eqn:Er; [|done]. cbn [mbind option_bind] in E. apply pos64_ch in Er as [Hr <-]. destruct (d =? Pad64) eqn:Ed.
    + destruct (_ && _) eqn:E1; [|done]. apply andb_prop in E1 as [E1 E2]. apply bool_decide_eq_true_1 in E1. zbool. subst. invc E.
      split; [repeat (apply Forall_cons_2; [unfold is_u8; Z.div_mod_to_equations; lia|]); done|]. cbn [encode map app]. repeat f_equal; Z.div_mod_to_equations; lia.
    + destruct (pos64 d) as [x|] eqn:Ex; [|done]. cbn [mbind option_bind] in E. apply pos64_ch in Ex as [Hx <-].
      destruct (decode rest) as [l|] eqn:El; [|done]. cbn [mbind option_bind] in E. invc E.
      destruct (IH (length rest) ltac:(cbn; lia) rest l eq_refl El) as [Hl ->].
      split; [repeat (apply Forall_cons_2; [unfold is_u8; Z.div_mod_to_equations; lia|]); done|]. cbn [encode map app]. repeat f_equal; Z.div_mod_to_equations; lia.
Qed.

(** *** The steps of the loop *)

Lemma store_at d x r v i : i = zlen d -> store (d ++ x :: r) i v = d ++ u8 v :: r.
Proof. intros ->. unfold store, zlen. rewrite Nat2Z.id, insert_app_r_alt, Nat.sub_diag by lia. done. Qed.

Lemma store_next d x y r v i : i = zlen d + 1 -> store (d ++ x :: y :: r) i v = d ++ x :: u8 v :: r.
Proof.
  intros ->. replace (d ++ x :: y :: r) with ((d ++ [x]) ++ y :: r) by (by rewrite <- app_assoc).
  rewrite store_at by (rewrite zlen_app; done). by rewrite <- app_assoc.
Qed.

Lemma znth_at (d : list Z) x r i : i = zlen d -> znth 0 (d ++ x :: r) i = x.
Proof. intros ->. unfold znth, zlen. by rewrite Nat2Z.id, nth_middle. Qed.

Lemma pton_char0 d x r n p i : i = zlen d -> zlen d < n -> 0 <= p < 64 ->
  pton_char (Some (d ++ x :: r)) n i 0 p = Ok (Some (Some (d ++ p * 4 :: r), i, 1)).
Proof.
  intros -> Hn Hp. unfold pton_char. destruct (_ && _) eqn:E; cbn [andb] in E; zbool; [lia|]. cbn [Z.eqb].
  rewrite store_at, Z.shiftl_mul_pow2, u8_small by (done || lia). done.
Qed.

Lemma pton_char1 d p y r n q i : i = zlen d -> zlen d + 1 < n -> 0 <= p < 64 -> 0 <= q < 64 ->
  pton_char (Some (d ++ p * 4 :: y :: r)) n i 1 q = Ok (Some (Some (d ++ p * 4 + q / 16 :: q mod 16 * 16 :: r), i + 1, 2)).
Proof.
  intros -> Hn Hp Hq. unfold pton_char. destruct (true && (zlen d >=? n)); cbn [Z.eqb]; (destruct (_ && _) eqn:E; cbn [andb] in E; zbool; [lia|]);
    rewrite znth_at, store_at, store_next by done; change 15 with (Z.ones 4);
    rewrite Z.land_ones, Z.shiftl_mul_pow2, Z.shiftr_div_pow2 by lia; change (p * 4) with (p * 2 ^ 2);
    rewrite lor_disjoint_add by (Z.div_mod_to_equations; lia); rewrite !u8_small by (Z.div_mod_to_equations; lia); done.
Qed.

Lemma pton_char2 d q y r n s i : i = zlen d -> zlen d + 1 < n -> 0 <= s < 64 ->
  pton_char (Some (d ++ q mod 16 * 16 :: y :: r)) n i 2 s = Ok (Some (Some (d ++ q mod 16 * 16 + s / 4 :: s mod 4 * 64 :: r), i + 1, 3)).
Proof.
  intros -> Hn Hs. unfold pton_char. cbn [Z.eqb Pos.eqb]. destruct (_ && _) eqn:E; cbn [andb] in E; zbool; [lia|].
  rewrite znth_at, store_at, store_next by done. change 3 with (Z.ones 2). rewrite Z.land_ones, Z.shiftl_mul_pow2, Z.shiftr_div_pow2 by lia.
  change (q mod 16 * 16) with (q mod 16 * 2 ^ 4). rewrite lor_disjoint_add by (Z.div_mod_to_equations; lia).
  rewrite !u8_small by (Z.div_mod_to_equations; lia). done.
Qed.

Lemma pton_char3 d s r n w i : i = zlen d -> zlen d < n -> 0 <= w < 64 ->
  pton_char (Some (d ++ s mod 4 * 64 :: r)) n i 3 w = Ok (Some (Some (d ++ s mod 4 * 64 + w :: r), i + 1, 0)).
Proof.
  intros -> Hn Hw. unfold pton_char. cbn [Z.eqb Pos.eqb]. destruct (_ && _) eqn:E; cbn [andb] in E; zbool; [lia|].
  rewrite znth_at, store_at by done. change (s mod 4 * 64) with (s mod 4 * 2 ^ 6). rewrite lor_disjoint_add by lia.
  rewrite !u8_small by (Z.div_mod_to_equations; lia). done.
Qed.

(** A character that is no space. *)
Lemma pton_cons ch src t n i st : isspace ch = false -> pton_loop (ch :: src) t n i st =
  if ch =? Pad64 then Ok (pton_pad src t i st)
  else match pos64 ch with
       | None => Ok None
       | Some pos =>
           o ← pton_char t n i st pos;
           match o with None => Ok None | Some (t, i, st) => pton_loop src t n i st end
       end.
Proof. intros E. cbn [pton_loop]. by rewrite E. Qed.

Lemma skip_spaces_clean src : Forall (fun c => isspace c = false) src -> skip_spaces src = src.
Proof. destruct 1 as [|c src Hc _]; [done|]. cbn [skip_spaces]. by rewrite Hc. Qed.

Lemma zlen_cons_succ {A} (x : A) l : zlen (x :: l) = 1 + zlen l.
Proof. unfold zlen. cbn [length]. lia. Qed.

(** The text ends or a pad comes where one byte, or two, are complete. *)
Lemma pad_one d v r src : Forall (fun c => isspace c = false) src ->
  pton_pad src (Some (d ++ v :: r)) (zlen d) 3 = if bool_decide (src = []) && (v =? 0) then Some (zlen d, Some (d ++ v :: r)) else None.
Proof.
  intros Hs. unfold pton_pad. cbn [Z.eqb Pos.eqb orb]. rewrite skip_spaces_clean by done. destruct src; [|by rewrite bool_decide_false].
  rewrite znth_at by done. rewrite bool_decide_true by done. by destruct (v =? 0).
Qed.

Lemma pad_two d v r src : Forall (fun c => isspace c = false) src ->
  pton_pad src (Some (d ++ v :: r)) (zlen d) 2 =
  match src with
  | ch :: src => if (ch =? Pad64) && bool_decide (src = []) && (v =? 0) then Some (zlen d, Some (d ++ v :: r)) else None
  | [] => None
  end.
Proof.
  intros Hs. unfold pton_pad. cbn [Z.eqb Pos.eqb orb]. rewrite skip_spaces_clean by done. destruct src as [|ch src]; [done|].
  apply Forall_cons in Hs as [_ Hs]. destruct (ch =? Pad64); [|done]. cbn [negb andb]. rewrite skip_spaces_clean by done.
  destruct src; [|by rewrite bool_decide_false]. rewrite znth_at by done. rewrite bool_decide_true by done. by destruct (v =? 0).
Qed.

(** The third and the fourth character of a group. *)
Lemma pton_third d q y t n c txt : Forall (fun c => isspace c = false) (c :: txt) -> zlen d + 1 < n -> 0 <= q < 64 ->
  pton_loop (c :: txt) (Some (d ++ q mod 16 * 16 :: y :: t)) n (zlen d) 2 =
  if c =? Pad64 then
    Ok match txt with
       | e :: rest => if (e =? Pad64) && bool_decide (rest = []) && (q mod 16 * 16 =? 0) then Some (zlen d, Some (d ++ q mod 16 * 16 :: y :: t)) else None
       | [] => None
       end
  else match pos64 c with
       | None => Ok None
       | Some r => pton_loop txt (Some ((d ++ [q mod 16 * 16 + r / 4]) ++ r mod 4 * 64 :: t)) n (zlen (d ++ [q mod 16 * 16 + r / 4])) 3
       end.
Proof.
  intros Hsp Hn Hq. apply Forall_cons in Hsp as [Hc Hsp]. rewrite pton_cons by done. destruct (c =? Pad64); [by rewrite pad_two|].
  destruct (pos64 c) as [r|] eqn:Er; [|done]. pose proof (pos64_ch _ _ Er) as [Hr _]. rewrite pton_char2 by (done || lia). cbn [mbind res_bind].
  by rewrite zlen_app, <- app_assoc.
Qed.

Lemma pton_fourth d r t n c txt : Forall (fun c => isspace c = false) (c :: txt) -> zlen d < n -> 0 <= r < 64 ->
  pton_loop (c :: txt) (Some (d ++ r mod 4 * 64 :: t)) n (zlen d) 3 =
  if c =? Pad64 then
    Ok (if bool_decide (txt = []) && (r mod 4 * 64 =? 0) then Some (zlen d, Some (d ++ r mod 4 * 64 :: t)) else None)
  else match pos64 c with
       | None => Ok None
       | Some s => pton_loop txt (Some ((d ++ [r mod 4 * 64 + s]) ++ t)) n (zlen (d ++ [r mod 4 * 64 + s])) 0
       end.
Proof.
  intros Hsp Hn Hr. apply Forall_cons in Hsp as [Hc Hsp]. rewrite pton_cons by done. destruct (c =? Pad64); [by rewrite pad_one|].
  destruct (pos64 c) as [s|] eqn:Es; [|done]. pose proof (pos64_ch _ _ Es) as [Hs _]. rewrite pton_char3 by (done || lia). cbn [mbind res_bind].
  by rewrite zlen_app, <- app_assoc.
Qed.

(** The first and the second. *)
Lemma pton_first d x y t n a b txt : Forall (fun c => isspace c = false) (a :: b :: txt) -> zlen d + 1 < n ->
  pton_loop (a :: b :: txt) (Some (d ++ x :: y :: t)) n (zlen d) 0 =
  match pos64 a, pos64 b with
  | Some p, Some q => pton_loop txt (Some ((d ++ [p * 4 + q / 16]) ++ q mod 16 * 16 :: t)) n (zlen (d ++ [p * 4 + q / 16])) 2
  | _, _ => Ok None
  end.
Proof.
  intros Hsp Hn. rewrite !Forall_cons in Hsp. destruct Hsp as (Ha & Hb & Hsp). rewrite pton_cons by done.
  destruct (a =? Pad64) eqn:Ea; [zbool; by subst a|]. destruct (pos64 a) as [p|] eqn:Ep; [|done].
  pose proof (pos64_ch _ _ Ep) as [Hp _]. rewrite pton_char0 by (done || lia). cbn [mbind res_bind]. rewrite pton_cons by done.
  destruct (b =? Pad64) eqn:Eb; [zbool; by subst b|]. destruct (pos64 b) as [q|] eqn:Eq; [|done].
  pose proof (pos64_ch _ _ Eq) as [Hq _]. rewrite pton_char1 by (done || lia). cbn [mbind res_bind].
  by rewrite zlen_app, <- app_assoc.
Qed.

(** One character makes no byte. *)
Lemma pton_single a t n i : isspace a = false -> pton_loop [a] t n i 0 = Ok None.
Proof.
  intros Ha. rewrite pton_cons by done. destruct (a =? Pad64); [done|]. destruct (pos64 a) as [p|]; [|done].
  unfold pton_char. cbn [Z.eqb]. by destruct (_ && _).
Qed.

(** The loop, with the bytes [d] written and [txt] to come: it takes what [decode] takes. *)
Lemma pton_clean txt : forall d t n, Forall (fun c => isspace c = false) txt -> zlen d + zlen txt <= n -> zlen (d ++ t) = n ->
  match decode txt with
  | Some l => exists t', pton_loop txt (Some (d ++ t)) n (zlen d) 0 = Ok (Some (zlen d + zlen l, Some (d ++ l ++ t'))) /\ length t = length (l ++ t')
  | None => pton_loop txt (Some (d ++ t)) n (zlen d) 0 = Ok None
  end.
Proof.
  remember (length txt) as k eqn:Ek. revert txt Ek. induction k as [k IH] using lt_wf_ind. intros txt Ek d t n Hsp Hn Ht.
  rewrite zlen_app in Ht. pose proof (zlen_nonneg d). destruct txt as [|a [|b txt]]; [exists t; rewrite Z.add_0_r; done|apply pton_single; by apply Forall_cons in Hsp as [? _]|].
  rewrite !zlen_cons_succ in Hn. pose proof (zlen_nonneg txt). destruct t as [|x [|y t]]; rewrite ?zlen_cons_succ in Ht; try (change (zlen []) with 0 in Ht; lia).
  rewrite pton_first by (done || lia). rewrite !Forall_cons in Hsp. destruct Hsp as (_ & _ & Hsp).
  destruct (pos64 a) as [p|] eqn:Ep; [|destruct txt as [|c [|e txt]]; cbn [decode]; rewrite ?Ep; done].
  destruct (pos64 b) as [q|] eqn:Eq; [|destruct txt as [|c [|e txt]]; cbn [decode]; rewrite ?Ep, ?Eq; done].
  pose proof (pos64_ch _ _ Eq) as [Hq _]. pose proof (pos64_ch _ _ Ep) as [Hp _]. set (d1 := d ++ [p * 4 + q / 16]).
  assert (zlen d1 = zlen d + 1) as E1 by (unfold d1; by rewrite zlen_app).
  destruct txt as [|c txt]; [done|]. rewrite zlen_cons_succ in *. pose proof (zlen_nonneg txt).
  destruct t as [|z t]; rewrite ?zlen_cons_succ in Ht; [change (zlen []) with 0 in Ht; lia|]. rewrite pton_third by (done || lia).
  destruct txt as [|e txt].
  { cbn [decode]. destruct (c =? Pad64); [done|]. by destruct (pos64 c). }
  cbn [decode]. rewrite Ep, Eq. cbn [mbind option_bind]. apply Forall_cons in Hsp as [_ Hsp]. destruct (c =? Pad64).
  - assert ((q mod 16 * 16 =? 0) = (q mod 16 =? 0)) as -> by (destruct (_ =? 0) eqn:F1, (q mod 16 =? 0) eqn:F2; zbool; lia).
    destruct (_ && _); [|done]. exists (q mod 16 * 16 :: z :: t). rewrite E1. unfold d1. rewrite <- app_assoc. done.
  - destruct (pos64 c) as [r|] eqn:Er; [|done]. cbn [mbind option_bind]. pose proof (pos64_ch _ _ Er) as [Hr _].
    set (d2 := d1 ++ [_]). assert (zlen d2 = zlen d + 2) as E2 by (unfold d2; rewrite zlen_app, E1; change (zlen [_]) with 1; lia).
    rewrite zlen_cons_succ in *. pose proof (zlen_nonneg txt). rewrite pton_fourth by (done || lia). destruct (e =? Pad64).
    + assert ((r mod 4 * 64 =? 0) = (r mod 4 =? 0)) as -> by (destruct (_ =? 0) eqn:F1, (r mod 4 =? 0) eqn:F2; zbool; lia).
      destruct (_ && _); [|done]. exists (r mod 4 * 64 :: t). rewrite E2. unfold d2, d1. rewrite <- !app_assoc. done.
    + destruct (pos64 e) as [s|] eqn:Es; [|done]. cbn [mbind option_bind]. set (d3 := d2 ++ [_]).
      assert (zlen d3 = zlen d + 3) as E3 by (unfold d3; rewrite zlen_app, E2; change (zlen [_]) with 1; lia).
      apply Forall_cons in Hsp as [_ Hsp]. specialize (IH (length txt) ltac:(cbn in Ek; lia) txt eq_refl d3 t n Hsp ltac:(lia) ltac:(rewrite zlen_app; lia)).
      destruct (decode txt) as [l|]; [|done]. cbn [mbind option_bind]. destruct IH as (t' & E & El). exists t'. rewrite E, E3, !zlen_cons_succ.
      split; [|cbn [app length]; lia]. unfold d3, d2, d1. rewrite <- !app_assoc. cbn [app]. do 3 f_equal. lia.
Qed.

(** ** White space *)

Definition squeeze (txt : list Z) : list Z := List.filter (fun c => negb (isspace c)) txt.

Lemma squeeze_clean txt : Forall (fun c => isspace c = false) (squeeze txt).
Proof. apply Forall_forall. intros c Hc%list_elem_of_In. apply filter_In in Hc as [_ Hc]. by apply negb_true_iff in Hc. Qed.

Lemma squeeze_len txt : zlen (squeeze txt) <= zlen txt.
Proof. unfold zlen. pose proof (filter_length_le (fun c => negb (isspace c)) txt). unfold squeeze. lia. Qed.

Lemma skip_squeeze src :
  match skip_spaces src with
  | [] => squeeze src = []
  | c :: r => skip_spaces (squeeze src) = c :: squeeze r
  end.
Proof.
  induction src as [|c src IH]; [done|]. cbn [skip_spaces]. unfold squeeze. cbn [List.filter]. fold (squeeze src).
  destruct (isspace c) eqn:E; [done|]. cbn [negb skip_spaces]. by rewrite E.
Qed.

Lemma pad_squeeze src t i st : pton_pad (squeeze src) t i st = pton_pad src t i st.
Proof.
  unfold pton_pad. destruct ((st =? 0) || (st =? 1)); [done|]. pose proof (skip_squeeze src) as H. destruct (st =? 2).
  - destruct (skip_spaces src) as [|c r]; [by rewrite H|]. rewrite H. destruct (c =? Pad64); [|done]. cbn [negb].
    pose proof (skip_squeeze r) as H2. destruct (skip_spaces r); [by rewrite H2|by rewrite H2].
  - destruct (skip_spaces src) as [|c r]; [by rewrite H|by rewrite H].
Qed.

Lemma pton_squeeze txt : forall t n i st, pton_loop (squeeze txt) t n i st = pton_loop txt t n i st.
Proof.
  induction txt as [|c txt IH]; intros t n i st; [done|]. unfold squeeze. cbn [List.filter pton_loop]. fold (squeeze txt).
  destruct (isspace c) eqn:E; cbn [negb]; [apply IH|]. cbn [pton_loop]. rewrite E. destruct (c =? Pad64); [by rewrite pad_squeeze|].
  destruct (pos64 c); [|done]. destruct (pton_char t n i st _) as [[[[t' i'] st']|]| |]; try done. cbn [mbind res_bind]. apply IH.
Qed.

(** An encoding has no white space. *)
Lemma encode_clean s : bytes_ok s -> Forall (fun c => isspace c = false /\ 33 <= c) (encode s).
Proof.
  assert (forall i, 0 <= i < 64 -> isspace (ch64 i) = false /\ 33 <= ch64 i) as Hc.
  { intros i Hi. destruct (ch64_pos i Hi) as (_ & H & _). split; [done|]. unfold ch64, znth.
    assert (Forall (fun c => 33 <= c) Base64) as HB by (unfold Base64; cbn [str]; repeat (apply Forall_cons_2; [vm_compute; congruence|]); apply Forall_nil_2).
    rewrite Forall_forall in HB. apply HB, list_elem_of_In, nth_In. cbn. lia. }
  remember (length s) as k eqn:Ek. revert s Ek. induction k as [k IH] using lt_wf_ind. intros s Ek Hs.
  destruct s as [|a [|b [|c s]]]; rewrite ?Forall_cons in Hs; unfold is_u8 in Hs; cbn [encode map app]; [constructor|..];
    repeat (apply Forall_cons_2; [first [apply Hc; Z.div_mod_to_equations; lia|done]|]); [apply Forall_nil_2..|].
  apply (IH (length s)); [cbn in Ek; lia|done|tauto].
Qed.

Lemma squeeze_encode s : bytes_ok s -> squeeze (encode s) = encode s.
Proof.
  intros Hs. pose proof (encode_clean s Hs) as H. unfold squeeze. induction H as [|c l [Hc _] _ IH]; [done|]. cbn [List.filter]. by rewrite Hc, IH.
Qed.

(** C40: the decoder is exact.  On a buffer as large as the text it gives back the data if
    the text is the encoding of some data with white space anywhere, and -1 otherwise; no
    two texts of the same characters give different data, and no bits are hidden in the
    last character. *)
Theorem b64_pton_exact txt t : zlen txt <= zlen t ->
  (exists data t', bytes_ok data /\ squeeze txt = encode data /\ length (data ++ t') = length t /\
     b64_pton txt (Some t) (zlen t) = Ok (Some (zlen data, Some (data ++ t')))) \/
  ((forall data, bytes_ok data -> squeeze txt <> encode data) /\ b64_pton txt (Some t) (zlen t) = Ok None).
Proof.
  intros Hn. unfold b64_pton. rewrite <- pton_squeeze. pose proof (squeeze_len txt).
  pose proof (pton_clean (squeeze txt) [] t (zlen t) (squeeze_clean txt) ltac:(change (zlen []) with 0; lia) eq_refl) as H1.
  change (zlen (@nil Z)) with 0 in H1. cbn [app] in H1. destruct (decode (squeeze txt)) as [data|] eqn:E.
  - left. apply encode_decode in E as [Hd E]. destruct H1 as (t' & E1 & El). exists data, t'. by rewrite E1.
  - right. split; [|done]. intros data Hd Es. rewrite Es, decode_encode in E; done.
Qed.

Lemma b64_pton_exact_witness :
  zlen (str "QU J" ++ [10] ++ str "DRA==") <= zlen (replicate 16 9) /\
  b64_pton (str "QU J" ++ [10] ++ str "DRA==") (Some (replicate 16 9)) 16 = Ok (Some (4, Some ([65; 66; 67; 68] ++ 0 :: replicate 11 9))).
Proof.
  split; [vm_compute; congruence|].
  destruct (b64_pton_exact (str "QU J" ++ [10] ++ str "DRA==") (replicate 16 9) ltac:(vm_compute; congruence)) as [(data & t' & _ & _ & _ & E)|[_ E]].
  - reflexivity.
  - vm_compute in E. discriminate E.
Defined.
