(* ===== verification/SshKeyText.v ===== *)
(** * SshKeyText: keys as text and their fingerprints

    key_read and key_write of key.cpp, with base64.cpp and uuencode.cpp, and the three
    forms of a fingerprint.  The theorems: a key that is written is read back as its
    public half, whatever follows it on the line; the written forms of a digest fit in the
    memory that is allocated for them, and two digests with the same hexadecimal or
    bubblebabble form are the same. *)

From S2P Require Import Prelude SshBuffer SshMatch SshCipher SshPacket SshTransport SshKex SshCompat SshDh SshKey SshBase64.
Import Rfc4648.

(** Numbers in decimal. *)
Class DecLib := {
  (** [None] for the return value 0 *)
  BN_dec2bn : list Z -> option Z;
  (** [None] for NULL *)
  BN_bn2dec : Z -> option (list Z)
}.

(** What the OpenSSL manual says of them. *)
Class DecLaws `{DecLib} := {
  dec_digits : forall v, 0 <= v -> exists s, BN_bn2dec v = Some s /\ s <> [] /\ Forall (fun c => Compat.isdigit c = true) s /\ BN_dec2bn s = Some v
}.

(** The digits at the front, and what is behind them. *)
Fixpoint read_digits (cp : list Z) : list Z * list Z :=
  match cp with
  | [] => ([], [])
  | c :: rest => if Compat.isdigit c then let '(d, r) := read_digits rest in (c :: d, r) else ([], cp)
  end.

Section KeyText.
Context {CR : Crypto} {DG : Digest} {BN : BnLib} {DL : DhLib} {KL : KeyLib} {DE : DecLib}.

(** The number, [None] for 0, and where the pointer is then; the NUL behind the digits stays
    if the number is not read. *)
Definition read_bignum (cpp : list Z) : option Z * list Z :=
  let '(digits, cp) := read_digits (skip_blanks cpp) in
  match digits with
  | [] => (None, cpp)
  | _ => match BN_dec2bn digits with Some v => (Some v, cp) | None => (None, digits) end
  end.

(** What is printed. *)
Definition write_bignum (num : Z) : option (list Z) :=
  buf ← BN_bn2dec num; Some (32 :: buf).

Definition set_rsa (k : Key) (r : RSA) : Key := mkKey (ktype k) (kflags k) (Some r) (kdsa k).
Definition set_dsa (k : Key) (d : option DSA) : Key := mkKey (ktype k) (kflags k) (krsa k) d.
Definition set_type (k : Key) (t : Z) : Key := mkKey t (kflags k) (krsa k) (kdsa k).

(** [bits = 10 * bits + *cp - '0'] with an [u_int] *)
Definition read_bits (digits : list Z) : Z := foldl (fun bits c => u32 (10 * bits + c - 48)) 0 digits.

(** [strchr (cp, ' ')]: what is in front of the first space, and what is behind it. *)
Fixpoint split_space (cp : list Z) : option (list Z * list Z) :=
  match cp with
  | [] => None
  | c :: rest => if c =? 32 then Some ([], rest) else '(a, b) ← split_space rest; Some (c :: a, b)
  end.

Definition key_read_rsa1 (ret : Key) (cpp : list Z) : res (Z * Key * list Z) :=
  let '(digits, cp) := read_digits cpp in
  match digits with
  | [] => Ok (-1, ret, cpp)
  | _ =>
      if read_bits digits =? 0 then Ok (-1, ret, cpp)
      else
        r ← deref (krsa ret);
        match read_bignum cp with
        | (None, cp) => Ok (-1, ret, cp)
        | (Some e, cp) =>
            let ret := set_rsa ret (mkRSA (rsa_n r) e (rsa_private r)) in
            match read_bignum cp with
            | (None, cp) => Ok (-1, ret, cp)
            | (Some n, cp) => Ok (1, set_rsa ret (mkRSA n e (rsa_private r)), cp)
            end
        end
  end.

(** The memory for the blob is zero here: what it holds is not looked at. *)
Definition key_read_blob (ret : Key) (cpp : list Z) : res (Z * Key * list Z) :=
  match split_space cpp with
  | None => Ok (-1, ret, cpp)
  | Some (name, cp) =>
      let type := key_type_from_name name in
      if type =? KEY_UNSPEC then Ok (-1, ret, cpp)
      else if bool_decide (cp = []) then Ok (-1, ret, cpp)
      else if negb (ktype ret =? KEY_UNSPEC) && negb (ktype ret =? type) then Ok (-1, ret, cpp)
      else
        let ret := if ktype ret =? KEY_UNSPEC then set_type ret type else ret in
        let len := 2 * zlen cp in
        o ← uudecode cp (Some (replicate (Z.to_nat len) 0)) len;
        match o with
        | Some (n, Some blob) =>
            o ← key_from_blob (take (Z.to_nat n) blob);
            match o with
            | None => Ok (-1, ret, cpp)
            | Some k =>
                if negb (ktype k =? type) then Ok (-1, ret, cpp)
                else
                  let ret := if ktype ret =? KEY_RSA then mkKey (ktype ret) (kflags ret) (krsa k) (kdsa ret) else set_dsa ret (kdsa k) in
                  Ok (1, ret, (token (skip_blanks cp)).2)
            end
        | _ => Ok (-1, ret, cpp)
        end
  end.

(** The value, [ret] and where [*cpp] points to. *)
Definition key_read (ret : Key) (cpp : list Z) : res (Z * Key * list Z) :=
  if ktype ret =? KEY_RSA1 then key_read_rsa1 ret cpp
  else if (ktype ret =? KEY_UNSPEC) || (ktype ret =? KEY_RSA) || (ktype ret =? KEY_DSA) then key_read_blob ret cpp
  else Fatal "key_read: bad key type".

(** The value and what is written to the file. *)
Definition key_write (key : Key) : res (Z * list Z) :=
  match (if ktype key =? KEY_RSA1 then krsa key else None) with
  | Some r =>
      let bits := dec (BN_num_bits (rsa_n r)) in
      match write_bignum (rsa_e r) with
      | None => Ok (0, bits)
      | Some e => match write_bignum (rsa_n r) with
                  | None => Ok (0, bits ++ e)
                  | Some n => Ok (1, bits ++ e ++ n)
                  end
      end
  | None =>
      if bool_decide (ktype key = KEY_DSA /\ is_Some (kdsa key)) || bool_decide (ktype key = KEY_RSA /\ is_Some (krsa key)) then
        o ← key_to_blob key;
        blob ← deref o;
        match uuencode blob (2 * zlen blob) with
        | Some uu => if zlen uu >? 0 then Ok (1, key_ssh_name key ++ [32] ++ uu) else Ok (0, [])
        | None => Ok (0, [])
        end
      else Ok (0, [])
  end.

(** ** Fingerprints *)

Inductive fp_type := SSH_FP_SHA1 | SSH_FP_MD5.
Inductive fp_rep := SSH_FP_HEX | SSH_FP_BUBBLEBABBLE | SSH_FP_RANDOMART.

(** [None]: NULL *)
Definition key_fingerprint_raw (k : Key) (dgst_type : fp_type) : res (option (list Z)) :=
  let md := match dgst_type with SSH_FP_MD5 => EVP_md5 | SSH_FP_SHA1 => EVP_sha1 end in
  if ktype k =? KEY_RSA1 then
    r ← deref (krsa k);
    Ok (Some (EVP_Digest md (BN_bn2bin (rsa_n r) ++ BN_bn2bin (rsa_e r))))
  else if (ktype k =? KEY_DSA) || (ktype k =? KEY_RSA) then
    o ← key_to_blob k;
    match o with
    | Some blob => Ok (Some (EVP_Digest md blob))
    | None => Fatal "key_fingerprint_raw: blob is null"
    end
  else if ktype k =? KEY_UNSPEC then Ok None
  else Fatal "key_fingerprint_raw: bad key type".

Definition hex_digit (v : Z) : Z := if v <? 10 then 48 + v else 87 + v.
(** [%02x] of a byte *)
Definition hex2 (b : Z) : list Z := [hex_digit (b / 16); hex_digit (b mod 16)].

(** The bytes with colons, and a NUL over the last colon. *)
Definition key_fingerprint_hex (dgst_raw : list Z) : list Z :=
  removelast (concat (map (fun b => hex2 b ++ [58]) dgst_raw)).

Definition vowels : list Z := str "aeiouy".
Definition consonants : list Z := str "bcdfghklmnprstvzx".

(** The rounds from [i] on; [dgst] is the digest from its byte 2 * i on. *)
Fixpoint babble_rounds (n : nat) (odd : bool) (dgst : list Z) (seed : Z) : list Z :=
  match n with
  | O => []
  | S n =>
      let more := negb (n =? 0)%nat in
      let b0 := znth 0 dgst 0 in
      let b1 := znth 0 dgst 1 in
      if more || odd then
        let idx0 := (Z.land (Z.shiftr b0 6) 3 + seed) mod 6 in
        let idx1 := Z.land (Z.shiftr b0 2) 15 in
        let idx2 := (Z.land b0 3 + seed / 6) mod 6 in
        [znth 0 vowels idx0; znth 0 consonants idx1; znth 0 vowels idx2] ++
        (if more then
           let idx3 := Z.land (Z.shiftr b1 4) 15 in
           let idx4 := Z.land b1 15 in
           [znth 0 consonants idx3; 45; znth 0 consonants idx4] ++
           babble_rounds n odd (drop 2 dgst) ((seed * 5 + (b0 * 7 + b1)) mod 36)
         else babble_rounds n odd (drop 2 dgst) seed)
      else
        [znth 0 vowels (seed mod 6); znth 0 consonants 16; znth 0 vowels (seed / 6)] ++ babble_rounds n odd (drop 2 dgst) seed
  end.

Definition key_fingerprint_bubblebabble (dgst_raw : list Z) : list Z :=
  let rounds := (length dgst_raw / 2 + 1)%nat in
  [120] ++ babble_rounds rounds (negb (length dgst_raw mod 2 =? 0)%nat) dgst_raw 1 ++ [120].

Definition FLDBASE : Z := 8.
Definition FLDSIZE_Y : Z := FLDBASE + 1.
Definition FLDSIZE_X : Z := FLDBASE * 2 + 1.
Definition augmentation_string : list Z := str " .o+=*BOX@%&#/^SE".

(** The field by columns. *)
Definition field_at (field : list (list Z)) (x y : Z) : Z := znth 0 (znth [] field x) y.
Definition set_field (field : list (list Z)) (x y v : Z) : list (list Z) :=
  <[Z.to_nat x := <[Z.to_nat y := u8 v]> (znth [] field x)]> field.

(** One move of the worm, by the two low bits of [input]. *)
Definition worm_move (s : list (list Z) * Z * Z) (input : Z) : list (list Z) * Z * Z :=
  let '(field, x, y) := s in
  let x := x + (if negb (Z.land input 1 =? 0) then 1 else -1) in
  let y := y + (if negb (Z.land input 2 =? 0) then 1 else -1) in
  let x := Z.min (Z.max x 0) (FLDSIZE_X - 1) in
  let y := Z.min (Z.max y 0) (FLDSIZE_Y - 1) in
  (set_field field x y (field_at field x y + 1), x, y).

Definition worm_byte (s : list (list Z) * Z * Z) (b : Z) : list (list Z) * Z * Z :=
  foldl (fun s i => worm_move s (Z.shiftr b (2 * Z.of_nat i))) s (seq 0 4).

Definition worm_start : list (list Z) * Z * Z :=
  (replicate (Z.to_nat FLDSIZE_X) (replicate (Z.to_nat FLDSIZE_Y) 0), FLDSIZE_X / 2, FLDSIZE_Y / 2).

(** [%4s] and [%4u] *)
Definition pad4 (s : list Z) : list Z := replicate (4 - length s) 32 ++ s.

Definition key_fingerprint_randomart (dgst_raw : list Z) (k : Key) : res (list Z) :=
  let len := zlen augmentation_string - 1 in
  let '(field, x, y) := foldl worm_byte worm_start dgst_raw in
  let field := set_field field (FLDSIZE_X / 2) (FLDSIZE_Y / 2) (len - 1) in
  let field := set_field field x y len in
  size ← key_size k;
  let head := take (Z.to_nat (FLDSIZE_X - 1)) (str "+--[" ++ pad4 (key_type k) ++ [32] ++ pad4 (dec size) ++ [93]) in
  let border := replicate (Z.to_nat (FLDSIZE_X - (zlen head - 1))) 45 in
  let line y := [124] ++ map (fun x => znth 0 augmentation_string (Z.min (field_at field (Z.of_nat x) (Z.of_nat y)) len)) (seq 0 (Z.to_nat FLDSIZE_X)) ++ [124; 10] in
  Ok (head ++ border ++ [43; 10] ++ concat (map line (seq 0 (Z.to_nat FLDSIZE_Y))) ++ [43] ++ replicate (Z.to_nat FLDSIZE_X) 45 ++ [43]).

Definition key_fingerprint (k : Key) (dgst_type : fp_type) (dgst_rep : fp_rep) : res (list Z) :=
  o ← key_fingerprint_raw k dgst_type;
  match o with
  | None => Fatal "key_fingerprint: null from key_fingerprint_raw()"
  | Some dgst_raw =>
      match dgst_rep with
      | SSH_FP_HEX => Ok (key_fingerprint_hex dgst_raw)
      | SSH_FP_BUBBLEBABBLE => Ok (key_fingerprint_bubblebabble dgst_raw)
      | SSH_FP_RANDOMART => key_fingerprint_randomart dgst_raw k
      end
  end.

End KeyText.

(** The examples of the specification of bubblebabble. *)
Example babble_empty : key_fingerprint_bubblebabble [] = str "xexax".
Proof. reflexivity. Qed.
Example babble_digits : key_fingerprint_bubblebabble (str "1234567890") = str "xesef-disof-gytuf-katof-movif-baxux".
Proof. reflexivity. Qed.
Example babble_pineapple : key_fingerprint_bubblebabble (str "Pineapple") = str "xigak-nyryk-humil-bosek-sonax".
Proof. vm_compute. reflexivity. Qed.
Example hex_example : key_fingerprint_hex [0; 171; 16] = str "00:ab:10".
Proof. reflexivity. Qed.

(** ** Fingerprints tell digests apart *)

Lemma hex_digit_inj a b : 0 <= a < 16 -> 0 <= b < 16 -> hex_digit a = hex_digit b -> a = b.
Proof. unfold hex_digit. intros Ha Hb. destruct (a <? 10) eqn:E1, (b <? 10) eqn:E2; zbool; lia. Qed.

Lemma hex_list_inj a : forall b, bytes_ok a -> bytes_ok b -> length a = length b ->
  concat (map (fun b => hex2 b ++ [58]) a) = concat (map (fun b => hex2 b ++ [58]) b) -> a = b.
Proof.
  induction a as [|x a IH]; intros [|y b] Ha Hb El E; try done. apply Forall_cons in Ha as [Hx Ha], Hb as [Hy Hb].
  cbn [map concat] in E. unfold hex2 in E. cbn [app] in E. injection E as E1 E2 E. unfold is_u8 in *.
  apply hex_digit_inj in E1, E2; try (Z.div_mod_to_equations; lia). f_equal; [Z.div_mod_to_equations; lia|]. apply IH; try done. by injection El.
Qed.

Lemma removelast_inj {A} (l k : list A) : length l = length k -> l <> [] -> last l = last k -> removelast l = removelast k -> l = k.
Proof.
  intros El Hl Ek E. destruct (exists_last (l := l)) as (l' & x & ->); [done|].
  destruct (exists_last (l := k)) as (k' & y & ->); [intros ->; rewrite length_app in El; cbn in El; lia|].
  rewrite !removelast_last in E. rewrite !last_snoc in Ek. by injection Ek as ->; subst.
Qed.

Lemma hex_colon a : a <> [] -> last (concat (map (fun b => hex2 b ++ [58]) a)) = Some 58.
Proof.
  intros Ha. destruct (exists_last (l := a)) as (a' & x & ->); [done|]. rewrite map_app, concat_app. cbn [map concat]. rewrite app_nil_r, app_assoc. apply last_snoc.
Qed.

Lemma hex_length a : length (concat (map (fun b => hex2 b ++ [58]) a)) = (3 * length a)%nat.
Proof. induction a as [|x a IH]; [done|]. cbn [map concat]. rewrite length_app, IH. cbn. lia. Qed.

Lemma hex_inj a b : bytes_ok a -> bytes_ok b -> length a = length b -> key_fingerprint_hex a = key_fingerprint_hex b -> a = b.
Proof.
  intros Ha Hb El E. destruct a as [|x a]; [by destruct b|]. apply hex_list_inj; [done..|].
  apply removelast_inj; [by rewrite !hex_length, El|done| |done]. rewrite !hex_colon; [done| |done]. intros ->. done.
Qed.

Lemma vowel_inj i j : 0 <= i < 6 -> 0 <= j < 6 -> znth 0 vowels i = znth 0 vowels j -> i = j.
Proof.
  intros Hi Hj E. assert (forall k, 0 <= k < 6 -> k = 0 \/ k = 1 \/ k = 2 \/ k = 3 \/ k = 4 \/ k = 5) as H by lia.
  destruct (H i Hi) as [->|[->|[->|[->|[->| ->]]]]], (H j Hj) as [->|[->|[->|[->|[->| ->]]]]]; try done; vm_compute in E; discriminate E.
Qed.

Lemma consonant_inj i j : 0 <= i < 17 -> 0 <= j < 17 -> znth 0 consonants i = znth 0 consonants j -> i = j.
Proof.
  intros Hi Hj E. assert (bool_decide (NoDup consonants) = true) as Hd by (vm_compute; reflexivity). apply bool_decide_eq_true_1 in Hd.
  unfold znth in E. apply Z2Nat.inj; [lia..|]. apply NoDup_ListNoDup in Hd. apply (proj1 (NoDup_nth consonants 0) Hd); [cbn; lia..|done].
Qed.

(** Two bits more than the vowel of the seed. *)
Lemma babble_vowel x y s : 0 <= x < 4 -> 0 <= y < 4 -> znth 0 vowels ((x + s) mod 6) = znth 0 vowels ((y + s) mod 6) -> x = y.
Proof. intros Hx Hy E. apply vowel_inj in E; [|apply Z.mod_pos_bound; lia..]. Z.div_mod_to_equations. lia. Qed.

Lemma bits_of_byte b : is_u8 b -> Z.land (Z.shiftr b 6) 3 = b / 64 /\ Z.land (Z.shiftr b 2) 15 = b / 4 mod 16 /\ Z.land b 3 = b mod 4 /\
  Z.land (Z.shiftr b 4) 15 = b / 16 /\ Z.land b 15 = b mod 16.
Proof.
  unfold is_u8. intros Hb. change 3 with (Z.ones 2). change 15 with (Z.ones 4). rewrite !Z.land_ones, !Z.shiftr_div_pow2 by lia.
  split_and!; try done; Z.div_mod_to_equations; lia.
Qed.

(** The three letters of a byte, and the two of the byte behind it. *)
Lemma babble_byte a b s t : is_u8 a -> is_u8 b ->
  znth 0 vowels ((Z.land (Z.shiftr a 6) 3 + s) mod 6) = znth 0 vowels ((Z.land (Z.shiftr b 6) 3 + s) mod 6) ->
  znth 0 consonants (Z.land (Z.shiftr a 2) 15) = znth 0 consonants (Z.land (Z.shiftr b 2) 15) ->
  znth 0 vowels ((Z.land a 3 + t) mod 6) = znth 0 vowels ((Z.land b 3 + t) mod 6) -> a = b.
Proof.
  intros Ha Hb. destruct (bits_of_byte a Ha) as (-> & -> & -> & _), (bits_of_byte b Hb) as (-> & -> & -> & _). unfold is_u8 in *.
  intros E1 E2 E3. apply babble_vowel in E1, E3; try (Z.div_mod_to_equations; lia). apply consonant_inj in E2; Z.div_mod_to_equations; lia.
Qed.

Lemma babble_second a b : is_u8 a -> is_u8 b -> znth 0 consonants (Z.land (Z.shiftr a 4) 15) = znth 0 consonants (Z.land (Z.shiftr b 4) 15) ->
  znth 0 consonants (Z.land a 15) = znth 0 consonants (Z.land b 15) -> a = b.
Proof.
  intros Ha Hb. destruct (bits_of_byte a Ha) as (_ & _ & _ & -> & ->), (bits_of_byte b Hb) as (_ & _ & _ & -> & ->). unfold is_u8 in *.
  intros E1 E2. apply consonant_inj in E1, E2; Z.div_mod_to_equations; lia.
Qed.

Lemma babble_rounds_inj n (odd : bool) : forall a b s, bytes_ok a -> bytes_ok b -> length a = (2 * n + (if odd then 1 else 0))%nat -> length b = length a ->
  babble_rounds (S n) odd a s = babble_rounds (S n) odd b s -> a = b.
Proof.
  induction n as [|n IH]; intros a b s Ha Hb El Elb E.
  - destruct odd; [|destruct a, b; done]. destruct a as [|x [|]]; try done. destruct b as [|y [|]]; try done.
    apply Forall_cons in Ha as [Hx _], Hb as [Hy _]. cbn [babble_rounds Nat.eqb negb orb app] in E. injection E as E1 E2 E3.
    f_equal. by apply (babble_byte x y s (s / 6)).
  - remember (S n) as k eqn:Ek. destruct a as [|x [|x' a]]; [cbn in El; lia..|]. destruct b as [|y [|y' b]]; [done..|].
    rewrite !Forall_cons in Ha, Hb. destruct Ha as (Hx & Hx' & Ha), Hb as (Hy & Hy' & Hb). cbn [babble_rounds] in E.
    destruct (Nat.eqb_spec k 0); [lia|]. cbn [negb orb app] in E. change (znth 0 (?u :: ?l) 0) with u in E. change (znth 0 (?u :: ?v :: ?l) 1) with v in E.
    cbn [drop] in E. injection E as E1 E2 E3 E4 E5 E. assert (x = y) as -> by (by apply (babble_byte x y s (s / 6))).
    assert (x' = y') as -> by (by apply babble_second). do 2 f_equal. subst k. eapply IH; [done..| | |exact E]; cbn in El, Elb; lia.
Qed.

Lemma babble_inj a b : bytes_ok a -> bytes_ok b -> length a = length b ->
  key_fingerprint_bubblebabble a = key_fingerprint_bubblebabble b -> a = b.
Proof.
  intros Ha Hb El E. unfold key_fingerprint_bubblebabble in E. rewrite El in E. apply app_inv_head, app_inv_tail in E. rewrite Nat.add_1_r in E.
  pose proof (Nat.div_mod (length b) 2 ltac:(lia)). pose proof (Nat.mod_upper_bound (length b) 2 ltac:(lia)).
  eapply babble_rounds_inj; [done..| | |exact E]; [|done]. destruct (Nat.eqb_spec (length b mod 2) 0); cbn [negb]; lia.
Qed.

(** The text and its NUL fill the memory of 6 characters for each round exactly. *)
Lemma babble_rounds_length n odd : forall a s, length (babble_rounds (S n) odd a s) = (6 * n + 3)%nat.
Proof.
  induction n as [|n IH]; intros a s; [cbn; by destruct odd|]. remember (S n) as k eqn:Ek. cbn [babble_rounds].
  destruct (Nat.eqb_spec k 0); [lia|]. cbn [negb orb app length]. subst k. rewrite IH. lia.
Qed.

Lemma babble_length a : S (length (key_fingerprint_bubblebabble a)) = (6 * (length a / 2 + 1))%nat.
Proof.
  unfold key_fingerprint_bubblebabble. rewrite Nat.add_1_r. cbv zeta. rewrite !length_app, babble_rounds_length. cbn [length]. lia.
Qed.

(** ** The picture *)

Definition field_ok (f : list (list Z)) : Prop := length f = 17%nat /\ Forall (fun c => length c = 9%nat) f.
Definition worm_ok (s : list (list Z) * Z * Z) : Prop := field_ok s.1.1 /\ 0 <= s.1.2 < FLDSIZE_X /\ 0 <= s.2 < FLDSIZE_Y.

Lemma set_field_ok f x y v : field_ok f -> 0 <= x < FLDSIZE_X -> field_ok (set_field f x y v).
Proof.
  intros [El Hf] Hx. unfold set_field, FLDSIZE_X, FLDBASE in *. split; [by rewrite length_insert|].
  apply Forall_insert; [done|]. rewrite length_insert. rewrite Forall_forall in Hf. apply Hf, list_elem_of_In, nth_In. lia.
Qed.

(** Every move ends inside the field. *)
Lemma worm_move_ok s input : worm_ok s -> worm_ok (worm_move s input).
Proof.
  destruct s as [[f x] y]. intros (Hf & Hx & Hy). cbn [fst snd] in *. unfold worm_move, FLDSIZE_X, FLDSIZE_Y, FLDBASE in *.
  set (x' := Z.min _ _). set (y' := Z.min _ _). assert (0 <= x' < 17) by (unfold x'; lia). assert (0 <= y' < 9) by (unfold y'; lia).
  split; [by apply set_field_ok|]. unfold FLDSIZE_X, FLDSIZE_Y, FLDBASE. cbn [fst snd]. lia.
Qed.

Lemma worm_byte_ok s b : worm_ok s -> worm_ok (worm_byte s b).
Proof. intros H. unfold worm_byte. cbn [seq foldl]. by repeat apply worm_move_ok. Qed.

Lemma worm_ok_all d : forall s, worm_ok s -> worm_ok (foldl worm_byte s d).
Proof. induction d as [|b d IH]; intros s H; [done|]. cbn [foldl]. by apply IH, worm_byte_ok. Qed.

Section Art.
Context {CR : Crypto} {DG : Digest} {BN : BnLib} {DL : DhLib} {KL : KeyLib}.

Lemma concat_const_length {A B} (f : A -> list B) n l : (forall x, length (f x) = n) -> length (concat (map f l)) = (n * length l)%nat.
Proof. intros H. induction l as [|x l IH]; [cbn; lia|]. cbn [map concat length]. rewrite length_app, H, IH. lia. Qed.

(** The picture and its NUL fill the memory of (FLDSIZE_X + 3) * (FLDSIZE_Y + 2) exactly. *)
Lemma art_length dgst k : forall text, key_fingerprint_randomart dgst k = Ok text -> zlen text + 1 = (FLDSIZE_X + 3) * (FLDSIZE_Y + 2).
Proof.
  intros text E. unfold key_fingerprint_randomart in E. destruct (foldl _ _ _) as [[f x] y]. cbv zeta in E.
  destruct (key_size k) as [size| |]; [|done..]. change (mbind ?f (Ok size)) with (f size) in E. cbv beta in E.
  set (head := take (Z.to_nat (FLDSIZE_X - 1)) _) in E. assert (14 <= length head <= 16)%nat as Hh.
  { unfold head. rewrite length_take, !length_app. unfold pad4. rewrite !length_app, !length_replicate. cbn [length str].
    unfold FLDSIZE_X, FLDBASE. change (Z.to_nat (8 * 2 + 1 - 1)) with 16%nat. lia. }
  clearbody head. set (lines := concat _) in E. assert (length lines = 180%nat) as Hl.
  { unfold lines. rewrite (concat_const_length _ 20); [done|]. intros yy. by rewrite !length_app, length_map, length_seq. }
  clearbody lines. injection E as <-. unfold zlen. rewrite ?length_app, ?length_replicate. cbn [length]. rewrite ?length_app, Hl. cbn [length].
  unfold FLDSIZE_X, FLDSIZE_Y, FLDBASE. lia.
Qed.
End Art.

(** ** Reading what was written *)

Lemma b64_pton_encode data t : bytes_ok data -> zlen (encode data) <= zlen t ->
  exists t', b64_pton (encode data) (Some t) (zlen t) = Ok (Some (zlen data, Some (data ++ t'))).
Proof.
  intros Hd Hn. unfold b64_pton. rewrite <- pton_squeeze. pose proof (squeeze_len (encode data)).
  pose proof (pton_clean (squeeze (encode data)) [] t (zlen t) (squeeze_clean _) ltac:(change (zlen []) with 0; lia) eq_refl) as H1.
  assert (squeeze (encode data) = encode data) as E by (apply squeeze_encode; done). rewrite E in *. rewrite decode_encode in H1 by done.
  destruct H1 as (t' & E1 & _). by exists t'.
Qed.

Lemma zlen_fields_app f fs : fields_bytes (f :: fs) = field_bytes f ++ fields_bytes fs.
Proof. done. Qed.

Section KeyTextProps.
Context {CR : Crypto} {DG : Digest} {BN : BnLib} {DL : DhLib} {KL : KeyLib} {DE : DecLib} {BL : BnLaws} {EL : DecLaws}.

Lemma mpint_bytes v : bytes_ok (mpint v).
Proof using BL.
  unfold mpint. destruct (v =? 0); [constructor|]. destruct (negb _); [apply Forall_cons_2; [unfold is_u8; lia|]|]; apply bn2bin_bytes.
Qed.

Lemma blob_bytes k : key_ok k -> bytes_ok (fields_bytes (blob_fields k)) /\ 11 <= zlen (fields_bytes (blob_fields k)).
Proof using BL.
  intros Hk. unfold blob_fields. rewrite zlen_fields_app, zlen_app. split.
  - apply Forall_app_2.
    + cbn [field_bytes]. apply Forall_app_2; [apply put_u32_ok|]. unfold key_ssh_name.
      destruct Hk as [(-> & _)|(-> & _)]; cbn; repeat (apply Forall_cons_2; [unfold is_u8; lia|]); apply Forall_nil_2.
    + induction (key_numbers k) as [|v l IH]; [constructor|]. cbn [fmap list_fmap]. rewrite zlen_fields_app. apply Forall_app_2; [|done].
      cbn [field_bytes mpint_field]. apply Forall_app_2; [apply put_u32_ok|apply mpint_bytes].
  - assert (zlen (field_bytes (FString (key_ssh_name k))) = 11) as -> by (unfold key_ssh_name; by destruct Hk as [(-> & _)|(-> & _)]).
    pose proof (zlen_nonneg (fields_bytes (mpint_field <$> key_numbers k))). lia.
Qed.

Lemma key_write_text k : key_ok k -> key_write k = Ok (1, key_ssh_name k ++ [32] ++ encode (fields_bytes (blob_fields k))).
Proof using BL.
  intros Hk. unfold key_write. destruct (blob_bytes k Hk) as [Hb Hl]. rewrite (key_to_blob_fields k Hk).
  set (blob := fields_bytes (blob_fields k)) in *. clearbody blob.
  assert ((if ktype k =? KEY_RSA1 then krsa k else None) = None) as -> by (by destruct Hk as [(-> & _)|(-> & _)]).
  assert (bool_decide (ktype k = KEY_DSA /\ is_Some (kdsa k)) || bool_decide (ktype k = KEY_RSA /\ is_Some (krsa k)) = true) as ->.
  { destruct Hk as [(Et & _ & r & Er & _)|(Et & _ & d & Ed & _)].
    - rewrite orb_true_iff, !bool_decide_eq_true. right. split; [done|]. by eexists.
    - rewrite orb_true_iff, !bool_decide_eq_true. left. split; [done|]. by eexists. }
  cbn [mbind res_bind deref or_fatal]. unfold uuencode, b64_ntop. rewrite ntop_spec by done. rewrite encode_length.
  destruct (_ <? _) eqn:E; zbool; [|Z.div_mod_to_equations; lia]. rewrite encode_length.
  destruct (_ >? 0) eqn:E2; zbool; [done|Z.div_mod_to_equations; lia].
Qed.

(** The rest of a line begins with a blank. *)
Definition line_rest (rest : list Z) : Prop := match rest with [] => True | c :: _ => is_blank c = true end.

Lemma token_encode s rest : bytes_ok s -> line_rest rest -> token (encode s ++ rest) = (encode s, rest).
Proof.
  intros Hs Hr. pose proof (encode_clean s Hs) as H. induction H as [|c l [_ Hc] _ IH]; cbn [app token].
  - destruct rest as [|c rest]; [done|]. cbn [token]. cbn in Hr. by rewrite Hr.
  - assert (is_blank c = false) as -> by (unfold is_blank; destruct (c =? 32) eqn:E1, (c =? 9) eqn:E2; zbool; lia). by rewrite IH.
Qed.

Lemma uudecode_encode s rest t : bytes_ok s -> s <> [] -> line_rest rest -> zlen (encode s) <= zlen t ->
  exists t', uudecode (encode s ++ rest) (Some t) (zlen t) = Ok (Some (zlen s, Some (s ++ t'))) /\
    (token (skip_blanks (encode s ++ rest))).2 = rest.
Proof.
  intros Hs Hne Hr Ht. unfold uudecode.
  assert (skip_blanks (encode s ++ rest) = encode s ++ rest) as ->.
  { pose proof (encode_clean s Hs) as H. destruct (encode s) as [|c l] eqn:E.
    - pose proof (encode_length s) as El. rewrite E in El. destruct s; [done|]. unfold zlen in El. cbn [length] in El. Z.div_mod_to_equations. lia.
    - apply Forall_cons in H as [[_ Hc] _]. cbn [app skip_blanks]. unfold is_blank. destruct (c =? 32) eqn:E1, (c =? 9) eqn:E2; zbool; lia || done. }
  rewrite Nat.sub_diag, take_0, token_encode by done. cbn [fst snd app]. destruct (b64_pton_encode s t Hs Ht) as [t' E]. by exists t'.
Qed.

Lemma split_name name cp : Forall (fun c => (c =? 32) = false) name -> split_space (name ++ [32] ++ cp) = Some (name, cp).
Proof. induction 1 as [|c name Hc _ IH]; [done|]. cbn [app split_space]. rewrite Hc. cbn [app] in IH. by rewrite IH. Qed.

(** A key of the other two types. *)
Lemma key_read_text k ret t rest : key_ok k -> key_new t = Ok ret -> t = KEY_UNSPEC \/ t = ktype k -> line_rest rest ->
  key_read ret (key_ssh_name k ++ [32] ++ encode (fields_bytes (blob_fields k)) ++ rest) = Ok (1, key_public k, rest).
Proof using BL.
  intros Hk Hret Ht Hr. destruct (blob_bytes k Hk) as [Hb Hl]. pose proof (key_from_blob_fields k Hk) as Hfrom.
  set (blob := fields_bytes (blob_fields k)) in *. clearbody blob.
  assert (key_read ret (key_ssh_name k ++ [32] ++ encode blob ++ rest) = key_read_blob ret (key_ssh_name k ++ [32] ++ encode blob ++ rest)) as ->.
  { unfold key_read. destruct Ht as [->| ->]; [by injection Hret as <-|]. by destruct Hk as [(E & _)|(E & _)]; rewrite E in Hret; injection Hret as <-. }
  unfold key_read_blob. rewrite split_name by (unfold key_ssh_name; destruct Hk as [(-> & _)|(-> & _)]; repeat (apply Forall_cons_2; [done|]); apply Forall_nil_2).
  assert (key_type_from_name (key_ssh_name k) = ktype k) as -> by (unfold key_ssh_name; by destruct Hk as [(-> & _)|(-> & _)]).
  assert (0 < zlen (encode blob)) as Hpos by (rewrite encode_length; Z.div_mod_to_equations; lia).
  assert (bool_decide (encode blob ++ rest = []) = false) as -> by (apply bool_decide_eq_false_2; intros E; apply app_eq_nil in E as [E _]; by rewrite E in Hpos).
  set (t0 := replicate _ 0). assert (2 * zlen (encode blob ++ rest) = zlen t0) as ->
    by (unfold t0, zlen; rewrite length_replicate; lia).
  destruct (uudecode_encode blob rest t0 Hb) as (t' & E & Etok); [by intros ->|done|unfold t0; unfold zlen at 2; rewrite length_replicate, zlen_app; pose proof (zlen_nonneg rest); unfold zlen in *; lia|].
  rewrite E. cbn [mbind res_bind]. unfold zlen at 1. rewrite Nat2Z.id, take_app_length, Hfrom. cbn [mbind res_bind ktype key_public]. rewrite Z.eqb_refl, Etok. cbn [negb andb].
  destruct Ht as [->| ->].
  - injection Hret as <-. unfold key_public. destruct Hk as [(Et & Ed & r & Er & _)|(Et & Er & d & Ed & _)]; rewrite Et, Ed, Er; done.
  - unfold key_public. destruct Hk as [(Et & Ed & r & Er & _)|(Et & Er & d & Ed & _)]; rewrite Et in Hret |- *; injection Hret as <-; rewrite Ed, Er; done.
Qed.

(** Keys of the first protocol version are written in decimal. *)
Definition rsa1_ok (k : Key) : Prop := ktype k = KEY_RSA1 /\ kdsa k = None /\
  exists r, krsa k = Some r /\ bn_ok (rsa_n r) /\ bn_ok (rsa_e r) /\ 0 < rsa_n r.

Lemma digits_ok fuel : forall n acc, 0 <= n -> Forall (fun c => Compat.isdigit c = true) acc -> Forall (fun c => Compat.isdigit c = true) (digits fuel n acc).
Proof.
  assert (forall k, 0 <= k < 10 -> Compat.isdigit (48 + k) = true) as Hd by (intros k Hk; unfold Compat.isdigit; rewrite !(proj2 (Z.leb_le _ _)) by lia; done).
  induction fuel as [|fuel IH]; intros n acc Hn Ha; [done|]. cbn [digits]. destruct (n <? 10) eqn:E; zbool.
  - apply Forall_cons_2; [apply Hd; lia|done].
  - apply IH; [apply Z.div_pos; lia|]. apply Forall_cons_2; [apply Hd, Z.mod_pos_bound; lia|done].
Qed.

Lemma digits_value fuel : forall n acc, 0 <= n < 10 ^ Z.of_nat (S fuel) -> n < 2 ^ 32 ->
  foldl (fun bits c => u32 (10 * bits + c - 48)) 0 (digits (S fuel) n acc) = foldl (fun bits c => u32 (10 * bits + c - 48)) n acc.
Proof.
  induction fuel as [|fuel IH]; intros n acc Hn H32; [|remember (S fuel) as k eqn:Ek]; cbn [digits]; destruct (n <? 10) eqn:E; zbool.
  - cbn [foldl]. f_equal. rewrite u32_small; lia.
  - change (10 ^ Z.of_nat 1) with 10 in Hn. lia.
  - cbn [foldl]. f_equal. rewrite u32_small; lia.
  - subst k. rewrite IH; [|replace (Z.of_nat (S (S fuel))) with (Z.of_nat (S fuel) + 1) in Hn by lia; rewrite Z.pow_add_r in Hn by lia;
      split; [apply Z.div_pos; lia|apply Z.div_lt_upper_bound; lia]|Z.div_mod_to_equations; lia].
    cbn [foldl]. f_equal. pose proof (Z.mod_pos_bound n 10 ltac:(lia)). pose proof (Z.div_mod n 10 ltac:(lia)). rewrite u32_small; lia.
Qed.

Lemma digits_some fuel : forall n acc, digits (S fuel) n acc <> [].
Proof.
  induction fuel as [|fuel IH]; intros n acc; [cbn [digits]; by destruct (n <? 10)|].
  remember (S fuel) as k. cbn [digits]. destruct (n <? 10); [done|]. subst k. apply IH.
Qed.

Lemma dec_text v : 0 <= v < 2 ^ 32 -> Forall (fun c => Compat.isdigit c = true) (dec v) /\ dec v <> [] /\ read_bits (dec v) = v.
Proof.
  intros Hv. split; [apply digits_ok; [lia|constructor]|]. split; [apply digits_some|]. unfold read_bits, dec.
  rewrite digits_value; [done|change (10 ^ Z.of_nat 20) with 100000000000000000000; lia|lia].
Qed.

(** Not a digit at the front. *)
Definition digit_end (rest : list Z) : Prop := match rest with [] => True | c :: _ => Compat.isdigit c = false end.

Lemma read_digits_app d rest : Forall (fun c => Compat.isdigit c = true) d -> digit_end rest -> read_digits (d ++ rest) = (d, rest).
Proof.
  intros Hd Hr. induction Hd as [|c d Hc _ IH]; cbn [app read_digits].
  - destruct rest as [|c rest]; [done|]. cbn in *. by rewrite Hr.
  - by rewrite Hc, IH.
Qed.

Lemma read_bignum_text v rest : 0 <= v -> digit_end rest -> exists s, write_bignum v = Some (32 :: s) /\ read_bignum (32 :: s ++ rest) = (Some v, rest).
Proof using EL.
  intros Hv Hr. destruct (dec_digits v Hv) as (s & E & Hne & Hd & Ev). exists s. unfold write_bignum. rewrite E. split; [done|].
  unfold read_bignum. cbn [skip_blanks is_blank Z.eqb Pos.eqb orb].
  assert (skip_blanks (s ++ rest) = s ++ rest) as ->.
  { destruct s as [|c s]; [done|]. apply Forall_cons in Hd as [Hc _]. cbn [app skip_blanks]. unfold Compat.isdigit, is_blank in *. zbool.
    destruct (c =? 32) eqn:E1, (c =? 9) eqn:E2; zbool; lia || done. }
  rewrite read_digits_app by done. destruct s; [done|]. by rewrite Ev.
Qed.

Lemma rsa1_text k rest : rsa1_ok k -> digit_end rest ->
  exists text, key_write k = Ok (1, text) /\ key_read (mkKey KEY_RSA1 0 (Some (mkRSA 0 0 None)) None) (text ++ rest) = Ok (1, key_public k, rest).
Proof using BL EL.
  intros (Et & Ed & r & Er & [Hn Hn8] & [He He8] & Hpos) Hr. destruct (read_bignum_text (rsa_n r) rest Hn Hr) as (sn & Wn & Rn).
  destruct (read_bignum_text (rsa_e r) (32 :: sn ++ rest) He) as (se & We & Re); [done|].
  assert (0 < BN_num_bits (rsa_n r) < 2 ^ 32) as Hbits by (pose proof (bn_bits _ Hpos); unfold BN_num_bytes in Hn8; Z.div_mod_to_equations; lia).
  destruct (dec_text (BN_num_bits (rsa_n r))) as (Hd & Hne & Hv); [lia|].
  exists (dec (BN_num_bits (rsa_n r)) ++ 32 :: se ++ 32 :: sn). split.
  - unfold key_write. rewrite Et, Er. cbn [Z.eqb KEY_RSA1]. by rewrite We, Wn.
  - unfold key_read. cbn [ktype KEY_RSA1 Z.eqb]. unfold key_read_rsa1. rewrite <- app_assoc. cbn [app]. rewrite <- app_assoc. cbn [app].
    rewrite read_digits_app by done. destruct (dec _) as [|c l]; [done|]. rewrite Hv. destruct (_ =? 0) eqn:E0; zbool; [lia|].
    cbn [krsa deref or_fatal mbind res_bind]. rewrite Re. cbn [rsa_private rsa_n krsa]. rewrite Rn. unfold key_public. by rewrite Et, Ed, Er.
Qed.

(** C39: a public key that is written as text is read back, by a key object of its type or,
    for the keys of the second protocol version, of no type; the pointer is then where
    the rest of the line begins. *)
Theorem key_text_roundtrip k t ret rest : key_ok k \/ rsa1_ok k -> key_new t = Ok ret -> t = ktype k \/ t = KEY_UNSPEC /\ ktype k <> KEY_RSA1 ->
  line_rest rest ->
  exists text, key_write k = Ok (1, text) /\ key_read ret (text ++ rest) = Ok (1, key_public k, rest).
Proof using BL EL.
  intros [Hk|Hk] Hret Ht Hr.
  - eexists. split; [by apply key_write_text|]. rewrite <- !app_assoc. apply (key_read_text k ret t); try done. destruct Ht as [->|[-> _]]; tauto.
  - destruct (rsa1_text k rest Hk) as (text & W & R); [destruct rest as [|c rest]; [done|]; cbn in *; unfold is_blank, Compat.isdigit in *;
      destruct (48 <=? c) eqn:E1, (c <=? 57) eqn:E2; zbool; try done; destruct (c =? 32) eqn:E3, (c =? 9) eqn:E4; zbool; lia || done|].
    exists text. split; [done|]. destruct Ht as [->|[_ Ht]]; [|by destruct Hk]. destruct Hk as (Et & _). rewrite Et in Hret. by injection Hret as <-.
Qed.

(** The fingerprints of two digests of the same length are the same, in hexadecimal or
    in bubblebabble, only if the digests are; and the texts with their NUL fill what is
    allocated for them, never more; the worm that draws the picture stays in its field. *)
Theorem fingerprint_faithful a b k : bytes_ok a -> bytes_ok b -> length a = length b ->
  (key_fingerprint_hex a = key_fingerprint_hex b -> a = b) /\
  (key_fingerprint_bubblebabble a = key_fingerprint_bubblebabble b -> a = b) /\
  zlen (key_fingerprint_hex a) + 1 <= zlen a * 3 + 1 /\
  zlen (key_fingerprint_bubblebabble a) + 1 = (zlen a / 2 + 1) * 6 /\
  (forall text, key_fingerprint_randomart a k = Ok text -> zlen text + 1 = (FLDSIZE_X + 3) * (FLDSIZE_Y + 2)) /\
  worm_ok (foldl worm_byte worm_start a).
Proof.
  intros Ha Hb El. split; [by apply hex_inj|]. split; [by apply babble_inj|]. split; [|split; [|split; [by apply art_length|]]].
  - unfold key_fingerprint_hex, zlen. pose proof (hex_length a) as Hl. set (l := concat _) in *. pose proof (removelast_firstn_len l) as E.
    rewrite E, length_take. lia.
  - pose proof (babble_length a) as Hl. unfold zlen. assert (Z.of_nat (length a) / 2 = Z.of_nat (length a / 2)) as -> by (by rewrite Nat2Z.inj_div). lia.
  - apply worm_ok_all. split; [split; [done|]|vm_compute; split; split; congruence]. repeat (apply Forall_cons_2; [done|]). apply Forall_nil_2.
Qed.
End KeyTextProps.

(** ** Runs *)

Module ToyText.
Export ToyKey.

Definition undec (s : list Z) : Z := foldl (fun v c => 10 * v + (c - 48)) 0 s.

#[export] Instance toy_dec : DecLib := {
  BN_dec2bn s := match s with [] => None | _ => Some (undec s) end;
  BN_bn2dec v := Some (digits (S (Z.to_nat (Z.log2 v))) v [])
}.

Lemma undec_digits fuel : forall n acc, 0 <= n < 10 ^ Z.of_nat (S fuel) -> undec (digits (S fuel) n acc) = foldl (fun v c => 10 * v + (c - 48)) n acc.
Proof.
  unfold undec. induction fuel as [|fuel IH]; intros n acc Hn; [|remember (S fuel) as k eqn:Ek]; cbn [digits]; destruct (n <? 10) eqn:E; zbool.
  - cbn [foldl]. f_equal. lia.
  - change (10 ^ Z.of_nat 1) with 10 in Hn. lia.
  - cbn [foldl]. f_equal. lia.
  - subst k. rewrite IH; [|replace (Z.of_nat (S (S fuel))) with (Z.of_nat (S fuel) + 1) in Hn by lia; rewrite Z.pow_add_r in Hn by lia;
      split; [apply Z.div_pos; lia|apply Z.div_lt_upper_bound; lia]].
    cbn [foldl]. f_equal. pose proof (Z.div_mod n 10 ltac:(lia)). lia.
Qed.

#[export] Instance toy_dec_laws : DecLaws.
Proof.
  constructor. intros v Hv. cbn [BN_bn2dec BN_dec2bn toy_dec]. set (f := Z.to_nat (Z.log2 v)). exists (digits (S f) v []).
  split; [done|]. pose proof (digits_some f v []) as Hne. split; [done|]. split; [apply digits_ok; [lia|constructor]|].
  assert (undec (digits (S f) v []) = v) as E; [|by destruct (digits (S f) v []); [|rewrite E]].
  rewrite undec_digits; [done|]. split; [lia|]. destruct (Z.eq_dec v 0) as [->|]; [done|]. pose proof (Z.log2_spec v ltac:(lia)) as [_ H].
  eapply Z.lt_le_trans; [exact H|]. unfold f. rewrite Nat2Z.inj_succ, Z2Nat.id by apply Z.log2_nonneg. apply Z.pow_le_mono_l. lia.
Qed.

Definition rsa1_key : Key := mkKey KEY_RSA1 0 (Some (mkRSA 3233 17 None)) None.

Lemma key_text_roundtrip_witness :
  (exists text, key_write rsa_key = Ok (1, text) /\ key_read (mkKey KEY_UNSPEC 0 None None) (text ++ str " me@host") = Ok (1, key_public rsa_key, str " me@host")) /\
  (exists text, key_write rsa1_key = Ok (1, text) /\ key_read (mkKey KEY_RSA1 0 (Some (mkRSA 0 0 None)) None) (text ++ []) = Ok (1, key_public rsa1_key, [])).
Proof.
  split.
  - apply (key_text_roundtrip rsa_key KEY_UNSPEC); [left; exact rsa_key_ok|reflexivity|right; split; [reflexivity|intros E; discriminate E]|reflexivity].
  - apply (key_text_roundtrip rsa1_key KEY_RSA1); [right|reflexivity|left; reflexivity|exact I].
    split; [done|]. split; [done|]. eexists. split; [done|]. split; [split; by vm_compute|]. split; [split; by vm_compute|]. by vm_compute.
Defined.

Lemma fingerprint_faithful_witness : let a := [1; 2; 3; 4; 5; 6; 7; 8; 9; 10; 11; 12; 13; 14; 15; 16] in let b := rev a in
  bytes_ok a /\ bytes_ok b /\ key_fingerprint_hex a <> key_fingerprint_hex b.
Proof.
  intros a b. assert (bytes_ok a) as Ha by (repeat (apply Forall_cons_2; [unfold is_u8; lia|]); apply Forall_nil_2).
  assert (bytes_ok b) as Hb by (repeat (apply Forall_cons_2; [unfold is_u8; cbn; lia|]); apply Forall_nil_2). split; [done|]. split; [done|].
  intros E. apply (fingerprint_faithful a b rsa_key Ha Hb eq_refl) in E. discriminate E.
Defined.

Example rsa1_example : key_write rsa1_key = Ok (1, str "12 17 3233").
Proof. vm_compute. reflexivity. Qed.

End ToyText.
