(* ===== verification/PasswordHash.v ===== *)
(** * PasswordHash: passwords as hashes

    shiesh/md5crypt.cpp and xcrypt.cpp, and the same scheme in apr-util
    (apr_md5_encode and apr_password_validate of crypto/apr_md5.c, apr_sha1_base64 of
    crypto/apr_sha1.c), as they are compiled for Windows.  A C string is the list of its
    bytes, without the terminator.

    The two files have the text of the scheme in common, from the first MD5_Init to the
    last to64; they differ in the magic, in what they accept as a salt and in the
    buffers.  The text is written here once, over the interface of a digest
    ([StreamDigest]): the MD5 of OpenSSL is such a digest by its documentation, and that
    of apr-util was shown to be one. *)

From S2P Require Import Prelude DigestStream AprMd AprSha1 AprBase64.

(** ** The C library *)

(** [strncmp (s, p, strlen (p)) == 0] *)
Definition starts_with (p s : list Z) : bool := bool_decide (take (length p) s = p).

(** The string that is in a memory: what is before the first zero. *)
Fixpoint cstring (mem : list Z) : list Z :=
  match mem with
  | [] => []
  | c :: mem => if c =? 0 then [] else c :: cstring mem
  end.

(** [strlcat (dst, src, siz)] *)
Definition strlcat (dst src : list Z) (siz : Z) : list Z :=
  if zlen dst >=? siz then dst else dst ++ take (Z.to_nat (siz - zlen dst - 1)) src.

(** [snprintf (dst, siz, "%s%s$", a, b)] *)
Definition snprintf_dollar (siz : Z) (a b : list Z) : list Z := take (Z.to_nat (siz - 1)) (a ++ b ++ [36]).

(** ** The common text *)

Definition itoa64 : list Z := str "./0123456789ABCDEFGHIJKLMNOPQRSTUVWXYZabcdefghijklmnopqrstuvwxyz".

(** [while (--n >= 0)]; [v] is an unsigned long. *)
Fixpoint to64_loop (n : nat) (v : Z) : list Z :=
  match n with
  | O => []
  | S n => znth 0 itoa64 (Z.land v 63) :: to64_loop n (Z.shiftr v 6)
  end.

Definition to64 (v n : Z) : list Z := if n >? 4 then [] else to64_loop (Z.to_nat n) v.

Section Scheme.
Context {ctx : Type} {D : StreamDigest ctx}.

(** [for (pl = strlen(pw); pl > 0; pl -= 16)] *)
Fixpoint pl_loop (fuel : nat) (c : ctx) (final : list Z) (pl : Z) : res ctx :=
  if pl >? 0 then
    match fuel with
    | O => OutOfFuel
    | S fuel => pl_loop fuel (sd_update c (take (Z.to_nat (if pl >? 16 then 16 else pl)) final)) final (pl - 16)
    end
  else Ok c.

(** [for (j = 0, i = strlen(pw); i != 0; i >>= 1)]; [j] stays 0. *)
Fixpoint weird_loop (fuel : nat) (c : ctx) (final pw : list Z) (i : Z) : res ctx :=
  if i =? 0 then Ok c
  else
    match fuel with
    | O => OutOfFuel
    | S fuel => weird_loop fuel (sd_update c (take 1 (if Z.testbit i 0 then final else pw))) final pw (Z.shiftr i 1)
    end.

(** [for (i = 0; i < 1000; i++)], with [n] turns left. *)
Fixpoint thousand (n : nat) (i : Z) (final pw sp : list Z) : list Z :=
  match n with
  | O => final
  | S n =>
      let ctx1 := sd_init in
      let ctx1 := sd_update ctx1 (if Z.testbit i 0 then pw else final) in
      let ctx1 := if negb (i mod 3 =? 0) then sd_update ctx1 sp else ctx1 in
      let ctx1 := if negb (i mod 7 =? 0) then sd_update ctx1 pw else ctx1 in
      let ctx1 := sd_update ctx1 (if Z.testbit i 0 then final else pw) in
      thousand n (i + 1) (sd_final ctx1) pw sp
  end.

(** From the first MD5_Init to the end of the loop; [sp] is the salt. *)
Definition crypt_final (magic pw sp : list Z) : res (list Z) :=
  let c := sd_update (sd_update (sd_update sd_init pw) magic) sp in
  let ctx1 := sd_update (sd_update (sd_update sd_init pw) sp) pw in
  let final := sd_final ctx1 in
  c ← pl_loop (length pw) c final (s32 (zlen pw));
  let final := repeat 0 16 in
  c ← weird_loop 32 c final pw (s32 (zlen pw));
  Ok (thousand 1000 0 (sd_final c) pw sp).

End Scheme.

(** The values of [l] that are printed, each with its number of characters. *)
Definition crypt_words (final : list Z) : list (Z * Z) :=
  let f i := znth 0 final i in
  let l a b c := Z.lor (Z.lor (Z.shiftl (f a) 16) (Z.shiftl (f b) 8)) (f c) in
  [(l 0 6 12, 4); (l 1 7 13, 4); (l 2 8 14, 4); (l 3 9 15, 4); (l 4 10 5, 4); (f 11, 2)].

(** ** md5crypt.cpp, xcrypt.cpp *)

Module Crypt.

Definition magic : list Z := str "$1$".

Definition is_md5_salt (salt : list Z) : bool := starts_with magic salt.

(** [for (ep = sp; *ep != '$'; ep++)]: [n] is [ep - sp]. *)
Fixpoint salt_len (n : Z) (ep : list Z) : option Z :=
  match ep with
  | [] => None
  | c :: ep => if c =? 36 then Some n else if n >=? 8 then None else salt_len (n + 1) ep
  end.

Section Crypt.
Context {ctx : Type} {D : StreamDigest ctx}.

Definition md5_crypt (pw salt : list Z) : res (list Z) :=
  let sp := if starts_with magic salt then drop 3 salt else salt in
  match salt_len 0 sp with
  | None => Ok []
  | Some sl =>
      let salt_copy := take (Z.to_nat sl) sp in
      final ← crypt_final magic pw salt_copy;
      let passwd := snprintf_dollar 120 magic salt_copy in
      Ok (fold_left (fun p '(l, n) => strlcat p (to64 l n) 120) (crypt_words final) passwd)
  end.

Definition xcrypt (password salt : list Z) : res (list Z) :=
  if is_md5_salt salt then md5_crypt password salt else Fatal "unknown password crypt method".

End Crypt.

End Crypt.

(** ** apr_md5.c, apr_sha1.c *)

Module AprCrypt.

Definition apr1_id : list Z := str "$apr1$".
Definition APR_SHA1PW_ID : list Z := str "{SHA}".
Definition APR_SUCCESS : Z := 0.
Definition APR_EMISMATCH : Z := 70024.

(** [apr_cpystrn (dst, src, dst_size)], for a [dst_size] that is not 0 *)
Definition apr_cpystrn (src : list Z) (dst_size : Z) : list Z := take (Z.to_nat (dst_size - 1)) src.

(** [for (ep = sp; *ep != 0 && *ep != '$' && (ep < (sp + 8)); ep++)] *)
Fixpoint apr_salt_len (n : Z) (ep : list Z) : Z :=
  match ep with
  | [] => n
  | c :: ep => if negb (c =? 36) && (n <? 8) then apr_salt_len (n + 1) ep else n
  end.

Section Apr.
Context (g5 g1 : list Z) (H5 : length g5 = 64%nat).

Definition apr_digest : StreamDigest md_ctx := md5_stream g5 H5.

(** What [result] holds.  [g5] is what the stack holds where the contexts are. *)
Definition apr_md5_encode (pw salt : list Z) (nbytes : Z) : res (list Z) :=
  let sp := if starts_with apr1_id salt then drop 6 salt else salt in
  let sp := take (Z.to_nat (apr_salt_len 0 sp)) sp in
  final ← crypt_final (D := apr_digest) apr1_id pw sp;
  let passwd := apr1_id ++ sp ++ [36] in
  let passwd := fold_left (fun p '(l, n) => p ++ to64_loop (Z.to_nat n) l) (crypt_words final) passwd in
  Ok (apr_cpystrn passwd (nbytes - 1)).

(** [mem] is the memory from [clear] on: [len] bytes are read behind the marker. *)
Definition apr_sha1_base64 (mem : list Z) (len : Z) : list Z :=
  let clear := if starts_with APR_SHA1PW_ID mem then drop 5 mem else mem in
  let digest := Sha1.apr_sha1_final true (Sha1.apr_sha1_update true (Sha1.apr_sha1_init g1) (take (Z.to_nat len) clear)) in
  cstring (apr_cpystrn APR_SHA1PW_ID (5 + 1) ++ fst (Base64.apr_base64_encode_binary digest)).

(** [beyond] is the memory behind the terminator of [passwd]. *)
Definition apr_password_validate (beyond passwd hash : list Z) : res Z :=
  sample ←
    (if starts_with apr1_id hash then apr_md5_encode passwd hash 120
     else if starts_with APR_SHA1PW_ID hash then Ok (apr_sha1_base64 (passwd ++ 0 :: beyond) (zlen passwd))
     else Ok (apr_cpystrn passwd (120 - 1)));
  Ok (if bool_decide (sample = hash) then APR_SUCCESS else APR_EMISMATCH).

End Apr.

End AprCrypt.

(** ** The scheme over a hash function *)

Module Phk.

Fixpoint bits (p : positive) : list bool :=
  match p with xH => [true] | xO p => false :: bits p | xI p => true :: bits p end.

Section Phk.
Context (md5 : list Z -> list Z) (magic pw salt : list Z).

(** One byte for each bit of the length of the password, from the lowest. *)
Definition bit_bytes : list Z :=
  match zlen pw with
  | Zpos p => concat (map (fun b : bool => if b then [0] else take 1 pw) (bits p))
  | _ => []
  end.

(** As many bytes as the password has, from a digest again and again. *)
Definition cycle (d : list Z) : list Z := take (length pw) (concat (replicate (length pw) d)).

Definition start : list Z := md5 (pw ++ magic ++ salt ++ cycle (md5 (pw ++ salt ++ pw)) ++ bit_bytes).

Definition round (f : list Z) (i : nat) : list Z :=
  md5 ((if Nat.odd i then pw else f) ++ (if (i mod 3 =? 0)%nat then [] else salt) ++
       (if (i mod 7 =? 0)%nat then [] else pw) ++ (if Nat.odd i then f else pw)).

Definition digest : list Z := fold_left round (seq 0 1000) start.

End Phk.

End Phk.

(** What is documented of the MD5 of a library. *)
Class Md5Laws {ctx} (D : StreamDigest ctx) := {
  md5_chunk : forall d, zlen d < 2 ^ 31 -> sd_chunk d;
  md5_length : forall m, length (sd_spec m) = 16%nat;
  md5_bytes : forall m, bytes_ok (sd_spec m)
}.

Lemma md5_stream_laws g Hg : Md5Laws (md5_stream g Hg).
Proof.
  split.
  - intros d H. cbn. unfold md_chunk. lia.
  - intros m. cbn. unfold md_spec, digest_of, md_out. by destruct (fst _) as [[[a b] c] d].
  - intros m. cbn. unfold md_spec, digest_of, md_out. destruct (fst _) as [[[a b] c] d]. unfold Encode. cbn [map concat].
    unfold word_le. repeat apply Forall_app_2; repeat (apply Forall_cons; split); try apply Forall_nil_2;
      unfold is_u8; rewrite (Z.land_ones _ 8) by lia; apply Z.mod_pos_bound; lia.
Qed.

Section Scheme.
Context {ctx : Type} {D : StreamDigest ctx} {L : Md5Laws D}.

Lemma cycle_more n (d : list Z) : length d = 16%nat -> (16 < n)%nat ->
  take n (concat (replicate n d)) = d ++ take (n - 16) (concat (replicate (n - 16) d)).
Proof.
  intros Hd Hn.
  assert (forall k, length (concat (replicate k d)) = (16 * k)%nat) as Hlen.
  { induction k as [|k IH]; [done|]. cbn. rewrite length_app, IH. lia. }
  replace (replicate n d) with (d :: replicate (n - 16) d ++ replicate 15 d)
    by (rewrite <- replicate_add, <- replicate_S; f_equal; lia).
  cbn [concat]. rewrite concat_app, take_app, Hd, (take_ge d) by lia. f_equal. rewrite take_app_le; [done|]. rewrite Hlen. lia.
Qed.

Lemma pl_loop_spec fuel : forall (c : ctx) final n, (n <= fuel)%nat -> length final = 16%nat ->
  exists ds, pl_loop fuel c final (Z.of_nat n) = Ok (fold_left sd_update ds c) /\ Forall (fun d => zlen d <= 16) ds /\
    concat ds = take n (concat (replicate n final)).
Proof.
  induction fuel as [|fuel IH]; intros c final n Hn Hf; cbn [pl_loop]; rewrite Z.gtb_ltb.
  { replace n with 0%nat by lia. exists []. repeat split; constructor. }
  destruct (Z.ltb_spec 0 (Z.of_nat n)) as [Hp|Hp].
  2:{ replace n with 0%nat by lia. exists []. repeat split; constructor. }
  rewrite Z.gtb_ltb. destruct (Z.ltb_spec 16 (Z.of_nat n)) as [Hb|Hb].
  - destruct (IH (sd_update c final) final (n - 16)%nat ltac:(lia) Hf) as (ds & E & Hds & Ec).
    exists (final :: ds). rewrite take_ge by (rewrite Hf; lia). replace (Z.of_nat n - 16) with (Z.of_nat (n - 16)) by lia.
    rewrite E. split; [done|]. split; [constructor; [unfold zlen; lia|done]|]. cbn [concat]. by rewrite Ec, <- cycle_more by lia.
  - exists [take n final]. rewrite Nat2Z.id. assert (pl_loop fuel (sd_update c (take n final)) final (Z.of_nat n - 16) = Ok (sd_update c (take n final))) as ->.
    { destruct fuel; cbn [pl_loop]; rewrite Z.gtb_ltb; by destruct (Z.ltb_spec 0 (Z.of_nat n - 16)); [lia|]. }
    split; [done|]. split; [repeat constructor; unfold zlen; rewrite length_take; lia|]. cbn [concat]. rewrite app_nil_r.
    destruct n as [|n]; [done|]. cbn [replicate concat]. rewrite take_app_le by lia. done.
Qed.

Lemma weird_loop_spec p : forall fuel (c : ctx) pw, (length (Phk.bits p) <= fuel)%nat -> 
  weird_loop fuel c (repeat 0 16) pw (Zpos p) = Ok (fold_left sd_update (map (fun b : bool => if b then [0] else take 1 pw) (Phk.bits p)) c).
Proof.
  assert (forall fuel (c : ctx) f pw, weird_loop fuel c f pw 0 = Ok c) as H0 by (by intros []).
  induction p as [p IH|p IH|]; intros [|fuel] c pw Hf; cbn [Phk.bits length] in Hf; try lia; cbn [weird_loop Phk.bits map fold_left].
  - change (Z.shiftr (Z.pos p~1) 1) with (Zpos p). rewrite IH by lia. done.
  - change (Z.shiftr (Z.pos p~0) 1) with (Zpos p). rewrite IH by lia. done.
  - change (Z.shiftr 1 1) with 0. by rewrite H0.
Qed.

Lemma bits_length p : Zpos p < 2 ^ 31 -> (length (Phk.bits p) <= 32)%nat.
Proof.
  assert (forall p, 2 ^ (Z.of_nat (length (Phk.bits p)) - 1) <= Zpos p) as H.
  { induction p0 as [q IH|q IH|]; cbn [Phk.bits length]; [| |done].
    all: assert (0 < length (Phk.bits q))%nat by (destruct q; cbn; lia);
      replace (Z.of_nat (S (length (Phk.bits q))) - 1) with (Z.succ (Z.of_nat (length (Phk.bits q)) - 1)) by lia;
      rewrite Z.pow_succ_r by lia; lia. }
  intros Hp. specialize (H p). destruct (Nat.le_gt_cases (length (Phk.bits p)) 32) as [|Hl]; [done|].
  exfalso. assert (2 ^ 32 <= 2 ^ (Z.of_nat (length (Phk.bits p)) - 1)) by (apply Z.pow_le_mono_r; lia). lia.
Qed.

Lemma odd_of_nat i : Z.odd (Z.of_nat i) = Nat.odd i.
Proof. induction i as [|i IH]; [done|]. by rewrite Nat2Z.inj_succ, Z.odd_succ, Nat.odd_succ, <- Z.negb_odd, <- Nat.negb_odd, IH. Qed.

Lemma mod_of_nat i k : (Z.of_nat i mod Z.of_nat k =? 0) = (i mod k =? 0)%nat.
Proof. rewrite <- Nat2Z.inj_mod. destruct (Nat.eqb_spec (i mod k) 0), (Z.eqb_spec (Z.of_nat (i mod k)) 0); lia. Qed.

Lemma round_spec i final pw sp : zlen pw < 2 ^ 31 -> zlen sp < 2 ^ 31 -> zlen final < 2 ^ 31 ->
  thousand 1 (Z.of_nat i) final pw sp = Phk.round sd_spec pw sp final i.
Proof.
  intros Hp Hs Hf. cbn [thousand]. unfold Phk.round. rewrite Z.bit0_odd, odd_of_nat.
  change (Z.of_nat i mod 3) with (Z.of_nat i mod Z.of_nat 3). change (Z.of_nat i mod 7) with (Z.of_nat i mod Z.of_nat 7). rewrite !mod_of_nat.
  set (a := if Nat.odd i then pw else final). set (d := if Nat.odd i then final else pw).
  assert (zlen a < 2 ^ 31 /\ zlen d < 2 ^ 31) as [Ha Hd] by (unfold a, d; by destruct (Nat.odd i)).
  pose (ds := [a] ++ (if (i mod 3 =? 0)%nat then [] else [sp]) ++ (if (i mod 7 =? 0)%nat then [] else [pw]) ++ [d]).
  trans (sd_final (fold_left sd_update ds sd_init)).
  { unfold ds. by destruct (i mod 3 =? 0)%nat, (i mod 7 =? 0)%nat. }
  rewrite sd_correct.
  - f_equal. unfold ds. destruct (i mod 3 =? 0)%nat, (i mod 7 =? 0)%nat; cbn; by rewrite !app_nil_r.
  - unfold ds. destruct (i mod 3 =? 0)%nat, (i mod 7 =? 0)%nat; repeat (apply Forall_cons_2; [by apply md5_chunk|]); apply Forall_nil_2.
Qed.

Lemma thousand_spec n : forall i final pw sp, zlen pw < 2 ^ 31 -> zlen sp < 2 ^ 31 -> zlen final = 16 ->
  thousand n (Z.of_nat i) final pw sp = fold_left (Phk.round sd_spec pw sp) (seq i n) final.
Proof.
  induction n as [|n IH]; intros i final pw sp Hp Hs Hf; [done|]. cbn [seq fold_left].
  rewrite <- IH by (try done; unfold Phk.round, zlen; by rewrite md5_length).
  rewrite <- round_spec by (try done; lia). cbn [thousand]. do 2 f_equal. lia.
Qed.

Lemma s32_len (pw : list Z) : zlen pw < 2 ^ 31 -> s32 (zlen pw) = zlen pw.
Proof. intros H. unfold s32, zlen in *. rewrite Z.mod_small; lia. Qed.

Lemma crypt_final_phk magic pw sp : zlen pw < 2 ^ 31 -> zlen sp < 2 ^ 31 -> zlen magic < 2 ^ 31 ->
  crypt_final magic pw sp = Ok (Phk.digest sd_spec magic pw sp).
Proof.
  intros Hp Hs Hm. unfold crypt_final. rewrite s32_len by done.
  assert (sd_final (sd_update (sd_update (sd_update sd_init pw) sp) pw) = sd_spec (pw ++ sp ++ pw)) as ->.
  { rewrite <- (app_nil_r pw) at 4. apply (sd_correct [pw; sp; pw]). repeat (apply Forall_cons_2; [by apply md5_chunk|]). apply Forall_nil_2. }
  set (c := sd_update (sd_update (sd_update sd_init pw) magic) sp). destruct (pl_loop_spec (length pw) c (sd_spec (pw ++ sp ++ pw)) (length pw) ltac:(lia) (md5_length _)) as (ds & E & Hds & Ec).
  change (Z.of_nat (length pw)) with (zlen pw) in E. rewrite E. cbn [mbind res_bind].
  assert (exists es, weird_loop 32 (fold_left sd_update ds c) (repeat 0 16) pw (zlen pw) = Ok (fold_left sd_update es (fold_left sd_update ds c)) /\
    Forall (fun d => zlen d <= 16) es /\ concat es = Phk.bit_bytes pw) as (es & -> & Hes & Ee).
  { unfold Phk.bit_bytes. destruct (zlen pw) as [|p|p] eqn:El; [by exists []| |unfold zlen in El; lia].
    eexists. split; [apply weird_loop_spec, bits_length; lia|]. split; [|done]. apply Forall_map, Forall_true. intros [].
    - unfold compose, zlen. cbn [length]. lia.
    - unfold compose, zlen. rewrite length_take. lia. }
  cbn [mbind res_bind]. f_equal. rewrite <- fold_left_app. change c with (fold_left sd_update [pw; magic; sp] sd_init). rewrite <- fold_left_app, sd_correct.
  - assert (concat ([pw; magic; sp] ++ ds ++ es) = pw ++ magic ++ sp ++ concat ds ++ concat es) as -> by (cbn; by rewrite concat_app).
    rewrite Ec, Ee. apply (thousand_spec 1000 0); [done..|]. unfold zlen. by rewrite md5_length.
  - repeat (apply Forall_cons_2; [by apply md5_chunk|]). apply Forall_app_2; (eapply Forall_impl; [eassumption|]); intros d Hd; apply md5_chunk; cbn beta in Hd; lia.
Qed.

Lemma digest_length magic pw sp : length (Phk.digest sd_spec magic pw sp) = 16%nat /\ bytes_ok (Phk.digest sd_spec magic pw sp).
Proof.
  unfold Phk.digest. generalize (seq 0 1000) as l.
  assert (forall l f, length f = 16%nat /\ bytes_ok f -> length (fold_left (Phk.round sd_spec pw sp) l f) = 16%nat /\ bytes_ok (fold_left (Phk.round sd_spec pw sp) l f)) as H.
  { induction l as [|i l IH]; [done|]. intros f _. apply IH. unfold Phk.round. split; [apply md5_length|apply md5_bytes]. }
  intros l. apply H. unfold Phk.start. split; [apply md5_length|apply md5_bytes].
Qed.

End Scheme.

(** *** The printed digest *)

Definition printed (final : list Z) : list Z := concat (map (fun '(l, n) => to64_loop (Z.to_nat n) l) (crypt_words final)).

Lemma to64_length n : forall v, length (to64_loop n v) = n.
Proof. induction n as [|n IH]; intros v; cbn; [done|by rewrite IH]. Qed.

Lemma itoa64_inj i j : 0 <= i < 64 -> 0 <= j < 64 -> znth 0 itoa64 i = znth 0 itoa64 j -> i = j.
Proof.
  intros Hi Hj. unfold znth. intros E. apply NoDup_nth in E; [lia| |change (length itoa64) with 64%nat; lia..].
  apply NoDup_ListNoDup. apply (bool_decide_unpack (NoDup itoa64)). vm_compute. exact I.
Qed.

Lemma to64_inj n : forall v w, 0 <= v < 64 ^ Z.of_nat n -> 0 <= w < 64 ^ Z.of_nat n -> to64_loop n v = to64_loop n w -> v = w.
Proof.
  induction n as [|n IH]; intros v w Hv Hw E; [cbn in *; lia|]. cbn [to64_loop] in E. injection E as E1 E2.
  rewrite Nat2Z.inj_succ, Z.pow_succ_r in Hv, Hw by lia. rewrite !(Z.land_ones _ 6) in E1 by lia. rewrite !Z.shiftr_div_pow2 in E2 by lia.
  change (2 ^ 6) with 64 in *. apply itoa64_inj in E1; [|apply Z.mod_pos_bound; lia..].
  apply IH in E2; [|split; [apply Z.div_pos; lia|apply Z.div_lt_upper_bound; lia]..].
  rewrite (Z.div_mod v 64), (Z.div_mod w 64) by lia. lia.
Qed.

Lemma word3 a b c : is_u8 a -> is_u8 b -> is_u8 c -> Z.lor (Z.lor (Z.shiftl a 16) (Z.shiftl b 8)) c = a * 65536 + b * 256 + c.
Proof.
  unfold is_u8. intros Ha Hb Hc. rewrite !Z.shiftl_mul_pow2 by lia.
  rewrite (lor_disjoint_add a _ 16) by lia. replace (a * 2 ^ 16 + b * 2 ^ 8) with ((a * 256 + b) * 2 ^ 8) by lia. rewrite lor_disjoint_add; lia.
Qed.

Lemma to64_four a b c a' b' c' : is_u8 a -> is_u8 b -> is_u8 c -> is_u8 a' -> is_u8 b' -> is_u8 c' ->
  to64_loop 4 (Z.lor (Z.lor (Z.shiftl a 16) (Z.shiftl b 8)) c) = to64_loop 4 (Z.lor (Z.lor (Z.shiftl a' 16) (Z.shiftl b' 8)) c') ->
  a = a' /\ b = b' /\ c = c'.
Proof.
  intros Ha Hb Hc Ha' Hb' Hc'. rewrite !word3 by done. unfold is_u8 in *. intros E.
  apply to64_inj in E; change (64 ^ Z.of_nat 4) with 16777216; lia.
Qed.

Lemma printed_length f : zlen (printed f) = 22.
Proof. unfold zlen, printed, crypt_words. cbn [map concat]. rewrite !length_app, !to64_length. done. Qed.

Lemma printed_inj f g : length f = 16%nat -> bytes_ok f -> length g = 16%nat -> bytes_ok g -> printed f = printed g -> f = g.
Proof.
  intros Hf Bf Hg Bg. do 16 (destruct f as [|? f]; [done|]). destruct f; [|done]. do 16 (destruct g as [|? g]; [done|]). destruct g; [|done]. clear Hf Hg.
  repeat match goal with H : bytes_ok (_ :: _) |- _ => apply Forall_cons in H as [? H] end.
  cbv [printed crypt_words map concat znth nth Z.to_nat Pos.to_nat Pos.iter_op Init.Nat.add].
  intros E. repeat (apply app_inj_1 in E; [destruct E as [?E E]|by rewrite !to64_length]).
  repeat match goal with H : to64_loop 4 _ = _ |- _ => apply to64_four in H as (-> & -> & ->); [|done..] end.
  apply to64_inj in E5 as ->; unfold is_u8 in *; change (64 ^ Z.of_nat 2) with 4096; try lia. done.
Qed.

Lemma strlcat_fits p q siz : zlen p + zlen q < siz -> strlcat p q siz = p ++ q.
Proof.
  intros H. unfold strlcat. rewrite Z.geb_leb. destruct (Z.leb_spec siz (zlen p)); [unfold zlen in *; lia|]. rewrite take_ge; [done|]. unfold zlen in *. lia.
Qed.

Lemma fold_strlcat ws : forall p siz, Forall (fun '(l, n) => 0 <= n <= 4) ws -> zlen p + 4 * zlen ws < siz ->
  fold_left (fun p '(l, n) => strlcat p (to64 l n) siz) ws p = p ++ concat (map (fun '(l, n) => to64_loop (Z.to_nat n) l) ws).
Proof.
  induction ws as [|[l n] ws IH]; intros p siz Hw Hs; cbn [fold_left map concat]; [by rewrite app_nil_r|].
  apply Forall_cons in Hw as [Hn Hw]. cbn beta iota in Hn. unfold to64 at 2. rewrite Z.gtb_ltb. destruct (Z.ltb_spec 4 n); [lia|].
  assert (zlen (to64_loop (Z.to_nat n) l) = n) as Hl by (unfold zlen; rewrite to64_length; lia).
  rewrite strlcat_fits by (unfold zlen in *; cbn [length] in *; lia).
  rewrite IH; [by rewrite app_assoc|done|]. unfold zlen in *. rewrite length_app. cbn [length] in *. lia.
Qed.

Lemma words_small f : Forall (fun '(l, n) => 0 <= n <= 4) (crypt_words f).
Proof. unfold crypt_words. repeat (apply Forall_cons_2; [lia|]). apply Forall_nil_2. Qed.

Lemma starts_with_app p s : starts_with p (p ++ s) = true.
Proof. unfold starts_with. rewrite take_app_length. by apply bool_decide_true. Qed.

Lemma hash_inj (a sp f g : list Z) : a ++ sp ++ 36 :: f = a ++ sp ++ 36 :: g <-> f = g.
Proof. split; [|by intros ->]. intros E. apply app_inv_head in E. apply app_inv_head in E. by injection E. Qed.

Lemma Ok_eq {A} (a b : A) : Ok a = Ok b <-> a = b.
Proof. split; [by intros [=]|by intros ->]. Qed.

(** A salt: at most eight characters, no dollar. *)
Definition salt_ok (sp : list Z) : Prop := zlen sp <= 8 /\ Forall (fun c => c <> 36) sp.

Section Checks.
Context {ctx : Type} {D : StreamDigest ctx} {L : Md5Laws D}.

Lemma salt_len_spec sp : forall n rest, Forall (fun c => c <> 36) sp -> n + zlen sp <= 8 -> Crypt.salt_len n (sp ++ 36 :: rest) = Some (n + zlen sp).
Proof.
  induction sp as [|c sp IH]; intros n rest Hs Hn; cbn [app Crypt.salt_len].
  - rewrite Z.eqb_refl. f_equal. unfold zlen. cbn. lia.
  - apply Forall_cons in Hs as [Hc Hs]. rewrite (proj2 (Z.eqb_neq c 36) Hc), Z.geb_leb.
    unfold zlen in *. cbn [length] in *. destruct (Z.leb_spec 8 n); [lia|]. rewrite IH; [f_equal; lia|done|lia].
Qed.

Lemma xcrypt_eq pw sp rest : zlen pw < 2 ^ 31 -> salt_ok sp ->
  Crypt.xcrypt pw (Crypt.magic ++ sp ++ 36 :: rest) = Ok (Crypt.magic ++ sp ++ 36 :: printed (Phk.digest sd_spec Crypt.magic pw sp)).
Proof.
  intros Hp [Hl Hs]. unfold Crypt.xcrypt, Crypt.is_md5_salt. rewrite starts_with_app. unfold Crypt.md5_crypt. rewrite starts_with_app.
  change (drop 3 (Crypt.magic ++ sp ++ 36 :: rest)) with (sp ++ 36 :: rest). rewrite salt_len_spec by (done || lia).
  rewrite Z.add_0_l. change (zlen sp) with (Z.of_nat (length sp)). rewrite Nat2Z.id, take_app_length.
  rewrite crypt_final_phk by (try done; lia). cbn [mbind res_bind]. f_equal.
  assert (snprintf_dollar 120 Crypt.magic sp = Crypt.magic ++ sp ++ [36]) as ->.
  { unfold snprintf_dollar. apply take_ge. rewrite !length_app. unfold zlen in Hl. change (length Crypt.magic) with 3%nat. cbn [length]. lia. }
  rewrite fold_strlcat; [by rewrite <- !app_assoc|apply words_small|].
  unfold zlen in *. rewrite !length_app. change (length Crypt.magic) with 3%nat. change (length (crypt_words _)) with 6%nat. cbn [length]. lia.
Qed.

Lemma printed_digest magic magic' pw pw' sp sp' :
  printed (Phk.digest sd_spec magic pw sp) = printed (Phk.digest sd_spec magic' pw' sp') <-> Phk.digest sd_spec magic pw sp = Phk.digest sd_spec magic' pw' sp'.
Proof. split; [|by intros ->]. intros E. apply printed_inj in E; [done|apply digest_length..]. Qed.

(** What [xcrypt] makes of a password is a salt that makes the same of it again, of at
    most 34 characters; and another password passes the check against it exactly when the
    MD5 scheme gives both the same digest. *)
Theorem xcrypt_checks pw pw' sp rest : zlen pw < 2 ^ 31 -> zlen pw' < 2 ^ 31 -> salt_ok sp ->
  exists h, Crypt.xcrypt pw (Crypt.magic ++ sp ++ 36 :: rest) = Ok h /\ zlen h <= 34 /\ Crypt.xcrypt pw h = Ok h /\
    (Crypt.xcrypt pw' h = Ok h <-> Phk.digest sd_spec Crypt.magic pw' sp = Phk.digest sd_spec Crypt.magic pw sp).
Proof.
  intros Hp Hp' Hs. eexists. split; [by apply xcrypt_eq|]. split; [|split].
  - destruct Hs as [Hl _]. pose proof (printed_length (Phk.digest sd_spec Crypt.magic pw sp)). unfold zlen in *. rewrite !length_app. cbn [length].
    change (length Crypt.magic) with 3%nat. lia.
  - by apply xcrypt_eq.
  - rewrite xcrypt_eq by done. rewrite <- printed_digest. by rewrite Ok_eq, hash_inj.
Qed.

End Checks.

(** *** apr-util *)

Section AprChecks.
Context (g5 g1 : list Z) (H5 : length g5 = 64%nat).

Abbreviation md5 := (md_spec Md5.MD5Transform).

Lemma apr_salt_spec s : forall n, exists k, AprCrypt.apr_salt_len n s = n + Z.of_nat k /\ (k <= length s)%nat /\ ((0 < k)%nat -> n + Z.of_nat k <= 8) /\
  Forall (fun c => c <> 36) (take k s).
Proof.
  induction s as [|c s IH]; intros n; cbn [AprCrypt.apr_salt_len]; [exists 0%nat; repeat split; try done; lia|].
  destruct (Z.eqb_spec c 36) as [->|Hc]; cbn [negb andb]; [exists 0%nat; repeat split; try constructor; try lia|].
  destruct (Z.ltb_spec n 8); [|exists 0%nat; repeat split; try constructor; lia].
  destruct (IH (n + 1)) as (k & -> & Hl & Hk & Hf). exists (S k). cbn [length take]. repeat split; try lia. by constructor.
Qed.

Lemma apr_salt_again sp rest : forall n, n + zlen sp <= 8 -> Forall (fun c => c <> 36) sp -> AprCrypt.apr_salt_len n (sp ++ 36 :: rest) = n + zlen sp.
Proof.
  induction sp as [|c sp IH]; intros n Hn Hs; cbn [app AprCrypt.apr_salt_len]; [unfold zlen; cbn; lia|].
  apply Forall_cons in Hs as [Hc Hs]. rewrite (proj2 (Z.eqb_neq c 36) Hc). unfold zlen in *. cbn [length negb andb] in *.
  destruct (Z.ltb_spec n 8); [|lia]. rewrite IH by (done || lia). lia.
Qed.

Lemma fold_to64 ws : forall p, fold_left (fun p '(l, n) => p ++ to64_loop (Z.to_nat n) l) ws p = p ++ concat (map (fun '(l, n) => to64_loop (Z.to_nat n) l) ws).
Proof. induction ws as [|[l n] ws IH]; intros p; cbn [fold_left map concat]; [by rewrite app_nil_r|]. by rewrite IH, app_assoc. Qed.

Lemma apr_encode_eq pw salt sp nbytes : zlen pw < 2 ^ 31 -> salt_ok sp -> 39 <= nbytes ->
  (let s := if starts_with AprCrypt.apr1_id salt then drop 6 salt else salt in take (Z.to_nat (AprCrypt.apr_salt_len 0 s)) s) = sp ->
  AprCrypt.apr_md5_encode g5 H5 pw salt nbytes = Ok (AprCrypt.apr1_id ++ sp ++ 36 :: printed (Phk.digest md5 AprCrypt.apr1_id pw sp)).
Proof.
  intros Hp Hs Hn E. unfold AprCrypt.apr_md5_encode. cbv zeta in E |- *. rewrite E. destruct Hs as [Hl Hs].
  pose proof (md5_stream_laws g5 H5) as L. rewrite (crypt_final_phk (D := AprCrypt.apr_digest g5 H5)) by (try done; lia).
  cbn [mbind res_bind]. change (@sd_spec md_ctx (AprCrypt.apr_digest g5 H5)) with md5. rewrite fold_to64.
  change (concat _) with (printed (Phk.digest md5 AprCrypt.apr1_id pw sp)). f_equal. unfold AprCrypt.apr_cpystrn.
  rewrite <- !app_assoc. apply take_ge. pose proof (printed_length (Phk.digest md5 AprCrypt.apr1_id pw sp)) as Hpl. unfold zlen in Hl, Hpl. rewrite !length_app. cbn [app length].
  change (length AprCrypt.apr1_id) with 6%nat. lia.
Qed.

(** [apr_md5_encode] takes any salt, and [apr_password_validate] lets a password pass
    against what it made exactly when the MD5 scheme gives the same digest; what is in the
    memory behind the password does not matter. *)
Theorem apr_validate_checks pw pw' salt nbytes beyond : zlen pw < 2 ^ 31 -> zlen pw' < 2 ^ 31 -> 39 <= nbytes ->
  exists sp h, salt_ok sp /\ AprCrypt.apr_md5_encode g5 H5 pw salt nbytes = Ok h /\
    AprCrypt.apr_password_validate g5 g1 H5 beyond pw' h =
      Ok (if bool_decide (Phk.digest md5 AprCrypt.apr1_id pw' sp = Phk.digest md5 AprCrypt.apr1_id pw sp) then AprCrypt.APR_SUCCESS else AprCrypt.APR_EMISMATCH).
Proof.
  intros Hp Hp' Hn. set (s := if starts_with AprCrypt.apr1_id salt then drop 6 salt else salt).
  destruct (apr_salt_spec s 0) as (k & Ek & Hk & H8 & Hf). exists (take k s). eexists.
  assert (salt_ok (take k s)) as Hs by (split; [unfold zlen; rewrite length_take; lia|done]). split; [done|]. split.
  { apply apr_encode_eq; [done..|]. cbv zeta. fold s. rewrite Ek, Z.add_0_l, Nat2Z.id. done. }
  unfold AprCrypt.apr_password_validate. rewrite starts_with_app.
  rewrite (apr_encode_eq _ _ (take k s)); [|done|done|lia|].
  - cbn [mbind res_bind]. f_equal. pose proof (md5_stream_laws g5 H5) as L. erewrite bool_decide_ext; [reflexivity|].
    rewrite hash_inj. apply (printed_digest (D := AprCrypt.apr_digest g5 H5)).
  - cbv zeta. rewrite starts_with_app. change (drop 6 (AprCrypt.apr1_id ++ ?x)) with x.
    rewrite apr_salt_again by apply Hs. rewrite Z.add_0_l. unfold zlen. by rewrite Nat2Z.id, take_app_length.
Qed.

Lemma encode_nonzero n : forall s, (length s <= n)%nat -> bytes_ok s -> Forall (fun c => c <> 0) (Base64.encode_loop s).
Proof.
  assert (forall a b c, is_u8 a -> is_u8 b -> is_u8 c -> Forall (fun c => c <> 0) (Base64.quad a b c)) as Hq.
  { intros a b c Ha Hb Hc. destruct (Base64.quad_six a b c Ha Hb Hc) as [_ H]. eapply Forall_impl; [exact H|]. intros x Hx ->. exact (Hx eq_refl). }
  assert (is_u8 0) as H0 by (unfold is_u8; lia).
  induction n as [|n IH]; intros s Hn Hs; [destruct s; [constructor|cbn in Hn; lia]|].
  destruct s as [|a [|b [|c s]]]; repeat (apply Forall_cons in Hs as [? Hs]).
  - constructor.
  - rewrite Base64.encode_one by done. apply Forall_app_2; [by apply Forall_take, Hq|by repeat constructor].
  - rewrite Base64.encode_two by done. apply Forall_app_2; [by apply Forall_take, Hq|by repeat constructor].
  - rewrite Base64.encode_three by done. apply Forall_app_2; [by apply Hq|]. apply IH; [cbn in Hn; lia|done].
Qed.

Lemma cstring_app l rest : Forall (fun c => c <> 0) l -> cstring (l ++ 0 :: rest) = l.
Proof. induction 1 as [|c l Hc _ IH]; [done|]. cbn [app cstring]. by rewrite (proj2 (Z.eqb_neq c 0) Hc), IH. Qed.

Lemma sha1_bytes m : bytes_ok (Sha1.sha1_spec m).
Proof.
  unfold Sha1.sha1_spec, digest_of, Sha1.sha1_out. destruct (fst _) as [[[[a b] c] d] e]. cbn [map concat]. unfold word_be.
  repeat apply Forall_app_2; repeat (apply Forall_cons; split); try apply Forall_nil_2;
    unfold is_u8; rewrite (Z.land_ones _ 8) by lia; apply Z.mod_pos_bound; lia.
Qed.

Context (H1 : length g1 = 64%nat).

(** [clear] is the memory behind the marker, if there is one. *)
Lemma sha1_base64_eq mem len clear : (if starts_with AprCrypt.APR_SHA1PW_ID mem then drop 5 mem else mem) = clear -> 0 <= len < 2 ^ 31 ->
  AprCrypt.apr_sha1_base64 g1 mem len = AprCrypt.APR_SHA1PW_ID ++ Base64.encode_loop (Sha1.sha1_spec (take (Z.to_nat len) clear)).
Proof.
  intros E Hl. unfold AprCrypt.apr_sha1_base64. cbv zeta. rewrite E.
  pose proof (Sha1.sha1_digest true g1 [take (Z.to_nat len) clear] H1) as Hd. cbn [fold_left concat] in Hd. rewrite app_nil_r in Hd. rewrite Hd.
  - unfold Base64.apr_base64_encode_binary. cbn [fst]. rewrite app_assoc.
    change (AprCrypt.apr_cpystrn AprCrypt.APR_SHA1PW_ID (5 + 1)) with AprCrypt.APR_SHA1PW_ID. apply cstring_app. apply Forall_app_2; [by repeat constructor|].
    eapply encode_nonzero; [reflexivity|]. apply sha1_bytes.
  - repeat constructor. unfold Sha1.sha1_chunk, zlen. rewrite length_take. lia.
Qed.

(** Passwords in the form of SHA-1: the check compares the digests, for passwords that do
    not begin with the marker themselves. *)
Theorem apr_sha_checks pw pw' beyond beyond' : zlen pw < 2 ^ 31 -> zlen pw' < 2 ^ 31 ->
  starts_with AprCrypt.APR_SHA1PW_ID (pw ++ 0 :: beyond) = false -> starts_with AprCrypt.APR_SHA1PW_ID (pw' ++ 0 :: beyond') = false ->
  AprCrypt.apr_password_validate g5 g1 H5 beyond' pw' (AprCrypt.apr_sha1_base64 g1 (pw ++ 0 :: beyond) (zlen pw)) =
    Ok (if bool_decide (Sha1.sha1_spec pw' = Sha1.sha1_spec pw) then AprCrypt.APR_SUCCESS else AprCrypt.APR_EMISMATCH).
Proof.
  intros Hp Hp' Hn Hn'. rewrite (sha1_base64_eq _ _ (pw ++ 0 :: beyond)); [|by rewrite Hn|unfold zlen in *; lia].
  unfold zlen at 1. rewrite Nat2Z.id, take_app_length. unfold AprCrypt.apr_password_validate.
  change (starts_with AprCrypt.apr1_id (AprCrypt.APR_SHA1PW_ID ++ _)) with false. rewrite starts_with_app.
  rewrite (sha1_base64_eq _ _ (pw' ++ 0 :: beyond')); [|by rewrite Hn'|unfold zlen in *; lia].
  unfold zlen. rewrite Nat2Z.id, take_app_length. cbn [mbind res_bind]. f_equal. erewrite bool_decide_ext; [reflexivity|].
  split; [|by intros ->]. intros E. apply app_inv_head in E.
  destruct (Base64.base64_roundtrip _ (sha1_bytes pw)) as [_ D]. destruct (Base64.base64_roundtrip _ (sha1_bytes pw')) as [_ D'].
  rewrite E, D in D'. by injection D'.
Qed.

(** A password that begins with the marker is hashed without it but with its whole length:
    the terminator and the four bytes of memory behind it go into the digest. *)
Lemma sha_reads_beyond pw beyond : zlen pw + 5 < 2 ^ 31 -> 4 <= zlen beyond ->
  AprCrypt.apr_sha1_base64 g1 ((AprCrypt.APR_SHA1PW_ID ++ pw) ++ 0 :: beyond) (zlen (AprCrypt.APR_SHA1PW_ID ++ pw)) =
  AprCrypt.APR_SHA1PW_ID ++ Base64.encode_loop (Sha1.sha1_spec (pw ++ 0 :: take 4 beyond)).
Proof.
  intros Hp Hb. unfold zlen in *. rewrite <- app_assoc, length_app. change (length AprCrypt.APR_SHA1PW_ID) with 5%nat.
  rewrite (sha1_base64_eq _ _ (pw ++ 0 :: beyond)); [|by rewrite starts_with_app|lia].
  do 3 f_equal. rewrite take_app_ge by lia. replace (Z.to_nat (Z.of_nat (5 + length pw)) - length pw)%nat with 5%nat by lia. done.
Qed.

End AprChecks.

(** ** A test vector *)

Definition demo_stack : list Z := repeat 7 64.

Example sha_vector :
  AprCrypt.apr_password_validate demo_stack demo_stack eq_refl [] (str "password") (str "{SHA}W6ph5Mm5Pz8GgiULbPgzG37mj9g=") = Ok AprCrypt.APR_SUCCESS.
Proof. vm_compute. reflexivity. Qed.

Lemma demo_laws : Md5Laws (md5_stream demo_stack eq_refl).
Proof. apply md5_stream_laws. Qed.

Lemma xcrypt_checks_witness :
  exists h, Crypt.xcrypt (D := md5_stream demo_stack eq_refl) (str "password") (Crypt.magic ++ str "saltstr" ++ 36 :: []) = Ok h /\
    Crypt.xcrypt (D := md5_stream demo_stack eq_refl) (str "password") h = Ok h.
Proof.
  destruct (xcrypt_checks (D := md5_stream demo_stack eq_refl) (L := demo_laws) (str "password") (str "secret") (str "saltstr") []) as (h & E & _ & E' & _).
  - reflexivity.
  - reflexivity.
  - split; [discriminate|]. repeat constructor; discriminate.
  - exists h. exact (conj E E').
Defined.

Lemma apr_validate_checks_witness :
  exists h, AprCrypt.apr_md5_encode demo_stack eq_refl (str "password") (str "pepper") 120 = Ok h /\
    AprCrypt.apr_password_validate demo_stack demo_stack eq_refl [] (str "password") h = Ok AprCrypt.APR_SUCCESS.
Proof.
  destruct (apr_validate_checks demo_stack demo_stack eq_refl (str "password") (str "password") (str "pepper") 120 []) as (sp & h & _ & E & E').
  - reflexivity.
  - reflexivity.
  - discriminate.
  - exists h. split; [exact E|]. rewrite E', bool_decide_true by reflexivity. reflexivity.
Defined.

Lemma apr_sha_checks_witness :
  AprCrypt.apr_password_validate demo_stack demo_stack eq_refl [] (str "guess")
    (AprCrypt.apr_sha1_base64 demo_stack (str "password" ++ 0 :: []) (zlen (str "password"))) = Ok AprCrypt.APR_EMISMATCH.
Proof.
  rewrite (apr_sha_checks demo_stack demo_stack eq_refl eq_refl (str "password") (str "guess") [] []) by reflexivity.
  rewrite bool_decide_false; [reflexivity|]. vm_compute. discriminate.
Defined.
