(* ===== verification/SshRandom.v ===== *)
(** * SshRandom: the generator of random numbers

    shiesh/Arc4Random.cpp and the part of entropy.cpp that is compiled.  RC4 and the random
    bytes of OpenSSL are parameters; so is what [RAND_status] says when it is asked.  An
    object of the class is its state, with the static variable [first_time] and the number
    of calls of [RAND_bytes] so far. *)

From S2P Require Import Prelude DigestStream SshPacket.

Class Rc4 := {
  RC4_KEY : Type;
  RC4_zero : RC4_KEY;                                     (** after [memset] *)
  RC4_set_key : list Z -> RC4_KEY;
  RC4 : RC4_KEY -> list Z -> list Z * RC4_KEY;            (** output and new state *)
  RAND_status : Z;
  RAND_bytes : nat -> option (list Z)                     (** of the n-th call *)
}.

Module Arc4.

Definition SEED_SIZE : Z := 20.
Definition REKEY_BYTES : Z := Z.shiftl 1 24.

Section Arc4.
Context {R : Rc4}.

Record Arc4Random := mkArc4 {
  rc4_ready : Z;
  rc4 : RC4_KEY;
  first_time : bool;
  seeds : nat
}.

(** The constructor; the memory of [rc4] is not set. *)
Definition new (memory : RC4_KEY) (first_time : bool) (seeds : nat) : Arc4Random := mkArc4 0 memory first_time seeds.

Definition seed_rng : res unit := if negb (RAND_status =? 1) then Fatal "PRNG is not seeded" else Ok tt.

(** [for (i = 0; i <= 256; i += sizeof(rand_buf))], from [i] on *)
Fixpoint discard (fuel : nat) (i : Z) (key : RC4_KEY) (rand_buf : list Z) : RC4_KEY :=
  match fuel with
  | O => key
  | S fuel => if i <=? 256 then let '(rand_buf, key) := RC4 key rand_buf in discard fuel (i + SEED_SIZE) key rand_buf else key
  end.

Definition arc4random_stir (s : Arc4Random) : res Arc4Random :=
  match RAND_bytes (seeds s) with
  | None => Fatal "Couldn't obtain random bytes"
  | Some rand_buf => Ok (mkArc4 REKEY_BYTES (discard 14 0 (RC4_set_key rand_buf) rand_buf) (first_time s) (S (seeds s)))
  end.

(** The bytes of an unsigned int, least significant first. *)
Definition uint_of (b : list Z) : Z := znth 0 b 0 + 256 * znth 0 b 1 + 65536 * znth 0 b 2 + 16777216 * znth 0 b 3.

Definition arc4random (s : Arc4Random) : res (Z * Arc4Random) :=
  s ←
    (if rc4_ready s <=? 0 then
       _ ← (if first_time s then seed_rng else Ok tt);
       arc4random_stir (mkArc4 (rc4_ready s) (rc4 s) false (seeds s))
     else Ok s);
  let '(r, key) := RC4 (rc4 s) (word_le 0) in
  Ok (uint_of r, mkArc4 (s32 (rc4_ready s - 4)) key (first_time s) (seeds s)).

(** [n] more bytes; [i] bytes are written. *)
Fixpoint buf_loop (n i : nat) (r : Z) (s : Arc4Random) : res (list Z * Arc4Random) :=
  match n with
  | O => Ok ([], s)
  | S n =>
      '(r, s) ← (if (i mod 4 =? 0)%nat then arc4random s else Ok (r, s));
      '(l, s) ← buf_loop n (S i) (Z.shiftr r 8) s;
      Ok (Z.land r 0xff :: l, s)
  end.

Definition arc4random_buf (n : nat) (s : Arc4Random) : res (list Z * Arc4Random) := buf_loop n 0 0 s.

(** The branch for an unsigned long of 32 bits. *)
Definition uniform_min (upper_bound : Z) : Z :=
  if upper_bound >? 0x80000000 then u32 (1 + Z.lxor upper_bound 0xffffffff)
  else u32 (u32 (0xffffffff - u32 (upper_bound * 2)) + 1) mod upper_bound.

(** [for (;;)]: at most [fuel] turns. *)
Fixpoint uniform_loop (fuel : nat) (min : Z) (s : Arc4Random) : res (Z * Arc4Random) :=
  match fuel with
  | O => OutOfFuel
  | S fuel => '(r, s) ← arc4random s; if r >=? min then Ok (r, s) else uniform_loop fuel min s
  end.

Definition arc4random_uniform (fuel : nat) (upper_bound : Z) (s : Arc4Random) : res (Z * Arc4Random) :=
  if upper_bound <? 2 then Ok (0, s)
  else
    '(r, s) ← uniform_loop fuel (uniform_min upper_bound) s;
    Ok (r mod upper_bound, s).

(** [n] numbers one after the other *)
Fixpoint draw (n : nat) (s : Arc4Random) : res (list Z * Arc4Random) :=
  match n with
  | O => Ok ([], s)
  | S n => '(r, s) ← arc4random s; '(l, s) ← draw n s; Ok (r :: l, s)
  end.

End Arc4.

End Arc4.

(** What is documented of RC4 and of [RAND_bytes]. *)
Class Rc4Laws (R : Rc4) := {
  rc4_length : forall k d, length (fst (RC4 k d)) = length d;
  rc4_bytes : forall k d, bytes_ok (fst (RC4 k d))
}.

Section Uniform.
Context {R : Rc4}.
Import Arc4.

Lemma uniform_min_spec ub : 2 <= ub < 2 ^ 32 -> uniform_min ub = 2 ^ 32 mod ub.
Proof.
  intros H. unfold uniform_min. rewrite Z.gtb_ltb. destruct (Z.ltb_spec 0x80000000 ub).
  - assert (Z.lxor ub 0xffffffff = 0xffffffff - ub) as ->.
    { change 0xffffffff with (Z.ones 32). rewrite <- Z.ldiff_ones_l_low by (try lia; apply Z.log2_lt_pow2; lia).
      rewrite Z.sub_nocarry_ldiff by (apply Z.ldiff_ones_r_low; [lia|apply Z.log2_lt_pow2; lia]). done. }
    rewrite u32_small by lia. apply (Z.mod_unique _ _ 1); lia.
  - destruct (Z.eq_dec ub 0x80000000) as [->|Hn]; [done|].
    rewrite (u32_small (ub * 2)), (u32_small (_ - _)), u32_small by lia.
    replace (2 ^ 32) with (0xffffffff - ub * 2 + 1 + 2 * ub) by lia. by rewrite Z.mod_add by lia.
Qed.

Lemma filter_none {A} (P : A -> Prop) `{forall x, Decision (P x)} l : Forall (fun x => ~ P x) l -> filter P l = [].
Proof. induction 1 as [|x l Hx _ IH]; [done|]. by rewrite filter_cons_False. Qed.

Lemma filter_same {A} (P Q : A -> Prop) `{forall x, Decision (P x)} `{forall x, Decision (Q x)} l :
  Forall (fun x => P x <-> Q x) l -> filter P l = filter Q l.
Proof.
  induction 1 as [|x l Hx _ IH]; [done|]. destruct (decide (P x)).
  - rewrite !filter_cons_True by tauto. by rewrite IH.
  - rewrite !filter_cons_False by tauto. done.
Qed.

Lemma count_period m v a : 0 <= v < m -> length (filter (fun r => r mod m = v) (seqZ a m)) = 1%nat.
Proof.
  intros Hv. set (k := (v - a) mod m). assert (0 <= k < m) as Hk by (apply Z.mod_pos_bound; lia).
  assert ((a + k) mod m = v) as Ek. { unfold k. rewrite Zplus_mod_idemp_r. replace (a + (v - a)) with v by lia. apply Z.mod_small. lia. }
  assert (seqZ a m = seqZ a k ++ (a + k) :: seqZ (a + k + 1) (m - k - 1)) as ->.
  { replace m with (k + (m - k)) at 1 by lia. rewrite seqZ_app, (seqZ_cons (a + k)) by lia. done. }
  rewrite filter_app, (filter_none _ (seqZ a k)), filter_cons_True, (filter_none _ (seqZ (a + k + 1) _)); [done| |done|].
  - apply Forall_seqZ. intros r Hr E. rewrite <- Ek in E. assert ((r - (a + k)) mod m = 0) by (rewrite Zminus_mod, E, Z.sub_diag; apply Z.mod_0_l; lia).
    rewrite Z.mod_small in *; lia.
  - apply Forall_seqZ. intros r Hr E. rewrite <- Ek in E. assert ((a + k - r) mod m = 0) by (rewrite Zminus_mod, E, Z.sub_diag; apply Z.mod_0_l; lia).
    rewrite Z.mod_small in *; lia.
Qed.

Lemma count_periods m v : 0 <= v < m -> forall q a, length (filter (fun r => r mod m = v) (seqZ a (Z.of_nat q * m))) = q.
Proof.
  intros Hv. induction q as [|q IH]; intros a; [by rewrite seqZ_nil by lia|].
  rewrite Nat2Z.inj_succ, Z.mul_succ_l, Z.add_comm, seqZ_app by nia. by rewrite filter_app, length_app, count_period, IH.
Qed.

(** As many of the first [w] numbers, without those below [w mod m], leave the one rest as the other. *)
Lemma count_accepted m v w : 0 <= v < m -> 0 <= w -> length (filter (fun r => w mod m <= r /\ r mod m = v) (seqZ 0 w)) = Z.to_nat (w / m).
Proof.
  intros Hv Hw. pose proof (Z.mod_pos_bound w m ltac:(lia)) as Hm. pose proof (Z.div_mod w m ltac:(lia)) as E.
  assert (0 <= w / m) by (apply Z.div_pos; lia).
  replace (seqZ 0 w) with (seqZ 0 (w mod m) ++ seqZ (w mod m) (Z.of_nat (Z.to_nat (w / m)) * m)).
  - rewrite filter_app, filter_none, app_nil_l.
    + rewrite <- (count_periods m v Hv (Z.to_nat (w / m)) (w mod m)) at 2. f_equal. apply filter_same, Forall_seqZ. intros r Hr. split; [by intros []|split; [lia|done]].
    + apply Forall_seqZ. intros r Hr []. lia.
  - rewrite Z2Nat.id by lia. rewrite <- (seqZ_app 0 (w mod m)) by nia. f_equal. lia.
Qed.

Lemma uniform_loop_first min l : forall s r s' fuel, draw (S (length l)) s = Ok (l ++ [r], s') -> Forall (fun x => x < min) l -> min <= r ->
  (length l < fuel)%nat -> uniform_loop fuel min s = Ok (r, s').
Proof.
  induction l as [|x l IH]; intros s r s' [|fuel] Hd Hl Hr Hf; try (cbn in Hf; lia); cbn [length draw] in Hd; cbn [uniform_loop].
  - destruct (arc4random s) as [[y s1]| |]; cbn in Hd; try done. injection Hd as -> ->. cbn [mbind res_bind]. rewrite Z.geb_leb. by destruct (Z.leb_spec min r); [|lia].
  - apply Forall_cons in Hl as [Hx Hl]. destruct (arc4random s) as [[y s1]| |]; cbn [mbind res_bind] in Hd |- *; try done.
    change (arc4random s1 ≫= _) with (draw (S (length l)) s1) in Hd. destruct (draw (S (length l)) s1) as [[l' s2]| |] eqn:E; cbn in Hd; try done.
    injection Hd as -> -> ->. rewrite Z.geb_leb. destruct (Z.leb_spec min x); [lia|]. eapply IH; [exact E|done|done|cbn in Hf; lia].
Qed.

(** How often a number of 32 bits leads to [v]: it is not rejected, and the result is [v]. *)
Definition ways (ub v : Z) : nat := length (filter (fun r => uniform_min ub <= r /\ r mod ub = v) (seqZ 0 (2 ^ 32))).

(** [arc4random_uniform] is exact: it returns the rest of the first number of the generator
    that it does not reject; every result below the bound is reached from the same number
    of the 2^32 values of the generator; and less than half of them are rejected. *)
Theorem uniform_exact ub s l r s' fuel : 2 <= ub < 2 ^ 32 ->
  draw (S (length l)) s = Ok (l ++ [r], s') -> Forall (fun x => x < 2 ^ 32 mod ub) l -> 2 ^ 32 mod ub <= r -> (length l < fuel)%nat ->
  arc4random_uniform fuel ub s = Ok (r mod ub, s') /\
  (forall v, 0 <= v < ub -> ways ub v = Z.to_nat (2 ^ 32 / ub)) /\ 2 * uniform_min ub < 2 ^ 32.
Proof.
  intros Hub Hd Hl Hr Hf. split; [|split].
  - unfold arc4random_uniform. destruct (Z.ltb_spec ub 2); [lia|]. rewrite uniform_min_spec by done.
    by rewrite (uniform_loop_first _ l s r s') by done.
  - intros v Hv. unfold ways. rewrite uniform_min_spec by done. apply count_accepted; lia.
  - rewrite uniform_min_spec by done. pose proof (Z.mod_pos_bound (2 ^ 32) ub ltac:(lia)). pose proof (Z.div_mod (2 ^ 32) ub ltac:(lia)).
    assert (1 <= 2 ^ 32 / ub) by (apply Z.div_le_lower_bound; lia). nia.
Qed.

End Uniform.

Section Seeds.
Context {R : Rc4} {L : Rc4Laws R}.
Import Arc4.
Context (Hst : RAND_status = 1) (Hb : forall k, is_Some (RAND_bytes k)).

Definition is_u32 (z : Z) : Prop := 0 <= z < 2 ^ 32.

Definition KEY_WORDS : Z := REKEY_BYTES / 4.

(** After [n] numbers, [k] keys ago. *)
Definition seeded (n k : Z) (s : Arc4Random) : Prop :=
  rc4_ready s = 4 * (KEY_WORDS * (Z.of_nat (seeds s) - k) - n) /\ 0 <= rc4_ready s < REKEY_BYTES.

Lemma uint_range k : is_u32 (uint_of (fst (RC4 k (word_le 0)))).
Proof.
  pose proof (rc4_length k (word_le 0)) as Hl. pose proof (rc4_bytes k (word_le 0)) as Hby.
  destruct (fst (RC4 k (word_le 0))) as [|a [|b [|c [|d [|? ?]]]]]; try done. repeat (apply Forall_cons in Hby as [? Hby]).
  unfold uint_of, znth, is_u8, is_u32 in *. change (Z.to_nat 0) with 0%nat. change (Z.to_nat 1) with 1%nat. change (Z.to_nat 2) with 2%nat. change (Z.to_nat 3) with 3%nat.
  cbn [nth]. lia.
Qed.

Lemma arc4random_step n k s : seeded n k s -> exists r s', arc4random s = Ok (r, s') /\ is_u32 r /\ seeded (n + 1) k s'.
Proof.
  intros [E Hr]. unfold arc4random. change REKEY_BYTES with 16777216 in *. change KEY_WORDS with 4194304 in *.
  destruct (Z.leb_spec (rc4_ready s) 0) as [H0|H0].
  - assert ((if first_time s then seed_rng else Ok tt) = Ok tt) as -> by (unfold seed_rng; rewrite Hst; by destruct (first_time s)).
    cbn [mbind res_bind]. unfold arc4random_stir. cbn [seeds]. destruct (Hb (seeds s)) as [buf ->]. cbn [mbind res_bind rc4 rc4_ready first_time seeds].
    set (key := discard _ _ _ _). pose proof (uint_range key) as Hu. destruct (RC4 key (word_le 0)) as [o key'].
    eexists _, _. split; [done|]. split; [done|]. unfold seeded. cbn [rc4_ready seeds]. change REKEY_BYTES with 16777216. change (s32 (16777216 - 4)) with 16777212. change KEY_WORDS with 4194304. lia.
  - cbn [mbind res_bind]. pose proof (uint_range (rc4 s)) as Hu. destruct (RC4 (rc4 s) (word_le 0)) as [o key'].
    eexists _, _. split; [done|]. split; [done|]. unfold seeded. cbn [rc4_ready seeds]. change REKEY_BYTES with 16777216. change KEY_WORDS with 4194304.
    assert (s32 (rc4_ready s - 4) = rc4_ready s - 4) as -> by (unfold s32; rewrite Z.mod_small; lia). lia.
Qed.

Lemma draw_seeded m : forall n k s, seeded n k s -> exists l s', draw m s = Ok (l, s') /\ length l = m /\ Forall is_u32 l /\ seeded (n + Z.of_nat m) k s'.
Proof.
  induction m as [|m IH]; intros n k s Hs.
  - exists [], s. rewrite Z.add_0_r. repeat split; try apply Hs. constructor.
  - destruct (arc4random_step n k s Hs) as (r & s1 & E & Hr & H1). destruct (IH _ _ _ H1) as (l & s2 & E2 & Hl & Hu & H2).
    exists (r :: l), s2. cbn [draw]. rewrite E. cbn [mbind res_bind]. rewrite E2. cbn [mbind res_bind]. repeat split; [cbn; by rewrite Hl|by constructor|..];
      replace (n + Z.of_nat (S m)) with (n + 1 + Z.of_nat m) by lia; apply H2.
Qed.

(** A generator whose library can give random bytes never fails: it gives numbers of 32
    bits, and takes a new key after each 2^22 of them, so that [n] numbers cost exactly
    [n / 2^22] keys, rounded up. *)
Theorem generator_reseeds memory first k n : exists l s', draw n (new memory first k) = Ok (l, s') /\ length l = n /\ Forall is_u32 l /\
  Z.of_nat (seeds s') = Z.of_nat k + (Z.of_nat n + (2 ^ 22 - 1)) / 2 ^ 22.
Proof.
  destruct (draw_seeded n 0 (Z.of_nat k) (new memory first k)) as (l & s' & E & Hl & Hu & Hs & Hr).
  { split; cbn [new rc4_ready seeds]; [lia|]. change REKEY_BYTES with 16777216. lia. }
  exists l, s'. repeat split; try done. change REKEY_BYTES with 16777216 in *. change KEY_WORDS with 4194304 in *. change (2 ^ 22) with 4194304. Z.div_mod_to_equations. lia.
Qed.

End Seeds.

(** ** The padding of packets *)

Section Padding.
Context {R : Rc4}.
Import Arc4.

(** The generator of a connection, as the packet layer sees it: its n-th number. *)
Definition generator (s : Arc4Random) : Random :=
  {| SshPacket.arc4random n := match draw (S n) s with Ok (l, _) => nth n l 0 | _ => 0 end |}.

Lemma draw_add n m : forall s, draw (n + m) s = ('(l, s) ← draw n s; '(l', s) ← draw m s; Ok (l ++ l', s)).
Proof.
  induction n as [|n IH]; intros s; cbn [Nat.add draw].
  - cbn [mbind res_bind]. by destruct (draw m s) as [[]| |].
  - destruct (arc4random s) as [[r s1]| |]; cbn [mbind res_bind]; [|done..]. rewrite IH. destruct (draw n s1) as [[l s2]| |]; cbn [mbind res_bind]; [|done..].
    by destruct (draw m s2) as [[]| |].
Qed.

Lemma draw_length n : forall s l s', draw n s = Ok (l, s') -> length l = n.
Proof.
  induction n as [|n IH]; intros s l s'; cbn [draw]; [by intros [= <- _]|].
  destruct (arc4random s) as [[r s1]| |]; cbn [mbind res_bind]; try done. destruct (draw n s1) as [[l1 s2]| |] eqn:E; cbn [mbind res_bind]; try done.
  intros [= <- _]. cbn. by rewrite (IH _ _ _ E).
Qed.

Lemma generator_next s0 used l s r s' : draw used s0 = Ok (l, s) -> arc4random s = Ok (r, s') ->
  @SshPacket.arc4random (generator s0) used = r /\ draw (S used) s0 = Ok (l ++ [r], s').
Proof.
  intros E Er. assert (draw (S used) s0 = Ok (l ++ [r], s')) as Ed.
  { replace (S used) with (used + 1)%nat by lia. rewrite draw_add, E. cbn [mbind res_bind draw]. by rewrite Er. }
  split; [|done]. cbn [SshPacket.arc4random generator]. rewrite Ed. rewrite app_nth2; rewrite (draw_length _ _ _ _ E); [|lia]. by rewrite Nat.sub_diag.
Qed.

(** The bytes that [packet_send2] pads with are those of [arc4random_buf]: the loop of the
    packet layer and that of the generator agree, and leave the generator in the same place. *)
Lemma padding_is_buf s0 n : forall i rnd used l s out s', draw used s0 = Ok (l, s) -> buf_loop n i rnd s = Ok (out, s') ->
  exists used' l', random_padding (H1 := generator s0) n i rnd used = (out, used') /\ draw used' s0 = Ok (l', s').
Proof.
  induction n as [|n IH]; intros i rnd used l s out s' Hd Hb; cbn [buf_loop] in Hb; cbn [random_padding].
  { injection Hb as <- <-. by exists used, l. }
  destruct (i mod 4 =? 0)%nat.
  - destruct (arc4random s) as [[r s1]| |] eqn:Er; cbn [mbind res_bind] in Hb; try done.
    destruct (generator_next _ _ _ _ _ _ Hd Er) as [-> Hd']. destruct (buf_loop n _ _ s1) as [[o s2]| |] eqn:Eb; cbn [mbind res_bind] in Hb; try done.
    injection Hb as <- <-. destruct (IH _ _ _ _ _ _ _ Hd' Eb) as (u & l' & -> & Hu). by exists u, l'.
  - cbn [mbind res_bind] in Hb. destruct (buf_loop n _ _ s) as [[o s2]| |] eqn:Eb; cbn [mbind res_bind] in Hb; try done.
    injection Hb as <- <-. destruct (IH _ _ _ _ _ _ _ Hd Eb) as (u & l' & -> & Hu). by exists u, l'.
Qed.

End Padding.

(** ** A generator to try things on *)

Module ToyRc4.

Definition rc4 : Rc4 := {|
  RC4_KEY := Z;
  RC4_zero := 0;
  RC4_set_key := fun b => znth 0 b 0;
  RC4 := fun k d => (map (fun _ => u8 (64 * k)) d, k + 1);
  RAND_status := 1;
  RAND_bytes := fun n => Some (repeat (u8 (Z.of_nat n)) 20)
|}.

#[global] Instance rc4_laws : Rc4Laws rc4.
Proof.
  split.
  - intros k d. apply length_map.
  - intros k d. cbn. apply Forall_map, Forall_true. intros x. apply u8_range.
Qed.

Definition start : @Arc4.Arc4Random rc4 := @Arc4.new rc4 0 true 0.

Lemma uniform_exact_witness : exists s', @Arc4.arc4random_uniform rc4 9 0x80000001 start = Ok (0x80808080 mod 0x80000001, s').
Proof.
  destruct (@Arc4.draw rc4 2 start) as [[l s']| |] eqn:E; [|vm_compute in E; discriminate..].
  exists s'. apply (@uniform_exact rc4 0x80000001 start [0x40404040] 0x80808080 s' 9).
  - split; [discriminate|reflexivity].
  - cbn [length app]. rewrite E. vm_compute in E. injection E as <- <-. reflexivity.
  - repeat constructor.
  - vm_compute. discriminate.
  - cbn. lia.
Defined.

Lemma generator_reseeds_witness : exists l s', @Arc4.draw rc4 100 start = Ok (l, s') /\ Z.of_nat (Arc4.seeds s') = 1.
Proof.
  destruct (@generator_reseeds rc4 rc4_laws eq_refl (fun k => ex_intro _ _ eq_refl) 0 true 0 100) as (l & s' & E & _ & _ & Hs).
  exists l, s'. split; [exact E|exact Hs].
Defined.

End ToyRc4.
