(* ===== verification/SshText.v ===== *)
(** * SshText: small functions on text

    The string functions of shiesh/misc.cpp that are compiled, [strtoll] and [strtonum]
    (strtoll.cpp, strtonum.cpp), and the reader of a line of moduli (parse_prime of dh.cpp),
    which is made of them.  A C string is the list of its bytes without the terminator; a
    function that writes into its argument returns what the argument is afterwards. *)

From S2P Require Import Prelude SshBuffer SshCipher SshPacket SshKex SshDh.

(** ** misc.cpp *)

Definition WHITESPACE : list Z := str " " ++ [9; 13; 10].
Definition QUOTE : list Z := [34].

Definition one_of (set : list Z) (c : Z) : bool := existsb (Z.eqb c) set.

(** What is before the first byte of a set, and from it on; [None] for NULL. *)
Fixpoint strpbrk (set s : list Z) : option (list Z * list Z) :=
  match s with
  | [] => None
  | c :: t => if one_of set c then Some ([], s) else match strpbrk set t with Some (a, b) => Some (c :: a, b) | None => None end
  end.

(** [s + strspn (s, set)] *)
Fixpoint skip_set (set s : list Z) : list Z :=
  match s with
  | c :: t => if one_of set c then skip_set set t else s
  | [] => []
  end.

(** The token, and what [*s] points to; [None] is NULL. *)
Definition strdelim (s : option (list Z)) : option (list Z) * option (list Z) :=
  match s with
  | None => (None, None)
  | Some old =>
      match strpbrk (WHITESPACE ++ QUOTE ++ [61]) old with
      | None => (Some old, None)
      | Some (before, at_) =>
          match at_ with
          | [] => (Some old, None)   (** never: [at_] begins with the byte that was found *)
          | c :: rest =>
              if c =? 34 then
                match strpbrk QUOTE rest with
                | None => (None, None)
                | Some (inside, _) => (Some (before ++ inside), Some [])
                end
              else
                let wspace := c =? 61 in
                let s := skip_set WHITESPACE rest in
                match s with
                | d :: t => if (d =? 61) && negb wspace then (Some before, Some (skip_set WHITESPACE t)) else (Some before, Some s)
                | [] => (Some before, Some s)
                end
          end
      end
  end.

Definition hex_char (d : Z) : Z := if d <? 10 then 48 + d else 87 + d.

(** [snprintf (b, 3, "%02x", c)] *)
Definition hex2 (c : Z) : list Z := [hex_char (c / 16); hex_char (c mod 16)].

(** The first [l] bytes of [vp]; the string has room for all of them. *)
Definition tohex (vp : list Z) (l : Z) : list Z :=
  if l >? 65536 then str "tohex: length > 65536"
  else fold_left (fun r c => r ++ take (Z.to_nat (l * 2 + 1 - zlen r - 1)) (hex2 c)) (take (Z.to_nat l) vp) [].

(** *** Lines of a key file *)

(** [fgets (buf, n, f)]: at most [n - 1] bytes, up to a line end; [None] at the end. *)
Fixpoint fgets_loop (n : nat) (f : list Z) : list Z * list Z :=
  match n, f with
  | S n, c :: f => if c =? 10 then ([c], f) else let '(l, f) := fgets_loop n f in (c :: l, f)
  | _, _ => ([], f)
  end.

(** The line, what is left of the file, and whether the end was met while reading. *)
Definition fgets (bufsz : Z) (f : list Z) : option (list Z * list Z * bool) :=
  match f with
  | [] => None
  | _ => let '(l, f') := fgets_loop (Z.to_nat (bufsz - 1)) f in
         Some (l, f', bool_decide (f' = []) && (zlen l <? bufsz - 1) && negb (bool_decide (last l = Some 10)))
  end.

(** [while (fgetc(f) != '\n' && !feof(f))] *)
Fixpoint discard_line (f : list Z) : list Z :=
  match f with
  | [] => []
  | c :: f => if c =? 10 then f else discard_line f
  end.

(** The line, without what is behind a zero byte in it *)
Fixpoint upto_zero (l : list Z) : list Z :=
  match l with
  | [] => []
  | c :: l => if c =? 0 then [] else c :: upto_zero l
  end.

(** [None] for -1; else the line, the file and the number of lines. *)
Fixpoint read_keyfile_line (fuel : nat) (f : list Z) (bufsz lineno : Z) : res (option (list Z) * list Z * Z) :=
  match fuel with
  | O => OutOfFuel
  | S fuel =>
      match fgets bufsz f with
      | None => Ok (None, f, lineno)
      | Some (mem, f, eof) =>
          let buf := upto_zero mem in
          match last buf with
          | None => read_keyfile_line fuel f bufsz lineno
          | Some c =>
              let lineno := u32 (lineno + 1) in
              if (c =? 10) || eof then Ok (Some buf, f, lineno)
              else read_keyfile_line fuel (discard_line f) bufsz lineno
          end
      end
  end.

(** *** Time *)

Record timeval := mkTimeval { tv_sec : Z; tv_usec : Z }.

Definition ms_to_timeval (ms : Z) : timeval :=
  let ms := if ms <? 0 then 0 else ms in mkTimeval (Z.quot ms 1000) (Z.rem ms 1000 * 1000).

(** [timersub], then the milliseconds taken from [*ms]; [finish] is the time now. *)
Definition ms_subtract_diff (finish start : timeval) (ms : Z) : Z :=
  let sec := tv_sec finish - tv_sec start in
  let usec := tv_usec finish - tv_usec start in
  let '(sec, usec) := if usec <? 0 then (sec - 1, usec + 1000000) else (sec, usec) in
  s32 (ms - (sec * 1000 + Z.quot usec 1000)).

(** ** strtoll.cpp, strtonum.cpp *)

Definition LLONG_MAX : Z := 2 ^ 63 - 1.
Definition LLONG_MIN : Z := - 2 ^ 63.

Definition isspace (c : Z) : bool := (c =? 32) || ((9 <=? c) && (c <=? 13)).

Fixpoint skip_blank (s : list Z) : list Z :=
  match s with c :: t => if isspace c then skip_blank t else s | [] => [] end.

(** The value of a digit or letter; [None] for anything else. *)
Definition digit_value (c : Z) : option Z :=
  if (48 <=? c) && (c <=? 57) then Some (c - 48)
  else if (65 <=? c) && (c <=? 90) then Some (c - 55)
  else if (97 <=? c) && (c <=? 122) then Some (c - 87)
  else None.

(** The loop: [s] is the string from [c] on.  The value, [any], the errno and where it stops. *)
Fixpoint strtoll_loop (neg : bool) (base cutoff cutlim : Z) (s : list Z) (acc any : Z) (erange : bool) : Z * Z * bool * list Z :=
  match s with
  | [] => (acc, any, erange, s)
  | ch :: t =>
      match digit_value ch with
      | None => (acc, any, erange, s)
      | Some c =>
          if c >=? base then (acc, any, erange, s)
          else if any <? 0 then strtoll_loop neg base cutoff cutlim t acc any erange
          else if neg then
            if (acc <? cutoff) || ((acc =? cutoff) && (c >? cutlim))
            then strtoll_loop neg base cutoff cutlim t LLONG_MIN (-1) true
            else strtoll_loop neg base cutoff cutlim t (acc * base - c) 1 erange
          else
            if (acc >? cutoff) || ((acc =? cutoff) && (c >? cutlim))
            then strtoll_loop neg base cutoff cutlim t LLONG_MAX (-1) true
            else strtoll_loop neg base cutoff cutlim t (acc * base + c) 1 erange
      end
  end.

(** The value, whether errno became ERANGE, and [*endptr]. *)
Definition strtoll (nptr : list Z) (base : Z) : Z * bool * list Z :=
  let s := skip_blank nptr in
  let '(neg, s) :=
    match s with
    | c :: t => if c =? 45 then (true, t) else if c =? 43 then (false, t) else (false, s)
    | [] => (false, s)
    end in
  let '(base, s) :=
    match s with
    | 48 :: x :: t => if ((base =? 0) || (base =? 16)) && ((x =? 120) || (x =? 88)) then (16, t) else (base, s)
    | _ => (base, s)
    end in
  let base := if base =? 0 then match s with 48 :: _ => 8 | _ => 10 end else base in
  let cutoff := if neg then LLONG_MIN else LLONG_MAX in
  let cutlim := Z.rem cutoff base in
  let cutoff := Z.quot cutoff base in
  let '(cutoff, cutlim) :=
    if neg then
      let '(cutoff, cutlim) := if cutlim >? 0 then (cutoff + 1, cutlim - base) else (cutoff, cutlim) in
      (cutoff, - cutlim)
    else (cutoff, cutlim) in
  let '(acc, any, erange, s) := strtoll_loop neg base cutoff cutlim s 0 0 false in
  (acc, erange, if any =? 0 then nptr else s).

Inductive num_error := INVALID | TOOSMALL | TOOLARGE.

(** The number and [*errstrp]. *)
Definition strtonum (numstr : list Z) (minval maxval : Z) : Z * option num_error :=
  let '(ll, error) :=
    if minval >? maxval then (0, Some INVALID)
    else
      let '(ll, erange, ep) := strtoll numstr 10 in
      (ll,
       if bool_decide (ep = numstr) || negb (bool_decide (ep = [])) then Some INVALID
       else if ((ll =? LLONG_MIN) && erange) || (ll <? minval) then Some TOOSMALL
       else if ((ll =? LLONG_MAX) && erange) || (ll >? maxval) then Some TOOLARGE
       else None) in
  match error with Some _ => (0, error) | None => (ll, None) end.

(** ** dh.cpp: a line of a file of moduli *)

Definition MODULI_TYPE_SAFE : Z := 2.
Definition MODULI_TESTS_COMPOSITE : Z := 1.

Record dhgroup := mkDhgroup { dhg_size : Z; dhg_g : option Z; dhg_p : option Z }.

(** [strsep (&s, " ")] on a pointer that may be NULL *)
Fixpoint strsep_space (s : list Z) : list Z * option (list Z) :=
  match s with
  | [] => ([], None)
  | c :: t => if c =? 32 then ([], Some t) else let '(a, r) := strsep_space t in (c :: a, r)
  end.

Section Moduli.
Context `{DL : DhLib}.

(** A field that must not be empty and not be the last one: [if (cp == NULL || *arg == '\0') goto fail]. *)
Definition field (cp : list Z) : option (list Z * list Z) :=
  match strsep_space cp with
  | (c :: arg, Some cp) => Some (c :: arg, cp)
  | _ => None
  end.

Definition set_dhg_size (d : dhgroup) (n : Z) : dhgroup := mkDhgroup n (dhg_g d) (dhg_p d).

(** From the field [size] on. *)
Definition parse_group (dhg : dhgroup) (cp : list Z) : Z * dhgroup :=
  match field cp with
  | None => (0, dhg)
  | Some (strsize, cp) =>
      let '(n, errstr) := strtonum strsize 0 (64 * 1024) in
      let dhg := set_dhg_size dhg n in
      if (n =? 0) || bool_decide (errstr <> None) then (0, dhg)
      else
        let dhg := set_dhg_size dhg (n + 1) in
        match field cp with
        | None => (0, dhg)
        | Some (gen, cp) =>
            match strsep_space cp with
            | (c :: prime, None) =>
                let freed := mkDhgroup (dhg_size dhg) None None in
                match BN_hex2bn gen with
                | None => (0, freed)
                | Some g =>
                    match BN_hex2bn (c :: prime) with
                    | None => (0, freed)
                    | Some p =>
                        if negb (BN_num_bits p =? dhg_size dhg) then (0, freed)
                        else if (g =? 0) || (g =? 1) then (0, freed)
                        else (1, mkDhgroup (dhg_size dhg) (Some g) (Some p))
                    end
                end
            | _ => (0, dhg)
            end
        end
  end.

(** The value and [*dhg]. *)
Definition parse_prime (line : list Z) (dhg : dhgroup) : Z * dhgroup :=
  match strdelim (Some line) with
  | (None, _) => (0, dhg)
  | (Some arg, cp) =>
      let '(arg, cp) := match arg with [] => strdelim cp | _ => (Some arg, cp) end in
      match arg with
      | None | Some [] => (0, dhg)
      | Some (c :: _) =>
          if c =? 35 then (0, dhg)
          else
            match cp with
            | None => (0, dhg)
            | Some cp =>
                match field cp with
                | None => (0, dhg)
                | Some (arg, cp) =>
                    let '(n, errstr) := strtonum arg 0 5 in
                    if bool_decide (errstr <> None) || negb (n =? MODULI_TYPE_SAFE) then (0, dhg)
                    else
                      match field cp with
                      | None => (0, dhg)
                      | Some (arg, cp) =>
                          let '(n, errstr) := strtonum arg 0 0x1f in
                          if bool_decide (errstr <> None) || negb (Z.land n MODULI_TESTS_COMPOSITE =? 0) || (Z.ldiff n MODULI_TESTS_COMPOSITE =? 0) then (0, dhg)
                          else
                            match field cp with
                            | None => (0, dhg)
                            | Some (arg, cp) =>
                                let '(n, errstr) := strtonum arg 0 (Z.shiftl 1 30) in
                                if bool_decide (errstr <> None) || (n =? 0) then (0, dhg) else parse_group dhg cp
                            end
                      end
                end
            end
      end
  end.

End Moduli.

(** ** Numbers in text *)

Definition is_dig (base c : Z) : bool := match digit_value c with Some d => d <? base | None => false end.
Definition dv (c : Z) : Z := default 0 (digit_value c).
Definition value (base v : Z) (txt : list Z) : Z := fold_left (fun a c => a * base + dv c) txt v.
Definition stops (base : Z) (t : list Z) : Prop := match t with [] => True | c :: _ => is_dig base c = false end.

Lemma is_dig_dv base c : is_dig base c = true -> digit_value c = Some (dv c) /\ 0 <= dv c < base.
Proof.
  unfold is_dig, dv. destruct (digit_value c) as [d|] eqn:E; [|done]. intros H. zbool. cbn. split; [done|]. split; [|lia].
  unfold digit_value in E. destruct ((48 <=? c) && (c <=? 57)) eqn:E1; [injection E as <-; zbool; lia|].
  destruct ((65 <=? c) && (c <=? 90)) eqn:E2; [injection E as <-; zbool; lia|].
  destruct ((97 <=? c) && (c <=? 122)) eqn:E3; [injection E as <-; zbool; lia|done].
Qed.

Lemma value_grows base txt : 2 <= base -> Forall (fun c => is_dig base c = true) txt -> forall v, 0 <= v -> v <= value base v txt.
Proof.
  intros Hb. induction 1 as [|c txt Hc _ IH]; intros v Hv; [done|]. unfold value in *. cbn [fold_left].
  destruct (is_dig_dv _ _ Hc) as [_ Hd]. specialize (IH (v * base + dv c) ltac:(nia)). nia.
Qed.

Section Strtoll.
Definition lim (neg : bool) : Z := if neg then 2 ^ 63 else 2 ^ 63 - 1.
Definition sg (neg : bool) (v : Z) : Z := if neg then - v else v.

Context (base : Z) (Hbase : 2 <= base <= 36).

Abbreviation loop neg := (strtoll_loop neg base (sg neg (lim neg / base)) (lim neg mod base)).

Lemma loop_stop neg t acc any er : stops base t -> loop neg t acc any er = (acc, any, er, t).
Proof.
  destruct t as [|c t]; [done|]. cbn [stops strtoll_loop]. unfold is_dig. destruct (digit_value c) as [d|]; [|done].
  intros H. zbool. rewrite Z.geb_leb. by destruct (Z.leb_spec base d); [|lia].
Qed.

Lemma loop_full neg txt : forall t acc er, Forall (fun c => is_dig base c = true) txt -> stops base t -> loop neg (txt ++ t) acc (-1) er = (acc, -1, er, t).
Proof.
  induction txt as [|c txt IH]; intros t acc er Hd Ht; [by apply loop_stop|]. apply Forall_cons in Hd as [Hc Hd].
  destruct (is_dig_dv _ _ Hc) as [E Hv]. cbn [app strtoll_loop]. rewrite E, Z.geb_leb. destruct (Z.leb_spec base (dv c)); [lia|]. cbn. by apply IH.
Qed.

Lemma over_iff neg v d : 0 <= v -> 0 <= d < base -> (lim neg / base < v \/ (v = lim neg / base /\ lim neg mod base < d)) <-> lim neg < v * base + d.
Proof.
  intros Hv Hd. assert (0 <= lim neg) by (unfold lim; destruct neg; lia).
  pose proof (Z.div_mod (lim neg) base ltac:(lia)). pose proof (Z.mod_pos_bound (lim neg) base ltac:(lia)). split; [intros [?|[-> ?]]; nia|]. intros Ho.
  destruct (Z.lt_trichotomy v (lim neg / base)) as [?|[->|?]]; [nia|right; split; [done|nia]|by left].
Qed.

Lemma loop_digits neg txt : forall t v any er, Forall (fun c => is_dig base c = true) txt -> stops base t -> 0 <= v <= lim neg -> 0 <= any ->
  loop neg (txt ++ t) (sg neg v) any er =
  if value base v txt <=? lim neg then (sg neg (value base v txt), if bool_decide (txt = []) then any else 1, er, t) else (sg neg (lim neg), -1, true, t).
Proof.
  induction txt as [|c txt IH]; intros t v any er Hd Ht Hv Ha.
  { cbn [app]. rewrite loop_stop by done. cbn [value fold_left]. unfold value. cbn. by destruct (Z.leb_spec v (lim neg)); [|lia]. }
  apply Forall_cons in Hd as [Hc Hd]. destruct (is_dig_dv _ _ Hc) as [E Hdv]. cbn [app strtoll_loop]. rewrite E, Z.geb_leb.
  destruct (Z.leb_spec base (dv c)); [lia|]. destruct (Z.ltb_spec any 0); [lia|]. rewrite (bool_decide_false (c :: txt = [])) by done.
  change (value base v (c :: txt)) with (value base (v * base + dv c) txt).
  assert ((if neg then (sg neg v <? sg neg (lim neg / base)) || ((sg neg v =? sg neg (lim neg / base)) && (dv c >? lim neg mod base))
           else (sg neg v >? sg neg (lim neg / base)) || ((sg neg v =? sg neg (lim neg / base)) && (dv c >? lim neg mod base))) = (lim neg <? v * base + dv c)) as Ho.
  { pose proof (over_iff neg v (dv c) ltac:(lia) Hdv) as Hi. apply eq_true_iff_eq. rewrite Z.ltb_lt, <- Hi. unfold sg. destruct neg;
      rewrite orb_true_iff, andb_true_iff, Z.eqb_eq, ?Z.ltb_lt, ?Z.gtb_lt; lia. }
  pose proof (value_grows base txt ltac:(lia) Hd (v * base + dv c) ltac:(nia)) as Hg.
  destruct (Z.ltb_spec (lim neg) (v * base + dv c)) as [Hl|Hl].
  - destruct (Z.leb_spec (value base (v * base + dv c) txt) (lim neg)); [lia|]. destruct neg; rewrite Ho; (etrans; [by apply (loop_full _ txt)|done]).
  - pose proof (IH t (v * base + dv c) 1 er Hd Ht ltac:(lia) ltac:(lia)) as IH'.
    assert ((if bool_decide (txt = []) then 1 else 1) = 1) as E1 by (by case_bool_decide). rewrite E1 in IH'.
    destruct neg; rewrite Ho; unfold sg in IH' |- *; rewrite <- IH'; f_equal; lia.
Qed.

End Strtoll.

(** The sign and what is behind it *)
Definition sign (s : list Z) : bool * list Z :=
  match s with
  | c :: t => if c =? 45 then (true, t) else if c =? 43 then (false, t) else (false, s)
  | [] => (false, s)
  end.

Lemma strtoll_10 numstr txt t : Forall (fun c => is_dig 10 c = true) txt -> stops 10 t -> snd (sign (skip_blank numstr)) = txt ++ t ->
  let neg := fst (sign (skip_blank numstr)) in
  strtoll numstr 10 =
  if value 10 0 txt <=? lim neg then (sg neg (value 10 0 txt), false, if bool_decide (txt = []) then numstr else t) else (sg neg (lim neg), true, t).
Proof.
  intros Hd Ht E. unfold strtoll. change (match skip_blank numstr with [] => _ | _ => _ end) with (sign (skip_blank numstr)).
  destruct (sign (skip_blank numstr)) as [neg s]. cbn [fst snd] in *. subst s.
  assert (match txt ++ t with
    | 48 :: x :: t0 => if ((10 =? 0) || (10 =? 16)) && ((x =? 120) || (x =? 88)) then (16, t0) else (10, txt ++ t)
    | _ => (10, txt ++ t) end = (10, txt ++ t)) as -> by (cbn [Z.eqb Pos.eqb orb andb]; by repeat case_match).
  cbn [Z.eqb]. assert (0 <= lim neg) by (unfold lim; destruct neg; lia).
  pose proof (loop_digits 10 ltac:(lia) neg txt t 0 0 false Hd Ht ltac:(lia) ltac:(lia)) as Hl.
  destruct neg; change (sg _ 0) with 0 in Hl.
  - change (Z.rem LLONG_MIN 10 >? 0) with false. cbn iota beta. change (Z.quot LLONG_MIN 10) with (sg true (lim true / 10)). change (- Z.rem LLONG_MIN 10) with (lim true mod 10).
    rewrite Hl. destruct (value 10 0 txt <=? lim true); [|done]. by case_bool_decide.
  - change (Z.quot LLONG_MAX 10) with (sg false (lim false / 10)). change (Z.rem LLONG_MAX 10) with (lim false mod 10).
    rewrite Hl. destruct (value 10 0 txt <=? lim false); [|done]. by case_bool_decide.
Qed.

(** A decimal number in text: white space, a sign or none, and digits. *)
Definition numeral (s : list Z) (v : Z) : Prop := exists sp g ds,
  s = sp ++ g ++ ds /\ Forall (fun c => isspace c = true) sp /\ (g = [] \/ g = [43] \/ g = [45]) /\ ds <> [] /\
  Forall (fun c => 48 <= c <= 57) ds /\ v = sg (bool_decide (g = [45])) (value 10 0 ds).

Lemma dig10 c : is_dig 10 c = true <-> 48 <= c <= 57.
Proof.
  unfold is_dig, digit_value. destruct ((48 <=? c) && (c <=? 57)) eqn:E1; [zbool; rewrite Z.ltb_lt; lia|].
  destruct ((65 <=? c) && (c <=? 90)) eqn:E2; [zbool; rewrite Z.ltb_lt; lia|]. destruct ((97 <=? c) && (c <=? 122)) eqn:E3; zbool; rewrite ?Z.ltb_lt; split; intros; try done; lia.
Qed.

Lemma skip_blank_app sp t : Forall (fun c => isspace c = true) sp -> match t with [] => True | c :: _ => isspace c = false end -> skip_blank (sp ++ t) = t.
Proof.
  induction 1 as [|c sp Hc _ IH]; intros Ht; cbn [app]; [|cbn [skip_blank]; rewrite Hc; by apply IH].
  destruct t as [|c t]; [done|]. cbn [skip_blank]. by rewrite Ht.
Qed.

Lemma skip_blank_split s : exists sp, s = sp ++ skip_blank s /\ Forall (fun c => isspace c = true) sp.
Proof.
  induction s as [|c s (sp & E & H)]; [by exists []|]. cbn [skip_blank]. destruct (isspace c) eqn:Ec; [|by exists []].
  exists (c :: sp). cbn. rewrite <- E. split; [done|by constructor].
Qed.

Lemma digits_split s : exists txt t, s = txt ++ t /\ Forall (fun c => is_dig 10 c = true) txt /\ stops 10 t.
Proof.
  induction s as [|c s (txt & t & E & H & Ht)]; [by exists [], []|]. destruct (is_dig 10 c) eqn:Ec; [|by exists [], (c :: s)].
  exists (c :: txt), t. rewrite E. repeat split; [by constructor|done].
Qed.

Lemma sign_split s : exists g, s = g ++ snd (sign s) /\ (g = [] \/ g = [43] \/ g = [45]) /\ fst (sign s) = bool_decide (g = [45]).
Proof.
  destruct s as [|c s]; [exists []; auto|]. cbn [sign]. destruct (Z.eqb_spec c 45) as [->|]; [exists [45]; auto|].
  destruct (Z.eqb_spec c 43) as [->|]; [exists [43]; auto|exists []; auto].
Qed.

Lemma strtonum_numeral numstr minval maxval v : LLONG_MIN <= minval -> minval <= maxval -> maxval <= LLONG_MAX -> numeral numstr v ->
  strtonum numstr minval maxval = if v <? minval then (0, Some TOOSMALL) else if v >? maxval then (0, Some TOOLARGE) else (v, None).
Proof.
  intros H1 H2 H3.
  intros (sp & g & ds & -> & Hsp & Hg & Hne & Hds & ->).
  assert (skip_blank (sp ++ g ++ ds) = g ++ ds /\ sign (g ++ ds) = (bool_decide (g = [45]), ds)) as [Es Eg].
  { destruct ds as [|d ds]; [done|]. apply Forall_cons in Hds as [Hd _]. split.
    - apply skip_blank_app; [done|]. destruct Hg as [->|[->| ->]]; [|done..]. cbn. unfold isspace. destruct (Z.eqb_spec d 32), (Z.leb_spec 9 d), (Z.leb_spec d 13); try done; lia.
    - destruct Hg as [->|[->| ->]]; [|done..]. cbn [app sign]. destruct (Z.eqb_spec d 45), (Z.eqb_spec d 43); try lia. done. }
  assert (Forall (fun c => is_dig 10 c = true) ds) as Hdd by (eapply Forall_impl; [exact Hds|]; intros c; apply dig10).
  pose proof (strtoll_10 (sp ++ g ++ ds) ds [] Hdd I ltac:(by rewrite Es, Eg, app_nil_r)) as E. cbv zeta in E. rewrite Es, Eg in E. cbn [fst snd] in E.
  unfold strtonum. rewrite Z.gtb_ltb. destruct (Z.ltb_spec maxval minval); [lia|]. rewrite E. rewrite (bool_decide_false (ds = [])) by done.
  assert ([] <> sp ++ g ++ ds) as Hn by (by destruct sp, g, ds). pose proof (value_grows 10 ds ltac:(lia) Hdd 0 ltac:(lia)) as Hv.
  unfold LLONG_MIN, LLONG_MAX in *. set (neg := bool_decide (g = [45])). unfold lim, sg. rewrite !Z.gtb_ltb.
  destruct (Z.leb_spec (value 10 0 ds) (if neg then 2 ^ 63 else 2 ^ 63 - 1)) as [Hl|Hl]; rewrite (bool_decide_false ([] = _)), (bool_decide_true ([] = [])) by done; cbn [orb negb].
  + rewrite !andb_false_r. cbn [orb]. rewrite Z.gtb_ltb. destruct (Z.ltb_spec (if neg then - value 10 0 ds else value 10 0 ds) minval); [done|].
    by destruct (Z.ltb_spec maxval (if neg then - value 10 0 ds else value 10 0 ds)).
  + rewrite !andb_true_r. destruct neg.
    * cbn [Z.eqb]. rewrite Z.eqb_refl. cbn [orb]. destruct (Z.ltb_spec (- value 10 0 ds) minval); [done|lia].
    * destruct (Z.eqb_spec (2 ^ 63 - 1) (- 2 ^ 63)); [lia|]. destruct (Z.ltb_spec (2 ^ 63 - 1) minval); [lia|]. rewrite Z.eqb_refl. cbn [orb].
      destruct (Z.ltb_spec (value 10 0 ds) minval); [lia|]. destruct (Z.ltb_spec maxval (value 10 0 ds)); [done|lia].
Qed.

Lemma strtonum_invalid numstr minval maxval : minval <= maxval -> (forall v, ~ numeral numstr v) -> strtonum numstr minval maxval = (0, Some INVALID).
Proof.
  intros H2.
  intros Hno. destruct (skip_blank_split numstr) as (sp & E & Hsp). destruct (sign_split (skip_blank numstr)) as (g & Eg & Hg & Ef).
  destruct (digits_split (snd (sign (skip_blank numstr)))) as (txt & t & Et & Hd & Hst).
  pose proof (strtoll_10 numstr txt t Hd Hst Et) as El. cbv zeta in El. unfold strtonum. rewrite Z.gtb_ltb. destruct (Z.ltb_spec maxval minval); [lia|]. rewrite El.
  assert (txt <> [] -> t <> []) as Hbad.
  { intros Hne ->. apply (Hno (sg (bool_decide (g = [45])) (value 10 0 txt))). exists sp, g, txt. rewrite app_nil_r in Et.
    split; [rewrite <- Et, <- Eg; exact E|]. repeat split; try done. eapply Forall_impl; [exact Hd|]. intros c. apply dig10. }
  assert (0 <= lim (fst (sign (skip_blank numstr)))) by (unfold lim; destruct (fst _); lia).
  destruct (decide (txt = [])) as [->|Hne].
  + change (value 10 0 []) with 0. destruct (Z.leb_spec 0 (lim (fst (sign (skip_blank numstr))))); [|lia]. by rewrite (bool_decide_true (numstr = numstr)).
  + rewrite (bool_decide_false (txt = [])) by done. destruct (_ <=? _); rewrite (bool_decide_false (t = [])) by auto; by rewrite orb_true_r.
Qed.

(** [strtonum] reads exactly the decimal numbers, as numbers without bounds, and tells
    those that are too small or too large from those that it returns; anything else is
    invalid. *)
Theorem strtonum_exact numstr minval maxval : LLONG_MIN <= minval -> minval <= maxval -> maxval <= LLONG_MAX ->
  (forall v, numeral numstr v -> strtonum numstr minval maxval =
     if v <? minval then (0, Some TOOSMALL) else if v >? maxval then (0, Some TOOLARGE) else (v, None)) /\
  ((forall v, ~ numeral numstr v) -> strtonum numstr minval maxval = (0, Some INVALID)).
Proof. intros H1 H2 H3. split; [intros v; by apply strtonum_numeral|by apply strtonum_invalid]. Qed.

Lemma strtonum_exact_witness :
  strtonum (str " -00123") (-1000) 1000 = (-123, None) /\ strtonum (str "99999999999999999999999") 0 LLONG_MAX = (0, Some TOOLARGE).
Proof.
  split.
  - destruct (strtonum_exact (str " -00123") (-1000) 1000) as [H _]; try (vm_compute; discriminate). apply (H (-123)).
    exists [32], [45], (str "00123"). repeat split; auto; try discriminate; repeat constructor; vm_compute; discriminate.
  - destruct (strtonum_exact (str "99999999999999999999999") 0 LLONG_MAX) as [H _]; try (vm_compute; discriminate). apply (H 99999999999999999999999).
    exists [], [], (str "99999999999999999999999"). repeat split; auto; try discriminate; repeat constructor; vm_compute; discriminate.
Defined.

(** ** Lines of moduli *)

Lemma digits_numeral fuel : forall n acc, 0 <= n < 10 ^ Z.of_nat (S fuel) -> Forall (fun c => 48 <= c <= 57) acc ->
  Forall (fun c => 48 <= c <= 57) (digits (S fuel) n acc) /\ value 10 0 (digits (S fuel) n acc) = value 10 n acc /\ digits (S fuel) n acc <> [].
Proof.
  assert (forall k, 0 <= k < 10 -> dv (48 + k) = k) as Hdv.
  { intros k Hk. unfold dv, digit_value. rewrite !(proj2 (Z.leb_le _ _)) by lia. cbn [andb]. change (48 + k - 48 = k). lia. }
  induction fuel as [|fuel IH]; intros n acc Hn Ha; [|remember (S fuel) as k eqn:Ek]; cbn [digits]; destruct (Z.ltb_spec n 10).
  1,3: split; [constructor; [lia|done]|]; split; [|done]; unfold value; cbn [fold_left]; by rewrite Hdv by lia.
  - cbn in Hn. lia.
  - rewrite Nat2Z.inj_succ, Z.pow_succ_r in Hn by lia. pose proof (Z.div_mod n 10 ltac:(lia)). pose proof (Z.mod_pos_bound n 10 ltac:(lia)).
    destruct (IH (n / 10) ((48 + n mod 10) :: acc)) as (Hf & Hv & Hne); [split; [apply Z.div_pos; lia|apply Z.div_lt_upper_bound; lia]|constructor; [lia|done]|].
    split; [done|]. split; [|done]. rewrite Hv. unfold value. cbn [fold_left]. f_equal. rewrite Hdv by lia. lia.
Qed.

Lemma dec_numeral n : 0 <= n < 10 ^ 20 -> numeral (dec n) n.
Proof.
  intros Hn. destruct (digits_numeral 19 n [] Hn ltac:(constructor)) as (Hd & Hv & Hne). exists [], [], (dec n). repeat split; auto.
Qed.

Lemma dec_field n rest : 0 <= n < 10 ^ 20 -> field (dec n ++ 32 :: rest) = Some (dec n, rest).
Proof.
  intros Hn. destruct (digits_numeral 19 n [] Hn ltac:(constructor)) as (Hd & _ & Hne). fold (dec n) in Hd, Hne.
  assert (forall a, Forall (fun c => 48 <= c <= 57) a -> strsep_space (a ++ 32 :: rest) = (a, Some rest)) as H.
  { induction 1 as [|c a Hc _ IH]; [done|]. cbn [app strsep_space]. destruct (Z.eqb_spec c 32); [lia|]. by rewrite IH. }
  unfold field. rewrite (H _ Hd). by destruct (dec n).
Qed.

Lemma strtonum_dec n minval maxval : LLONG_MIN <= minval <= n -> n <= maxval <= LLONG_MAX -> 0 <= n -> strtonum (dec n) minval maxval = (n, None).
Proof.
  intros H1 H2 Hn. unfold LLONG_MAX in *. rewrite (strtonum_numeral _ _ _ n); unfold LLONG_MAX in *; [|lia..|apply dec_numeral; lia].
  rewrite Z.gtb_ltb. destruct (Z.ltb_spec n minval); [lia|]. by destruct (Z.ltb_spec maxval n); [lia|].
Qed.

Section ModuliLines.
Context `{DL : DhLib}.

Definition moduli_line (time : list Z) (tests tries size : Z) (gen prime : list Z) : list Z :=
  time ++ 32 :: dec MODULI_TYPE_SAFE ++ 32 :: dec tests ++ 32 :: dec tries ++ 32 :: dec size ++ 32 :: gen ++ 32 :: prime.

(** A word: nothing that ends a token. *)
Definition word (s : list Z) : Prop := s <> [] /\ Forall (fun c => one_of (WHITESPACE ++ QUOTE ++ [61]) c = false) s.

Lemma strpbrk_word s rest : Forall (fun c => one_of (WHITESPACE ++ QUOTE ++ [61]) c = false) s ->
  strpbrk (WHITESPACE ++ QUOTE ++ [61]) (s ++ 32 :: rest) = Some (s, 32 :: rest).
Proof. induction 1 as [|c s Hc _ IH]; [done|]. cbn [app strpbrk]. by rewrite Hc, IH. Qed.

Lemma word_no_space s : word s -> Forall (fun c => c <> 32) s.
Proof. intros [_ Hw]. eapply Forall_impl; [exact Hw|]. by intros c Hc ->. Qed.

Lemma strsep_word s rest : Forall (fun c => c <> 32) s ->
  strsep_space (s ++ 32 :: rest) = (s, Some rest) /\ strsep_space s = (s, None).
Proof.
  induction 1 as [|c s Hc _ [IH1 IH2]]; [done|]. cbn [app strsep_space]. rewrite (proj2 (Z.eqb_neq c 32) Hc), IH1, IH2. done.
Qed.

(** A line of seven fields of a safe prime is read as its group. *)
Theorem parse_prime_line dhg time tests tries size gen prime g p :
  word time -> hd 0 time <> 35 -> 0 <= tests <= 31 -> Z.land tests MODULI_TESTS_COMPOSITE = 0 -> tests <> 0 -> 1 <= tries <= 2 ^ 30 ->
  1 <= size <= 64 * 1024 -> word gen -> word prime -> BN_hex2bn gen = Some g -> BN_hex2bn prime = Some p -> BN_num_bits p = size + 1 -> g <> 0 -> g <> 1 ->
  parse_prime (moduli_line time tests tries size gen prime) dhg = (1, mkDhgroup (size + 1) (Some g) (Some p)).
Proof.
  intros [Ht0 Ht] Hc Hte Hco Hte0 Htr Hsz Hg Hp Eg Ep Hb Hg0 Hg1. unfold parse_prime, moduli_line, strdelim. rewrite strpbrk_word by done.
  set (rest := dec MODULI_TYPE_SAFE ++ _). assert (skip_set WHITESPACE rest = rest) as -> by done.
  cbn [Z.eqb Pos.eqb]. change rest with (50 :: tl rest) at 1. cbv beta iota. change (50 =? 61) with false. cbn [andb]. destruct time as [|t time]; [done|]. cbn [hd] in Hc.
  rewrite (proj2 (Z.eqb_neq t 35) Hc). unfold rest.
  rewrite dec_field, strtonum_dec by (unfold LLONG_MIN, LLONG_MAX, MODULI_TYPE_SAFE; lia). rewrite (bool_decide_false (None <> None)), Z.eqb_refl by auto. cbn [orb negb].
  rewrite dec_field, strtonum_dec by (unfold LLONG_MIN, LLONG_MAX; lia). rewrite (bool_decide_false (None <> None)), Hco by auto. cbn [orb negb Z.eqb].
  assert ((Z.ldiff tests MODULI_TESTS_COMPOSITE =? 0) = false) as ->.
  { apply Z.eqb_neq. intros E. apply Hte0. rewrite <- (Z.lor_0_r tests). apply Z.bits_inj'. intros i Hi. apply (f_equal (fun z => Z.testbit z i)) in E, Hco.
    rewrite Z.ldiff_spec, Z.bits_0 in E. rewrite Z.land_spec, Z.bits_0 in Hco. rewrite Z.lor_spec, Z.bits_0. destruct (Z.testbit tests i), (Z.testbit MODULI_TESTS_COMPOSITE i); done. }
  rewrite dec_field, strtonum_dec by (change (Z.shiftl 1 30) with (2 ^ 30); unfold LLONG_MIN, LLONG_MAX; lia). rewrite (bool_decide_false (None <> None)) by auto. cbn [orb].
  destruct (Z.eqb_spec tries 0); [lia|]. unfold parse_group. rewrite dec_field, strtonum_dec by (unfold LLONG_MIN, LLONG_MAX; lia).
  destruct (Z.eqb_spec size 0); [lia|]. rewrite (bool_decide_false (None <> None)) by auto. cbn [orb].
  destruct (strsep_word gen prime (word_no_space _ Hg)) as [Es _]. destruct (strsep_word prime [] (word_no_space _ Hp)) as [_ Es']. destruct Hg as [Hgn _], Hp as [Hpn _].
  unfold field. rewrite Es. destruct gen as [|g0 gen]; [done|]. rewrite Es'. destruct prime as [|p0 prime]; [done|]. rewrite Eg, Ep. cbn [set_dhg_size dhg_size].
  rewrite Hb, Z.eqb_refl. cbn [negb]. by rewrite (proj2 (Z.eqb_neq g 0) Hg0), (proj2 (Z.eqb_neq g 1) Hg1).
Qed.

Lemma strtonum_range s minval maxval n : strtonum s minval maxval = (n, None) -> minval <= n <= maxval.
Proof.
  unfold strtonum. destruct (minval >? maxval); [intros [=]|]. destruct (strtoll s 10) as [[ll er] ep].
  destruct (bool_decide (ep = s) || _); [intros [=]|]. destruct (ll <? minval) eqn:E1; [rewrite orb_true_r; intros [=]|].
  destruct (_ || false); [intros [=]|]. destruct (ll >? maxval) eqn:E2; [rewrite orb_true_r; intros [=]|]. destruct (_ || false); [intros [=]|].
  intros [= <-]. rewrite Z.gtb_ltb in E2. zbool. lia.
Qed.

Lemma parse_group_sound dhg cp d : parse_group dhg cp = (1, d) ->
  exists size g p, d = mkDhgroup size (Some g) (Some p) /\ 1 < size <= 64 * 1024 + 1 /\ BN_num_bits p = size /\ g <> 0 /\ g <> 1.
Proof.
  unfold parse_group. destruct (field cp) as [[strsize cp1]|]; [|done]. destruct (strtonum strsize 0 (64 * 1024)) as [n e] eqn:En.
  destruct (Z.eqb_spec n 0); cbn [orb]; [done|]. case_bool_decide as He; [done|]. destruct e as [e|]; [done|]. apply strtonum_range in En.
  destruct (field cp1) as [[gen cp2]|]; [|done]. destruct (strsep_space cp2) as [[|c prime] [rest|]]; try done.
  destruct (BN_hex2bn gen) as [g|]; [|done]. destruct (BN_hex2bn (c :: prime)) as [p|]; [|done]. cbn [set_dhg_size dhg_size].
  destruct (Z.eqb_spec (BN_num_bits p) (n + 1)); [|done]. cbn [negb]. destruct (Z.eqb_spec g 0), (Z.eqb_spec g 1); try done. intros [= <-].
  exists (n + 1), g, p. repeat split; try done; lia.
Qed.

(** What [parse_prime] accepts is a group: a prime of the size it says, which is one more
    than the line does, and a generator that is neither zero nor one. *)
Theorem parse_prime_sound line dhg d : parse_prime line dhg = (1, d) ->
  exists size g p, d = mkDhgroup size (Some g) (Some p) /\ 1 < size <= 64 * 1024 + 1 /\ BN_num_bits p = size /\ g <> 0 /\ g <> 1.
Proof.
  unfold parse_prime. intros E. repeat case_match; try discriminate; by apply parse_group_sound in E.
Qed.

End ModuliLines.

(** *** The other functions of misc.cpp *)

Lemma tohex_spec vp l : 0 <= l <= 65536 -> tohex vp l = concat (map hex2 (take (Z.to_nat l) vp)).
Proof.
  intros Hl. unfold tohex. rewrite Z.gtb_ltb. destruct (Z.ltb_spec 65536 l); [lia|].
  assert (forall t r, zlen r + 2 * zlen t <= l * 2 -> fold_left (fun r c => r ++ take (Z.to_nat (l * 2 + 1 - zlen r - 1)) (hex2 c)) t r = r ++ concat (map hex2 t)) as Hfold.
  { induction t as [|c t IH]; intros r Hr; cbn [fold_left map concat]; [by rewrite app_nil_r|]. unfold zlen in *. cbn [length] in Hr.
    rewrite (take_ge (hex2 c)) by (cbn [hex2 length]; lia). rewrite IH by (rewrite length_app; cbn [hex2 length]; lia). by rewrite app_assoc. }
  rewrite Hfold; [done|]. unfold zlen. cbn [length]. rewrite length_take. lia.
Qed.

(** A quoted token ends the line: what is behind the closing quote is lost. *)
Lemma strdelim_quoted inside rest : strpbrk QUOTE inside = None -> strdelim (Some (34 :: inside ++ 34 :: rest)) = (Some inside, Some []).
Proof.
  intros H. unfold strdelim. change (strpbrk (WHITESPACE ++ QUOTE ++ [61]) (34 :: inside ++ 34 :: rest)) with (Some ([] : list Z, 34 :: inside ++ 34 :: rest)).
  cbv beta iota. change (34 =? 34) with true. cbv iota.
  assert (strpbrk QUOTE (inside ++ 34 :: rest) = Some (inside, 34 :: rest)) as ->; [|done].
  induction inside as [|c inside IH]; [done|]. cbn [app strpbrk] in *. destruct (one_of QUOTE c); [done|]. destruct (strpbrk QUOTE inside) as [[]|]; [done|]. by rewrite IH.
Qed.

Lemma fgets_shorter n f : (0 < n)%nat -> f <> [] -> (length (snd (fgets_loop n f)) < length f)%nat.
Proof.
  assert (forall n f, (length (snd (fgets_loop n f)) <= length f)%nat) as H.
  { clear. induction n as [|n IH]; intros f; [done|]. destruct f as [|c f]; [done|]. cbn [fgets_loop]. destruct (c =? 10); [cbn; lia|].
    specialize (IH f). destruct (fgets_loop n f). cbn in *. lia. }
  destruct n as [|n]; [lia|]. destruct f as [|c f]; [done|]. intros _ _. cbn [fgets_loop]. destruct (c =? 10); [cbn; lia|]. specialize (H n f). destruct (fgets_loop n f). cbn in *. lia.
Qed.

Lemma discard_shorter f : (length (discard_line f) <= length f)%nat.
Proof. induction f as [|c f IH]; [done|]. cbn. destruct (c =? 10); lia. Qed.

(** The search for the next line of a key file ends. *)
Theorem keyfile_line_ends fuel : forall f bufsz lineno, 2 <= bufsz -> (length f < fuel)%nat -> is_Ok (read_keyfile_line fuel f bufsz lineno).
Proof.
  induction fuel as [|fuel IH]; intros f bufsz lineno Hb Hf; [lia|]. cbn [read_keyfile_line]. unfold fgets. destruct f as [|c f]; [by eexists|].
  pose proof (fgets_shorter (Z.to_nat (bufsz - 1)) (c :: f) ltac:(lia) ltac:(done)) as Hs. destruct (fgets_loop _ _) as [l f']. cbn [snd] in Hs.
  destruct (last (upto_zero l)) as [d|]; [|apply IH; lia]. destruct ((d =? 10) || _); [by eexists|]. apply IH; [done|]. pose proof (discard_shorter f'). lia.
Qed.

Module ToyText.
Import ToyDh.

Definition empty_group : dhgroup := mkDhgroup 0 None None.
Definition demo_line : list Z := moduli_line (str "20120821044046") 6 100 10 (str "2") (str "7EB").

Lemma parse_prime_line_witness : parse_prime demo_line empty_group = (1, mkDhgroup 11 (Some 2) (Some 2027)).
Proof.
  apply (parse_prime_line empty_group (str "20120821044046") 6 100 10 (str "2") (str "7EB") 2 2027); try (by vm_compute); try lia;
    split; try done; repeat constructor.
Defined.

Lemma parse_prime_sound_witness : exists size g p, mkDhgroup 11 (Some 2) (Some 2027) = mkDhgroup size (Some g) (Some p) /\ BN_num_bits p = size.
Proof.
  destruct (parse_prime_sound demo_line empty_group (mkDhgroup 11 (Some 2) (Some 2027))) as (size & g & p & E & _ & Hb & _); [vm_compute; reflexivity|].
  exists size, g, p. split; [exact E|exact Hb].
Defined.

Lemma keyfile_line_ends_witness : is_Ok (read_keyfile_line 40 (str "ssh-rsa AAAA" ++ [10] ++ str "x") 8 0).
Proof. apply (keyfile_line_ends 40); [discriminate|vm_compute; lia]. Defined.

Example second_line : read_keyfile_line 40 (str "ssh-rsa AAAA" ++ [10] ++ str "x") 8 0 = Ok (Some (str "x"), [], 2).
Proof. reflexivity. Qed.

(** A zero byte in a line makes it look too long, and the line behind it is skipped. *)
Example line_behind_zero : read_keyfile_line 40 (str "a" ++ [0; 10] ++ str "key" ++ [10] ++ str "x") 80 0 = Ok (Some (str "x"), [], 2).
Proof. reflexivity. Qed.

End ToyText.
